(* ===== verification/_CoqProject ===== *)
-Q . S2P
Prelude.v
CStr.v
Version.v
KList.v
KListHeap.v
KListSort.v
Package.v
PkgHash.v
Deps.v
SortDeps.v
ResolveDeps.v
FileList.v
Conflict.v
Db.v
Handle.v
Remove.v
Sync.v
Trans.v
Util.v
LocalDb.v
Populate.v
PackInstall.v
FileSys.v
RemoveFiles.v
AddFiles.v
Commit.v
Ini.v
Hook.v
DiskSpace.v
KeyId.v
Archive.v
PkgFile.v
SyncDb.v
Signing.v
Validate.v
Dload.v
Conf.v
Apply.v
DbUpdate.v
Life.v
Options.v
