(* ===== verification/Prelude.v ===== *)
(** * A verification library for libkuzpkg

    ** The program

    kuzpkg is a package manager.  Its library, under src/lib/libkuzpkg, keeps
    the packages of a system in databases (one directory per installed package
    for the local one, archives for the repositories), plans changes to the set
    of installed packages as transactions, and carries them out on the file
    system.  The front end (src/src/kuzpkg) parses options and calls the library
    in order; src/src/common holds helpers both use; src/src/util/packinstall.c
    builds packages from source trees.

    A transaction runs through these parts.  [klpm_trans_init] takes the lock;
    [klpm_add_pkg], [klpm_remove_pkg] and [klpm_sync_sysupgrade] choose targets
    by comparing versions; [klpm_trans_prepare] resolves dependencies, removes
    conflicts, checks that nothing breaks and orders the targets;
    [klpm_trans_commit] loads and checks the package files, runs the hooks,
    removes old files, extracts new ones, and keeps the local database and the
    package cache in step.  [klpm_trans_release] gives the lock back.

    ** Files and sources

    - [Prelude]: C strings, comparison functions ([CmpOrder]), list lemmas,
      tactics.  [CStr]: string.h, rawstr.c, the hash of util.c.
    - [Version]: version.c.
    - [KList], [KListHeap], [KListSort]: klpm_list.c.  [KListHeap] has the
      doubly linked nodes on an explicit heap, with failing allocation and
      dereference; [KList] has the same operations on lists, which the other
      files use; [KListSort] proves the pointer code against the lists.
    - [Package]: package.c, backup.c, the records of klpm.h and package.h.
    - [PkgHash]: pkghash.c, the open-addressing table of a package cache.
    - [Deps], [SortDeps], [ResolveDeps]: deps.c and graph.c (checking, ordering,
      resolution and recursive removal).
    - [FileList]: filelist.c.  [Conflict]: conflict.c, package and file conflicts.
    - [Db]: db.c and group.c, the database object with its caches and status
      bits; the class [Backend] is what it needs of a backend, which may or may not
      fail.
    - [Util]: util-common.c and the number and name parsing of util.c.
      [LocalDb]: the desc and files entries of be_local.c, read and written.
      [Populate]: validation and population of be_local.c, an instance of
      [Db.Backend].
    - [Handle]: handle.c, the lock, and the life cycle calls of trans.c, add.c and
      remove.c.  [Remove]: preparing removals (remove.c).  [Sync]: system upgrade
      and preparing installations (sync.c).  [Trans]: trans.c and the commit loops.
    - [FileSys]: the POSIX file system the next files work on.  [RemoveFiles]:
      removing the files of a package (remove.c, be_local.c).  [AddFiles] and
      [Commit]: extraction and [commit_single_pkg] (add.c).  [Apply]: the loops of
      the commit over the real steps.
    - [Ini]: ini.c.  [Hook]: hook.c.
    - [DiskSpace]: diskspace.c, mount points and the space a transaction needs.
    - [Archive]: the line reader over archive blocks of util.c.  [PkgFile]: package
      files (be_package.c).  [SyncDb]: the archives of repositories (be_sync.c),
      another instance of [Db.Backend].
    - [KeyId]: the OpenPGP packets klpm_extract_keyid reads.  [Signing]: base64.c
      and how signing.c judges the answers of GPGME.  [Validate]: checking and
      loading the packages of a transaction (be_package.c, sync.c).
    - [Dload]: dload.c, servers and payloads around libcurl.  [DbUpdate]: updating
      the repositories with it (klpm_db_update of be_sync.c).
    - [Life]: the calls of a front end in any order, with the lock.  [Options]: making
      the handle (klpm.c), its options (handle.c) and registering databases (db.c).
    - [Conf]: conf.c of the front end, the configuration with its includes.
    - [PackInstall]: the pure parts of packinstall.c.

    ** Conventions

    C strings are lists of bytes.  Machine integers are Z with the wrap-around
    written out where it can happen.  A package object is a record whose
    [pkg_id] stands for its address; the fields only transactions use are kept
    in [Handle.objs] by address.  Allocation succeeds, except in [KListHeap] and
    for the list nodes of [PkgHash].  A null pointer that would be dereferenced,
    and fuel that runs out, are [None] or [NoFuel]; the theorems show that this
    does not happen, or under which conditions.  Messages, events and progress
    are left out; the answers of the question callback are a list that is used
    up.  What the library takes from outside is a parameter: fnmatch, regcomp,
    lstat, readdir, MD5, scriptlets, running a command, libarchive (class
    [AddFiles.Extract]), its blocks and entries, GPGME, libcurl (the sequence of its
    rounds), glob and realpath, permissions, and in [Trans] the steps for one
    package, which [Apply] fills in.

    Fuel: loops over linked lists take the heap size plus one; probes take the
    number of buckets; the graph walk takes targets plus installed packages for
    the outer and twice the vertices for the inner loop; the selection loops of
    recursive removal take the packages kept and removed; resolution takes the
    packages reachable; binary search the length plus one; cascading removal
    the installed packages; reading a file its bytes plus one or two, also the
    lines of an archive entry and the packets of a signature; wildcards the
    product of the lengths; included configuration files eleven levels, one more
    than the code allows.  Each bound is proved enough by the totality theorem or
    lemma of the function.  The rounds of a download depend on libcurl:
    [Dload.download_ends] shows that some number is enough when rounds that make
    progress keep coming.

    ** What is proved

    - Ordering and parsing: [Version.rpmvercmp_tokens] (the loop computes a
      comparison of token lists), transitivity of version comparison on versions
      without trailing separators, and that it fails otherwise; printing and
      parsing of dependencies, ini documents and database entries are inverse.
    - Data structures: sorting and merging of linked lists is memory safe,
      stable and correct; the hash table finds exactly what was added and not
      removed; file list operations; the caches of a database stay well formed
      under any sequence of operations and agree with each other as long as
      populating does not fail ([Db.db_reachable_ok]), and agree with the
      database directory ([Populate.local_cache_refines_directory]).
    - Planning: [Deps.checkdeps_consistent], [ResolveDeps.resolvedeps_spec],
      [SortDeps.sortbydeps_topological], [Remove.remove_prepare_spec],
      [Sync.sync_prepare_spec] and [Trans.trans_prepare_spec]: on a consistent
      system, with packages that have file names and loadable metadata, preparation
      ends, and unless flags switch the checks off, a prepared transaction leads to a
      system in which all dependencies are met and no declared conflict is left.
      [Conflict.fileconflicts_safe]: what the file conflict check lets through
      overwrites nothing foreign; conflicts between two targets are found when their
      file names are ASCII and no file of one is a directory of the other.
    - Carrying out: commit works only on a prepared transaction, under the lock
      unless klpm_unlock or klpm_db_update gave it back in between
      ([Life.commit_needs_lock], [Life.commit_without_lock]), and proceeds in order;
      removing files touches only the package's files and keeps changed
      configuration files whose hash can be computed, unless told otherwise;
      extraction follows the three-way rule for them; one step of an upgrade keeps a
      changed file that the new version has as a backup file and, when it
      succeeds, replaces the package in the cache and, as far as the disk obeys, in
      the database; a whole plan with a consistent outcome leaves a consistent
      system ([Apply.transaction_consistent]).
    - Hooks: which hooks are loaded, which apply, in which order they run, and
      what is fed to them.
    - Files from outside: loading a package file is safe when libarchive names every
      member and there is one .MTREE at most ([PkgFile.pkg_load_safe]), loading a
      repository when no line is longer than the first block of its entry and the
      names of the entries have the two hyphens expected ([SyncDb.sync_populate_safe];
      [SyncDb.dependency_line_freed] is what happens otherwise); both read back what
      was packed ([PkgFile.pkg_load_roundtrip], [SyncDb.sync_cache_refines_archive]).
      Lines are read within their buffers, key IDs but for one octet behind the
      signature; base64 decoding inverts encoding.
    - Trust: [Validate.sync_load_verified], what the checks of signature and checksum
      ensure of a file that is installed from a repository, and
      [Validate.empty_signature_skips_checksum], where they ensure nothing;
      [Conf.config_repositories], the signature level of every repository is what its
      configuration says.
    - The handle: [Options.handle_options_safe], the setters keep the options in order.
    - Space and network: [DiskSpace.check_diskspace_spec]; a download ends
      ([Dload.download_ends]) and delivers what it reports
      ([Dload.download_delivers]); updating the repositories reports exactly the
      failures it met ([DbUpdate.db_update_spec]).  [Conf.config_includes]: reading
      the configuration ends although files may include each other.
    - packinstall: shell quoting is safe and wildcards match as specified.

    ** Not modelled

    What GPGME, libcurl and libarchive do inside; the system calls of the sandbox
    and of child processes (_klpm_run_chroot, process control of packinstall.c);
    messages and logging; the variants for other systems than
    Linux; the front end's output, option handling and set-up of the library; the
    small tools and shell scripts.  packinstall-lfs.c is a variant of
    packinstall.c.  Symbolic links inside the directory part of a path are not
    followed in [FileSys]. *)

From Stdlib Require Export ZArith Lia Ascii.
From stdpp Require Export base gmap sets strings sorting numbers.
From stdpp Require Export list_basics list_relations list_monad list_misc list.

(** Strings are printed and parsed in Stdlib's [string_scope]; C strings are
    lists of 8-bit characters, the bytes before the terminating NUL. *)
Notation cstr := (list ascii).

Declare Scope klpm_scope.
Delimit Scope klpm_scope with klpm.

(** [lit "any"] is the C string literal ["any"]. *)
Definition lit (s : string) : cstr := String.list_ascii_of_string s.

(** Value of an [unsigned char] and of a (signed, as on x86) [char]. *)
Definition uchar (c : ascii) : Z := Z.of_nat (nat_of_ascii c).
Definition schar (c : ascii) : Z :=
  if decide (uchar c < 128)%Z then uchar c else (uchar c - 256)%Z.

(** Wrap-around of the machine integer types the sources use (LP64). *)
Definition u32 (z : Z) : Z := (z mod 2 ^ 32)%Z.
Definition u64 (z : Z) : Z := (z mod 2 ^ 64)%Z.
Lemma u64_small z : (0 <= z < 2 ^ 64)%Z -> u64 z = z.
Proof. intros H. unfold u64. by apply Z.mod_small. Qed.

(** ** Automation *)

Create HintDb klpm.

(** Case split on the innermost [if]/[match] scrutinee, keeping its equation. *)
Ltac split_match :=
  match goal with
  | |- context [match ?x with _ => _ end] =>
      lazymatch x with
      | context [match _ with _ => _ end] => fail
      | _ => destruct x eqn:?
      end
  end.

(** The same in a hypothesis. *)
Ltac split_match_in H :=
  match type of H with
  | context [match ?x with _ => _ end] =>
      lazymatch x with
      | context [match _ with _ => _ end] => fail
      | _ => destruct x eqn:?
      end
  end.

(** Turn boolean tests in the context into the propositions they decide. *)
Ltac bool_hyps :=
  repeat match goal with
  | H : (_ && _)%bool = true |- _ => apply andb_true_iff in H; destruct H
  | H : (_ || _)%bool = false |- _ => apply orb_false_iff in H; destruct H
  | H : negb _ = true |- _ => apply negb_true_iff in H
  | H : negb _ = false |- _ => apply negb_false_iff in H
  | H : bool_decide _ = true |- _ => apply bool_decide_eq_true_1 in H
  | H : bool_decide _ = false |- _ => apply bool_decide_eq_false_1 in H
  | H : (_ =? _)%Z = true |- _ => apply Z.eqb_eq in H
  | H : (_ =? _)%Z = false |- _ => apply Z.eqb_neq in H
  | H : (_ <? _)%Z = true |- _ => apply Z.ltb_lt in H
  | H : (_ <? _)%Z = false |- _ => apply Z.ltb_ge in H
  | H : (_ <=? _)%Z = true |- _ => apply Z.leb_le in H
  | H : (_ <=? _)%Z = false |- _ => apply Z.leb_gt in H
  | H : (_ =? _)%nat = true |- _ => apply Nat.eqb_eq in H
  | H : (_ =? _)%nat = false |- _ => apply Nat.eqb_neq in H
  end.

(** Decide a closed decidable goal by evaluation. *)
Ltac by_decide := apply (bool_decide_unpack _); vm_compute; exact I.

(** ** Three-way comparison functions

    [klpm_list_fn_cmp] is the comparison type of the list library: a function
    whose result is negative, zero or positive.  [CmpOrder] is what a
    comparison function promises to the sorting and merging code. *)

Class CmpOrder {A : Type} (cmp : A -> A -> Z) : Prop := {
  cmp_refl x : cmp x x = 0%Z;
  cmp_antisym x y : (cmp x y <= 0)%Z <-> (0 <= cmp y x)%Z;
  cmp_trans x y z : (cmp x y <= 0)%Z -> (cmp y z <= 0)%Z -> (cmp x z <= 0)%Z
}.

(** A comparison function that identifies only equal keys. *)
Class CmpKey {A K : Type} (cmp : A -> A -> Z) (key : A -> K) : Prop :=
  cmp_key x y : cmp x y = 0%Z <-> key x = key y.

Section CmpOrder.
Context {A : Type} (cmp : A -> A -> Z) `{!CmpOrder cmp}.

Lemma cmp_total x y : (cmp x y <= 0)%Z \/ (cmp y x <= 0)%Z.
Proof.
  destruct (Z.le_gt_cases (cmp x y) 0); [by left|right].
  apply cmp_antisym. lia.
Qed.

Lemma cmp_opp_lt x y : (cmp x y < 0)%Z <-> (0 < cmp y x)%Z.
Proof.
  pose proof (cmp_antisym x y). pose proof (cmp_antisym y x). lia.
Qed.

Lemma cmp_opp_eq x y : cmp x y = 0%Z <-> cmp y x = 0%Z.
Proof.
  pose proof (cmp_antisym x y). pose proof (cmp_antisym y x). lia.
Qed.

Lemma cmp_lt_le_trans x y z :
  (cmp x y < 0)%Z -> (cmp y z <= 0)%Z -> (cmp x z < 0)%Z.
Proof.
  intros Hxy Hyz. apply cmp_opp_lt.
  destruct (Z.le_gt_cases (cmp z x) 0) as [Hzx|]; [|lia].
  pose proof (cmp_trans _ _ _ Hyz Hzx). apply cmp_opp_lt in Hxy. lia.
Qed.

Lemma cmp_le_lt_trans x y z :
  (cmp x y <= 0)%Z -> (cmp y z < 0)%Z -> (cmp x z < 0)%Z.
Proof.
  intros Hxy Hyz. apply cmp_opp_lt.
  destruct (Z.le_gt_cases (cmp z x) 0) as [Hzx|]; [|lia].
  pose proof (cmp_trans _ _ _ Hzx Hxy). apply cmp_opp_lt in Hyz. lia.
Qed.

Lemma cmp_eq_trans x y z : cmp x y = 0%Z -> cmp y z = 0%Z -> cmp x z = 0%Z.
Proof.
  intros Hxy Hyz. apply Z.le_antisymm.
  - apply (cmp_trans x y z); lia.
  - apply cmp_antisym. apply (cmp_trans z y x).
    + apply cmp_opp_eq in Hyz. lia.
    + apply cmp_opp_eq in Hxy. lia.
Qed.

(** The order relation a comparison function induces. *)
Definition cmp_le (x y : A) : Prop := (cmp x y <= 0)%Z.

#[global] Instance cmp_le_dec : RelDecision cmp_le.
Proof. intros x y. unfold cmp_le. apply _. Defined.

#[global] Instance cmp_le_preorder : PreOrder cmp_le.
Proof.
  split; red; unfold cmp_le; intros; [rewrite cmp_refl; lia|].
  by eapply cmp_trans.
Qed.

#[global] Instance cmp_le_total : Total cmp_le.
Proof. intros x y. apply cmp_total. Qed.
End CmpOrder.

(** Comparing through a projection keeps the order laws: every comparison
    function of the sources compares one field with [strcmp]. *)
Lemma cmp_order_proj {A B} (f : A -> B) (cmp : B -> B -> Z) :
  CmpOrder cmp -> CmpOrder (fun x y => cmp (f x) (f y)).
Proof.
  intros H. split; intros.
  - apply cmp_refl.
  - apply cmp_antisym.
  - by eapply cmp_trans.
Qed.

#[export] Hint Resolve cmp_refl : klpm.

(** ** List lemmas shared by the components *)

(** First element satisfying a boolean test. *)
Definition find_first {A} (f : A -> bool) (l : list A) : option A := List.find f l.

Lemma find_first_Some {A} (f : A -> bool) l x :
  find_first f l = Some x -> x ∈ l /\ f x = true.
Proof.
  intros H. apply List.find_some in H. by rewrite list_elem_of_In.
Qed.

Lemma find_first_None {A} (f : A -> bool) l :
  find_first f l = None <-> (forall x, x ∈ l -> f x = false).
Proof.
  split.
  - intros H x Hx. apply list_elem_of_In in Hx. by eapply List.find_none.
  - induction l as [|a l IH]; simpl; intros H; [done|].
    rewrite (H a) by set_solver. apply IH. set_solver.
Qed.

Lemma find_first_is_Some {A} (f : A -> bool) l :
  is_Some (find_first f l) <-> (exists x, x ∈ l /\ f x = true).
Proof.
  split.
  - intros [x Hx]. apply find_first_Some in Hx. eauto.
  - intros (x & Hx & Hf). destruct (find_first f l) eqn:E; [done|].
    rewrite find_first_None in E. rewrite E in Hf; done.
Qed.

Lemma list_filter_sublist {A} (f : A -> bool) (l : list A) : sublist (List.filter f l) l.
Proof. induction l as [|x l IH]; simpl; [done|]. destruct (f x); by constructor. Qed.

Lemma filter_keep {A} (P : A -> Prop) `{!forall x, Decision (P x)} (l : list A) : (forall x, x ∈ l -> P x) -> filter P l = l.
Proof.
  induction l as [|x l IH]; intros Hl; [done|]. rewrite filter_cons_True by (apply Hl; left). f_equal. apply IH. intros y Hy. apply Hl. by right.
Qed.

Lemma NoDup_sub {A} (l k : list A) : l ⊆+ k -> NoDup k -> NoDup l.
Proof.
  intros [r Hr]%submseteq_Permutation. rewrite Hr. intros H. by apply NoDup_app in H as (? & _ & _).
Qed.

#[export] Hint Resolve find_first_Some : klpm.
