(* ===== verification/CStr.v ===== *)
(** * C strings

    The functions of <string.h> and <ctype.h> the sources call, and the string
    helpers of [src/lib/libkuzpkg/rawstr.c] and [src/lib/libkuzpkg/util.c].

    A C string is the list of its bytes before the NUL.  A [char *] pointing
    into a string is the suffix it points to; an index is a [nat]. *)

From S2P Require Import Prelude.
Local Open Scope Z_scope.

(** ** <string.h> *)

(** [strcmp] compares as [unsigned char]; only the sign is specified. *)
Fixpoint strcmp (a b : cstr) : Z :=
  match a, b with
  | [], [] => 0
  | [], _ :: _ => -1
  | _ :: _, [] => 1
  | x :: a', y :: b' =>
      if uchar x <? uchar y then -1
      else if uchar y <? uchar x then 1
      else strcmp a' b'
  end.

(** [strchr s c]: the suffix that starts at the first [c]. *)
Fixpoint strchr (s : cstr) (c : ascii) : option cstr :=
  match s with
  | [] => None
  | x :: s' => if decide (x = c) then Some s else strchr s' c
  end.

(** [memchr s c n], as an offset into [s]. *)
Fixpoint memchr (s : cstr) (c : ascii) (n : nat) : option nat :=
  match n, s with
  | S n', x :: s' => if decide (x = c) then Some 0%nat else S <$> memchr s' c n'
  | _, _ => None
  end.

(** [is_prefix p s]: [strncmp(p, s, strlen(p)) == 0]. *)
Fixpoint is_prefix (p s : cstr) : bool :=
  match p, s with
  | [], _ => true
  | x :: p', y :: s' => bool_decide (x = y) && is_prefix p' s'
  | _ :: _, [] => false
  end.

(** [strstr s needle], as an offset into [s]. *)
Fixpoint strstr (s needle : cstr) : option nat :=
  if is_prefix needle s then Some 0%nat
  else match s with
       | [] => None
       | _ :: s' => S <$> strstr s' needle
       end.

(** [strncmp a b n == 0] *)
Definition strncmp_eq (a b : cstr) (n : nat) : bool :=
  bool_decide (take n a = take n b).

(** ** <ctype.h>, in the C locale *)

Definition isdigit (c : ascii) : bool := (48 <=? uchar c) && (uchar c <=? 57).
Definition isalpha (c : ascii) : bool :=
  ((65 <=? uchar c) && (uchar c <=? 90)) || ((97 <=? uchar c) && (uchar c <=? 122)).
Definition isalnum (c : ascii) : bool := isdigit c || isalpha c.
Definition isspace (c : ascii) : bool := (uchar c =? 32) || ((9 <=? uchar c) && (uchar c <=? 13)).

(** [while(p( *s )) s++;], giving the characters passed and the rest. *)
Fixpoint span (p : ascii -> bool) (s : cstr) : cstr * cstr :=
  match s with
  | [] => ([], [])
  | c :: s' => if p c then let '(a, b) := span p s' in (c :: a, b) else ([], s)
  end.

(** ** rawstr.c *)

(** The [switch] of [raw_toupper] maps 'a'..'z' to 'A'..'Z'. *)
Definition raw_toupper (c : ascii) : ascii :=
  if (97 <=? uchar c) && (uchar c <=? 122)
  then ascii_of_nat (nat_of_ascii c - 32) else c.

(** [raw_toupper] of the character a pointer points to, 0 at the NUL. *)
Definition raw_head (s : cstr) : Z :=
  match s with [] => 0 | c :: _ => schar (raw_toupper c) end.

Fixpoint raw_cmp (first second : cstr) : Z :=
  match first, second with
  | x :: first', y :: second' =>
      if decide (raw_toupper x = raw_toupper y) then raw_cmp first' second'
      else raw_head first - raw_head second
  | _, _ => raw_head first - raw_head second
  end.

Fixpoint raw_ncmp (first second : cstr) (max : nat) : Z :=
  match max with
  | O => 0
  | S max' =>
      match first, second with
      | x :: first', y :: second' =>
          if decide (raw_toupper x = raw_toupper y) then raw_ncmp first' second' max'
          else raw_head first - raw_head second
      | _, _ => raw_head first - raw_head second
      end
  end.

(** ** util.c *)

(** [hash = c + hash * 65599] over the characters, at 64 bits; [c] is an [int]
    holding a signed [char]. *)
Definition hash_step (hash : Z) (c : ascii) : Z := u64 (schar c + hash * 65599).
Definition hash_sdbm (str : cstr) : Z := fold_left hash_step str 0.
#[global] Arguments hash_sdbm : simpl never.

(** [_klpm_strip_newline] called with the length of the string, or with 0. *)
Fixpoint strip_newline_len (str : cstr) (len : nat) : nat :=
  match len with
  | O => O
  | S len' => if decide (str !! len' = Some (ascii_of_nat 10)) then strip_newline_len str len' else len
  end.
Definition strip_newline (str : cstr) (len : nat) : cstr * nat :=
  match str with
  | [] => (str, 0%nat)
  | _ => let len := if (len =? 0)%nat then length str else len in
         let len' := strip_newline_len str len in
         (take len' str, len')
  end.

(** ** Laws *)

Lemma uchar_inj c d : uchar c = uchar d -> c = d.
Proof.
  unfold uchar. intros H. apply Nat2Z.inj in H.
  rewrite <- (ascii_nat_embedding c), <- (ascii_nat_embedding d). by rewrite H.
Qed.

Lemma uchar_range c : 0 <= uchar c < 256.
Proof. unfold uchar. pose proof (nat_ascii_bounded c). lia. Qed.

Lemma strcmp_opp a b : strcmp b a = - strcmp a b.
Proof.
  revert b. induction a as [|x a IH]; intros [|y b]; simpl; try done.
  destruct (Z.ltb_spec (uchar x) (uchar y)), (Z.ltb_spec (uchar y) (uchar x)); try lia.
  apply IH.
Qed.

Lemma strcmp_eq a b : strcmp a b = 0 <-> a = b.
Proof.
  revert b. induction a as [|x a IH]; intros [|y b]; simpl; try done.
  destruct (Z.ltb_spec (uchar x) (uchar y)).
  { split; [lia|]. intros [=]; subst; lia. }
  destruct (Z.ltb_spec (uchar y) (uchar x)).
  { split; [lia|]. intros [=]; subst; lia. }
  rewrite IH. assert (x = y) by (apply uchar_inj; lia). naive_solver.
Qed.

Lemma strcmp_refl a : strcmp a a = 0.
Proof. by apply strcmp_eq. Qed.

Lemma strcmp_trans a b c : strcmp a b <= 0 -> strcmp b c <= 0 -> strcmp a c <= 0.
Proof.
  revert b c. induction a as [|x a IH]; intros [|y b] [|z c]; simpl; try lia.
  destruct (Z.ltb_spec (uchar x) (uchar y)), (Z.ltb_spec (uchar y) (uchar z)),
    (Z.ltb_spec (uchar x) (uchar z)), (Z.ltb_spec (uchar y) (uchar x)),
    (Z.ltb_spec (uchar z) (uchar y)), (Z.ltb_spec (uchar z) (uchar x)); try lia.
  apply IH.
Qed.

#[global] Instance strcmp_order : CmpOrder strcmp.
Proof.
  split.
  - apply strcmp_refl.
  - intros x y. rewrite (strcmp_opp x y). lia.
  - apply strcmp_trans.
Qed.

#[global] Instance strcmp_key : CmpKey strcmp (fun s => s).
Proof. intros a b. apply strcmp_eq. Qed.

(** [-1], [0] and [1] are the only results of the model of [strcmp]. *)
Lemma strcmp_range a b : strcmp a b = -1 \/ strcmp a b = 0 \/ strcmp a b = 1.
Proof.
  revert b. induction a as [|x a IH]; intros [|y b]; simpl; auto.
  destruct (_ <? _); [auto|]. destruct (_ <? _); auto.
Qed.

Lemma span_app p s : (span p s).1 ++ (span p s).2 = s.
Proof.
  induction s as [|c s IH]; simpl; [done|].
  destruct (p c); [|done]. destruct (span p s) as [u v]; simpl in *. by rewrite IH.
Qed.

Lemma span_all p s : Forall (fun c => p c = true) (span p s).1.
Proof.
  induction s as [|c s IH]; simpl; [done|].
  destruct (p c) eqn:E; [|done]. destruct (span p s) as [u v]; simpl in *. by constructor.
Qed.

Lemma span_stop p s c r : (span p s).2 = c :: r -> p c = false.
Proof.
  induction s as [|d s IH]; simpl; [done|].
  destruct (p d) eqn:E; [|naive_solver]. destruct (span p s) as [u v]; simpl in *. apply IH.
Qed.

Lemma span_length p s : length s = (length (span p s).1 + length (span p s).2)%nat.
Proof. rewrite <- (span_app p s) at 1. by rewrite length_app. Qed.

(** Splitting a string at the first character outside a class. *)
Lemma span_app_l p u v :
  Forall (fun c => p c = true) u ->
  (match v with [] => True | c :: _ => p c = false end) ->
  span p (u ++ v) = (u, v).
Proof.
  induction 1 as [|c u Hc Hu IH]; intros Hv; simpl.
  - destruct v as [|c v]; simpl; [done|]. by rewrite Hv.
  - by rewrite Hc, IH.
Qed.

Lemma strchr_Some s c r :
  strchr s c = Some r -> exists u, s = u ++ r /\ c ∉ u /\ head r = Some c.
Proof.
  induction s as [|x s IH]; simpl; [done|]. case_decide as E.
  - intros [= <-]. exists []. simpl. split_and!; [done|set_solver|by subst].
  - intros H. destruct (IH H) as (u & -> & Hu & Hr). exists (x :: u). split_and!; [done|set_solver|done].
Qed.

Lemma strchr_split s c r : strchr s c = Some r -> exists u r', s = u ++ c :: r' /\ r = c :: r' /\ c ∉ u.
Proof. intros (u & -> & Hu & Hh)%strchr_Some. destruct r as [|x r]; [done|]. injection Hh as ->. eauto. Qed.

Lemma strchr_None s c : strchr s c = None <-> c ∉ s.
Proof.
  induction s as [|x s IH]; simpl; [set_solver|]. case_decide; [set_solver|]. rewrite IH. set_solver.
Qed.

Lemma strchr_app u r c : c ∉ u -> strchr (u ++ c :: r) c = Some (c :: r).
Proof.
  induction u as [|x u IH]; simpl; intros H; [by rewrite decide_True|].
  rewrite decide_False by set_solver. apply IH. set_solver.
Qed.

Lemma memchr_Some s c n k :
  memchr s c n = Some k -> (k < n)%nat /\ s !! k = Some c.
Proof.
  revert s k. induction n as [|n IH]; intros [|x s] k; simpl; try done. case_decide as E.
  - intros [= <-]. split; [lia|]. by subst.
  - destruct (memchr s c n) as [j|] eqn:Ej; simpl; [|done]. intros [= <-].
    destruct (IH _ _ Ej). split; [lia|done].
Qed.

Lemma memchr_first s c n k : memchr s c n = Some k -> c ∉ take k s.
Proof.
  revert s k. induction n as [|n IH]; intros [|x s] k; simpl; try done. case_decide as E; [by intros [= <-] ?%elem_of_nil|].
  destruct (memchr s c n) as [j|] eqn:Ej; [|done]. intros [= <-]. cbn [take]. rewrite not_elem_of_cons. split; [done|by apply IH].
Qed.
Lemma memchr_None s c n : memchr s c n = None <-> c ∉ take n s.
Proof.
  revert s. induction n as [|n IH]; intros [|x s]; simpl; try set_solver.
  case_decide as E; [set_solver|]. specialize (IH s). rewrite fmap_None, IH. set_solver.
Qed.

Lemma memchr_app u c v n : c ∉ u -> (length u < n)%nat -> memchr (u ++ c :: v) c n = Some (length u).
Proof.
  revert n. induction u as [|x u IH]; intros [|n]; simpl; intros Hc Hn; try lia.
  - by rewrite decide_True.
  - rewrite decide_False by set_solver. rewrite IH; [done|set_solver|lia].
Qed.

Lemma is_prefix_spec p s : is_prefix p s = true <-> exists r, s = p ++ r.
Proof.
  revert s. induction p as [|x p IH]; intros s; simpl.
  - split; [intros _; by exists s|done].
  - destruct s as [|y s]; [split; [done|intros [r [=]]]|].
    rewrite andb_true_iff, bool_decide_eq_true, IH. split.
    + intros [-> [r ->]]. by exists r.
    + intros [r [= -> ->]]. eauto.
Qed.

Lemma strstr_Some s n k : strstr s n = Some k -> exists u v, s = u ++ n ++ v /\ length u = k.
Proof.
  revert k. induction s as [|x s IH]; intros k; simpl.
  - destruct (is_prefix n []) eqn:E; [|done]. intros [= <-]. apply is_prefix_spec in E as [r E].
    exists [], r. by split.
  - destruct (is_prefix n (x :: s)) eqn:E.
    + intros [= <-]. apply is_prefix_spec in E as [r E]. exists [], r. by split.
    + destruct (strstr s n) as [j|]; simpl; [|done]. intros [= <-].
      destruct (IH _ eq_refl) as (u & v & -> & <-). by exists (x :: u), v.
Qed.

Lemma hash_step_range h c : 0 <= hash_step h c < 2 ^ 64.
Proof. unfold hash_step, u64. apply Z.mod_pos_bound. lia. Qed.

Lemma hash_sdbm_range s : 0 <= hash_sdbm s < 2 ^ 64.
Proof.
  unfold hash_sdbm. induction s as [|s c IH] using rev_ind; simpl; [lia|].
  rewrite fold_left_app. apply hash_step_range.
Qed.

#[export] Hint Resolve strcmp_refl hash_sdbm_range : klpm.
