(* ===== verification/Version.v ===== *)
(** * Version comparison ([src/lib/libkuzpkg/version.c])

    [parseEVR], [rpmvercmp] and [klpm_pkg_vercmp].  The C code walks two
    pointers over copies of the strings; here a pointer is the suffix it points
    to.  The [while] loop of [rpmvercmp] takes fuel, and one more than the
    length of the first string is always enough ([rpmvercmp_loop_total]).

    The reference definition reads a version as a list of segments, each with
    the number of separator characters before it, and compares two lists
    lexicographically; [rpmvercmp] computes it ([rpmvercmp_tokens]). *)

From S2P Require Import Prelude CStr.
Local Open Scope Z_scope.

Module Version.

(** ** parseEVR *)

Record evr := { evr_epoch : cstr; evr_version : cstr; evr_release : option cstr }.

(** Cut the string at the first '-' of [s]: what [*se++ = '\0'] leaves before
    and after it. *)
Definition cut_release (s : cstr) : cstr * option cstr :=
  match strchr s "-"%char with
  | Some se => (take (length s - length se) s, Some (tail se))
  | None => (s, None)
  end.

(** [s] is advanced over the leading digits of [str]; the search for '-' starts
    there. *)
Definition parseEVR (str : cstr) : evr :=
  let '(digits, s) := span isdigit str in
  match s with
  | ":"%char :: s' =>
      let '(version, release) := cut_release s' in
      {| evr_epoch := match digits with [] => lit "0" | _ => digits end;
         evr_version := version; evr_release := release |}
  | _ =>
      let '(rest, release) := cut_release s in
      {| evr_epoch := lit "0"; evr_version := digits ++ rest; evr_release := release |}
  end.

(** ** rpmvercmp *)

Definition not_alnum (c : ascii) : bool := negb (isalnum c).
Definition is_zero (c : ascii) : bool := bool_decide (c = "0"%char).

(** The end of the function, after the loop: at least one string is used up. *)
Definition final_showdown (one two : cstr) : Z :=
  match one, two with
  | [], [] => 0
  | [], t :: _ => if negb (isalpha t) then -1 else 1
  | o :: _, _ => if isalpha o then -1 else 1
  end.

(** Comparison of two non-empty segments of the same kind. *)
Definition seg_cmp (isnum : bool) (one two : cstr) : Z :=
  let one := if isnum then (span is_zero one).2 else one in
  let two := if isnum then (span is_zero two).2 else two in
  if isnum && (length two <? length one)%nat then 1
  else if isnum && (length one <? length two)%nat then -1
  else let rc := strcmp one two in
       if rc =? 0 then 0 else if rc <? 1 then -1 else 1.

Fixpoint rpmvercmp_loop (fuel : nat) (one two : cstr) : option Z :=
  match fuel with
  | O => None
  | S fuel =>
      match one, two with
      | [], _ | _, [] => Some (final_showdown one two)
      | _, _ =>
          let '(sep1, one) := span not_alnum one in
          let '(sep2, two) := span not_alnum two in
          match one, two with
          | o :: _, _ :: _ =>
              if negb (length sep1 =? length sep2)%nat
              then Some (if (length sep1 <? length sep2)%nat then -1 else 1)
              else
                let isnum := isdigit o in
                let cls := if isnum then isdigit else isalpha in
                let '(seg1, ptr1) := span cls one in
                let '(seg2, ptr2) := span cls two in
                match seg1, seg2 with
                | [], _ => Some (-1)
                | _, [] => Some (if isnum then 1 else -1)
                | _, _ =>
                    let c := seg_cmp isnum seg1 seg2 in
                    if c =? 0 then rpmvercmp_loop fuel ptr1 ptr2 else Some c
                end
          | _, _ => Some (final_showdown one two)
          end
      end
  end.

Definition rpmvercmp (a b : cstr) : Z :=
  if strcmp a b =? 0 then 0
  else default 0 (rpmvercmp_loop (S (length a)) a b).

(** ** klpm_pkg_vercmp; [None] is the NULL pointer *)

Definition pkg_vercmp (a b : option cstr) : Z :=
  match a, b with
  | None, None => 0
  | None, Some _ => -1
  | Some _, None => 1
  | Some a, Some b =>
      if strcmp a b =? 0 then 0
      else
        let e1 := parseEVR a in
        let e2 := parseEVR b in
        let ret := rpmvercmp (evr_epoch e1) (evr_epoch e2) in
        if ret =? 0 then
          let ret := rpmvercmp (evr_version e1) (evr_version e2) in
          match evr_release e1, evr_release e2 with
          | Some r1, Some r2 => if ret =? 0 then rpmvercmp r1 r2 else ret
          | _, _ => ret
          end
        else ret
  end.

(** Cases of the project's own vercmp test suite. *)
Definition vc (a b : string) : Z := pkg_vercmp (Some (lit a)) (Some (lit b)).

Example vercmp_samples :
  vc "1.5.0" "1.5.0" = 0 /\ vc "1.5.1" "1.5.0" = 1 /\ vc "1.5" "1.5.1" = -1 /\
  vc "1.5.0-1" "1.5.0-2" = -1 /\ vc "1.5-1" "1.5" = 0 /\ vc "1.5b" "1.5" = -1 /\
  vc "1.5.b" "1.5" = 1 /\ vc "1.0.." "1.0." = 0 /\ vc "2___a" "2_a" = 1 /\
  vc "0:1.0" "1.0" = 0 /\ vc "1:1.0" "0:1.1" = 1 /\ vc "1.0a" "1.0alpha" = -1.
Proof. vm_compute. repeat split. Qed.

(** ** Reference definition: segments *)

(** A segment: the number of separators before it, whether it is numeric, and
    its characters. *)
Record token := Tok { t_sep : nat; t_num : bool; t_seg : cstr }.

(** The segments of a string, and whether separators follow the last one. *)
Fixpoint tokens (fuel : nat) (s : cstr) : list token * bool :=
  match fuel, s with
  | S fuel, _ :: _ =>
      let '(sep, r) := span not_alnum s in
      match r with
      | [] => ([], true)
      | o :: _ =>
          let '(seg, rest) := span (if isdigit o then isdigit else isalpha) r in
          let '(ts, e) := tokens fuel rest in
          (Tok (length sep) (isdigit o) seg :: ts, e)
      end
  | _, _ => ([], false)
  end.

Definition tokenise (s : cstr) : list token * bool := tokens (length s) s.

(** Fewer separators first, then alphabetic before numeric, then the text. *)
Definition tok_cmp (t u : token) : Z :=
  if (t_sep t <? t_sep u)%nat then -1
  else if (t_sep u <? t_sep t)%nat then 1
  else match t_num t, t_num u with
       | true, false => 1
       | false, true => -1
       | b, _ => seg_cmp b (t_seg t) (t_seg u)
       end.

(** The end of a version against a further segment of the other one. *)
Definition end_cmp (trail : bool) (u : token) : Z :=
  if negb trail && (0 <? t_sep u)%nat then -1 else if t_num u then -1 else 1.

Fixpoint toks_cmp (ts : list token) (e : bool) (us : list token) (f : bool) : Z :=
  match ts, us with
  | [], [] => if Bool.eqb e f then 0 else if e then 1 else -1
  | [], u :: _ => end_cmp e u
  | t :: _, [] => - end_cmp f t
  | t :: ts, u :: us => if tok_cmp t u =? 0 then toks_cmp ts e us f else tok_cmp t u
  end.

Definition ver_cmp (a b : list token * bool) : Z := toks_cmp a.1 a.2 b.1 b.2.

(** ** The loop computes the reference comparison *)

Lemma isalnum_cls o : isalnum o = true -> isdigit o = false -> isalpha o = true.
Proof. unfold isalnum. intros H Hd. by rewrite Hd in H. Qed.

Lemma span_not_alnum_head s sep o r :
  span not_alnum s = (sep, o :: r) -> isalnum o = true.
Proof.
  intros H. pose proof (span_stop not_alnum s o r) as Hs. rewrite H in Hs.
  specialize (Hs eq_refl). unfold not_alnum in Hs. by apply negb_false_iff in Hs.
Qed.

(** A segment starts with a character of its own class, so it is not empty. *)
Lemma seg_nonempty o r :
  isalnum o = true -> (span (if isdigit o then isdigit else isalpha) (o :: r)).1 <> [].
Proof.
  intros Ho. simpl. destruct (isdigit o) eqn:E.
  - rewrite E. by destruct (span isdigit r).
  - rewrite (isalnum_cls o Ho E). by destruct (span isalpha r).
Qed.

Lemma tokens_rest_length s sep o r seg rest :
  span not_alnum s = (sep, o :: r) ->
  span (if isdigit o then isdigit else isalpha) (o :: r) = (seg, rest) ->
  (length rest < length s)%nat.
Proof.
  intros Hs Hr. pose proof (seg_nonempty o r (span_not_alnum_head _ _ _ _ Hs)) as Hne.
  pose proof (span_length not_alnum s) as H1.
  pose proof (span_length (if isdigit o then isdigit else isalpha) (o :: r)) as H2.
  rewrite Hr in H2, Hne. rewrite Hs in H1. simpl in *.
  destruct seg; [done|]. simpl in *. lia.
Qed.

Lemma tokens_fuel f g s : (length s <= f)%nat -> (length s <= g)%nat -> tokens f s = tokens g s.
Proof.
  revert g s. induction f as [|f IH]; intros g s Hf Hg.
  - destruct s; [|simpl in *; lia]. by destruct g.
  - destruct s as [|c s]; [by destruct g|]. destruct g as [|g]; [simpl in *; lia|].
    cbn [tokens]. destruct (span not_alnum (c :: s)) as [sep r] eqn:Hs.
    destruct r as [|o r]; [done|].
    destruct (span (if isdigit o then isdigit else isalpha) (o :: r)) as [seg rest] eqn:Hr.
    pose proof (tokens_rest_length _ _ _ _ _ _ Hs Hr).
    simpl in *. rewrite (IH g rest); [done|lia|lia].
Qed.

Lemma tokenise_cons c s :
  tokenise (c :: s) =
  (let '(sep, r) := span not_alnum (c :: s) in
   match r with
   | [] => ([], true)
   | o :: _ =>
       let '(seg, rest) := span (if isdigit o then isdigit else isalpha) r in
       let '(ts, e) := tokenise rest in
       (Tok (length sep) (isdigit o) seg :: ts, e)
   end).
Proof.
  unfold tokenise. change (length (c :: s)) with (S (length s)). cbn [tokens].
  destruct (span not_alnum (c :: s)) as [sep r] eqn:Hs.
  destruct r as [|o r]; [done|].
  destruct (span (if isdigit o then isdigit else isalpha) (o :: r)) as [seg rest] eqn:Hr.
  pose proof (tokens_rest_length _ _ _ _ _ _ Hs Hr). simpl in *.
  rewrite (tokens_fuel (length s) (length rest) rest); [done|lia|lia].
Qed.

Lemma not_alnum_span_nil c s sep :
  span not_alnum (c :: s) = (sep, []) -> isalpha c = false.
Proof.
  simpl. destruct (not_alnum c) eqn:E; [|done]. intros _.
  unfold not_alnum, isalnum in E. apply negb_true_iff, orb_false_iff in E. tauto.
Qed.

Lemma isdigit_not_alpha c : isdigit c = true -> isalpha c = false.
Proof.
  unfold isdigit, isalpha. intros. bool_hyps.
  apply orb_false_iff. rewrite !andb_false_iff, !Z.leb_gt. lia.
Qed.

(** [seg_cmp] on segments of one kind, when the other has none of that kind. *)
Lemma span_other_kind o p r :
  isalnum o = true -> isalnum p = true -> isdigit o <> isdigit p ->
  span (if isdigit o then isdigit else isalpha) (p :: r) = ([], p :: r).
Proof.
  intros Ho Hp Hne. simpl. destruct (isdigit o) eqn:E.
  - destruct (isdigit p); done.
  - assert (isdigit p = true) as Hd by (destruct (isdigit p); done).
    by rewrite (isdigit_not_alpha _ Hd).
Qed.

Lemma final_showdown_opp one two :
  one = [] \/ two = [] -> final_showdown two one = - final_showdown one two.
Proof.
  intros [->| ->]; [destruct two as [|c]|destruct one as [|c]]; simpl; try done;
    by destruct (isalpha c).
Qed.

(** The end of one string against the other one, before any separator of the
    second string is skipped. *)
Lemma showdown_end two :
  final_showdown [] two = ver_cmp (tokenise []) (tokenise two).
Proof.
  destruct two as [|c two]; [done|]. rewrite tokenise_cons. unfold ver_cmp.
  destruct (span not_alnum (c :: two)) as [sep r] eqn:Hs.
  destruct r as [|o r].
  - simpl. by rewrite (not_alnum_span_nil _ _ _ Hs).
  - destruct (span (if isdigit o then isdigit else isalpha) (o :: r)) as [seg rest] eqn:Hr.
    destruct (tokenise rest) as [ts e]. simpl. unfold end_cmp. simpl.
    simpl in Hs. destruct (not_alnum c) eqn:E.
    + destruct (span not_alnum two) as [u v]. injection Hs as <- ->. simpl.
      unfold not_alnum, isalnum in E. apply negb_true_iff, orb_false_iff in E as [_ ->]. done.
    + injection Hs as <- -> _. simpl. unfold not_alnum in E. apply negb_false_iff in E.
      destruct (isdigit o) eqn:Ed.
      * by rewrite (isdigit_not_alpha _ Ed).
      * by rewrite (isalnum_cls o E Ed).
Qed.

(** ** Order laws of the segment comparison *)

Definition strip_zeros (s : cstr) : cstr := (span is_zero s).2.

Definition num_cmp (x y : cstr) : Z :=
  if (length y <? length x)%nat then 1
  else if (length x <? length y)%nat then -1 else strcmp x y.

Lemma strcmp_norm x y :
  (if strcmp x y =? 0 then 0 else if strcmp x y <? 1 then -1 else 1) = strcmp x y.
Proof. by destruct (strcmp_range x y) as [-> | [-> | ->]]. Qed.

Lemma seg_cmp_num x y : seg_cmp true x y = num_cmp (strip_zeros x) (strip_zeros y).
Proof. unfold seg_cmp, num_cmp. simpl. by rewrite strcmp_norm. Qed.

Lemma seg_cmp_alpha x y : seg_cmp false x y = strcmp x y.
Proof. unfold seg_cmp. simpl. by rewrite strcmp_norm. Qed.

#[global] Instance num_cmp_order : CmpOrder num_cmp.
Proof.
  split; unfold num_cmp.
  - intros x. rewrite Nat.ltb_irrefl. apply strcmp_refl.
  - intros x y. rewrite (strcmp_opp x y).
    destruct (Nat.ltb_spec (length x) (length y)), (Nat.ltb_spec (length y) (length x)); lia.
  - intros x y z. pose proof (strcmp_trans x y z).
    destruct (Nat.ltb_spec (length x) (length y)), (Nat.ltb_spec (length y) (length z)),
      (Nat.ltb_spec (length x) (length z)), (Nat.ltb_spec (length y) (length x)),
      (Nat.ltb_spec (length z) (length y)), (Nat.ltb_spec (length z) (length x)); lia.
Qed.

#[global] Instance seg_cmp_order isnum : CmpOrder (seg_cmp isnum).
Proof.
  destruct isnum.
  - pose proof (cmp_order_proj strip_zeros num_cmp num_cmp_order) as [H1 H2 H3].
    split; intros *; rewrite !seg_cmp_num; eauto.
  - split; intros *; rewrite !seg_cmp_alpha; [apply cmp_refl|apply cmp_antisym|apply cmp_trans].
Qed.

(** All comparison functions of this file answer [-1], [0] or [1]. *)
Lemma seg_cmp_range n x y : seg_cmp n x y = -1 \/ seg_cmp n x y = 0 \/ seg_cmp n x y = 1.
Proof.
  destruct n; [rewrite seg_cmp_num; unfold num_cmp|rewrite seg_cmp_alpha; apply strcmp_range].
  destruct (_ <? _)%nat; [auto|]. destruct (_ <? _)%nat; [auto|]. apply strcmp_range.
Qed.

Lemma seg_cmp_opp n x y : seg_cmp n y x = - seg_cmp n x y.
Proof.
  pose proof (cmp_antisym (cmp := seg_cmp n) x y).
  pose proof (cmp_antisym (cmp := seg_cmp n) y x).
  destruct (seg_cmp_range n x y) as [E|[E|E]], (seg_cmp_range n y x) as [E'|[E'|E']]; lia.
Qed.

Lemma tok_cmp_opp t u : tok_cmp u t = - tok_cmp t u.
Proof.
  unfold tok_cmp.
  destruct (Nat.ltb_spec (t_sep t) (t_sep u)), (Nat.ltb_spec (t_sep u) (t_sep t)); try lia.
  destruct (t_num t), (t_num u); try done; apply seg_cmp_opp.
Qed.

#[global] Instance tok_cmp_order : CmpOrder tok_cmp.
Proof.
  split.
  - intros x. unfold tok_cmp. rewrite Nat.ltb_irrefl. destruct (t_num x); apply cmp_refl.
  - intros x y. rewrite (tok_cmp_opp x y). lia.
  - intros x y z. unfold tok_cmp.
    pose proof (cmp_trans (cmp := seg_cmp true) (t_seg x) (t_seg y) (t_seg z)).
    pose proof (cmp_trans (cmp := seg_cmp false) (t_seg x) (t_seg y) (t_seg z)).
    destruct (Nat.ltb_spec (t_sep x) (t_sep y)), (Nat.ltb_spec (t_sep y) (t_sep z)),
      (Nat.ltb_spec (t_sep x) (t_sep z)), (Nat.ltb_spec (t_sep y) (t_sep x)),
      (Nat.ltb_spec (t_sep z) (t_sep y)), (Nat.ltb_spec (t_sep z) (t_sep x)); try lia.
    destruct (t_num x), (t_num y), (t_num z); lia.
Qed.

Lemma toks_cmp_opp ts e us f : toks_cmp us f ts e = - toks_cmp ts e us f.
Proof.
  revert us. induction ts as [|t ts IH]; intros [|u us]; simpl; try lia.
  - by destruct e, f.
  - rewrite (tok_cmp_opp t u).
    destruct (Z.eqb_spec (tok_cmp t u) 0) as [E|E].
    + rewrite E. simpl. apply IH.
    + destruct (Z.eqb_spec (- tok_cmp t u) 0); lia.
Qed.

Lemma ver_cmp_opp a b : ver_cmp b a = - ver_cmp a b.
Proof. apply toks_cmp_opp. Qed.

(** ** The loop computes the reference comparison *)

Lemma rpmvercmp_loop_tokens fuel one two :
  (length one < fuel)%nat ->
  rpmvercmp_loop fuel one two = Some (ver_cmp (tokenise one) (tokenise two)).
Proof.
  revert one two. induction fuel as [|fuel IH]; intros one two Hf; [lia|].
  destruct one as [|c one]; [simpl; by rewrite <- showdown_end|].
  destruct two as [|d two].
  { rewrite ver_cmp_opp, <- showdown_end, <- final_showdown_opp by auto. done. }
  cbn [rpmvercmp_loop]. rewrite !tokenise_cons.
  destruct (span not_alnum (c :: one)) as [sep1 r1] eqn:Hs1.
  destruct (span not_alnum (d :: two)) as [sep2 r2] eqn:Hs2.
  destruct r1 as [|o1 r1], r2 as [|o2 r2].
  - done.
  - destruct (span _ (o2 :: r2)) as [seg2 rest2]. destruct (tokenise rest2).
    simpl. f_equal. unfold ver_cmp, end_cmp. simpl.
    destruct (isdigit o2) eqn:E; [by rewrite (isdigit_not_alpha _ E)|].
    by rewrite (isalnum_cls _ (span_not_alnum_head _ _ _ _ Hs2) E).
  - destruct (span _ (o1 :: r1)) as [seg1 rest1]. destruct (tokenise rest1).
    simpl. f_equal. unfold ver_cmp, end_cmp. simpl.
    destruct (isdigit o1) eqn:E; [by rewrite (isdigit_not_alpha _ E)|].
    by rewrite (isalnum_cls _ (span_not_alnum_head _ _ _ _ Hs1) E).
  - pose proof (span_not_alnum_head _ _ _ _ Hs1) as Ho1.
    pose proof (span_not_alnum_head _ _ _ _ Hs2) as Ho2.
    destruct (span (if isdigit o1 then isdigit else isalpha) (o1 :: r1)) as [seg1 rest1] eqn:Hr1.
    pose proof (tokens_rest_length _ _ _ _ _ _ Hs1 Hr1) as Hlen.
    pose proof (seg_nonempty o1 r1 Ho1) as Hne1. rewrite Hr1 in Hne1. simpl in Hne1.
    destruct (span (if isdigit o2 then isdigit else isalpha) (o2 :: r2)) as [seg2 rest2] eqn:Hr2.
    pose proof (seg_nonempty o2 r2 Ho2) as Hne2. rewrite Hr2 in Hne2. simpl in Hne2.
    destruct (tokenise rest1) as [ts1 e1] eqn:Ht1.
    destruct (tokenise rest2) as [ts2 e2] eqn:Ht2.
    unfold ver_cmp. cbn [fst snd toks_cmp]. unfold tok_cmp at 1 2. cbn [t_sep t_num t_seg].
    destruct (Nat.eqb_spec (length sep1) (length sep2)) as [Hsep|Hsep]; cbn [negb].
    2: { destruct (Nat.ltb_spec (length sep1) (length sep2)); [done|].
         destruct (Nat.ltb_spec (length sep2) (length sep1)); [done|lia]. }
    rewrite Hsep, Nat.ltb_irrefl.
    destruct (decide (isdigit o1 = isdigit o2)) as [Hk|Hk].
    + rewrite Hk, Hr2. destruct seg1 as [|a seg1]; [done|]. destruct seg2 as [|b seg2]; [done|].
      replace (match isdigit o2 with true => _ | false => _ end)
        with (seg_cmp (isdigit o2) (a :: seg1) (b :: seg2)) by (by destruct (isdigit o2)).
      destruct (seg_cmp _ _ _ =? 0); [|done].
      rewrite IH by (simpl in *; lia). by rewrite Ht1, Ht2.
    + rewrite (span_other_kind o1 o2 r2 Ho1 Ho2 Hk). destruct seg1 as [|a seg1]; [done|].
      by destruct (isdigit o1), (isdigit o2).
Qed.

Lemma rpmvercmp_loop_total a b : is_Some (rpmvercmp_loop (S (length a)) a b).
Proof. rewrite rpmvercmp_loop_tokens by lia. eauto. Qed.

Lemma toks_cmp_refl ts e : toks_cmp ts e ts e = 0.
Proof.
  induction ts as [|t ts IH]; simpl; [by destruct e|].
  by rewrite (cmp_refl (cmp := tok_cmp)).
Qed.

Lemma rpmvercmp_ver_cmp a b : rpmvercmp a b = ver_cmp (tokenise a) (tokenise b).
Proof.
  unfold rpmvercmp. rewrite rpmvercmp_loop_tokens by lia. simpl.
  destruct (Z.eqb_spec (strcmp a b) 0) as [->%strcmp_eq|]; [|done].
  unfold ver_cmp. by rewrite toks_cmp_refl.
Qed.

Lemma rpmvercmp_opp a b : rpmvercmp b a = - rpmvercmp a b.
Proof. rewrite !rpmvercmp_ver_cmp. apply ver_cmp_opp. Qed.

(** ** Transitivity without trailing separators *)

Lemma end_cmp_le t : end_cmp false t <= 0 <-> (0 < t_sep t)%nat \/ t_num t = true.
Proof.
  unfold end_cmp. simpl. destruct (Nat.ltb_spec 0 (t_sep t)), (t_num t); naive_solver lia.
Qed.

Lemma end_cmp_mono t u :
  tok_cmp t u <= 0 -> end_cmp false t <= 0 -> end_cmp false u <= 0.
Proof.
  rewrite !end_cmp_le. unfold tok_cmp.
  destruct (Nat.ltb_spec (t_sep t) (t_sep u)), (Nat.ltb_spec (t_sep u) (t_sep t)); [lia..|].
  destruct (t_num t), (t_num u); naive_solver lia.
Qed.

Lemma end_cmp_between t u :
  ~ (end_cmp false t <= 0) -> end_cmp false u <= 0 -> tok_cmp t u < 0.
Proof.
  rewrite !end_cmp_le. unfold tok_cmp.
  destruct (Nat.ltb_spec (t_sep t) (t_sep u)), (Nat.ltb_spec (t_sep u) (t_sep t)); [lia..|].
  destruct (t_num t), (t_num u); naive_solver lia.
Qed.

Lemma end_cmp_range b t : end_cmp b t = -1 \/ end_cmp b t = 1.
Proof. unfold end_cmp. destruct (_ && _); [auto|]. destruct (t_num t); auto. Qed.

Lemma toks_cmp_cons_le t ts u us :
  toks_cmp (t :: ts) false (u :: us) false <= 0 <->
  tok_cmp t u < 0 \/ (tok_cmp t u = 0 /\ toks_cmp ts false us false <= 0).
Proof. cbn [toks_cmp]. destruct (Z.eqb_spec (tok_cmp t u) 0); lia. Qed.

Lemma toks_cmp_trans ts us vs :
  toks_cmp ts false us false <= 0 -> toks_cmp us false vs false <= 0 ->
  toks_cmp ts false vs false <= 0.
Proof.
  revert us vs. induction ts as [|t ts IH]; intros [|u us] [|v vs]; try done.
  - rewrite toks_cmp_cons_le. cbn [toks_cmp]. intros Hu Huv.
    apply (end_cmp_mono u); [lia|done].
  - cbn [toks_cmp]. intros Ht Hv. destruct (Z.eqb_spec (tok_cmp t v) 0);
      pose proof (end_cmp_between t v); destruct (end_cmp_range false t); lia.
  - rewrite toks_cmp_cons_le. cbn [toks_cmp]. intros Htu Hu.
    pose proof (end_cmp_mono t u).
    destruct (end_cmp_range false t), (end_cmp_range false u); lia.
  - rewrite !toks_cmp_cons_le. intros [H1|[H1 H1']] [H2|[H2 H2']].
    + left. apply (cmp_lt_le_trans tok_cmp t u v); lia.
    + left. apply (cmp_lt_le_trans tok_cmp t u v); lia.
    + left. apply (cmp_le_lt_trans tok_cmp t u v); lia.
    + right. split; [by apply (cmp_eq_trans tok_cmp t u v)|]. by apply (IH us).
Qed.

(** No separator characters at the end of the string. *)
Definition no_trailing_sep (s : cstr) : Prop := (tokenise s).2 = false.

Lemma rpmvercmp_trans a b c :
  no_trailing_sep a -> no_trailing_sep b -> no_trailing_sep c ->
  rpmvercmp a b <= 0 -> rpmvercmp b c <= 0 -> rpmvercmp a c <= 0.
Proof.
  unfold no_trailing_sep. rewrite !rpmvercmp_ver_cmp. unfold ver_cmp.
  intros -> -> ->. apply toks_cmp_trans.
Qed.

(** ** Full versions *)

Lemma pkg_vercmp_opp a b : pkg_vercmp b a = - pkg_vercmp a b.
Proof.
  destruct a as [a|], b as [b|]; simpl; try done.
  rewrite (strcmp_opp a b).
  rewrite (rpmvercmp_opp (evr_epoch (parseEVR a)) (evr_epoch (parseEVR b))),
    (rpmvercmp_opp (evr_version (parseEVR a)) (evr_version (parseEVR b))).
  destruct (Z.eqb_spec (strcmp a b) 0) as [->|].
  { done. }
  destruct (Z.eqb_spec (- strcmp a b) 0); [lia|].
  destruct (Z.eqb_spec (rpmvercmp (evr_epoch (parseEVR a)) (evr_epoch (parseEVR b))) 0) as [->|];
    [|destruct (Z.eqb_spec (- rpmvercmp (evr_epoch (parseEVR a)) (evr_epoch (parseEVR b))) 0); lia].
  simpl. destruct (evr_release (parseEVR a)) as [r1|], (evr_release (parseEVR b)) as [r2|]; try done.
  rewrite (rpmvercmp_opp r1 r2).
  destruct (Z.eqb_spec (rpmvercmp (evr_version (parseEVR a)) (evr_version (parseEVR b))) 0) as [->|];
    [done|].
  destruct (Z.eqb_spec (- rpmvercmp (evr_version (parseEVR a)) (evr_version (parseEVR b))) 0); lia.
Qed.

(** A full version: a release is present, and no component ends with a
    separator. *)
Definition full_version (v : cstr) : Prop :=
  let e := parseEVR v in
  no_trailing_sep (evr_epoch e) /\ no_trailing_sep (evr_version e) /\
  match evr_release e with Some r => no_trailing_sep r | None => False end.

#[global] Instance full_version_dec v : Decision (full_version v).
Proof.
  unfold full_version, no_trailing_sep. destruct (evr_release (parseEVR v)); apply _.
Defined.

(** Without the shortcut for identical strings. *)
Lemma pkg_vercmp_evr a b r1 r2 :
  evr_release (parseEVR a) = Some r1 -> evr_release (parseEVR b) = Some r2 ->
  pkg_vercmp (Some a) (Some b) =
  (let ep := rpmvercmp (evr_epoch (parseEVR a)) (evr_epoch (parseEVR b)) in
   let ve := rpmvercmp (evr_version (parseEVR a)) (evr_version (parseEVR b)) in
   if ep =? 0 then (if ve =? 0 then rpmvercmp r1 r2 else ve) else ep).
Proof.
  intros Ha Hb. simpl. rewrite Ha, Hb.
  destruct (Z.eqb_spec (strcmp a b) 0) as [->%strcmp_eq|]; [|done].
  rewrite Ha in Hb. injection Hb as ->.
  unfold rpmvercmp. by rewrite !strcmp_refl.
Qed.

(** The lexicographic step shared by epoch, version and release. *)
Lemma lex_trans x y z x' y' z' :
  (x <= 0 -> y <= 0 -> z <= 0) -> (x < 0 -> y <= 0 -> z < 0) -> (x <= 0 -> y < 0 -> z < 0) ->
  (x = 0 -> y = 0 -> z = 0) -> (x' <= 0 -> y' <= 0 -> z' <= 0) ->
  (if x =? 0 then x' else x) <= 0 -> (if y =? 0 then y' else y) <= 0 ->
  (if z =? 0 then z' else z) <= 0.
Proof.
  destruct (Z.eqb_spec x 0), (Z.eqb_spec y 0), (Z.eqb_spec z 0); lia.
Qed.

(** On strings without trailing separators the comparison has the order laws. *)
Lemma rpmvercmp_clean_laws a b c :
  no_trailing_sep a -> no_trailing_sep b -> no_trailing_sep c ->
  (rpmvercmp a b <= 0 -> rpmvercmp b c <= 0 -> rpmvercmp a c <= 0) /\
  (rpmvercmp a b < 0 -> rpmvercmp b c <= 0 -> rpmvercmp a c < 0) /\
  (rpmvercmp a b <= 0 -> rpmvercmp b c < 0 -> rpmvercmp a c < 0) /\
  (rpmvercmp a b = 0 -> rpmvercmp b c = 0 -> rpmvercmp a c = 0).
Proof.
  intros Ha Hb Hc.
  pose proof (rpmvercmp_trans a b c Ha Hb Hc). pose proof (rpmvercmp_trans b c a Hb Hc Ha).
  pose proof (rpmvercmp_trans c a b Hc Ha Hb). pose proof (rpmvercmp_trans c b a Hc Hb Ha).
  pose proof (rpmvercmp_opp a b). pose proof (rpmvercmp_opp b c). pose proof (rpmvercmp_opp a c).
  lia.
Qed.

(** ** Numeric meaning of a digit segment *)

Definition decval (s : cstr) : Z := fold_left (fun n c => 10 * n + (uchar c - 48)) s 0.

Lemma decval_from n s :
  fold_left (fun n c => 10 * n + (uchar c - 48)) s n = n * 10 ^ Z.of_nat (length s) + decval s.
Proof.
  unfold decval. revert n. induction s as [|c s IH]; intros n; cbn [fold_left].
  - rewrite Z.mul_1_r. lia.
  - rewrite (IH (10 * n + _)), (IH (10 * 0 + _)).
    change (length (c :: s)) with (S (length s)). rewrite Nat2Z.inj_succ, Z.pow_succ_r by lia. lia.
Qed.

Lemma decval_cons c s : decval (c :: s) = (uchar c - 48) * 10 ^ Z.of_nat (length s) + decval s.
Proof. unfold decval at 1. cbn [fold_left]. by rewrite decval_from. Qed.

Definition digits (s : cstr) : Prop := Forall (fun c => isdigit c = true) s.

Lemma decval_bound s : digits s -> 0 <= decval s < 10 ^ Z.of_nat (length s).
Proof.
  induction 1 as [|c s Hc Hs IH]; [done|]. rewrite decval_cons.
  change (length (c :: s)) with (S (length s)). rewrite Nat2Z.inj_succ, Z.pow_succ_r by lia.
  unfold isdigit in Hc. bool_hyps. nia.
Qed.

Lemma digits_strip s : digits s -> digits (strip_zeros s).
Proof.
  unfold digits, strip_zeros. intros H. rewrite <- (span_app is_zero s) in H.
  by apply Forall_app in H as [_ H].
Qed.

Lemma decval_strip s : decval (strip_zeros s) = decval s.
Proof.
  unfold strip_zeros. induction s as [|c s IH]; [done|]. cbn [span].
  destruct (is_zero c) eqn:E; [|done]. destruct (span is_zero s) as [u v]. simpl in *.
  rewrite decval_cons, IH. unfold is_zero in E. apply bool_decide_eq_true_1 in E as ->.
  change (uchar "0") with 48. lia.
Qed.

(** A stripped non-empty digit string has its leading power of ten. *)
Lemma decval_strip_lower s :
  digits s -> strip_zeros s <> [] ->
  10 ^ (Z.of_nat (length (strip_zeros s)) - 1) <= decval (strip_zeros s).
Proof.
  intros Hd%digits_strip Hne. destruct (strip_zeros s) as [|c r] eqn:E; [done|].
  rewrite decval_cons. change (length (c :: r)) with (S (length r)).
  replace (Z.of_nat (S (length r)) - 1) with (Z.of_nat (length r)) by lia.
  inversion Hd as [|? ? Hc Hr]; subst. pose proof (decval_bound r Hr).
  pose proof (span_stop is_zero s c r E) as Hz. unfold is_zero in Hz.
  apply bool_decide_eq_false_1 in Hz. unfold isdigit in Hc. bool_hyps.
  assert (uchar c <> 48) by (intros Hc; apply Hz, uchar_inj; done). nia.
Qed.

Lemma strcmp_decval x y :
  digits x -> digits y -> length x = length y ->
  strcmp x y = Z.sgn (decval x - decval y).
Proof.
  intros Hx. revert y. induction Hx as [|c x Hc Hx IH]; intros [|d y] Hy Hl; try done.
  inversion Hy as [|? ? Hd Hy']; subst. clear Hy. rename Hy' into Hy. simpl in Hl.
  pose proof (decval_bound x Hx). pose proof (decval_bound y Hy).
  assert (length x = length y) as Hl' by lia.
  cbn [strcmp]. rewrite !decval_cons. rewrite Hl' in *.
  destruct (Z.ltb_spec (uchar c) (uchar d)).
  { symmetry. apply Z.sgn_neg. nia. }
  destruct (Z.ltb_spec (uchar d) (uchar c)).
  { symmetry. apply Z.sgn_pos. nia. }
  rewrite (IH y Hy eq_refl). f_equal. replace (uchar c) with (uchar d) by lia. lia.
Qed.

Lemma num_cmp_longer x y :
  digits x -> digits y -> (length (strip_zeros x) < length (strip_zeros y))%nat ->
  decval (strip_zeros x) < decval (strip_zeros y).
Proof.
  intros Hx Hy Hl. pose proof (decval_bound _ (digits_strip x Hx)).
  assert (strip_zeros y <> []) as Hne by (intros E; rewrite E in Hl; simpl in Hl; lia).
  pose proof (decval_strip_lower y Hy Hne).
  pose proof (Z.pow_le_mono_r 10 (Z.of_nat (length (strip_zeros x)))
                (Z.of_nat (length (strip_zeros y)) - 1)). lia.
Qed.

(** ** parseEVR *)

Lemma cut_release_app p s : "-"%char ∉ p -> cut_release (p ++ "-"%char :: s) = (p, Some s).
Proof.
  intros H. unfold cut_release. rewrite strchr_app by done. simpl.
  rewrite length_app. simpl. f_equal. rewrite take_app_le by lia.
  rewrite take_ge; [done|lia].
Qed.

(** ** Properties *)

(** C39: [rpmvercmp], the pointer loop over two version strings, returns exactly
    the lexicographic comparison of the two segment lists (and so always
    terminates with an answer): separator counts first, alphabetic segments
    before numeric ones, then the segment contents. *)
Theorem rpmvercmp_tokens a b : rpmvercmp a b = ver_cmp (tokenise a) (tokenise b).
Proof. apply rpmvercmp_ver_cmp. Qed.

(** Swapping the arguments of [klpm_pkg_vercmp] negates the result, for all
    pairs of strings and NULL pointers: the comparison never answers "newer"
    in both directions. *)
Theorem pkg_vercmp_antisym a b : pkg_vercmp b a = - pkg_vercmp a b.
Proof. apply pkg_vercmp_opp. Qed.

(** [klpm_pkg_vercmp] is transitive on versions that carry a release and
    whose epoch, version and release do not end in separator characters. *)
Theorem pkg_vercmp_trans a b c :
  full_version a -> full_version b -> full_version c ->
  pkg_vercmp (Some a) (Some b) <= 0 -> pkg_vercmp (Some b) (Some c) <= 0 ->
  pkg_vercmp (Some a) (Some c) <= 0.
Proof.
  intros (Ea & Va & Ta) (Eb & Vb & Tb) (Ec & Vc & Tc).
  destruct (evr_release (parseEVR a)) as [ra|] eqn:Ra, (evr_release (parseEVR b)) as [rb|] eqn:Rb,
    (evr_release (parseEVR c)) as [rc|] eqn:Rc; try done.
  rewrite (pkg_vercmp_evr a b ra rb), (pkg_vercmp_evr b c rb rc), (pkg_vercmp_evr a c ra rc) by done.
  destruct (rpmvercmp_clean_laws _ _ _ Ea Eb Ec) as (E1 & E2 & E3 & E4).
  destruct (rpmvercmp_clean_laws _ _ _ Va Vb Vc) as (V1 & V2 & V3 & V4).
  destruct (rpmvercmp_clean_laws _ _ _ Ta Tb Tc) as (T1 & _).
  apply lex_trans; [done..|]. by apply lex_trans.
Qed.

Lemma pkg_vercmp_trans_witness :
  full_version (lit "1:1.0-1") /\ pkg_vercmp (Some (lit "1.5rc-1")) (Some (lit "2:0.9.1-3")) <= 0.
Proof.
  split.
  - by_decide.
  - apply (pkg_vercmp_trans (lit "1.5rc-1") (lit "1:1.0-1") (lit "2:0.9.1-3")); by_decide.
Defined.

(** With a trailing separator transitivity fails: 1.1 is older than 1..a,
    which is older than "1.", which is older than 1.1. *)
Theorem rpmvercmp_cycle :
  rpmvercmp (lit "1.1") (lit "1..a") < 0 /\ rpmvercmp (lit "1..a") (lit "1.") < 0 /\
  rpmvercmp (lit "1.") (lit "1.1") < 0.
Proof. vm_compute. repeat split. Qed.

(** A numeric segment compares as the number it denotes, whatever its
    length and its leading zeros (no conversion to a machine integer, so no
    overflow). *)
Theorem seg_cmp_decimal x y :
  digits x -> digits y -> seg_cmp true x y = Z.sgn (decval x - decval y).
Proof.
  intros Hx Hy. rewrite seg_cmp_num, <- (decval_strip x), <- (decval_strip y).
  unfold num_cmp.
  destruct (Nat.ltb_spec (length (strip_zeros y)) (length (strip_zeros x))) as [Hl|Hl].
  { pose proof (num_cmp_longer y x Hy Hx Hl). symmetry. apply Z.sgn_pos. lia. }
  destruct (Nat.ltb_spec (length (strip_zeros x)) (length (strip_zeros y))) as [Hl'|Hl'].
  { pose proof (num_cmp_longer x y Hx Hy Hl'). symmetry. apply Z.sgn_neg. lia. }
  apply strcmp_decval; [by apply digits_strip..|lia].
Qed.

Lemma seg_cmp_decimal_witness :
  seg_cmp true (lit "007") (lit "18446744073709551616")
  = Z.sgn (decval (lit "007") - decval (lit "18446744073709551616")).
Proof. apply (seg_cmp_decimal (lit "007") (lit "18446744073709551616")); repeat constructor. Defined.

(** [parseEVR] recovers the three components of a printed
    [epoch:version-release], with the release starting after the first '-' of
    the version part (so the release itself may contain '-'). *)
Theorem parseEVR_print e v r :
  digits e -> e <> [] -> "-"%char ∉ v ->
  parseEVR (e ++ ":"%char :: v ++ "-"%char :: r) =
  {| evr_epoch := e; evr_version := v; evr_release := Some r |}.
Proof.
  intros He Hne Hv. unfold parseEVR. rewrite span_app_l by done.
  rewrite cut_release_app by done. by destruct e.
Qed.

Lemma parseEVR_print_witness :
  parseEVR (lit "1:1.0-1-kuznix") =
  {| evr_epoch := lit "1"; evr_version := lit "1.0"; evr_release := Some (lit "1-kuznix") |}.
Proof.
  apply (parseEVR_print (lit "1") (lit "1.0") (lit "1-kuznix"));
    [repeat constructor|done|by_decide].
Defined.

End Version.
