(* ===== verification/KList.v ===== *)
(** * List algorithms ([src/lib/libkuzpkg/klpm_list.c])

    The functional reading of the list library: a [klpm_list_t *] whose nodes
    hold non-NULL data is the list of that data.  The algorithms that only walk
    their lists ([klpm_list_cmp_unsorted], [klpm_list_diff_sorted],
    [klpm_list_diff], [klpm_list_remove_dupes], [klpm_list_find]) are modelled
    here; the functions that relink nodes have a functional counterpart here
    ([mmerge], [msort], [add_sorted], [remove_first]) which the pointer code of
    [KListHeap] is proved to refine. *)

From S2P Require Import Prelude CStr.
Local Open Scope Z_scope.

Module KList.

Section Algorithms.
Context {A : Type} (fn : A -> A -> Z).

(** ** Functional counterparts of the relinking functions *)

Fixpoint mmerge (left : list A) : list A -> list A :=
  fix merge_right (right : list A) : list A :=
    match left, right with
    | [], _ => right
    | _, [] => left
    | x :: left', y :: right' =>
        if fn x y <=? 0 then x :: mmerge left' right else y :: merge_right right'
    end.

(** [n] is the length the caller passes. *)
Fixpoint msort (fuel n : nat) (l : list A) : list A :=
  match fuel with
  | O => l
  | S fuel =>
      if (1 <? n)%nat then
        let half := (n / 2)%nat in
        mmerge (msort fuel half (take half l)) (msort fuel (n - half) (drop half l))
      else l
  end.
Definition list_msort (l : list A) : list A := msort (length l) (length l) l.

Fixpoint add_sorted (l : list A) (x : A) : list A :=
  match l with
  | [] => [x]
  | y :: l' => if fn x y <=? 0 then x :: l else y :: add_sorted l' x
  end.

(** The needle is the second argument of [fn]. *)
Fixpoint remove_first {B} (f : A -> B -> Z) (l : list A) (needle : B) : list A :=
  match l with
  | [] => []
  | x :: l' => if f x needle =? 0 then l' else x :: remove_first f l' needle
  end.

(** ** Searching *)

Definition find {B} (f : A -> B -> Z) (haystack : list A) (needle : B) : option A :=
  find_first (fun x => f x needle =? 0) haystack.

(** ** klpm_list_cmp_unsorted *)

(** [while(l && r)]: are both used up together? *)
Fixpoint same_length (l r : list A) : bool :=
  match l, r with
  | _ :: l', _ :: r' => same_length l' r'
  | [], [] => true
  | _, _ => false
  end.

(** Skip the common part of two lists in the same order. *)
Fixpoint skip_same (left right : list A) : list A * list A :=
  match left, right with
  | x :: left', y :: right' =>
      if fn x y =? 0 then skip_same left' right' else (left, right)
  | _, _ => (left, right)
  end.

(** The inner loop over [right] with the [matched] array: [None] when no
    unmatched element equals [x]. *)
Fixpoint match_one (x : A) (right : list A) (matched : list bool) : option (list bool) :=
  match right, matched with
  | y :: right', m :: matched' =>
      if m then cons m <$> match_one x right' matched'
      else if fn x y =? 0 then Some (true :: matched')
      else cons m <$> match_one x right' matched'
  | _, _ => None
  end.

Fixpoint match_all (left right : list A) (matched : list bool) : Z :=
  match left with
  | [] => 1
  | x :: left' =>
      match match_one x right matched with
      | Some matched' => match_all left' right matched'
      | None => 0
      end
  end.

(** [calloc_ok]: whether the allocation of [matched] succeeds. *)
Definition cmp_unsorted (calloc_ok : bool) (left right : list A) : Z :=
  if negb (same_length left right) then 0
  else
    let '(l, r) := skip_same left right in
    match l with
    | [] => 1
    | _ => if calloc_ok
           then match_all l r (replicate (length r) false) else -1
    end.

(** ** klpm_list_diff_sorted and klpm_list_diff *)

(** The lists [*onlyleft] and [*onlyright] grow at their end. *)
Fixpoint diff_sorted (l : list A) : list A -> list A * list A :=
  fix diff_right (r : list A) : list A * list A :=
    match l, r with
    | [], _ => ([], r)
    | _, [] => (l, [])
    | x :: l', y :: r' =>
        let cmp := fn x y in
        if cmp <? 0 then
          let '(onlyleft, onlyright) := diff_sorted l' r in (x :: onlyleft, onlyright)
        else if 0 <? cmp then
          let '(onlyleft, onlyright) := diff_right r' in (onlyleft, y :: onlyright)
        else diff_sorted l' r'
    end.

Definition diff (lhs rhs : list A) : list A :=
  (diff_sorted (list_msort lhs) (list_msort rhs)).1.
End Algorithms.

(** ** klpm_list_remove_dupes: keeps the first occurrence of each pointer *)

Section Dupes.
Context {A : Type} `{EqDecision A}.

Definition find_ptr (haystack : list A) (needle : A) : option A :=
  find (fun p q => if decide (p = q) then 0 else 1) haystack needle.

Fixpoint remove_dupes_loop (newlist l : list A) : list A :=
  match l with
  | [] => newlist
  | x :: l' =>
      match find_ptr newlist x with
      | Some _ => remove_dupes_loop newlist l'
      | None => remove_dupes_loop (newlist ++ [x]) l'
      end
  end.
Definition remove_dupes (l : list A) : list A := remove_dupes_loop [] l.
End Dupes.

Definition find_str (haystack : list cstr) (needle : cstr) : option cstr :=
  find strcmp haystack needle.

(** ** Merging and sorting *)

Section Sorting.
Context {A : Type} (fn : A -> A -> Z) `{!CmpOrder fn}.
Implicit Types l r : list A.

Lemma mmerge_nil_l r : mmerge fn [] r = r.
Proof. by destruct r. Qed.

Lemma mmerge_nil_r l : mmerge fn l [] = l.
Proof. by destruct l. Qed.

Lemma mmerge_cons x l y r :
  mmerge fn (x :: l) (y :: r) =
  if fn x y <=? 0 then x :: mmerge fn l (y :: r) else y :: mmerge fn (x :: l) r.
Proof. done. Qed.

Lemma mmerge_perm l r : mmerge fn l r ≡ₚ l ++ r.
Proof.
  revert r. induction l as [|x l IHl]; intros r; [by rewrite mmerge_nil_l|].
  induction r as [|y r IHr]; [by rewrite mmerge_nil_r, app_nil_r|].
  rewrite mmerge_cons. destruct (_ <=? 0).
  - rewrite IHl. done.
  - rewrite IHr. by rewrite <- Permutation_middle.
Qed.

Lemma mmerge_sorted l r :
  StronglySorted (cmp_le fn) l -> StronglySorted (cmp_le fn) r ->
  StronglySorted (cmp_le fn) (mmerge fn l r).
Proof.
  intros Hl. revert r. induction Hl as [|x l Hl IHl Hx]; intros r Hr.
  { by rewrite mmerge_nil_l. }
  induction Hr as [|y r Hr IHr Hy].
  { rewrite mmerge_nil_r. by constructor. }
  rewrite mmerge_cons. destruct (Z.leb_spec (fn x y) 0) as [Hle|Hgt].
  - constructor; [by apply IHl; constructor|].
    rewrite mmerge_perm, Forall_app, Forall_cons. split_and!; [done|done|].
    eapply Forall_impl; [exact Hy|]. intros z Hz. by eapply cmp_trans.
  - constructor; [done|]. rewrite mmerge_perm. apply Forall_app; split; [|done].
    assert (cmp_le fn y x) as Hyx by (apply cmp_antisym; lia).
    constructor; [done|]. eapply Forall_impl; [exact Hx|]. intros z Hz. by eapply cmp_trans.
Qed.

(** The elements equal to [k] keep their relative order, left before right. *)
Definition eq_class (k : A) (l : list A) : list A := base.filter (fun x => fn x k = 0) l.

Lemma eq_class_above x k l :
  0 < fn x k -> Forall (cmp_le fn x) l -> eq_class k l = [].
Proof.
  intros Hxk. induction 1 as [|z l Hz Hl IH]; [done|].
  unfold eq_class in *. rewrite filter_cons, decide_False; [done|].
  intros Hzk. assert (fn x k <= 0); [|lia]. apply (cmp_trans x z k); [done|lia].
Qed.

Lemma mmerge_stable k l r :
  StronglySorted (cmp_le fn) l -> StronglySorted (cmp_le fn) r ->
  eq_class k (mmerge fn l r) = eq_class k l ++ eq_class k r.
Proof.
  intros Hl. revert r. induction Hl as [|x l Hl IHl Hx]; intros r Hr.
  { by rewrite mmerge_nil_l. }
  induction Hr as [|y r Hr IHr Hy].
  { by rewrite mmerge_nil_r, app_nil_r. }
  rewrite mmerge_cons. destruct (Z.leb_spec (fn x y) 0) as [Hle|Hgt].
  - unfold eq_class in *. rewrite !(filter_cons _ x). rewrite IHl by (by constructor).
    by case_decide.
  - unfold eq_class in *. rewrite (filter_cons _ y (mmerge _ _ _)), IHr, (filter_cons _ y r).
    case_decide as Hk; [|done].
    change (base.filter (fun z => fn z k = 0) (x :: l)) with (eq_class k (x :: l)).
    rewrite (eq_class_above x k (x :: l)); [done| |constructor; [|done]].
    2: { unfold cmp_le. rewrite cmp_refl. lia. }
    apply cmp_opp_lt; [done|]. apply cmp_opp_lt in Hgt; [|done].
    apply (cmp_le_lt_trans fn k y x); [|done]. apply cmp_opp_eq in Hk; [lia|done].
Qed.

Lemma msort_correct fuel n l :
  (n <= fuel)%nat -> length l = n ->
  msort fn fuel n l ≡ₚ l /\ StronglySorted (cmp_le fn) (msort fn fuel n l) /\
  forall k, eq_class k (msort fn fuel n l) = eq_class k l.
Proof.
  revert n l. induction fuel as [|fuel IH]; intros n l Hn Hl; simpl.
  { destruct l; [|simpl in *; lia]. split_and!; [done|constructor|done]. }
  destruct (Nat.ltb_spec 1 n) as [H1|H1].
  2: { split_and!; [done| |done]. destruct l as [|x [|y l]]; [constructor|by repeat constructor|].
       simpl in *; lia. }
  pose proof (Nat.div_lt n 2). pose proof (Nat.div_le_lower_bound n 2 1).
  destruct (IH (n / 2)%nat (take (n / 2) l)) as (P1 & S1 & E1); [lia|rewrite length_take; lia|].
  destruct (IH (n - n / 2)%nat (drop (n / 2) l)) as (P2 & S2 & E2); [lia|rewrite length_drop; lia|].
  split_and!.
  - rewrite mmerge_perm, P1, P2. by rewrite take_drop.
  - by apply mmerge_sorted.
  - intros k. rewrite mmerge_stable by done. rewrite E1, E2.
    unfold eq_class. by rewrite <- filter_app, take_drop.
Qed.

Lemma list_msort_perm l : list_msort fn l ≡ₚ l.
Proof. by apply msort_correct. Qed.

Lemma list_msort_sorted l : StronglySorted (cmp_le fn) (list_msort fn l).
Proof. by apply msort_correct. Qed.

Lemma list_msort_stable k l : eq_class k (list_msort fn l) = eq_class k l.
Proof. by apply msort_correct. Qed.

Lemma add_sorted_perm l x : add_sorted fn l x ≡ₚ x :: l.
Proof.
  induction l as [|y l IH]; simpl; [done|]. destruct (_ <=? 0); [done|].
  rewrite IH. by rewrite Permutation_swap.
Qed.

Lemma add_sorted_sorted l x :
  StronglySorted (cmp_le fn) l -> StronglySorted (cmp_le fn) (add_sorted fn l x).
Proof.
  induction 1 as [|y l Hl IH Hy]; simpl; [by repeat constructor|].
  destruct (Z.leb_spec (fn x y) 0).
  - repeat constructor; try done. eapply Forall_impl; [exact Hy|].
    intros z Hz. by eapply cmp_trans.
  - constructor; [done|]. rewrite add_sorted_perm. constructor; [|done].
    apply cmp_antisym. lia.
Qed.
End Sorting.

(** Merging commutes with a projection the comparison factors through. *)
Lemma mmerge_fmap {A B} (fn : A -> A -> Z) (g : B -> A) (l r : list B) :
  mmerge fn (g <$> l) (g <$> r) = g <$> mmerge (fun x y => fn (g x) (g y)) l r.
Proof.
  revert r. induction l as [|x l IHl]; intros r; [by destruct r|].
  induction r as [|y r IHr]; [done|]. rewrite !fmap_cons, !mmerge_cons.
  destruct (fn (g x) (g y) <=? 0); rewrite fmap_cons; f_equal.
  - by rewrite <- IHl, fmap_cons.
  - by rewrite <- IHr, fmap_cons.
Qed.

(** ** Difference *)

Section Difference.
Context {A K : Type} (fn : A -> A -> Z) (key : A -> K) `{!CmpOrder fn, !CmpKey fn key}.
Implicit Types l r : list A.

Lemma sorted_strict l :
  StronglySorted (cmp_le fn) l -> NoDup (key <$> l) ->
  StronglySorted (fun x y => fn x y < 0) l.
Proof.
  induction 1 as [|x l Hl IH Hx]; [by constructor|].
  rewrite fmap_cons, NoDup_cons. intros [Hnin Hnd]. constructor; [by apply IH|].
  rewrite Forall_forall in Hx |- *. intros y Hy. specialize (Hx y Hy). unfold cmp_le in Hx.
  assert (fn x y <> 0); [|lia]. intros E. apply (cmp_key (cmp := fn)) in E.
  apply Hnin. rewrite E. by apply list_elem_of_fmap_2.
Qed.

Lemma diff_sorted_cons x l y r :
  diff_sorted fn (x :: l) (y :: r) =
  if fn x y <? 0 then
    let '(ol, or) := diff_sorted fn l (y :: r) in (x :: ol, or)
  else if 0 <? fn x y then
    let '(ol, or) := diff_sorted fn (x :: l) r in (ol, y :: or)
  else diff_sorted fn l r.
Proof. done. Qed.

Lemma key_notin_above x l : Forall (fun y => fn x y < 0) l -> key x ∉ key <$> l.
Proof.
  rewrite Forall_forall. intros H (y & E & Hy)%list_elem_of_fmap.
  apply (cmp_key (cmp := fn)) in E. specialize (H y Hy). lia.
Qed.

Lemma diff_sorted_left l r :
  StronglySorted (fun x y => fn x y < 0) l -> StronglySorted (cmp_le fn) r ->
  forall x, x ∈ (diff_sorted fn l r).1 <-> x ∈ l /\ key x ∉ key <$> r.
Proof.
  intros Hl. revert r. induction Hl as [|x l Hl IHl Hx]; intros r Hr z.
  { destruct r; set_solver. }
  induction Hr as [|y r Hr IHr Hy].
  { set_solver. }
  rewrite diff_sorted_cons. rewrite fmap_cons, not_elem_of_cons, elem_of_cons.
  destruct (Z.ltb_spec (fn x y) 0) as [Hlt|Hge].
  { specialize (IHl (y :: r) ltac:(by constructor) z).
    destruct (diff_sorted fn l (y :: r)) as [ol or]. cbn [fst] in *.
    rewrite elem_of_cons, IHl, fmap_cons, not_elem_of_cons.
    assert (key x <> key y /\ key x ∉ key <$> r) as [? ?]; [|naive_solver].
    apply not_elem_of_cons. apply (key_notin_above x (y :: r)). constructor; [done|].
    eapply Forall_impl; [exact Hy|]. intros w Hw. by eapply cmp_lt_le_trans. }
  destruct (Z.ltb_spec 0 (fn x y)) as [Hgt|Hle].
  { destruct (diff_sorted fn (x :: l) r) as [ol or]. cbn [fst] in *.
    rewrite IHr, elem_of_cons.
    assert (key y ∉ key <$> (x :: l)) as Hny.
    { apply key_notin_above. apply cmp_opp_lt in Hgt; [|done]. constructor; [done|].
      eapply Forall_impl; [exact Hx|]. simpl. intros w Hw. eapply cmp_lt_le_trans; [done|exact Hgt|]. lia. }
    split; [|naive_solver]. intros [Hz ?]. split_and!; [done| |done].
    intros E. apply Hny. rewrite <- E. apply list_elem_of_fmap_2. set_solver. }
  assert (key x = key y) as Exy by (apply (cmp_key (cmp := fn)); lia).
  rewrite IHl by done. split.
  - intros [Hz Hzr]. split; [naive_solver|]. split; [|done]. rewrite <- Exy.
    intros E. apply (key_notin_above x l Hx). rewrite <- E. by apply list_elem_of_fmap_2.
  - naive_solver.
Qed.

Lemma diff_elem lhs rhs x :
  NoDup (key <$> lhs) ->
  x ∈ diff fn lhs rhs <-> x ∈ lhs /\ key x ∉ key <$> rhs.
Proof.
  intros Hnd. unfold diff. rewrite diff_sorted_left.
  - rewrite !list_msort_perm by done. done.
  - apply sorted_strict; [by apply list_msort_sorted|]. by rewrite list_msort_perm.
  - by apply list_msort_sorted.
Qed.

Lemma diff_sorted_sublist l r : sublist (diff_sorted fn l r).1 l.
Proof.
  revert r. induction l as [|x l IHl]; intros r; [by destruct r|].
  induction r as [|y r IHr]; [done|]. rewrite diff_sorted_cons.
  destruct (_ <? 0); [|destruct (0 <? _)].
  - specialize (IHl (y :: r)). destruct (diff_sorted fn l (y :: r)). by constructor.
  - destruct (diff_sorted fn (x :: l) r). done.
  - by constructor.
Qed.

Lemma diff_submseteq lhs rhs : diff fn lhs rhs ⊆+ lhs.
Proof.
  unfold diff. rewrite <- (list_msort_perm fn lhs) at 2.
  apply sublist_submseteq, diff_sorted_sublist.
Qed.

End Difference.

(** ** Unordered comparison *)

Section Unordered.
Context {A K : Type} (fn : A -> A -> Z) (key : A -> K) `{!CmpKey fn key}.
Implicit Types l r : list A.

Definition unmatched (r : list A) (m : list bool) : list A :=
  omap (fun p : A * bool => if p.2 then None else Some p.1) (zip r m).

Lemma match_one_Some x r m m' :
  match_one fn x r m = Some m' ->
  length m' = length m /\
  exists y, key x = key y /\ unmatched r m ≡ₚ y :: unmatched r m'.
Proof.
  revert m m'. induction r as [|y r IH]; intros [|b m] m'; simpl; try done.
  destruct b.
  - intros (m1 & H & ->)%fmap_Some. apply IH in H as (? & z & ? & ?).
    simpl. split; [lia|]. by exists z.
  - destruct (Z.eqb_spec (fn x y) 0) as [E|E].
    + intros [= <-]. split; [done|]. exists y. split; [|done]. by apply (cmp_key (cmp := fn)).
    + intros (m1 & H & ->)%fmap_Some. apply IH in H as (? & z & ? & Hp).
      simpl. split; [lia|]. exists z. split; [done|].
      unfold unmatched in *. simpl. rewrite Hp. apply Permutation_swap.
Qed.

Lemma match_one_None x r m :
  length m = length r -> match_one fn x r m = None -> key x ∉ key <$> unmatched r m.
Proof.
  revert m. induction r as [|y r IH]; intros [|b m] Hl; simpl; try done.
  { intros _. set_solver. }
  simpl in Hl. destruct b.
  - rewrite fmap_None. intros H. apply IH; [lia|done].
  - destruct (Z.eqb_spec (fn x y) 0) as [E|E]; [done|].
    rewrite fmap_None. intros H. apply IH in H; [|lia].
    change (unmatched (y :: r) (false :: m)) with (y :: unmatched r m).
    rewrite fmap_cons, not_elem_of_cons. split; [|done].
    intros E'. by apply E, (cmp_key (cmp := fn)).
Qed.

Lemma match_all_spec l r m :
  length m = length r ->
  match_all fn l r m = 1 /\ (exists rest, key <$> unmatched r m ≡ₚ (key <$> l) ++ rest) \/
  match_all fn l r m = 0 /\ ~ (exists rest, key <$> unmatched r m ≡ₚ (key <$> l) ++ rest).
Proof.
  revert m. induction l as [|x l IH]; intros m Hm; simpl.
  { left. split; [done|]. by exists (key <$> unmatched r m). }
  destruct (match_one fn x r m) as [m'|] eqn:E.
  - apply match_one_Some in E as (Hm' & y & Ek & Hp).
    assert (key <$> unmatched r m ≡ₚ key x :: (key <$> unmatched r m')) as Hp'.
    { rewrite Hp, fmap_cons. by rewrite Ek. }
    destruct (IH m') as [[-> [rest Hr]]|[-> Hr]]; [lia|left|right]; split; try done.
    + exists rest. rewrite Hp', Hr. done.
    + intros [rest H]. apply Hr. exists rest. rewrite Hp' in H.
      by apply Permutation_cons_inv in H.
  - right. split; [done|]. intros [rest H]. apply match_one_None in E; [|done].
    apply E. rewrite H. set_solver.
Qed.

Lemma same_length_spec l r : same_length l r = true <-> length l = length r.
Proof.
  revert r. induction l as [|x l IH]; intros [|y r]; simpl; try done.
  rewrite IH. lia.
Qed.

Lemma skip_same_spec l r :
  let '(l', r') := skip_same fn l r in
  (key <$> l ≡ₚ key <$> r <-> key <$> l' ≡ₚ key <$> r') /\
  (length l = length r -> length l' = length r').
Proof.
  revert r. induction l as [|x l IH]; intros [|y r]; simpl; try done.
  destruct (Z.eqb_spec (fn x y) 0) as [E|E]; [|done].
  specialize (IH r). destruct (skip_same fn l r) as [l' r']. destruct IH as [IH1 IH2].
  split; [|naive_solver lia]. rewrite <- IH1.
  apply (cmp_key (cmp := fn)) in E. rewrite E.
  split; [apply Permutation_cons_inv|by constructor].
Qed.
End Unordered.

Lemma unmatched_fresh {A} (r : list A) : unmatched r (replicate (length r) false) = r.
Proof.
  induction r as [|x r IH]; [done|].
  change (unmatched (x :: r) _) with (x :: unmatched r (replicate (length r) false)). by rewrite IH.
Qed.

Section Properties.
Context {A K : Type} (fn : A -> A -> Z) (key : A -> K) `{!CmpKey fn key}.

Lemma cmp_unsorted_cases l r :
  cmp_unsorted fn true l r = 1 /\ key <$> l ≡ₚ key <$> r \/
  cmp_unsorted fn true l r = 0 /\ ~ (key <$> l ≡ₚ key <$> r).
Proof.
  unfold cmp_unsorted.
  destruct (same_length l r) eqn:E.
  2: { right. split; [done|]. intros H%Permutation_length. rewrite !length_fmap in H.
       apply same_length_spec in H. congruence. }
  apply same_length_spec in E. simpl.
  pose proof (skip_same_spec fn key l r) as H. destruct (skip_same fn l r) as [l' r'].
  destruct H as [H1 H2]. specialize (H2 E). rewrite !H1.
  destruct l' as [|x l']. { left. destruct r'; [done|simpl in *; lia]. }
  pose proof (match_all_spec fn key (x :: l') r' (replicate (length r') false)) as Hm.
  rewrite length_replicate, unmatched_fresh in Hm.
  destruct (Hm eq_refl) as [[-> [rest Hr]]|[-> Hr]]; [left|right]; split; try done.
  - assert (rest = []) as ->.
    { apply Permutation_length in Hr. rewrite length_app, !length_fmap in Hr.
      destruct rest; [done|simpl in *; lia]. }
    by rewrite app_nil_r in Hr.
  - intros Hp. apply Hr. exists []. by rewrite app_nil_r.
Qed.
End Properties.

Section DupesLemmas.
Context {A : Type} `{EqDecision A}.

Lemma find_ptr_Some (l : list A) x : is_Some (find_ptr l x) <-> x ∈ l.
Proof.
  unfold find_ptr, find. rewrite find_first_is_Some. split.
  - intros (y & Hy & E). case_decide; [by subst|done].
  - intros Hx. exists x. by rewrite decide_True.
Qed.

Lemma find_ptr_None (l : list A) x : find_ptr l x = None <-> x ∉ l.
Proof. rewrite <- find_ptr_Some, eq_None_not_Some. done. Qed.

Lemma remove_dupes_loop_spec (l newlist : list A) :
  NoDup newlist ->
  NoDup (remove_dupes_loop newlist l) /\
  (forall x, x ∈ remove_dupes_loop newlist l <-> x ∈ newlist \/ x ∈ l).
Proof.
  revert newlist. induction l as [|y l IH]; intros newlist Hnd; simpl; [set_solver|].
  destruct (find_ptr newlist y) eqn:E.
  - apply mk_is_Some, find_ptr_Some in E. destruct (IH newlist Hnd) as [? H].
    split; [done|]. intros x. rewrite H. set_solver.
  - apply find_ptr_None in E. destruct (IH (newlist ++ [y])) as [? H].
    { apply NoDup_app. split_and!; [done|set_solver|apply NoDup_singleton]. }
    split; [done|]. intros x. rewrite H. set_solver.
Qed.
End DupesLemmas.

(** ** Properties *)

(** [klpm_list_diff(lhs, rhs)] contains exactly the elements of [lhs] whose
    key does not occur in [rhs], when the keys of [lhs] are distinct (the
    package lists it is called on), and never an element twice. *)
Theorem diff_spec {A K} (fn : A -> A -> Z) (key : A -> K)
    (Ho : CmpOrder fn) (Hk : CmpKey fn key) lhs rhs :
  NoDup (key <$> lhs) ->
  (forall x, x ∈ diff fn lhs rhs <-> x ∈ lhs /\ key x ∉ key <$> rhs) /\ diff fn lhs rhs ⊆+ lhs.
Proof.
  intros Hnd. split; [intros x; by apply diff_elem|by apply diff_submseteq].
Qed.

Lemma diff_witness :
  diff strcmp [lit "b"; lit "a"; lit "c"] [lit "a"] ⊆+ [lit "b"; lit "a"; lit "c"].
Proof.
  apply (diff_spec strcmp (fun s => s) strcmp_order strcmp_key [lit "b"; lit "a"; lit "c"] [lit "a"]).
  by_decide.
Defined.

(** [klpm_list_cmp_unsorted] returns 1 exactly when the two lists hold the
    same keys with the same multiplicities, and 0 otherwise (-1 only when the
    allocation of its scratch array fails). *)
Theorem cmp_unsorted_spec {A K} (fn : A -> A -> Z) (key : A -> K) (Hk : CmpKey fn key) l r :
  (cmp_unsorted fn true l r = 1 <-> key <$> l ≡ₚ key <$> r) /\
  (cmp_unsorted fn true l r = 0 <-> ~ (key <$> l ≡ₚ key <$> r)).
Proof.
  destruct (cmp_unsorted_cases fn key l r) as [[-> ?]|[-> ?]]; split; naive_solver.
Qed.

Lemma cmp_unsorted_witness :
  cmp_unsorted strcmp true [lit "a"; lit "b"; lit "b"] [lit "b"; lit "a"; lit "b"] = 1.
Proof.
  apply (cmp_unsorted_spec strcmp (fun s => s) strcmp_key).
  rewrite !list_fmap_id. apply Permutation_swap.
Defined.

End KList.
