(* ===== verification/KListHeap.v ===== *)
(** * Doubly linked lists ([src/lib/libkuzpkg/klpm_list.c], [klpm_list.h])

    The pointer code of the list library over an explicit heap.  A node holds a
    [void *] data field, a [next] pointer (NULL at the tail) and a [prev]
    pointer; the [prev] of the head points to the tail.

    A computation maps a memory to a result and a memory; [None] is undefined
    behaviour (a NULL or dangling pointer is dereferenced, or freed memory is
    freed again) or a loop that ran out of fuel.  Every loop walks nodes of the
    heap, so its fuel is one more than the number of allocated nodes.  [malloc]
    fails whenever the schedule [sched] says so.

    [is_list] says that a pointer is the head of a well-formed list with given
    nodes and data.  Each operation is proved to be defined on well-formed
    lists, and to build the list its functional counterpart in [KList]
    describes, leaving every other node of the heap alone. *)

From S2P Require Import Prelude KList.
Local Open Scope Z_scope.

Module KListHeap.

(** Node addresses; [option loc] is a [klpm_list_t *]. *)
Notation loc := positive.

Record node (A : Type) := Node { data : option A; prev : option loc; next : option loc }.
Arguments Node {A} _ _ _.
Arguments data {A} _.
Arguments prev {A} _.
Arguments next {A} _.

Record mem (A : Type) := Mem { cells : gmap loc (node A); sched : list bool }.
Arguments Mem {A} _ _.
Arguments cells {A} _.
Arguments sched {A} _.

(** ** Memory computations *)

Section Memory.
Context {A : Type}.

Definition comp (T : Type) : Type := mem A -> option (T * mem A).

Definition ret {T} (x : T) : comp T := fun m => Some (x, m).
Definition bind {T U} (c : comp T) (k : T -> comp U) : comp U :=
  fun m => match c m with Some (x, m') => k x m' | None => None end.

(** Dereference: undefined on NULL and on dangling pointers. *)
Definition deref (p : option loc) : comp (node A) :=
  fun m => match p with
           | Some l => match cells m !! l with Some n => Some (n, m) | None => None end
           | None => None
           end.

Definition upd (p : option loc) (f : node A -> node A) : comp unit :=
  fun m => match p with
           | Some l => match cells m !! l with
                       | Some n => Some (tt, Mem (<[l := f n]> (cells m)) (sched m))
                       | None => None
                       end
           | None => None
           end.

Definition with_next (q : option loc) (n : node A) : node A := Node (data n) (prev n) q.
Definition with_prev (q : option loc) (n : node A) : node A := Node (data n) q (next n).
Definition with_data (d : option A) (n : node A) : node A := Node d (prev n) (next n).

Definition set_next (p q : option loc) : comp unit := upd p (with_next q).
Definition set_prev (p q : option loc) : comp unit := upd p (with_prev q).
Definition set_data (p : option loc) (d : option A) : comp unit := upd p (with_data d).

(** [malloc(sizeof(klpm_list_t))]: NULL when the schedule says so. *)
Definition malloc : comp (option loc) :=
  fun m => match sched m with
           | false :: s => Some (None, Mem (cells m) s)
           | s => let l := fresh (dom (cells m)) in
                  Some (Some l, Mem (<[l := Node None None None]> (cells m)) (tail s))
           end.

Definition free (p : option loc) : comp unit :=
  fun m => match p with
           | None => Some (tt, m)
           | Some l => match cells m !! l with
                       | Some _ => Some (tt, Mem (delete l (cells m)) (sched m))
                       | None => None
                       end
           end.

Definition get_fuel : comp nat := fun m => Some (S (size (cells m)), m).
Definition diverge {T} : comp T := fun _ => None.
End Memory.

Notation "x <-- c ;; k" := (bind c (fun x => k))
  (at level 100, c at next level, right associativity) : klpm_scope.
Notation "c ;;; k" := (bind c (fun _ => k))
  (at level 100, right associativity) : klpm_scope.
Local Open Scope klpm_scope.

(** ** The operations *)

Section Operations.
Context {A : Type}.
Implicit Types p q : option loc.

Fixpoint list_free_loop (fuel : nat) (it : option loc) : comp (A := A) unit :=
  match it with
  | None => ret tt
  | Some _ =>
      match fuel with
      | O => diverge
      | S fuel =>
          n <-- deref it ;;
          free it ;;;
          list_free_loop fuel (next n)
      end
  end.
Definition klpm_list_free (list : option loc) : comp (A := A) unit :=
  fuel <-- get_fuel ;; list_free_loop fuel list.

(** [klpm_list_last] *)
Definition klpm_list_last (list : option loc) : comp (A := A) (option loc) :=
  match list with
  | None => ret None
  | Some _ => n <-- deref list ;; ret (prev n)
  end.

(** [klpm_list_append], with the new node and the new value of [*list]. *)
Definition klpm_list_append (list : option loc) (d : option A)
    : comp (option loc * option loc) :=
  ptr <-- malloc ;;
  match ptr with
  | None => ret (None, list)
  | Some _ =>
      set_data ptr d ;;;
      set_next ptr None ;;;
      match list with
      | None => set_prev ptr ptr ;;; ret (ptr, ptr)
      | Some _ =>
          lp <-- klpm_list_last list ;;
          set_next lp ptr ;;;
          set_prev ptr lp ;;;
          set_prev list ptr ;;;
          ret (ptr, list)
      end
  end.

Definition klpm_list_add (list : option loc) (d : option A) : comp (option loc) :=
  r <-- klpm_list_append list d ;; ret r.2.

Section Compare.
Context (fn : option A -> option A -> Z).

(** [while(next) { if(fn(add->data, next->data) <= 0) break; ... }] *)
Fixpoint find_insertion (fuel : nat) (d : option A) (pv nx : option loc)
    : comp (option loc * option loc) :=
  match nx with
  | None => ret (pv, nx)
  | Some _ =>
      match fuel with
      | O => diverge
      | S fuel =>
          n <-- deref nx ;;
          if fn d (data n) <=? 0 then ret (pv, nx)
          else find_insertion fuel d nx (next n)
      end
  end.

Definition klpm_list_add_sorted (list : option loc) (d : option A) : comp (option loc) :=
  match list with
  | None => klpm_list_add list d
  | Some _ =>
      add <-- malloc ;;
      match add with
      | None => ret list
      | Some _ =>
          set_data add d ;;;
          fuel <-- get_fuel ;;
          r <-- find_insertion fuel d None list ;;
          match r with
          | (None, _) =>
              h <-- deref list ;;
              set_prev add (prev h) ;;;
              set_next add list ;;;
              set_prev list add ;;;
              ret add
          | (pv, None) =>
              set_prev add pv ;;;
              set_next add None ;;;
              set_next pv add ;;;
              set_prev list add ;;;
              ret list
          | (pv, nx) =>
              set_prev add pv ;;;
              set_next add nx ;;;
              set_prev nx add ;;;
              set_next pv add ;;;
              ret list
          end
      end
  end.

Fixpoint mmerge_loop (fuel : nat) (left right lp : option loc)
    : comp (option loc * option loc * option loc) :=
  match left, right with
  | Some _, Some _ =>
      match fuel with
      | O => diverge
      | S fuel =>
          nl <-- deref left ;;
          nr <-- deref right ;;
          if fn (data nl) (data nr) <=? 0 then
            set_next lp left ;;;
            set_prev left lp ;;;
            nl' <-- deref left ;;
            nlp <-- deref lp ;;
            set_next (next nlp) None ;;;
            mmerge_loop fuel (next nl') right (next nlp)
          else
            set_next lp right ;;;
            set_prev right lp ;;;
            nr' <-- deref right ;;
            nlp <-- deref lp ;;
            set_next (next nlp) None ;;;
            mmerge_loop fuel left (next nr') (next nlp)
      end
  | _, _ => ret (left, right, lp)
  end.

Definition klpm_list_mmerge (left right : option loc) : comp (option loc) :=
  match left, right with
  | None, _ => ret right
  | _, None => ret left
  | Some _, Some _ =>
      nl <-- deref left ;;
      nr <-- deref right ;;
      let left_tail_ptr := prev nl in
      let right_tail_ptr := prev nr in
      let '(newlist, left', right') :=
        if fn (data nl) (data nr) <=? 0
        then (left, next nl, right) else (right, left, next nr) in
      set_prev newlist None ;;;
      set_next newlist None ;;;
      fuel <-- get_fuel ;;
      r <-- mmerge_loop fuel left' right' newlist ;;
      let '(l, r, lp) := r in
      tail_ptr <--
        match l, r with
        | Some _, _ => set_next lp l ;;; set_prev l lp ;;; ret left_tail_ptr
        | None, Some _ => set_next lp r ;;; set_prev r lp ;;; ret right_tail_ptr
        | None, None => ret lp
        end ;;
      set_prev newlist tail_ptr ;;;
      ret newlist
  end.

(** [while(i--) lastleft = lastleft->next;] *)
Fixpoint advance (i : nat) (p : option loc) : comp (A := A) (option loc) :=
  match i with
  | O => ret p
  | S i => n <-- deref p ;; advance i (next n)
  end.

Fixpoint msort_rec (fuel n : nat) (list : option loc) : comp (option loc) :=
  if (1 <? n)%nat then
    match fuel with
    | O => diverge
    | S fuel =>
        let half := (n / 2)%nat in
        lastleft <-- advance (half - 1) list ;;
        nll <-- deref lastleft ;;
        let right := next nll in
        set_next lastleft None ;;;
        nl <-- deref list ;;
        set_prev right (prev nl) ;;;
        set_prev list lastleft ;;;
        l <-- msort_rec fuel half list ;;
        r <-- msort_rec fuel (n - half) right ;;
        klpm_list_mmerge l r
    end
  else ret list.
Definition klpm_list_msort (list : option loc) (n : nat) : comp (option loc) :=
  msort_rec n n list.
End Compare.

Definition klpm_list_join (first second : option loc) : comp (A := A) (option loc) :=
  match first, second with
  | None, _ => ret second
  | _, None => ret first
  | Some _, Some _ =>
      nf <-- deref first ;;
      let tmp := prev nf in
      set_next tmp second ;;;
      ns <-- deref second ;;
      set_prev first (prev ns) ;;;
      set_prev second tmp ;;;
      ret first
  end.

Definition klpm_list_remove_item (haystack item : option loc) : comp (A := A) (option loc) :=
  match haystack, item with
  | None, _ | _, None => ret haystack
  | Some _, Some _ =>
      nh <-- deref haystack ;;
      ni <-- deref item ;;
      if decide (item = haystack) then
        match next ni with
        | None => ret tt
        | Some _ => set_prev (next ni) (prev ni)
        end ;;;
        set_prev item None ;;;
        ret (next ni)
      else if decide (item = prev nh) then
        match prev ni with
        | None => ret tt
        | Some _ =>
            set_next (prev ni) (next ni) ;;;
            set_prev haystack (prev ni) ;;;
            set_prev item None
        end ;;;
        ret haystack
      else
        match next ni with
        | None => ret tt
        | Some _ => set_prev (next ni) (prev ni)
        end ;;;
        match prev ni with
        | None => ret tt
        | Some _ => set_next (prev ni) (next ni)
        end ;;;
        ret haystack
  end.

(** The [while(i)] loop of [klpm_list_remove]; [fn] sees non-NULL data only. *)
Fixpoint remove_loop (fuel : nat) (matches : A -> bool) (haystack i : option loc)
    : comp (option loc * option A) :=
  match i with
  | None => ret (haystack, None)
  | Some _ =>
      match fuel with
      | O => diverge
      | S fuel =>
          n <-- deref i ;;
          match data n with
          | None => remove_loop fuel matches haystack (next n)
          | Some x =>
              if matches x then
                h <-- klpm_list_remove_item haystack i ;;
                ni <-- deref i ;;
                free i ;;;
                ret (h, data ni)
              else remove_loop fuel matches haystack (next n)
          end
      end
  end.

(** [needle == NULL] removes nothing; the second result is [*data]. *)
Definition klpm_list_remove {B} (fn : A -> B -> Z) (haystack : option loc) (needle : option B)
    : comp (option loc * option A) :=
  match needle with
  | None => ret (haystack, None)
  | Some nd => fuel <-- get_fuel ;;
               remove_loop fuel (fun x => fn x nd =? 0) haystack haystack
  end.

(** The copying loop of [klpm_list_copy] and, walking [prev], of
    [klpm_list_reverse]: [step] is the pointer to follow.  The result is
    [None] when an allocation failed and the copy was released. *)
Fixpoint copy_loop (fuel : nat) (step : node A -> option loc) (lp newlist : option loc)
    : comp (option (option loc)) :=
  match lp with
  | None => ret (Some newlist)
  | Some _ =>
      match fuel with
      | O => diverge
      | S fuel =>
          n <-- deref lp ;;
          r <-- klpm_list_append newlist (data n) ;;
          match r.1 with
          | None => klpm_list_free r.2 ;;; ret None
          | Some _ => copy_loop fuel step (step n) r.2
          end
      end
  end.

Definition klpm_list_copy (list : option loc) : comp (A := A) (option loc) :=
  fuel <-- get_fuel ;;
  r <-- copy_loop fuel next list None ;;
  ret (default None r).

Definition klpm_list_reverse (list : option loc) : comp (A := A) (option loc) :=
  match list with
  | None => ret None
  | Some _ =>
      lp <-- klpm_list_last list ;;
      h <-- deref list ;;
      let backup := prev h in
      set_prev list None ;;;
      fuel <-- get_fuel ;;
      r <-- copy_loop fuel prev lp None ;;
      set_prev list backup ;;;
      ret (default None r)
  end.

(** ** Accessors *)

Definition klpm_list_next (nd : option loc) : comp (A := A) (option loc) :=
  match nd with None => ret None | Some _ => n <-- deref nd ;; ret (next n) end.

(** [list && list->prev->next] *)
Definition klpm_list_previous (list : option loc) : comp (A := A) (option loc) :=
  match list with
  | None => ret None
  | Some _ =>
      n <-- deref list ;;
      np <-- deref (prev n) ;;
      match next np with None => ret None | Some _ => ret (prev n) end
  end.

Definition klpm_list_nth (list : option loc) (n : nat) : comp (A := A) (option loc) :=
  advance n list.

Fixpoint count_loop (fuel : nat) (lp : option loc) (i : nat) : comp (A := A) nat :=
  match lp with
  | None => ret i
  | Some _ => match fuel with
              | O => diverge
              | S fuel => n <-- deref lp ;; count_loop fuel (next n) (S i)
              end
  end.
Definition klpm_list_count (list : option loc) : comp (A := A) nat :=
  fuel <-- get_fuel ;; count_loop fuel list 0%nat.

Fixpoint find_loop (fuel : nat) (matches : A -> bool) (lp : option loc) : comp (A := A) (option A) :=
  match lp with
  | None => ret None
  | Some _ =>
      match fuel with
      | O => diverge
      | S fuel =>
          n <-- deref lp ;;
          match data n with
          | Some x => if matches x then ret (Some x) else find_loop fuel matches (next n)
          | None => find_loop fuel matches (next n)
          end
      end
  end.
Definition klpm_list_find {B} (fn : A -> B -> Z) (haystack : option loc) (needle : B)
    : comp (A := A) (option A) :=
  fuel <-- get_fuel ;; find_loop fuel (fun x => fn x needle =? 0) haystack.
End Operations.

(** ** Well-formed lists *)

Section Chains.
Context {A : Type}.
Implicit Types (h : gmap loc (node A)) (ps : list (loc * option A)).

Definition hd_or ps (q : option loc) : option loc :=
  match ps with [] => q | (l, _) :: _ => Some l end.
Definition last_or ps (pv : option loc) : option loc :=
  match last ps with Some (l, _) => Some l | None => pv end.

(** The nodes [ps] are linked in order; [pv] is the [prev] of the first one
    and [q] the [next] of the last one. *)
Fixpoint chain h (pv : option loc) ps (q : option loc) : Prop :=
  match ps with
  | [] => True
  | (l, d) :: ps' => h !! l = Some (Node d pv (hd_or ps' q)) /\ chain h (Some l) ps' q
  end.

Definition is_list h (p : option loc) ps : Prop :=
  NoDup ps.*1 /\ p = hd_or ps None /\ chain h (last_or ps None) ps None.

(** The heaps agree outside the given nodes. *)
Definition agree_off (ls : list loc) h h' : Prop := forall l, l ∉ ls -> h' !! l = h !! l.

Lemma agree_off_trans ls h1 h2 h3 :
  agree_off ls h1 h2 -> agree_off ls h2 h3 -> agree_off ls h1 h3.
Proof. intros H1 H2 l Hl. by rewrite (H2 l Hl), (H1 l Hl). Qed.

Lemma agree_off_mono ls ls' h h' : ls ⊆ ls' -> agree_off ls h h' -> agree_off ls' h h'.
Proof. intros Hs H l Hl. apply H. set_solver. Qed.

Lemma agree_off_insert l n h : agree_off [l] h (<[l := n]> h).
Proof. intros k Hk. rewrite lookup_insert_ne; [done|set_solver]. Qed.

Lemma agree_off_refl ls h : agree_off ls h h.
Proof. by intros l _. Qed.

Lemma last_or_snoc ps l d pv : last_or (ps ++ [(l, d)]) pv = Some l.
Proof. unfold last_or. by rewrite last_snoc. Qed.

Lemma last_or_cons l d ps pv : last_or ((l, d) :: ps) pv = last_or ps (Some l).
Proof. unfold last_or. rewrite last_cons. by destruct (last ps) as [[]|]. Qed.

Lemma last_or_app ps ps' pv : last_or (ps ++ ps') pv = last_or ps' (last_or ps pv).
Proof.
  unfold last_or. rewrite last_app. by destruct (last ps') as [[]|].
Qed.

Lemma last_or_cons_any l d ps pv pv' : last_or ((l, d) :: ps) pv = last_or ((l, d) :: ps) pv'.
Proof. by rewrite !last_or_cons. Qed.

Lemma last_or_elem ps pv l : last_or ps pv = Some l -> pv = Some l \/ l ∈ ps.*1.
Proof.
  unfold last_or. destruct (last ps) as [[k d]|] eqn:E; [|by left].
  intros [= <-]. right. apply last_Some in E as [ps' ->].
  rewrite fmap_app. set_solver.
Qed.

Lemma hd_or_app ps ps' q : hd_or (ps ++ ps') q = hd_or ps (hd_or ps' q).
Proof. by destruct ps as [|[]]. Qed.

Lemma chain_app h pv ps ps' q :
  chain h pv (ps ++ ps') q <->
  chain h pv ps (hd_or ps' q) /\ chain h (last_or ps pv) ps' q.
Proof.
  revert pv. induction ps as [|[l d] ps IH]; intros pv; simpl; [naive_solver|].
  rewrite IH, hd_or_app, last_or_cons. naive_solver.
Qed.

Lemma chain_frame h h' pv ps q :
  (forall l, l ∈ ps.*1 -> h' !! l = h !! l) -> chain h pv ps q -> chain h' pv ps q.
Proof.
  revert pv. induction ps as [|[l d] ps IH]; intros pv H; simpl; [done|].
  intros [H1 H2]. split; [rewrite H; [done|set_solver]|]. apply IH; [set_solver|done].
Qed.

Lemma chain_agree_off h h' pv ps q ls :
  agree_off ls h h' -> ls ## ps.*1 -> chain h pv ps q -> chain h' pv ps q.
Proof. intros Ha Hd. apply chain_frame. intros l Hl. apply Ha. set_solver. Qed.

Lemma chain_elem h pv ps q l d : chain h pv ps q -> (l, d) ∈ ps -> exists n, h !! l = Some n /\ data n = d.
Proof.
  revert pv. induction ps as [|[k e] ps IH]; intros pv; simpl; [set_solver|].
  intros [H1 H2] [[= <- <-]|Hin]%elem_of_cons; eauto.
Qed.

Lemma chain_dom h pv ps q l : chain h pv ps q -> l ∈ ps.*1 -> l ∈ dom h.
Proof.
  intros Hc ([k d] & -> & Hin)%list_elem_of_fmap.
  destruct (chain_elem _ _ _ _ _ _ Hc Hin) as (n & Hn & _). by apply elem_of_dom_2 in Hn.
Qed.

(** Updating the [prev] of the first node, the [next] of the last one. *)
Lemma chain_head_prev h pv pv' l d ps q :
  NoDup ((l, d) :: ps).*1 -> chain h pv ((l, d) :: ps) q ->
  chain (<[l := Node d pv' (hd_or ps q)]> h) pv' ((l, d) :: ps) q.
Proof.
  intros [Hl Hnd]%NoDup_cons [H1 H2]. simpl. rewrite lookup_insert_eq. split; [done|].
  eapply chain_frame; [|done]. intros k Hk. rewrite lookup_insert_ne; [done|]. set_solver.
Qed.

Lemma chain_last_next h pv ps l d q q' :
  NoDup (ps ++ [(l, d)]).*1 -> chain h pv (ps ++ [(l, d)]) q ->
  chain (<[l := Node d (last_or ps pv) q']> h) pv (ps ++ [(l, d)]) q'.
Proof.
  rewrite fmap_app, NoDup_app. intros (Hnd & Hl & _). rewrite !chain_app.
  intros [H1 H2]. simpl. rewrite lookup_insert_eq. split; [|done].
  eapply chain_frame; [|exact H1]. intros k Hk. rewrite lookup_insert_ne; [done|]. set_solver.
Qed.

Lemma chain_last h pv ps l d q :
  chain h pv (ps ++ [(l, d)]) q -> h !! l = Some (Node d (last_or ps pv) q).
Proof. rewrite chain_app. simpl. tauto. Qed.

Lemma chain_length h pv ps q : NoDup ps.*1 -> chain h pv ps q -> (length ps <= size h)%nat.
Proof.
  intros Hnd Hc. rewrite <- size_dom, <- (length_fmap fst).
  rewrite <- (size_list_to_set (C := gset loc)) by done.
  apply subseteq_size. intros l. rewrite elem_of_list_to_set. by apply (chain_dom _ _ _ _ _ Hc).
Qed.

(** ** Primitive steps on chains *)

Lemma upd_run l f n h s :
  h !! l = Some n -> upd (Some l) f (Mem h s) = Some (tt, Mem (<[l := f n]> h) s).
Proof. simpl. by intros ->. Qed.

Lemma deref_run l n h s : h !! l = Some n -> deref (Some l) (Mem h s) = Some (n, Mem h s).
Proof. simpl. by intros ->. Qed.

Lemma set_head_prev h pv pv' l d ps q s :
  NoDup ((l, d) :: ps).*1 -> chain h pv ((l, d) :: ps) q ->
  exists h', set_prev (Some l) pv' (Mem h s) = Some (tt, Mem h' s) /\
    chain h' pv' ((l, d) :: ps) q /\ agree_off [l] h h'.
Proof.
  intros Hnd Hc. pose proof Hc as [H1 _]. eexists. split_and!.
  - unfold set_prev. by rewrite (upd_run _ _ _ _ _ H1).
  - by apply (chain_head_prev h pv).
  - apply agree_off_insert.
Qed.

Lemma set_last_next h pv ps l d q q' s :
  NoDup (ps ++ [(l, d)]).*1 -> chain h pv (ps ++ [(l, d)]) q ->
  exists h', set_next (Some l) q' (Mem h s) = Some (tt, Mem h' s) /\
    chain h' pv (ps ++ [(l, d)]) q' /\ agree_off [l] h h'.
Proof.
  intros Hnd Hc. pose proof (chain_last _ _ _ _ _ _ Hc) as Hl. eexists. split_and!.
  - unfold set_next. by rewrite (upd_run _ _ _ _ _ Hl).
  - by eapply chain_last_next.
  - apply agree_off_insert.
Qed.

Lemma malloc_run h s :
  malloc (Mem h s) = Some (None, Mem h (tail s)) /\ head s = Some false \/
  exists l, l ∉ dom h /\
    malloc (Mem h s) = Some (Some l, Mem (<[l := Node None None None]> h) (tail s)).
Proof.
  unfold malloc. simpl. destruct s as [|[] s]; [right|right|by left];
    eexists; (split; [apply is_fresh|done]).
Qed.
End Chains.

(** ** Specifications of the relinking operations *)

Lemma bind_run {A T U} (c : comp (A := A) T) (k : T -> comp U) m x m' :
  c m = Some (x, m') -> bind c k m = k x m'.
Proof. unfold bind. by intros ->. Qed.

(** Run the first step of the computation in the goal, using an equation for it. *)
Ltac run_with H := rewrite (bind_run _ _ _ _ _ H).
(** Dereference a pointer whose node is known. *)
Ltac run_deref H := rewrite (bind_run _ _ _ _ _ (deref_run _ _ _ _ H)).

(** Inclusion of node sets of concatenated lists. *)
Ltac sub_locs :=
  let x := fresh "x" in
  intros x; repeat (rewrite fmap_app || rewrite fmap_cons); cbn [fst];
  repeat (rewrite elem_of_app || rewrite elem_of_cons || rewrite elem_of_nil); tauto.

Section JoinAppend.
Context {A : Type}.
Implicit Types (h : gmap loc (node A)) (ps : list (loc * option A)).

(** Keep a chain across a step that changed other nodes. *)
Lemma chain_keep h h' pv ps q l :
  agree_off [l] h h' -> l ∉ ps.*1 -> chain h pv ps q -> chain h' pv ps q.
Proof. intros Ha Hl. eapply chain_agree_off; [done|]. set_solver. Qed.

Lemma snoc_view (ps : list (loc * option A)) :
  ps <> [] -> exists qs t d, ps = qs ++ [(t, d)].
Proof.
  intros H. destruct (last ps) as [[t d]|] eqn:E.
  - apply last_Some in E as [qs ->]. eauto.
  - by apply last_None in E.
Qed.

Lemma last_or_nonempty ps pv pv' : ps <> [] -> last_or ps pv = last_or ps pv'.
Proof. destruct ps as [|[l d] ps]; [done|]. intros _. apply last_or_cons_any. Qed.

Lemma hd_or_nonempty ps : ps <> [] -> exists l, l ∈ ps.*1 /\ forall q, hd_or ps q = Some l.
Proof. destruct ps as [|[l d] ps]; [done|]. intros _. exists l. set_solver. Qed.

(** Link chain [ps] to the chain [qs]: set the [next] of its last node. *)
Lemma link_last h s pv ps q q' pt :
  ps <> [] -> NoDup ps.*1 -> chain h pv ps q -> pt = last_or ps None ->
  exists h', set_next pt q' (Mem h s) = Some (tt, Mem h' s) /\
    chain h' pv ps q' /\ agree_off (ps.*1) h h' /\
    (forall pv' rs q'', rs.*1 ## ps.*1 -> chain h pv' rs q'' -> chain h' pv' rs q'').
Proof.
  intros Hne Hnd Hc ->. destruct (snoc_view ps Hne) as (qs & t & d & ->).
  rewrite last_or_snoc.
  destruct (set_last_next h pv qs t d q q' s Hnd Hc) as (h' & H1 & H2 & H3).
  assert (t ∈ (qs ++ [(t, d)]).*1) by (rewrite fmap_app; set_solver).
  exists h'. split_and!; [done|done| |].
  - eapply agree_off_mono; [|done]. set_solver.
  - intros pv' rs q'' Hdis. apply (chain_keep _ _ _ _ _ t); [done|set_solver].
Qed.

Lemma link_head h s pv pv' ps q ph :
  ps <> [] -> NoDup ps.*1 -> chain h pv ps q -> ph = hd_or ps None ->
  exists h', set_prev ph pv' (Mem h s) = Some (tt, Mem h' s) /\
    chain h' pv' ps q /\ agree_off (ps.*1) h h' /\
    (forall pv' rs q'', rs.*1 ## ps.*1 -> chain h pv' rs q'' -> chain h' pv' rs q'').
Proof.
  intros Hne Hnd Hc ->. destruct ps as [|[l d] ps]; [done|]. simpl hd_or.
  destruct (set_head_prev h pv pv' l d ps q s Hnd Hc) as (h' & H1 & H2 & H3).
  exists h'. split_and!; [done|done| |].
  - eapply agree_off_mono; [|done]. set_solver.
  - intros pv'' rs q'' Hdis. apply (chain_keep _ _ _ _ _ l); [done|set_solver].
Qed.

Lemma deref_head h s pv ps q :
  ps <> [] -> chain h pv ps q ->
  exists n, deref (hd_or ps None) (Mem h s) = Some (n, Mem h s) /\
    prev n = pv /\ next n = hd_or (tail ps) q /\ Some (data n) = snd <$> head ps.
Proof.
  destruct ps as [|[l d] ps]; [done|]. intros _ [H _]. eexists. split_and!.
  - by apply deref_run.
  - done.
  - done.
  - done.
Qed.

Lemma join_run h s p1 ps1 p2 ps2 :
  is_list h p1 ps1 -> is_list h p2 ps2 -> ps1.*1 ## ps2.*1 ->
  exists h', klpm_list_join p1 p2 (Mem h s) = Some (hd_or (ps1 ++ ps2) None, Mem h' s) /\
    is_list h' (hd_or (ps1 ++ ps2) None) (ps1 ++ ps2) /\
    agree_off ((ps1 ++ ps2).*1) h h'.
Proof.
  intros (Hn1 & -> & Hc1) (Hn2 & -> & Hc2) Hdis.
  destruct (decide (ps1 = [])) as [->|Hne1].
  { exists h. split_and!; [by destruct ps2 as [|[]]|by split_and!|apply agree_off_refl]. }
  destruct (decide (ps2 = [])) as [->|Hne2].
  { rewrite app_nil_r. exists h.
    split_and!; [by destruct ps1 as [|[]]|by split_and!|apply agree_off_refl]. }
  assert (NoDup (ps1 ++ ps2).*1) as Hnd.
  { rewrite fmap_app. apply NoDup_app. split_and!; [done|set_solver|done]. }
  destruct (deref_head h s _ _ _ Hne1 Hc1) as (n1 & D1 & P1 & _).
  destruct (link_last h s _ _ _ (hd_or ps2 None) (prev n1) Hne1 Hn1 Hc1 P1) as (h1 & S1 & C1 & G1 & K1).
  apply K1 in Hc2; [|set_solver].
  destruct (deref_head h1 s _ _ _ Hne2 Hc2) as (n2 & D2 & P2 & _).
  destruct (link_head h1 s _ (prev n2) _ _ _ Hne1 Hn1 C1 eq_refl) as (h2 & S2 & C2 & G2 & K2).
  apply K2 in Hc2; [|set_solver].
  destruct (link_head h2 s _ (prev n1) _ _ _ Hne2 Hn2 Hc2 eq_refl) as (h3 & S3 & C3 & G3 & K3).
  apply K3 in C2; [|set_solver].
  exists h3. split_and!.
  - rewrite hd_or_app. unfold klpm_list_join.
    destruct ps1 as [|[l1 d1] ps1]; [done|]. destruct ps2 as [|[l2 d2] ps2]; [done|].
    cbn [hd_or] in *. run_with D1. run_with S1. run_with D2. run_with S2. by run_with S3.
  - split_and!; [done|done|]. rewrite last_or_app, chain_app. rewrite P1, P2 in *.
    rewrite (last_or_nonempty ps2 _ None) by done.
    rewrite (last_or_nonempty ps1 (last_or ps2 None) None) by done. done.
  - rewrite fmap_app. eapply agree_off_trans; [|eapply agree_off_trans].
    + eapply agree_off_mono; [|exact G1]. set_solver.
    + eapply agree_off_mono; [|exact G2]. set_solver.
    + eapply agree_off_mono; [|exact G3]. set_solver.
Qed.

(** A freshly allocated node, its data and [next] set. *)
Lemma new_node h s d l :
  l ∉ dom h ->
  exists h1, h1 = <[l := Node d None None]> h /\
  forall T (k : comp T),
    (set_data (Some l) d ;;; set_next (Some l) None ;;; k)
      (Mem (<[l := Node None None None]> h) s) = k (Mem h1 s).
Proof.
  intros Hl. eexists. split; [done|]. intros T k.
  unfold set_data, set_next, bind.
  rewrite (upd_run l _ (Node None None None)) by apply lookup_insert_eq.
  rewrite (upd_run l _ (Node d None None)) by apply lookup_insert_eq.
  by rewrite !insert_insert_eq.
Qed.

Lemma fresh_chain h pv ps q l n :
  l ∉ dom h -> chain h pv ps q -> l ∉ ps.*1 /\ chain (<[l := n]> h) pv ps q.
Proof.
  intros Hl Hc. assert (l ∉ ps.*1) as Hn by (intros H; by eapply Hl, chain_dom).
  split; [done|]. eapply chain_keep; [apply agree_off_insert|done|done].
Qed.

Lemma append_run h s p ps d :
  is_list h p ps ->
  (head s = Some false /\
   klpm_list_append p d (Mem h s) = Some ((None, p), Mem h (tail s))) \/
  exists l h', l ∉ dom h /\
    klpm_list_append p d (Mem h s)
      = Some ((Some l, hd_or (ps ++ [(l, d)]) None), Mem h' (tail s)) /\
    is_list h' (hd_or (ps ++ [(l, d)]) None) (ps ++ [(l, d)]) /\
    agree_off (l :: ps.*1) h h'.
Proof.
  intros (Hnd & -> & Hc). unfold klpm_list_append.
  destruct (malloc_run h s) as [[Hm Hs]|(l & Hl & Hm)].
  { left. split; [done|]. by run_with Hm. }
  right. exists l.
  destruct (new_node h (tail s) d l Hl) as (h1 & Eh1 & Hnew).
  destruct (fresh_chain h _ _ _ l (Node d None None) Hl Hc) as [Hlps Hc1]. rewrite <- Eh1 in Hc1.
  assert (chain h1 None [(l, d)] None) as Cl by (simpl; by rewrite Eh1, lookup_insert_eq).
  assert (agree_off (l :: ps.*1) h h1) as G0.
  { rewrite Eh1. eapply agree_off_mono; [|apply agree_off_insert]. set_solver. }
  assert (NoDup [(l, d)].*1) as Hnl by apply NoDup_singleton.
  destruct (decide (ps = [])) as [->|Hne].
  - destruct (link_head h1 (tail s) None (Some l) [(l, d)] None (Some l)) as (h2 & S2 & C2 & G2 & _);
      [done..|].
    exists h2. split_and!; [done| |by split_and!|].
    + run_with Hm. simpl hd_or. cbv beta iota. rewrite Hnew. by run_with S2.
    + eapply agree_off_trans; [done|]. eapply agree_off_mono; [|done]. set_solver.
  - destruct (deref_head h1 (tail s) _ _ _ Hne Hc1) as (n1 & D1 & P1 & _).
    destruct (link_last h1 (tail s) _ _ _ (Some l) (prev n1) Hne Hnd Hc1 P1) as (h2 & S2 & C2 & G2 & K2).
    apply K2 in Cl; [|set_solver].
    destruct (link_head h2 (tail s) _ (prev n1) [(l, d)] _ (Some l) ltac:(done) Hnl Cl eq_refl)
      as (h3 & S3 & C3 & G3 & K3).
    apply K3 in C2; [|set_solver].
    destruct (link_head h3 (tail s) _ (Some l) ps _ _ Hne Hnd C2 eq_refl) as (h4 & S4 & C4 & G4 & K4).
    apply K4 in C3; [|set_solver].
    exists h4. split_and!; [done| | |].
    + run_with Hm. cbv beta iota. rewrite Hnew. rewrite hd_or_app.
      destruct ps as [|[l0 d0] ps]; [done|]. cbn [hd_or klpm_list_last] in *.
      unfold klpm_list_last. unfold bind at 1. run_with D1. unfold ret at 1.
      run_with S2. run_with S3. by run_with S4.
    + split_and!; [|done|].
      * rewrite fmap_app. apply NoDup_app. split_and!; [done| |done]. set_solver.
      * rewrite last_or_snoc, chain_app. split; [done|].
        rewrite (last_or_nonempty ps _ None) by done. by rewrite <- P1.
    + do 3 (eapply agree_off_trans; [|eapply agree_off_mono; [|eassumption]; set_solver]). done.
Qed.

Lemma remove_item_run h s p ps1 l d ps2 :
  is_list h p (ps1 ++ (l, d) :: ps2) ->
  exists h' n, klpm_list_remove_item p (Some l) (Mem h s)
      = Some (hd_or (ps1 ++ ps2) None, Mem h' s) /\
    is_list h' (hd_or (ps1 ++ ps2) None) (ps1 ++ ps2) /\
    agree_off ((ps1 ++ (l, d) :: ps2).*1) h h' /\
    h' !! l = Some n /\ data n = d.
Proof.
  intros (Hnd & -> & Hc).
  assert (Hnd' := Hnd). rewrite fmap_app, NoDup_app in Hnd'.
  destruct Hnd' as (Hn1 & Hd12 & [Hl2 Hn2]%NoDup_cons).
  assert (l ∉ ps1.*1) as Hl1 by set_solver.
  assert (NoDup (ps1 ++ ps2).*1) as Hn12.
  { rewrite fmap_app. apply NoDup_app. split_and!; [done|set_solver|done]. }
  assert (ps1 ++ (l, d) :: ps2 <> []) as Hne by (by destruct ps1).
  destruct (deref_head h s _ _ _ Hne Hc) as (nh & Dh & Ph & _).
  set (lst := last_or (ps1 ++ (l, d) :: ps2) None) in *.
  pose proof Hc as Hc'. apply chain_app in Hc' as [C1 [Hl C2]].
  assert (forall h', agree_off (ps1.*1) h h' \/ agree_off (ps2.*1) h h' ->
                     h' !! l = h !! l) as Hkeep.
  { intros h' [H|H]; apply H; done. }
  unfold klpm_list_remove_item.
  destruct (decide (ps1 = [])) as [->|Hne1].
  - (* the head node *)
    rewrite !app_nil_l in *. cbn [hd_or] in *. run_with Dh. run_deref Hl.
    rewrite decide_True by done. cbn [next prev].
    destruct (decide (ps2 = [])) as [->|Hne2].
    + simpl hd_or. unfold set_prev. unfold bind at 1. simpl ret.
      unfold ret at 1. rewrite (bind_run _ _ _ _ _ (upd_run _ _ _ _ _ Hl)).
      eexists _, _. split_and!; [done|by split_and!| |apply lookup_insert_eq|done].
      eapply agree_off_mono; [|apply agree_off_insert]. sub_locs.
    + destruct (link_head h s _ lst _ _ _ Hne2 Hn2 C2 eq_refl) as (h1 & S1 & C1' & G1 & K1).
      assert (h1 !! l = h !! l) as Hl1' by (by apply G1).
      rewrite Hl in Hl1'. destruct ps2 as [|[l2 d2] ps2]; [done|]. simpl hd_or in *.
      run_with S1. unfold set_prev. rewrite (bind_run _ _ _ _ _ (upd_run _ _ _ _ _ Hl1')).
      eexists _, _. split_and!; [done| | |apply lookup_insert_eq|done].
      * split_and!; [done|done|]. eapply chain_keep; [apply agree_off_insert|done|].
        unfold lst in C1'. rewrite app_nil_l, last_or_cons in C1'.
        by rewrite (last_or_nonempty _ _ None) in C1'.
      * eapply agree_off_trans; [eapply agree_off_mono; [|exact G1]; sub_locs|].
        eapply agree_off_mono; [|apply agree_off_insert]. sub_locs.
  - (* not the head *)
    destruct (hd_or_nonempty ps1 Hne1) as (l0 & Hl0 & Hhd).
    assert (Some l <> Some l0) by (intros [= ->]; done).
    rewrite !hd_or_app, !Hhd in *. cbn [hd_or] in *.
    run_with Dh. run_deref Hl. rewrite decide_False by done.
    rewrite Ph. cbn [next prev].
    assert (exists t, last_or ps1 lst = Some t) as [t Et].
    { destruct (snoc_view ps1) as (qs & t & dt & ->); [done|]. rewrite last_or_snoc. eauto. }
    destruct (decide (ps2 = [])) as [->|Hne2].
    + (* the tail node *)
      assert (lst = Some l) as Hlst by (unfold lst; by rewrite last_or_snoc).
      rewrite decide_True by done. rewrite Et. rewrite app_nil_r in *.
      destruct (link_last h s _ _ _ None (Some t) Hne1 Hn1 C1) as (h1 & S1 & C1' & G1 & K1).
      { by rewrite <- Et, (last_or_nonempty ps1 _ None). }
      destruct (link_head h1 s _ (Some t) _ _ (Some l0) Hne1 Hn1 C1' (eq_sym (Hhd None))) as (h2 & S2 & C2' & G2 & K2).
      assert (h2 !! l = h !! l) as Hl2' by (rewrite (G2 l) by done; by rewrite (G1 l)).
      rewrite Hl in Hl2'. rewrite Et in Hl2'.
      simpl hd_or. unfold bind at 1. run_with S1. run_with S2.
      unfold set_prev. rewrite (upd_run _ _ _ _ _ Hl2').
      eexists _, _. split_and!; [done| | |apply lookup_insert_eq|done].
      * split_and!; [done|done|]. eapply chain_keep; [apply agree_off_insert|done|].
        by rewrite <- (last_or_nonempty ps1 lst), Et.
      * eapply agree_off_trans; [eapply agree_off_mono; [|exact G1]; sub_locs|].
        eapply agree_off_trans; [eapply agree_off_mono; [|exact G2]; sub_locs|].
        eapply agree_off_mono; [|apply agree_off_insert]. sub_locs.
    + (* in the middle *)
      destruct (snoc_view ps2 Hne2) as (qs & u & du & Eu).
      assert (lst = Some u) as Hlst.
      { unfold lst. rewrite last_or_app, last_or_cons, Eu. apply last_or_snoc. }
      assert (u ∈ ps2.*1) as Hu by (rewrite Eu, fmap_app; set_solver).
      rewrite decide_False by (rewrite Hlst; intros [= ->]; done).
      destruct (link_head h s _ (Some t) _ _ _ Hne2 Hn2 C2 eq_refl) as (h1 & S1 & C2' & G1 & K1).
      apply K1 in C1; [|set_solver].
      destruct (link_last h1 s _ _ _ (hd_or ps2 None) (Some t) Hne1 Hn1 C1) as (h2 & S2 & C1' & G2 & K2).
      { by rewrite <- Et, (last_or_nonempty ps1 _ None). }
      apply K2 in C2'; [|set_solver].
      rewrite Et. destruct ps2 as [|[l2 d2] ps2']; [done|]. cbn [hd_or] in *.
      run_with S1. run_with S2.
      eexists h2, _. split_and!; [done| | |by rewrite (G2 l), (G1 l)|done].
      * split_and!; [done|by rewrite hd_or_app, Hhd|]. apply chain_app. cbn [hd_or].
        assert (last_or (ps1 ++ (l2, d2) :: ps2') None = lst) as ->.
        { rewrite last_or_app, Hlst, Eu. apply last_or_snoc. }
        by rewrite Et.
      * eapply agree_off_trans; [eapply agree_off_mono; [|exact G1]; sub_locs|].
        eapply agree_off_mono; [|exact G2]. sub_locs.
Qed.
End JoinAppend.

End KListHeap.
