(* ===== verification/KListSort.v ===== *)
(** * Merging, sorting, removing and copying lists ([klpm_list.c])

    Refinement of the pointer versions of [klpm_list_mmerge],
    [klpm_list_msort], [klpm_list_remove], [klpm_list_copy] and
    [klpm_list_reverse] of [KListHeap] to their functional counterparts, and
    the properties of the list library. *)

From S2P Require Import Prelude KList KListHeap.
Local Open Scope Z_scope.
Local Open Scope klpm_scope.

Module KListSort.
Import KListHeap.

Section Merge.
Context {A : Type} (fn : option A -> option A -> Z).
Implicit Types (h : gmap loc (node A)) (ps ms ls rs : list (loc * option A)).

(** The comparison of the data of two nodes. *)
Definition fnp (x y : loc * option A) : Z := fn x.2 y.2.

(** Cut the first node off a chain: set its [next] to NULL. *)
Lemma cut_head h s pv l d ls :
  NoDup ((l, d) :: ls).*1 -> chain h pv ((l, d) :: ls) None ->
  exists h', set_next (Some l) None (Mem h s) = Some (tt, Mem h' s) /\
    chain h' pv [(l, d)] None /\ chain h' (Some l) ls None /\ agree_off [l] h h' /\
    (forall pv' rs q'', l ∉ rs.*1 -> chain h pv' rs q'' -> chain h' pv' rs q'').
Proof.
  intros [Hl Hn]%NoDup_cons [H1 H2].
  eexists. split_and!.
  - unfold set_next. by rewrite (upd_run _ _ _ _ _ H1).
  - simpl. by rewrite lookup_insert_eq.
  - eapply chain_keep; [apply agree_off_insert|done|done].
  - apply agree_off_insert.
  - intros pv' rs q'' Hr. apply (chain_keep _ _ _ _ _ l); [apply agree_off_insert|done].
Qed.

(** Move the first node of [ls] to the end of the merged list [ms]. *)
Lemma splice_run h s ms l d ls pv lp :
  ms <> [] -> NoDup (ms ++ (l, d) :: ls).*1 -> lp = last_or ms None ->
  chain h None ms None -> chain h pv ((l, d) :: ls) None ->
  exists h', (forall T (k : option loc -> option loc -> comp T),
      (set_next lp (Some l) ;;;
       set_prev (Some l) lp ;;;
       n' <-- deref (Some l) ;;
       nlp <-- deref lp ;;
       set_next (next nlp) None ;;;
       k (next n') (next nlp)) (Mem h s) = k (hd_or ls None) (Some l) (Mem h' s)) /\
    chain h' None (ms ++ [(l, d)]) None /\ chain h' (Some l) ls None /\
    agree_off (ms.*1 ++ [l]) h h'.
Proof.
  intros Hne Hnd Elp Cm Cl. rewrite fmap_app, NoDup_app in Hnd. destruct Hnd as (Hnm & Hd & Hnl).
  assert (ms.*1 ## ((l, d) :: ls).*1) as Hdis by (intros x ??; by apply (Hd x)).
  assert (l ∉ ms.*1) as Hlm by (intros H; apply (Hd l H); set_solver).
  destruct (link_last h s _ _ _ (Some l) lp Hne Hnm Cm Elp) as (h1 & S1 & C1 & G1 & K1).
  apply K1 in Cl; [|intros x ??; by apply (Hd x)].
  destruct (link_head h1 s _ lp ((l, d) :: ls) None (Some l) ltac:(done) Hnl Cl eq_refl) as (h2 & S2 & C2 & G2 & K2).
  apply K2 in C1; [|done].
  assert (exists t, lp = Some t /\ exists n, h2 !! t = Some n /\ next n = Some l) as (t & Et & nt & Ht & Hnt).
  { destruct (snoc_view ms Hne) as (qs & t & dt & Em). exists t.
    rewrite Elp, Em, last_or_snoc. split; [done|]. eexists. split.
    - apply (chain_last _ None qs). by rewrite <- Em.
    - done. }
  destruct (cut_head h2 s _ l d ls Hnl C2) as (h3 & S3 & C3 & C3' & G3 & K3).
  apply K3 in C1; [|done].
  exists h3. split_and!; [|by rewrite chain_app, <- Elp|done|].
  - intros T k. run_with S1. run_with S2.
    destruct C2 as [Hl2 _]. run_deref Hl2. rewrite Et. run_deref Ht. cbv beta. rewrite Hnt.
    by run_with S3.
  - eapply agree_off_trans; [eapply agree_off_mono; [|exact G1]; intros x; rewrite elem_of_app; tauto|].
    assert (agree_off [l] h1 h2) as G2'.
    { intros x Hx. unfold set_prev in S2. destruct Cl as [Hl1 _].
      rewrite (upd_run _ _ _ _ _ Hl1) in S2. injection S2 as <-.
      rewrite lookup_insert_ne; [done|set_solver]. }
    eapply agree_off_trans; (eapply agree_off_mono; [|eassumption]); intros x; rewrite elem_of_app; tauto.
Qed.

Lemma mmerge_loop_run fuel h s ms ls rs pvl pvr lp :
  ms <> [] -> NoDup (ms ++ ls ++ rs).*1 -> lp = last_or ms None ->
  (length ls + length rs <= fuel)%nat ->
  chain h None ms None -> chain h pvl ls None -> chain h pvr rs None ->
  exists h' ms' ls' rs' pvl' pvr',
    mmerge_loop fn fuel (hd_or ls None) (hd_or rs None) lp (Mem h s)
      = Some ((hd_or ls' None, hd_or rs' None, last_or ms' None), Mem h' s) /\
    chain h' None ms' None /\ chain h' pvl' ls' None /\ chain h' pvr' rs' None /\
    (ls' = [] \/ rs' = []) /\ ls' `suffix_of` ls /\ rs' `suffix_of` rs /\ ms `prefix_of` ms' /\
    ms' ++ ls' ++ rs' = ms ++ KList.mmerge fnp ls rs /\
    agree_off ((ms ++ ls ++ rs).*1) h h'.
Proof.
  revert h ms ls rs pvl pvr lp.
  induction fuel as [|fuel IH]; intros h ms ls rs pvl pvr lp Hne Hnd Elp Hf Cm Cl Cr.
  - destruct ls; [|simpl in *; lia]. destruct rs; [|simpl in *; lia].
    exists h, ms, [], [], pvl, pvr. subst lp. split_and!; auto using agree_off_refl.
  - destruct ls as [|[l d] ls].
    { exists h, ms, [], rs, pvl, pvr. rewrite KList.mmerge_nil_l.
      subst lp. split_and!; auto using agree_off_refl. }
    destruct rs as [|[r e] rs].
    { exists h, ms, ((l, d) :: ls), [], pvl, pvr. rewrite KList.mmerge_nil_r, app_nil_r.
      subst lp. split_and!; auto using agree_off_refl. }
    rewrite KList.mmerge_cons. cbn [hd_or mmerge_loop].
    pose proof Cl as [Hl _]. pose proof Cr as [Hr _]. run_deref Hl. run_deref Hr.
    cbn [data]. change (fn d e) with (fnp (l, d) (r, e)).
    pose proof Hnd as Hnd'. rewrite app_assoc, fmap_app, NoDup_app in Hnd'.
    destruct Hnd' as (Hn1 & Hn2 & Hn3).
    destruct (fnp (l, d) (r, e) <=? 0).
    + destruct (splice_run h s ms l d ls pvl lp) as (h1 & Hk & C1 & C2 & G1); try done.
      rewrite (Hk _ (fun a b => mmerge_loop fn fuel a (Some r) b)).
      assert (chain h1 pvr ((r, e) :: rs) None) as Cr1.
      { eapply chain_agree_off; [exact G1| |done]. intros x Hx. apply Hn2.
        revert Hx. rewrite fmap_app, !elem_of_app. set_solver. }
      destruct (IH h1 (ms ++ [(l, d)]) ls ((r, e) :: rs) (Some l) pvr (Some l))
        as (h2 & ms' & ls' & rs' & pl & pr & E1 & E2 & E3 & E4 & E5 & E6 & E7 & E8 & E9 & E10);
        try done.
      { by destruct ms. } { by rewrite <- app_assoc. } { by rewrite last_or_snoc. } { simpl in *; lia. }
      exists h2, ms', ls', rs', pl, pr. split_and!; try done.
      * by apply suffix_cons_r.
      * etrans; [by apply prefix_app_r|exact E8].
      * by rewrite E9, <- app_assoc.
      * eapply agree_off_trans; (eapply agree_off_mono; [|eassumption]); intros x;
          rewrite !fmap_app, ?fmap_cons, !elem_of_app, ?elem_of_cons, ?elem_of_nil; simpl; tauto.
    + destruct (splice_run h s ms r e rs pvr lp) as (h1 & Hk & C1 & C2 & G1); try done.
      { rewrite fmap_app, NoDup_app. rewrite fmap_app, NoDup_app in Hn1. destruct Hn1 as (?&?&?).
        split_and!; [done| |done]. intros x Hx. apply Hn2. rewrite fmap_app. set_solver. }
      rewrite (Hk _ (fun a b => mmerge_loop fn fuel (Some l) a b)).
      assert (chain h1 pvl ((l, d) :: ls) None) as Cl1.
      { eapply chain_agree_off; [exact G1| |done].
        rewrite fmap_app, NoDup_app in Hn1. destruct Hn1 as (?&Hn1&?).
        intros x [Hx|Hx%list_elem_of_singleton]%elem_of_app Hx'; [by apply (Hn1 x)|subst].
        apply (Hn2 r); [rewrite fmap_app; set_solver|set_solver]. }
      assert ((ms ++ [(r, e)]) ++ ((l, d) :: ls) ++ rs ≡ₚ ms ++ ((l, d) :: ls) ++ (r, e) :: rs) as Hperm.
      { by rewrite <- app_assoc, <- (Permutation_middle ((l, d) :: ls) rs (r, e)). }
      destruct (IH h1 (ms ++ [(r, e)]) ((l, d) :: ls) rs pvl (Some r) (Some r))
        as (h2 & ms' & ls' & rs' & pl & pr & E1 & E2 & E3 & E4 & E5 & E6 & E7 & E8 & E9 & E10);
        try done.
      { by destruct ms. } { by rewrite Hperm. } { by rewrite last_or_snoc. } { simpl in *; lia. }
      exists h2, ms', ls', rs', pl, pr. split_and!; try done.
      * by apply suffix_cons_r.
      * etrans; [by apply prefix_app_r|exact E8].
      * by rewrite E9, <- app_assoc.
      * eapply agree_off_trans; (eapply agree_off_mono; [|eassumption]); intros x;
          rewrite !fmap_app, ?fmap_cons, !elem_of_app, ?elem_of_cons, ?elem_of_nil; simpl; tauto.
Qed.

(** Field updates allocate nothing. *)
Lemma upd_size p f h h' s s' :
  upd p f (Mem h s) = Some (tt, Mem h' s') -> size h' = size h.
Proof.
  destruct p as [l|]; simpl; [|done]. destruct (h !! l) eqn:E; [|done].
  intros [= <- _]. by rewrite map_size_insert_Some.
Qed.

(** Start the merged list with the first node of a list. *)
Lemma first_run h s pv l d ls :
  NoDup ((l, d) :: ls).*1 -> chain h pv ((l, d) :: ls) None ->
  exists h', (forall T (k : comp T),
      (set_prev (Some l) None ;;; set_next (Some l) None ;;; k) (Mem h s) = k (Mem h' s)) /\
    chain h' None [(l, d)] None /\ chain h' (Some l) ls None /\ agree_off [l] h h' /\
    size h' = size h.
Proof.
  intros Hnd Hc.
  destruct (set_head_prev h pv None l d ls None s Hnd Hc) as (h1 & S1 & C1 & G1).
  destruct (cut_head h1 s _ l d ls Hnd C1) as (h2 & S2 & C2 & C2' & G2 & _).
  exists h2. split_and!; [|done|done|by eapply agree_off_trans|].
  - intros T k. run_with S1. by run_with S2.
  - unfold set_prev, set_next in S1, S2. apply upd_size in S1, S2. congruence.
Qed.

Lemma suffix_last_or ls ls' :
  ls' `suffix_of` ls -> ls' <> [] -> last_or ls None = last_or ls' None.
Proof. intros [k ->] Hne. rewrite last_or_app. by apply last_or_nonempty. Qed.

(** Attach a non-empty remainder to the merged list. *)
Lemma attach_run h s ms rs pv :
  ms <> [] -> rs <> [] -> NoDup (ms ++ rs).*1 ->
  chain h None ms None -> chain h pv rs None ->
  exists h', (forall T (k : comp T),
      (set_next (last_or ms None) (hd_or rs None) ;;;
       set_prev (hd_or rs None) (last_or ms None) ;;; k) (Mem h s) = k (Mem h' s)) /\
    chain h' None (ms ++ rs) None /\ agree_off ((ms ++ rs).*1) h h'.
Proof.
  intros Hm Hr Hnd Cm Cr. rewrite fmap_app, NoDup_app in Hnd. destruct Hnd as (Hnm & Hd & Hnr).
  destruct (link_last h s _ _ _ (hd_or rs None) _ Hm Hnm Cm eq_refl) as (h1 & S1 & C1 & G1 & K1).
  apply K1 in Cr; [|intros x ??; by apply (Hd x)].
  destruct (link_head h1 s _ (last_or ms None) _ _ _ Hr Hnr Cr eq_refl) as (h2 & S2 & C2 & G2 & K2).
  apply K2 in C1; [|intros x ??; by apply (Hd x)].
  exists h2. split_and!.
  - intros T k. run_with S1. by run_with S2.
  - by apply chain_app.
  - eapply agree_off_trans; (eapply agree_off_mono; [|eassumption]); sub_locs.
Qed.

(** The code after the merging loop. *)
Definition merge_end (newlist l r lp ltail rtail : option loc) : comp (A := A) (option loc) :=
  tail_ptr <--
    match l, r with
    | Some _, _ => set_next lp l ;;; set_prev l lp ;;; ret ltail
    | None, Some _ => set_next lp r ;;; set_prev r lp ;;; ret rtail
    | None, None => ret lp
    end ;;
  set_prev newlist tail_ptr ;;; ret newlist.

Lemma merge_end_run h s ms ls rs pvl pvr newlist ltail rtail :
  ms <> [] -> NoDup (ms ++ ls ++ rs).*1 -> ls = [] \/ rs = [] ->
  (ls <> [] -> ltail = last_or ls None) -> (rs <> [] -> rtail = last_or rs None) ->
  newlist = hd_or ms None ->
  chain h None ms None -> chain h pvl ls None -> chain h pvr rs None ->
  exists h', merge_end newlist (hd_or ls None) (hd_or rs None) (last_or ms None) ltail rtail (Mem h s)
      = Some (newlist, Mem h' s) /\
    is_list h' newlist (ms ++ ls ++ rs) /\ agree_off ((ms ++ ls ++ rs).*1) h h'.
Proof.
  intros Hm Hnd Hlr Hlt Hrt -> Cm Cl Cr.
  assert (exists h1 tl, (forall k : option loc -> comp (option loc),
      (tail_ptr <--
        match hd_or ls None, hd_or rs None with
        | Some _, _ => set_next (last_or ms None) (hd_or ls None) ;;;
                       set_prev (hd_or ls None) (last_or ms None) ;;; ret ltail
        | None, Some _ => set_next (last_or ms None) (hd_or rs None) ;;;
                          set_prev (hd_or rs None) (last_or ms None) ;;; ret rtail
        | None, None => ret (last_or ms None)
        end ;; k tail_ptr) (Mem h s) = k tl (Mem h1 s)) /\
      chain h1 None (ms ++ ls ++ rs) None /\ tl = last_or (ms ++ ls ++ rs) None /\
      agree_off ((ms ++ ls ++ rs).*1) h h1) as (h1 & tl & Hk & C1 & Etl & G1).
  { destruct (decide (ls = [])) as [->|Hl]; [destruct (decide (rs = [])) as [->|Hr]|].
    - rewrite app_nil_r in *. exists h, (last_or ms None). split_and!; auto using agree_off_refl.
    - destruct (attach_run h s ms rs pvr) as (h1 & Hk & C1 & G1); try done.
      exists h1, rtail. split_and!; [|done|rewrite last_or_app; simpl; rewrite Hrt by done;
        by apply last_or_nonempty|done].
      intros k. specialize (Hk _ (ret rtail)). destruct rs as [|[r e] rs]; [done|].
      cbn [hd_or] in *. unfold bind at 1. by rewrite Hk.
    - destruct Hlr as [?| ->]; [done|]. rewrite app_nil_r in *.
      destruct (attach_run h s ms ls pvl) as (h1 & Hk & C1 & G1); try done.
      exists h1, ltail. split_and!; [|done|rewrite last_or_app, Hlt by done;
        by apply last_or_nonempty|done].
      intros k. specialize (Hk _ (ret ltail)). destruct ls as [|[l d] ls]; [done|].
      cbn [hd_or] in *. unfold bind at 1. by rewrite Hk. }
  assert (ms ++ ls ++ rs <> []) as Hne by (by destruct ms).
  destruct (link_head h1 s _ tl _ _ (hd_or ms None) Hne Hnd C1) as (h2 & S2 & C2 & G2 & _).
  { by destruct ms as [|[]]. }
  exists h2. split_and!.
  - unfold merge_end. rewrite Hk. by run_with S2.
  - split_and!; [done|by destruct ms as [|[]]|by rewrite <- Etl].
  - by eapply agree_off_trans.
Qed.

Lemma prefix_hd_or (ms ms' : list (loc * option A)) :
  ms <> [] -> ms `prefix_of` ms' -> hd_or ms None = hd_or ms' None /\ ms' <> [].
Proof. intros Hne [k ->]. by destruct ms as [|[]]. Qed.

(** The loop and the end of the function, from a state whose merged list is
    its first node. *)
Lemma merge_rest_run h s l0 d0 ls rs pvl pvr fuel ltail rtail :
  NoDup ((l0, d0) :: ls ++ rs).*1 -> (length ls + length rs <= fuel)%nat ->
  chain h None [(l0, d0)] None -> chain h pvl ls None -> chain h pvr rs None ->
  (ls <> [] -> ltail = last_or ls None) -> (rs <> [] -> rtail = last_or rs None) ->
  exists h', (x <-- mmerge_loop fn fuel (hd_or ls None) (hd_or rs None) (Some l0) ;;
              (let '(l, r, lp) := x in merge_end (Some l0) l r lp ltail rtail)) (Mem h s)
        = Some (Some l0, Mem h' s) /\
    is_list h' (Some l0) ((l0, d0) :: KList.mmerge fnp ls rs) /\
    agree_off (((l0, d0) :: ls ++ rs).*1) h h'.
Proof.
  intros Hnd Hf Cm Cl Cr Hlt Hrt.
  destruct (mmerge_loop_run fuel h s [(l0, d0)] ls rs pvl pvr (Some l0))
    as (h1 & ms' & ls' & rs' & pl & pr & E1 & E2 & E3 & E4 & E5 & E6 & E7 & E8 & E9 & E10);
    try done.
  destruct (prefix_hd_or [(l0, d0)] ms' ltac:(done) E8) as [Hhd Hne].
  assert ((l0, d0) :: ls ++ rs ≡ₚ ms' ++ ls' ++ rs') as Hperm.
  { rewrite E9. simpl. by rewrite KList.mmerge_perm. }
  destruct (merge_end_run h1 s ms' ls' rs' pl pr (Some l0) ltail rtail)
    as (h2 & F1 & F2 & F3); try done.
  { by rewrite <- Hperm. }
  { intros H. rewrite Hlt; [by apply suffix_last_or|]. intros ->. by apply suffix_nil_inv in E6. }
  { intros H. rewrite Hrt; [by apply suffix_last_or|]. intros ->. by apply suffix_nil_inv in E7. }
  exists h2. split_and!.
  - run_with E1. done.
  - by rewrite E9 in F2.
  - eapply agree_off_trans; [done|]. eapply agree_off_mono; [|exact F3].
    intros x. by rewrite Hperm.
Qed.

Lemma mmerge_run h s p1 ls p2 rs :
  is_list h p1 ls -> is_list h p2 rs -> ls.*1 ## rs.*1 ->
  exists h', klpm_list_mmerge fn p1 p2 (Mem h s)
      = Some (hd_or (KList.mmerge fnp ls rs) None, Mem h' s) /\
    is_list h' (hd_or (KList.mmerge fnp ls rs) None) (KList.mmerge fnp ls rs) /\
    agree_off ((ls ++ rs).*1) h h'.
Proof.
  intros (Hn1 & -> & C1) (Hn2 & -> & C2) Hdis.
  destruct ls as [|[l d] ls].
  { rewrite KList.mmerge_nil_l. exists h.
    split_and!; [by destruct rs as [|[]]|by split_and!|apply agree_off_refl]. }
  destruct rs as [|[r e] rs].
  { rewrite KList.mmerge_nil_r. exists h. split_and!; [done|by split_and!|apply agree_off_refl]. }
  assert (NoDup (((l, d) :: ls) ++ (r, e) :: rs).*1) as Hnd.
  { rewrite fmap_app. apply NoDup_app. split_and!; [done| |done]. intros x ??. by apply (Hdis x). }
  pose proof (chain_length _ _ _ _ Hn1 C1) as Hlen1.
  assert (length (((l, d) :: ls) ++ (r, e) :: rs) <= size h)%nat as Hlen.
  { rewrite <- size_dom, <- (length_fmap fst), <- (size_list_to_set (C := gset loc)) by done.
    apply subseteq_size. intros x. rewrite elem_of_list_to_set, fmap_app, elem_of_app.
    intros [H|H]; eapply chain_dom; [exact C1|done|exact C2|done]. }
  rewrite length_app in Hlen. simpl length in Hlen.
  rewrite KList.mmerge_cons. unfold klpm_list_mmerge. cbn [hd_or].
  pose proof C1 as [Hl _]. pose proof C2 as [Hr _]. run_deref Hl. run_deref Hr. cbn [data prev next].
  change (fn d e) with (fnp (l, d) (r, e)).
  destruct (fnp (l, d) (r, e) <=? 0); cbv beta iota zeta.
  - destruct (first_run h s _ l d ls Hn1 C1) as (h1 & Hk & D1 & D2 & G1 & Hsz). rewrite Hk.
    unfold get_fuel at 1. unfold bind at 1. cbn [cells]. rewrite Hsz.
    destruct (merge_rest_run h1 s l d ls ((r, e) :: rs) (Some l) (last_or ((r, e) :: rs) None)
      (S (size h)) (last_or ((l, d) :: ls) None) (last_or ((r, e) :: rs) None)) as (h2 & E & I & G2); try done.
    { simpl. lia. }
    { eapply chain_keep; [exact G1| |done]. intros H. apply (Hdis l); [set_solver|done]. }
    { intros Hne. rewrite last_or_cons. by apply last_or_nonempty. }
    exists h2. split_and!; [exact E|done|].
    eapply agree_off_trans; [eapply agree_off_mono; [|exact G1]; sub_locs|exact G2].
  - destruct (first_run h s _ r e rs Hn2 C2) as (h1 & Hk & D1 & D2 & G1 & Hsz). rewrite Hk.
    unfold get_fuel at 1. unfold bind at 1. cbn [cells]. rewrite Hsz.
    destruct (merge_rest_run h1 s r e ((l, d) :: ls) rs (last_or ((l, d) :: ls) None) (Some r)
      (S (size h)) (last_or ((l, d) :: ls) None) (last_or ((r, e) :: rs) None)) as (h2 & E & I & G2); try done.
    { by rewrite (Permutation_middle ((l, d) :: ls) rs (r, e)). }
    { simpl. lia. }
    { eapply chain_keep; [exact G1| |done]. intros H. apply (Hdis r); [done|set_solver]. }
    { intros Hne. rewrite last_or_cons. by apply last_or_nonempty. }
    exists h2. split_and!; [exact E|done|].
    eapply agree_off_trans; [eapply agree_off_mono; [|exact G1]; sub_locs|].
    eapply agree_off_mono; [|exact G2]. sub_locs.
Qed.

Lemma is_list_frame h h' p ps (locs : list loc) :
  agree_off locs h h' -> locs ## ps.*1 -> is_list h p ps -> is_list h' p ps.
Proof. intros Ha Hd (? & ? & ?). split_and!; [done|done|]. by eapply chain_agree_off. Qed.

Lemma advance_run h s pv ps qs q :
  chain h pv (ps ++ qs) q ->
  advance (length ps) (hd_or (ps ++ qs) q) (Mem h s) = Some (hd_or qs q, Mem h s).
Proof.
  revert pv. induction ps as [|[l d] ps IH]; intros pv Hc; [done|].
  destruct Hc as [Hl Hc]. cbn [length app hd_or advance]. run_deref Hl. by apply (IH (Some l)).
Qed.

(** Cutting a list in two well-formed lists, as [klpm_list_msort] does. *)
Lemma split_run h s p ps1 ps2 :
  ps1 <> [] -> ps2 <> [] -> is_list h p (ps1 ++ ps2) ->
  exists h', (forall T (k : option loc -> comp T),
      (lastleft <-- advance (length ps1 - 1) p ;;
       nll <-- deref lastleft ;;
       set_next lastleft None ;;;
       nl <-- deref p ;;
       set_prev (next nll) (prev nl) ;;;
       set_prev p lastleft ;;;
       k (next nll)) (Mem h s) = k (hd_or ps2 None) (Mem h' s)) /\
    is_list h' p ps1 /\ is_list h' (hd_or ps2 None) ps2 /\ agree_off ((ps1 ++ ps2).*1) h h'.
Proof.
  intros Hne1 Hne2 (Hnd & -> & Hc). pose proof Hc as Hc'.
  rewrite fmap_app, NoDup_app in Hnd. destruct Hnd as (Hn1 & Hd & Hn2).
  assert (ps1.*1 ## ps2.*1) as H12 by (intros x ??; by apply (Hd x)).
  assert (ps2.*1 ## ps1.*1) as H21 by (intros x ??; by apply (Hd x)).
  apply chain_app in Hc' as [C1 C2].
  destruct (snoc_view ps1 Hne1) as (qs & t & dt & Eq).
  assert (last_or ps1 None = Some t) as Elast by (rewrite Eq; apply last_or_snoc).
  destruct (link_last h s _ _ _ None (Some t) Hne1 Hn1 C1 (eq_sym Elast)) as (h1 & S1 & C1' & G1 & K1).
  apply K1 in C2; [|done].
  destruct (deref_head h1 s _ _ _ Hne1 C1') as (n1 & D1 & P1 & _).
  destruct (link_head h1 s _ (prev n1) _ _ _ Hne2 Hn2 C2 eq_refl) as (h2 & S2 & C2' & G2 & K2).
  apply K2 in C1'; [|done].
  destruct (link_head h2 s _ (Some t) _ _ _ Hne1 Hn1 C1' eq_refl) as (h3 & S3 & C1'' & G3 & K3).
  apply K3 in C2'; [|done].
  exists h3. split_and!.
  - intros T k.
    assert (hd_or (ps1 ++ ps2) None = hd_or ps1 None) as Ehd by (by destruct ps1 as [|[]]).
    rewrite Ehd. unfold bind at 1.
    assert (advance (length ps1 - 1) (hd_or ps1 None) (Mem h s) = Some (Some t, Mem h s)) as ->.
    { rewrite <- Ehd. replace (length ps1 - 1)%nat with (length qs) by (rewrite Eq, length_app; simpl; lia).
      rewrite Eq, <- app_assoc in Hc |- *. by rewrite (advance_run _ _ _ _ _ _ Hc). }
    assert (h !! t = Some (Node dt (last_or qs (last_or (ps1 ++ ps2) None)) (hd_or ps2 None))) as Ht.
    { apply (chain_last _ _ qs). by rewrite <- Eq. }
    run_deref Ht. cbv beta. run_with S1. run_with D1. cbn [next]. run_with S2. by run_with S3.
  - split_and!; [done|by destruct ps1 as [|[]]|by rewrite Elast].
  - split_and!; [done|done|]. rewrite P1, last_or_app in C2'. by rewrite (last_or_nonempty ps2 _ None) in C2'.
  - eapply agree_off_trans; [|eapply agree_off_trans];
      (eapply agree_off_mono; [|eassumption]); sub_locs.
Qed.

Lemma msort_run fuel n h s p ps :
  (n <= fuel)%nat -> length ps = n -> is_list h p ps ->
  exists h', msort_rec fn fuel n p (Mem h s)
      = Some (hd_or (KList.msort fnp fuel n ps) None, Mem h' s) /\
    is_list h' (hd_or (KList.msort fnp fuel n ps) None) (KList.msort fnp fuel n ps) /\
    KList.msort fnp fuel n ps ≡ₚ ps /\ agree_off ps.*1 h h'.
Proof.
  revert n h p ps. induction fuel as [|fuel IH]; intros n h p ps Hn Hlen Hl.
  { destruct ps; [|simpl in *; lia]. subst n. exists h. destruct Hl as (? & -> & ?).
    split_and!; auto using agree_off_refl. by split_and!. }
  cbn [msort_rec KList.msort]. destruct (Nat.ltb_spec 1 n) as [H1|H1].
  2: { exists h. pose proof Hl as (? & -> & ?). split_and!; auto using agree_off_refl. }
  pose proof (Nat.div_lt n 2). pose proof (Nat.div_le_lower_bound n 2 1).
  set (half := (n / 2)%nat) in *.
  assert (length (take half ps) = half) as Ht by (rewrite length_take; lia).
  assert (length (drop half ps) = n - half)%nat as Hd by (rewrite length_drop; lia).
  rewrite <- (take_drop half ps) in Hl.
  destruct (split_run h s p (take half ps) (drop half ps)) as (h1 & Hk & L1 & L2 & G1).
  { destruct (take half ps); simpl in *; [lia|done]. }
  { destruct (drop half ps); simpl in *; [lia|done]. }
  { done. }
  pose proof Hl as (Hnd & _ & _). rewrite fmap_app, NoDup_app in Hnd. destruct Hnd as (_ & Hdis & _).
  assert ((take half ps).*1 ## (drop half ps).*1) as H12 by (intros x ??; by apply (Hdis x)).
  rewrite Ht in Hk. rewrite (Hk _ (fun right => l <-- msort_rec fn fuel half p ;;
    r <-- msort_rec fn fuel (n - half) right ;; klpm_list_mmerge fn l r)).
  destruct (IH half h1 p (take half ps)) as (h2 & E2 & I2 & P2 & G2); [lia|done|done|].
  apply (is_list_frame h1 h2) with (locs := (take half ps).*1) in L2; [|done|done].
  destruct (IH (n - half)%nat h2 (hd_or (drop half ps) None) (drop half ps)) as (h3 & E3 & I3 & P3 & G3);
    [lia|done|done|].
  apply (is_list_frame h2 h3) with (locs := (drop half ps).*1) in I2;
    [|done|intros x Hx Hy; rewrite P2 in Hy; by apply (H12 x)].
  destruct (mmerge_run h3 s _ _ _ _ I2 I3) as (h4 & E4 & I4 & G4).
  { intros x Hx Hy. rewrite P2 in Hx. rewrite P3 in Hy. by apply (H12 x). }
  exists h4. split_and!.
  - run_with E2. by run_with E3.
  - done.
  - rewrite KList.mmerge_perm, P2, P3. by rewrite take_drop.
  - rewrite take_drop in G1.
    eapply agree_off_trans; [exact G1|].
    eapply agree_off_trans; [eapply agree_off_mono; [|exact G2]|].
    { rewrite <- (take_drop half ps) at 2. sub_locs. }
    eapply agree_off_trans; [eapply agree_off_mono; [|exact G3]|].
    { rewrite <- (take_drop half ps) at 2. sub_locs. }
    eapply agree_off_mono; [|exact G4]. intros x. by rewrite P2, P3, take_drop.
Qed.
End Merge.

(** ** Freeing, copying, reversing, removing *)

Section Walk.
Context {A : Type}.
Implicit Types (h : gmap loc (node A)) (ps qs : list (loc * option A)).

(** [ps] are the nodes met when following [step] from [p] until NULL. *)
Fixpoint walk h (step : node A -> option loc) (p : option loc) ps : Prop :=
  match ps with
  | [] => p = None
  | (l, d) :: ps' => p = Some l /\ exists n, h !! l = Some n /\ data n = d /\ walk h step (step n) ps'
  end.

Lemma chain_walk_next h pv ps : chain h pv ps None -> walk h next (hd_or ps None) ps.
Proof.
  revert pv. induction ps as [|[l d] ps IH]; intros pv; simpl; [done|].
  intros [H1 H2]. split; [done|]. eexists. split_and!; [done|done|]. by apply (IH (Some l)).
Qed.

Lemma chain_walk_prev h ps q : chain h None ps q -> walk h prev (last_or ps None) (reverse ps).
Proof.
  revert q. induction ps as [|[l d] ps IH] using rev_ind; intros q Hc; [done|].
  rewrite reverse_snoc, last_or_snoc. simpl. split; [done|].
  apply chain_app in Hc as [H1 [H2 _]]. eexists. split_and!; [done|done|]. by eapply IH.
Qed.

Lemma walk_frame h h' step p ps (locs : list loc) :
  agree_off locs h h' -> locs ## ps.*1 -> walk h step p ps -> walk h' step p ps.
Proof.
  intros Ha. revert p. induction ps as [|[l d] ps IH]; intros p Hd; [done|].
  intros [-> (n & Hn & Hdat & Hw)]. split; [done|]. exists n.
  rewrite Ha by (intros Hl; apply (Hd l Hl); set_solver).
  split_and!; [done|done|]. apply IH; [|done]. intros x Hx Hy. apply (Hd x Hx). set_solver.
Qed.

Definition delete_all (locs : list loc) h : gmap loc (node A) := foldl (fun h l => delete l h) h locs.

Lemma delete_all_lookup locs h l :
  delete_all locs h !! l = if decide (l ∈ locs) then None else h !! l.
Proof.
  revert h. induction locs as [|k locs IH]; intros h.
  { case_decide as H; [by apply elem_of_nil in H|done]. }
  change (delete_all (k :: locs) h) with (delete_all locs (delete k h)).
  rewrite IH, lookup_delete. repeat case_decide; set_solver.
Qed.

Lemma free_loop_run fuel h s pv ps :
  NoDup ps.*1 -> (length ps <= fuel)%nat -> chain h pv ps None ->
  list_free_loop fuel (hd_or ps None) (Mem h s) = Some (tt, Mem (delete_all ps.*1 h) s).
Proof.
  revert h pv fuel. induction ps as [|[l d] ps IH]; intros h pv fuel Hnd Hf Hc; [by destruct fuel|].
  destruct fuel as [|fuel]; [simpl in *; lia|]. apply NoDup_cons in Hnd as [Hl Hnd].
  destruct Hc as [H1 H2]. cbn [hd_or list_free_loop]. run_deref H1.
  assert (free (Some l) (Mem h s) = Some (tt, Mem (delete l h) s)) as Hfree by (simpl; by rewrite H1).
  run_with Hfree. cbn [next]. rewrite (IH _ (Some l)); [done|done|simpl in *; lia|].
  eapply chain_frame; [|done]. intros k Hk. rewrite lookup_delete_ne; [done|].
  intros ->. done.
Qed.

Lemma list_free_run h s p ps :
  is_list h p ps -> klpm_list_free p (Mem h s) = Some (tt, Mem (delete_all ps.*1 h) s).
Proof.
  intros (Hnd & -> & Hc). unfold klpm_list_free, get_fuel, bind. cbn [cells].
  eapply free_loop_run; [done| |done]. pose proof (chain_length _ _ _ _ Hnd Hc). lia.
Qed.

(** The copying loop: the copy [qs] consists of nodes outside the original
    heap [h0]; a failed allocation gives the original heap back. *)
Lemma copy_loop_run fuel h0 h s step lp ps newlist qs :
  (length ps <= fuel)%nat -> walk h0 step lp ps ->
  is_list h newlist qs -> (forall l, l ∈ qs.*1 -> l ∉ dom h0) -> agree_off qs.*1 h0 h ->
  (exists h' s' qs', copy_loop fuel step lp newlist (Mem h s) = Some (Some (hd_or qs' None), Mem h' s') /\
     is_list h' (hd_or qs' None) qs' /\ qs'.*2 = qs.*2 ++ ps.*2 /\
     (forall l, l ∈ qs'.*1 -> l ∉ dom h0) /\ agree_off qs'.*1 h0 h') \/
  (exists s', copy_loop fuel step lp newlist (Mem h s) = Some (None, Mem h0 s')).
Proof.
  revert h s lp ps newlist qs.
  induction fuel as [|fuel IH]; intros h s lp ps newlist qs Hf Hw Hq Hfr Ha.
  - destruct ps; [|simpl in *; lia]. simpl in Hw. subst lp. left. exists h, s, qs.
    pose proof Hq as (_ & -> & _). rewrite app_nil_r. by split_and!.
  - destruct ps as [|[l d] ps].
    { simpl in Hw. subst lp. left. exists h, s, qs.
      pose proof Hq as (_ & -> & _). rewrite app_nil_r. by split_and!. }
    destruct Hw as [-> (n & Hn & <- & Hw)]. cbn [copy_loop].
    assert (h !! l = Some n) as Hn'.
    { rewrite Ha; [done|]. intros H. apply (Hfr l H). by apply elem_of_dom_2 in Hn. }
    run_deref Hn'.
    destruct (append_run h s newlist qs (data n) Hq) as [[_ E]|(k & h1 & Hk & E & L & G)].
    + right. exists (tail s). run_with E. cbn [fst snd]. run_with (list_free_run h (tail s) newlist qs Hq).
      unfold ret. do 2 f_equal. f_equal. apply map_eq. intros x. rewrite delete_all_lookup.
      case_decide as Hx; [|by rewrite Ha].
      specialize (Hfr x Hx). by apply not_elem_of_dom in Hfr.
    + run_with E. cbn [fst snd].
      destruct (IH h1 (tail s) (step n) ps (hd_or (qs ++ [(k, data n)]) None) (qs ++ [(k, data n)]))
        as [(h2 & s2 & qs' & F1 & F2 & F3 & F4 & F5)|(s2 & F1)].
      * simpl in *; lia.
      * done.
      * done.
      * intros x. rewrite fmap_app, elem_of_app. intros [Hx|Hx]; [by apply Hfr|].
        apply list_elem_of_singleton in Hx as ->. intros Hd. apply Hk.
        apply elem_of_dom. rewrite Ha; [by apply elem_of_dom|]. intros Hq'. by apply (Hfr k Hq').
      * intros x. rewrite fmap_app, not_elem_of_app. intros [Hx1 Hx2].
        rewrite G; [by apply Ha|]. set_solver.
      * left. exists h2, s2, qs'. split_and!; [done|done| |done|done].
        rewrite F3, fmap_app, <- app_assoc. done.
      * right. by exists s2.
Qed.

Lemma copy_run h s p ps :
  is_list h p ps ->
  (exists h' s' qs, klpm_list_copy p (Mem h s) = Some (hd_or qs None, Mem h' s') /\
     is_list h' (hd_or qs None) qs /\ qs.*2 = ps.*2 /\ is_list h' p ps /\
     (forall l, l ∈ qs.*1 -> l ∉ dom h) /\ agree_off qs.*1 h h') \/
  (exists s', klpm_list_copy p (Mem h s) = Some (None, Mem h s')).
Proof.
  intros Hl. pose proof Hl as (Hnd & -> & Hc). pose proof (chain_length _ _ _ _ Hnd Hc) as Hlen.
  destruct (copy_loop_run (S (size h)) h h s next (hd_or ps None) ps None [])
    as [(h' & s' & qs & E1 & E2 & E3 & E4 & E5)|(s' & E)].
  - lia.
  - by eapply chain_walk_next.
  - split_and!; [constructor|done|done].
  - set_solver.
  - apply agree_off_refl.
  - left. exists h', s', qs. split_and!; try done.
    + unfold klpm_list_copy, get_fuel. unfold bind at 1. cbn [cells]. by run_with E1.
    + eapply is_list_frame; [exact E5| |done]. intros x Hx Hy. apply (E4 x Hx). by eapply chain_dom.
  - right. exists s'. unfold klpm_list_copy, get_fuel. unfold bind at 1. cbn [cells]. by run_with E.
Qed.

Lemma reverse_run h s p ps :
  is_list h p ps ->
  (exists h' s' qs, klpm_list_reverse p (Mem h s) = Some (hd_or qs None, Mem h' s') /\
     is_list h' (hd_or qs None) qs /\ qs.*2 = reverse ps.*2 /\ is_list h' p ps) \/
  (exists s' h', klpm_list_reverse p (Mem h s) = Some (None, Mem h' s') /\ is_list h' p ps).
Proof.
  intros Hl. pose proof Hl as (Hnd & -> & Hc). pose proof (chain_length _ _ _ _ Hnd Hc) as Hlen.
  destruct (decide (ps = [])) as [->|Hne].
  { left. exists h, s, []. by split_and!. }
  destruct (deref_head h s _ _ _ Hne Hc) as (n & D & P & _).
  destruct (link_head h s _ None _ _ _ Hne Hnd Hc eq_refl) as (h1 & S1 & C1 & G1 & _).
  assert (size h1 = size h) as Hsz.
  { destruct ps as [|[l d] ps]; [done|]. unfold set_prev in S1. by apply upd_size in S1. }
  assert (klpm_list_last (hd_or ps None) (Mem h s) = Some (prev n, Mem h s)) as Hlast.
  { destruct ps as [|[l d] ps]; [done|]. unfold klpm_list_last. cbn [hd_or] in *. by run_with D. }
  assert (length (reverse ps) <= S (size h1))%nat as Hf by (rewrite length_reverse; lia).
  pose proof (chain_walk_prev _ _ _ C1) as Hw.
  assert (klpm_list_reverse (hd_or ps None) (Mem h s) =
    (r <-- copy_loop (S (size h1)) prev (prev n) None ;;
     set_prev (hd_or ps None) (prev n) ;;; ret (default None r)) (Mem h1 s)) as ->.
  { unfold klpm_list_reverse. destruct ps as [|[l d] ps]; [done|]. cbn [hd_or] in *.
    run_with Hlast. run_with D. cbv beta zeta. run_with S1. done. }
  rewrite P.
  destruct (copy_loop_run (S (size h1)) h1 h1 s prev (last_or ps None) (reverse ps) None [])
    as [(h2 & s2 & qs & E1 & E2 & E3 & E4 & E5)|(s2 & E)]; try done.
  - split_and!; [constructor|done|done].
  - set_solver.
  - left. assert (qs.*1 ## ps.*1) as Hdis.
    { intros x Hx Hy. apply (E4 x Hx). eapply chain_dom; [exact C1|done]. }
    assert (chain h2 None ps None) as C2 by (eapply chain_agree_off; done).
    destruct (link_head h2 s2 _ (last_or ps None) _ _ _ Hne Hnd C2 eq_refl) as (h3 & S3 & C3 & G3 & K3).
    exists h3, s2, qs. split_and!.
    + run_with E1. by run_with S3.
    + eapply is_list_frame; [exact G3| |done]. intros x Hx Hy. by apply (Hdis x).
    + rewrite E3. by rewrite fmap_reverse.
    + by split_and!.
  - right.
    destruct (link_head h1 s2 _ (last_or ps None) _ _ _ Hne Hnd C1 eq_refl) as (h3 & S3 & C3 & G3 & K3).
    exists s2, h3. split; [run_with E; by run_with S3|by split_and!].
Qed.

(** The removing loop, after passing the nodes [ps1] without a match. *)
Lemma remove_loop_run fuel h s (matches : A -> bool) p ps1 ps2 :
  (length ps2 <= fuel)%nat -> is_list h p (ps1 ++ ps2) ->
  (remove_loop fuel matches p (hd_or ps2 None) (Mem h s) = Some ((p, None), Mem h s) /\
   (forall l x, (l, Some x) ∈ ps2 -> matches x = false)) \/
  (exists qs l x rs h', ps2 = qs ++ (l, Some x) :: rs /\ matches x = true /\
     (forall k y, (k, Some y) ∈ qs -> matches y = false) /\
     remove_loop fuel matches p (hd_or ps2 None) (Mem h s)
       = Some ((hd_or (ps1 ++ qs ++ rs) None, Some x), Mem h' s) /\
     is_list h' (hd_or (ps1 ++ qs ++ rs) None) (ps1 ++ qs ++ rs) /\
     h' !! l = None /\ agree_off ((ps1 ++ ps2).*1) h h').
Proof.
  revert ps1 ps2. induction fuel as [|fuel IH]; intros ps1 ps2 Hf Hl.
  { destruct ps2; [|simpl in *; lia]. left. split; [done|set_solver]. }
  destruct ps2 as [|[l d] ps2]; [left; split; [done|set_solver]|].
  pose proof Hl as (Hnd & _ & Hc). apply chain_app in Hc as [_ [Hn _]].
  cbn [hd_or remove_loop]. run_deref Hn. cbn [data next].
  assert (forall l' y, (l', Some y) ∈ [(l, d)] -> d = Some y) as Hone.
  { intros l' y H. apply list_elem_of_singleton in H. by inversion H. }
  assert (length ps2 <= fuel)%nat as Hf' by (simpl in *; lia).
  assert ((d = None \/ exists x, d = Some x /\ matches x = false) \/
          exists x, d = Some x /\ matches x = true) as [Hno|(x & -> & Hm)].
  { destruct d as [x|]; [|by auto]. destruct (matches x) eqn:E; eauto. }
  - assert (match d with
      | Some x => if matches x then
            h0 <-- klpm_list_remove_item p (Some l) ;; ni <-- deref (Some l) ;;
            free (Some l) ;;; ret (h0, data ni)
          else remove_loop fuel matches p (hd_or ps2 None)
      | None => remove_loop fuel matches p (hd_or ps2 None)
      end = remove_loop fuel matches p (hd_or ps2 None)) as ->.
    { by destruct Hno as [-> |(x & -> & ->)]. }
    assert (forall k y, (k, Some y) ∈ [(l, d)] -> matches y = false) as Hl0.
    { intros k y Hk%Hone. destruct Hno as [-> |(x & -> & ?)]; [done|]. by injection Hk as ->. }
    destruct (IH (ps1 ++ [(l, d)]) ps2) as [[E Hall]|(qs & k & x & rs & h' & -> & Hm & Hqs & E & L & Hdel & G)];
      [done|by rewrite <- app_assoc| |].
    + left. split; [done|]. intros k y [Hk|Hk]%elem_of_cons; [|by eapply Hall].
      apply (Hl0 k). set_solver.
    + right. exists ((l, d) :: qs), k, x, rs, h'. rewrite <- app_assoc in E, L, G.
      split_and!; try done. intros k' y [Hk|Hk]%elem_of_cons; [apply (Hl0 k'); set_solver|by eapply Hqs].
  - right. rewrite Hm.
    destruct (remove_item_run h s p ps1 l (Some x) ps2 Hl) as (h1 & n & E & L & G & Hn1 & Hdat).
    exists [], l, x, ps2, (delete l h1). simpl app. split_and!; try done.
    + set_solver.
    + run_with E. run_deref Hn1. unfold free, bind. cbn [cells sched]. rewrite Hn1.
      unfold ret. by rewrite Hdat.
    + destruct L as (Hn12 & Hp & Hc). split_and!; [done|done|].
      eapply chain_frame; [|done]. intros k Hk. apply lookup_delete_ne. intros ->.
      rewrite fmap_app, NoDup_app in Hnd. destruct Hnd as (_ & Hd & [Hl2 _]%NoDup_cons).
      rewrite fmap_app, elem_of_app in Hk. destruct Hk as [Hk|Hk]; [|done].
      apply (Hd k Hk). set_solver.
    + apply lookup_delete_eq.
    + intros k Hk. rewrite lookup_delete_ne; [by apply G|]. intros ->. apply Hk.
      rewrite fmap_app, elem_of_app. right. set_solver.
Qed.
End Walk.

Section AddSorted.
Context {A : Type} (fn : option A -> option A -> Z).
Implicit Types (h : gmap loc (node A)) (ps qs : list (loc * option A)).

Lemma find_insertion_run fuel h s d pv ps1 ps2 :
  (length ps2 <= fuel)%nat -> chain h pv ps2 None ->
  exists qs rs, ps2 = qs ++ rs /\
    find_insertion fn fuel d (last_or ps1 None) (hd_or ps2 None) (Mem h s)
      = Some ((last_or (ps1 ++ qs) None, hd_or rs None), Mem h s) /\
    forall l, KList.add_sorted (fnp fn) ps2 (l, d) = qs ++ (l, d) :: rs.
Proof.
  revert pv ps1 ps2. induction fuel as [|fuel IH]; intros pv ps1 ps2 Hf Hc.
  { destruct ps2; [|simpl in *; lia]. exists [], []. by rewrite (app_nil_r ps1). }
  destruct ps2 as [|[k e] ps2]. { exists [], []. by rewrite (app_nil_r ps1). }
  destruct Hc as [Hk Hc]. cbn [hd_or find_insertion KList.add_sorted]. run_deref Hk.
  cbn [data next]. unfold fnp at 1. cbn [snd].
  destruct (fn d e <=? 0) eqn:E.
  - exists [], ((k, e) :: ps2). rewrite (app_nil_r ps1). split_and!; [done|done|].
    intros l. unfold fnp. cbn [snd]. by rewrite ?E.
  - destruct (IH (Some k) (ps1 ++ [(k, e)]) ps2) as (qs & rs & -> & E1 & E2); [simpl in *; lia|done|].
    exists ((k, e) :: qs), rs. rewrite last_or_snoc in E1. rewrite <- app_assoc in E1.
    split_and!; [done|done|]. intros l. rewrite ?E. by rewrite E2.
Qed.

(** Insert the detached node [(l, d)] between two non-empty parts. *)
Lemma insert_between h s pv l d qs rs q :
  qs <> [] -> rs <> [] -> NoDup (qs ++ (l, d) :: rs).*1 ->
  chain h pv (qs ++ rs) q -> (exists n, h !! l = Some n /\ data n = d) ->
  exists h', (forall T (k : comp T),
      (set_prev (Some l) (last_or qs None) ;;;
       set_next (Some l) (hd_or rs None) ;;;
       set_prev (hd_or rs None) (Some l) ;;;
       set_next (last_or qs None) (Some l) ;;; k) (Mem h s) = k (Mem h' s)) /\
    chain h' pv (qs ++ (l, d) :: rs) q /\ agree_off ((qs ++ (l, d) :: rs).*1) h h'.
Proof.
  intros Hq Hr Hnd Hc (n & Hn & Hd). apply chain_app in Hc as [C1 C2].
  rewrite fmap_app, NoDup_app in Hnd. destruct Hnd as (Hnq & Hdis & [Hlr Hnr]%NoDup_cons).
  assert (l ∉ qs.*1) as Hlq by (intros H; apply (Hdis l H); set_solver).
  assert (forall x, x ∈ qs.*1 -> x ∈ rs.*1 -> False) as Hqr by (intros x ??; apply (Hdis x); set_solver).
  set (h1 := <[l := Node d (last_or qs None) (hd_or rs None)]> h).
  assert (agree_off [l] h h1) as G0 by apply agree_off_insert.
  apply (chain_keep _ h1 _ _ _ l) in C1; [|done|done]. apply (chain_keep _ h1 _ _ _ l) in C2; [|done|done].
  destruct (link_head h1 s _ (Some l) _ _ _ Hr Hnr C2 eq_refl) as (h2 & S2 & C2' & G2 & K2).
  apply K2 in C1; [|intros x ??; by apply (Hqr x)].
  destruct (link_last h2 s _ _ _ (Some l) _ Hq Hnq C1 eq_refl) as (h3 & S3 & C3 & G3 & K3).
  apply K3 in C2'; [|intros x ??; by apply (Hqr x)].
  exists h3. split_and!.
  - intros T k. unfold set_prev at 1, set_next at 1, bind. rewrite (upd_run _ _ _ _ _ Hn).
    rewrite (upd_run _ _ _ _ _ (lookup_insert_eq _ _ _)), insert_insert_eq.
    unfold with_next, with_prev. simpl. rewrite Hd. fold h1. by rewrite S2, S3.
  - apply chain_app. split; [done|]. split; [|done].
    rewrite G3, G2, (last_or_nonempty qs pv None) by done. unfold h1. rewrite lookup_insert_eq.
    by destruct rs as [|[]].
  - eapply agree_off_trans; [eapply agree_off_mono; [|exact G0]|]; [sub_locs|].
    eapply agree_off_trans; [eapply agree_off_mono; [|exact G2]|]; [sub_locs|].
    eapply agree_off_mono; [|exact G3]. sub_locs.
Qed.

(** Insert the detached node in front of a list. *)
Lemma insert_front h s l d ps n :
  ps <> [] -> NoDup ((l, d) :: ps).*1 -> is_list h (hd_or ps None) ps ->
  h !! l = Some n -> data n = d ->
  exists h', (nh <-- deref (hd_or ps None) ;;
              set_prev (Some l) (prev nh) ;;;
              set_next (Some l) (hd_or ps None) ;;;
              set_prev (hd_or ps None) (Some l) ;;; ret (Some l)) (Mem h s) = Some (Some l, Mem h' s) /\
    is_list h' (Some l) ((l, d) :: ps) /\ agree_off (((l, d) :: ps).*1) h h'.
Proof.
  intros Hne Hnd (Hnp & _ & Hc) Hn Hd. pose proof Hnd as [Hl _]%NoDup_cons.
  destruct (deref_head h s _ _ _ Hne Hc) as (nh & D & P & _).
  set (h1 := <[l := Node d (prev nh) (hd_or ps None)]> h).
  assert (agree_off [l] h h1) as G0 by apply agree_off_insert.
  apply (chain_keep _ h1 _ _ _ l) in Hc; [|done|done].
  destruct (link_head h1 s _ (Some l) _ _ _ Hne Hnp Hc eq_refl) as (h2 & S2 & C2 & G2 & K2).
  exists h2. split_and!.
  - run_with D. unfold set_prev at 1, set_next, bind. rewrite (upd_run _ _ _ _ _ Hn).
    rewrite (upd_run _ _ _ _ _ (lookup_insert_eq _ _ _)), insert_insert_eq.
    unfold with_next, with_prev. simpl. rewrite Hd. fold h1. by rewrite S2.
  - split_and!; [done|done|]. split; [|done]. rewrite G2 by done. unfold h1.
    rewrite lookup_insert_eq, P, last_or_cons. by rewrite (last_or_nonempty ps None (Some l)).
  - eapply agree_off_trans; (eapply agree_off_mono; [|eassumption]); sub_locs.
Qed.

(** Insert the detached node at the end of a list. *)
Lemma insert_back h s l d ps n :
  ps <> [] -> NoDup (ps ++ [(l, d)]).*1 -> is_list h (hd_or ps None) ps ->
  h !! l = Some n -> data n = d ->
  exists h', (set_prev (Some l) (last_or ps None) ;;;
              set_next (Some l) None ;;;
              set_next (last_or ps None) (Some l) ;;;
              set_prev (hd_or ps None) (Some l) ;;; ret (hd_or ps None)) (Mem h s)
      = Some (hd_or ps None, Mem h' s) /\
    is_list h' (hd_or ps None) (ps ++ [(l, d)]) /\ agree_off ((ps ++ [(l, d)]).*1) h h'.
Proof.
  intros Hne Hnd (Hnp & _ & Hc) Hn Hd.
  assert (l ∉ ps.*1) as Hl.
  { rewrite fmap_app, NoDup_app in Hnd. destruct Hnd as (_ & H & _). intros Hx. apply (H l Hx). set_solver. }
  set (h1 := <[l := Node d (last_or ps None) None]> h).
  assert (agree_off [l] h h1) as G0 by apply agree_off_insert.
  apply (chain_keep _ h1 _ _ _ l) in Hc; [|done|done].
  destruct (link_last h1 s _ _ _ (Some l) _ Hne Hnp Hc eq_refl) as (h2 & S2 & C2 & G2 & K2).
  destruct (link_head h2 s _ (Some l) _ _ _ Hne Hnp C2 eq_refl) as (h3 & S3 & C3 & G3 & K3).
  exists h3. split_and!.
  - unfold set_prev at 1, set_next at 1, bind. rewrite (upd_run _ _ _ _ _ Hn).
    rewrite (upd_run _ _ _ _ _ (lookup_insert_eq _ _ _)), insert_insert_eq.
    unfold with_next, with_prev. simpl. rewrite Hd. fold h1. by rewrite S2, S3.
  - split_and!; [done|by destruct ps as [|[]]|]. rewrite last_or_snoc. apply chain_app. split; [done|].
    split; [|done]. rewrite G3, G2 by done. unfold h1. rewrite lookup_insert_eq.
    by rewrite (last_or_nonempty ps (Some l) None).
  - eapply agree_off_trans; [eapply agree_off_mono; [|exact G0]|]; [sub_locs|].
    eapply agree_off_trans; (eapply agree_off_mono; [|eassumption]); sub_locs.
Qed.

Lemma add_sorted_run h s p ps d :
  is_list h p ps ->
  (head s = Some false /\ klpm_list_add_sorted fn p d (Mem h s) = Some (p, Mem h (tail s))) \/
  exists l h', l ∉ dom h /\
    klpm_list_add_sorted fn p d (Mem h s)
      = Some (hd_or (KList.add_sorted (fnp fn) ps (l, d)) None, Mem h' (tail s)) /\
    is_list h' (hd_or (KList.add_sorted (fnp fn) ps (l, d)) None) (KList.add_sorted (fnp fn) ps (l, d)) /\
    agree_off (l :: ps.*1) h h'.
Proof.
  intros Hl. destruct (decide (ps = [])) as [->|Hne].
  { pose proof Hl as (_ & -> & _). simpl hd_or. unfold klpm_list_add_sorted, klpm_list_add.
    destruct (append_run h s None [] d Hl) as [[? E]|(l & h' & ? & E & L & G)].
    - left. split; [done|]. by run_with E.
    - right. exists l, h'. split_and!; [done|by run_with E|done|done]. }
  pose proof Hl as (Hnd & Hp & Hc).
  assert (exists l0, p = Some l0) as [l0 Hp0] by (destruct ps as [|[]]; [done|eauto]).
  destruct (malloc_run h s) as [[Hm Hs]|(l & Hfr & Hm)].
  { left. split; [done|]. unfold klpm_list_add_sorted. rewrite Hp0. by run_with Hm. }
  right. exists l.
  set (h1 := <[l := Node d None None]> h).
  assert (set_data (Some l) d (Mem (<[l := Node None None None]> h) (tail s)) = Some (tt, Mem h1 (tail s))) as Hsd.
  { unfold set_data. rewrite (upd_run _ _ _ _ _ (lookup_insert_eq _ _ _)). by rewrite insert_insert_eq. }
  destruct (fresh_chain h _ _ _ l (Node d None None) Hfr Hc) as [Hlps Hc1].
  assert (is_list h1 (hd_or ps None) ps) as L1 by (by split_and!).
  assert (length ps <= S (size h1))%nat as Hf by (pose proof (chain_length _ _ _ _ Hnd Hc1); unfold h1; lia).
  destruct (find_insertion_run (S (size h1)) h1 (tail s) d _ [] ps Hf Hc1) as (qs & rs & Eps & E & Epure).
  cbn [app] in E. change (last_or [] None) with (@None loc) in E.
  rewrite (Epure l).
  assert (NoDup (qs ++ (l, d) :: rs).*1) as Hnd'.
  { rewrite <- (Permutation_middle qs rs (l, d)), <- Eps. by apply NoDup_cons. }
  assert (h1 !! l = Some (Node d None None)) as Hnl by apply lookup_insert_eq.
  assert (agree_off (l :: ps.*1) h h1) as G1.
  { eapply agree_off_mono; [|apply agree_off_insert]. set_solver. }
  assert (forall x, x ∈ (qs ++ (l, d) :: rs).*1 -> x ∈ l :: ps.*1) as Hsub.
  { intros x. rewrite <- (Permutation_middle qs rs (l, d)), <- Eps. done. }
  assert (klpm_list_add_sorted fn p d (Mem h s) =
    match (last_or qs None, hd_or rs None) with
    | (None, _) =>
        (nh <-- deref (hd_or ps None) ;; set_prev (Some l) (prev nh) ;;; set_next (Some l) (hd_or ps None) ;;;
         set_prev (hd_or ps None) (Some l) ;;; ret (Some l)) (Mem h1 (tail s))
    | (pv, None) =>
        (set_prev (Some l) pv ;;; set_next (Some l) None ;;; set_next pv (Some l) ;;;
         set_prev (hd_or ps None) (Some l) ;;; ret (hd_or ps None)) (Mem h1 (tail s))
    | (pv, nx) =>
        (set_prev (Some l) pv ;;; set_next (Some l) nx ;;; set_prev nx (Some l) ;;;
         set_next pv (Some l) ;;; ret (hd_or ps None)) (Mem h1 (tail s))
    end) as ->.
  { unfold klpm_list_add_sorted. rewrite Hp0. run_with Hm. cbv beta iota. run_with Hsd.
    unfold get_fuel at 1. unfold bind at 1. cbn [cells]. rewrite <- Hp0, Hp. run_with E.
    by destruct (last_or qs None), (hd_or rs None). }
  destruct (decide (qs = [])) as [->|Hqs]; [|destruct (decide (rs = [])) as [->|Hrs]].
  - simpl app in *. subst rs. cbv beta iota.
    destruct (insert_front h1 (tail s) l d ps _ Hne Hnd' L1 Hnl eq_refl) as (h2 & F1 & F2 & F3).
    exists h2. split_and!; [done|done|done|]. by eapply agree_off_trans.
  - rewrite app_nil_r in Eps. subst qs.
    destruct (insert_back h1 (tail s) l d ps _ Hne Hnd' L1 Hnl eq_refl) as (h2 & F1 & F2 & F3).
    exists h2. rewrite hd_or_app.
    assert (hd_or ps (hd_or [(l, d)] None) = hd_or ps None) as -> by (by destruct ps as [|[]]).
    split_and!; [done| |done|].
    + destruct (snoc_view ps Hne) as (us & t & dt & Et).
      assert (last_or ps None = Some t) as Elast by (rewrite Et; apply last_or_snoc).
      rewrite Elast in *. exact F1.
    + eapply agree_off_trans; [done|]. eapply agree_off_mono; [|exact F3]. done.
  - rewrite Eps in Hc1.
    destruct (insert_between h1 (tail s) _ l d qs rs None Hqs Hrs Hnd' Hc1) as (h2 & F1 & F2 & F3).
    { eauto. }
    exists h2. rewrite hd_or_app.
    assert (hd_or qs (hd_or ((l, d) :: rs) None) = hd_or ps None) as -> by (subst ps; by destruct qs as [|[]]).
    split_and!; [done| | |].
    + destruct (snoc_view qs Hqs) as (us & t & dt & Et).
      assert (last_or qs None = Some t) as Elast by (rewrite Et; apply last_or_snoc).
      destruct (hd_or_nonempty rs Hrs) as (r0 & _ & Hr0). rewrite Elast, Hr0 in *. by rewrite F1.
    + split_and!; [done|subst ps; by destruct qs as [|[]]|].
      rewrite last_or_app, last_or_cons. subst ps. rewrite last_or_app in F2.
      by rewrite (last_or_nonempty rs _ (last_or qs None)).
    + eapply agree_off_trans; [done|]. eapply agree_off_mono; [|exact F3]. done.
Qed.
End AddSorted.

(** ** Properties *)

#[global] Instance fnp_order {A} (fn : option A -> option A -> Z) : CmpOrder fn -> CmpOrder (fnp fn).
Proof. apply (cmp_order_proj snd). Qed.

Lemma fnp_sorted {A} (fn : option A -> option A -> Z) (ps : list (loc * option A)) :
  StronglySorted (cmp_le (fnp fn)) ps -> StronglySorted (cmp_le fn) ps.*2.
Proof.
  induction 1 as [|p ps Hs IH Hp]; [constructor|]. rewrite fmap_cons. constructor; [done|].
  rewrite Forall_fmap. eapply Forall_impl; [exact Hp|]. done.
Qed.

(** A list of three nodes holding 3, 1, 2, and a comparison of integers. *)
Definition ex_ps : list (loc * option Z) := [(1%positive, Some 3); (2%positive, Some 1); (3%positive, Some 2)].
Definition ex_heap : gmap loc (node Z) := list_to_map
  [(1%positive, Node (Some 3) (Some 3%positive) (Some 2%positive));
   (2%positive, Node (Some 1) (Some 1%positive) (Some 3%positive));
   (3%positive, Node (Some 2) (Some 2%positive) None)].
Definition ex_cmp (x y : option Z) : Z := default 0 x - default 0 y.

Lemma ex_is_list : is_list ex_heap (Some 1%positive) ex_ps.
Proof. split_and!; [by_decide|done|]. repeat split. Qed.

#[global] Instance ex_cmp_order : CmpOrder ex_cmp.
Proof. split; unfold ex_cmp; lia. Qed.

(** C35: [klpm_list_msort] called with the length of a well-formed list is free
    of undefined behaviour, terminates, and relinks the same nodes into a
    well-formed list (with the back reference of the head to the tail) whose
    data are sorted, with equal elements in their original order; no other
    node of the heap changes. *)
Theorem klpm_list_msort_spec {A} (fn : option A -> option A -> Z) (Hfn : CmpOrder fn) h s p ps :
  is_list h p ps ->
  exists p' ps' h', klpm_list_msort fn p (length ps) (Mem h s) = Some (p', Mem h' s) /\
    is_list h' p' ps' /\ ps' ≡ₚ ps /\ StronglySorted (cmp_le fn) ps'.*2 /\
    (forall k, KList.eq_class (fnp fn) k ps' = KList.eq_class (fnp fn) k ps) /\
    agree_off ps.*1 h h'.
Proof.
  intros Hl. destruct (msort_run fn (length ps) (length ps) h s p ps) as (h' & E & L & P & G); try done.
  destruct (KList.msort_correct (fnp fn) (length ps) (length ps) ps) as (_ & S & St); try done.
  eexists _, _, h'. split_and!; [exact E|exact L|done|by apply fnp_sorted|done|done].
Qed.

Lemma klpm_list_msort_witness :
  exists p' ps' h', klpm_list_msort ex_cmp (Some 1%positive) 3 (Mem ex_heap []) = Some (p', Mem h' []) /\
    is_list h' p' ps' /\ ps' ≡ₚ ex_ps /\ StronglySorted (cmp_le ex_cmp) ps'.*2.
Proof.
  destruct (klpm_list_msort_spec ex_cmp ex_cmp_order ex_heap [] (Some 1%positive) ex_ps ex_is_list)
    as (p' & ps' & h' & H1 & H2 & H3 & H4 & _).
  exists p', ps', h'. auto.
Defined.

(** [klpm_list_add_sorted] on a sorted well-formed list either leaves it
    alone (the allocation failed) or inserts one new node with the given data,
    keeping the list well formed and sorted. *)
Theorem klpm_list_add_sorted_spec {A} (fn : option A -> option A -> Z) (Hfn : CmpOrder fn) h s p ps d :
  is_list h p ps -> StronglySorted (cmp_le (fnp fn)) ps ->
  (head s = Some false /\ klpm_list_add_sorted fn p d (Mem h s) = Some (p, Mem h (tail s))) \/
  exists l p' ps' h', klpm_list_add_sorted fn p d (Mem h s) = Some (p', Mem h' (tail s)) /\
    l ∉ dom h /\ is_list h' p' ps' /\ ps' ≡ₚ (l, d) :: ps /\
    StronglySorted (cmp_le fn) ps'.*2 /\ agree_off (l :: ps.*1) h h'.
Proof.
  intros Hl Hs. destruct (add_sorted_run fn h s p ps d Hl) as [?|(l & h' & Hf & E & L & G)]; [by left|].
  right. eexists l, _, _, h'. split_and!; [exact E|done|exact L|apply KList.add_sorted_perm| |done].
  apply fnp_sorted, KList.add_sorted_sorted; [apply _|done].
Qed.

Lemma klpm_list_add_sorted_witness :
  exists l p' ps' h', klpm_list_add_sorted ex_cmp None (Some 5) (Mem ∅ []) = Some (p', Mem h' []) /\
    is_list h' p' ps' /\ ps' ≡ₚ [(l, Some 5)].
Proof.
  destruct (klpm_list_add_sorted_spec ex_cmp ex_cmp_order ∅ [] None [] (Some 5))
    as [[H _]|(l & p' & ps' & h' & H1 & _ & H2 & H3 & _)];
    [by split_and!; constructor|constructor|discriminate H|].
  exists l, p', ps', h'. auto.
Defined.

(** [klpm_list_remove] unlinks and frees exactly the first node whose
    non-NULL data matches the needle, returns that data, and leaves a
    well-formed list of the other nodes in order; without a match nothing
    changes and the returned data is NULL. *)
Theorem klpm_list_remove_spec {A B} (fn : A -> B -> Z) h s p ps (needle : B) :
  is_list h p ps ->
  (klpm_list_remove fn p (Some needle) (Mem h s) = Some ((p, None), Mem h s) /\
   forall l x, (l, Some x) ∈ ps -> fn x needle <> 0) \/
  exists qs l x rs p' h', ps = qs ++ (l, Some x) :: rs /\ fn x needle = 0 /\
    (forall k y, (k, Some y) ∈ qs -> fn y needle <> 0) /\
    klpm_list_remove fn p (Some needle) (Mem h s) = Some ((p', Some x), Mem h' s) /\
    is_list h' p' (qs ++ rs) /\ h' !! l = None /\ agree_off ps.*1 h h'.
Proof.
  intros Hl. pose proof Hl as (Hnd & Hp & Hc). pose proof (chain_length _ _ _ _ Hnd Hc) as Hlen.
  unfold klpm_list_remove, get_fuel. unfold bind at 1 2. cbn [cells].
  destruct (remove_loop_run (S (size h)) h s (fun x => fn x needle =? 0) p [] ps)
    as [[E Hall]|(qs & l & x & rs & h' & Eps & Hm & Hqs & E & L & Hdel & G)]; [lia|done| |].
  - left. rewrite <- Hp in E. split; [done|]. intros l x Hx. apply Z.eqb_neq. by eapply Hall.
  - right. exists qs, l, x, rs. eexists _, h'. rewrite <- Hp in E.
    split_and!; [done|by apply Z.eqb_eq| |exact E|exact L|done|done].
    intros k y Hy. apply Z.eqb_neq. by eapply Hqs.
Qed.

Lemma klpm_list_remove_witness :
  exists p' h', klpm_list_remove Z.sub (Some 1%positive) (Some 3) (Mem ex_heap []) = Some ((p', Some 3), Mem h' []) /\
    is_list h' p' (tail ex_ps) /\ h' !! 1%positive = None.
Proof.
  destruct (klpm_list_remove_spec Z.sub ex_heap [] (Some 1%positive) ex_ps 3 ex_is_list)
    as [[_ H]|(qs & l & x & rs & p' & h' & E & Hm & Hqs & R & L & D & _)].
  - exfalso. apply (H 1%positive 3); [by_decide|done].
  - destruct qs as [|q qs].
    + injection E as <- <- <-. exists p', h'. auto.
    + injection E as <- E. exfalso. apply (Hqs 1%positive 3); [by_decide|done].
Defined.

(** [klpm_list_reverse] builds a new well-formed list with the data in
    reverse order and restores the back reference of the original list, which
    stays well formed; when an allocation fails it returns NULL and the
    original is restored too. *)
Theorem klpm_list_reverse_spec {A} h s p (ps : list (loc * option A)) :
  is_list h p ps ->
  exists r h' s', klpm_list_reverse p (Mem h s) = Some (r, Mem h' s') /\ is_list h' p ps /\
    (r = None \/ exists qs, is_list h' r qs /\ qs.*2 = reverse ps.*2).
Proof.
  intros Hl. destruct (reverse_run h s p ps Hl) as [(h' & s' & qs & E1 & E2 & E3 & E4)|(s' & h' & E1 & E2)].
  - exists (hd_or qs None), h', s'. split_and!; [done|done|right; eauto].
  - exists None, h', s'. split_and!; [done|done|by left].
Qed.

Lemma klpm_list_reverse_witness :
  exists r h' s', klpm_list_reverse (Some 1%positive) (Mem ex_heap []) = Some (r, Mem h' s') /\
    is_list h' (Some 1%positive) ex_ps.
Proof.
  destruct (klpm_list_reverse_spec ex_heap [] (Some 1%positive) ex_ps ex_is_list) as (r & h' & s' & H1 & H2 & _).
  eauto.
Defined.

(** [klpm_list_copy] is all or nothing: it either returns a well-formed
    list of fresh nodes with the same data, or (after any allocation failure)
    returns NULL with the heap exactly as it was, so no node is leaked. *)
Theorem klpm_list_copy_spec {A} h s p (ps : list (loc * option A)) :
  is_list h p ps ->
  (exists h' s' q qs, klpm_list_copy p (Mem h s) = Some (q, Mem h' s') /\
     is_list h' q qs /\ qs.*2 = ps.*2 /\ is_list h' p ps /\ (forall l, l ∈ qs.*1 -> l ∉ dom h)) \/
  (exists s', klpm_list_copy p (Mem h s) = Some (None, Mem h s')).
Proof.
  intros Hl. destruct (copy_run h s p ps Hl) as [(h' & s' & qs & E1 & E2 & E3 & E4 & E5 & _)|?]; [left|by right].
  exists h', s', (hd_or qs None), qs. auto.
Qed.

Lemma klpm_list_copy_witness :
  exists s', klpm_list_copy (Some 1%positive) (Mem ex_heap [true; false]) = Some (None, Mem ex_heap s').
Proof.
  destruct (klpm_list_copy_spec ex_heap [true; false] (Some 1%positive) ex_ps ex_is_list)
    as [(h' & s' & q & qs & E & L & D & _)|H]; [exfalso|done].
  assert (fst <$> klpm_list_copy (Some 1%positive) (Mem ex_heap [true; false]) = Some None) as F
    by (vm_compute; reflexivity).
  rewrite E in F. simpl in F. injection F as ->. destruct L as (_ & Hq & _).
  destruct qs as [|[]]; [discriminate D|discriminate Hq].
Defined.

End KListSort.
