(* ===== verification/Package.v ===== *)
(** * Packages ([src/lib/libkuzpkg/package.c], [package.h], [backup.c])

    The data types of [klpm.h] and [package.h] and the operations of the
    package objects themselves.  A package is a record; [pkg_id] stands for the
    address of the C object, so that the sources' pointer comparisons
    ([klpm_list_find_ptr], [pkg == other]) are comparisons of [pkg_id]. *)

From S2P Require Import Prelude CStr Version KList.
Local Open Scope Z_scope.

(** [klpm_depmod_t] *)
Inductive depmod := MOD_ANY | MOD_EQ | MOD_GE | MOD_LE | MOD_GT | MOD_LT.
#[global] Instance depmod_eq_dec : EqDecision depmod.
Proof. solve_decision. Defined.

(** [klpm_depend_t] *)
Record depend := Depend {
  dep_name : cstr;
  dep_version : option cstr;
  dep_desc : option cstr;
  dep_name_hash : Z;
  dep_mod : depmod
}.
#[global] Instance depend_eq_dec : EqDecision depend.
Proof. solve_decision. Defined.

(** [klpm_file_t]; [klpm_filelist_t] is the list of its [count] files. *)
Record file := File { f_name : cstr; f_size : Z; f_mode : Z }.
#[global] Instance file_eq_dec : EqDecision file.
Proof. solve_decision. Defined.

(** [klpm_backup_t] *)
Record backup := Backup { b_name : cstr; b_hash : option cstr }.
#[global] Instance backup_eq_dec : EqDecision backup.
Proof. solve_decision. Defined.

(** [klpm_pkg_xdata_t] *)
Record xdata := Xdata { x_name : cstr; x_value : cstr }.
#[global] Instance xdata_eq_dec : EqDecision xdata.
Proof. solve_decision. Defined.

(** [klpm_pkgfrom_t] and [klpm_pkgreason_t] *)
Inductive pkgfrom := FROM_FILE | FROM_LOCALDB | FROM_SYNCDB.
#[global] Instance pkgfrom_eq_dec : EqDecision pkgfrom.
Proof. solve_decision. Defined.
Inductive pkgreason := REASON_EXPLICIT | REASON_DEPEND | REASON_UNKNOWN.
#[global] Instance pkgreason_eq_dec : EqDecision pkgreason.
Proof. solve_decision. Defined.

(** [struct _klpm_pkg_t]: the fields of a loaded package.  The two
    transaction-only fields [removes] and [oldpkg] point to other packages and
    belong to the transaction state; [origin_db] is the tree name of
    [origin_data.db] and [origin_file] is [origin_data.file]. *)
Record pkg := Pkg {
  pkg_id : positive;
  name_hash : Z;
  filename : option cstr;
  base : option cstr;
  name : cstr;
  version : cstr;
  desc : option cstr;
  url : option cstr;
  packager : option cstr;
  sha256sum : option cstr;
  base64_sig : option cstr;
  arch : option cstr;
  builddate : Z;
  installdate : Z;
  size : Z;
  isize : Z;
  download_size : Z;
  licenses : list cstr;
  replaces : list depend;
  groups : list cstr;
  backups : list backup;
  depends : list depend;
  optdepends : list depend;
  checkdepends : list depend;
  makedepends : list depend;
  conflicts : list depend;
  provides : list depend;
  files : list file;
  origin : pkgfrom;
  origin_db : option cstr;
  origin_file : option cstr;
  reason : pkgreason;
  scriptlet : bool;
  pkg_xdata : list xdata;
  infolevel : Z;
  validation : Z
}.
#[global] Instance pkg_eq_dec : EqDecision pkg.
Proof. solve_decision. Defined.

(** A package whose cached name hash is the hash of its name, as every loader
    of the library sets it. *)
Definition pkg_hashed (p : pkg) : Prop := name_hash p = hash_sdbm (name p).
#[global] Instance pkg_hashed_dec p : Decision (pkg_hashed p).
Proof. unfold pkg_hashed. apply _. Defined.
Definition dep_hashed (d : depend) : Prop := dep_name_hash d = hash_sdbm (dep_name d).
#[global] Instance dep_hashed_dec d : Decision (dep_hashed d).
Proof. unfold dep_hashed. apply _. Defined.

(** A minimal package record, used for the examples of the library. *)
Definition mkpkg (id : positive) (n v : cstr) : pkg := {|
  pkg_id := id; name_hash := hash_sdbm n; filename := None; base := None; name := n; version := v;
  desc := None; url := None; packager := None; sha256sum := None; base64_sig := None; arch := None;
  builddate := 0; installdate := 0; size := 0; isize := 0; download_size := 0; licenses := [];
  replaces := []; groups := []; backups := []; depends := []; optdepends := []; checkdepends := [];
  makedepends := []; conflicts := []; provides := []; files := []; origin := FROM_SYNCDB;
  origin_db := None; origin_file := None; reason := REASON_EXPLICIT; scriptlet := false;
  pkg_xdata := []; infolevel := 0; validation := 0 |}.

(** Field updates of the record. *)
Definition with_depends (p : pkg) (ds : list depend) : pkg := {|
  pkg_id := pkg_id p; name_hash := name_hash p; filename := filename p; base := base p; name := name p;
  version := version p; desc := desc p; url := url p; packager := packager p; sha256sum := sha256sum p;
  base64_sig := base64_sig p; arch := arch p; builddate := builddate p; installdate := installdate p;
  size := size p; isize := isize p; download_size := download_size p; licenses := licenses p;
  replaces := replaces p; groups := groups p; backups := backups p; depends := ds;
  optdepends := optdepends p; checkdepends := checkdepends p; makedepends := makedepends p;
  conflicts := conflicts p; provides := provides p; files := files p; origin := origin p;
  origin_db := origin_db p; origin_file := origin_file p; reason := reason p; scriptlet := scriptlet p;
  pkg_xdata := pkg_xdata p; infolevel := infolevel p; validation := validation p |}.

Definition with_groups (p : pkg) (gs : list cstr) : pkg := {|
  pkg_id := pkg_id p; name_hash := name_hash p; filename := filename p; base := base p; name := name p;
  version := version p; desc := desc p; url := url p; packager := packager p; sha256sum := sha256sum p;
  base64_sig := base64_sig p; arch := arch p; builddate := builddate p; installdate := installdate p;
  size := size p; isize := isize p; download_size := download_size p; licenses := licenses p;
  replaces := replaces p; groups := gs; backups := backups p; depends := depends p;
  optdepends := optdepends p; checkdepends := checkdepends p; makedepends := makedepends p;
  conflicts := conflicts p; provides := provides p; files := files p; origin := origin p;
  origin_db := origin_db p; origin_file := origin_file p; reason := reason p; scriptlet := scriptlet p;
  pkg_xdata := pkg_xdata p; infolevel := infolevel p; validation := validation p |}.

Definition with_filename (p : pkg) (f : cstr) : pkg := {|
  pkg_id := pkg_id p; name_hash := name_hash p; filename := Some f; base := base p; name := name p;
  version := version p; desc := desc p; url := url p; packager := packager p; sha256sum := sha256sum p;
  base64_sig := base64_sig p; arch := arch p; builddate := builddate p; installdate := installdate p;
  size := size p; isize := isize p; download_size := download_size p; licenses := licenses p;
  replaces := replaces p; groups := groups p; backups := backups p; depends := depends p;
  optdepends := optdepends p; checkdepends := checkdepends p; makedepends := makedepends p;
  conflicts := conflicts p; provides := provides p; files := files p; origin := origin p;
  origin_db := origin_db p; origin_file := origin_file p; reason := reason p; scriptlet := scriptlet p;
  pkg_xdata := pkg_xdata p; infolevel := infolevel p; validation := validation p |}.

Definition with_reason (p : pkg) (r : pkgreason) : pkg := {|
  pkg_id := pkg_id p; name_hash := name_hash p; filename := filename p; base := base p; name := name p;
  version := version p; desc := desc p; url := url p; packager := packager p; sha256sum := sha256sum p;
  base64_sig := base64_sig p; arch := arch p; builddate := builddate p; installdate := installdate p;
  size := size p; isize := isize p; download_size := download_size p; licenses := licenses p;
  replaces := replaces p; groups := groups p; backups := backups p; depends := depends p;
  optdepends := optdepends p; checkdepends := checkdepends p; makedepends := makedepends p;
  conflicts := conflicts p; provides := provides p; files := files p; origin := origin p;
  origin_db := origin_db p; origin_file := origin_file p; reason := r; scriptlet := scriptlet p;
  pkg_xdata := pkg_xdata p; infolevel := infolevel p; validation := validation p |}.

Definition with_files (p : pkg) (fs : list file) : pkg := {|
  pkg_id := pkg_id p; name_hash := name_hash p; filename := filename p; base := base p; name := name p;
  version := version p; desc := desc p; url := url p; packager := packager p; sha256sum := sha256sum p;
  base64_sig := base64_sig p; arch := arch p; builddate := builddate p; installdate := installdate p;
  size := size p; isize := isize p; download_size := download_size p; licenses := licenses p;
  replaces := replaces p; groups := groups p; backups := backups p; depends := depends p;
  optdepends := optdepends p; checkdepends := checkdepends p; makedepends := makedepends p;
  conflicts := conflicts p; provides := provides p; files := fs; origin := origin p;
  origin_db := origin_db p; origin_file := origin_file p; reason := reason p; scriptlet := scriptlet p;
  pkg_xdata := pkg_xdata p; infolevel := infolevel p; validation := validation p |}.

Definition with_conflicts (p : pkg) (ds : list depend) : pkg := {|
  pkg_id := pkg_id p; name_hash := name_hash p; filename := filename p; base := base p; name := name p;
  version := version p; desc := desc p; url := url p; packager := packager p; sha256sum := sha256sum p;
  base64_sig := base64_sig p; arch := arch p; builddate := builddate p; installdate := installdate p;
  size := size p; isize := isize p; download_size := download_size p; licenses := licenses p;
  replaces := replaces p; groups := groups p; backups := backups p; depends := depends p;
  optdepends := optdepends p; checkdepends := checkdepends p; makedepends := makedepends p;
  conflicts := ds; provides := provides p; files := files p; origin := origin p;
  origin_db := origin_db p; origin_file := origin_file p; reason := reason p; scriptlet := scriptlet p;
  pkg_xdata := pkg_xdata p; infolevel := infolevel p; validation := validation p |}.

Definition with_provides (p : pkg) (ds : list depend) : pkg := {|
  pkg_id := pkg_id p; name_hash := name_hash p; filename := filename p; base := base p; name := name p;
  version := version p; desc := desc p; url := url p; packager := packager p; sha256sum := sha256sum p;
  base64_sig := base64_sig p; arch := arch p; builddate := builddate p; installdate := installdate p;
  size := size p; isize := isize p; download_size := download_size p; licenses := licenses p;
  replaces := replaces p; groups := groups p; backups := backups p; depends := depends p;
  optdepends := optdepends p; checkdepends := checkdepends p; makedepends := makedepends p;
  conflicts := conflicts p; provides := ds; files := files p; origin := origin p;
  origin_db := origin_db p; origin_file := origin_file p; reason := reason p; scriptlet := scriptlet p;
  pkg_xdata := pkg_xdata p; infolevel := infolevel p; validation := validation p |}.

(** What a package cache promises to the code that resolves dependencies
    ([_klpm_db_get_pkgcache] and [_klpm_db_get_pkgfromcache]): the list of its
    packages and an exact lookup by name. *)
Class PkgCache (C : Type) := {
  pc_list : C -> list pkg;
  pc_find : C -> cstr -> option pkg;
  pc_hashed c : Forall pkg_hashed (pc_list c);
  pc_find_Some c n p : pc_find c n = Some p -> p ∈ pc_list c /\ name p = n;
  pc_find_None c n : pc_find c n = None -> n ∉ name <$> pc_list c
}.

Module Package.

(** [_klpm_pkg_cmp] *)
Definition pkg_cmp (pkg1 pkg2 : pkg) : Z := strcmp (name pkg1) (name pkg2).

#[global] Instance pkg_cmp_order : CmpOrder pkg_cmp.
Proof. apply (cmp_order_proj name). apply _. Qed.
#[global] Instance pkg_cmp_key : CmpKey pkg_cmp name.
Proof. intros x y. apply strcmp_eq. Qed.

(** [_klpm_pkg_compare_versions] *)
Definition pkg_compare_versions (spkg localpkg : pkg) : Z :=
  Version.pkg_vercmp (Some (version spkg)) (Some (version localpkg)).

(** [klpm_pkg_find] on a list of packages; [needle == NULL] is the outer
    [None]. *)
Definition pkg_find_test (needle : cstr) (needle_hash : Z) (info : pkg) : bool :=
  if negb (name_hash info =? needle_hash) then false
  else strcmp (name info) needle =? 0.
Definition pkg_find (haystack : list pkg) (needle : cstr) : option pkg :=
  let needle_hash := hash_sdbm needle in
  find_first (pkg_find_test needle needle_hash) haystack.

Section Ignore.
(** [_klpm_fnmatch pattern string]: 0 when the shell pattern matches
    (<fnmatch.h>). *)
Variable fnmatch : cstr -> cstr -> Z.

(** [klpm_pkg_should_ignore] *)
Definition pkg_should_ignore (ignorepkg ignoregroup : list cstr) (p : pkg) : bool :=
  match KList.find fnmatch ignorepkg (name p) with
  | Some _ => true
  | None =>
      existsb (fun grp => match KList.find fnmatch ignoregroup grp with Some _ => true | None => false end)
        (groups p)
  end.

(** The errors [_klpm_pkg_check_meta] logs, in the order of its tests. *)
Inductive meta_error :=
  | META_MISSING | META_NAME_START | META_NAME_CHARS
  | META_VERSION_CHARS | META_VERSION_SLASH | META_TOO_LONG.

Definition NAME_MAX : nat := 255.

(** The result [-1] is a non-empty list of errors, [0] the empty list. *)
Definition pkg_check_meta (name version : option cstr) : list meta_error :=
  match name, version with
  | Some ((n0 :: _) as n), Some ((_ :: _) as v) =>
      (if bool_decide (n0 = "-"%char) || bool_decide (n0 = "."%char) then [META_NAME_START] else []) ++
      (if fnmatch n (lit "[![:alnum:]+_.@-]") =? 0 then [META_NAME_CHARS] else []) ++
      (match strchr v "-" with
       | Some c => match strchr (tail c) "-" with Some _ => [META_VERSION_CHARS] | None => [] end
       | None => []
       end) ++
      (match strchr v "/" with Some _ => [META_VERSION_SLASH] | None => [] end) ++
      (if (NAME_MAX <? length n + length v + 1)%nat then [META_TOO_LONG] else [])
  | _, _ => [META_MISSING]
  end.
End Ignore.

(** [_klpm_pkg_parse_xdata] *)
Definition pkg_parse_xdata (string : option cstr) : option xdata :=
  match string with
  | None => None
  | Some s =>
      match strchr s "=" with
      | None => None
      | Some sep => Some (Xdata (take (length s - length sep) s) (tail sep))
      end
  end.

(** [_klpm_split_backup] *)
Definition split_backup (string : cstr) : backup :=
  match strchr string (ascii_of_nat 9) with
  | None => Backup string None
  | Some ptr => Backup (take (length string - length ptr) string) (Some (tail ptr))
  end.

(** [_klpm_needbackup] *)
Definition needbackup (file : cstr) (p : pkg) : option backup :=
  find_first (fun b => strcmp file (b_name b) =? 0) (backups p).

(** [_klpm_dep_dup], [list_depdup], [_klpm_backup_dup] and [_klpm_file_copy],
    when their allocations succeed. *)
Definition dep_dup (dep : depend) : depend := {|
  dep_name := dep_name dep; dep_version := dep_version dep; dep_desc := dep_desc dep;
  dep_name_hash := dep_name_hash dep; dep_mod := dep_mod dep |}.
Fixpoint list_depdup (old : list depend) : list depend :=
  match old with [] => [] | d :: old' => dep_dup d :: list_depdup old' end.
Definition backup_dup (b : backup) : backup := Backup (b_name b) (b_hash b).
Definition file_copy (src : file) : file := File (f_name src) (f_size src) (f_mode src).

(** [_klpm_pkg_dup] with [new_ptr] not NULL and its allocations succeeding:
    [force_load] is the result of the backend's loader, [id] the address of the
    new object.  The fields the function does not set keep the zero of
    [CALLOC].  The result is the return code and the new package. *)
Definition pkg_dup (force_load : bool) (id : positive) (p : pkg) : Z * pkg :=
  (if force_load then 1 else 0,
   {| pkg_id := id;
      name_hash := name_hash p;
      filename := filename p; base := base p; name := name p; version := version p;
      desc := desc p; url := url p;
      builddate := builddate p; installdate := installdate p;
      packager := packager p; sha256sum := sha256sum p; arch := arch p;
      size := size p; isize := isize p;
      scriptlet := scriptlet p; reason := reason p; validation := validation p;
      licenses := licenses p;
      replaces := list_depdup (replaces p);
      groups := groups p;
      backups := backup_dup <$> backups p;
      depends := list_depdup (depends p);
      optdepends := list_depdup (optdepends p);
      conflicts := list_depdup (conflicts p);
      provides := list_depdup (provides p);
      files := file_copy <$> files p;
      infolevel := infolevel p; origin := origin p;
      origin_file := if decide (origin p = FROM_FILE) then origin_file p else None;
      origin_db := if decide (origin p = FROM_FILE) then None else origin_db p;
      base64_sig := None; download_size := 0;
      checkdepends := []; makedepends := []; pkg_xdata := [] |}).

(** ** Lemmas *)

Lemma pkg_find_test_spec needle info :
  pkg_hashed info ->
  pkg_find_test needle (hash_sdbm needle) info = true <-> name info = needle.
Proof.
  intros Hh. unfold pkg_find_test, pkg_hashed in *. rewrite Hh. split.
  - intros H. split_match_in H; [done|]. bool_hyps. by apply strcmp_eq.
  - intros ->. by rewrite Z.eqb_refl, strcmp_refl.
Qed.

Lemma pkg_find_Some l n p :
  pkg_find l n = Some p -> p ∈ l /\ name p = n.
Proof.
  intros H. apply find_first_Some in H as [? H]. split; [done|].
  unfold pkg_find_test in H. split_match_in H; [done|]. bool_hyps. by apply strcmp_eq.
Qed.

Lemma pkg_find_None l n :
  Forall pkg_hashed l -> pkg_find l n = None <-> n ∉ name <$> l.
Proof.
  intros Hl. unfold pkg_find. rewrite find_first_None. rewrite list_elem_of_fmap.
  rewrite Forall_forall in Hl. split.
  - intros H (p & -> & Hp). specialize (H p Hp).
    apply not_true_iff_false in H. apply H. by apply pkg_find_test_spec; auto.
  - intros H p Hp. apply not_true_iff_false. intros E. apply H.
    apply pkg_find_test_spec in E; eauto.
Qed.

Lemma pkg_find_is_Some l n :
  Forall pkg_hashed l -> is_Some (pkg_find l n) <-> n ∈ name <$> l.
Proof.
  intros Hl. rewrite <- not_eq_None_Some, pkg_find_None by done. split; [|tauto].
  intros H. destruct (decide (n ∈ name <$> l)); tauto.
Qed.

Lemma list_depdup_id l : list_depdup l = l.
Proof. induction l as [|[] l IH]; simpl; [done|]. by rewrite IH. Qed.

End Package.

(** The plain list lookup satisfies the same contract. *)
Record pkglist := PkgList { pl_list : list pkg; pl_hashed : Forall pkg_hashed pl_list }.
#[global] Instance list_cache : PkgCache pkglist.
Proof.
  refine {| pc_list := pl_list; pc_find c n := Package.pkg_find (pl_list c) n |}.
  - apply pl_hashed.
  - intros c n p. apply Package.pkg_find_Some.
  - intros c n. apply Package.pkg_find_None, pl_hashed.
Defined.

#[export] Hint Resolve Package.pkg_find_Some : klpm.
