(* ===== verification/PkgHash.v ===== *)
(** * The package cache hash table ([src/lib/libkuzpkg/pkghash.c])

    Open addressing with linear probing.  The array [hash_table] of [buckets]
    list-node pointers is the finite map of its non-NULL slots; a node is the
    pair of its address and its package, as in the node lists of [KListHeap],
    and [list] is the list of the same nodes.  The loops that probe carry fuel
    [buckets]: the result [None] would be a probe that never meets its slot. *)

From S2P Require Import Prelude CStr KList Package.
Local Open Scope Z_scope.

Module PkgHash.

Definition node : Type := positive * pkg.
Definition node_pkg (n : node) : pkg := n.2.

(** [struct _klpm_pkghash_t] *)
Record pkghash := PkgHash {
  hash_table : gmap Z node;
  hlist : list node;
  buckets : Z;
  entries : Z;
  limit : Z
}.

Definition prime_list : list Z := [
  11; 13; 17; 19; 23; 29; 31; 37; 41; 43; 47;
  53; 59; 61; 67; 71; 73; 79; 83; 89; 97; 103;
  109; 113; 127; 137; 139; 149; 157; 167; 179; 193;
  199; 211; 227; 241; 257; 277; 293; 313; 337; 359;
  383; 409; 439; 467; 503; 541; 577; 619; 661; 709;
  761; 823; 887; 953; 1031; 1109; 1193; 1289; 1381;
  1493; 1613; 1741; 1879; 2029; 2179; 2357; 2549;
  2753; 2971; 3209; 3469; 3739; 4027; 4349; 4703;
  5087; 5503; 5953; 6427; 6949; 7517; 8123; 8783;
  9497; 10273; 11113; 12011; 12983; 14033; 15173;
  16411; 17749; 19183; 20753; 22447; 24281; 26267;
  28411; 30727; 33223; 35933; 38873; 42043; 45481;
  49201; 53201; 57557; 62233; 67307; 72817; 78779;
  85229; 92203; 99733; 107897; 116731; 126271; 136607;
  147793; 159871; 172933; 187091; 202409; 218971; 236897;
  256279; 277261; 299951; 324503; 351061; 379787; 410857;
  444487; 480881; 520241; 562841; 608903; 658753; 712697;
  771049; 834181; 902483; 976369].

(** [stride]; it is the constant 1. *)
Definition stride : Z := 1.

(** [size / initial_hash_load + 1] and [buckets * max_hash_load], truncated.
    The loads are the doubles nearest to 0.58 and 0.68; their error is below
    1e-16 relative, and the exact quotients are integers or at least 1/29 away
    from the next one, so the truncated results are those of the exact
    fractions 29/50 and 17/25 for every 32-bit argument. *)
Definition initial_size (size : Z) : Z := size * 50 / 29 + 1.
Definition max_entries (buckets : Z) : Z := buckets * 17 / 25.

(** [_klpm_pkghash_create]; [None] is ERANGE. *)
Definition pkghash_create (size : Z) : option pkghash :=
  let size := initial_size size in
  match find_first (fun p => size <? p) prime_list with
  | Some p => if p <? size then None else Some (PkgHash ∅ [] p 0 (max_entries p))
  | None => if 0 <? size then None else Some (PkgHash ∅ [] 0 0 0)
  end.

(** [position += stride; while(position >= buckets) position -= buckets;] for
    a position below [buckets]. *)
Definition advance (buckets position : Z) : Z :=
  let position := position + stride in
  if buckets <=? position then position - buckets else position.

(** A probe from [position]: [visit] is the test and body of the loop. *)
Fixpoint probe {R} (visit : Z -> option R) (buckets : Z) (fuel : nat) (position : Z) : option R :=
  match fuel with
  | O => None
  | S fuel =>
      match visit position with
      | Some r => Some r
      | None => probe visit buckets fuel (advance buckets position)
      end
  end.

Definition fuel_of (hash : pkghash) : nat := Z.to_nat (buckets hash).

(** [get_hash_position] *)
Definition empty_slot (t : gmap Z node) (position : Z) : option Z :=
  match t !! position with None => Some position | Some _ => None end.
Definition get_hash_position (nhash : Z) (hash : pkghash) : option Z :=
  probe (empty_slot (hash_table hash)) (buckets hash) (fuel_of hash) (nhash mod buckets hash).

Definition set_table (hash : pkghash) (t : gmap Z node) : pkghash :=
  PkgHash t (hlist hash) (buckets hash) (entries hash) (limit hash).

(** The size [rehash] asks for. *)
Definition rehash_size (b : Z) : Z :=
  if b <? 500 then b * 2
  else if b <? 2000 then b * 3 / 2
  else if b <? 5000 then b * 4 / 3
  else b + 1.

(** The body of the rebinning loop of [rehash] for one old slot. *)
Definition rebin_one (old : gmap Z node) (newhash : pkghash) (i : Z) : option pkghash :=
  match old !! i with
  | None => Some newhash
  | Some n =>
      position ← get_hash_position (name_hash (node_pkg n)) newhash;
      Some (set_table newhash (<[position := n]> (hash_table newhash)))
  end.
Fixpoint rebin (old : gmap Z node) (newhash : pkghash) (idx : list Z) : option pkghash :=
  match idx with
  | [] => Some newhash
  | i :: idx' => newhash ← rebin_one old newhash i; rebin old newhash idx'
  end.

(** [rehash]: the outer option is the probing fuel, the inner one NULL. *)
Definition rehash (oldhash : pkghash) : option (option pkghash) :=
  match pkghash_create (rehash_size (buckets oldhash)) with
  | None => Some None
  | Some newhash =>
      let newhash := PkgHash (hash_table newhash) (hlist oldhash) (buckets newhash)
                       (entries newhash) (limit newhash) in
      newhash ← rebin (hash_table oldhash) newhash (seqZ 0 (buckets oldhash));
      Some (Some (PkgHash (hash_table newhash) (hlist newhash) (buckets newhash)
                    (entries oldhash) (limit newhash)))
  end.

(** What [pkghash_add_pkg] does: NULL with [*hashref] as given back, or the
    new hash. *)
Inductive add_result := AddFailed (hashref : pkghash) | Added (hash : pkghash).

Definition node_cmp (a b : node) : Z := Package.pkg_cmp (node_pkg a) (node_pkg b).

(** [pkghash_add_pkg]; [ptr] is the result of MALLOC.  Joining one node at the
    end of the list is [klpm_list_join], merging it in is
    [klpm_list_mmerge]. *)
Definition pkghash_add_pkg (hash : pkghash) (p : pkg) (sorted : bool) (ptr : option positive)
    : option add_result :=
  rehashed ← (if limit hash <=? entries hash then rehash hash else Some (Some hash));
  match rehashed with
  | None => Some (AddFailed hash)
  | Some hash =>
      position ← get_hash_position (name_hash p) hash;
      match ptr with
      | None => Some (AddFailed hash)
      | Some a =>
          Some (Added (PkgHash
            (<[position := (a, p)]> (hash_table hash))
            (if sorted then KList.mmerge node_cmp (hlist hash) [(a, p)] else hlist hash ++ [(a, p)])
            (buckets hash) (entries hash + 1) (limit hash)))
      end
  end.

(** The lookup loop of [_klpm_pkghash_find] and [_klpm_pkghash_remove]: the
    slot and node found, or [Some None] at a NULL slot. *)
Definition slot_match (t : gmap Z node) (nhash : Z) (n : cstr) (position : Z) : option (option (Z * node)) :=
  match t !! position with
  | None => Some None
  | Some i =>
      if (name_hash (node_pkg i) =? nhash) && (strcmp (name (node_pkg i)) n =? 0)
      then Some (Some (position, i)) else None
  end.
Definition lookup_slot (hash : pkghash) (nhash : Z) (n : cstr) : option (option (Z * node)) :=
  probe (slot_match (hash_table hash) nhash n) (buckets hash) (fuel_of hash) (nhash mod buckets hash).

(** [_klpm_pkghash_find] *)
Definition pkghash_find (hash : pkghash) (n : cstr) : option (option pkg) :=
  match lookup_slot hash (hash_sdbm n) n with
  | Some (Some (_, i)) => Some (Some (node_pkg i))
  | Some None => Some None
  | None => None
  end.

(** [move_one_entry]: the table after the move and the slot it stopped at. *)
Fixpoint move_one_entry (fuel : nat) (hash : pkghash) (start end_ : Z) : option (pkghash * Z) :=
  if end_ =? start then Some (hash, end_)
  else
    match fuel with
    | O => None
    | S fuel =>
        i ← hash_table hash !! end_;
        new_position ← get_hash_position (name_hash (node_pkg i)) hash;
        if new_position =? start then
          Some (set_table hash (delete end_ (<[start := i]> (hash_table hash))), end_)
        else move_one_entry fuel hash start ((buckets hash + end_ - stride) mod buckets hash)
    end.

(** [while((prev = move_one_entry(hash, position, stop)) != position)] *)
Fixpoint close_gap (fuel : nat) (hash : pkghash) (position stop : Z) : option pkghash :=
  match fuel with
  | O => None
  | S fuel =>
      r ← move_one_entry (fuel_of hash) hash position stop;
      let '(hash, prev) := r in
      if prev =? position then Some hash else close_gap fuel hash prev stop
  end.

(** The next NULL slot after a removed entry. *)
Definition stop_test (t : gmap Z node) (position stop : Z) : option Z :=
  match t !! stop with
  | Some _ => if stop =? position then Some stop else None
  | None => Some stop
  end.

(** [_klpm_pkghash_remove]: the resulting hash and [*data]. *)
Definition pkghash_remove (hash : pkghash) (p : pkg) : option (pkghash * option pkg) :=
  r ← lookup_slot hash (name_hash p) (name p);
  match r with
  | None => Some (hash, None)
  | Some (position, i) =>
      let t := delete position (hash_table hash) in
      let hash := PkgHash t (filter (fun n => n.1 <> i.1) (hlist hash)) (buckets hash)
                    (entries hash - 1) (limit hash) in
      stop ← probe (stop_test t position) (buckets hash) (fuel_of hash) (advance (buckets hash) position);
      let stop := (buckets hash + stop - stride) mod buckets hash in
      hash ← close_gap (S (fuel_of hash)) hash position stop;
      Some (hash, Some (node_pkg i))
  end.

(** ** Cyclic positions *)

(** The slot [k] steps after [a], and the number of steps from [a] to [b]. *)
Definition slot (B a k : Z) : Z := (a + k) mod B.
Definition dist (B a b : Z) : Z := (b - a) mod B.

Section Cyclic.
Context (B : Z) (HB : 0 < B).

Lemma slot_range a k : 0 <= slot B a k < B.
Proof. unfold slot. apply Z.mod_pos_bound. lia. Qed.

Lemma dist_range a b : 0 <= dist B a b < B.
Proof. unfold dist. apply Z.mod_pos_bound. lia. Qed.

Lemma slot_0 a : 0 <= a < B -> slot B a 0 = a.
Proof. intros. unfold slot. rewrite Z.add_0_r. by apply Z.mod_small. Qed.

Lemma slot_dist a b : 0 <= b < B -> slot B a (dist B a b) = b.
Proof.
  intros Hb. unfold slot, dist. rewrite Zplus_mod_idemp_r.
  replace (a + (b - a)) with b by lia. by apply Z.mod_small.
Qed.

Lemma dist_slot a k : 0 <= k < B -> dist B a (slot B a k) = k.
Proof.
  intros Hk. unfold slot, dist. rewrite Zminus_mod_idemp_l.
  replace (a + k - a) with k by lia. by apply Z.mod_small.
Qed.

Lemma slot_slot a j k : slot B (slot B a j) k = slot B a (j + k).
Proof. unfold slot. rewrite Zplus_mod_idemp_l. f_equal. lia. Qed.

Lemma slot_inj a j k : 0 <= j < B -> 0 <= k < B -> slot B a j = slot B a k -> j = k.
Proof. intros Hj Hk E. rewrite <- (dist_slot a j), <- (dist_slot a k) by lia. by rewrite E. Qed.

Lemma slot_cases a p : 0 <= p < B -> exists k, 0 <= k < B /\ p = slot B a k.
Proof. intros. exists (dist B a p). split; [apply dist_range|]. by rewrite slot_dist. Qed.

Lemma advance_slot a : 0 <= a < B -> advance B a = slot B a 1.
Proof.
  intros Ha. unfold advance, slot, stride. destruct (Z.leb_spec B (a + 1)).
  - replace (a + 1) with B by lia. rewrite Z_mod_same_full. lia.
  - by rewrite Z.mod_small by lia.
Qed.

Lemma retreat_slot a k : 0 <= k -> (B + slot B a (k + 1) - stride) mod B = slot B a k.
Proof.
  intros Hk. unfold slot, stride.
  replace (B + (a + (k + 1)) mod B - 1) with ((a + (k + 1)) mod B + (B - 1)) by lia.
  rewrite Zplus_mod_idemp_l. replace (a + (k + 1) + (B - 1)) with (a + k + 1 * B) by lia.
  by rewrite Z_mod_plus_full.
Qed.

(** A probe stops at the first slot where the loop body leaves the loop. *)
Lemma probe_Some {R} (visit : Z -> option R) fuel p r :
  0 <= p < B ->
  probe visit B fuel p = Some r <->
  exists k, 0 <= k < Z.of_nat fuel /\ visit (slot B p k) = Some r /\
    (forall j, 0 <= j < k -> visit (slot B p j) = None).
Proof.
  revert p. induction fuel as [|fuel IH]; intros p Hp; cbn [probe].
  { split; [done|]. intros (k & ? & _). lia. }
  destruct (visit p) as [r'|] eqn:E.
  - split.
    + intros [= <-]. exists 0. rewrite slot_0 by done. split_and!; [lia|lia|done|lia].
    + intros (k & Hk & Hr & Hj). destruct (decide (k = 0)) as [->|].
      * rewrite slot_0 in Hr by done. congruence.
      * specialize (Hj 0 ltac:(lia)). rewrite slot_0 in Hj by done. congruence.
  - rewrite advance_slot, IH by (try apply slot_range; done). split.
    + intros (k & Hk & Hr & Hj). exists (1 + k). rewrite slot_slot in Hr. split_and!; [lia|lia|done|].
      intros j Hj'. destruct (decide (j = 0)) as [->|]; [by rewrite slot_0|].
      specialize (Hj (j - 1) ltac:(lia)). rewrite slot_slot in Hj.
      by replace (1 + (j - 1)) with j in Hj by lia.
    + intros (k & Hk & Hr & Hj). destruct (decide (k = 0)) as [->|].
      { rewrite slot_0 in Hr by done. congruence. }
      exists (k - 1). rewrite slot_slot. replace (1 + (k - 1)) with k by lia.
      split_and!; [lia|lia|done|]. intros j Hj'. rewrite slot_slot. apply Hj. lia.
Qed.

(** The first slot of a cyclic scan with a decidable property. *)
Lemma first_step (P : Z -> Prop) `{!forall k, Decision (P k)} n :
  0 <= n -> P n -> exists k, 0 <= k <= n /\ P k /\ forall j, 0 <= j < k -> ~ P j.
Proof.
  intros Hn. revert P H. pattern n. apply (natlike_ind); [| |done]; clear n Hn.
  - intros P _ HP. exists 0. split_and!; [lia|lia|done|lia].
  - intros n Hn IH P HD HP. destruct (decide (P 0)).
    { exists 0. split_and!; [lia|lia|done|lia]. }
    destruct (IH (fun k => P (k + 1)) _) as (k & Hk & Hp & Hj); [by rewrite Z.add_1_r|].
    exists (k + 1). split_and!; [lia|lia|done|]. intros j Hj'.
    destruct (decide (j = 0)) as [->|]; [done|].
    specialize (Hj (j - 1) ltac:(lia)). by replace (j - 1 + 1) with j in Hj by lia.
Qed.

Lemma probe_total {R} (visit : Z -> option R) p n :
  0 <= p < B -> 0 <= n < B -> is_Some (visit (slot B p n)) ->
  exists k r, 0 <= k <= n /\ visit (slot B p k) = Some r /\
    (forall j, 0 <= j < k -> visit (slot B p j) = None) /\
    probe visit B (Z.to_nat B) p = Some r.
Proof.
  intros Hp Hn Hs.
  destruct (first_step (fun k => is_Some (visit (slot B p k))) n) as (k & Hk & [r Hr] & Hj); [lia|done|].
  assert (forall j, 0 <= j < k -> visit (slot B p j) = None) as Hj'
    by (intros j ?; apply eq_None_not_Some; auto).
  exists k, r. split_and!; [lia|lia|done|done|].
  apply probe_Some; [done|]. exists k. split_and!; [lia|lia|done|done].
Qed.
End Cyclic.

(** ** The probing invariant *)

Definition home (B : Z) (n : node) : Z := name_hash (node_pkg n) mod B.

(** Every slot a probe for [n] visits before [p] is occupied. *)
Definition path_ok (B : Z) (t : gmap Z node) (n : node) (p : Z) : Prop :=
  forall k, 0 <= k < dist B (home B n) p -> is_Some (t !! slot B (home B n) k).

Record table_ok (B : Z) (t : gmap Z node) : Prop := {
  t_range p n : t !! p = Some n -> 0 <= p < B;
  t_path p n : t !! p = Some n -> path_ok B t n p
}.

(** The nodes of a table, in no particular order. *)
Definition values (t : gmap Z node) : list node := (map_to_list t).*2.

Lemma values_empty : values ∅ = [].
Proof. done. Qed.

Lemma values_insert t p n : t !! p = None -> values (<[p := n]> t) ≡ₚ n :: values t.
Proof. intros H. unfold values. by rewrite map_to_list_insert. Qed.

Lemma values_delete t p n : t !! p = Some n -> values t ≡ₚ n :: values (delete p t).
Proof. intros H. unfold values. by rewrite <- (map_to_list_delete t p n). Qed.

Lemma values_length t : length (values t) = base.size t.
Proof. unfold values. by rewrite length_fmap, length_map_to_list. Qed.

Lemma elem_of_values t n : n ∈ values t <-> exists p, t !! p = Some n.
Proof.
  unfold values. rewrite list_elem_of_fmap. split.
  - intros ([p n'] & -> & H). exists p. by apply elem_of_map_to_list.
  - intros [p H]. exists (p, n). split; [done|]. by apply elem_of_map_to_list.
Qed.

(** The nodes of a table met by walking its slots in order. *)
Fixpoint slot_nodes (t : gmap Z node) (l : list Z) : list node :=
  match l with
  | [] => []
  | p :: l' => match t !! p with Some n => n :: slot_nodes t l' | None => slot_nodes t l' end
  end.

Lemma values_slots (t : gmap Z node) l :
  NoDup l -> (forall p, is_Some (t !! p) -> p ∈ l) -> slot_nodes t l ≡ₚ values t.
Proof.
  intros Hl Hc.
  assert (omap (fun p => pair p <$> t !! p) l ≡ₚ map_to_list t) as Hp.
  { apply NoDup_Permutation.
    - clear Hc. induction Hl as [|p l Hp Hl IH]; simpl; [constructor|].
      destruct (t !! p); simpl; [|done]. constructor; [|done].
      rewrite list_elem_of_omap. intros (q & Hq & E).
      destruct (t !! q); simpl in E; [injection E as <- _; done|done].
    - apply NoDup_map_to_list.
    - intros [p n]. rewrite list_elem_of_omap, elem_of_map_to_list. split.
      + intros (q & Hq & E). destruct (t !! q) eqn:Eq; simpl in E; [injection E as <- <-; done|done].
      + intros E. exists p. rewrite E. split; [apply Hc; eauto|done]. }
  unfold values. rewrite <- Hp. clear. induction l as [|p l IH]; simpl; [done|].
  destruct (t !! p); simpl; [by rewrite IH|done].
Qed.

Section Table.
Context (B : Z) (HB : 0 < B).

Lemma home_range n : 0 <= home B n < B.
Proof. unfold home. apply Z.mod_pos_bound. lia. Qed.

Lemma empty_exists (t : gmap Z node) :
  (forall p n, t !! p = Some n -> 0 <= p < B) -> Z.of_nat (base.size t) < B ->
  exists p, 0 <= p < B /\ t !! p = None.
Proof.
  intros Hr Hs. destruct (decide (Forall (fun p => is_Some (t !! p)) (seqZ 0 B))) as [HF|HF].
  - exfalso. assert (values t ≡ₚ slot_nodes t (seqZ 0 B)) as Hv.
    { symmetry. apply values_slots; [apply NoDup_seqZ|]. intros p [n Hn].
      apply elem_of_seqZ. apply Hr in Hn. lia. }
    apply Permutation_length in Hv. rewrite values_length in Hv.
    assert (length (slot_nodes t (seqZ 0 B)) = length (seqZ 0 B)) as HL.
    { clear -HF. induction HF as [|p l [n Hn] _ IH]; simpl; [done|]. rewrite Hn. simpl. f_equal. exact IH. }
    rewrite length_seqZ in HL. lia.
  - apply not_Forall_Exists in HF; [|apply _]. apply Exists_exists in HF as (p & Hp & Hn).
    exists p. apply elem_of_seqZ in Hp. split; [lia|]. by apply eq_None_not_Some.
Qed.

(** [get_hash_position] returns the first NULL slot of the probe sequence. *)
Lemma get_hash_position_spec hash nh p0 :
  buckets hash = B -> 0 <= p0 < B -> hash_table hash !! p0 = None ->
  exists k, 0 <= k < B /\ get_hash_position nh hash = Some (slot B (nh mod B) k) /\
    hash_table hash !! slot B (nh mod B) k = None /\
    forall j, 0 <= j < k -> is_Some (hash_table hash !! slot B (nh mod B) j).
Proof.
  intros Eb Hp0 HN. unfold get_hash_position, fuel_of. rewrite Eb.
  assert (0 <= nh mod B < B) as Hh by (apply Z.mod_pos_bound; lia).
  destruct (slot_cases B HB (nh mod B) p0 Hp0) as (n & Hn & ->).
  destruct (probe_total B HB (empty_slot (hash_table hash)) (nh mod B) n) as (k & r & Hk & Hr & Hj & ->);
    [done|done| |].
  { unfold empty_slot. rewrite HN. eauto. }
  unfold empty_slot in Hr. exists k. destruct (hash_table hash !! slot B (nh mod B) k) eqn:E; [done|].
  injection Hr as <-. split_and!; [lia|lia|done|done|]. intros j Hj'. specialize (Hj j Hj').
  unfold empty_slot in Hj. destruct (hash_table hash !! slot B (nh mod B) j) eqn:?; [eauto|done].
Qed.

Lemma path_ok_mono (t t' : gmap Z node) n p :
  (forall q, is_Some (t !! q) -> is_Some (t' !! q)) -> path_ok B t n p -> path_ok B t' n p.
Proof. intros H Hp k Hk. auto. Qed.

Lemma table_ok_insert (t : gmap Z node) n p :
  table_ok B t -> 0 <= p < B -> path_ok B t n p -> t !! p = None -> table_ok B (<[p := n]> t).
Proof.
  intros [Hr Hp] Hb Hn HN.
  assert (forall q, is_Some (t !! q) -> is_Some (<[p := n]> t !! q)) as Hm.
  { intros q Hq. destruct (decide (p = q)) as [->|]; [by rewrite lookup_insert_eq|by rewrite lookup_insert_ne]. }
  split; intros q m Hq.
  - destruct (decide (p = q)) as [->|]; [done|]. rewrite lookup_insert_ne in Hq by done. eauto.
  - apply (path_ok_mono t); [done|]. destruct (decide (p = q)) as [->|].
    + rewrite lookup_insert_eq in Hq. by injection Hq as <-.
    + rewrite lookup_insert_ne in Hq by done. eauto.
Qed.

(** Storing a node where [get_hash_position] says keeps the invariant. *)
Lemma place_ok hash n :
  buckets hash = B -> table_ok B (hash_table hash) -> Z.of_nat (base.size (hash_table hash)) < B ->
  exists p, get_hash_position (name_hash (node_pkg n)) hash = Some p /\ hash_table hash !! p = None /\
    table_ok B (<[p := n]> (hash_table hash)).
Proof.
  intros Eb Ht Hs. destruct (empty_exists (hash_table hash)) as (p0 & Hp0 & HN); [apply Ht|done|].
  destruct (get_hash_position_spec hash (name_hash (node_pkg n)) p0) as (k & Hk & E & HN' & Hj); [done..|].
  eexists. split_and!; [exact E|done|]. apply table_ok_insert; [done|by apply slot_range| |done].
  intros j Hj'. apply Hj. unfold home in Hj'. rewrite dist_slot in Hj' by lia. lia.
Qed.

Lemma rebin_spec (old : gmap Z node) hash idx :
  buckets hash = B -> table_ok B (hash_table hash) ->
  Z.of_nat (length (slot_nodes old idx) + base.size (hash_table hash)) <= B ->
  exists t, rebin old hash idx = Some (set_table hash t) /\ table_ok B t /\
    values t ≡ₚ slot_nodes old idx ++ values (hash_table hash).
Proof.
  revert hash. induction idx as [|i idx IH]; intros hash Eb Ht Hs; cbn [rebin].
  { exists (hash_table hash). by destruct hash. }
  unfold rebin_one. simpl in Hs |- *. destruct (old !! i) as [n|] eqn:Ei; simpl in *; [|by apply IH].
  destruct (place_ok hash n) as (p & -> & HN & Ht'); [done|done|lia|]. simpl.
  destruct (IH (set_table hash (<[p := n]> (hash_table hash)))) as (t & E & Htt & Hv); [done|done| |].
  { simpl. rewrite map_size_insert_None by done. lia. }
  exists t. rewrite E. split_and!; [by destruct hash|done|]. rewrite Hv. simpl.
  rewrite values_insert by done. by rewrite Permutation_middle.
Qed.
End Table.

(** ** Closing the gap a removal leaves *)

Section Gap.
Context (B : Z) (HB : 0 < B).

(** The invariant with one NULL slot, [hole], allowed on the probe paths. *)
Record gap_ok (t : gmap Z node) (hole : Z) : Prop := {
  g_range p n : t !! p = Some n -> 0 <= p < B;
  g_hole : 0 <= hole < B;
  g_empty : t !! hole = None;
  g_path p n k : t !! p = Some n -> 0 <= k < dist B (home B n) p ->
    slot B (home B n) k = hole \/ is_Some (t !! slot B (home B n) k)
}.

(** The occupied run of [d] slots after the hole. *)
Record run_ok (t : gmap Z node) (hole d : Z) : Prop := {
  r_len : 0 <= d /\ d + 1 < B;
  r_full k : 1 <= k <= d -> is_Some (t !! slot B hole k);
  r_end : t !! slot B hole (d + 1) = None
}.

(** The hole is not on the probe path of the entry at [p]. *)
Definition clean (hole : Z) (n : node) (p : Z) : Prop :=
  forall k, 0 <= k < dist B (home B n) p -> slot B (home B n) k <> hole.

(** [get_hash_position] of an entry returns the hole exactly when the hole
    is on its path. *)
Lemma position_clean hash hole p n :
  buckets hash = B -> gap_ok (hash_table hash) hole -> hash_table hash !! p = Some n ->
  exists q, get_hash_position (name_hash (node_pkg n)) hash = Some q /\
    (q = hole -> path_ok B (hash_table hash) n hole) /\ (q <> hole -> clean hole n p).
Proof.
  intros Eb [Hr Hh HN Hp] Hn.
  destruct (get_hash_position_spec B HB hash (name_hash (node_pkg n)) hole) as (k & Hk & E & HN' & Hj); [done..|].
  fold (home B n) in *. eexists. split; [exact E|]. split.
  - intros Eh j Hj'. apply Hj. rewrite <- Eh, dist_slot in Hj' by lia. lia.
  - intros Hne j Hj' Ej. pose proof (dist_range B HB (home B n) p) as Hd.
    destruct (Z.lt_trichotomy j k) as [Hlt|[->|Hgt]].
    + specialize (Hj j ltac:(lia)). rewrite Ej, HN in Hj. by destruct Hj.
    + done.
    + destruct (Hp p n k Hn ltac:(lia)) as [Ek|Hs]; [done|]. rewrite HN' in Hs. by destruct Hs.
Qed.

(** When every entry of the run is clean the gap is closed. *)
Lemma gap_closed t hole d :
  gap_ok t hole -> run_ok t hole d ->
  (forall k n, 1 <= k <= d -> t !! slot B hole k = Some n -> clean hole n (slot B hole k)) ->
  table_ok B t.
Proof.
  intros [Hr Hh HN Hp] [Hd Hf He] Hc. split; [done|]. intros p n Hn k Hk.
  destruct (Hp p n k Hn Hk) as [Ek|?]; [|done]. exfalso.
  pose proof (dist_range B HB (home B n) p) as HD. set (D := dist B (home B n) p) in *.
  assert (p = slot B hole (D - k)) as Ep.
  { rewrite <- Ek, slot_slot by lia. replace (k + (D - k)) with D by lia.
    symmetry. apply slot_dist; eauto. }
  assert (D - k <= d) as Hle.
  { destruct (Z.le_gt_cases (D - k) d) as [|Hgt]; [done|exfalso].
    assert (is_Some (t !! slot B hole (d + 1))) as Hs; [|rewrite He in Hs; by destruct Hs].
    destruct (decide (D - k = d + 1)) as [<-|]; [rewrite <- Ep; eauto|].
    rewrite <- Ek, slot_slot by lia. destruct (Hp p n (k + (d + 1)) Hn) as [E'|?]; [lia| |done].
    rewrite <- Ek in E'. apply slot_inj in E'; lia. }
  eapply (Hc (D - k) n); [lia|by rewrite <- Ep| |exact Ek]. by rewrite <- Ep.
Qed.

(** Moving an entry of the run into the hole makes its slot the new hole. *)
Lemma move_gap t hole d e n :
  gap_ok t hole -> run_ok t hole d -> 1 <= e <= d -> t !! slot B hole e = Some n ->
  path_ok B t n hole ->
  let t' := delete (slot B hole e) (<[hole := n]> t) in
  gap_ok t' (slot B hole e) /\ run_ok t' (slot B hole e) (d - e) /\ values t' ≡ₚ values t.
Proof.
  intros [Hr Hh HN Hp] [Hd Hf He] Hle Hn Hpath t'.
  assert (hole <> slot B hole e) as Hne.
  { intros E. rewrite <- (slot_0 B hole) in E at 1 by done. apply slot_inj in E; lia. }
  assert (t' !! slot B hole e = None) as HN' by apply lookup_delete_eq.
  assert (forall q, is_Some (t !! q) -> q = slot B hole e \/ is_Some (t' !! q)) as Hkeep.
  { intros q Hq. destruct (decide (slot B hole e = q)); [by left|right]. unfold t'.
    rewrite lookup_delete_ne by done. destruct (decide (hole = q)) as [->|]; [by rewrite lookup_insert_eq|].
    by rewrite lookup_insert_ne. }
  assert (is_Some (t' !! hole)) as Hhole.
  { unfold t'. rewrite lookup_delete_ne by done. by rewrite lookup_insert_eq. }
  split_and!.
  - split; [|by apply slot_range|done|].
    + intros p m. unfold t'. rewrite lookup_delete_Some. intros [_ Hm].
      destruct (decide (hole = p)) as [->|]; [done|]. rewrite lookup_insert_ne in Hm by done. eauto.
    + intros p m k. unfold t' at 1. rewrite lookup_delete_Some. intros [Hne' Hm] Hk.
      destruct (decide (hole = p)) as [->|].
      * rewrite lookup_insert_eq in Hm. injection Hm as <-. apply Hkeep, Hpath. done.
      * rewrite lookup_insert_ne in Hm by done. destruct (Hp p m k Hm Hk) as [->|Hs]; [by right|by apply Hkeep].
  - split; [lia| |].
    + intros k Hk. rewrite slot_slot by lia. destruct (Hkeep (slot B hole (e + k))) as [E|?]; [apply Hf; lia| |done].
      apply slot_inj in E; lia.
    + rewrite slot_slot by lia. replace (e + (d - e + 1)) with (d + 1) by lia. unfold t'.
      rewrite lookup_delete_ne, lookup_insert_ne; [done| |].
      * intros E. rewrite <- (slot_0 B hole) in E at 1 by done. apply slot_inj in E; lia.
      * intros E. apply slot_inj in E; lia.
  - unfold t'. rewrite delete_insert_ne by done. rewrite values_insert.
    + by rewrite <- values_delete.
    + rewrite lookup_delete_ne by done. done.
Qed.

Lemma move_one_entry_spec fuel hash hole d e :
  buckets hash = B -> gap_ok (hash_table hash) hole -> run_ok (hash_table hash) hole d ->
  0 <= e <= d -> e <= Z.of_nat fuel ->
  (forall k n, e < k <= d -> hash_table hash !! slot B hole k = Some n -> clean hole n (slot B hole k)) ->
  (move_one_entry fuel hash hole (slot B hole e) = Some (hash, hole) /\ table_ok B (hash_table hash)) \/
  exists e' t', 1 <= e' <= d /\ slot B hole e' <> hole /\
    move_one_entry fuel hash hole (slot B hole e) = Some (set_table hash t', slot B hole e') /\
    gap_ok t' (slot B hole e') /\ run_ok t' (slot B hole e') (d - e') /\ values t' ≡ₚ values (hash_table hash).
Proof.
  intros Eb Hg Hrun. pose proof (g_hole _ _ Hg) as Hh. pose proof (r_len _ _ _ Hrun) as Hlen.
  revert e. induction fuel as [|fuel IH]; intros e He Hfu Hc.
  { assert (e = 0) as -> by lia. left. simpl. rewrite slot_0, Z.eqb_refl by lia. split; [done|].
    eapply gap_closed; [done|done|]. intros k n ? ?. apply Hc; [lia|done]. }
  cbn [move_one_entry]. destruct (decide (e = 0)) as [->|He0].
  { left. rewrite slot_0, Z.eqb_refl by lia. split; [done|].
    eapply gap_closed; [done|done|]. intros k n ? ?. apply Hc; [lia|done]. }
  assert (slot B hole e <> hole) as Hne.
  { intros E. rewrite <- (slot_0 B hole) in E at 2 by done. apply slot_inj in E; lia. }
  rewrite (proj2 (Z.eqb_neq _ _) Hne).
  destruct (r_full _ _ _ Hrun e ltac:(lia)) as [n Hn]. rewrite Hn. simpl.
  destruct (position_clean hash hole (slot B hole e) n Eb Hg Hn) as (q & -> & Hq1 & Hq2). simpl.
  destruct (Z.eqb_spec q hole) as [Eq|Eq].
  - right. destruct (move_gap (hash_table hash) hole d e n) as (G1 & G2 & G3); [done|done|lia|done|auto|].
    exists e. eexists. split_and!; [lia|lia|done|reflexivity|exact G1|exact G2|exact G3].
  - specialize (Hq2 Eq). replace (slot B hole e) with (slot B hole ((e - 1) + 1)) by (f_equal; lia).
    rewrite Eb, (retreat_slot B) by lia. apply IH; [lia|lia|].
    intros k m Hk Hm. destruct (decide (k = e)) as [->|]; [|apply Hc; [lia|done]].
    rewrite Hn in Hm. by injection Hm as <-.
Qed.

Lemma close_gap_spec fuel hash hole d :
  buckets hash = B -> gap_ok (hash_table hash) hole -> run_ok (hash_table hash) hole d ->
  d < Z.of_nat fuel ->
  exists t, close_gap fuel hash hole (slot B hole d) = Some (set_table hash t) /\
    table_ok B t /\ values t ≡ₚ values (hash_table hash).
Proof.
  revert hash hole d. induction fuel as [|fuel IH]; intros hash hole d Eb Hg Hrun Hfu.
  { pose proof (r_len _ _ _ Hrun). lia. }
  pose proof (r_len _ _ _ Hrun) as Hlen. pose proof (g_hole _ _ Hg) as Hh. cbn [close_gap].
  destruct (move_one_entry_spec (fuel_of hash) hash hole d d) as [[-> Ht]|(e & t & He & Hne & -> & Hg' & Hr' & Hv)];
    [done|done|done|lia|unfold fuel_of; lia|intros; lia| |]; simpl.
  - rewrite Z.eqb_refl. exists (hash_table hash). by destruct hash.
  - rewrite (proj2 (Z.eqb_neq _ _) Hne).
    destruct (IH (set_table hash t) (slot B hole e) (d - e)) as (t' & E & Ht' & Hv'); [done|done|done|lia|].
    rewrite slot_slot in E by lia. replace (e + (d - e)) with d in E by lia.
    exists t'. rewrite E. split_and!; [by destruct hash|done|]. by rewrite Hv'.
Qed.
End Gap.

(** ** The representation invariant *)

(** The packages of a cache, in list order. *)
Definition pkgs_of (hash : pkghash) : list pkg := node_pkg <$> hlist hash.

Record wf (hash : pkghash) : Prop := {
  wf_buckets : buckets hash ∈ prime_list;
  wf_limit : limit hash = max_entries (buckets hash);
  wf_table : table_ok (buckets hash) (hash_table hash);
  wf_list : values (hash_table hash) ≡ₚ hlist hash;
  wf_entries : entries hash = Z.of_nat (length (hlist hash));
  wf_load : entries hash <= limit hash;
  wf_addr : NoDup (hlist hash).*1;
  wf_hashed : Forall pkg_hashed (pkgs_of hash)
}.

Lemma prime_list_bounds : Forall (fun p => 11 <= p < 1000000) prime_list.
Proof. by_decide. Qed.

Lemma prime_bounds p : p ∈ prime_list -> 11 <= p < 1000000.
Proof. pose proof prime_list_bounds as H. rewrite Forall_forall in H. apply H. Qed.

Lemma max_entries_bounds p : 0 < p -> 0 <= max_entries p < p.
Proof.
  intros. unfold max_entries. split; [apply Z.div_pos; lia|]. apply Z.div_lt_upper_bound; lia.
Qed.

(** A well-formed table always has a NULL slot, so probes end. *)
Lemma wf_size hash : wf hash -> 0 < buckets hash /\ Z.of_nat (base.size (hash_table hash)) < buckets hash.
Proof.
  intros H. pose proof (prime_bounds _ (wf_buckets _ H)). split; [lia|].
  rewrite <- values_length, (wf_list _ H), <- (wf_entries _ H).
  pose proof (wf_load _ H). rewrite (wf_limit _ H) in *. pose proof (max_entries_bounds (buckets hash)). lia.
Qed.

Lemma create_spec size :
  0 <= size ->
  match pkghash_create size with
  | Some h => wf h /\ hlist h = [] /\ initial_size size < buckets h
  | None => Forall (fun p => p <= initial_size size) prime_list
  end.
Proof.
  intros Hs. unfold pkghash_create.
  assert (0 < initial_size size) by (unfold initial_size; pose proof (Z.div_pos (size * 50) 29); lia).
  destruct (find_first _ prime_list) as [p|] eqn:E.
  - apply find_first_Some in E as [Hp Hlt]. bool_hyps.
    destruct (Z.ltb_spec p (initial_size size)); [lia|]. split_and!; [|done|done].
    pose proof (max_entries_bounds p) as Hm. pose proof (prime_bounds p Hp).
    split; simpl; first [done|lia|constructor]; intros ? ?; by rewrite lookup_empty.
  - destruct (Z.ltb_spec 0 (initial_size size)); [|lia]. apply Forall_forall. intros p Hp.
    rewrite find_first_None in E. specialize (E p Hp). bool_hyps. lia.
Qed.

(** The room [rehash] makes. *)
Lemma rehash_size_room b : 11 <= b -> b < initial_size (rehash_size b) /\ 0 <= rehash_size b.
Proof.
  intros Hb. assert (b <= rehash_size b) as Hle.
  { unfold rehash_size. destruct (b <? 500), (b <? 2000), (b <? 5000); try lia; apply Z.div_le_lower_bound; lia. }
  split; [|lia]. unfold initial_size. assert (rehash_size b <= rehash_size b * 50 / 29); [|lia].
  apply Z.div_le_lower_bound; lia.
Qed.

Lemma rehash_spec hash :
  wf hash ->
  (rehash hash = Some None) \/
  exists hash', rehash hash = Some (Some hash') /\ wf hash' /\ hlist hash' = hlist hash /\
    buckets hash < buckets hash' /\ entries hash' < limit hash'.
Proof.
  intros H. pose proof (wf_size _ H) as [HB Hsz]. pose proof (prime_bounds _ (wf_buckets _ H)) as Hpb.
  destruct (rehash_size_room (buckets hash)) as [Hroom Hpos]; [lia|]. unfold rehash.
  pose proof (create_spec _ Hpos) as Hc. destruct (pkghash_create _) as [new|]; [right|by left].
  destruct Hc as (Hw & Hnil & Hb). pose proof (wf_size _ Hw) as [HB' _].
  assert (hash_table new = ∅) as Hemp.
  { pose proof (wf_list _ Hw) as Hv. rewrite Hnil in Hv. apply map_size_empty_inv.
    rewrite <- values_length, Hv. done. }
  assert (slot_nodes (hash_table hash) (seqZ 0 (buckets hash)) ≡ₚ values (hash_table hash)) as Hall.
  { apply values_slots; [apply NoDup_seqZ|]. intros p [n Hn]. apply elem_of_seqZ.
    apply (t_range _ _ (wf_table _ H)) in Hn. lia. }
  destruct (rebin_spec (buckets new) HB' (hash_table hash)
    (PkgHash (hash_table new) (hlist hash) (buckets new) (entries new) (limit new))
    (seqZ 0 (buckets hash))) as (t & -> & Ht & Hv); [done|apply Hw| |].
  { simpl. rewrite Hall, values_length, Hemp, map_size_empty. lia. }
  simpl in Hv |- *. rewrite Hemp, values_empty, app_nil_r, Hall, (wf_list _ H) in Hv.
  eexists. split_and!; [reflexivity| |done|simpl; lia|]; simpl.
  - split; simpl; try done; try apply H; [by apply (wf_buckets _ Hw)|by apply (wf_limit _ Hw)|].
    rewrite (wf_limit _ Hw). etrans; [apply (wf_load _ H)|]. rewrite (wf_limit _ H).
    unfold max_entries. apply Z.div_le_mono; lia.
  - rewrite (wf_limit _ Hw). pose proof (wf_load _ H) as Hl. rewrite (wf_limit _ H) in Hl.
    eapply Z.le_lt_trans; [exact Hl|]. unfold max_entries.
    assert (buckets hash * 17 / 25 + 1 <= buckets new * 17 / 25); [|lia].
    replace (buckets hash * 17 / 25 + 1) with ((buckets hash * 17 + 1 * 25) / 25)
      by (rewrite Z_div_plus_full; lia).
    apply Z.div_le_mono; [lia|]. lia.
Qed.

(** ** Lookup, insertion and removal *)

Lemma wf_values_hashed hash pos i : wf hash -> hash_table hash !! pos = Some i -> pkg_hashed (node_pkg i).
Proof.
  intros H Hi. pose proof (wf_hashed _ H) as Hh. rewrite Forall_forall in Hh. apply Hh.
  apply list_elem_of_fmap. exists i. split; [done|]. rewrite <- (wf_list _ H). apply elem_of_values. eauto.
Qed.

Lemma lookup_slot_spec hash n :
  wf hash ->
  exists r, lookup_slot hash (hash_sdbm n) n = Some r /\
    match r with
    | Some (pos, i) => hash_table hash !! pos = Some i /\ name (node_pkg i) = n
    | None => forall i, i ∈ hlist hash -> name (node_pkg i) <> n
    end.
Proof.
  intros H. destruct (wf_size _ H) as [HB Hs]. pose proof (wf_table _ H) as [Hr Hp]. set (B := buckets hash) in *.
  set (h0 := hash_sdbm n mod B). assert (0 <= h0 < B) as Hh0 by (apply Z.mod_pos_bound; lia).
  destruct (empty_exists B HB (hash_table hash) Hr Hs) as (p0 & Hp0 & HN).
  destruct (slot_cases B HB h0 p0 Hp0) as (k0 & Hk0 & ->).
  destruct (probe_total B HB (slot_match (hash_table hash) (hash_sdbm n) n) h0 k0)
    as (k & r & Hk & Hv & Hj & E); [done|done| |].
  { unfold slot_match. rewrite HN. eauto. }
  exists r. split; [done|]. unfold slot_match in Hv.
  destruct (hash_table hash !! slot B h0 k) as [i|] eqn:Ei.
  - destruct (_ && _) eqn:Et; [|done]. injection Hv as <-. bool_hyps. split; [done|]. by apply strcmp_eq.
  - injection Hv as <-. intros i Hi En. rewrite <- (wf_list _ H) in Hi. apply elem_of_values in Hi as [q Hq].
    pose proof (wf_values_hashed _ _ _ H Hq) as Hhash. unfold pkg_hashed in Hhash. rewrite En in Hhash.
    assert (home B i = h0) as Ehome by (unfold home, h0; by rewrite Hhash).
    pose proof (Hp _ _ Hq) as Hpath. unfold path_ok in Hpath. rewrite Ehome in Hpath.
    pose proof (Hr _ _ Hq) as Hqr. rewrite <- (slot_dist B h0 q) in Hq by done.
    destruct (Z.lt_trichotomy (dist B h0 q) k) as [Hlt|[Heq|Hgt]].
    + specialize (Hj (dist B h0 q)). unfold slot_match in Hj. rewrite Hq, Hhash, En, Z.eqb_refl, strcmp_refl in Hj.
      simpl in Hj. pose proof (dist_range B HB h0 q). by specialize (Hj ltac:(lia)).
    + rewrite Heq in Hq. congruence.
    + destruct (Hpath k ltac:(lia)) as [m Hm]. congruence.
Qed.

Lemma mmerge_pkgs l r :
  node_pkg <$> KList.mmerge node_cmp l r = KList.mmerge Package.pkg_cmp (node_pkg <$> l) (node_pkg <$> r).
Proof. symmetry. apply (KList.mmerge_fmap Package.pkg_cmp node_pkg). Qed.

Lemma filter_addr_notin (l : list node) (a : positive) :
  a ∉ l.*1 -> filter (fun n => n.1 <> a) l = l.
Proof.
  induction l as [|m l IH]; [done|]. rewrite fmap_cons. intros Ha.
  rewrite filter_cons_True by set_solver. f_equal. apply IH. set_solver.
Qed.

(** The nodes left when the node of a given address is taken out. *)
Lemma filter_addr (l : list node) i :
  NoDup l.*1 -> i ∈ l -> l ≡ₚ i :: filter (fun n => n.1 <> i.1) l.
Proof.
  induction l as [|j l IH]; intros Hnd Hi; [by apply not_elem_of_nil in Hi|].
  rewrite fmap_cons in Hnd. apply NoDup_cons in Hnd as [Hj Hnd]. apply elem_of_cons in Hi as [->|Hi].
  - rewrite filter_cons_False by auto. by rewrite filter_addr_notin.
  - rewrite filter_cons_True by (intros E; apply Hj; rewrite E; apply list_elem_of_fmap; eauto).
    rewrite (IH Hnd Hi) at 1. constructor.
Qed.

Lemma create_room size : 0 <= size -> match pkghash_create size with Some h => size <= limit h | None => True end.
Proof.
  intros Hsize. pose proof (create_spec size Hsize) as H. destruct (pkghash_create size) as [h|]; [|done].
  destruct H as (Hw & Hl & Hb). rewrite (wf_limit _ Hw). unfold max_entries, initial_size in *.
  apply Z.div_le_lower_bound; [lia|]. pose proof (Z.mul_div_le (size * 50) 29).
  pose proof (Z.mod_pos_bound (size * 50) 29). pose proof (Z.div_mod (size * 50) 29). lia.
Qed.

(** [_klpm_pkghash_create] succeeds exactly when some prime of the list is
    above the requested size divided by the initial load, and the table it
    returns is empty, well formed and has room for [size] entries before the
    first resize. *)
Theorem pkghash_create_spec size (Hsize : 0 <= size) :
  match pkghash_create size with
  | Some h => wf h /\ pkgs_of h = [] /\ size <= limit h
  | None => 976369 <= initial_size size
  end.
Proof.
  pose proof (create_spec size Hsize) as H. pose proof (create_room size Hsize) as Hr. destruct (pkghash_create size) as [h|].
  - destruct H as (Hw & Hl & Hb). split_and!; [done|by unfold pkgs_of; rewrite Hl|done].
  - rewrite Forall_forall in H. apply H. by_decide.
Qed.

Lemma pkghash_create_witness : exists h, pkghash_create 100 = Some h /\ 100 <= limit h.
Proof.
  pose proof (pkghash_create_spec 100 ltac:(lia)) as H.
  destruct (pkghash_create 100) as [h|] eqn:E; [|vm_compute in E; discriminate E].
  exists h. destruct H as (_ & _ & H). auto.
Defined.

(** Lookup through the probe sequence is exact. *)
Lemma find_correct hash n (H : wf hash) :
  exists r, pkghash_find hash n = Some r /\
    match r with
    | Some p => p ∈ pkgs_of hash /\ name p = n
    | None => n ∉ name <$> pkgs_of hash
    end.
Proof.
  unfold pkghash_find. destruct (lookup_slot_spec hash n H) as ([[pos i]|] & -> & Hr).
  - eexists. split; [reflexivity|]. destruct Hr as [Hi Hn]. split; [|done].
    apply list_elem_of_fmap. exists i. split; [done|]. rewrite <- (wf_list _ H). apply elem_of_values. eauto.
  - eexists. split; [reflexivity|]. intros (p & -> & Hp)%list_elem_of_fmap.
    apply list_elem_of_fmap in Hp as (i & -> & Hi). by apply (Hr i Hi).
Qed.

(** [_klpm_pkghash_find] ends and is exact: it returns a package of the
    cache with the requested name when there is one and NULL only when there
    is none, whatever the collisions in the table. *)
Theorem pkghash_find_spec hash n (H : wf hash) :
  exists r, pkghash_find hash n = Some r /\
    match r with
    | Some p => p ∈ pkgs_of hash /\ name p = n
    | None => n ∉ name <$> pkgs_of hash
    end.
Proof. by apply find_correct. Qed.

(** Adding a package, on every branch. *)
Lemma add_correct hash p sorted ptr (H : wf hash) (Hp : pkg_hashed p)
    (Hptr : forall a, ptr = Some a -> a ∉ (hlist hash).*1) :
  exists r, pkghash_add_pkg hash p sorted ptr = Some r /\
    match r with
    | AddFailed h => wf h /\ pkgs_of h = pkgs_of hash /\
        (ptr = None \/ limit hash <= entries hash /\ h = hash)
    | Added h => wf h /\ is_Some ptr /\ pkgs_of h ≡ₚ p :: pkgs_of hash /\
        (if sorted then StronglySorted (cmp_le Package.pkg_cmp) (pkgs_of hash) ->
                        StronglySorted (cmp_le Package.pkg_cmp) (pkgs_of h)
         else pkgs_of h = pkgs_of hash ++ [p])
    end.
Proof.
  unfold pkghash_add_pkg.
  assert ((limit hash <= entries hash /\ (if limit hash <=? entries hash then rehash hash else Some (Some hash)) = Some None) \/
    exists h, (if limit hash <=? entries hash then rehash hash else Some (Some hash)) = Some (Some h) /\
      wf h /\ hlist h = hlist hash /\ entries h < limit h) as [[Hl ->]|(h & -> & Hw & Hlist & Hroom)].
  { destruct (Z.leb_spec (limit hash) (entries hash)).
    - destruct (rehash_spec hash H) as [->|(h & -> & ? & ? & _ & ?)]; [by left|right; eauto 10].
    - right. eexists. split_and!; [reflexivity|done|done|done]. }
  { simpl. eexists. split; [reflexivity|]. simpl. auto. }
  simpl. destruct (wf_size _ Hw) as [HB Hs].
  destruct ptr as [a|]; simpl.
  - destruct (place_ok (buckets h) HB h (a, p)) as (pos & Epos & HN & Ht); [done|apply Hw|done|].
    simpl in Epos. rewrite Epos. simpl. eexists. split; [reflexivity|].
    set (l := if sorted then _ else _).
    assert (l ≡ₚ (a, p) :: hlist hash) as Hl.
    { unfold l. rewrite Hlist. destruct sorted.
      - rewrite KList.mmerge_perm. symmetry. apply Permutation_cons_append.
      - symmetry. apply Permutation_cons_append. }
    split_and!.
    + split; simpl; try done; try apply Hw.
      * by rewrite values_insert, (wf_list _ Hw), Hl, Hlist by done.
      * rewrite Hl, (wf_entries _ Hw), Hlist. simpl. lia.
      * lia.
      * rewrite Hl. simpl. constructor; [by apply Hptr|]. apply H.
      * unfold pkgs_of. simpl. rewrite Hl. constructor; [done|]. apply H.
    + eauto.
    + unfold pkgs_of. simpl. by rewrite Hl.
    + unfold pkgs_of, l. simpl. rewrite Hlist. destruct sorted; [|by rewrite fmap_app].
      intros Hsort. rewrite mmerge_pkgs.
      apply KList.mmerge_sorted; [apply _|done|by repeat constructor].
  - destruct (place_ok (buckets h) HB h (xH, p)) as (pos & Epos & _ & _); [done|apply Hw|done|].
    simpl in Epos. rewrite Epos. simpl. eexists. split; [reflexivity|]. simpl.
    split_and!; [done|by unfold pkgs_of; rewrite Hlist|by left].
Qed.

(** The table can grow at least up to 300,000 packages. *)
Lemma rehash_succeeds hash : wf hash -> limit hash <= entries hash <= 300000 -> rehash hash <> Some None.
Proof.
  intros H Hl E. pose proof (prime_bounds _ (wf_buckets _ H)) as Hb. destruct (rehash_size_room (buckets hash)) as [_ Hpos]; [lia|].
  unfold rehash in E. pose proof (create_spec _ Hpos) as Hc. destruct (pkghash_create _) as [new|].
  { by destruct (rebin _ _ _). }
  rewrite Forall_forall in Hc. specialize (Hc 976369 ltac:(by_decide)). rewrite (wf_limit _ H) in Hl. unfold max_entries in Hl.
  assert (buckets hash < 500000) as Hlt.
  { destruct (Z.lt_ge_cases (buckets hash) 500000); [done|]. assert (500000 * 17 / 25 <= buckets hash * 17 / 25) by (apply Z.div_le_mono; lia).
    change (500000 * 17 / 25) with 340000 in *. lia. }
  assert (rehash_size (buckets hash) <= 500001).
  { unfold rehash_size. destruct (Z.ltb_spec (buckets hash) 500), (Z.ltb_spec (buckets hash) 2000), (Z.ltb_spec (buckets hash) 5000); try lia;
      apply Z.div_le_upper_bound; lia. }
  unfold initial_size in Hc. assert (rehash_size (buckets hash) * 50 / 29 <= 500001 * 50 / 29) by (apply Z.div_le_mono; lia).
  change (500001 * 50 / 29) with 862070 in *. lia.
Qed.
(** With a node and below that number, adding does not fail. *)
Lemma add_succeeds hash p sorted a h : wf hash -> entries hash <= 300000 -> pkghash_add_pkg hash p sorted (Some a) <> Some (AddFailed h).
Proof.
  intros H Hn E. unfold pkghash_add_pkg in E. destruct (Z.leb_spec (limit hash) (entries hash)) as [Hl|Hl].
  - pose proof (rehash_succeeds hash H ltac:(lia)) as Hne. destruct (rehash hash) as [[h1|]|]; [|done|done]. cbn [mbind option_bind] in E.
    by destruct (get_hash_position _ _).
  - cbn [mbind option_bind] in E. by destruct (get_hash_position _ _).
Qed.
(** Appending, with the nodes of the list. *)
Lemma add_nodes hash p a (H : wf hash) (Hp : pkg_hashed p) (Ha : a ∉ (hlist hash).*1) :
  exists r, pkghash_add_pkg hash p false (Some a) = Some r /\
    match r with
    | AddFailed h => wf h /\ hlist h = hlist hash /\ 300000 < entries hash
    | Added h => wf h /\ hlist h = hlist hash ++ [(a, p)]
    end.
Proof.
  destruct (add_correct hash p false (Some a) H Hp) as (r & E & Hr); [by intros ? [= <-]|]. exists r. split; [done|].
  unfold pkghash_add_pkg in E. destruct (Z.leb_spec (limit hash) (entries hash)) as [Hl|Hl].
  - destruct (rehash_spec hash H) as [E0|(h & Eh & Hw & Hlist & _)].
    + rewrite E0 in E. injection E as <-. destruct Hr as (? & _ & [?|[_ _]]); [done|]. split_and!; [done|done|].
      destruct (Z.lt_ge_cases 300000 (entries hash)); [done|]. by destruct (rehash_succeeds hash H).
    + rewrite Eh in E. cbn [mbind option_bind] in E. destruct (get_hash_position _ _); cbn [mbind option_bind] in E; [|done].
      injection E as <-. split; [apply Hr|]. cbn. by rewrite Hlist.
  - cbn [mbind option_bind] in E. destruct (get_hash_position _ _); cbn [mbind option_bind] in E; [|done].
    injection E as <-. split; [apply Hr|done].
Qed.

(** Adding a package to a well-formed cache ends; it either fails and
    keeps the list (the node allocation failed, or the table is full and
    cannot grow, which leaves it untouched), or yields a well-formed cache
    whose list has the package appended, respectively merged in by name. *)
Theorem pkghash_add_spec hash p sorted ptr (H : wf hash) (Hp : pkg_hashed p)
    (Hptr : forall a, ptr = Some a -> a ∉ (hlist hash).*1) :
  exists r, pkghash_add_pkg hash p sorted ptr = Some r /\
    match r with
    | AddFailed h => wf h /\ pkgs_of h = pkgs_of hash /\
        (ptr = None \/ limit hash <= entries hash /\ h = hash)
    | Added h => wf h /\ is_Some ptr /\ pkgs_of h ≡ₚ p :: pkgs_of hash /\
        (if sorted then StronglySorted (cmp_le Package.pkg_cmp) (pkgs_of hash) ->
                        StronglySorted (cmp_le Package.pkg_cmp) (pkgs_of h)
         else pkgs_of h = pkgs_of hash ++ [p])
    end.
Proof. by apply add_correct. Qed.

(** The parts of the hash other than the table. *)
Definition same_list (h h' : pkghash) : Prop := hlist h' = hlist h /\ entries h' = entries h /\ limit h' = limit h.
Lemma move_one_entry_list fuel h a b h' c : move_one_entry fuel h a b = Some (h', c) -> same_list h h'.
Proof.
  revert b. induction fuel as [|fuel IH]; intros b; cbn [move_one_entry]; (destruct (_ =? _); [by intros [= <- _]|]); [done|].
  destruct (hash_table h !! b) as [i|]; [|done]. cbn [mbind option_bind]. destruct (get_hash_position _ _); [|done]. cbn [mbind option_bind].
  destruct (_ =? _); [by intros [= <- _]|apply IH].
Qed.
Lemma close_gap_list fuel h a b h' : close_gap fuel h a b = Some h' -> same_list h h'.
Proof.
  revert h a. induction fuel as [|fuel IH]; intros h a; [done|]. cbn [close_gap].
  destruct (move_one_entry (fuel_of h) h a b) as [[h1 prev]|] eqn:E; [|done]. cbn [mbind option_bind]. apply move_one_entry_list in E as (E1 & E2 & E3).
  destruct (_ =? _); [by intros [= <-]|]. intros (F1 & F2 & F3)%IH. split_and!; congruence.
Qed.

#[local] Arguments close_gap : simpl never.

(** The states [pkghash_remove] goes through: the slot is emptied, then the
    entries behind it are moved up. *)
Lemma removed_gap hash pos i :
  wf hash -> hash_table hash !! pos = Some i ->
  let t := delete pos (hash_table hash) in
  gap_ok (buckets hash) t pos /\
  exists d, run_ok (buckets hash) t pos d /\
    probe (stop_test t pos) (buckets hash) (Z.to_nat (buckets hash)) (advance (buckets hash) pos)
      = Some (slot (buckets hash) pos (d + 1)).
Proof.
  intros H Hi t. destruct (wf_size _ H) as [HB Hs]. destruct (wf_table _ H) as [Hr Hp].
  set (B := buckets hash) in *. pose proof (Hr _ _ Hi) as Hpos.
  assert (t !! pos = None) as HNp by apply lookup_delete_eq.
  split.
  { split; [|done|done|].
    - intros p n [_ Hn]%lookup_delete_Some. eauto.
    - intros p n k [_ Hn]%lookup_delete_Some Hk. destruct (decide (pos = slot B (home B n) k)); [by left|right].
      unfold t. rewrite lookup_delete_ne by done. by apply (Hp _ _ Hn). }
  destruct (empty_exists B HB (hash_table hash) Hr Hs) as (p0 & Hp0 & HN0).
  destruct (slot_cases B HB pos p0 Hp0) as (k0 & Hk0 & ->).
  assert (k0 <> 0) by (intros ->; rewrite slot_0 in HN0 by done; congruence).
  assert (t !! slot B pos k0 = None) as HN1.
  { unfold t. destruct (decide (pos = slot B pos k0)) as [<-|]; [done|]. by rewrite lookup_delete_ne. }
  rewrite (advance_slot B) by done.
  destruct (probe_total B HB (stop_test t pos) (slot B pos 1) (k0 - 1)) as (k & r & Hk & Hv & Hj & E);
    [by apply slot_range|lia| |].
  { rewrite slot_slot by lia. replace (1 + (k0 - 1)) with k0 by lia. unfold stop_test. rewrite HN1. eauto. }
  assert (forall j, 0 <= j <= k -> slot B (slot B pos 1) j <> pos) as Hne.
  { intros j Hj'. rewrite slot_slot by lia. intros Ej. rewrite <- (slot_0 B pos) in Ej at 2 by done.
    apply slot_inj in Ej; lia. }
  exists k. unfold stop_test in Hv. rewrite slot_slot in Hv by lia. replace (1 + k) with (k + 1) in Hv by lia.
  destruct (t !! slot B pos (k + 1)) eqn:Ek.
  - specialize (Hne k ltac:(lia)). rewrite slot_slot in Hne by lia. replace (1 + k) with (k + 1) in Hne by lia.
    apply Z.eqb_neq in Hne. by rewrite Hne in Hv.
  - injection Hv as <-. split; [|done]. split; [lia| |done]. intros j Hj'.
    specialize (Hj (j - 1) ltac:(lia)). unfold stop_test in Hj. rewrite slot_slot in Hj by lia.
    replace (1 + (j - 1)) with j in Hj by lia. destruct (t !! slot B pos j); [eauto|done].
Qed.

(** Removal, on every branch. *)
Lemma remove_correct hash p (H : wf hash) (Hp : pkg_hashed p) :
  exists h d, pkghash_remove hash p = Some (h, d) /\ wf h /\
    match d with
    | Some q => name q = name p /\ pkgs_of hash ≡ₚ q :: pkgs_of h /\ sublist (pkgs_of h) (pkgs_of hash)
    | None => h = hash /\ name p ∉ name <$> pkgs_of hash
    end.
Proof.
  unfold pkghash_remove. rewrite Hp. destruct (lookup_slot_spec hash (name p) H) as ([[pos i]|] & -> & Hr); simpl.
  2: { exists hash, None. split_and!; [done|done|done|].
       intros (q & Hq & (i & -> & Hi)%list_elem_of_fmap)%list_elem_of_fmap. by apply (Hr i Hi). }
  destruct Hr as [Hi Hn]. destruct (wf_size _ H) as [HB Hs].
  destruct (removed_gap hash pos i H Hi) as (Hg & d & Hrun & E). unfold fuel_of; simpl. rewrite E. simpl.
  rewrite (retreat_slot (buckets hash)) by apply Hrun.
  pose proof (r_len _ _ _ _ Hrun).
  edestruct (close_gap_spec (buckets hash) HB (S (Z.to_nat (buckets hash)))) as (t & -> & Ht & Hv);
    [|exact Hg|exact Hrun| |]; [done|lia|]. simpl.
  assert (i ∈ hlist hash) as Hin by (rewrite <- (wf_list _ H); apply elem_of_values; eauto).
  pose proof (filter_addr _ _ (wf_addr _ H) Hin) as Hf.
  assert (Forall pkg_hashed (pkgs_of hash)) as Hh by apply H. unfold pkgs_of in *. rewrite Hf in Hh. simpl in Hh.
  eexists _, _. split; [reflexivity|]. split.
  - split; simpl; try apply H; try done.
    + rewrite Hv. simpl. pose proof (wf_list _ H) as HL. rewrite (values_delete _ _ _ Hi), Hf in HL.
      by apply Permutation_cons_inv in HL.
    + rewrite (wf_entries _ H). apply Permutation_length in Hf. simpl in Hf. lia.
    + pose proof (wf_load _ H). lia.
    + pose proof (wf_addr _ H) as Ha. rewrite Hf in Ha. simpl in Ha. by apply NoDup_cons in Ha as [_ ?].
    + unfold pkgs_of. simpl. by inversion Hh.
  - split_and!; [done| |].
    + simpl. rewrite Hf at 1. done.
    + simpl. apply fmap_sublist, sublist_filter.
Qed.

(** C11: [_klpm_pkghash_remove] ends and removes exactly one package, the one
    with the name of its argument: the cache stays well formed (every other
    entry can still be found by probing), the others keep their list order,
    and the removed package is handed back; without such a package nothing
    changes. *)
Theorem pkghash_remove_spec hash p (H : wf hash) (Hp : pkg_hashed p) :
  exists h d, pkghash_remove hash p = Some (h, d) /\ wf h /\
    match d with
    | Some q => name q = name p /\ pkgs_of hash ≡ₚ q :: pkgs_of h /\ sublist (pkgs_of h) (pkgs_of hash)
    | None => h = hash /\ name p ∉ name <$> pkgs_of hash
    end.
Proof. by apply remove_correct. Qed.

(** ** The cache as a map from names to packages *)

(** Removal makes room and frees addresses. *)
Lemma remove_room hash p h d : pkghash_remove hash p = Some (h, d) ->
  (hlist h).*1 ⊆ (hlist hash).*1 /\ entries h <= entries hash /\ limit h = limit hash.
Proof.
  unfold pkghash_remove. destruct (lookup_slot _ _ _) as [[[pos i]|]|]; cbn [mbind option_bind]; [|by intros [= <- _]|done].
  destruct (probe _ _ _ _); [|done]. cbn [mbind option_bind]. destruct (close_gap _ _ _ _) as [h'|] eqn:E; [|done].
  cbn [mbind option_bind]. intros [= <- _]. apply close_gap_list in E as (-> & -> & ->). cbn [hlist entries limit].
  split_and!; [|lia|done]. intros x (n & -> & [_ Hn]%list_elem_of_filter)%list_elem_of_fmap. apply list_elem_of_fmap. eauto.
Qed.

Definition names_of (h : pkghash) : list cstr := name <$> pkgs_of h.
Lemma find_present h p : wf h -> NoDup (names_of h) -> p ∈ pkgs_of h -> pkghash_find h (name p) = Some (Some p).
Proof.
  intros Hw Hnd Hp. destruct (find_correct h (name p) Hw) as ([q|] & -> & Hr).
  - destruct Hr as [Hq En]. do 2 f_equal. apply list_elem_of_lookup in Hp as [i Hi]. apply list_elem_of_lookup in Hq as [j Hj].
    assert (j = i) as ->; [|congruence]. eapply (NoDup_lookup _ _ _ (name p) Hnd); unfold names_of; rewrite list_lookup_fmap; [by rewrite Hj, <- En|by rewrite Hi].
  - exfalso. apply Hr. apply list_elem_of_fmap. eauto.
Qed.
Lemma find_absent h n : wf h -> n ∉ names_of h -> pkghash_find h n = Some None.
Proof.
  intros Hw Hn. destruct (find_correct h n Hw) as ([q|] & -> & Hr); [|done]. destruct Hr as [Hq <-].
  exfalso. apply Hn. apply list_elem_of_fmap. eauto.
Qed.
Lemma find_members h h' n : wf h -> wf h' -> NoDup (names_of h) -> NoDup (names_of h') ->
  (forall p, name p = n -> p ∈ pkgs_of h <-> p ∈ pkgs_of h') -> pkghash_find h' n = pkghash_find h n.
Proof.
  intros Hw Hw' Hnd Hnd' Hiff. destruct (find_correct h n Hw) as ([p|] & -> & Hr).
  - destruct Hr as [Hp <-]. apply find_present; [done..|]. by apply Hiff.
  - apply find_absent; [done|]. intros (p & E & Hp)%list_elem_of_fmap. apply Hr, list_elem_of_fmap. exists p. split; [done|]. by apply Hiff.
Qed.

(** Adding and removing update the map at one name. *)
Lemma find_add h p h' : wf h -> wf h' -> NoDup (names_of h) -> name p ∉ names_of h -> pkgs_of h' ≡ₚ p :: pkgs_of h ->
  NoDup (names_of h') /\ forall n, pkghash_find h' n = if decide (n = name p) then Some (Some p) else pkghash_find h n.
Proof.
  intros Hw Hw' Hnd Hp Hperm. assert (NoDup (names_of h')) as Hnd' by (unfold names_of; rewrite Hperm; by apply NoDup_cons).
  split; [done|]. intros n. case_decide as E.
  - subst n. apply find_present; [done..|]. rewrite Hperm. apply elem_of_cons. by left.
  - apply find_members; [done..|]. intros q Hq. rewrite Hperm, elem_of_cons. split; [by right|]. intros [->|?]; [congruence|done].
Qed.
Lemma find_remove h q h' : wf h -> wf h' -> NoDup (names_of h) -> pkgs_of h ≡ₚ q :: pkgs_of h' ->
  NoDup (names_of h') /\ name q ∉ names_of h' /\ forall n, pkghash_find h' n = if decide (n = name q) then Some None else pkghash_find h n.
Proof.
  intros Hw Hw' Hnd Hperm. pose proof Hnd as Hnd2. unfold names_of in Hnd2. rewrite Hperm in Hnd2. apply NoDup_cons in Hnd2 as [Hq Hnd'].
  split_and!; [done|done|]. intros n. case_decide as E.
  - subst n. by apply find_absent.
  - apply find_members; [done..|]. intros p Hp. rewrite Hperm, elem_of_cons. split; [|by right]. intros [->|?]; [congruence|done].
Qed.

(** ** A cache of three packages, two of which collide *)

Definition ex_zlib : pkg := mkpkg 1 (lit "zlib") (lit "1.0-1").
Definition ex_glibc : pkg := mkpkg 2 (lit "glibc") (lit "2.0-1").
Definition ex_foo : pkg := mkpkg 3 (lit "foo") (lit "3.0-1").

Definition add_all (l : list (positive * pkg)) (h : pkghash) : option pkghash :=
  foldr (fun x oh => h ← oh; r ← pkghash_add_pkg h x.2 true (Some x.1);
                     match r with Added h => Some h | AddFailed _ => None end) (Some h) l.
Definition ex_hash : pkghash :=
  match pkghash_create 0 with
  | Some h => default h (add_all [(1%positive, ex_zlib); (2%positive, ex_glibc); (3%positive, ex_foo)] h)
  | None => PkgHash ∅ [] 0 0 0
  end.

Lemma add_all_wf l h h' :
  wf h -> Forall (fun x => pkg_hashed x.2) l -> NoDup (l.*1 ++ (hlist h).*1) -> add_all l h = Some h' ->
  wf h' /\ (hlist h').*1 ≡ₚ l.*1 ++ (hlist h).*1.
Proof.
  intros Hw. revert h'. induction l as [|[a p] l IH]; simpl; intros h' Hf Hnd E.
  { by injection E as <-. }
  inversion Hf; subst. apply NoDup_cons in Hnd as [Ha Hnd].
  destruct (add_all l h) as [h1|]; simpl in E; [|done].
  destruct (IH h1) as [Hw1 Hp1]; [done|done|done|].
  destruct (add_correct h1 p true (Some a) Hw1) as (r & Er & Hr); [done| |].
  { intros ? [= <-]. by rewrite Hp1. }
  rewrite Er in E. simpl in E. destruct r as [|h2]; [done|]. injection E as <-.
  destruct Hr as [Hw2 _]. split; [done|].
  unfold pkghash_add_pkg in Er. destruct (if _ <=? _ then _ else _) as [[h3|]|] eqn:Erh in Er; simpl in Er; try done.
  destruct (get_hash_position _ _); simpl in Er; [|done]. injection Er as <-. simpl.
  rewrite KList.mmerge_perm, <- Permutation_cons_append. simpl. constructor. rewrite <- Hp1.
  destruct (limit h1 <=? entries h1); [|by injection Erh as <-].
  destruct (rehash_spec h1 Hw1) as [Eh|(h4 & Eh & _ & El & _)]; [congruence|].
  assert (h4 = h3) as <- by congruence. by rewrite El.
Qed.

Lemma ex_hash_wf : wf ex_hash.
Proof.
  unfold ex_hash. pose proof (create_spec 0 ltac:(lia)) as Hc.
  destruct (pkghash_create 0) as [h|] eqn:Eh; [|vm_compute in Eh; discriminate Eh].
  destruct Hc as (Hw & Hnil & _).
  destruct (add_all _ h) as [h'|] eqn:E; simpl; [|done].
  apply (add_all_wf _ _ _ Hw) in E; [by destruct E|repeat constructor|rewrite Hnil; by_decide].
Qed.

Lemma pkghash_find_witness : pkghash_find ex_hash (lit "zlib") = Some (Some ex_zlib).
Proof.
  destruct (pkghash_find_spec ex_hash (lit "zlib") ex_hash_wf) as (r & E & _).
  rewrite E. vm_compute in E. by injection E as <-.
Defined.

Lemma pkghash_add_witness :
  exists h, pkghash_add_pkg ex_hash (mkpkg 4 (lit "qux") (lit "1")) false (Some 4%positive) = Some (Added h) /\ wf h.
Proof.
  destruct (pkghash_add_spec ex_hash (mkpkg 4 (lit "qux") (lit "1")) false (Some 4%positive) ex_hash_wf) as (r & E & Hr);
    [reflexivity|intros ? [= <-]; by_decide|].
  destruct r as [h|h]; [vm_compute in E; discriminate E|]. exists h. destruct Hr as [Hr _]. auto.
Defined.

Lemma pkghash_remove_witness :
  exists h, pkghash_remove ex_hash ex_glibc = Some (h, Some ex_glibc) /\ wf h /\ sublist (pkgs_of h) (pkgs_of ex_hash).
Proof.
  destruct (pkghash_remove_spec ex_hash ex_glibc ex_hash_wf) as (h & d & E & Hw & Hd); [reflexivity|].
  assert (d = Some ex_glibc) as -> by (vm_compute in E; by injection E as _ <-).
  exists h. split_and!; [done|done|apply Hd].
Defined.

(** ** The interface the other components use *)

(** A well-formed cache; the loaders never store a name twice. *)
Record cache := Cache { cache_hash : pkghash; cache_wf : wf cache_hash }.

#[global] Instance hash_cache : PkgCache cache.
Proof.
  refine {| pc_list c := pkgs_of (cache_hash c);
            pc_find c n := default None (pkghash_find (cache_hash c) n) |}.
  - intros c. apply (cache_wf c).
  - intros [h H] n p E. simpl in *. destruct (find_correct h n H) as (r & E' & Hr). rewrite E' in E.
    simpl in E. by subst r.
  - intros [h H] n E. simpl in *. destruct (find_correct h n H) as (r & E' & Hr). rewrite E' in E.
    simpl in E. by subst r.
Defined.

End PkgHash.
