(* ===== verification/Deps.v ===== *)
(** * Dependencies ([src/lib/libkuzpkg/deps.c], first part)

    Parsing and printing of dependency strings, matching of packages and
    provisions against dependencies, the check of a set of packages for
    missing dependencies, and the reverse dependencies of [package.c]. *)

From S2P Require Import Prelude CStr Version KList Package.
Local Open Scope Z_scope.

Module Deps.

(** ** Dependency strings *)

(** The operator and where it starts: the three [memchr] tests of
    [klpm_dep_from_string] in their order, with the offset of the version. *)
Definition find_operator (depstring : cstr) (deplen : nat) : nat * depmod * option nat :=
  match memchr depstring "<" deplen with
  | Some ptr =>
      if decide (depstring !! S ptr = Some "="%char)
      then (ptr, MOD_LE, Some (ptr + 2)%nat) else (ptr, MOD_LT, Some (ptr + 1)%nat)
  | None =>
      match memchr depstring ">" deplen with
      | Some ptr =>
          if decide (depstring !! S ptr = Some "="%char)
          then (ptr, MOD_GE, Some (ptr + 2)%nat) else (ptr, MOD_GT, Some (ptr + 1)%nat)
      | None =>
          match memchr depstring "=" deplen with
          | Some ptr => (ptr, MOD_EQ, Some (ptr + 1)%nat)
          | None => (deplen, MOD_ANY, None)
          end
      end
  end.

(** [klpm_dep_from_string] of a non-NULL string, its allocations succeeding.
    [desc] is the offset both branches leave in the pointer of that name. *)
Definition dep_from_string (depstring : cstr) : depend :=
  let '(descr, desc) :=
    match strstr depstring (lit ": ") with
    | Some desc => (Some (drop (desc + 2) depstring), desc)
    | None => (None, length depstring)
    end in
  let deplen := desc in
  let '(ptr, mod_, version) := find_operator depstring deplen in
  let name := take ptr depstring in
  {| dep_name := name;
     dep_version := (fun v => take (desc - v) (drop v depstring)) <$> version;
     dep_desc := descr;
     dep_name_hash := hash_sdbm name;
     dep_mod := mod_ |}.

Definition operator_string (m : depmod) : cstr :=
  match m with
  | MOD_ANY => lit "" | MOD_GE => lit ">=" | MOD_LE => lit "<="
  | MOD_EQ => lit "=" | MOD_LT => lit "<" | MOD_GT => lit ">"
  end.

(** [klpm_dep_compute_string] *)
Definition dep_compute_string (dep : depend) : cstr :=
  let opr := operator_string (dep_mod dep) in
  let ver := match dep_mod dep, dep_version dep with
             | MOD_ANY, _ => lit "" | _, Some v => v | _, None => lit "" end in
  let '(desc_delim, desc) := match dep_desc dep with Some d => (lit ": ", d) | None => (lit "", lit "") end in
  dep_name dep ++ opr ++ ver ++ desc_delim ++ desc.

(** ** Matching *)

Definition dep_vercmp (version1 : option cstr) (m : depmod) (version2 : option cstr) : bool :=
  match m with
  | MOD_ANY => true
  | _ =>
      let cmp := Version.pkg_vercmp version1 version2 in
      match m with
      | MOD_EQ => cmp =? 0
      | MOD_GE => 0 <=? cmp
      | MOD_LE => cmp <=? 0
      | MOD_LT => cmp <? 0
      | MOD_GT => 0 <? cmp
      | MOD_ANY => true
      end
  end.

(** [_klpm_depcmp_literal] *)
Definition depcmp_literal (p : pkg) (dep : depend) : bool :=
  if negb (name_hash p =? dep_name_hash dep) || negb (strcmp (name p) (dep_name dep) =? 0)
  then false
  else dep_vercmp (Some (version p)) (dep_mod dep) (dep_version dep).

(** One round of the loop of [_klpm_depcmp_provides]. *)
Definition provision_satisfies (dep provision : depend) : bool :=
  if decide (dep_mod dep = MOD_ANY) then
    (dep_name_hash provision =? dep_name_hash dep) && (strcmp (dep_name provision) (dep_name dep) =? 0)
  else if decide (dep_mod provision = MOD_EQ) then
    (dep_name_hash provision =? dep_name_hash dep) && (strcmp (dep_name provision) (dep_name dep) =? 0)
      && dep_vercmp (dep_version provision) (dep_mod dep) (dep_version dep)
  else false.

(** [_klpm_depcmp_provides]: [for(i = provisions; i && !satisfy; ...)] *)
Fixpoint depcmp_provides (dep : depend) (provisions : list depend) : bool :=
  match provisions with
  | [] => false
  | provision :: rest => if provision_satisfies dep provision then true else depcmp_provides dep rest
  end.

Definition depcmp (p : pkg) (dep : depend) : bool :=
  depcmp_literal p dep || depcmp_provides dep (provides p).

(** [_klpm_pkg_depends_on]: does [pkg2] satisfy a dependency of [pkg1]? *)
Definition pkg_depends_on (pkg1 pkg2 : pkg) : bool := existsb (depcmp pkg2) (depends pkg1).

Definition find_dep_satisfier (pkgs : list pkg) (dep : depend) : option pkg :=
  find_first (fun p => depcmp p dep) pkgs.

(** [klpm_find_satisfier] *)
Definition find_satisfier (pkgs : list pkg) (depstring : option cstr) : option pkg :=
  match depstring with
  | None => None
  | Some s => find_dep_satisfier pkgs (dep_from_string s)
  end.

(** ** Missing dependencies *)

(** [klpm_depmissing_t] *)
Record depmissing := DepMissing {
  miss_target : cstr; miss_depend : depend; miss_causingpkg : option cstr
}.
Definition depmiss_new (target : cstr) (dep : depend) (causingpkg : option cstr) : depmissing :=
  DepMissing target (Package.dep_dup dep) causingpkg.

(** [depend->mod = KUZPKG_DEP_MOD_ANY] under [--nodeps], undone after use. *)
Definition relax (nodepversion : bool) (dep : depend) : depend :=
  if nodepversion
  then Depend (dep_name dep) (dep_version dep) (dep_desc dep) (dep_name_hash dep) MOD_ANY
  else dep.

Section CheckDeps.
(** [no_dep_version(handle)] and [handle->assumeinstalled]. *)
Variables (nodepversion : bool) (assumeinstalled : list depend).

(** The split of [pkglist] into [modified] and [dblist]. *)
Definition is_modified (rem upgrade : list pkg) (p : pkg) : bool :=
  match Package.pkg_find rem (name p), Package.pkg_find upgrade (name p) with
  | None, None => false | _, _ => true
  end.
Fixpoint split_modified (rem upgrade pkglist : list pkg) : list pkg * list pkg :=
  match pkglist with
  | [] => ([], [])
  | p :: rest =>
      let '(modified, dblist) := split_modified rem upgrade rest in
      if is_modified rem upgrade p then (p :: modified, dblist) else (modified, p :: dblist)
  end.

(** The three places a dependency is looked for. *)
Definition satisfied (upgrade dblist : list pkg) (dep : depend) : bool :=
  match find_dep_satisfier upgrade dep with
  | Some _ => true
  | None => match find_dep_satisfier dblist dep with
            | Some _ => true
            | None => depcmp_provides dep assumeinstalled
            end
  end.

Definition check_upgrade_dep (upgrade dblist : list pkg) (tp : pkg) (dep : depend) : list depmissing :=
  let dep := relax nodepversion dep in
  if satisfied upgrade dblist dep then [] else [depmiss_new (name tp) dep None].

Definition check_reverse_dep (upgrade dblist modified : list pkg) (lp : pkg) (dep : depend) : list depmissing :=
  let dep := relax nodepversion dep in
  match find_dep_satisfier modified dep with
  | None => []
  | Some causingpkg =>
      if satisfied upgrade dblist dep then [] else [depmiss_new (name lp) dep (Some (name causingpkg))]
  end.

(** [klpm_checkdeps] *)
Definition checkdeps (pkglist rem upgrade : list pkg) (reversedeps : bool) : list depmissing :=
  let '(modified, dblist) := split_modified rem upgrade pkglist in
  (tp ← upgrade; dep ← depends tp; check_upgrade_dep upgrade dblist tp dep) ++
  (if reversedeps then
     lp ← dblist; dep ← depends lp; check_reverse_dep upgrade dblist modified lp dep
   else []).
End CheckDeps.

(** ** Reverse dependencies ([package.c]) *)

(** [find_requiredby] over the packages of one database; [reqs] collects the
    names without repetition. *)
Definition add_req (reqs : list cstr) (n : cstr) : list cstr :=
  match KList.find_str reqs n with Some _ => reqs | None => reqs ++ [n] end.
Definition find_requiredby_pkg (p : pkg) (optional : bool) (reqs : list cstr) (cachepkg : pkg) : list cstr :=
  fold_left (fun reqs dep => if depcmp p dep then add_req reqs (name cachepkg) else reqs)
    (if optional then optdepends cachepkg else depends cachepkg) reqs.
Definition find_requiredby (p : pkg) (db : list pkg) (optional : bool) (reqs : list cstr) : list cstr :=
  fold_left (find_requiredby_pkg p optional) db reqs.

(** [compute_requiredby]; a database is the list of its cached packages, and
    [db_is_local] is the DB_STATUS_LOCAL bit of the package's own database. *)
Definition compute_requiredby (p : pkg) (db_is_local : bool) (own local : list pkg)
    (dbs_sync : list (list pkg)) (optional : bool) : list cstr :=
  if decide (origin p = FROM_FILE) then find_requiredby p local optional []
  else if db_is_local then find_requiredby p own optional []
  else KList.list_msort strcmp (fold_left (fun reqs db => find_requiredby p db optional reqs) dbs_sync []).

(** ** Round trips of dependency strings *)

Lemma take_at {A} (l : list A) i k x :
  l !! i = Some x -> (i < k)%nat -> take k l = take i l ++ x :: take (k - S i) (drop (S i) l).
Proof.
  revert i k. induction l as [|y l IH]; intros [|i] [|k]; simpl; intros Hi Hk; try done; try lia.
  - injection Hi as ->. by rewrite Nat.sub_0_r, drop_0.
  - f_equal. apply IH; [done|lia].
Qed.

(** The operator found lies before [deplen], and the three parts cover the
    string up to there. *)
Lemma find_operator_split s k ptr m v :
  (k <= length s)%nat -> s !! k <> Some "="%char -> find_operator s k = (ptr, m, v) ->
  take ptr s ++ operator_string m ++
    match m, (fun v => take (k - v) (drop v s)) <$> v with MOD_ANY, _ => lit "" | _, Some w => w | _, None => lit "" end
  = take k s.
Proof.
  intros Hk Hne. unfold find_operator.
  assert (forall c i, memchr s c k = Some i -> s !! S i = Some "="%char -> c <> "="%char ->
    take i s ++ [c; "="%char] ++ take (k - (i + 2)) (drop (i + 2) s) = take k s) as H2.
  { intros c i [Hi Hc]%memchr_Some He Hc'. assert (S i <> k) by (intros <-; done).
    rewrite (take_at s i k c) by done. rewrite (take_at (drop (S i) s) 0 _ "="%char); [|by rewrite lookup_drop, Nat.add_0_r|lia].
    cbn [take app]. rewrite drop_drop. replace (S i + 1)%nat with (i + 2)%nat by lia.
    replace (k - S i - 1)%nat with (k - (i + 2))%nat by lia. done. }
  assert (forall c i, memchr s c k = Some i ->
    take i s ++ [c] ++ take (k - (i + 1)) (drop (i + 1) s) = take k s) as H1.
  { intros c i [Hi Hc]%memchr_Some. rewrite (take_at s i k c) by done. simpl. repeat f_equal; lia. }
  destruct (memchr s "<" k) as [i|] eqn:E1.
  { case_decide; intros [= <- <- <-]; [by apply H2|by apply H1]. }
  destruct (memchr s ">" k) as [i|] eqn:E2.
  { case_decide; intros [= <- <- <-]; [by apply H2|by apply H1]. }
  destruct (memchr s "=" k) as [i|] eqn:E3; intros [= <- <- <-]; [by apply H1|]. simpl. by rewrite app_nil_r.
Qed.

(** Parsing loses nothing: printing the dependency [klpm_dep_from_string]
    reads from any string gives the string back, so its offsets never run
    past each other or past the string. *)
Theorem dep_parse_print s : dep_compute_string (dep_from_string s) = s.
Proof.
  unfold dep_from_string, dep_compute_string.
  destruct (strstr s (lit ": ")) as [k|] eqn:Es.
  - apply strstr_Some in Es as (u & v & -> & <-).
    destruct (find_operator _ (length u)) as [[ptr m] ver] eqn:E. cbn [dep_name dep_mod dep_version dep_desc].
    apply find_operator_split in E; [|rewrite length_app; lia|].
    2: { rewrite lookup_app_r by lia. rewrite Nat.sub_diag. done. }
    rewrite (app_assoc (operator_string m)), (app_assoc (take ptr _)). rewrite E, take_app_length.
    f_equal. rewrite drop_app_ge by lia. replace (length u + 2 - length u)%nat with 2%nat by lia. done.
  - destruct (find_operator s (length s)) as [[ptr m] ver] eqn:E. cbn [dep_name dep_mod dep_version dep_desc].
    apply find_operator_split in E; [|lia|by rewrite lookup_ge_None_2 by lia].
    rewrite app_nil_r. by rewrite E, firstn_all.
Qed.

(** The dependencies that survive printing: no operator character in the name
    (nor, in the version, one the parser looks for before), no description
    delimiter before the description, and a version exactly when there is an
    operator. *)
Definition dep_printable (d : depend) : Prop :=
  dep_hashed d /\
  "<"%char ∉ dep_name d /\ ">"%char ∉ dep_name d /\ "="%char ∉ dep_name d /\
  strstr (dep_name d ++ operator_string (dep_mod d) ++ default [] (dep_version d)) (lit ": ") = None /\
  match dep_mod d, dep_version d with
  | MOD_ANY, None => True
  | MOD_EQ, Some v => "<"%char ∉ v /\ ">"%char ∉ v
  | MOD_GE, Some v => "<"%char ∉ v
  | MOD_GT, Some v => "<"%char ∉ v /\ head v <> Some "="%char
  | MOD_LE, Some v => True
  | MOD_LT, Some v => head v <> Some "="%char
  | _, _ => False
  end.
#[global] Instance dep_printable_dec d : Decision (dep_printable d).
Proof. unfold dep_printable. destruct (dep_mod d), (dep_version d); apply _. Defined.

Lemma strstr_cons x s n :
  strstr (x :: s) n = if is_prefix n (x :: s) then Some 0%nat else S <$> strstr s n.
Proof. done. Qed.

(** The first description delimiter is the one after a clean prefix. *)
Lemma strstr_delim u v : strstr u (lit ": ") = None -> strstr (u ++ lit ": " ++ v) (lit ": ") = Some (length u).
Proof.
  induction u as [|x u IH]; intros H; [by destruct v|].
  rewrite strstr_cons in H. destruct (is_prefix (lit ": ") (x :: u)) eqn:E; [done|].
  apply fmap_None in H. rewrite <- app_comm_cons, strstr_cons.
  assert (is_prefix (lit ": ") (x :: u ++ lit ": " ++ v) = false) as ->; [|by rewrite IH].
  destruct u as [|y u]; [|done]. simpl. by rewrite andb_false_r.
Qed.

(** Where the operator of a printed dependency is found. *)
Lemma find_operator_print n m v suf :
  "<"%char ∉ n -> ">"%char ∉ n -> "="%char ∉ n ->
  (match m, v with
   | MOD_ANY, None => True
   | MOD_EQ, Some v => "<"%char ∉ v /\ ">"%char ∉ v
   | MOD_GE, Some v => "<"%char ∉ v
   | MOD_GT, Some v => "<"%char ∉ v /\ head v <> Some "="%char
   | MOD_LE, Some v => True
   | MOD_LT, Some v => head v <> Some "="%char
   | _, _ => False
   end) ->
  head suf <> Some "="%char ->
  let pre := n ++ operator_string m ++ default [] v in
  find_operator (pre ++ suf) (length pre) =
    (length n, m, match m with MOD_ANY => None | _ => Some (length n + length (operator_string m))%nat end).
Proof.
  intros H1 H2 H3 Hv Hs pre. unfold find_operator.
  assert (forall c, c ∉ pre -> memchr (pre ++ suf) c (length pre) = None) as HN.
  { intros c Hc. apply memchr_None. by rewrite take_app_length. }
  assert (forall c r, operator_string m ++ default [] v = c :: r -> c ∉ n ->
    memchr (pre ++ suf) c (length pre) = Some (length n) /\ (pre ++ suf) !! S (length n) = head (r ++ suf)) as HS.
  { intros c r E Hc. unfold pre. rewrite E, <- app_assoc. simpl. split.
    - apply memchr_app; [done|]. rewrite length_app. simpl. lia.
    - rewrite lookup_app_r by lia. replace (S (length n) - length n)%nat with 1%nat by lia.
      simpl. by destruct (r ++ suf). }
  assert (forall w, head w <> Some "="%char -> head (w ++ suf) <> Some "="%char) as Hh by (by intros []).
  destruct m, v as [v|]; try done; simpl in HS.
  - rewrite !HN by (unfold pre; simpl; set_solver). unfold pre. simpl. by rewrite app_nil_r.
  - destruct (HS "="%char v) as [-> _]; [done..|]. rewrite !HN by (unfold pre; simpl; set_solver). done.
  - destruct (HS ">"%char ("="%char :: v)) as [-> ->]; [done..|]. rewrite HN by (unfold pre; simpl; set_solver).
    by rewrite decide_True.
  - destruct (HS "<"%char ("="%char :: v)) as [-> ->]; [done..|]. by rewrite decide_True.
  - destruct (HS ">"%char v) as [-> ->]; [done..|]. rewrite HN by (unfold pre; simpl; set_solver).
    rewrite decide_False by (apply Hh, Hv). done.
  - destruct (HS "<"%char v) as [-> ->]; [done..|]. by rewrite decide_False by auto.
Qed.

Lemma dep_read_back d : dep_printable d -> dep_from_string (dep_compute_string d) = d.
Proof.
  intros H. destruct d as [n ver de h m]. destruct H as (Hh & H1 & H2 & H3 & Hs & Hv).
  unfold dep_hashed in Hh. cbn [dep_name dep_mod dep_version dep_desc dep_name_hash] in *. unfold dep_compute_string, dep_from_string.
  cbn [dep_name dep_mod dep_version dep_desc].
  assert (match m with MOD_ANY => lit "" | _ => match ver with Some v => v | None => lit "" end end = default [] ver) as ->
    by (by destruct m, ver).
  set (pre := n ++ operator_string m ++ default [] ver) in *.
  assert (take (length n) (pre) = n) as Hn by (unfold pre; by rewrite take_app_length).
  assert ((fun v => take (length pre - v) (drop v pre)) <$>
    match m with MOD_ANY => None | _ => Some (length n + length (operator_string m))%nat end = ver) as Hver.
  { assert (take (length pre - (length n + length (operator_string m)))
      (drop (length n + length (operator_string m)) pre) = default [] ver) as E.
    { unfold pre. rewrite app_assoc, <- length_app, drop_app_length. apply take_ge. rewrite !length_app. lia. }
    destruct m, ver as [v|]; try done; cbn [fmap option_fmap option_map]; f_equal; exact E. }
  destruct de as [de|].
  - replace (n ++ operator_string m ++ default [] ver ++ lit ": " ++ de) with (pre ++ lit ": " ++ de)
      by (unfold pre; by rewrite <- !app_assoc).
    rewrite strstr_delim by done.
    pose proof (find_operator_print n m ver (lit ": " ++ de) H1 H2 H3 Hv ltac:(done)) as EO.
    cbv zeta in EO. fold pre in EO. rewrite EO. cbn.
    rewrite take_app_le by (unfold pre; rewrite length_app; lia). rewrite Hn, <- Hh.
    f_equal.
    + etrans; [|exact Hver]. clear Hver. destruct m; try done; cbn [fmap option_fmap option_map]; f_equal;
        rewrite drop_app_le by (unfold pre; rewrite !length_app; lia);
        rewrite take_app_le by (rewrite length_drop; lia); done.
    + f_equal. rewrite drop_app_ge by lia. replace (length pre + 2 - length pre)%nat with 2%nat by lia. done.
  - replace (n ++ operator_string m ++ default [] ver ++ lit "" ++ lit "") with (pre ++ [])
      by (unfold pre; by rewrite <- !app_assoc).
    rewrite app_nil_r, Hs.
    pose proof (find_operator_print n m ver [] H1 H2 H3 Hv ltac:(done)) as EO.
    cbv zeta in EO. fold pre in EO. rewrite app_nil_r in EO. rewrite EO. cbn. by rewrite Hn, Hver, <- Hh.
Qed.

(** Printing loses nothing either: every printable dependency, with or
    without version and description, is read back from its string unchanged,
    hash included. *)
Theorem dep_print_parse d (H : dep_printable d) : dep_from_string (dep_compute_string d) = d.
Proof. by apply dep_read_back. Qed.

Definition ex_dep : depend :=
  Depend (lit "foo") (Some (lit "1:2.0-3")) (Some (lit "for: bar")) (hash_sdbm (lit "foo")) MOD_GE.
Lemma dep_print_parse_witness : dep_from_string (lit "foo>=1:2.0-3: for: bar") = ex_dep.
Proof. apply (dep_print_parse ex_dep). by_decide. Defined.

(** ** Matching *)

Lemma depcmp_provides_exists dep l : depcmp_provides dep l = true <-> exists q, q ∈ l /\ provision_satisfies dep q = true.
Proof.
  induction l as [|q l IH]; simpl; [split; [done|intros (? & ?%elem_of_nil & _); done]|].
  destruct (provision_satisfies dep q) eqn:E.
  - split; [intros _; exists q; set_solver|done].
  - rewrite IH. split; [intros (r & ? & ?); exists r; set_solver|].
    intros (r & Hr & ?). apply elem_of_cons in Hr as [->|]; [congruence|eauto].
Qed.

Lemma name_match (h1 h2 : Z) (n1 n2 : cstr) :
  h1 = hash_sdbm n1 -> h2 = hash_sdbm n2 -> (h1 =? h2) && (strcmp n1 n2 =? 0) = true <-> n1 = n2.
Proof.
  intros -> ->. rewrite andb_true_iff, !Z.eqb_eq, strcmp_eq. split; [tauto|]. by intros ->.
Qed.

Lemma depcmp_literal_spec p d : pkg_hashed p -> dep_hashed d ->
  depcmp_literal p d = true <->
  name p = dep_name d /\ dep_vercmp (Some (version p)) (dep_mod d) (dep_version d) = true.
Proof.
  intros Hp Hd. unfold depcmp_literal. rewrite <- negb_andb. pose proof (name_match _ _ _ _ Hp Hd) as Hn.
  destruct (_ && _); simpl; [tauto|]. split; [done|]. intros [E _]. by apply Hn in E.
Qed.

Lemma provision_satisfies_spec d q : dep_hashed q -> dep_hashed d ->
  provision_satisfies d q = true <->
  dep_name q = dep_name d /\
    (dep_mod d = MOD_ANY \/ dep_mod q = MOD_EQ /\ dep_vercmp (dep_version q) (dep_mod d) (dep_version d) = true).
Proof.
  intros Hq Hd. unfold provision_satisfies. pose proof (name_match _ _ _ _ Hq Hd) as Hn.
  repeat case_decide; rewrite ?andb_true_iff in *; naive_solver.
Qed.

(** A package satisfies a dependency exactly when its own name and version
    match, or one of its provisions has the name and, if the dependency is
    versioned, is itself versioned with [=] and in range: an unversioned
    provision never satisfies a versioned dependency. *)
Theorem depcmp_spec p d (Hp : pkg_hashed p) (Hd : dep_hashed d) (Hq : Forall dep_hashed (provides p)) :
  depcmp p d = true <->
  (name p = dep_name d /\ dep_vercmp (Some (version p)) (dep_mod d) (dep_version d) = true) \/
  (exists q, q ∈ provides p /\ dep_name q = dep_name d /\
     (dep_mod d = MOD_ANY \/ dep_mod q = MOD_EQ /\ dep_vercmp (dep_version q) (dep_mod d) (dep_version d) = true)).
Proof.
  unfold depcmp. rewrite orb_true_iff, depcmp_provides_exists, depcmp_literal_spec by done.
  rewrite Forall_forall in Hq. split; (intros [?|(q & Hin & H)]; [by left|right; exists q; split; [done|]]).
  - by apply provision_satisfies_spec in H; auto.
  - by apply provision_satisfies_spec; auto.
Qed.

(** ** Missing dependencies *)

Lemma split_modified_eq rem upgrade l :
  split_modified rem upgrade l = (List.filter (is_modified rem upgrade) l, List.filter (fun p => negb (is_modified rem upgrade p)) l).
Proof.
  induction l as [|p l IH]; simpl; [done|]. rewrite IH. by destruct (is_modified rem upgrade p).
Qed.

(** The packages that stay untouched. *)
Definition untouched (rem upgrade pkglist : list pkg) : list pkg :=
  List.filter (fun p => negb (is_modified rem upgrade p)) pkglist.

Lemma elem_of_untouched rem upgrade l p : p ∈ untouched rem upgrade l <-> p ∈ l /\ is_modified rem upgrade p = false.
Proof. unfold untouched. rewrite !list_elem_of_In, filter_In, negb_true_iff. done. Qed.

Lemma find_dep_satisfier_spec l d : is_Some (find_dep_satisfier l d) <-> exists p, p ∈ l /\ depcmp p d = true.
Proof. apply find_first_is_Some. Qed.

Section Consistency.
Context (nodepversion : bool) (assumed : list depend).

Lemma satisfied_spec u l d :
  satisfied assumed u l d = true <->
  (exists p, p ∈ l ++ u /\ depcmp p d = true) \/ depcmp_provides d assumed = true.
Proof.
  unfold satisfied. pose proof (find_dep_satisfier_spec u d) as Hu. pose proof (find_dep_satisfier_spec l d) as Hl.
  setoid_rewrite elem_of_app.
  destruct (find_dep_satisfier u d) as [c|].
  { destruct Hu as [(p & ? & ?) _]; [eauto|]. split; [|done]. intros _. left. eauto. }
  destruct (find_dep_satisfier l d) as [c|].
  { destruct Hl as [(p & ? & ?) _]; [eauto|]. split; [|done]. intros _. left. eauto. }
  split; [by right|]. intros [(p & [Hp|Hp] & E)|?]; [| |done].
  - destruct Hl as [_ [? ?]]; [eauto|done].
  - destruct Hu as [_ [? ?]]; [eauto|done].
Qed.

(** Every dependency of the system is satisfied inside it or assumed. *)
Definition consistent (sys : list pkg) : Prop :=
  forall p d, p ∈ sys -> d ∈ depends p ->
    (exists q, q ∈ sys /\ depcmp q (relax nodepversion d) = true) \/
    depcmp_provides (relax nodepversion d) assumed = true.

Lemma bind_nil {A B} (f : A -> list B) l : (l ≫= f) = [] <-> forall x, x ∈ l -> f x = [].
Proof.
  induction l as [|x l IH]; simpl; [split; [intros _ ? ?%elem_of_nil; done|done]|].
  split.
  - intros [H1 H2]%app_eq_nil y [->|Hy]%elem_of_cons; [done|]. by apply IH.
  - intros H. rewrite (H x) by set_solver. simpl. apply IH. intros y Hy. apply H. set_solver.
Qed.

Lemma checkdeps_nil l rem u :
  checkdeps nodepversion assumed l rem u true = [] <->
  (forall p d, p ∈ u -> d ∈ depends p ->
     satisfied assumed u (untouched rem u l) (relax nodepversion d) = true) /\
  (forall p d, p ∈ untouched rem u l -> d ∈ depends p ->
     (exists q, q ∈ l /\ is_modified rem u q = true /\ depcmp q (relax nodepversion d) = true) ->
     satisfied assumed u (untouched rem u l) (relax nodepversion d) = true).
Proof.
  unfold checkdeps. rewrite split_modified_eq. fold (untouched rem u l).
  rewrite app_nil, !bind_nil. split; intros [H1 H2]; split.
  - intros p d Hp Hd. specialize (H1 p Hp). rewrite bind_nil in H1. specialize (H1 d Hd).
    unfold check_upgrade_dep in H1. by destruct (satisfied _ _ _ _).
  - intros p d Hp Hd (q & Hq & Hm & Hc). specialize (H2 p Hp). rewrite bind_nil in H2. specialize (H2 d Hd).
    unfold check_reverse_dep in H2.
    destruct (find_dep_satisfier_spec (List.filter (is_modified rem u) l) (relax nodepversion d)) as [_ [c Ec]].
    { exists q. rewrite list_elem_of_In, filter_In, <- list_elem_of_In. done. }
    rewrite Ec in H2. by destruct (satisfied _ _ _ _).
  - intros p Hp. apply bind_nil. intros d Hd. unfold check_upgrade_dep. by rewrite (H1 p d).
  - intros p Hp. apply bind_nil. intros d Hd. unfold check_reverse_dep.
    destruct (find_dep_satisfier _ _) as [c|] eqn:E; [|done]. rewrite (H2 p d); [done|done|done|].
    apply find_first_Some in E as [Hc E]. exists c. rewrite list_elem_of_In, filter_In, <- list_elem_of_In in Hc. tauto.
Qed.

Lemma checkdeps_keeps l rem u :
  consistent l ->
  checkdeps nodepversion assumed l rem u true = [] <-> consistent (untouched rem u l ++ u).
Proof.
  intros H. rewrite checkdeps_nil. split.
  - intros [H1 H2] p d [Hp|Hp]%elem_of_app Hd.
    + destruct (H p d) as [(q & Hq & Hc)|?]; [by apply elem_of_untouched in Hp as [? _]|done| |by right].
      destruct (is_modified rem u q) eqn:Em.
      * apply satisfied_spec. eauto.
      * left. exists q. rewrite elem_of_app, elem_of_untouched. auto.
    + apply satisfied_spec. eauto.
  - intros Hc. split; intros p d Hp Hd; [|intros _]; apply satisfied_spec; apply (Hc p d); set_solver.
Qed.

(** C34: on a consistent system, [klpm_checkdeps] with reverse dependencies
    returns the empty list exactly when the system the transaction leaves
    (the untouched packages and the upgraded ones) is consistent again. *)
Theorem checkdeps_consistent l rem u (H : consistent l) :
  checkdeps nodepversion assumed l rem u true = [] <-> consistent (untouched rem u l ++ u).
Proof. by apply checkdeps_keeps. Qed.
End Consistency.

Definition ex_a : pkg := with_depends (mkpkg 1 (lit "a") (lit "1-1")) [dep_from_string (lit "b>=1")].
Definition ex_b : pkg := mkpkg 2 (lit "b") (lit "1-1").
Lemma ex_consistent : consistent false [] [ex_a; ex_b].
Proof.
  intros p d Hp Hd. left. exists ex_b. split; [set_solver|].
  apply elem_of_cons in Hp as [->|Hp]; [|apply elem_of_cons in Hp as [->|Hp]; [|set_solver]].
  - apply list_elem_of_singleton in Hd as ->. reflexivity.
  - by apply elem_of_nil in Hd.
Qed.
Lemma checkdeps_consistent_witness :
  ~ consistent false [] (untouched [ex_b] [] [ex_a; ex_b] ++ []).
Proof.
  rewrite <- (checkdeps_consistent false [] [ex_a; ex_b] [ex_b] [] ex_consistent). vm_compute. discriminate.
Defined.

Lemma depcmp_spec_witness : depcmp ex_b (dep_from_string (lit "b>=1")) = true.
Proof.
  apply (depcmp_spec ex_b (dep_from_string (lit "b>=1"))); [reflexivity|reflexivity|constructor|].
  left. split; reflexivity.
Defined.

(** ** Reverse dependencies *)

Lemma add_req_spec reqs n m : m ∈ add_req reqs n <-> m ∈ reqs \/ m = n.
Proof.
  unfold add_req. destruct (KList.find_str reqs n) as [x|] eqn:E; [|set_solver].
  apply find_first_Some in E as [Hx E]. bool_hyps. apply strcmp_eq in E as ->. set_solver.
Qed.

Lemma add_req_NoDup reqs n : NoDup reqs -> NoDup (add_req reqs n).
Proof.
  intros H. unfold add_req. destruct (KList.find_str reqs n) as [x|] eqn:E; [done|].
  apply NoDup_app. split_and!; [done| |apply NoDup_singleton].
  intros x Hx ->%list_elem_of_singleton.
  unfold KList.find_str, KList.find in E. rewrite find_first_None in E. specialize (E n Hx).
  by rewrite strcmp_refl in E.
Qed.

Lemma requiredby_pkg_spec p o reqs c m :
  m ∈ find_requiredby_pkg p o reqs c <->
  m ∈ reqs \/ m = name c /\ exists d, d ∈ (if o then optdepends c else depends c) /\ depcmp p d = true.
Proof.
  unfold find_requiredby_pkg. generalize (if o then optdepends c else depends c). intros l.
  revert reqs. induction l as [|d l IH]; intros reqs; simpl; [set_solver|]. rewrite IH.
  destruct (depcmp p d) eqn:E.
  - rewrite add_req_spec. split; [|naive_solver set_solver].
    intros [[?|?]|[? (d' & ? & ?)]]; [by left|right; split; [done|exists d; set_solver]|right; split; [done|exists d'; set_solver]].
  - split; [naive_solver set_solver|]. intros [?|[? (d' & Hd & ?)]]; [by left|].
    apply elem_of_cons in Hd as [->|]; [congruence|]. right. eauto.
Qed.

Lemma requiredby_pkg_NoDup p o reqs c : NoDup reqs -> NoDup (find_requiredby_pkg p o reqs c).
Proof.
  unfold find_requiredby_pkg. generalize (if o then optdepends c else depends c). intros l.
  revert reqs. induction l as [|d l IH]; intros reqs H; simpl; [done|]. apply IH.
  destruct (depcmp p d); [by apply add_req_NoDup|done].
Qed.

(** [find_requiredby] adds to its result exactly the names of the packages
    of the database that have a dependency (or optional dependency) the given
    package satisfies, each once. *)
Theorem find_requiredby_spec p db o reqs (H : NoDup reqs) :
  NoDup (find_requiredby p db o reqs) /\
  forall m, m ∈ find_requiredby p db o reqs <->
    m ∈ reqs \/ exists c, c ∈ db /\ m = name c /\
      exists d, d ∈ (if o then optdepends c else depends c) /\ depcmp p d = true.
Proof.
  unfold find_requiredby. revert reqs H. induction db as [|c db IH]; intros reqs H; simpl.
  { split; [done|]. set_solver. }
  destruct (IH _ (requiredby_pkg_NoDup p o reqs c H)) as [Hn Hm]. split; [done|].
  intros m. rewrite Hm, requiredby_pkg_spec. split.
  - intros [[?|[? (d & ? & ?)]]|(c' & ? & ? & d & ? & ?)]; [by left|right; exists c; set_solver|right; exists c'; set_solver].
  - intros [?|(c' & Hc & ? & d & ? & ?)]; [by left; left|]. apply elem_of_cons in Hc as [->|]; [left; right; eauto|right; eauto 10].
Qed.

Lemma find_requiredby_witness : lit "a" ∈ find_requiredby ex_b [ex_a; ex_b] false [].
Proof.
  apply (find_requiredby_spec ex_b [ex_a; ex_b] false []); [constructor|]. right. exists ex_a.
  split_and!; [by_decide|reflexivity|]. exists (dep_from_string (lit "b>=1")). split; [by_decide|reflexivity].
Defined.

End Deps.
