(* ===== verification/SortDeps.v ===== *)
(** * Ordering packages by their dependencies ([deps.c]: [dep_graph_init],
      [_klpm_sortbydeps]; [graph.c])

    The depth-first search without recursion: vertices carry a state, the
    children still to visit ([iterator]) and the vertex they were entered from
    ([parent]).  A [klpm_graph_t *] is its position in the list of vertices.
    Both loops carry fuel; the theorems show that the fuel the definitions use
    is always enough. *)

From S2P Require Import Prelude CStr KList Package Deps.

Module SortDeps.

(** [enum _klpm_graph_vertex_state] and [klpm_graph_t] *)
Inductive vstate := UNPROCESSED | PROCESSING | PROCESSED.
#[global] Instance vstate_eq_dec : EqDecision vstate.
Proof. solve_decision. Defined.

Record vertex := Vertex {
  v_data : pkg;
  v_parent : option nat;
  v_children : list nat;
  v_iterator : list nat;
  v_state : vstate
}.

(** [_klpm_graph_new] and the assignment of [data] *)
Definition graph_new (p : pkg) : vertex := Vertex p None [] [] UNPROCESSED.

Definition set_children (c : list nat) (v : vertex) : vertex := Vertex (v_data v) (v_parent v) c c (v_state v).
Definition set_state (s : vstate) (v : vertex) : vertex := Vertex (v_data v) (v_parent v) (v_children v) (v_iterator v) s.
Definition set_iterator (it : list nat) (v : vertex) : vertex := Vertex (v_data v) (v_parent v) (v_children v) it (v_state v).
Definition set_parent (u : nat) (v : vertex) : vertex := Vertex (v_data v) (Some u) (v_children v) (v_iterator v) (v_state v).

(** ** dep_graph_init *)

(** The inner loop over the vertices: positions of those [p] depends on. *)
Fixpoint edges_from (p : pkg) (vs : list vertex) (j : nat) : list nat :=
  match vs with
  | [] => []
  | v :: vs' => if Deps.pkg_depends_on p (v_data v) then j :: edges_from p vs' (S j) else edges_from p vs' (S j)
  end.

(** The loop over [localpkgs]: those taken into the graph and those left. *)
Fixpoint take_local (p : pkg) (localpkgs : list pkg) : list pkg * list pkg :=
  match localpkgs with
  | [] => ([], [])
  | l :: rest =>
      let '(taken, others) := take_local p rest in
      if Deps.pkg_depends_on p l then (l :: taken, others) else (taken, l :: others)
  end.

(** [for(i = vertices; i; i = i->next)], the list growing at its end. *)
Fixpoint graph_loop (fuel i : nat) (vs : list vertex) (localpkgs : list pkg) : option (list vertex) :=
  match vs !! i with
  | None => Some vs
  | Some v =>
      match fuel with
      | O => None
      | S fuel =>
          let children := edges_from (v_data v) vs 0 in
          let '(taken, others) := take_local (v_data v) localpkgs in
          let children := children ++ seq (length vs) (length taken) in
          graph_loop fuel (S i) (alter (set_children children) i vs ++ (graph_new <$> taken)) others
      end
  end.

Definition graph_locals (local targets ignore : list pkg) : list pkg :=
  let localpkgs := KList.diff Package.pkg_cmp local targets in
  match ignore with [] => localpkgs | _ => KList.diff Package.pkg_cmp localpkgs ignore end.

Definition dep_graph_init (local targets ignore : list pkg) : option (list vertex) :=
  let localpkgs := graph_locals local targets ignore in
  graph_loop (length targets + length localpkgs) 0 (graph_new <$> targets) localpkgs.

(** ** _klpm_sortbydeps *)

(** [while(vertex->iterator && !switched_to_child)]: the first unprocessed
    child and the rest of the iterator (a child being processed is only
    reported to the log). *)
Fixpoint next_child (vs : list vertex) (iterator : list nat) : option nat * list nat :=
  match iterator with
  | [] => (None, [])
  | c :: iterator' =>
      if decide (v_state <$> vs !! c = Some UNPROCESSED) then (Some c, iterator') else next_child vs iterator'
  end.

(** [for(i = i->next; i; i = i->next)] to the next unprocessed vertex. *)
Definition next_root (vs : list vertex) (i : nat) : option nat :=
  find_first (fun k => bool_decide (v_state <$> vs !! k = Some UNPROCESSED)) (seq (S i) (length vs - S i)).

Section Sort.
Variable targets : list pkg.

(** [while(i)]; [v] is the position of [vertex]. *)
Fixpoint sort_loop (fuel : nat) (vs : list vertex) (i v : nat) (newtargs : list pkg) : option (list pkg) :=
  match fuel with
  | O => None
  | S fuel =>
      let vs := alter (set_state PROCESSING) v vs in
      vertex ← vs !! v;
      match next_child vs (v_iterator vertex) with
      | (Some nextchild, iterator) =>
          let vs := alter (set_iterator iterator) v vs in
          let vs := alter (set_parent v) nextchild vs in
          sort_loop fuel vs i nextchild newtargs
      | (None, iterator) =>
          let vs := alter (set_iterator iterator) v vs in
          let newtargs := match KList.find_ptr targets (v_data vertex) with
                          | Some _ => newtargs ++ [v_data vertex] | None => newtargs end in
          let vs := alter (set_state PROCESSED) v vs in
          match v_parent vertex with
          | Some u => sort_loop fuel vs i u newtargs
          | None =>
              match next_root vs i with
              | Some i => sort_loop fuel vs i i newtargs
              | None => Some newtargs
              end
          end
      end
  end.
End Sort.

Definition sortbydeps (local targets ignore : list pkg) (rev : bool) : option (list pkg) :=
  match targets with
  | [] => Some []
  | _ =>
      vertices ← dep_graph_init local targets ignore;
      newtargs ← sort_loop targets (2 * length vertices) vertices 0 0 [];
      Some (if rev then reverse newtargs else newtargs)
  end.

(** ** The graph *)

Lemma elem_of_edges_from p vs j k :
  k ∈ edges_from p vs j <-> exists v, vs !! (k - j) = Some v /\ j <= k /\ Deps.pkg_depends_on p (v_data v) = true.
Proof.
  revert j. induction vs as [|v vs IH]; intros j; simpl.
  { split; [intros ?%elem_of_nil; done|intros (? & ? & _); done]. }
  assert (k ∈ edges_from p vs (S j) <->
    exists w, (v :: vs) !! (k - j) = Some w /\ S j <= k /\ Deps.pkg_depends_on p (v_data w) = true) as IH'.
  { rewrite IH. split; intros (w & Hw & Hk & Hd); exists w; (split_and!; [|lia|done]).
    - by replace (k - j) with (S (k - S j)) by lia.
    - by replace (k - j) with (S (k - S j)) in Hw by lia. }
  destruct (Deps.pkg_depends_on p (v_data v)) eqn:E.
  - rewrite elem_of_cons, IH'. split.
    + intros [->|(w & ? & ? & ?)]; [|exists w; split_and!; [done|lia|done]].
      exists v. rewrite Nat.sub_diag. split_and!; [done|lia|done].
    + intros (w & Hw & Hk & Hd). destruct (decide (k = j)) as [->|]; [by left|right].
      exists w. split_and!; [done|lia|done].
  - rewrite IH'. split; intros (w & Hw & Hk & Hd); exists w; (split_and!; [done|try lia|done]).
    destruct (decide (k = j)) as [->|]; [|lia]. rewrite Nat.sub_diag in Hw. injection Hw as <-. congruence.
Qed.

Lemma take_local_spec p l taken others :
  take_local p l = (taken, others) ->
  taken ++ others ≡ₚ l /\ Forall (fun q => Deps.pkg_depends_on p q = true) taken /\
  Forall (fun q => Deps.pkg_depends_on p q = false) others.
Proof.
  revert taken others. induction l as [|q l IH]; simpl; intros taken others.
  { intros [= <- <-]. split_and!; constructor. }
  destruct (take_local p l) as [t r]. destruct (IH t r eq_refl) as (Hp & Ht & Hl).
  destruct (Deps.pkg_depends_on p q) eqn:E; intros [= <- <-]; split_and!; try done; try by constructor.
  by rewrite <- Permutation_middle, Hp.
Qed.

(** Every vertex with its edges complete: what the loop leaves behind. *)
Record graph_ok (vs : list vertex) : Prop := {
  g_edges a va b : vs !! a = Some va ->
    b ∈ v_children va <-> exists vb, vs !! b = Some vb /\ Deps.pkg_depends_on (v_data va) (v_data vb) = true;
  g_fresh a va : vs !! a = Some va ->
    v_state va = UNPROCESSED /\ v_parent va = None /\ v_iterator va = v_children va
}.

(** The invariant of the loop at vertex [i]. *)
Record loop_ok (i : nat) (vs : list vertex) (locals : list pkg) : Prop := {
  l_edges a va b : a < i -> vs !! a = Some va ->
    b ∈ v_children va <-> exists vb, vs !! b = Some vb /\ Deps.pkg_depends_on (v_data va) (v_data vb) = true;
  l_fresh a va : vs !! a = Some va ->
    v_state va = UNPROCESSED /\ v_parent va = None /\ v_iterator va = v_children va;
  l_locals a va q : a < i -> vs !! a = Some va -> q ∈ locals -> Deps.pkg_depends_on (v_data va) q = false
}.

(** The vertices after one round of the loop. *)
Lemma round_lookup (vs : list vertex) i v c (taken : list pkg) a va :
  vs !! i = Some v ->
  (alter (set_children c) i vs ++ (graph_new <$> taken)) !! a = Some va <->
  (a = i /\ va = set_children c v) \/ (a <> i /\ vs !! a = Some va) \/
  (length vs <= a /\ exists q, taken !! (a - length vs) = Some q /\ va = graph_new q).
Proof.
  intros Hi. pose proof (lookup_lt_Some _ _ _ Hi) as Hlt. destruct (decide (a < length vs)) as [Ha|Ha].
  - rewrite lookup_app_l by (by rewrite length_alter). destruct (decide (a = i)) as [->|Hne].
    + rewrite list_lookup_alter_eq, Hi. simpl. split; [intros [= <-]; by left|].
      intros [[_ ->]|[[? _]|[? _]]]; [done|done|lia].
    + rewrite list_lookup_alter_ne by done. split; [by right; left|].
      intros [[? _]|[[_ ?]|[? _]]]; [done|done|lia].
  - rewrite lookup_app_r by (rewrite length_alter; lia). rewrite length_alter, list_lookup_fmap, fmap_Some.
    split; [intros (q & ? & ->); right; right; split; [lia|eauto]|].
    intros [[-> _]|[[_ Hv]|(_ & q & ? & ->)]]; [lia| |eauto].
    apply lookup_lt_Some in Hv. lia.
Qed.

Lemma round_ok i vs locals v taken others :
  loop_ok i vs locals -> vs !! i = Some v -> take_local (v_data v) locals = (taken, others) ->
  loop_ok (S i)
    (alter (set_children (edges_from (v_data v) vs 0 ++ seq (length vs) (length taken))) i vs ++ (graph_new <$> taken))
    others.
Proof.
  intros [He Hf Hl] Hi Ht. destruct (take_local_spec _ _ _ _ Ht) as (Hp & HT & HO).
  rewrite Forall_forall in HT, HO. set (c := edges_from _ _ _ ++ _).
  pose proof (fun a va => round_lookup vs i v c taken a va Hi) as Hr.
  assert (forall q, q ∈ others -> q ∈ locals) as Hothers by (intros q Hq; rewrite <- Hp; set_solver).
  assert (forall q, q ∈ taken -> q ∈ locals) as Htaken by (intros q Hq; rewrite <- Hp; set_solver).
  pose proof (lookup_lt_Some _ _ _ Hi) as Hlt.
  (* a vertex after the round, seen through its data *)
  assert (forall p b, (exists vb, (alter (set_children c) i vs ++ (graph_new <$> taken)) !! b = Some vb /\
      Deps.pkg_depends_on p (v_data vb) = true) <->
    (exists vb, vs !! b = Some vb /\ Deps.pkg_depends_on p (v_data vb) = true) \/
    (exists q, length vs <= b /\ taken !! (b - length vs) = Some q /\ Deps.pkg_depends_on p q = true)) as Hv.
  { intros p b. setoid_rewrite Hr. split.
    - intros (vb & [[-> ->]|[[? ?]|(? & q & ? & ->)]] & Hd); simpl in Hd; [left|left|right]; eauto.
    - intros [(vb & Hb & Hd)|(q & Hb & Hq & Hd)].
      + destruct (decide (b = i)) as [->|]; [|eauto 6]. exists (set_children c v). split; [by left|].
        rewrite Hi in Hb. by injection Hb as <-.
      + exists (graph_new q). split; [right; right; eauto|done]. }
  split.
  - intros a va b Ha Hva. rewrite Hv. apply Hr in Hva as [[-> ->]|[[Hne Hva]|(? & _)]]; [| |lia].
    + simpl. unfold c. rewrite elem_of_app, elem_of_edges_from, elem_of_seq. rewrite Nat.sub_0_r. split.
      * intros [(w & ? & _ & ?)|Hb]; [left; eauto|right].
        destruct (lookup_lt_is_Some_2 taken (b - length vs)) as [q Hq]; [lia|].
        exists q. split_and!; [lia|done|]. apply HT. by eapply list_elem_of_lookup_2.
      * intros [(w & ? & ?)|(q & ? & Hq & _)]; [left; exists w; split_and!; [done|lia|done]|right].
        apply lookup_lt_Some in Hq. lia.
    + rewrite (He a va b) by (done || lia). split; [by left|]. intros [?|(q & _ & Hq & Hd)]; [done|].
      rewrite (Hl a va q) in Hd; [done|lia|done|]. apply Htaken. by eapply list_elem_of_lookup_2.
  - intros a va Hva. apply Hr in Hva as [[-> ->]|[[Hne Hva]|(? & q & ? & ->)]]; [|by eapply Hf|done].
    destruct (Hf _ _ Hi) as (? & ? & _). done.
  - intros a va q Ha Hva Hq. apply Hr in Hva as [[-> ->]|[[Hne Hva]|(? & _)]]; [by apply HO| |lia].
    eapply (Hl a); [lia|done|auto].
Qed.

Lemma alter_data (f : vertex -> vertex) i (vs : list vertex) :
  (forall v, v_data (f v) = v_data v) -> v_data <$> alter f i vs = v_data <$> vs.
Proof.
  intros Hf. apply list_eq. intros k. rewrite !list_lookup_fmap, list_lookup_alter.
  case_decide; [subst; destruct (vs !! k); simpl; by rewrite ?Hf|done].
Qed.

Lemma graph_loop_spec fuel i vs locals :
  loop_ok i vs locals -> i <= length vs -> length vs + length locals <= fuel + i ->
  exists vs' taken others, graph_loop fuel i vs locals = Some vs' /\ graph_ok vs' /\
    v_data <$> vs' = (v_data <$> vs) ++ taken /\ taken ++ others ≡ₚ locals /\
    (forall a va q, vs' !! a = Some va -> q ∈ others -> Deps.pkg_depends_on (v_data va) q = false).
Proof.
  revert i vs locals. induction fuel as [|fuel IH]; intros i vs locals Hok Hi Hfuel; cbn [graph_loop].
  { rewrite lookup_ge_None_2 by lia. exists vs, [], locals. split_and!; [done| |by rewrite app_nil_r|done|].
    - split; [|apply Hok]. intros a va b Ha. apply (l_edges _ _ _ Hok a); [|done]. apply lookup_lt_Some in Ha. lia.
    - intros a va q Ha. apply (l_locals _ _ _ Hok a); [|done]. apply lookup_lt_Some in Ha. lia. }
  destruct (vs !! i) as [v|] eqn:Ev.
  2: { apply lookup_ge_None in Ev. exists vs, [], locals. split_and!; [done| |by rewrite app_nil_r|done|].
       - split; [|apply Hok]. intros a va b Ha. apply (l_edges _ _ _ Hok a); [|done]. apply lookup_lt_Some in Ha. lia.
       - intros a va q Ha. apply (l_locals _ _ _ Hok a); [|done]. apply lookup_lt_Some in Ha. lia. }
  pose proof (lookup_lt_Some _ _ _ Ev) as Hlt.
  destruct (take_local (v_data v) locals) as [taken others] eqn:Et.
  pose proof (round_ok _ _ _ _ _ _ Hok Ev Et) as Hok'. destruct (take_local_spec _ _ _ _ Et) as (Hp & _ & _).
  apply Permutation_length in Hp as Hlen. rewrite length_app in Hlen.
  edestruct IH as (vs' & taken' & others' & E & Hg & Hd & Hp' & Ho); [exact Hok'| | |].
  { rewrite length_app, length_alter. lia. }
  { rewrite length_app, length_alter, length_fmap. lia. }
  exists vs', (taken ++ taken'), others'. split_and!; [exact E|done| | |done].
  - rewrite Hd, fmap_app, alter_data, <- app_assoc by done. do 2 f_equal.
    rewrite <- list_fmap_compose. rewrite <- (list_fmap_id taken) at 2. by apply list_fmap_ext.
  - by rewrite <- app_assoc, Hp'.
Qed.

(** [dep_graph_init] ends; its vertices are the targets followed by those
    local packages something in the graph depends on, and its edges are
    exactly the dependencies between its vertices. *)
Lemma dep_graph_init_spec local targets ignore :
  exists vs taken others, dep_graph_init local targets ignore = Some vs /\ graph_ok vs /\
    v_data <$> vs = targets ++ taken /\ taken ++ others ≡ₚ graph_locals local targets ignore /\
    (forall a va q, vs !! a = Some va -> q ∈ others -> Deps.pkg_depends_on (v_data va) q = false).
Proof.
  unfold dep_graph_init.
  destruct (graph_loop_spec (length targets + length (graph_locals local targets ignore)) 0
    (graph_new <$> targets) (graph_locals local targets ignore)) as (vs & taken & others & E & Hg & Hd & Hp & Ho).
  - split; [lia| |lia]. intros a va. rewrite list_lookup_fmap, fmap_Some. by intros (p & _ & ->).
  - lia.
  - rewrite length_fmap. lia.
  - exists vs, taken, others. split_and!; [done|done| |done|done]. rewrite Hd. f_equal.
    rewrite <- list_fmap_compose. rewrite <- (list_fmap_id targets) at 2. by apply list_fmap_ext.
Qed.

Lemma graph_locals_elem local targets ignore q :
  NoDup (name <$> local) ->
  q ∈ graph_locals local targets ignore <->
  q ∈ local /\ name q ∉ name <$> targets /\ name q ∉ name <$> ignore.
Proof.
  intros Hnd. unfold graph_locals.
  assert (NoDup (name <$> KList.diff Package.pkg_cmp local targets)) as Hnd'.
  { eapply NoDup_sub; [|exact Hnd]. apply fmap_submseteq, (KList.diff_submseteq Package.pkg_cmp). }
  destruct ignore as [|x ignore].
  - rewrite (KList.diff_elem Package.pkg_cmp name) by done. set_solver.
  - rewrite (KList.diff_elem Package.pkg_cmp name) by done.
    rewrite (KList.diff_elem Package.pkg_cmp name) by done. tauto.
Qed.

(** ** The depth-first search *)

Lemma next_child_spec vs it :
  match next_child vs it with
  | (Some c, it') => exists skipped, it = skipped ++ c :: it' /\ v_state <$> vs !! c = Some UNPROCESSED /\
      forall x, x ∈ skipped -> v_state <$> vs !! x <> Some UNPROCESSED
  | (None, it') => it' = [] /\ forall x, x ∈ it -> v_state <$> vs !! x <> Some UNPROCESSED
  end.
Proof.
  induction it as [|c it IH]; simpl; [split; [done|set_solver]|]. case_decide as E.
  - exists []. split_and!; [done|done|set_solver].
  - destruct (next_child vs it) as [[d|] it'].
    + destruct IH as (sk & -> & Hd & Hs). exists (c :: sk). split_and!; [done|done|].
      intros x [->|]%elem_of_cons; auto.
    + destruct IH as [-> Hs]. split; [done|]. intros x [->|]%elem_of_cons; auto.
Qed.

(** The first position of a range that passes a test. *)
Lemma List_find_seq (f : nat -> bool) a n k :
  find_first f (seq a n) = Some k ->
  a <= k < a + n /\ f k = true /\ forall j, a <= j < k -> f j = false.
Proof.
  revert a. induction n as [|n IH]; intros a; simpl; [done|]. destruct (f a) eqn:E.
  - intros [= <-]. split_and!; [lia|lia|done|lia].
  - intros H. destruct (IH (S a) H) as (? & ? & Hj). split_and!; [lia|lia|done|].
    intros j Hj'. destruct (decide (j = a)) as [->|]; [done|]. apply Hj. lia.
Qed.

(** The path of [parent] pointers from the current vertex to its root. *)
Fixpoint chain (vs : list vertex) (l : list nat) : Prop :=
  match l with
  | [] => True
  | x :: l' => v_parent <$> vs !! x = Some (head l') /\ chain vs l'
  end.

Lemma chain_ext vs vs' l :
  (forall x, x ∈ l -> v_parent <$> vs' !! x = v_parent <$> vs !! x) -> chain vs l -> chain vs' l.
Proof.
  induction l as [|x l IH]; simpl; [done|]. intros H [Hx Hl]. split; [rewrite H by set_solver; done|].
  apply IH; [|done]. intros y Hy. apply H. set_solver.
Qed.

Section Dfs.
Context (targets ds : list pkg) (chs : list (list nat)) (rank : nat -> nat).

Definition children_of (u : nat) : list nat := default [] (chs !! u).
Definition acyclic : Prop := forall u c, c ∈ children_of u -> rank c < rank u.

(** Every vertex comes after its children. *)
Definition closed (fin : list nat) : Prop :=
  forall l1 u l2, fin = l1 ++ u :: l2 -> forall c, c ∈ children_of u -> c ∈ l1.

(** The packages the search has put in the result. *)
Definition emit (k : nat) : list pkg :=
  match ds !! k with
  | Some p => match KList.find_ptr targets p with Some _ => [p] | None => [] end
  | None => []
  end.

(** The state of the search: [fin] the vertices left, in order; [v :: rest]
    the path from the current vertex to its root [i]. *)
Record dfs_ok (i v : nat) (rest fin : list nat) (vs : list vertex) : Prop := {
  d_data : v_data <$> vs = ds;
  d_chs : v_children <$> vs = chs;
  d_nodup : NoDup (fin ++ v :: rest);
  d_lt k : k ∈ fin ++ v :: rest -> k < length ds;
  d_chain : chain vs (v :: rest);
  d_fin k vk : vs !! k = Some vk -> v_state vk = PROCESSED <-> k ∈ fin;
  d_rest k vk : vs !! k = Some vk -> k ∈ rest -> v_state vk = PROCESSING;
  d_new k vk : vs !! k = Some vk -> k ∉ fin ++ v :: rest ->
    v_state vk = UNPROCESSED /\ v_parent vk = None /\ v_iterator vk = v_children vk;
  d_iter k vk : vs !! k = Some vk -> k ∈ v :: rest ->
    exists consumed, v_children vk = consumed ++ v_iterator vk /\ forall c, c ∈ consumed -> c ∈ fin ++ v :: rest;
  d_roots k : k < i -> k ∈ fin;
  d_root : last (v :: rest) = Some i;
  d_rank : acyclic -> StronglySorted (fun a b => rank a < rank b) (v :: rest);
  d_closed : acyclic -> closed fin
}.

Lemma vs_lookup (vs : list vertex) k : v_data <$> vs = ds -> k < length ds -> is_Some (vs !! k).
Proof. intros <- Hk. rewrite length_fmap in Hk. by apply lookup_lt_is_Some. Qed.

Lemma vs_children vs k vk : v_children <$> vs = chs -> vs !! k = Some vk -> children_of k = v_children vk.
Proof. intros E Hk. unfold children_of. by rewrite <- E, list_lookup_fmap, Hk. Qed.

(** Updates of the two vertices a step touches. *)
Lemma lookup_alter_cases (f : vertex -> vertex) a (vs : list vertex) k vk :
  alter f a vs !! k = Some vk <->
  (k = a /\ exists w, vs !! a = Some w /\ vk = f w) \/ (k <> a /\ vs !! k = Some vk).
Proof.
  rewrite list_lookup_alter. case_decide as E.
  - subst. rewrite fmap_Some. naive_solver.
  - naive_solver.
Qed.

Lemma alter_children (f : vertex -> vertex) a (vs : list vertex) :
  (forall v, v_children (f v) = v_children v) -> v_children <$> alter f a vs = v_children <$> vs.
Proof.
  intros Hf. apply list_eq. intros k. rewrite !list_lookup_fmap, list_lookup_alter.
  case_decide; [subst; destruct (vs !! k); simpl; by rewrite ?Hf|done].
Qed.

(** What the skipped children were: vertices left or on the path. *)
Lemma visited_old i v rest fin vs x :
  dfs_ok i v rest fin vs -> x < length ds ->
  v_state <$> alter (set_state PROCESSING) v vs !! x <> Some UNPROCESSED -> x ∈ fin ++ v :: rest.
Proof.
  intros H Hx Hs. destruct (decide (x ∈ fin ++ v :: rest)) as [|Hn]; [done|exfalso]. apply Hs.
  destruct (vs_lookup vs x (d_data _ _ _ _ _ H) Hx) as [w Hw].
  rewrite list_lookup_alter_ne by set_solver. rewrite Hw. simpl. f_equal. eapply d_new; eauto.
Qed.

(** Entering an unprocessed child. *)
Lemma push_ok i v rest fin vs vv skipped c it :
  dfs_ok i v rest fin vs -> vs !! v = Some vv -> v_iterator vv = skipped ++ c :: it ->
  (forall x, x ∈ skipped -> x ∈ fin ++ v :: rest) -> c < length ds -> c ∉ fin ++ v :: rest ->
  dfs_ok i c (v :: rest) fin
    (alter (set_parent v) c (alter (set_iterator it) v (alter (set_state PROCESSING) v vs))).
Proof.
  intros H Hv Hit Hsk Hc Hnew. assert (c <> v) as Hcv by set_solver.
  set (vs' := alter _ c _).
  assert (forall k vk, vs' !! k = Some vk ->
    (k = c /\ exists w, vs !! c = Some w /\ vk = set_parent v w) \/
    (k = v /\ vk = set_iterator it (set_state PROCESSING vv)) \/ (k <> c /\ k <> v /\ vs !! k = Some vk)) as Hk.
  { intros k vk. unfold vs'. rewrite lookup_alter_cases.
    intros [(-> & w & Hw & ->)|[Hne Hw]]; [left|right].
    - split; [done|]. exists w. rewrite !list_lookup_alter_ne in Hw by done. done.
    - rewrite lookup_alter_cases in Hw. destruct Hw as [(-> & w & Hw & ->)|[Hne' Hw]]; [left|right].
      + split; [done|]. rewrite list_lookup_alter_eq, Hv in Hw. simpl in Hw. by injection Hw as <-.
      + rewrite list_lookup_alter_ne in Hw by done. done. }
  assert (forall k, k ∈ fin ++ c :: v :: rest <-> k = c \/ k ∈ fin ++ v :: rest) as Hin by set_solver.
  destruct H as [Hd Hch Hnd Hlt Hchain Hfin Hrest Hnew' Hiter Hroots Hroot Hrank Hcl].
  split.
  - unfold vs'. by rewrite !alter_data.
  - unfold vs'. by rewrite !alter_children.
  - rewrite <- Permutation_middle. by constructor.
  - intros k [->|]%Hin; auto.
  - split.
    + unfold vs'. rewrite list_lookup_alter_eq, !list_lookup_alter_ne by done.
      destruct (vs_lookup vs c Hd Hc) as [w Hw]. by rewrite Hw.
    + apply (chain_ext vs vs' (v :: rest)); [|exact Hchain]. intros x Hx. unfold vs'.
      rewrite list_lookup_alter_ne by set_solver. rewrite !list_lookup_alter.
      destruct (decide (v = x)) as [->|]; [|done]. rewrite decide_True by done. by destruct (vs !! x).
  - intros k vk Hvk. apply Hk in Hvk as [(-> & w & Hw & ->)|[[-> ->]|(? & ? & Hvk)]]; [| |eauto].
    + simpl. eauto.
    + simpl. split; [done|]. intros Hf. apply NoDup_app in Hnd as (_ & Hdis & _). exfalso. eapply Hdis; [done|set_solver].
  - intros k vk Hvk [->|Hkr]%elem_of_cons.
    + apply Hk in Hvk as [(-> & ?)|[[_ ->]|(_ & ? & _)]]; done.
    + apply Hk in Hvk as [(-> & ?)|[[-> ->]|(? & ? & Hvk)]]; [set_solver|done|eauto].
  - intros k vk Hvk Hn. rewrite Hin in Hn.
    apply Hk in Hvk as [(-> & ?)|[[-> ->]|(? & ? & Hvk)]]; [tauto|set_solver|eauto].
  - intros k vk Hvk Hkin. apply Hk in Hvk as [(-> & w & Hw & ->)|[[-> ->]|(? & ? & Hvk)]].
    + destruct (Hnew' c w Hw Hnew) as (_ & _ & E). exists []. simpl. split; [by rewrite E|set_solver].
    + simpl. destruct (Hiter v vv Hv) as (con & E & Hcon); [set_solver|]. exists (con ++ skipped ++ [c]).
      rewrite E, Hit, <- !app_assoc. split; [done|]. intros x. rewrite Hin. set_solver.
    + destruct (Hiter k vk Hvk) as (con & E & Hcon); [set_solver|]. exists con. split; [done|].
      intros x Hx. apply Hin. auto.
  - done.
  - done.
  - intros Ha. constructor; [by apply Hrank|]. specialize (Hrank Ha). inversion Hrank as [|? ? Hs Hall]; subst.
    assert (rank c < rank v) as Hlt'.
    { apply Ha. rewrite (vs_children vs v vv) by done. destruct (Hiter v vv Hv) as (con & E & _); [set_solver|].
      rewrite E, Hit. set_solver. }
    constructor; [done|]. eapply Forall_impl; [exact Hall|]. simpl. lia.
  - done.
Qed.

(** Leaving a vertex whose children have all been visited. *)
Definition leave (v : nat) (vs : list vertex) : list vertex :=
  alter (set_state PROCESSED) v (alter (set_iterator []) v (alter (set_state PROCESSING) v vs)).

Lemma leave_lookup v vs k vk :
  leave v vs !! k = Some vk <->
  (k = v /\ exists w, vs !! v = Some w /\ vk = set_state PROCESSED (set_iterator [] w)) \/ (k <> v /\ vs !! k = Some vk).
Proof.
  unfold leave. destruct (decide (k = v)) as [->|Hne].
  - rewrite !list_lookup_alter_eq. destruct (vs !! v) as [w|]; simpl; naive_solver.
  - rewrite !list_lookup_alter_ne by done. naive_solver.
Qed.

Lemma leave_closed i v rest fin vs vv :
  dfs_ok i v rest fin vs -> vs !! v = Some vv -> (forall c, c ∈ v_children vv -> c ∈ fin ++ v :: rest) ->
  acyclic -> closed (fin ++ [v]).
Proof.
  intros H Hv Hall Ha l1 u l2 E c Hc. destruct l2 as [|x l2 _] using rev_ind.
  - apply app_inj_tail in E as [<- <-]. rewrite (vs_children vs v vv) in Hc by (apply H || done).
    pose proof (Hall c Hc) as Hin. apply elem_of_app in Hin as [|Hin]; [done|exfalso].
    assert (rank c < rank v) as Hlt by (apply Ha; by rewrite (vs_children vs v vv) by (apply H || done)).
    pose proof (d_rank _ _ _ _ _ H Ha) as Hs. inversion Hs as [|? ? _ Hf]; subst.
    apply elem_of_cons in Hin as [->|Hin]; [lia|]. rewrite Forall_forall in Hf. specialize (Hf c Hin). simpl in Hf. lia.
  - rewrite app_comm_cons, app_assoc in E. apply app_inj_tail in E as [E _].
    eapply (d_closed _ _ _ _ _ H Ha); [exact E|done].
Qed.

Lemma leave_state v fin vs k vk rest i :
  dfs_ok i v rest fin vs -> leave v vs !! k = Some vk -> v_state vk = PROCESSED <-> k ∈ fin ++ [v].
Proof.
  intros H Hk. apply leave_lookup in Hk as [(-> & w & _ & ->)|[Hne Hk]]; [simpl; set_solver|].
  rewrite (d_fin _ _ _ _ _ H k vk Hk). set_solver.
Qed.

Lemma pop_ok i v u rest fin vs vv :
  dfs_ok i v (u :: rest) fin vs -> vs !! v = Some vv ->
  (forall c, c ∈ v_children vv -> c ∈ fin ++ v :: u :: rest) ->
  dfs_ok i u rest (fin ++ [v]) (leave v vs).
Proof.
  intros H Hv Hall. pose proof H as [Hd Hch Hnd Hlt Hchain Hfin Hrest Hnew Hiter Hroots Hroot Hrank Hcl].
  assert ((fin ++ [v]) ++ u :: rest = fin ++ v :: u :: rest) as Eapp by (by rewrite <- app_assoc).
  assert (v ∉ u :: rest) as Hvn by (apply NoDup_app in Hnd as (_ & _ & Hnd); by apply NoDup_cons in Hnd as [? _]).
  split.
  - unfold leave. by rewrite !alter_data.
  - unfold leave. by rewrite !alter_children.
  - by rewrite Eapp.
  - by rewrite Eapp.
  - destruct Hchain as [_ Hchain]. apply (chain_ext vs); [|exact Hchain]. intros x Hx. unfold leave.
    rewrite !list_lookup_alter_ne by set_solver. done.
  - intros k vk Hk. by eapply leave_state.
  - intros k vk Hk Hkr. apply leave_lookup in Hk as [(-> & _)|[_ Hk]]; [set_solver|]. eapply Hrest; [done|set_solver].
  - rewrite Eapp. intros k vk Hk Hkn. apply leave_lookup in Hk as [(-> & _)|[_ Hk]]; [set_solver|eauto].
  - rewrite Eapp. intros k vk Hk Hkr. apply leave_lookup in Hk as [(-> & _)|[_ Hk]]; [set_solver|].
    eapply Hiter; [done|set_solver].
  - intros k Hk. apply elem_of_app. left. auto.
  - by rewrite last_cons_cons in Hroot.
  - intros Ha. specialize (Hrank Ha). by inversion Hrank.
  - intros Ha. by eapply leave_closed.
Qed.

Lemma root_ok i i' v fin vs vv :
  dfs_ok i v [] fin vs -> vs !! v = Some vv -> (forall c, c ∈ v_children vv -> c ∈ fin ++ [v]) ->
  next_root (leave v vs) i = Some i' -> dfs_ok i' i' [] (fin ++ [v]) (leave v vs).
Proof.
  intros H Hv Hall Hr. pose proof H as [Hd Hch Hnd Hlt Hchain Hfin Hrest Hnew Hiter Hroots Hroot Hrank Hcl].
  simpl in Hroot. injection Hroot as ->. unfold next_root in Hr.
  apply List_find_seq in Hr as (Hi' & Hs & Hbefore).
  apply bool_decide_eq_true_1 in Hs. apply fmap_Some in Hs as (w & Hw & Hs).
  assert (length (leave i vs) = length ds) as Hlen by (unfold leave; rewrite !length_alter, <- Hd, length_fmap; done).
  assert (i' ∉ fin ++ [i]) as Hn.
  { intros Hin. apply (leave_state i fin vs i' w [] i H Hw) in Hin. congruence. }
  assert (forall k vk, leave i vs !! k = Some vk -> k ∉ fin ++ [i] ->
    v_state vk = UNPROCESSED /\ v_parent vk = None /\ v_iterator vk = v_children vk) as Hnew2.
  { intros k vk Hk Hkn. apply leave_lookup in Hk as [(-> & _)|[_ Hk]]; [set_solver|eauto]. }
  split.
  - unfold leave. by rewrite !alter_data.
  - unfold leave. by rewrite !alter_children.
  - apply NoDup_app. split_and!; [done| |apply NoDup_singleton]. intros x Hx ->%list_elem_of_singleton. done.
  - intros k [?|Hk%list_elem_of_singleton]%elem_of_app; [auto|subst k]. apply lookup_lt_Some in Hw. lia.
  - split; [|done]. rewrite Hw. simpl. f_equal. by apply (Hnew2 i' w Hw Hn).
  - intros k vk Hk. by eapply leave_state.
  - intros k vk _ ?%elem_of_nil. done.
  - intros k vk Hk Hkn. apply (Hnew2 k vk Hk). set_solver.
  - intros k vk Hk ->%list_elem_of_singleton. exists []. simpl. split; [|set_solver].
    by destruct (Hnew2 i' vk Hk Hn) as (_ & _ & ->).
  - intros k Hk. apply elem_of_app. destruct (Nat.lt_trichotomy k i) as [?|[->|?]]; [left; auto|right; set_solver|].
    assert (v_state <$> leave i vs !! k <> Some UNPROCESSED) as Hns.
    { specialize (Hbefore k ltac:(lia)). by apply bool_decide_eq_false_1 in Hbefore. }
    destruct (lookup_lt_is_Some_2 (leave i vs) k) as [vk Hvk]; [lia|].
    apply elem_of_app. destruct (decide (k ∈ fin ++ [i])) as [|Hkn]; [done|].
    destruct (Hnew2 k vk Hvk Hkn) as (E & _). rewrite Hvk in Hns. simpl in Hns. congruence.
  - done.
  - intros Ha. by repeat constructor.
  - intros Ha. by eapply leave_closed.
Qed.

Lemma end_ok i v fin vs vv :
  dfs_ok i v [] fin vs -> vs !! v = Some vv -> next_root (leave v vs) i = None -> fin ++ [v] ≡ₚ seq 0 (length ds).
Proof.
  intros H Hv Hr. pose proof H as [Hd Hch Hnd Hlt Hchain Hfin Hrest Hnew Hiter Hroots Hroot Hrank Hcl].
  simpl in Hroot. injection Hroot as ->. unfold next_root in Hr. rewrite find_first_None in Hr.
  assert (length (leave i vs) = length ds) as Hlen by (unfold leave; rewrite !length_alter, <- Hd, length_fmap; done).
  apply NoDup_Permutation; [done|apply NoDup_seq|]. intros k. rewrite elem_of_seq. split; [intros Hk; split; [lia|auto]|].
  intros [_ Hk]. apply elem_of_app. destruct (Nat.lt_trichotomy k i) as [?|[->|?]]; [left; auto|right; set_solver|].
  assert (v_state <$> leave i vs !! k <> Some UNPROCESSED) as Hns.
  { specialize (Hr k). rewrite elem_of_seq in Hr. specialize (Hr ltac:(lia)). by apply bool_decide_eq_false_1 in Hr. }
  destruct (lookup_lt_is_Some_2 (leave i vs) k) as [vk Hvk]; [lia|].
  apply elem_of_app. destruct (decide (k ∈ fin ++ [i])) as [|Hkn]; [done|].
  rewrite Hvk in Hns. simpl in Hns. apply leave_lookup in Hvk as [(-> & _)|[_ Hvk]]; [set_solver|].
  destruct (Hnew k vk Hvk Hkn) as (E & _). congruence.
Qed.

Lemma dfs_size i v rest fin vs : dfs_ok i v rest fin vs -> length fin + length rest + 1 <= length ds.
Proof.
  intros H. assert (fin ++ v :: rest ⊆+ seq 0 (length ds)) as Hsub%submseteq_length.
  { apply NoDup_submseteq; [apply H|]. intros x Hx. apply elem_of_seq. pose proof (d_lt _ _ _ _ _ H x Hx). lia. }
  rewrite length_seq, length_app in Hsub. simpl in Hsub. lia.
Qed.

Lemma sort_loop_spec fuel i v rest fin vs :
  (forall u c, c ∈ children_of u -> c < length ds) ->
  dfs_ok i v rest fin vs ->
  2 * (length ds - length fin - length rest - 1) + length rest + 1 <= fuel ->
  exists fin', sort_loop targets fuel vs i v (fin ≫= emit) = Some (fin' ≫= emit) /\
    fin' ≡ₚ seq 0 (length ds) /\ (acyclic -> closed fin').
Proof.
  intros Hrange. revert i v rest fin vs. induction fuel as [|fuel IH]; intros i v rest fin vs H Hf; [lia|].
  pose proof H as [Hd Hch Hnd Hlt Hchain _ _ _ Hiter _ _ _ _].
  destruct (vs_lookup vs v Hd (Hlt v ltac:(set_solver))) as [vv Hv].
  cbn [sort_loop]. rewrite list_lookup_alter_eq, Hv. cbn [fmap option_fmap option_map mbind option_bind].
  change (v_iterator (set_state PROCESSING vv)) with (v_iterator vv).
  change (v_data (set_state PROCESSING vv)) with (v_data vv).
  change (v_parent (set_state PROCESSING vv)) with (v_parent vv).
  pose proof (next_child_spec (alter (set_state PROCESSING) v vs) (v_iterator vv)) as Hn.
  destruct (Hiter v vv Hv) as (con & Econ & Hcon); [set_solver|].
  assert (forall c, c ∈ v_iterator vv -> c < length ds) as Hitr.
  { intros c Hc. apply (Hrange v). rewrite (vs_children vs v vv), Econ by done. set_solver. }
  destruct (next_child _ _) as [[c|] it].
  - destruct Hn as (sk & Eit & Hc & Hsk).
    assert (c ∉ fin ++ v :: rest) as Hcn.
    { intros Hin. apply fmap_Some in Hc as (w & Hw & Hst). apply lookup_alter_cases in Hw as [(-> & w' & _ & ->)|[Hne Hw]];
        [done|]. apply elem_of_app in Hin as [Hin|Hin].
      - apply (d_fin _ _ _ _ _ H c w Hw) in Hin. congruence.
      - apply elem_of_cons in Hin as [|Hin]; [done|]. rewrite (d_rest _ _ _ _ _ H c w Hw Hin) in Hst. done. }
    assert (dfs_ok i c (v :: rest) fin
      (alter (set_parent v) c (alter (set_iterator it) v (alter (set_state PROCESSING) v vs)))) as H'.
    { eapply push_ok; [done|done|exact Eit| |apply Hitr; rewrite Eit; set_solver|done].
      intros x Hx. eapply visited_old; [done|apply Hitr; rewrite Eit; set_solver|by apply Hsk]. }
    apply (IH i c (v :: rest) fin); [done|]. pose proof (dfs_size _ _ _ _ _ H'). simpl in *. lia.
  - destruct Hn as [-> Hsk].
    assert (forall c, c ∈ v_children vv -> c ∈ fin ++ v :: rest) as Hall.
    { intros c Hc. rewrite Econ in Hc. apply elem_of_app in Hc as [?|Hc]; [auto|].
      eapply visited_old; [done|by apply Hitr|by apply Hsk]. }
    fold (leave v vs).
    assert ((match KList.find_ptr targets (v_data vv) with Some _ => (fin ≫= emit) ++ [v_data vv] | None => fin ≫= emit end)
      = (fin ++ [v]) ≫= emit) as ->.
    { rewrite bind_app. simpl. rewrite app_nil_r. unfold emit at 4. rewrite <- Hd, list_lookup_fmap, Hv. simpl.
      destruct (KList.find_ptr _ _); [done|by rewrite app_nil_r]. }
    destruct Hchain as [Hpar _]. rewrite Hv in Hpar. simpl in Hpar. injection Hpar as Hpar. rewrite Hpar.
    destruct rest as [|u rest]; simpl.
    + destruct (next_root (leave v vs) i) as [i'|] eqn:Er.
      * assert (dfs_ok i' i' [] (fin ++ [v]) (leave v vs)) as H' by (by eapply root_ok).
        apply (IH i' i' [] (fin ++ [v])); [done|]. pose proof (dfs_size _ _ _ _ _ H') as Hs.
        rewrite length_app in *. simpl in *. lia.
      * exists (fin ++ [v]). split_and!; [done|by eapply end_ok|]. intros Ha. by eapply leave_closed.
    + assert (dfs_ok i u rest (fin ++ [v]) (leave v vs)) as H' by (by eapply pop_ok).
      apply (IH i u rest (fin ++ [v])); [done|]. pose proof (dfs_size _ _ _ _ _ H') as Hs.
      rewrite length_app in *. simpl in *. lia.
Qed.
End Dfs.

(** ** The result *)

Definition emit_pkg (targets : list pkg) (p : pkg) : list pkg :=
  match KList.find_ptr targets p with Some _ => [p] | None => [] end.

Lemma emit_seq targets pre l :
  seq (length pre) (length l) ≫= emit targets (pre ++ l) = l ≫= emit_pkg targets.
Proof.
  revert pre. induction l as [|p l IH]; intros pre; simpl; [done|]. f_equal.
  - unfold emit. by rewrite list_lookup_middle.
  - specialize (IH (pre ++ [p])). rewrite length_app, Nat.add_1_r, <- app_assoc in IH. exact IH.
Qed.

Lemma emit_targets targets l : (forall p, p ∈ l -> p ∈ targets) -> l ≫= emit_pkg targets = l.
Proof.
  induction l as [|p l IH]; intros H; simpl; [done|]. unfold emit_pkg at 1.
  destruct (proj2 (KList.find_ptr_Some targets p)) as [x ->]; [set_solver|]. simpl. f_equal. apply IH. set_solver.
Qed.

Lemma emit_others targets l : (forall p, p ∈ l -> p ∉ targets) -> l ≫= emit_pkg targets = [].
Proof.
  induction l as [|p l IH]; intros H; simpl; [done|]. unfold emit_pkg at 1.
  rewrite (proj2 (KList.find_ptr_None targets p)) by set_solver. apply IH. set_solver.
Qed.

Lemma emit_elem targets ds k p : ds !! k = Some p -> p ∈ targets -> emit targets ds k = [p].
Proof.
  intros Hk Hp. unfold emit. rewrite Hk. by destruct (proj2 (KList.find_ptr_Some targets p) Hp) as [x ->].
Qed.

(** Where an element of the result comes from. *)
Lemma emit_split targets ds fin l1 p l2 :
  fin ≫= emit targets ds = l1 ++ p :: l2 ->
  exists f1 u f2, fin = f1 ++ u :: f2 /\ ds !! u = Some p /\ l1 = f1 ≫= emit targets ds.
Proof.
  revert l1. induction fin as [|u fin IH]; intros l1; simpl; [by destruct l1|].
  destruct (emit targets ds u) as [|q [|]] eqn:E; simpl.
  - intros H. destruct (IH _ H) as (f1 & u' & f2 & -> & Hu & ->). exists (u :: f1), u', f2. simpl. by rewrite E.
  - destruct l1 as [|x l1]; simpl; intros [= -> H].
    + exists [], u, fin. split_and!; [done| |done]. unfold emit in E.
      destruct (ds !! u) as [q|]; [|done]. destruct (KList.find_ptr targets q); [by injection E as ->|done].
    + destruct (IH _ H) as (f1 & u' & f2 & -> & Hu & ->). exists (u :: f1), u', f2. simpl. by rewrite E.
  - unfold emit in E. destruct (ds !! u); [|done]. destruct (KList.find_ptr _ _); done.
Qed.

(** The packages the sort looks at, and direct dependencies among them. *)
Definition universe (local targets ignore : list pkg) : list pkg := targets ++ graph_locals local targets ignore.
Definition needs (univ : list pkg) (a b : pkg) : Prop := b ∈ univ /\ Deps.pkg_depends_on a b = true.

Section Result.
Context (local targets ignore : list pkg) (Hlocal : NoDup (name <$> local)).

(** The search, in terms of packages. *)
Lemma sort_result (rank : pkg -> nat) :
  targets <> [] ->
  exists ds fin, sortbydeps local targets ignore false = Some (fin ≫= emit targets ds) /\
    fin ≫= emit targets ds ≡ₚ targets /\
    ((forall a b, a ∈ universe local targets ignore -> needs (universe local targets ignore) a b -> rank b < rank a) ->
     forall f1 u f2 p q, fin = f1 ++ u :: f2 -> ds !! u = Some p -> needs (universe local targets ignore) p q ->
       exists c, c ∈ f1 /\ ds !! c = Some q).
Proof.
  intros Hne. destruct (dep_graph_init_spec local targets ignore) as (vs & taken & others & E & Hg & Hd & Hp & Ho).
  unfold sortbydeps. rewrite E. exists (v_data <$> vs).
  set (ds := v_data <$> vs) in *. set (chs := v_children <$> vs).
  assert (length vs = length ds) as Hlen by (unfold ds; by rewrite length_fmap).
  set (rk := fun k => match ds !! k with Some p => rank p | None => 0 end).
  assert (forall u c, c ∈ children_of chs u -> exists pu pc, ds !! u = Some pu /\ ds !! c = Some pc /\
    Deps.pkg_depends_on pu pc = true) as Hedge.
  { intros u c Hc. unfold children_of, chs in Hc. rewrite list_lookup_fmap in Hc.
    destruct (vs !! u) as [vu|] eqn:Eu; [|by apply elem_of_nil in Hc]. simpl in Hc.
    apply (g_edges _ Hg u vu c Eu) in Hc as (vc & Ec & Hdep). exists (v_data vu), (v_data vc).
    unfold ds. rewrite !list_lookup_fmap, Eu, Ec. done. }
  assert (0 < length ds) as Hpos by (rewrite Hd, length_app; destruct targets; simpl; [done|lia]).
  destruct (sort_loop_spec targets ds chs rk (2 * length vs) 0 0 [] [] vs) as (fin & Efin & Hfin & Hcl).
  { intros u c Hc. destruct (Hedge u c Hc) as (_ & pc & _ & Hc' & _). by eapply lookup_lt_Some. }
  { destruct (lookup_lt_is_Some_2 vs 0) as [v0 Hv0]; [lia|]. split; try done.
    - apply NoDup_singleton.
    - by intros k ->%list_elem_of_singleton.
    - split; [|done]. rewrite Hv0. simpl. f_equal. by apply (g_fresh _ Hg 0).
    - intros k vk Hk. destruct (g_fresh _ Hg k vk Hk) as (-> & _). set_solver.
    - set_solver.
    - intros k vk Hk _. by apply (g_fresh _ Hg k).
    - intros k vk Hk _. exists []. destruct (g_fresh _ Hg k vk Hk) as (_ & _ & ->). split; [done|set_solver].
    - lia.
    - intros _. by repeat constructor.
    - intros _ l1 u l2 H. by destruct l1. }
  { simpl. lia. }
  simpl in Efin. exists fin. split_and!.
  - destruct targets; [done|]. simpl. rewrite Efin. done.
  - rewrite Hfin. pose proof (emit_seq targets [] ds) as Eseq. simpl in Eseq. rewrite Eseq, Hd, bind_app.
    rewrite (emit_targets targets targets), (emit_others targets taken), app_nil_r; [done| |done].
    intros q Hq Hin. assert (q ∈ graph_locals local targets ignore) as Hgl by (rewrite <- Hp; set_solver).
    apply graph_locals_elem in Hgl as (_ & Hn & _); [|done]. apply Hn. apply list_elem_of_fmap. eauto.
  - intros Hrank f1 u f2 p q Ef Hu [Hq Hdep].
    assert (forall x, x ∈ ds -> x ∈ universe local targets ignore) as Hsub.
    { intros x. rewrite Hd. unfold universe. rewrite <- Hp. set_solver. }
    assert (q ∈ ds) as (c & Hc)%list_elem_of_lookup.
    { unfold universe in Hq. rewrite <- Hp in Hq. rewrite Hd. destruct (decide (q ∈ others)) as [Hqo|]; [exfalso|set_solver].
      unfold ds in Hu. rewrite list_lookup_fmap in Hu. apply fmap_Some in Hu as (vu & Hvu & ->).
      rewrite (Ho u vu q Hvu Hqo) in Hdep. done. }
    exists c. split; [|done]. eapply Hcl; [|exact Ef|].
    + intros a b Hb. destruct (Hedge a b Hb) as (pa & pb & Ha & Hb' & Hab). unfold rk. rewrite Ha, Hb'.
      apply Hrank; [apply Hsub; by eapply list_elem_of_lookup_2|]. split; [apply Hsub; by eapply list_elem_of_lookup_2|done].
    + unfold ds in Hu, Hc. rewrite list_lookup_fmap in Hu, Hc.
      apply fmap_Some in Hu as (vu & Hvu & ->). apply fmap_Some in Hc as (vc & Hvc & ->).
      unfold children_of, chs. rewrite list_lookup_fmap, Hvu. simpl. apply (g_edges _ Hg u vu c Hvu). eauto.
Qed.
End Result.

Lemma sortbydeps_run local targets ignore rev (H : NoDup (name <$> local)) :
  exists out, sortbydeps local targets ignore rev = Some out /\ out ≡ₚ targets.
Proof.
  destruct (decide (targets = [])) as [->|Hne]; [by exists []|].
  destruct (sort_result local targets ignore H (fun _ => 0) Hne) as (ds & fin & E & Hp & _).
  unfold sortbydeps in *. destruct targets as [|t ts]; [done|].
  destruct (dep_graph_init _ _ _) as [vs|]; simpl in *; [|done].
  destruct (sort_loop _ _ _ _ _ _) as [l|]; simpl in *; [|done]. injection E as ->.
  eexists. split; [reflexivity|]. destruct rev; [by rewrite reverse_Permutation|done].
Qed.

(** [_klpm_sortbydeps] always ends and returns the targets themselves,
    each exactly as often as it was given, in either direction and whatever
    dependency cycles there are. *)
Theorem sortbydeps_perm local targets ignore rev (H : NoDup (name <$> local)) :
  exists out, sortbydeps local targets ignore rev = Some out /\ out ≡ₚ targets.
Proof. by apply sortbydeps_run. Qed.

(** C10: when the dependencies among the targets and the local packages around
    them have no cycle, [_klpm_sortbydeps] is a topological sort: everything a
    target needs, directly or through other packages, comes before it. *)
Theorem sortbydeps_topological local targets ignore (rank : pkg -> nat)
    (Hlocal : NoDup (name <$> local))
    (Hrank : forall a b, a ∈ universe local targets ignore -> needs (universe local targets ignore) a b -> rank b < rank a) :
  exists out, sortbydeps local targets ignore false = Some out /\ out ≡ₚ targets /\
    forall l1 p l2 q, out = l1 ++ p :: l2 -> q ∈ targets ->
      tc (needs (universe local targets ignore)) p q -> q ∈ l1.
Proof.
  destruct (decide (targets = [])) as [->|Hne].
  { exists []. split_and!; [done|done|]. by intros [|] ? ? ?. }
  destruct (sort_result local targets ignore Hlocal rank Hne) as (ds & fin & E & Hp & Hord).
  specialize (Hord Hrank). eexists. split_and!; [exact E|done|].
  assert (forall p q, tc (needs (universe local targets ignore)) p q ->
    forall f1 u f2, fin = f1 ++ u :: f2 -> ds !! u = Some p -> exists c, c ∈ f1 /\ ds !! c = Some q) as Htc.
  { intros p q. induction 1 as [p q Hpq|p r q Hpr _ IH]; intros f1 u f2 Ef Hu; [by eapply Hord|].
    destruct (Hord f1 u f2 p r Ef Hu Hpr) as (c & Hc & Hcr). apply list_elem_of_split in Hc as (g1 & g2 & ->).
    rewrite <- app_assoc in Ef. destruct (IH _ _ _ Ef Hcr) as (d & Hd & Hdq). exists d. split; [set_solver|done]. }
  intros l1 p l2 q Eout Hq Hpq. apply emit_split in Eout as (f1 & u & f2 & Ef & Hu & ->).
  destruct (Htc p q Hpq f1 u f2 Ef Hu) as (c & Hc & Hcq). apply list_elem_of_bind. exists c.
  rewrite (emit_elem _ _ _ _ Hcq Hq). set_solver.
Qed.

(** Targets a, b, c where a needs b, b needs the local package l, and l needs c. *)
Definition ex_on (id : positive) (n d : string) : pkg :=
  with_depends (mkpkg id (lit n) (lit "1")) [Deps.dep_from_string (lit d)].
Definition ex_a : pkg := ex_on 1 "a" "b".
Definition ex_b : pkg := ex_on 2 "b" "l".
Definition ex_c : pkg := mkpkg 3 (lit "c") (lit "1").
Definition ex_l : pkg := ex_on 4 "l" "c".
Definition ex_rank (p : pkg) : nat :=
  match pkg_id p with 1%positive => 4 | 2%positive => 3 | 4%positive => 2 | _ => 1 end.

Lemma ex_acyclic : Forall (fun a => Forall (fun b => Deps.pkg_depends_on a b = true -> ex_rank b < ex_rank a)
  (universe [ex_l] [ex_a; ex_b; ex_c] [])) (universe [ex_l] [ex_a; ex_b; ex_c] []).
Proof. by_decide. Qed.

Lemma sortbydeps_perm_witness : exists out, sortbydeps [ex_l] [ex_a; ex_b; ex_c] [] true = Some out /\ out ≡ₚ [ex_a; ex_b; ex_c].
Proof. apply (sortbydeps_perm [ex_l] [ex_a; ex_b; ex_c] [] true). by_decide. Defined.

Lemma sortbydeps_topological_witness :
  exists out, sortbydeps [ex_l] [ex_a; ex_b; ex_c] [] false = Some out /\ out ≡ₚ [ex_a; ex_b; ex_c].
Proof.
  destruct (sortbydeps_topological [ex_l] [ex_a; ex_b; ex_c] [] ex_rank) as (out & E & Hp & _); [by_decide| |eauto].
  intros a b Ha [Hb Hd]. pose proof ex_acyclic as H. rewrite Forall_forall in H. specialize (H a Ha).
  rewrite Forall_forall in H. by apply H.
Defined.

End SortDeps.
