(* ===== verification/ResolveDeps.v ===== *)
(** * Pulling in and dropping dependencies ([deps.c]: [_klpm_recursedeps],
      [resolvedep], [_klpm_resolvedeps], [klpm_find_dbs_satisfier])

    The databases are any type with the [PkgCache] interface; the answers of
    the question callback are a list that each [QUESTION] consumes, the empty
    list standing for a callback that leaves the question's default. *)

From S2P Require Import Prelude CStr KList Package Deps.
Local Open Scope Z_scope.

Module ResolveDeps.

(** ** _klpm_recursedeps *)

(** The loop of [_klpm_select_depends]; the result is [*from] and [*to]. *)
Fixpoint select_loop (from to : list pkg) (p : pkg) (explicit : bool) : list pkg * list pkg :=
  match from with
  | [] => ([], to)
  | deppkg :: rest =>
      if (explicit || bool_decide (reason deppkg = REASON_DEPEND)) && Deps.pkg_depends_on p deppkg
      then select_loop rest (to ++ [deppkg]) p explicit
      else let '(from', to') := select_loop rest to p explicit in (deppkg :: from', to')
  end.
Definition select_depends (from to : list pkg) (p : pkg) (explicit : bool) : list pkg * list pkg :=
  match depends p with [] => (from, to) | _ => select_loop from to p explicit end.

(** [for(i = *targs; i; i = i->next)] over a list that does not change. *)
Fixpoint select_targets (keep rem targs : list pkg) (explicit : bool) : list pkg * list pkg :=
  match targs with
  | [] => (keep, rem)
  | t :: targs' => let '(keep, rem) := select_depends keep rem t explicit in select_targets keep rem targs' explicit
  end.

(** [for(i = rem; i; i = i->next)] while [rem] grows at its end. *)
Fixpoint select_rem (fuel k : nat) (keep rem : list pkg) (explicit : bool) : option (list pkg * list pkg) :=
  match rem !! k with
  | None => Some (keep, rem)
  | Some p =>
      match fuel with
      | O => None
      | S fuel => let '(keep, rem) := select_depends keep rem p explicit in select_rem fuel (S k) keep rem explicit
      end
  end.

(** [for(i = keep; i && rem; i = i->next)] while [keep] grows at its end. *)
Fixpoint select_keep (fuel k : nat) (keep rem : list pkg) : option (list pkg * list pkg) :=
  match keep !! k, rem with
  | None, _ | _, [] => Some (keep, rem)
  | Some p, _ =>
      match fuel with
      | O => None
      | S fuel => let '(rem, keep) := select_depends rem keep p true in select_keep fuel (S k) keep rem
      end
  end.

Section Recurse.
(** The result of the backend's [force_load] and the address of the copy
    [_klpm_pkg_dup] makes. *)
Variables (force_load : pkg -> bool) (new_addr : pkg -> positive).

Fixpoint copy_targets (targs rem : list pkg) : Z * list pkg :=
  match rem with
  | [] => (0, targs)
  | p :: rem' =>
      let '(ret, copy) := Package.pkg_dup (force_load p) (new_addr p) p in
      if ret =? 0 then copy_targets (targs ++ [copy]) rem' else (-1, targs)
  end.

(** The lists [keep] and [rem] before the copying. *)
Definition recurse_select (pkgcache targs : list pkg) (include_explicit : bool) : option (list pkg * list pkg) :=
  let keep := fold_left (KList.remove_first Package.pkg_cmp) targs pkgcache in
  let '(keep, rem) := select_targets keep [] targs include_explicit in
  r ← select_rem (length keep + length rem) 0 keep rem include_explicit;
  let '(keep, rem) := r in
  select_keep (length keep + length rem) 0 keep rem.

(** [_klpm_recursedeps]: the return value and [*targs]. *)
Definition recursedeps (pkgcache targs : list pkg) (include_explicit : bool) : option (Z * list pkg) :=
  r ← recurse_select pkgcache targs include_explicit;
  let '(keep, rem) := r in
  Some (copy_targets targs rem).
End Recurse.

(** ** resolvedep *)

Definition USAGE_INSTALL : Z := 4.
Definition USAGE_UPGRADE : Z := 8.

(** The values of [handle->pm_errno] this code sets. *)
Inductive resolve_errno := ERR_OK | ERR_PKG_IGNORED | ERR_PKG_NOT_FOUND | ERR_UNSATISFIED_DEPS.

(** What the functions change in the handle. *)
Record rstate := RState { answers : list Z; pm_errno : resolve_errno }.

(** [QUESTION(handle, &question)]: the answer, or the default. *)
Definition question (default : Z) (ans : list Z) : Z * list Z :=
  match ans with [] => (default, []) | a :: ans' => (a, ans') end.

Section Resolve.
Context {D : Type} `{!PkgCache D}.
(** [db->usage], <fnmatch.h> and the fields of the handle. *)
Variables (usage : D -> Z) (fnmatch : cstr -> cstr -> Z).
Variables (ignorepkg ignoregroup : list cstr) (db_local : D).

Definition usable (db : D) : bool := negb (Z.land (usage db) (Z.lor USAGE_INSTALL USAGE_UPGRADE) =? 0).
Definition excluded (excluding : list pkg) (n : cstr) : bool :=
  match Package.pkg_find excluding n with Some _ => true | None => false end.

(** The IGNOREPKG question: may the package be used? *)
Definition may_install (p : pkg) (prompt : bool) (ans : list Z) : bool * list Z :=
  if Package.pkg_should_ignore fnmatch ignorepkg ignoregroup p then
    if prompt then let '(install, ans) := question 0 ans in (negb (install =? 0), ans) else (false, ans)
  else (true, ans).

(** 1. literals *)
Fixpoint find_literal (dep : depend) (dbs : list D) (excluding : list pkg) (prompt ignored : bool)
    (ans : list Z) : option pkg * bool * list Z :=
  match dbs with
  | [] => (None, ignored, ans)
  | db :: dbs' =>
      if negb (usable db) then find_literal dep dbs' excluding prompt ignored ans
      else match pc_find db (dep_name dep) with
           | Some p =>
               if Deps.depcmp_literal p dep && negb (excluded excluding (name p)) then
                 let '(ok, ans) := may_install p prompt ans in
                 if ok then (Some p, ignored, ans) else find_literal dep dbs' excluding prompt true ans
               else find_literal dep dbs' excluding prompt ignored ans
           | None => find_literal dep dbs' excluding prompt ignored ans
           end
  end.

(** 2. satisfiers: an installed provider is returned at once, the others are
    collected. *)
Fixpoint collect_providers (dep : depend) (pkgs excluding : list pkg) (prompt ignored : bool)
    (providers : list pkg) (ans : list Z) : (pkg + list pkg) * bool * list Z :=
  match pkgs with
  | [] => (inr providers, ignored, ans)
  | p :: pkgs' =>
      if (negb (name_hash p =? dep_name_hash dep) || negb (strcmp (name p) (dep_name dep) =? 0))
          && Deps.depcmp_provides dep (provides p) && negb (excluded excluding (name p)) then
        let '(ok, ans) := may_install p prompt ans in
        if negb ok then collect_providers dep pkgs' excluding prompt true providers ans
        else match pc_find db_local (name p) with
             | Some _ => (inl p, ignored, ans)
             | None => collect_providers dep pkgs' excluding prompt ignored (providers ++ [p]) ans
             end
      else collect_providers dep pkgs' excluding prompt ignored providers ans
  end.
Fixpoint find_providers (dep : depend) (dbs : list D) (excluding : list pkg) (prompt ignored : bool)
    (providers : list pkg) (ans : list Z) : (pkg + list pkg) * bool * list Z :=
  match dbs with
  | [] => (inr providers, ignored, ans)
  | db :: dbs' =>
      if negb (usable db) then find_providers dep dbs' excluding prompt ignored providers ans
      else match collect_providers dep (pc_list db) excluding prompt ignored providers ans with
           | (inl p, ignored, ans) => (inl p, ignored, ans)
           | (inr providers, ignored, ans) => find_providers dep dbs' excluding prompt ignored providers ans
           end
  end.

(** The provider question, asked when there is a choice. *)
Definition choose_provider (providers : list pkg) (ans : list Z) : option pkg * list Z :=
  let count := Z.of_nat (length providers) in
  if 1 <=? count then
    let '(use_index, ans) := if 1 <? count then question 0 ans else (0, ans) in
    if (0 <=? use_index) && (use_index <? count) then (providers !! Z.to_nat use_index, ans) else (None, ans)
  else (None, ans).

Definition resolvedep (dep : depend) (dbs : list D) (excluding : list pkg) (prompt : bool) (st : rstate)
    : option pkg * rstate :=
  let '(lit_pkg, ignored, ans) := find_literal dep dbs excluding prompt false (answers st) in
  match lit_pkg with
  | Some p => (Some p, RState ans (pm_errno st))
  | None =>
      match find_providers dep dbs excluding prompt ignored [] ans with
      | (inl p, _, ans) => (Some p, RState ans (pm_errno st))
      | (inr providers, ignored, ans) =>
          match choose_provider providers ans with
          | (Some p, ans) => (Some p, RState ans (pm_errno st))
          | (None, ans) => (None, RState ans (if ignored then ERR_PKG_IGNORED else ERR_PKG_NOT_FOUND))
          end
      end
  end.

(** [klpm_find_dbs_satisfier]; [None] as result is NULL, and the second
    component is [KUZPKG_ERR_WRONG_ARGS] for an empty list of databases. *)
Definition find_dbs_satisfier (dbs : list D) (depstring : option cstr) (ans : list Z)
    : option pkg * option rstate :=
  match dbs with
  | [] => (None, None)
  | _ =>
      match depstring with
      | None => (None, Some (RState ans ERR_OK))
      | Some s => let '(r, st) := resolvedep (Deps.dep_from_string s) dbs [] true (RState ans ERR_OK) in (r, Some st)
      end
  end.

(** ** _klpm_resolvedeps *)

Variables (dbs_sync : list D) (nodepversion : bool) (assumeinstalled : list depend).
Variables (localpkgs preferred rem : list pkg).

(** [*packages], [*data], the return value and the handle. *)
Record resolved := Resolved {
  r_packages : list pkg; r_data : list Deps.depmissing; r_ret : Z; r_st : rstate
}.

(** The body of the loop over the missing dependencies; [recurse] is the
    recursive call. *)
Definition resolve_one (recurse : pkg -> list pkg -> list Deps.depmissing -> rstate -> option resolved)
    (r : resolved) (miss : Deps.depmissing) : option resolved :=
  let missdep := Deps.miss_depend miss in
  match Deps.find_dep_satisfier (r_packages r) missdep with
  | Some _ => Some r
  | None =>
      let '(spkg, st) :=
        match Deps.find_dep_satisfier preferred missdep with
        | Some p => (Some p, r_st r)
        | None => resolvedep missdep dbs_sync (r_packages r) false (r_st r)
        end in
      sub ← match spkg with
            | Some p => recurse p (r_packages r) (r_data r) st
            | None => Some (Resolved (r_packages r) (r_data r) (-1) st)
            end;
      if r_ret sub =? 0 then Some (Resolved (r_packages sub) (r_data sub) (r_ret r) (r_st sub))
      else
        let '(found, st) := resolvedep missdep [db_local] rem false (r_st sub) in
        match found with
        | Some _ => Some (Resolved (r_packages sub) (r_data sub) (r_ret r) st)
        | None => Some (Resolved (r_packages sub) (r_data sub ++ [miss]) (-1) (RState (answers st) ERR_UNSATISFIED_DEPS))
        end
  end.

Fixpoint resolve_all (recurse : pkg -> list pkg -> list Deps.depmissing -> rstate -> option resolved)
    (r : resolved) (deps : list Deps.depmissing) : option resolved :=
  match deps with
  | [] => Some r
  | miss :: deps' => r ← resolve_one recurse r miss; resolve_all recurse r deps'
  end.

Fixpoint resolvedeps (fuel : nat) (p : pkg) (packages : list pkg) (data : list Deps.depmissing) (st : rstate)
    : option resolved :=
  match Package.pkg_find packages (name p) with
  | Some _ => Some (Resolved packages data 0 st)
  | None =>
      match fuel with
      | O => None
      | S fuel =>
          let packages_copy := packages in
          let packages := packages ++ [p] in
          let deps := Deps.checkdeps nodepversion assumeinstalled localpkgs rem [p] false in
          r ← resolve_all (resolvedeps fuel) (Resolved packages data 0 (RState (answers st) ERR_OK)) deps;
          if r_ret r =? 0 then Some r
          else Some (Resolved packages_copy (r_data r) (r_ret r) (r_st r))
      end
  end.
End Resolve.

(** ** Selecting unneeded dependencies *)

Definition selectable (e : bool) (p q : pkg) : bool :=
  (e || bool_decide (reason q = REASON_DEPEND)) && Deps.pkg_depends_on p q.

Lemma select_spec from to p e from' to' :
  select_depends from to p e = (from', to') ->
  exists sel, to' = to ++ sel /\ from ≡ₚ from' ++ sel /\
    (forall q, q ∈ sel -> selectable e p q = true) /\ (forall q, q ∈ from' -> selectable e p q = false).
Proof.
  unfold select_depends. destruct (depends p) as [|d ds] eqn:Ed.
  { intros [= <- <-]. exists []. rewrite !app_nil_r. split_and!; [done|done|set_solver|].
    intros q _. unfold selectable, Deps.pkg_depends_on. rewrite Ed. by rewrite andb_false_r. }
  clear d ds Ed. revert to from' to'. induction from as [|q from IH]; intros to from' to'; cbn [select_loop].
  { intros [= <- <-]. exists []. rewrite !app_nil_r. split_and!; [done|done|set_solver|set_solver]. }
  fold (selectable e p q). destruct (selectable e p q) eqn:E.
  - intros H. destruct (IH _ _ _ H) as (sel & -> & Hp & Hs & Hf). exists (q :: sel). rewrite <- app_assoc. split_and!; [done| | |done].
    + by rewrite <- Permutation_middle, Hp.
    + intros x [->|]%elem_of_cons; auto.
  - destruct (select_loop from to p e) as [f t] eqn:El. intros [= <- <-].
    destruct (IH _ _ _ El) as (sel & -> & Hp & Hs & Hf). exists sel. split_and!; [done| |done|].
    + simpl. by rewrite Hp.
    + intros x [->|]%elem_of_cons; auto.
Qed.

(** Every selected package may be removed; nothing is lost or duplicated. *)
Definition removable (e : bool) (rem : list pkg) : Prop := forall q, q ∈ rem -> e = true \/ reason q = REASON_DEPEND.

Lemma selectable_removable e p q : selectable e p q = true -> e = true \/ reason q = REASON_DEPEND.
Proof. unfold selectable. intros [[?|?%bool_decide_eq_true_1]%orb_true_iff _]%andb_true_iff; auto. Qed.

Lemma select_targets_spec targs e keep rem keep' rem' :
  select_targets keep rem targs e = (keep', rem') -> removable e rem ->
  keep ++ rem ≡ₚ keep' ++ rem' /\ removable e rem'.
Proof.
  revert keep rem. induction targs as [|t targs IH]; intros keep rem; simpl.
  { by intros [= <- <-]. }
  destruct (select_depends keep rem t e) as [k r] eqn:E. destruct (select_spec _ _ _ _ _ _ E) as (sel & -> & Hp & Hs & _).
  intros H Hr. destruct (IH _ _ H) as [Hp' Hr'].
  { intros q [?|?]%elem_of_app; [auto|]. eapply selectable_removable; auto. }
  split; [|done]. rewrite <- Hp', Hp, <- !app_assoc. by rewrite (Permutation_app_comm sel rem).
Qed.

Lemma select_rem_spec fuel k keep rem e :
  (length keep + length rem <= fuel + k)%nat -> (k <= length rem)%nat -> removable e rem ->
  exists keep' rem', select_rem fuel k keep rem e = Some (keep', rem') /\
    keep ++ rem ≡ₚ keep' ++ rem' /\ removable e rem'.
Proof.
  revert k keep rem. induction fuel as [|fuel IH]; intros k keep rem Hf Hk Hr; cbn [select_rem].
  { rewrite lookup_ge_None_2 by lia. eauto. }
  destruct (rem !! k) as [p|] eqn:E; [|eauto]. apply lookup_lt_Some in E.
  destruct (select_depends keep rem p e) as [k' r'] eqn:Es.
  destruct (select_spec _ _ _ _ _ _ Es) as (sel & -> & Hp & Hs & _).
  pose proof (Permutation_length Hp) as Hl. rewrite length_app in Hl.
  destruct (IH (S k) k' (rem ++ sel)) as (keep'' & rem'' & -> & Hp' & Hr').
  - rewrite length_app. lia.
  - rewrite length_app. lia.
  - intros q [?|?]%elem_of_app; [auto|]. eapply selectable_removable; auto.
  - exists keep'', rem''. split_and!; [done| |done]. rewrite <- Hp', Hp, <- !app_assoc.
    by rewrite (Permutation_app_comm sel rem).
Qed.

(** No package of [keep] needs one of [rem]. *)
Definition separated (keep rem : list pkg) : Prop :=
  forall p q, p ∈ keep -> q ∈ rem -> Deps.pkg_depends_on p q = false.

Lemma select_keep_spec fuel k keep rem e :
  (length keep + length rem <= fuel + k)%nat -> (k <= length keep)%nat -> removable e rem ->
  separated (take k keep) rem ->
  exists keep' rem', select_keep fuel k keep rem = Some (keep', rem') /\
    keep ++ rem ≡ₚ keep' ++ rem' /\ removable e rem' /\ separated keep' rem'.
Proof.
  revert k keep rem. induction fuel as [|fuel IH]; intros k keep rem Hf Hk Hr Hs; cbn [select_keep].
  { rewrite lookup_ge_None_2 by lia. exists keep, rem. split_and!; [done|done|done|]. by rewrite take_ge in Hs by lia. }
  destruct (keep !! k) as [p|] eqn:E.
  2: { apply lookup_ge_None in E. exists keep, rem. split_and!; [done|done|done|]. by rewrite take_ge in Hs by lia. }
  destruct rem as [|r0 rem0]; [exists keep, []; split_and!; [done|done|done|intros ? ? _ ?%elem_of_nil; done]|].
  set (rem := r0 :: rem0) in *. pose proof (lookup_lt_Some _ _ _ E) as Hlt.
  destruct (select_depends rem keep p true) as [r' k'] eqn:Es.
  destruct (select_spec _ _ _ _ _ _ Es) as (sel & -> & Hp & Hsel & Hno).
  pose proof (Permutation_length Hp) as Hl. rewrite length_app in Hl.
  assert (forall q, q ∈ r' -> q ∈ rem) as Hsub by (intros q ?; rewrite Hp; set_solver).
  destruct (IH (S k) (keep ++ sel) r') as (keep'' & rem'' & -> & Hp' & Hr' & Hs').
  - rewrite length_app. lia.
  - rewrite length_app. lia.
  - intros q Hq. auto.
  - intros a b Ha Hb. rewrite take_app_le in Ha by lia. rewrite (take_S_r _ _ _ E) in Ha.
    apply elem_of_app in Ha as [Ha|Ha%list_elem_of_singleton]; [apply Hs; auto|]. subst a.
    specialize (Hno b Hb). unfold selectable in Hno. done.
  - exists keep'', rem''. split_and!; [done| |done|done]. rewrite <- Hp', Hp, <- !app_assoc.
    by rewrite (Permutation_app_comm sel r').
Qed.

Lemma recurse_select_spec cache targs e :
  exists keep rem, recurse_select cache targs e = Some (keep, rem) /\
    keep ++ rem ≡ₚ fold_left (KList.remove_first Package.pkg_cmp) targs cache /\
    removable e rem /\ separated keep rem.
Proof.
  unfold recurse_select. set (keep0 := fold_left _ targs cache).
  destruct (select_targets keep0 [] targs e) as [k r] eqn:E1.
  destruct (select_targets_spec _ _ _ _ _ _ E1) as [Hp1 Hr1]; [by intros ? ?%elem_of_nil|]. rewrite app_nil_r in Hp1.
  destruct (select_rem_spec (length k + length r) 0 k r e) as (k2 & r2 & -> & Hp2 & Hr2); [lia|lia|done|]. simpl.
  destruct (select_keep_spec (length k2 + length r2) 0 k2 r2 e) as (k3 & r3 & -> & Hp3 & Hr3 & Hs3);
    [lia|lia|done|by intros ? ? ?%elem_of_nil|].
  exists k3, r3. split_and!; [done| |done|done]. by rewrite <- Hp3, <- Hp2, <- Hp1.
Qed.

Lemma copy_targets_spec force_load addr targs rem :
  (forall p, p ∈ rem -> force_load p = false) ->
  copy_targets force_load addr targs rem = (0, targs ++ ((fun p => (Package.pkg_dup false (addr p) p).2) <$> rem)).
Proof.
  revert targs. induction rem as [|p rem IH]; intros targs H; simpl; [by rewrite app_nil_r|].
  rewrite (H p) by set_solver. simpl. rewrite IH by set_solver. by rewrite <- app_assoc.
Qed.

Lemma recursedeps_run force_load addr cache targs e :
  (forall p, force_load p = false) ->
  exists keep rem, recursedeps force_load addr cache targs e =
      Some (0, targs ++ ((fun p => (Package.pkg_dup false (addr p) p).2) <$> rem)) /\
    keep ++ rem ≡ₚ fold_left (KList.remove_first Package.pkg_cmp) targs cache /\
    (forall q, q ∈ rem -> e = true \/ reason q = REASON_DEPEND) /\
    (forall p q, p ∈ keep -> q ∈ rem -> Deps.pkg_depends_on p q = false).
Proof.
  intros Hload. destruct (recurse_select_spec cache targs e) as (keep & rem & E & Hp & Hr & Hs).
  exists keep, rem. split_and!; [|done|exact Hr|exact Hs].
  unfold recursedeps. rewrite E. simpl. by rewrite copy_targets_spec.
Qed.

(** C36: [_klpm_recursedeps] ends, and when every selected package can be
    loaded it appends to the targets copies of packages that are safe to
    remove: the other installed packages (all but the targets) are split into
    those kept and those removed, no kept package depends on a removed one,
    and an explicitly installed package is removed only when asked for. *)
Theorem recursedeps_safe force_load addr cache targs e (Hload : forall p, force_load p = false) :
  exists keep rem, recursedeps force_load addr cache targs e =
      Some (0, targs ++ ((fun p => (Package.pkg_dup false (addr p) p).2) <$> rem)) /\
    keep ++ rem ≡ₚ fold_left (KList.remove_first Package.pkg_cmp) targs cache /\
    (forall q, q ∈ rem -> e = true \/ reason q = REASON_DEPEND) /\
    (forall p q, p ∈ keep -> q ∈ rem -> Deps.pkg_depends_on p q = false).
Proof. by apply recursedeps_run. Qed.

Lemma recursedeps_safe_witness :
  exists keep rem : list pkg, recursedeps (fun _ => false) pkg_id [Deps.ex_a; Deps.ex_b] [Deps.ex_a] true =
      Some (0, [Deps.ex_a] ++ ((fun p => (Package.pkg_dup false (pkg_id p) p).2) <$> rem)) /\
    (forall p q, p ∈ keep -> q ∈ rem -> Deps.pkg_depends_on p q = false).
Proof.
  destruct (recursedeps_safe (fun _ => false) pkg_id [Deps.ex_a; Deps.ex_b] [Deps.ex_a] true (fun _ => eq_refl))
    as (keep & rem & E & _ & _ & H). exists keep, rem. auto.
Defined.

(** ** Finding a satisfier in the databases *)

Section ResolveLemmas.
Context {D : Type} `{!PkgCache D} (usage : D -> Z) (fnmatch : cstr -> cstr -> Z).
Context (ignorepkg ignoregroup : list cstr) (db_local : D).

(** A package of a usable database that satisfies the dependency and is not
    excluded. *)
Definition candidate (dep : depend) (dbs : list D) (excluding : list pkg) (p : pkg) : Prop :=
  (exists db, db ∈ dbs /\ usable usage db = true /\ p ∈ pc_list db) /\
  Deps.depcmp p dep = true /\ excluded excluding (name p) = false.

Lemma candidate_mono dep dbs dbs' excluding p :
  (forall db, db ∈ dbs -> db ∈ dbs') -> candidate dep dbs excluding p -> candidate dep dbs' excluding p.
Proof. intros H ((db & ? & ? & ?) & ? & ?). split_and!; [exists db; auto|done|done]. Qed.

Lemma find_literal_spec dep dbs excluding prompt ignored ans p ig ans' :
  find_literal usage fnmatch ignorepkg ignoregroup dep dbs excluding prompt ignored ans = (Some p, ig, ans') ->
  candidate dep dbs excluding p.
Proof.
  revert ignored ans. induction dbs as [|db dbs IH]; intros ignored ans; cbn [find_literal]; [done|].
  assert (forall ignored ans, find_literal usage fnmatch ignorepkg ignoregroup dep dbs excluding prompt ignored ans = (Some p, ig, ans') ->
    candidate dep (db :: dbs) excluding p) as IH'.
  { intros ? ? H. eapply candidate_mono; [|by eapply IH]. set_solver. }
  destruct (usable usage db) eqn:Eu; simpl; [|apply IH'].
  destruct (pc_find db (dep_name dep)) as [q|] eqn:Eq; [|apply IH'].
  destruct (_ && _) eqn:Et; [|apply IH']. destruct (may_install _ _ _ _ _ _) as [[] a]; [|apply IH'].
  intros [= -> _ _]. bool_hyps. apply pc_find_Some in Eq as [Hq _].
  split_and!; [exists db; set_solver|unfold Deps.depcmp; by rewrite H|done].
Qed.

Definition provided_by (r : pkg + list pkg) (P : pkg -> Prop) : Prop :=
  match r with inl p => P p | inr l => forall p, p ∈ l -> P p end.

Lemma collect_providers_spec dep pkgs excluding prompt ignored providers ans r ig ans' (P : pkg -> Prop) :
  collect_providers fnmatch ignorepkg ignoregroup db_local dep pkgs excluding prompt ignored providers ans = (r, ig, ans') ->
  (forall p, p ∈ providers -> P p) ->
  (forall p, p ∈ pkgs -> Deps.depcmp p dep = true -> excluded excluding (name p) = false -> P p) ->
  provided_by r P.
Proof.
  revert ignored providers ans. induction pkgs as [|p pkgs IH]; intros ignored providers ans; cbn [collect_providers].
  { intros [= <- _ _] H _. exact H. }
  intros E Hp Hpk. assert (forall q, q ∈ pkgs -> Deps.depcmp q dep = true -> excluded excluding (name q) = false -> P q) as Hpk'
    by (intros; apply Hpk; set_solver).
  destruct (_ && _ && _) eqn:Et; [|by eapply IH]. destruct (may_install _ _ _ _ _ _) as [[] a]; simpl in E; [|by eapply IH].
  assert (P p) as Hpp.
  { bool_hyps. apply Hpk; [set_solver| |done]. unfold Deps.depcmp. rewrite H1. apply orb_true_r. }
  destruct (pc_find db_local (name p)); [by injection E as <- _ _|]. eapply IH; [exact E| |done].
  intros q [?|Hq%list_elem_of_singleton]%elem_of_app; [auto|by subst q].
Qed.

Lemma find_providers_spec dep dbs excluding prompt ignored providers ans r ig ans' (P : pkg -> Prop) :
  find_providers usage fnmatch ignorepkg ignoregroup db_local dep dbs excluding prompt ignored providers ans = (r, ig, ans') ->
  (forall p, p ∈ providers -> P p) -> (forall p, candidate dep dbs excluding p -> P p) -> provided_by r P.
Proof.
  revert ignored providers ans. induction dbs as [|db dbs IH]; intros ignored providers ans; cbn [find_providers].
  { intros [= <- _ _] H _. exact H. }
  intros E Hp Hc. assert (forall p, candidate dep dbs excluding p -> P p) as Hc'.
  { intros p Hcp. apply Hc. eapply candidate_mono; [|exact Hcp]. set_solver. }
  destruct (usable usage db) eqn:Eu; simpl in E; [|by eapply IH].
  destruct (collect_providers _ _ _ _ _ _ _ _ _ _ _) as [[r1 i1] a1] eqn:Ec.
  pose proof (collect_providers_spec _ _ _ _ _ _ _ _ _ _ P Ec Hp) as H1.
  assert (provided_by r1 P) as H2.
  { apply H1. intros p ? ? ?. apply Hc. split_and!; [exists db; set_solver|done|done]. }
  destruct r1 as [q|l]; [by injection E as <- _ _|]. by eapply IH.
Qed.

(** What [resolvedep] returns is a candidate. *)
Lemma resolvedep_sound dep dbs excluding prompt st p st' :
  resolvedep usage fnmatch ignorepkg ignoregroup db_local dep dbs excluding prompt st = (Some p, st') ->
  candidate dep dbs excluding p.
Proof.
  unfold resolvedep. destruct (find_literal _ _ _ _ _ _ _ _ _ _) as [[[q|] ig] a] eqn:El.
  { intros [= -> _]. by eapply find_literal_spec. }
  destruct (find_providers _ _ _ _ _ _ _ _ _ _ _ _) as [[r ig2] a2] eqn:Ep.
  pose proof (find_providers_spec _ _ _ _ _ _ _ _ _ _ (candidate dep dbs excluding) Ep) as H.
  destruct r as [q|l]; simpl in H.
  { intros [= -> _]. apply H; [set_solver|done]. }
  destruct (choose_provider l a2) as [[q|] a3] eqn:Ec; [|done]. intros [= -> _].
  unfold choose_provider in Ec. destruct (1 <=? _); [|done].
  destruct (if 1 <? _ then _ else _) as [ix a4]. destruct (_ && _); [|done]. injection Ec as Ec _.
  apply H; [set_solver|done|]. by eapply list_elem_of_lookup_2.
Qed.

(** Nothing is ignored and no callback answers. *)
Context (Hno : forall p, Package.pkg_should_ignore fnmatch ignorepkg ignoregroup p = false).

Lemma may_install_quiet p prompt ans : may_install fnmatch ignorepkg ignoregroup p prompt ans = (true, ans).
Proof. unfold may_install. by rewrite Hno. Qed.

Lemma find_literal_None dep dbs excluding prompt ignored ans ig ans' :
  find_literal usage fnmatch ignorepkg ignoregroup dep dbs excluding prompt ignored ans = (None, ig, ans') ->
  ans' = ans /\ forall db p, db ∈ dbs -> usable usage db = true -> pc_find db (dep_name dep) = Some p ->
    excluded excluding (name p) = false -> Deps.depcmp_literal p dep = false.
Proof.
  revert ignored. induction dbs as [|db dbs IH]; intros ignored; cbn [find_literal].
  { intros [= _ <-]. split; [done|]. intros ? ? ?%elem_of_nil. done. }
  destruct (usable usage db) eqn:Eu; simpl.
  2: { intros [? H]%IH. split; [done|]. intros db' p [->|?]%elem_of_cons ?; [congruence|eauto]. }
  destruct (pc_find db (dep_name dep)) as [q|] eqn:Eq.
  2: { intros [? H]%IH. split; [done|]. intros db' p [->|?]%elem_of_cons ? ?; [congruence|eauto]. }
  rewrite may_install_quiet. destruct (_ && _) eqn:Et; [done|]. intros [? H]%IH. split; [done|].
  intros db' p [->|?]%elem_of_cons ? Hq He; [|eauto]. rewrite Eq in Hq. injection Hq as ->. rewrite He in Et.
  by rewrite andb_true_r in Et.
Qed.

Lemma collect_providers_nil dep pkgs excluding prompt ignored providers ans ig ans' :
  collect_providers fnmatch ignorepkg ignoregroup db_local dep pkgs excluding prompt ignored providers ans = (inr [], ig, ans') ->
  providers = [] /\ ans' = ans /\ forall p, p ∈ pkgs -> excluded excluding (name p) = false -> name p <> dep_name dep ->
    Deps.depcmp_provides dep (provides p) = false.
Proof.
  revert ignored providers. induction pkgs as [|p pkgs IH]; intros ignored providers; cbn [collect_providers].
  { intros [= -> _ <-]. split_and!; [done|done|]. intros ? ?%elem_of_nil. done. }
  rewrite may_install_quiet. destruct (_ && _ && _) eqn:Et; simpl.
  { destruct (pc_find db_local (name p)); [done|]. intros [Hnil _]%IH. by destruct providers. }
  intros (? & ? & H)%IH. split_and!; [done|done|]. intros q [->|?]%elem_of_cons He Hn; [|eauto].
  assert (strcmp (name p) (dep_name dep) =? 0 = false) as E by (apply Z.eqb_neq; by rewrite strcmp_eq).
  rewrite E, He in Et. simpl in Et. rewrite orb_true_r, andb_true_r in Et. done.
Qed.

Lemma find_providers_nil dep dbs excluding prompt ignored providers ans ig ans' :
  find_providers usage fnmatch ignorepkg ignoregroup db_local dep dbs excluding prompt ignored providers ans = (inr [], ig, ans') ->
  providers = [] /\ ans' = ans /\ forall db p, db ∈ dbs -> usable usage db = true -> p ∈ pc_list db ->
    excluded excluding (name p) = false -> name p <> dep_name dep -> Deps.depcmp_provides dep (provides p) = false.
Proof.
  revert ignored providers ans. induction dbs as [|db dbs IH]; intros ignored providers ans; cbn [find_providers].
  { intros [= -> _ <-]. split_and!; [done|done|]. intros ? ? ?%elem_of_nil. done. }
  destruct (usable usage db) eqn:Eu; simpl.
  2: { intros (? & ? & H)%IH. split_and!; [done|done|]. intros db' p [->|?]%elem_of_cons ?; [congruence|eauto]. }
  destruct (collect_providers _ _ _ _ _ _ _ _ _ _ _) as [[[q|l] i1] a1] eqn:Ec; [done|].
  intros (-> & -> & H)%IH. apply collect_providers_nil in Ec as (-> & -> & H').
  split_and!; [done|done|]. intros db' p [->|?]%elem_of_cons ? ? ? ?; eauto.
Qed.

Lemma resolvedep_complete dep dbs excluding prompt st st' :
  answers st = [] ->
  resolvedep usage fnmatch ignorepkg ignoregroup db_local dep dbs excluding prompt st = (None, st') ->
  forall db p, db ∈ dbs -> usable usage db = true -> excluded excluding (name p) = false ->
    (pc_find db (dep_name dep) = Some p -> Deps.depcmp_literal p dep = false) /\
    (p ∈ pc_list db -> name p <> dep_name dep -> Deps.depcmp_provides dep (provides p) = false).
Proof.
  intros Hans. unfold resolvedep. rewrite Hans.
  destruct (find_literal _ _ _ _ _ _ _ _ _ _) as [[[q|] ig] a] eqn:El; [done|].
  apply find_literal_None in El as [-> Hl].
  destruct (find_providers _ _ _ _ _ _ _ _ _ _ _ _) as [[[q|l] ig2] a2] eqn:Ep; [done|].
  destruct l as [|x l].
  - apply find_providers_nil in Ep as (_ & _ & Hp). intros _ db p Hdb Hu He. split; eauto.
  - assert (a2 = []) as ->.
    { clear -Ep Hno. revert ig Ep. generalize (@nil pkg). induction dbs as [|db dbs IH]; intros pr ig; cbn [find_providers].
      - by intros [= _ _ <-].
      - destruct (usable usage db); simpl; [|apply IH].
        destruct (collect_providers _ _ _ _ _ _ _ _ _ _ _) as [[[q|l'] i1] a1] eqn:Ec; [done|].
        assert (a1 = []) as ->; [|apply IH]. clear IH. revert pr ig Ec. generalize (pc_list db).
        intros pk. induction pk as [|y pk IHk]; intros pr ig; cbn [collect_providers]; [by intros [= _ _ <-]|].
        rewrite may_install_quiet. destruct (_ && _ && _); simpl; [|apply IHk].
        destruct (pc_find db_local (name y)); [done|apply IHk]. }
    unfold choose_provider.
    destruct (Z.leb_spec 1 (Z.of_nat (length (x :: l)))); [|simpl in *; lia].
    destruct (if 1 <? _ then _ else _) as [ix a4] eqn:Eix.
    assert (ix = 0) as -> by (destruct (1 <? _); simpl in Eix; congruence).
    destruct (Z.ltb_spec 0 (Z.of_nat (length (x :: l)))); [|lia]. done.
Qed.
End ResolveLemmas.

(** [resolvedep] is sound: a package it returns comes from a database
    enabled for installation or upgrade, satisfies the dependency and is not
    excluded.  It is complete when nothing is ignored and no callback
    intervenes: NULL means that no such database has a package of the
    dependency's name in the right version, nor one of another name that
    provides it. *)
Theorem resolvedep_spec {D} `{!PkgCache D} usage fnmatch ignorepkg ignoregroup (db_local : D) dep dbs excluding prompt st r st'
    (H : resolvedep usage fnmatch ignorepkg ignoregroup db_local dep dbs excluding prompt st = (r, st')) :
  match r with
  | Some p => candidate usage dep dbs excluding p
  | None =>
      answers st = [] -> (forall p, Package.pkg_should_ignore fnmatch ignorepkg ignoregroup p = false) ->
      forall db p, db ∈ dbs -> usable usage db = true -> excluded excluding (name p) = false ->
        (pc_find db (dep_name dep) = Some p -> Deps.depcmp_literal p dep = false) /\
        (p ∈ pc_list db -> name p <> dep_name dep -> Deps.depcmp_provides dep (provides p) = false)
  end.
Proof.
  destruct r as [p|]; [by eapply resolvedep_sound|]. intros Hans Hno. by eapply resolvedep_complete.
Qed.

Definition ex_db : pkglist := PkgList [Deps.ex_a; Deps.ex_b] ltac:(by_decide).
Lemma resolvedep_witness :
  candidate (fun _ => 15) (Deps.dep_from_string (lit "b>=1")) [ex_db] [] Deps.ex_b.
Proof.
  apply (resolvedep_spec (fun _ => 15) (fun _ _ => 1) [] [] ex_db (Deps.dep_from_string (lit "b>=1")) [ex_db] [] false
    (RState [] ERR_OK) (Some Deps.ex_b) (RState [] ERR_OK)). vm_compute. reflexivity.
Defined.

(** A package that satisfies a dependency only through a provision of its
    own name is overlooked: [_klpm_depcmp] accepts [foo] 1 with the provision
    [foo=2] for the dependency [foo>=2], but [resolvedep] compares packages of
    that name by version alone and reports the dependency as not found. *)
Theorem resolvedep_self_provision :
  exists p, Deps.depcmp p (Deps.dep_from_string (lit "foo>=2")) = true /\
    exists db : pkglist, pc_list db = [p] /\
      resolvedep (fun _ => 15) (fun _ _ => 1) [] [] db (Deps.dep_from_string (lit "foo>=2")) [db] [] false (RState [] ERR_OK)
      = (None, RState [] ERR_PKG_NOT_FOUND).
Proof.
  exists (with_provides (mkpkg 1 (lit "foo") (lit "1")) [Deps.dep_from_string (lit "foo=2")]). split; [reflexivity|].
  unshelve eexists (PkgList [with_provides (mkpkg 1 (lit "foo") (lit "1")) [Deps.dep_from_string (lit "foo=2")]] _);
    [by_decide|]. split; [done|]. vm_compute. reflexivity.
Qed.

(** ** Resolving the dependencies of a target *)

Section ResolveDepsLemmas.
Context {D : Type} `{!PkgCache D} (usage : D -> Z) (fnmatch : cstr -> cstr -> Z).
Context (ignorepkg ignoregroup : list cstr) (db_local : D) (dbs_sync : list D).
Context (nodepversion : bool) (assumed : list depend) (localpkgs preferred rem : list pkg).

Notation resolve_one := (resolve_one usage fnmatch ignorepkg ignoregroup db_local dbs_sync preferred rem).
Notation resolve_all := (resolve_all usage fnmatch ignorepkg ignoregroup db_local dbs_sync preferred rem).
Notation resolvedeps := (resolvedeps usage fnmatch ignorepkg ignoregroup db_local dbs_sync nodepversion assumed
                           localpkgs preferred rem).

(** What the code takes for a met dependency: a package of the list satisfies it,
    an installed package that is not being removed, an assumption, or a preferred
    package whose name is in the list. *)
Definition taken (packages : list pkg) (d : depend) : Prop :=
  (exists s, s ∈ packages /\ Deps.depcmp s d = true) \/
  (exists s, (s ∈ localpkgs \/ s ∈ pc_list db_local) /\ excluded rem (name s) = false /\ Deps.depcmp s d = true) \/
  Deps.depcmp_provides d assumed = true \/
  (exists s, s ∈ preferred /\ name s ∈ name <$> packages /\ Deps.depcmp s d = true).
Definition placed (packages : list pkg) (q : pkg) : Prop :=
  forall d, d ∈ depends q -> taken packages (Deps.relax nodepversion d).

Lemma taken_app l l' d : taken l d -> taken (l ++ l') d.
Proof.
  intros [(s & ? & ?)|[?|[?|(s & ? & ? & ?)]]]; [left; exists s; set_solver|right; by left|right; right; by left|].
  right; right; right. exists s. split_and!; [done| |done]. rewrite fmap_app. set_solver.
Qed.
Lemma placed_app l l' q : placed l q -> placed (l ++ l') q.
Proof. intros Hs d Hd. by apply taken_app, Hs. Qed.

(** The result of one call: success extends the list by placed packages,
    failure gives the list back. *)
Definition call_ok (p : pkg) (packages : list pkg) (r : resolved) : Prop :=
  (r_ret r = 0 /\ name p ∈ name <$> r_packages r /\
    (Package.pkg_find packages (name p) = None -> p ∈ r_packages r) /\
    exists new, r_packages r = packages ++ new /\ forall q, q ∈ new -> placed (r_packages r) q) \/
  (r_ret r = -1 /\ r_packages r = packages).

Definition recurse_ok (recurse : pkg -> list pkg -> list Deps.depmissing -> rstate -> option resolved) : Prop :=
  forall p packages data st r, recurse p packages data st = Some r -> call_ok p packages r.

Lemma resolve_one_spec recurse r miss r' :
  recurse_ok recurse -> resolve_one recurse r miss = Some r' ->
  exists new, r_packages r' = r_packages r ++ new /\ (forall q, q ∈ new -> placed (r_packages r') q) /\
    (r_ret r' = r_ret r /\ taken (r_packages r') (Deps.miss_depend miss) \/ r_ret r' = -1).
Proof.
  intros Hrec. unfold ResolveDeps.resolve_one. set (d := Deps.miss_depend miss).
  destruct (Deps.find_dep_satisfier (r_packages r) d) as [s|] eqn:Es.
  { intros [= <-]. exists []. rewrite app_nil_r. split_and!; [done|set_solver|left]. split; [done|].
    left. exists s. by apply find_first_Some in Es. }
  destruct (match Deps.find_dep_satisfier preferred d with Some p => _ | None => _ end) as [spkg st] eqn:Esp.
  assert (forall p, spkg = Some p -> (p ∈ preferred \/ Package.pkg_find (r_packages r) (name p) = None) /\ Deps.depcmp p d = true) as Hsp.
  { intros p ->. destruct (Deps.find_dep_satisfier preferred d) as [q|] eqn:Ep.
    - injection Esp as <- _. apply find_first_Some in Ep as [? ?]. auto.
    - apply resolvedep_sound in Esp as (_ & Hd & He). split; [right|done]. unfold excluded in He. by destruct (Package.pkg_find _ _). }
  destruct (match spkg with Some p => recurse p _ _ _ | None => _ end) as [sub|] eqn:Esub; simpl; [|done].
  assert ((exists p, spkg = Some p /\ r_ret sub = 0 /\ call_ok p (r_packages r) sub) \/
    (r_ret sub = -1 /\ r_packages sub = r_packages r)) as [(p & -> & E0 & Hc)|[E1 Epk]].
  { destruct spkg as [p|]; [|right; by injection Esub as <-].
    pose proof (Hrec _ _ _ _ _ Esub) as [Hc|Hc]; [left|by right]. exists p. split_and!; [done|apply Hc|by left]. }
  - rewrite E0. simpl. intros [= <-]. simpl. destruct Hc as [(_ & Hn & Hin & new & Hnew & Hset)|[? _]]; [|congruence].
    exists new. split_and!; [done|done|left]. split; [done|]. destruct (Hsp p eq_refl) as [[Hp|Hp] Hd].
    + right; right; right. eauto.
    + left. eauto.
  - clear Esp Esub. rewrite E1. simpl. destruct (resolvedep _ _ _ _ _ _ _ _ _ _) as [[s|] st2] eqn:Er; simpl; intros [= <-]; simpl;
      exists []; rewrite app_nil_r; (split_and!; [done|set_solver|]); [left|by right].
    split; [done|]. right; left. apply resolvedep_sound in Er as ((db & Hdb & _ & Hs) & Hd & He).
    apply list_elem_of_singleton in Hdb as ->. eauto 6.
Qed.

Lemma resolve_all_spec recurse r deps r' :
  recurse_ok recurse -> resolve_all recurse r deps = Some r' -> (r_ret r = 0 \/ r_ret r = -1) ->
  (exists new, r_packages r' = r_packages r ++ new /\ forall q, q ∈ new -> placed (r_packages r') q) /\
  (r_ret r' = 0 \/ r_ret r' = -1) /\
  (r_ret r' = 0 -> r_ret r = 0 /\ forall m, m ∈ deps -> taken (r_packages r') (Deps.miss_depend m)).
Proof.
  intros Hrec. revert r. induction deps as [|m deps IH]; intros r; cbn [ResolveDeps.resolve_all].
  { intros [= <-] Hr. split_and!; [|done|].
    - exists []. rewrite app_nil_r. split; [done|set_solver].
    - intros E. split; [done|set_solver]. }
  destruct (resolve_one recurse r m) as [r1|] eqn:E1; simpl; [|done]. intros E Hr.
  destruct (resolve_one_spec _ _ _ _ Hrec E1) as (n1 & H1 & Hs1 & Hret).
  destruct (IH _ E) as ((n2 & H2 & Hs2) & Hr' & Hmet); [destruct Hret as [[-> _]|?]; auto|].
  split_and!; [|done|].
  - exists (n1 ++ n2). rewrite H2, H1, <- app_assoc. split; [done|].
    intros q [Hq|Hq]%elem_of_app; [|rewrite app_assoc, <- H1, <- H2; auto].
    rewrite app_assoc, <- H1. by apply placed_app, Hs1.
  - intros E0. destruct (Hmet E0) as [E10 Hm]. destruct Hret as [[Eret Hmm]|?]; [|congruence].
    split; [congruence|]. intros m' [->|?]%elem_of_cons; [|auto]. rewrite H2. by apply taken_app.
Qed.

(** The dependencies [klpm_checkdeps] does not report are met already. *)
Lemma checkdeps_reported p d :
  d ∈ depends p ->
  taken [p] (Deps.relax nodepversion d) \/
  exists m, m ∈ Deps.checkdeps nodepversion assumed localpkgs rem [p] false /\ Deps.miss_depend m = Deps.relax nodepversion d.
Proof.
  intros Hd. unfold Deps.checkdeps. rewrite Deps.split_modified_eq. fold (Deps.untouched rem [p] localpkgs).
  set (dr := Deps.relax nodepversion d).
  destruct (Deps.satisfied assumed [p] (Deps.untouched rem [p] localpkgs) dr) eqn:E.
  - left. apply Deps.satisfied_spec in E as [(q & [Hq|Hq]%elem_of_app & Hc)|?].
    + right; left. apply Deps.elem_of_untouched in Hq as [Hq Hm]. exists q. split_and!; [by left| |done].
      unfold Deps.is_modified in Hm. unfold excluded. by destruct (Package.pkg_find rem (name q)).
    + left. eauto.
    + right; right; by left.
  - right. exists (Deps.depmiss_new (name p) dr None). split; [|by destruct dr].
    rewrite app_nil_r. apply list_elem_of_bind. exists p. split; [|set_solver].
    apply list_elem_of_bind. exists d. split; [|done]. unfold Deps.check_upgrade_dep. fold dr. rewrite E. set_solver.
Qed.

Lemma resolvedeps_ok fuel : recurse_ok (resolvedeps fuel).
Proof.
  induction fuel as [|fuel IH]; intros p packages data st r; cbn [ResolveDeps.resolvedeps];
    (destruct (Package.pkg_find packages (name p)) as [q|] eqn:Ef;
     [intros [= <-]; left; simpl; split_and!; [done| |congruence|exists []; rewrite app_nil_r; split; [done|set_solver]];
      apply Package.pkg_find_Some in Ef as [? <-]; apply list_elem_of_fmap; eauto|]); [done|].
  destruct (resolve_all _ _ _) as [r1|] eqn:Er; simpl; [|done].
  destruct (resolve_all_spec _ _ _ _ IH Er) as ((new & Hn & Hs) & Hret & Hmet); [by left|]. simpl in Hn.
  destruct Hret as [E0|E1]; [rewrite E0|rewrite E1]; simpl; intros [= <-]; [left|right; done].
  destruct (Hmet E0) as [_ Hm]. assert (p ∈ r_packages r1) as Hp by (rewrite Hn; set_solver).
  split_and!; [done|apply list_elem_of_fmap; eauto|done|]. exists (p :: new). rewrite Hn, <- app_assoc. split; [done|].
  intros q [->|Hq]%elem_of_cons; [|rewrite app_assoc, <- Hn; auto]. intros d Hd. rewrite app_assoc, <- Hn.
  destruct (checkdeps_reported p d Hd) as [Hm1|(m & Hin & Em)]; [|rewrite <- Em; auto].
  destruct Hm1 as [(s & Hsp & ?)|[?|[?|(s & ? & Hsn & ?)]]]; [left; exists s; set_solver|right; by left|right; right; by left|].
  right; right; right. exists s. split_and!; [done| |done]. rewrite list_fmap_singleton in Hsn.
  apply list_elem_of_singleton in Hsn as ->. apply list_elem_of_fmap. eauto.
Qed.

(** *** One package per name *)

(** Hashed packages with distinct names, as every list of targets. *)
Definition distinct (l : list pkg) : Prop := Forall pkg_hashed l /\ NoDup (name <$> l).

Definition keeps_distinct (recurse : pkg -> list pkg -> list Deps.depmissing -> rstate -> option resolved) : Prop :=
  forall p packages data st r, pkg_hashed p -> distinct packages -> recurse p packages data st = Some r ->
    distinct (r_packages r).

Lemma resolve_one_distinct recurse r miss r' :
  keeps_distinct recurse -> Forall pkg_hashed preferred -> distinct (r_packages r) ->
  resolve_one recurse r miss = Some r' -> distinct (r_packages r').
Proof.
  intros Hrec Hpref Hd. unfold ResolveDeps.resolve_one. set (d := Deps.miss_depend miss).
  destruct (Deps.find_dep_satisfier (r_packages r) d); [by intros [= <-]|].
  destruct (match Deps.find_dep_satisfier preferred d with Some p => _ | None => _ end) as [spkg st] eqn:Esp.
  destruct (match spkg with Some p => recurse p _ _ _ | None => _ end) as [sub|] eqn:Esub; simpl; [|done].
  assert (distinct (r_packages sub)) as Hs.
  { destruct spkg as [p|]; [|by injection Esub as <-]. eapply Hrec; [|done|done].
    destruct (Deps.find_dep_satisfier preferred d) as [q|] eqn:Ep.
    - injection Esp as <- _. apply find_first_Some in Ep as [? _]. rewrite Forall_forall in Hpref. auto.
    - apply resolvedep_sound in Esp as ((db & _ & _ & Hin) & _). pose proof (pc_hashed db) as H.
      rewrite Forall_forall in H. auto. }
  clear Esp Esub. destruct (r_ret sub =? 0); [by intros [= <-]|].
  destruct (resolvedep _ _ _ _ _ _ _ _ _ _) as [[q|] st2]; by intros [= <-].
Qed.

Lemma resolve_all_distinct recurse r deps r' :
  keeps_distinct recurse -> Forall pkg_hashed preferred -> distinct (r_packages r) ->
  resolve_all recurse r deps = Some r' -> distinct (r_packages r').
Proof.
  intros Hrec Hpref. revert r. induction deps as [|m deps IH]; intros r Hd; cbn [ResolveDeps.resolve_all]; [by intros [= <-]|].
  destruct (resolve_one recurse r m) as [r1|] eqn:E1; simpl; [|done]. apply IH. by eapply resolve_one_distinct.
Qed.

Lemma resolvedeps_distinct fuel : Forall pkg_hashed preferred -> keeps_distinct (resolvedeps fuel).
Proof.
  intros Hpref. induction fuel as [|fuel IH]; intros p packages data st r Hp Hd; cbn [ResolveDeps.resolvedeps];
    (destruct (Package.pkg_find packages (name p)) as [q|] eqn:Ef; [by intros [= <-]|]); [done|].
  destruct (resolve_all _ _ _) as [r1|] eqn:Er; simpl; [|done].
  apply resolve_all_distinct in Er; [|done|done|].
  - by destruct (r_ret r1 =? 0); intros [= <-].
  - destruct Hd as [Hh Hn]. apply Package.pkg_find_None in Ef; [|done]. split; [apply Forall_app; by repeat constructor|].
    simpl. rewrite fmap_app. apply NoDup_app. split_and!; [done| |apply NoDup_singleton].
    intros x Hx ->%list_elem_of_singleton. done.
Qed.

(** *** Where the packages come from *)

(** What holds of the preferred packages and of those of the sync databases
    holds of the packages pulled in. *)
Section Origin.
Context (P : pkg -> Prop) (Hpref : Forall P preferred) (Hdbs : forall db q, db ∈ dbs_sync -> q ∈ pc_list db -> P q).
Definition keeps_all (recurse : pkg -> list pkg -> list Deps.depmissing -> rstate -> option resolved) : Prop :=
  forall p packages data st r, P p -> Forall P packages -> recurse p packages data st = Some r -> Forall P (r_packages r).
Lemma resolve_one_all recurse r miss r' :
  keeps_all recurse -> Forall P (r_packages r) -> resolve_one recurse r miss = Some r' -> Forall P (r_packages r').
Proof.
  intros Hrec Hr. unfold ResolveDeps.resolve_one. set (d := Deps.miss_depend miss).
  destruct (Deps.find_dep_satisfier (r_packages r) d); [by intros [= <-]|].
  destruct (match Deps.find_dep_satisfier preferred d with Some p => _ | None => _ end) as [spkg st] eqn:Esp.
  destruct (match spkg with Some p => recurse p _ _ _ | None => _ end) as [sub|] eqn:Esub; simpl; [|done].
  assert (Forall P (r_packages sub)) as Hs.
  { destruct spkg as [p|]; [|by injection Esub as <-]. eapply Hrec; [|done|done].
    destruct (Deps.find_dep_satisfier preferred d) as [q|] eqn:Ep.
    - injection Esp as <- _. apply find_first_Some in Ep as [? _]. rewrite Forall_forall in Hpref. auto.
    - apply resolvedep_sound in Esp as ((db & Hdb & _ & Hin) & _). by eapply Hdbs. }
  clear Esp Esub. destruct (r_ret sub =? 0); [by intros [= <-]|].
  destruct (resolvedep _ _ _ _ _ _ _ _ _ _) as [[q|] st2]; by intros [= <-].
Qed.
Lemma resolve_all_all recurse r deps r' :
  keeps_all recurse -> Forall P (r_packages r) -> resolve_all recurse r deps = Some r' -> Forall P (r_packages r').
Proof.
  intros Hrec. revert r. induction deps as [|m deps IH]; intros r Hr; cbn [ResolveDeps.resolve_all]; [by intros [= <-]|].
  destruct (resolve_one recurse r m) as [r1|] eqn:E1; simpl; [|done]. apply IH. by eapply resolve_one_all.
Qed.
Lemma resolvedeps_all fuel : keeps_all (resolvedeps fuel).
Proof.
  induction fuel as [|fuel IH]; intros p packages data st r Hp Hk; cbn [ResolveDeps.resolvedeps];
    (destruct (Package.pkg_find packages (name p)) as [q|]; [by intros [= <-]|]); [done|].
  destruct (resolve_all _ _ _) as [r1|] eqn:Er; simpl; [|done].
  apply resolve_all_all in Er; [|done|apply Forall_app; by repeat constructor].
  by destruct (r_ret r1 =? 0); intros [= <-].
Qed.
End Origin.

(** *** Termination *)

(** The names a call may still add. *)
Definition todo (cands : list cstr) (packages : list pkg) : list cstr :=
  filter (fun n => n ∉ name <$> packages) cands.

Lemma todo_app cands l l' : (length (todo cands (l ++ l')) <= length (todo cands l))%nat.
Proof.
  unfold todo. induction cands as [|n cands IH]; [done|]. rewrite !filter_cons.
  repeat case_decide; simpl; try lia. exfalso. rewrite fmap_app in *. set_solver.
Qed.

Lemma todo_add cands l p :
  name p ∈ cands -> name p ∉ name <$> l -> (length (todo cands (l ++ [p])) < length (todo cands l))%nat.
Proof.
  unfold todo. intros Hin Hn.
  assert (name p ∈ name <$> (l ++ [p])) as Hp by (rewrite fmap_app; set_solver).
  assert (forall m, m ∈ name <$> l -> m ∈ name <$> (l ++ [p])) as Hm by (intros m; rewrite fmap_app; set_solver).
  induction cands as [|n cands IH]; [by apply elem_of_nil in Hin|].
  pose proof (todo_app cands l [p]) as Hle. unfold todo in Hle. rewrite !filter_cons.
  apply elem_of_cons in Hin as [Heq|Hin].
  - subst n. rewrite decide_False by auto. rewrite decide_True by done. simpl. lia.
  - specialize (IH Hin). repeat case_decide; simpl; try lia. exfalso; eauto.
Qed.

Context (cands : list cstr).
Context (Hpref : forall q, q ∈ preferred -> pkg_hashed q /\ name q ∈ cands).
Context (Hsync : forall db q, db ∈ dbs_sync -> q ∈ pc_list db -> name q ∈ cands).

Definition total_at (n : nat) (recurse : pkg -> list pkg -> list Deps.depmissing -> rstate -> option resolved) : Prop :=
  forall p packages data st, pkg_hashed p -> name p ∈ cands -> Forall pkg_hashed packages ->
    (length (todo cands packages) <= n)%nat ->
    exists r, recurse p packages data st = Some r /\ Forall pkg_hashed (r_packages r).

Lemma resolve_one_total n recurse r miss :
  recurse_ok recurse -> total_at n recurse -> Forall pkg_hashed (r_packages r) ->
  (length (todo cands (r_packages r)) <= n)%nat ->
  exists r', resolve_one recurse r miss = Some r' /\ Forall pkg_hashed (r_packages r').
Proof.
  intros Hrec Htot Hh Hn. unfold ResolveDeps.resolve_one. set (d := Deps.miss_depend miss).
  destruct (Deps.find_dep_satisfier (r_packages r) d); [eauto|].
  destruct (match Deps.find_dep_satisfier preferred d with Some p => _ | None => _ end) as [spkg st] eqn:Esp.
  assert (exists sub, (match spkg with Some p => recurse p (r_packages r) (r_data r) st
      | None => Some (Resolved (r_packages r) (r_data r) (-1) st) end) = Some sub /\
    Forall pkg_hashed (r_packages sub)) as (sub & -> & Hs).
  { destruct spkg as [p|]; [|eexists; by split]. apply Htot; [| |done|done].
    - destruct (Deps.find_dep_satisfier preferred d) as [q|] eqn:Ep.
      + injection Esp as <- _. apply find_first_Some in Ep as [? _]. by apply Hpref.
      + apply resolvedep_sound in Esp as ((db & _ & _ & Hin) & _). pose proof (pc_hashed db) as H.
        rewrite Forall_forall in H. auto.
    - destruct (Deps.find_dep_satisfier preferred d) as [q|] eqn:Ep.
      + injection Esp as <- _. apply find_first_Some in Ep as [? _]. by apply Hpref.
      + apply resolvedep_sound in Esp as ((db & Hdb & _ & Hin) & _). by eapply Hsync. }
  simpl. destruct (r_ret sub =? 0); [eauto|].
  destruct (resolvedep _ _ _ _ _ _ [db_local] _ _ _) as [[q|] st2]; eauto.
Qed.

Lemma resolve_all_total n recurse r deps :
  recurse_ok recurse -> total_at n recurse -> Forall pkg_hashed (r_packages r) ->
  (length (todo cands (r_packages r)) <= n)%nat ->
  exists r', resolve_all recurse r deps = Some r' /\ Forall pkg_hashed (r_packages r').
Proof.
  intros Hrec Htot. revert r. induction deps as [|m deps IH]; intros r Hh Hn; cbn [ResolveDeps.resolve_all]; [eauto|].
  destruct (resolve_one_total n recurse r m) as (r1 & E1 & Hh1); [done..|]. rewrite E1. simpl.
  apply IH; [done|]. destruct (resolve_one_spec _ _ _ _ Hrec E1) as (new & -> & _). pose proof (todo_app cands (r_packages r) new). lia.
Qed.

Lemma resolvedeps_total_at fuel : total_at fuel (resolvedeps fuel).
Proof.
  induction fuel as [|fuel IH]; intros p packages data st Hp Hc Hh Hn; cbn [ResolveDeps.resolvedeps];
    (destruct (Package.pkg_find packages (name p)) as [q|] eqn:Ef; [eauto|]);
    apply Package.pkg_find_None in Ef; try done; pose proof (todo_add cands packages p Hc Ef) as Ht; [lia|].
  destruct (resolve_all_total fuel (resolvedeps fuel)
    (Resolved (packages ++ [p]) data 0 (RState (answers st) ERR_OK))
    (Deps.checkdeps nodepversion assumed localpkgs rem [p] false)) as (r & E & Hr).
  - apply resolvedeps_ok.
  - done.
  - apply Forall_app. split; [done|by repeat constructor].
  - simpl. lia.
  - rewrite E. simpl. destruct (r_ret r =? 0); eauto.
Qed.
End ResolveDepsLemmas.

(** The packages [_klpm_resolvedeps] can reach: the target, the preferred ones
    and those of the sync databases. *)
Definition reachable {D} `{!PkgCache D} (dbs_sync : list D) (preferred : list pkg) (p : pkg) : list pkg :=
  p :: preferred ++ (dbs_sync ≫= pc_list).

(** As much fuel as there are reachable packages is enough: every level of the
    recursion adds one of their names to [*packages]. *)
Lemma resolvedeps_total {D} `{!PkgCache D} usage fnmatch ignorepkg ignoregroup (db_local : D) dbs_sync
    nodepversion assumed localpkgs preferred rem p packages data st :
  pkg_hashed p -> Forall pkg_hashed preferred -> Forall pkg_hashed packages ->
  exists r, resolvedeps usage fnmatch ignorepkg ignoregroup db_local dbs_sync nodepversion assumed localpkgs preferred rem
      (length (reachable dbs_sync preferred p)) p packages data st = Some r.
Proof.
  intros Hp Hpref Hpk. set (cands := name <$> reachable dbs_sync preferred p).
  destruct (resolvedeps_total_at usage fnmatch ignorepkg ignoregroup db_local dbs_sync nodepversion assumed localpkgs
    preferred rem cands) with (fuel := length (reachable dbs_sync preferred p)) (p := p) (packages := packages)
    (data := data) (st := st) as (r & E & _).
  - intros q Hq. rewrite Forall_forall in Hpref. split; [auto|]. apply list_elem_of_fmap. exists q. unfold reachable. set_solver.
  - intros db q Hdb Hq. apply list_elem_of_fmap. exists q. split; [done|]. unfold reachable.
    apply elem_of_cons. right. apply elem_of_app. right. apply list_elem_of_bind. eauto.
  - done.
  - unfold cands, reachable. set_solver.
  - done.
  - unfold todo. etrans; [apply length_filter|]. unfold cands. by rewrite length_fmap.
  - eauto.
Qed.

(** A dependency that is met: by a package of the list, by an installed package
    that is not being removed, or by assumption. *)
Definition met {D} `{!PkgCache D} (db_local : D) (assumed : list depend) (localpkgs rem packages : list pkg) (d : depend) : Prop :=
  (exists s, s ∈ packages /\ Deps.depcmp s d = true) \/
  (exists s, (s ∈ localpkgs \/ s ∈ pc_list db_local) /\ excluded rem (name s) = false /\ Deps.depcmp s d = true) \/
  Deps.depcmp_provides d assumed = true.
(** A preferred package satisfies the dependency, but in the list is another
    package of its name. *)
Definition shadowed (preferred packages : list pkg) (d : depend) : Prop :=
  exists s s', s ∈ preferred /\ Deps.depcmp s d = true /\ s' ∈ packages /\ name s' = name s /\ s' <> s.
Lemma taken_met {D} `{!PkgCache D} (db_local : D) assumed localpkgs preferred rem packages d :
  taken db_local assumed localpkgs preferred rem packages d -> met db_local assumed localpkgs rem packages d \/ shadowed preferred packages d.
Proof.
  intros [H|[H|[H|(s & Hs & Hn & Hd)]]]; [left; by left|left; right; by left|left; right; by right|].
  apply list_elem_of_fmap in Hn as (s' & En & Hs'). destruct (decide (s' = s)) as [-> |Hne]; [left; left; eauto|right; by exists s, s'].
Qed.


(** The target a pulls in b, on which it depends. *)
Definition ex_empty : pkglist := PkgList [] ltac:(by_decide).

(** The exception occurs: the target depends on b 1 and on b at least 2.  For the
    first the b of the database is put on the list; for the second b 2 is found
    among the preferred packages, a b is on the list already, and the target counts
    as resolved. *)
Definition ex_both : pkg := with_depends (mkpkg 7 (lit "x") (lit "1-1")) [Deps.dep_from_string (lit "b=1"); Deps.dep_from_string (lit "b>=2")].
Definition ex_b2 : pkg := mkpkg 8 (lit "b") (lit "2-1").
Theorem resolvedeps_shadowed :
  exists r, resolvedeps (fun _ => 15) (fun _ _ => 1) [] [] ex_empty [ex_db] false [] [] [ex_b2] [] (length (reachable [ex_db] [ex_b2] ex_both)) ex_both [] []
      (RState [] ERR_OK) = Some r /\ r_ret r = 0 /\ r_packages r = [ex_both; Deps.ex_b] /\
    ~ met ex_empty [] [] [] (r_packages r) (Deps.dep_from_string (lit "b>=2")).
Proof.
  eexists. split; [vm_compute; reflexivity|]. split; [reflexivity|]. split; [reflexivity|].
  intros [(s & Hs & Hd)|[(s & [[]%not_elem_of_nil|[]%not_elem_of_nil] & _)|[=]]]. cbn in Hs. rewrite !elem_of_cons, elem_of_nil in Hs.
  destruct Hs as [-> |[-> |[]]]; by vm_compute in Hd.
Qed.

End ResolveDeps.
