(* ===== verification/FileList.v ===== *)
(** * Package file lists ([src/lib/libkuzpkg/filelist.c])

    A file list is the array of its files; the array index [ctr] of the loops
    is the rest of the list.  The lists are sorted by [strcmp] of the names
    ([_klpm_filelist_sort]). *)

From S2P Require Import Prelude CStr KList Package.
Local Open Scope Z_scope.

Module FileList.

(** [_klpm_filelist_difference]: the names only in [filesA]. *)
Fixpoint difference (filesA : list file) : list file -> list cstr :=
  fix difference_B (filesB : list file) : list cstr :=
    match filesA, filesB with
    | [], _ => []
    | _, [] => f_name <$> filesA
    | a :: filesA', b :: filesB' =>
        let cmp := strcmp (f_name a) (f_name b) in
        if cmp <? 0 then f_name a :: difference filesA' filesB
        else if 0 <? cmp then difference_B filesB'
        else difference filesA' filesB'
    end.

(** The character a pointer points to, as a [char]. *)
Definition cur (s : cstr) : Z := match s with [] => 0 | c :: _ => schar c end.

(** [_klpm_filelist_pathcmp] *)
Fixpoint pathcmp (p1 p2 : cstr) : Z :=
  match p1, p2 with
  | x :: p1', y :: p2' =>
      if decide (x = y) then pathcmp p1' p2'
      else schar x - schar y
  | [], y :: p2' => if decide (y = "/"%char) then 0 - cur p2' else 0 - schar y
  | x :: p1', [] => if decide (x = "/"%char) then cur p1' - 0 else schar x - 0
  | [], [] => 0
  end.

(** [str[strlen(str) - 1] == '/'] for a name that is not empty. *)
Definition is_dir_name (s : cstr) : bool := bool_decide (last s = Some "/"%char).

(** [_klpm_filelist_intersection] *)
Fixpoint intersection (filesA : list file) : list file -> list cstr :=
  fix intersection_B (filesB : list file) : list cstr :=
    match filesA, filesB with
    | a :: filesA', b :: filesB' =>
        let cmp := pathcmp (f_name a) (f_name b) in
        if cmp <? 0 then intersection filesA' filesB
        else if 0 <? cmp then intersection_B filesB'
        else
          (if negb (is_dir_name (f_name a)) || negb (is_dir_name (f_name b)) then [f_name a] else [])
            ++ intersection filesA' filesB'
    | _, _ => []
    end.

(** [_klpm_files_cmp] *)
Definition files_cmp (file1 file2 : file) : Z := strcmp (f_name file1) (f_name file2).
#[global] Instance files_cmp_order : CmpOrder files_cmp.
Proof. apply (cmp_order_proj f_name). apply _. Qed.
#[global] Instance files_cmp_key : CmpKey files_cmp f_name.
Proof. intros x y. apply strcmp_eq. Qed.

(** [bsearch] of <stdlib.h> on the slice from [lo] to [hi]. *)
Fixpoint bsearch (fuel : nat) (key : cstr) (l : list file) (lo hi : nat) : option file :=
  match fuel with
  | O => None
  | S fuel =>
      if (lo <? hi)%nat then
        let mid := ((lo + hi) / 2)%nat in
        match l !! mid with
        | None => None
        | Some f =>
            let cmp := strcmp key (f_name f) in
            if cmp <? 0 then bsearch fuel key l lo mid
            else if 0 <? cmp then bsearch fuel key l (S mid) hi
            else Some f
        end
      else None
  end.

(** [klpm_filelist_contains]; the outer [None] is a NULL list. *)
Definition contains (filelist : option (list file)) (path : cstr) : option file :=
  match filelist with
  | None => None
  | Some [] => None
  | Some l => bsearch (S (length l)) path l 0 (length l)
  end.

(** [_klpm_filelist_sort]: [qsort] (a merge sort in glibc) when some pair of
    neighbours is out of order. *)
Fixpoint presorted (l : list file) : bool :=
  match l with
  | a :: (b :: _) as l' => if 0 <? strcmp (f_name a) (f_name b) then false else presorted l'
  | _ => true
  end.
Definition sort (l : list file) : list file :=
  if presorted l then l else KList.list_msort files_cmp l.

(** ** Difference *)

Definition names (l : list file) : list cstr := f_name <$> l.

(** Sorted with distinct names, as [_klpm_filelist_sort] leaves the list of a
    package (an archive member is listed once). *)
Definition strict (l : list file) : Prop := StronglySorted (fun a b => files_cmp a b < 0) l.
#[global] Instance strict_dec l : Decision (strict l).
Proof.
  unfold strict. induction l as [|a l IH]; [left; constructor|].
  destruct IH as [IH|IH]; [|right; intros H; inversion H; done].
  destruct (decide (Forall (fun b => files_cmp a b < 0) l)) as [H|H]; [left; by constructor|].
  right. intros H'. inversion H'. done.
Defined.

Lemma strict_sorted l : strict l -> StronglySorted (cmp_le files_cmp) l.
Proof.
  induction 1 as [|a l Hl IH Ha]; constructor; [done|]. eapply Forall_impl; [exact Ha|]. unfold cmp_le. simpl. lia.
Qed.

Lemma difference_diff A B : difference A B = f_name <$> (KList.diff_sorted files_cmp A B).1.
Proof.
  revert B. induction A as [|a A IHA]; intros B; [by destruct B|]. induction B as [|b B IHB]; [done|].
  rewrite KList.diff_sorted_cons. cbn [difference].
  change (files_cmp a b) with (strcmp (f_name a) (f_name b)).
  destruct (strcmp (f_name a) (f_name b) <? 0) eqn:E1.
  - rewrite IHA. by destruct (KList.diff_sorted files_cmp A (b :: B)).
  - destruct (0 <? strcmp (f_name a) (f_name b)) eqn:E2; [|apply IHA].
    change ((fix difference_B (filesB : list file) : list cstr := _) B) with (difference (a :: A) B).
    rewrite IHB. by destruct (KList.diff_sorted files_cmp (a :: A) B).
Qed.

Lemma difference_exact A B :
  strict A -> StronglySorted (cmp_le files_cmp) B -> forall n, n ∈ difference A B <-> n ∈ names A /\ n ∉ names B.
Proof.
  intros HA HB n. rewrite difference_diff, list_elem_of_fmap.
  setoid_rewrite (KList.diff_sorted_left files_cmp f_name A B HA HB).
  unfold names. rewrite (list_elem_of_fmap f_name A). naive_solver.
Qed.

(** [_klpm_filelist_difference] of two sorted lists is exactly the names of
    the first list that are not in the second, in order. *)
Theorem difference_spec A B (HA : strict A) (HB : StronglySorted (cmp_le files_cmp) B) :
  (forall n, n ∈ difference A B <-> n ∈ names A /\ n ∉ names B) /\ sublist (difference A B) (names A).
Proof.
  split; [by apply difference_exact|]. rewrite difference_diff. apply fmap_sublist, KList.diff_sorted_sublist.
Qed.

Definition ex_file (n : string) : file := File (lit n) 0 0.
Lemma difference_witness : lit "usr/bin/b" ∈ difference (ex_file <$> ["usr/"; "usr/bin/"; "usr/bin/b"]) (ex_file <$> ["usr/"; "usr/bin/"]).
Proof.
  apply difference_spec; [by_decide|apply strict_sorted; by_decide|]. split; by_decide.
Defined.

(** ** Intersection *)

(** Names all of whose characters are ASCII. *)
Definition ascii_name (s : cstr) : Prop := Forall (fun c => 0 < uchar c < 128) s.
#[global] Instance ascii_name_dec s : Decision (ascii_name s).
Proof. unfold ascii_name. apply _. Defined.

(** One name is the other as a directory. *)
Definition clash (a b : cstr) : Prop := a = b ++ ["/"%char] \/ b = a ++ ["/"%char].
#[global] Instance clash_dec a b : Decision (clash a b).
Proof. unfold clash. apply _. Defined.

Lemma schar_ascii c : uchar c < 128 -> schar c = uchar c.
Proof. intros H. unfold schar. by rewrite decide_True. Qed.

Lemma cur_pos s : ascii_name s -> s <> [] -> 0 < cur s.
Proof.
  destruct s as [|c s]; intros H Hne; [done|]. simpl. inversion H; subst. rewrite schar_ascii by lia. lia.
Qed.

(** On ASCII names that do not clash, [pathcmp] orders as [strcmp]. *)
Lemma pathcmp_strcmp a b :
  ascii_name a -> ascii_name b -> ~ clash a b ->
  (pathcmp a b < 0 <-> strcmp a b < 0) /\ (0 < pathcmp a b <-> 0 < strcmp a b).
Proof.
  revert b. induction a as [|x a IH]; intros [|y b] Ha Hb Hc; cbn [pathcmp strcmp]; try lia.
  - inversion Hb; subst. case_decide as E.
    + assert (b <> []) as Hne by (intros ->; apply Hc; right; by rewrite E).
      pose proof (cur_pos b ltac:(done) Hne). lia.
    + rewrite schar_ascii by lia. lia.
  - inversion Ha; subst. case_decide as E.
    + assert (a <> []) as Hne by (intros ->; apply Hc; left; by rewrite E).
      pose proof (cur_pos a ltac:(done) Hne). lia.
    + rewrite schar_ascii by lia. lia.
  - inversion Ha; inversion Hb; subst. case_decide as E.
    + subst y. destruct (Z.ltb_spec (uchar x) (uchar x)); [lia|]. apply IH; [done|done|].
      intros [-> | ->]; apply Hc; [by left|by right].
    + rewrite !schar_ascii by lia. assert (uchar x <> uchar y) by (intros ?; by apply E, uchar_inj).
      destruct (Z.ltb_spec (uchar x) (uchar y)); [lia|]. destruct (Z.ltb_spec (uchar y) (uchar x)); lia.
Qed.

Lemma intersection_cons a A b B :
  intersection (a :: A) (b :: B) =
  if pathcmp (f_name a) (f_name b) <? 0 then intersection A (b :: B)
  else if 0 <? pathcmp (f_name a) (f_name b) then intersection (a :: A) B
  else (if negb (is_dir_name (f_name a)) || negb (is_dir_name (f_name b)) then [f_name a] else []) ++ intersection A B.
Proof. done. Qed.

Lemma strict_notin a l : Forall (fun b => files_cmp a b < 0) l -> f_name a ∉ names l.
Proof. apply (KList.key_notin_above files_cmp f_name). Qed.

Lemma intersection_exact A B :
  strict A -> strict B -> Forall ascii_name (names A ++ names B) ->
  (forall a b, a ∈ names A -> b ∈ names B -> ~ clash a b) ->
  forall n, n ∈ intersection A B <-> n ∈ names A /\ n ∈ names B /\ is_dir_name n = false.
Proof.
  intros HA HB Hasc Hclash. apply Forall_app in Hasc as [HaA HaB]. revert B HB HaB Hclash.
  induction HA as [|a A HA' IHA Ha]; intros B HB HaB Hclash n; [destruct B; set_solver|].
  induction HB as [|b B HB' IHB Hb]; [set_solver|].
  pose proof (HaA : Forall ascii_name (f_name a :: names A)) as HaA'. inversion HaA' as [|? ? Haa HaA2]; subst.
  pose proof (HaB : Forall ascii_name (f_name b :: names B)) as HaB'. inversion HaB' as [|? ? Hab HaB2]; subst.
  destruct (pathcmp_strcmp (f_name a) (f_name b) Haa Hab) as [Hlt Hgt]; [apply Hclash; unfold names; set_solver|].
  rewrite intersection_cons. unfold names. rewrite !fmap_cons, !elem_of_cons. fold (names A) (names B).
  destruct (Z.ltb_spec (pathcmp (f_name a) (f_name b)) 0) as [E1|E1].
  - rewrite (IHA HaA2 (b :: B)); [|by constructor|done|intros; apply Hclash; unfold names; set_solver].
    assert (f_name a ∉ f_name b :: names B) as Hn.
    { apply (strict_notin a (b :: B)). constructor; [unfold files_cmp; lia|]. eapply Forall_impl; [exact Hb|]. simpl. intros c Hc.
      apply (cmp_lt_le_trans files_cmp a b c); unfold files_cmp in *; lia. }
    unfold names in *. rewrite fmap_cons, elem_of_cons. set_solver.
  - destruct (Z.ltb_spec 0 (pathcmp (f_name a) (f_name b))) as [E2|E2].
    + rewrite IHB; [|done|intros; apply Hclash; unfold names; set_solver]. unfold names at 1. rewrite fmap_cons, elem_of_cons.
      fold (names A). assert (f_name b ∉ f_name a :: names A) as Hn; [|set_solver].
      apply (strict_notin b (a :: A)).
      assert (files_cmp b a < 0) by (apply cmp_opp_lt; [apply _|unfold files_cmp; lia]).
      constructor; [done|]. eapply Forall_impl; [exact Ha|]. simpl. intros c Hc.
      apply (cmp_lt_le_trans files_cmp b a c); unfold files_cmp in *; lia.
    + assert (f_name a = f_name b) as Eab by (apply strcmp_eq; lia). rewrite elem_of_app.
      rewrite (IHA HaA2 B HB' HaB2) by (intros; apply Hclash; unfold names; set_solver).
      pose proof (strict_notin a A Ha) as Hna. pose proof (strict_notin b B Hb) as Hnb. rewrite <- Eab in *.
      rewrite orb_diag. assert (n ∈ (if negb (is_dir_name (f_name a)) then [f_name a] else []) <->
        n = f_name a /\ is_dir_name n = false) as ->.
      { destruct (is_dir_name (f_name a)) eqn:Ed; simpl; rewrite ?elem_of_nil, ?list_elem_of_singleton; split;
          [done|intros [-> ?]; congruence|intros ->; auto|intros [-> _]; done]. }
      split; [intros [[-> ?]|(? & ? & ?)]; auto|]. intros ([-> | ?] & [? | ?] & ?); subst; auto.
Qed.

(** [_klpm_filelist_intersection] of two sorted lists of ASCII names finds
    exactly the common names that are not directories, provided no name of one
    list is a directory of the other under the same path. *)
Theorem intersection_spec A B (HA : strict A) (HB : strict B)
    (Hasc : Forall ascii_name (names A ++ names B))
    (Hclash : forall a b, a ∈ names A -> b ∈ names B -> ~ clash a b) :
  forall n, n ∈ intersection A B <-> n ∈ names A /\ n ∈ names B /\ is_dir_name n = false.
Proof. by apply intersection_exact. Qed.

Lemma intersection_witness :
  lit "usr/bin/x" ∈ intersection (ex_file <$> ["usr/"; "usr/bin/"; "usr/bin/x"]) (ex_file <$> ["usr/"; "usr/bin/"; "usr/bin/x"; "usr/bin/y"]).
Proof.
  apply intersection_spec; [by_decide|by_decide|by_decide| |split_and!; by_decide].
  intros a b Ha Hb. assert (Forall (fun a => Forall (fun b => ~ clash a b)
    (names (ex_file <$> ["usr/"; "usr/bin/"; "usr/bin/x"; "usr/bin/y"]))) (names (ex_file <$> ["usr/"; "usr/bin/"; "usr/bin/x"]))) as H by by_decide.
  rewrite Forall_forall in H. specialize (H a Ha). rewrite Forall_forall in H. auto.
Defined.

(** Without those provisos conflicts are missed, because the lists are
    sorted by [strcmp] but merged with [_klpm_filelist_pathcmp], which skips a
    trailing slash and compares signed characters: a file "foo" against the
    directory "foo/" goes unnoticed when the list has "foo-bar" before it, and
    a file whose name starts with a byte above 127 goes unnoticed after any
    ASCII name although both lists have it. *)
Theorem intersection_misses :
  let hi := ascii_of_nat 195 in
  (strict (ex_file <$> ["foo-bar"; "foo/"]) /\ pathcmp (lit "foo/") (lit "foo") = 0 /\
   intersection (ex_file <$> ["foo-bar"; "foo/"]) [ex_file "foo"] = []) /\
  (strict [ex_file "a"; File [hi] 0 0] /\
   intersection [ex_file "a"; File [hi] 0 0] [File [hi] 0 0] = []).
Proof. cbv zeta. split_and!; by_decide. Qed.

(** ** Search and sorting *)

Lemma strict_lookup l i j a b : strict l -> l !! i = Some a -> l !! j = Some b -> (i < j)%nat -> strcmp (f_name a) (f_name b) < 0.
Proof.
  intros H. revert i j. induction H as [|c l Hl IH Hc]; intros [|i] [|j] Hi Hj Hlt; simpl in *; try done; try lia.
  - injection Hi as ->. rewrite Forall_forall in Hc. apply Hc. by eapply list_elem_of_lookup_2.
  - eapply IH; [done|done|lia].
Qed.

Lemma bsearch_spec fuel key l lo hi :
  strict l -> (hi <= length l)%nat -> (hi - lo < fuel)%nat ->
  match bsearch fuel key l lo hi with
  | Some f => f ∈ l /\ f_name f = key
  | None => forall i f, (lo <= i < hi)%nat -> l !! i = Some f -> f_name f <> key
  end.
Proof.
  intros Hs. revert lo hi. induction fuel as [|fuel IH]; intros lo hi Hhi Hf; cbn [bsearch]; [lia|].
  destruct (Nat.ltb_spec lo hi) as [Hlt|]; [|intros; lia].
  assert (lo <= (lo + hi) / 2 < hi)%nat as Hmid.
  { split; [apply Nat.div_le_lower_bound; lia|apply Nat.Div0.div_lt_upper_bound; lia]. }
  set (mid := ((lo + hi) / 2)%nat) in *. destruct (lookup_lt_is_Some_2 l mid) as [f Hfm]; [lia|]. rewrite Hfm.
  destruct (Z.ltb_spec (strcmp key (f_name f)) 0) as [E1|E1]; [|destruct (Z.ltb_spec 0 (strcmp key (f_name f))) as [E2|E2]].
  - specialize (IH lo mid ltac:(lia) ltac:(lia)). destruct (bsearch fuel key l lo mid); [done|].
    intros i g Hi Hg Eg. destruct (decide (i < mid)%nat); [eapply IH; [|done|done]; lia|]. subst key.
    destruct (decide (i = mid)) as [->|]; [rewrite Hfm in Hg; injection Hg as ->; rewrite strcmp_refl in E1; lia|].
    pose proof (strict_lookup l mid i f g Hs Hfm Hg ltac:(lia)). rewrite (strcmp_opp (f_name f)) in E1. lia.
  - specialize (IH (S mid) hi ltac:(lia) ltac:(lia)). destruct (bsearch fuel key l (S mid) hi); [done|].
    intros i g Hi Hg Eg. destruct (decide (mid < i)%nat); [eapply IH; [|done|done]; lia|]. subst key.
    destruct (decide (i = mid)) as [->|]; [rewrite Hfm in Hg; injection Hg as ->; rewrite strcmp_refl in E2; lia|].
    pose proof (strict_lookup l i mid g f Hs Hg Hfm ltac:(lia)). lia.
  - split; [by eapply list_elem_of_lookup_2|]. symmetry. apply strcmp_eq. lia.
Qed.

(** Looking a path up in a sorted list is exact. *)
Lemma contains_exact l path :
  strict l ->
  match contains (Some l) path with
  | Some f => f ∈ l /\ f_name f = path
  | None => path ∉ names l
  end.
Proof.
  intros Hs. unfold contains. destruct l as [|a l]; [set_solver|].
  pose proof (bsearch_spec (S (length (a :: l))) path (a :: l) 0 (length (a :: l)) Hs ltac:(lia) ltac:(lia)) as H.
  destruct (bsearch _ _ _ _ _); [done|]. intros (f & -> & Hf)%list_elem_of_fmap.
  apply list_elem_of_lookup in Hf as [i Hi]. eapply H; [|exact Hi|done].
  apply lookup_lt_Some in Hi. lia.
Qed.

(** [klpm_filelist_contains] finds a path in a sorted list exactly when the
    list has it, and returns that entry. *)
Theorem contains_spec l path (H : strict l) :
  match contains (Some l) path with
  | Some f => f ∈ l /\ f_name f = path
  | None => path ∉ names l
  end.
Proof. by apply contains_exact. Qed.

Lemma contains_witness : lit "b" ∉ names (ex_file <$> ["a"; "c"; "d"]).
Proof.
  assert (strict (ex_file <$> ["a"; "c"; "d"])) as H by by_decide.
  pose proof (contains_spec _ (lit "b") H) as Hc.
  destruct (contains _ (lit "b")) as [f|] eqn:E; [vm_compute in E; discriminate E|exact Hc].
Defined.

Lemma presorted_spec l : presorted l = true -> StronglySorted (cmp_le files_cmp) l.
Proof.
  induction l as [|a l IH]; [constructor|]. destruct l as [|b l]; [by repeat constructor|]. cbn [presorted].
  destruct (Z.ltb_spec 0 (strcmp (f_name a) (f_name b))); [done|]. intros Hp. specialize (IH Hp).
  constructor; [done|]. inversion IH as [|? ? _ Hb]; subst. constructor; [unfold cmp_le, files_cmp; lia|].
  eapply Forall_impl; [exact Hb|]. simpl. intros c Hc. apply (cmp_trans a b c); [unfold files_cmp; lia|done].
Qed.

(** [_klpm_filelist_sort] leaves the list sorted by name with the same
    files. *)
Theorem sort_spec l : StronglySorted (cmp_le files_cmp) (sort l) /\ sort l ≡ₚ l.
Proof.
  unfold sort. destruct (presorted l) eqn:E; [by split; [apply presorted_spec|]|].
  split; [apply KList.list_msort_sorted; apply _|apply KList.list_msort_perm; apply _].
Qed.

End FileList.
