(* ===== verification/Conflict.v ===== *)
(** * Package and file conflicts ([src/lib/libkuzpkg/conflict.c])

    Conflicts declared by the packages among themselves and with the installed
    ones, and file conflicts among the targets and with the file system.  The
    file system is read through [lstat] and [readdir], which are parameters;
    paths are assumed to fit the [PATH_MAX] buffers. *)

From S2P Require Import Prelude CStr KList Package Deps FileList.
Local Open Scope Z_scope.

Module Conflict.

(** [klpm_conflict_t] *)
Record conflict := MkConflict { package1 : pkg; package2 : pkg; c_reason : depend }.

Section Packages.
(** The backend's [force_load] (true on failure) and the addresses of the
    copies [_klpm_pkg_dup] makes. *)
Variables (force_load : pkg -> bool) (addr : pkg -> positive).

Definition dup (p : pkg) : Z * pkg := Package.pkg_dup (force_load p) (addr p) p.

Definition conflict_new (pkg1 pkg2 : pkg) (reason : depend) : option conflict :=
  let '(r1, c1) := dup pkg1 in
  let '(r2, c2) := dup pkg2 in
  if (r1 =? 0) && (r2 =? 0) then Some (MkConflict c1 c2 reason) else None.

Definition same_conflict (needle c : conflict) : bool :=
  (name_hash (package1 needle) =? name_hash (package1 c))
    && (name_hash (package2 needle) =? name_hash (package2 c))
    && (strcmp (name (package1 needle)) (name (package1 c)) =? 0)
    && (strcmp (name (package2 needle)) (name (package2 c)) =? 0).
Definition conflict_isin (needle : conflict) (haystack : list conflict) : bool :=
  existsb (same_conflict needle) haystack.

(** [add_conflict]: [*baddeps] afterwards (its callers ignore the result). *)
Definition add_conflict (baddeps : list conflict) (pkg1 pkg2 : pkg) (reason : depend) : list conflict :=
  match conflict_new pkg1 pkg2 reason with
  | None => baddeps
  | Some c => if conflict_isin c baddeps then baddeps else baddeps ++ [c]
  end.

(** The body of the innermost loop of [check_conflict]. *)
Definition check_pair (order : Z) (pkg1 : pkg) (c : depend) (baddeps : list conflict) (pkg2 : pkg) : list conflict :=
  if (name_hash pkg1 =? name_hash pkg2) && (strcmp (name pkg1) (name pkg2) =? 0) then baddeps
  else if Deps.depcmp pkg2 c then
    if 0 <=? order then add_conflict baddeps pkg1 pkg2 c else add_conflict baddeps pkg2 pkg1 c
  else baddeps.

Definition check_conflict (list1 list2 : list pkg) (baddeps : list conflict) (order : Z) : list conflict :=
  fold_left (fun baddeps pkg1 =>
    fold_left (fun baddeps c => fold_left (check_pair order pkg1 c) list2 baddeps) (conflicts pkg1) baddeps)
    list1 baddeps.

Definition innerconflicts (packages : list pkg) : list conflict := check_conflict packages packages [] 0.

Definition outerconflicts (pkgcache packages : list pkg) : list conflict :=
  let dblist := KList.diff Package.pkg_cmp pkgcache packages in
  let baddeps := check_conflict packages dblist [] 1 in
  check_conflict dblist packages baddeps (-1).
End Packages.

(** ** File conflicts *)

Inductive fileconflicttype := FILECONFLICT_TARGET | FILECONFLICT_FILESYSTEM.
(** [klpm_fileconflict_t] *)
Record fileconflict := FileConflict {
  fc_target : cstr; fc_type : fileconflicttype; fc_file : cstr; fc_ctarget : cstr
}.

Definition add_fileconflict (conflicts : list fileconflict) (filestr : cstr) (pkg1 : pkg) (pkg2 : option pkg)
    : list fileconflict :=
  conflicts ++
    [match pkg2 with
     | None => FileConflict (name pkg1) FILECONFLICT_FILESYSTEM filestr []
     | Some p2 =>
         if decide (origin p2 = FROM_LOCALDB)
         then FileConflict (name pkg1) FILECONFLICT_FILESYSTEM filestr (name p2)
         else FileConflict (name pkg1) FILECONFLICT_TARGET filestr (name p2)
     end].

Section Files.
(** <fnmatch.h>; [lstat] gives whether the object is a directory, [readdir]
    the entries of a directory but "." and ".."; [None] is an error. *)
Variables (fnmatch : cstr -> cstr -> Z) (lstat : cstr -> option bool) (readdir : cstr -> option (list cstr)).
(** [handle->root], [handle->overwrite_files] and the local package cache. *)
Variables (root : cstr) (overwrite_files : list cstr) (local : list pkg).

(** [llstat] drops trailing slashes. *)
Fixpoint strip_slashes (fuel : nat) (path : cstr) : cstr :=
  match fuel with
  | O => path
  | S fuel =>
      if (1 <? length path)%nat && FileList.is_dir_name path
      then strip_slashes fuel (take (length path - 1) path) else path
  end.
Definition llstat (path : cstr) : option bool := lstat (strip_slashes (length path) path).

(** [_klpm_fnmatch_patterns]: the last matching pattern decides. *)
Fixpoint match_rev (patterns : list cstr) (string : cstr) : Z :=
  match patterns with
  | [] => -1
  | pattern :: rest =>
      let inverted := bool_decide (head pattern = Some "!"%char) in
      let pattern := if inverted || bool_decide (head pattern = Some "\"%char) then tail pattern else pattern in
      if fnmatch pattern string =? 0 then (if inverted then 1 else 0) else match_rev rest string
  end.
Definition fnmatch_patterns (patterns : list cstr) (string : cstr) : Z := match_rev (reverse patterns) string.

Definition can_overwrite_file (path rootedpath : cstr) : bool :=
  (fnmatch_patterns overwrite_files path =? 0) || (fnmatch_patterns overwrite_files rootedpath =? 0).

Definition owns (path : cstr) (p : pkg) : bool :=
  match FileList.contains (Some (files p)) path with Some _ => true | None => false end.

Definition db_find_file_owners (path : cstr) : list pkg := List.filter (owns path) local.
Definition find_file_owner (path : cstr) : option pkg := find_first (owns path) local.
Definition local_pkg (n : cstr) : option pkg := Package.pkg_find local n.

(** [dir_belongsto_pkgs]; the fuel is the depth of the directory tree. *)
Fixpoint dir_belongsto_pkgs (fuel : nat) (dirpath : cstr) (pkgs : list pkg) : bool :=
  match fuel with
  | O => false
  | S fuel =>
      match readdir (root ++ dirpath) with
      | None => false
      | Some entries =>
          forallb (fun ent =>
            match lstat (root ++ dirpath ++ ent) with
            | None => false
            | Some is_dir =>
                let path := dirpath ++ ent ++ (if is_dir then ["/"%char] else []) in
                let owned := existsb (owns path) pkgs in
                if owned && is_dir then dir_belongsto_pkgs fuel path pkgs else owned
            end) entries
      end
  end.

(** CHECK 1 for one pair of targets. *)
Definition check_targets (p1 : pkg) (conflicts : list fileconflict) (p2 : pkg) : list fileconflict :=
  fold_left (fun conflicts filename =>
      let path := root ++ filename in
      if can_overwrite_file filename path && owns filename p2 then conflicts
      else add_fileconflict conflicts path p1 (Some p2))
    (FileList.intersection (files p1) (files p2)) conflicts.

(** What CHECK 2 decides about one existing file: whether the conflict is
    resolved, whether the files inside it are skipped, and what is added to
    [trans->skip_remove]. *)
Record verdict := Verdict { v_resolved : bool; v_skip : bool; v_skip_remove : list cstr }.

Section CheckFile.
Variables (dir_fuel : nat) (upgrade rem : list pkg) (p1 : pkg) (dbpkg : option pkg) (filestr : cstr) (st_isdir : bool).

Definition rooted : cstr := root ++ filestr.
Definition pfile_isdir : bool := FileList.is_dir_name rooted.
(** [path] and [relative_path] after the trailing slash is cut. *)
Definition cut_path : cstr := if pfile_isdir then take (length rooted - 1) rooted else rooted.
Definition relative_path : cstr := drop (length root) cut_path.

(** The directory was a file in the installed version. *)
Definition was_file : bool :=
  pfile_isdir && match dbpkg with Some d => owns relative_path d | None => false end.
(** The local file is removed with a package of [rem]. *)
Definition will_be_removed : bool := existsb (owns relative_path) rem.
(** The file changes hands: it belongs to the installed version of another
    target. *)
Definition changed_hands : bool :=
  existsb (fun p2 => negb (bool_decide (pkg_id p1 = pkg_id p2)) &&
    match local_pkg (name p2) with Some l => owns relative_path l | None => false end) upgrade.
(** The directory belongs to packages that go away. *)
Definition dir_goes_away : bool :=
  st_isdir &&
  let dir := relative_path ++ ["/"%char] in
  match db_find_file_owners dir with
  | [] => false
  | owners =>
      let pkgs := (match dbpkg with Some d => [d] | None => [] end) ++ rem in
      match KList.diff Package.pkg_cmp owners pkgs with
      | [] => dir_belongsto_pkgs dir_fuel dir owners
      | _ => false
      end
  end.
(** The file is unowned and in the backup list of the new package. *)
Definition unowned_backup : bool :=
  match Package.needbackup relative_path p1 with
  | Some _ => negb (existsb (owns relative_path) local)
  | None => false
  end.
Definition forced : bool := negb st_isdir && can_overwrite_file filestr cut_path.

Definition judge : verdict :=
  if was_file then Verdict true true []
  else if will_be_removed then Verdict true pfile_isdir []
  else if changed_hands then Verdict true (FileList.is_dir_name filestr) [relative_path]
  else Verdict (dir_goes_away || unowned_backup || forced) false [].
End CheckFile.

(** [for( ; j->next; j = j->next)] while the next file is inside [filestr]. *)
Fixpoint skip_inside (filestr : cstr) (rest : list cstr) : list cstr :=
  match rest with
  | f :: rest' => if is_prefix filestr f then skip_inside filestr rest' else rest
  | [] => []
  end.

(** CHECK 2: the loop over [newfiles], with the conflicts and
    [trans->skip_remove]. *)
Fixpoint check_files (fuel dir_fuel : nat) (upgrade rem : list pkg) (p1 : pkg) (dbpkg : option pkg)
    (newfiles : list cstr) (st : list fileconflict * list cstr) : list fileconflict * list cstr :=
  match fuel, newfiles with
  | S fuel, filestr :: rest =>
      match llstat (root ++ filestr) with
      | None => check_files fuel dir_fuel upgrade rem p1 dbpkg rest st
      | Some st_isdir =>
          if pfile_isdir filestr && st_isdir then check_files fuel dir_fuel upgrade rem p1 dbpkg rest st
          else
            let v := judge dir_fuel upgrade rem p1 dbpkg filestr st_isdir in
            let rest := if v_skip v then skip_inside filestr rest else rest in
            let skip_remove := st.2 ++ v_skip_remove v in
            let conflicts :=
              if v_resolved v then st.1
              else add_fileconflict st.1 (cut_path filestr) p1 (find_file_owner (relative_path filestr)) in
            check_files fuel dir_fuel upgrade rem p1 dbpkg rest (conflicts, skip_remove)
      end
  | _, _ => st
  end.

Definition new_files (p1 : pkg) (dbpkg : option pkg) : list cstr :=
  match dbpkg with
  | Some d => FileList.difference (files p1) (files d)
  | None => f_name <$> files p1
  end.

(** [_klpm_db_find_fileconflicts]: the conflicts and [trans->skip_remove]. *)
Fixpoint fileconflicts_loop (dir_fuel : nat) (upgrade rem todo : list pkg) (st : list fileconflict * list cstr)
    : list fileconflict * list cstr :=
  match todo with
  | [] => st
  | p1 :: todo' =>
      let conflicts := fold_left (check_targets p1) todo' st.1 in
      let dbpkg := local_pkg (name p1) in
      let newfiles := new_files p1 dbpkg in
      let st := check_files (length newfiles) dir_fuel upgrade rem p1 dbpkg newfiles (conflicts, st.2) in
      fileconflicts_loop dir_fuel upgrade rem todo' st
  end.
Definition db_find_fileconflicts (dir_fuel : nat) (upgrade rem : list pkg) (skip_remove : list cstr)
    : list fileconflict * list cstr :=
  fileconflicts_loop dir_fuel upgrade rem upgrade ([], skip_remove).
End Files.

(** ** Package conflicts *)

Section PackageLemmas.
Context (force_load : pkg -> bool) (Hload : forall p, force_load p = false) (addr : pkg -> positive).

(** The names of the two packages of a conflict. *)
Definition pair_of (c : conflict) : cstr * cstr := (name (package1 c), name (package2 c)).
Definition hashed (c : conflict) : Prop := pkg_hashed (package1 c) /\ pkg_hashed (package2 c).

Lemma same_conflict_spec c d : hashed c -> hashed d -> same_conflict c d = true <-> pair_of c = pair_of d.
Proof.
  intros [H1 H2] [H3 H4]. unfold same_conflict, pair_of, pkg_hashed in *. rewrite H1, H2, H3, H4.
  rewrite !andb_true_iff, !Z.eqb_eq, !strcmp_eq. split; [by intros [[_ ->] ->]|].
  intros [= -> ->]. done.
Qed.

(** The state of the list of conflicts: no pair twice. *)
Definition baddeps_ok (l : list conflict) : Prop := NoDup (pair_of <$> l) /\ Forall hashed l.

Lemma add_conflict_spec l p q d :
  baddeps_ok l -> pkg_hashed p -> pkg_hashed q ->
  baddeps_ok (add_conflict force_load addr l p q d) /\
  forall x, x ∈ pair_of <$> add_conflict force_load addr l p q d <-> x ∈ pair_of <$> l \/ x = (name p, name q).
Proof.
  intros [Hnd Hh] Hp Hq. unfold add_conflict, conflict_new, dup, Package.pkg_dup. rewrite !Hload. simpl.
  set (c := MkConflict _ _ _).
  assert (hashed c) as Hc by done. assert (pair_of c = (name p, name q)) as Ec by done.
  assert (conflict_isin c l = true <-> (name p, name q) ∈ pair_of <$> l) as Hin.
  { unfold conflict_isin. rewrite existsb_exists, <- Ec, list_elem_of_fmap. rewrite Forall_forall in Hh.
    split; intros (x & H1 & H2); exists x; rewrite <- list_elem_of_In in *.
    - split; [by apply same_conflict_spec; auto|done].
    - split; [done|]. apply same_conflict_spec; auto. }
  destruct (conflict_isin c l) eqn:E.
  - split; [done|]. intros x. split; [auto|]. intros [?| ->]; [done|]. by apply Hin.
  - split.
    + split; [|apply Forall_app; by repeat constructor]. rewrite fmap_app. apply NoDup_app.
      split_and!; [done| |apply NoDup_singleton]. intros x Hx Hx'. apply list_elem_of_singleton in Hx' as ->.
      rewrite Ec in Hx. apply Hin in Hx. congruence.
    + intros x. rewrite fmap_app, elem_of_app. simpl. rewrite list_elem_of_singleton, Ec. done.
Qed.

(** A declared conflict of [p] that [q] matches. *)
Definition declares (p q : pkg) : Prop := name p <> name q /\ exists c, c ∈ conflicts p /\ Deps.depcmp q c = true.

Definition ordered (order : Z) (p q : pkg) : cstr * cstr :=
  if 0 <=? order then (name p, name q) else (name q, name p).

Lemma check_pair_spec order p c l q :
  baddeps_ok l -> pkg_hashed p -> pkg_hashed q ->
  baddeps_ok (check_pair force_load addr order p c l q) /\
  forall x, x ∈ pair_of <$> check_pair force_load addr order p c l q <->
    x ∈ pair_of <$> l \/ (name p <> name q /\ Deps.depcmp q c = true /\ x = ordered order p q).
Proof.
  intros Hl Hp Hq. unfold check_pair, ordered. pose proof (Deps.name_match _ _ _ _ Hp Hq) as Hn.
  destruct (_ && _).
  { split; [done|]. intros x. split; [auto|]. intros [?|(? & _)]; [done|]. exfalso. tauto. }
  assert (name p <> name q) by (intros E; by apply Hn in E).
  destruct (Deps.depcmp q c); [|split; [done|]; intros x; split; [auto|intros [?|(_ & ? & _)]; done]].
  destruct (0 <=? order).
  - destruct (add_conflict_spec l p q c Hl Hp Hq) as [Ho Hx]. split; [done|]. intros x. rewrite Hx. tauto.
  - destruct (add_conflict_spec l q p c Hl Hq Hp) as [Ho Hx]. split; [done|]. intros x. rewrite Hx. tauto.
Qed.

Lemma fold_pairs_spec {A} (f : list conflict -> A -> list conflict) (P : A -> cstr * cstr -> Prop) (as_ : list A) l :
  (forall l a, a ∈ as_ -> baddeps_ok l -> baddeps_ok (f l a) /\
     forall x, x ∈ pair_of <$> f l a <-> x ∈ pair_of <$> l \/ P a x) ->
  baddeps_ok l ->
  baddeps_ok (fold_left f as_ l) /\
  forall x, x ∈ pair_of <$> fold_left f as_ l <-> x ∈ pair_of <$> l \/ exists a, a ∈ as_ /\ P a x.
Proof.
  revert l. induction as_ as [|a as_ IH]; intros l Hf Hl; simpl.
  { split; [done|]. intros x. split; [auto|]. intros [?|(a & ?%elem_of_nil & _)]; done. }
  destruct (Hf l a) as [H1 H2]; [set_solver|done|]. destruct (IH (f l a)) as [H3 H4]; [|done|].
  { intros l' b Hb. apply Hf. set_solver. }
  split; [done|]. intros x. rewrite H4, H2. split.
  - intros [[?|?]|(b & ? & ?)]; [auto|right; exists a; split; [set_solver|done]|right; exists b; split; [set_solver|done]].
  - intros [?|(b & Hb & ?)]; [auto|]. apply elem_of_cons in Hb as [->|?]; [auto|right; eauto].
Qed.

Lemma check_conflict_spec l1 l2 l order :
  Forall pkg_hashed l1 -> Forall pkg_hashed l2 -> baddeps_ok l ->
  baddeps_ok (check_conflict force_load addr l1 l2 l order) /\
  forall x, x ∈ pair_of <$> check_conflict force_load addr l1 l2 l order <->
    x ∈ pair_of <$> l \/ exists p q, p ∈ l1 /\ q ∈ l2 /\ declares p q /\ x = ordered order p q.
Proof.
  intros H1 H2 Hl. rewrite Forall_forall in H1, H2. unfold check_conflict.
  destruct (fold_pairs_spec (fun baddeps pkg1 =>
    fold_left (fun baddeps c => fold_left (check_pair force_load addr order pkg1 c) l2 baddeps) (conflicts pkg1) baddeps)
    (fun p x => exists c, c ∈ conflicts p /\ exists q, q ∈ l2 /\ (name p <> name q /\ Deps.depcmp q c = true /\ x = ordered order p q))
    l1 l) as [Ho Hx]; [|done|].
  { intros l' p Hp Hl'. apply fold_pairs_spec; [|done]. intros l'' c Hc Hl''. apply fold_pairs_spec; [|done].
    intros l3 q Hq Hl3. apply check_pair_spec; auto. }
  split; [done|]. intros x. rewrite Hx. unfold declares. naive_solver.
Qed.
End PackageLemmas.

Lemma inner_correct force_load addr ps (Hload : forall p, force_load p = false) (H : Forall pkg_hashed ps) :
  NoDup (pair_of <$> innerconflicts force_load addr ps) /\
  forall n m, (n, m) ∈ pair_of <$> innerconflicts force_load addr ps <->
    exists p q, p ∈ ps /\ q ∈ ps /\ name p = n /\ name q = m /\ declares p q.
Proof.
  unfold innerconflicts. destruct (check_conflict_spec force_load Hload addr ps ps [] 0 H H) as [[Hnd _] Hx]; [by repeat constructor|].
  split; [done|]. intros n m. rewrite Hx. unfold ordered. simpl. split.
  - intros [?%elem_of_nil|(p & q & ? & ? & ? & [= -> ->])]; [done|eauto 10].
  - intros (p & q & ? & ? & <- & <- & ?). right. eauto 10.
Qed.

(** [_klpm_innerconflicts] reports every pair of packages of the list, of
    different names, the first of which declares a conflict the second
    matches; no other pair, and no pair twice. *)
Theorem innerconflicts_spec force_load addr ps (Hload : forall p, force_load p = false) (H : Forall pkg_hashed ps) :
  NoDup (pair_of <$> innerconflicts force_load addr ps) /\
  forall n m, (n, m) ∈ pair_of <$> innerconflicts force_load addr ps <->
    exists p q, p ∈ ps /\ q ∈ ps /\ name p = n /\ name q = m /\ declares p q.
Proof. by apply inner_correct. Qed.

Lemma outer_correct force_load addr db ps (Hload : forall p, force_load p = false) (Hdb : Forall pkg_hashed db) (Hps : Forall pkg_hashed ps)
    (Hnd : NoDup (name <$> db)) :
  NoDup (pair_of <$> outerconflicts force_load addr db ps) /\
  forall n m, (n, m) ∈ pair_of <$> outerconflicts force_load addr db ps <->
    exists p q, p ∈ ps /\ q ∈ db /\ name q ∉ name <$> ps /\ name p = n /\ name q = m /\ (declares p q \/ declares q p).
Proof.
  unfold outerconflicts. set (dbl := KList.diff Package.pkg_cmp db ps).
  assert (forall q, q ∈ dbl <-> q ∈ db /\ name q ∉ name <$> ps) as Hd.
  { intros q. apply (KList.diff_elem Package.pkg_cmp name). done. }
  assert (Forall pkg_hashed dbl) as Hdbl.
  { rewrite Forall_forall in Hdb |- *. intros q Hq. apply Hdb. by apply Hd. }
  destruct (check_conflict_spec force_load Hload addr ps dbl [] 1 Hps Hdbl) as [Ho1 Hx1]; [by repeat constructor|].
  destruct (check_conflict_spec force_load Hload addr dbl ps _ (-1) Hdbl Hps Ho1) as [[Hn _] Hx2].
  split; [done|]. intros n m. rewrite Hx2, Hx1. unfold ordered. simpl. split.
  - intros [[?%elem_of_nil|(p & q & ? & Hq & ? & [= -> ->])]|(q & p & Hq & ? & ? & [= -> ->])]; [done| |];
      apply Hd in Hq as [? ?]; exists p, q; auto 10.
  - intros (p & q & ? & ? & ? & <- & <- & [?|?]); assert (q ∈ dbl) by (by apply Hd); [left; right|right]; eauto 10.
Qed.

(** [_klpm_outerconflicts] reports a target and an installed package that is
    not itself a target, in this order, exactly when one of the two declares a
    conflict the other matches. *)
Theorem outerconflicts_spec force_load addr db ps (Hload : forall p, force_load p = false) (Hdb : Forall pkg_hashed db) (Hps : Forall pkg_hashed ps)
    (Hnd : NoDup (name <$> db)) :
  NoDup (pair_of <$> outerconflicts force_load addr db ps) /\
  forall n m, (n, m) ∈ pair_of <$> outerconflicts force_load addr db ps <->
    exists p q, p ∈ ps /\ q ∈ db /\ name q ∉ name <$> ps /\ name p = n /\ name q = m /\ (declares p q \/ declares q p).
Proof. by apply outer_correct. Qed.

Definition ex_foe : pkg := with_conflicts (mkpkg 7 (lit "foe") (lit "1")) [Deps.dep_from_string (lit "b<2")].
Lemma innerconflicts_witness : (lit "foe", lit "b") ∈ pair_of <$> innerconflicts (fun _ => false) pkg_id [Deps.ex_b; ex_foe].
Proof.
  apply (innerconflicts_spec (fun _ => false) pkg_id [Deps.ex_b; ex_foe]); [done|by_decide|]. exists ex_foe, Deps.ex_b.
  split_and!; [by_decide|by_decide|done|done|]. split; [by_decide|]. exists (Deps.dep_from_string (lit "b<2")).
  split; [by_decide|reflexivity].
Defined.
Lemma outerconflicts_witness : (lit "b", lit "foe") ∈ pair_of <$> outerconflicts (fun _ => false) pkg_id [ex_foe] [Deps.ex_b].
Proof.
  apply (outerconflicts_spec (fun _ => false) pkg_id [ex_foe] [Deps.ex_b]); [done|by_decide..|]. exists Deps.ex_b, ex_foe.
  split_and!; [by_decide|by_decide|by_decide|done|done|]. right. split; [by_decide|].
  exists (Deps.dep_from_string (lit "b<2")). split; [by_decide|reflexivity].
Defined.

(** ** File conflicts *)

Section FileLemmas.
Context (fnmatch : cstr -> cstr -> Z) (lstat : cstr -> option bool) (readdir : cstr -> option (list cstr)).
Context (root : cstr) (overwrite_files : list cstr) (local : list pkg) (dir_fuel : nat) (upgrade rem : list pkg).

Notation judge := (judge fnmatch lstat readdir root overwrite_files local dir_fuel upgrade rem).
Notation check_files := (check_files fnmatch lstat readdir root overwrite_files local).
Notation check_targets := (check_targets fnmatch root overwrite_files).

(** The lists of all packages involved are as [_klpm_filelist_sort] leaves them
    and hold no empty name. *)
Definition sound_files (p : pkg) : Prop := FileList.strict (files p) /\ [] ∉ FileList.names (files p).
Context (Hlocal : Forall sound_files local) (Hupgrade : Forall sound_files upgrade) (Hrem : Forall sound_files rem).

Definition has_file (p : pkg) (f : cstr) : Prop := f ∈ FileList.names (files p).
(** A name without its trailing slash. *)
Definition bare (f : cstr) : cstr := if FileList.is_dir_name f then take (length f - 1) f else f.

(** What is inside the directory [dir], at any depth. *)
Inductive below (dir : cstr) : cstr -> Prop :=
| below_entry entries ent d : readdir (root ++ dir) = Some entries -> ent ∈ entries ->
    lstat (root ++ dir ++ ent) = Some d -> below dir (dir ++ ent ++ (if d : bool then ["/"%char] else []))
| below_deeper entries ent path : readdir (root ++ dir) = Some entries -> ent ∈ entries ->
    lstat (root ++ dir ++ ent) = Some true -> below (dir ++ ent ++ ["/"%char]) path -> below dir path.

(** The present file goes away or changes hands: it belongs to the installed
    version of [p1], to a package being removed, or to the installed version of
    another target. *)
Inductive gives_way (p1 : pkg) (f : cstr) : Prop :=
| gives_way_old old : FileList.is_dir_name f = true -> old ∈ local -> name old = name p1 -> has_file old (bare f) -> gives_way p1 f
| gives_way_removed q : q ∈ rem -> has_file q (bare f) -> gives_way p1 f
| gives_way_hands q l : q ∈ upgrade -> pkg_id q <> pkg_id p1 -> l ∈ local -> name l = name q ->
    has_file l (bare f) -> gives_way p1 f.

(** Installing [f] of [p1] over what is at its path ([is_dir] if that is a
    directory) destroys nothing it should not. *)
Inductive excused (p1 : pkg) (f : cstr) : bool -> Prop :=
| excused_dir : FileList.is_dir_name f = true -> excused p1 f true
| excused_gives_way is_dir : gives_way p1 f -> excused p1 f is_dir
| excused_dir_goes : (exists l, l ∈ local /\ has_file l (bare f ++ ["/"%char])) ->
    (forall l, l ∈ local -> has_file l (bare f ++ ["/"%char]) -> name l = name p1 \/ name l ∈ name <$> rem) ->
    (forall path, below (bare f ++ ["/"%char]) path ->
       exists l, l ∈ local /\ (name l = name p1 \/ name l ∈ name <$> rem) /\ has_file l path) ->
    excused p1 f true
| excused_backup is_dir : bare f ∈ b_name <$> backups p1 -> (forall l, l ∈ local -> ~ has_file l (bare f)) -> excused p1 f is_dir
| excused_forced : can_overwrite_file fnmatch overwrite_files f (root ++ bare f) = true -> excused p1 f false.

(** Nothing is there, or it is excused, or [f] lies in a directory of the
    package that replaces a file that gives way. *)
Definition harmless (p1 : pkg) (f : cstr) : Prop :=
  (forall d, llstat lstat (root ++ f) = Some d -> excused p1 f d) \/
  exists g, has_file p1 g /\ is_prefix g f = true /\ FileList.is_dir_name g = true /\
    llstat lstat (root ++ g) = Some false /\ gives_way p1 g.

Lemma owns_spec p f : sound_files p -> owns f p = true <-> has_file p f.
Proof.
  intros [Hs _]. unfold owns, has_file. pose proof (FileList.contains_exact (files p) f Hs) as H.
  destruct (FileList.contains (Some (files p)) f) as [x|]; [|done]. destruct H as [Hx <-].
  split; [intros _|done]. apply list_elem_of_fmap. eauto.
Qed.
Lemma existsb_owns l f : Forall sound_files l -> existsb (owns f) l = true <-> exists p, p ∈ l /\ has_file p f.
Proof.
  rewrite Forall_forall. intros Hl. rewrite existsb_exists. setoid_rewrite <- list_elem_of_In.
  split; intros (p & Hp & H); exists p; (split; [done|]); by apply (owns_spec p f (Hl p Hp)).
Qed.
Lemma owners_elem l f : l ∈ db_find_file_owners local f <-> l ∈ local /\ has_file l f.
Proof.
  unfold db_find_file_owners. rewrite list_elem_of_In, filter_In, <- list_elem_of_In. rewrite Forall_forall in Hlocal.
  split; intros [Hl H]; (split; [done|]); by apply (owns_spec l f (Hlocal l Hl)).
Qed.

Lemma pfile_isdir_name f : f <> [] -> pfile_isdir root f = FileList.is_dir_name f.
Proof. intros Hf. unfold pfile_isdir, rooted, FileList.is_dir_name. destruct f; [done|]. by rewrite last_app_cons. Qed.
Lemma cut_path_bare f : f <> [] -> cut_path root f = root ++ bare f.
Proof.
  intros Hf. unfold cut_path, bare. rewrite pfile_isdir_name by done. unfold rooted.
  destruct (FileList.is_dir_name f); [|done]. rewrite length_app, take_app.
  destruct f; [done|]. simpl. rewrite take_ge by lia. f_equal. f_equal. lia.
Qed.
Lemma relative_path_bare f : f <> [] -> relative_path root f = bare f.
Proof. intros Hf. unfold relative_path. rewrite cut_path_bare by done. by rewrite drop_app_length. Qed.

Lemma dir_belongsto_spec fuel dir pkgs path :
  Forall sound_files pkgs -> dir_belongsto_pkgs lstat readdir root fuel dir pkgs = true -> below dir path ->
  exists p, p ∈ pkgs /\ has_file p path.
Proof.
  intros Hs. revert dir. induction fuel as [|fuel IH]; intros dir H Hb; cbn [dir_belongsto_pkgs] in H; [done|].
  destruct Hb as [entries ent d Er He El|entries ent path Er He El Hb]; rewrite Er in H; rewrite forallb_forall in H;
    apply list_elem_of_In, H in He; rewrite El in He; simpl in He.
  - apply (existsb_owns _ _ Hs). destruct d; [|rewrite andb_false_r in He; exact He]. by destruct (existsb _ _).
  - destruct (existsb _ _); simpl in He; [|done]. by apply (IH (dir ++ ent ++ ["/"%char])).
Qed.

Lemma local_pkg_Some n old : local_pkg local n = Some old -> old ∈ local /\ name old = n.
Proof. intros H%Package.pkg_find_Some. done. Qed.

(** *** The reasons of CHECK 2 *)

Lemma was_file_spec p1 f :
  f <> [] -> was_file root (local_pkg local (name p1)) f = true -> gives_way p1 f.
Proof.
  intros Hf [H1 H2]%andb_true_iff. rewrite pfile_isdir_name in H1 by done. rewrite relative_path_bare in H2 by done.
  destruct (local_pkg local (name p1)) as [old|] eqn:E; [|done]. apply local_pkg_Some in E as [Ho En].
  apply (gives_way_old _ _ old); [done..|]. apply owns_spec, H2. rewrite Forall_forall in Hlocal. auto.
Qed.
Lemma will_be_removed_spec p1 f : f <> [] -> will_be_removed root rem f = true -> gives_way p1 f.
Proof.
  intros Hf H. unfold will_be_removed in H. rewrite relative_path_bare in H by done.
  apply existsb_owns in H as (q & Hq & H); [|done]. by eapply gives_way_removed.
Qed.
Lemma changed_hands_spec p1 f : f <> [] -> changed_hands root local upgrade p1 f = true -> gives_way p1 f.
Proof.
  intros Hf (q & Hq & [H1 H2]%andb_true_iff)%existsb_exists. apply list_elem_of_In in Hq.
  apply negb_true_iff, bool_decide_eq_false in H1. rewrite relative_path_bare in H2 by done.
  destruct (local_pkg local (name q)) as [l|] eqn:E; [|done]. apply local_pkg_Some in E as [Hl En].
  eapply gives_way_hands; [exact Hq|congruence|exact Hl|done|]. apply owns_spec, H2. rewrite Forall_forall in Hlocal. auto.
Qed.

Context (Hnames : NoDup (name <$> local)).

Lemma dir_goes_away_spec p1 f d :
  f <> [] -> dir_goes_away lstat readdir root local dir_fuel rem (local_pkg local (name p1)) f d = true -> excused p1 f d.
Proof.
  intros Hf [-> H]%andb_true_iff. rewrite relative_path_bare in H by done. cbv zeta in H. set (dir := bare f ++ ["/"%char]) in *.
  destruct (db_find_file_owners local dir) as [|l0 owners] eqn:Eo; [done|].
  destruct (KList.diff _ _ _) as [|] eqn:Ed; [|done].
  assert (forall l, l ∈ local -> has_file l dir -> name l = name p1 \/ name l ∈ name <$> rem) as Hgo.
  { intros l Hl Hd. assert (l ∈ l0 :: owners) as Hin by (rewrite <- Eo; by apply owners_elem).
    assert (NoDup (name <$> l0 :: owners)) as Hnd.
    { rewrite <- Eo. eapply NoDup_sub, Hnames. apply fmap_submseteq, sublist_submseteq, list_filter_sublist. }
    destruct (decide (name l ∈ name <$> (match local_pkg local (name p1) with Some d => [d] | None => [] end) ++ rem)) as [Hn|Hn].
    - rewrite fmap_app, elem_of_app in Hn. destruct Hn as [Hn|?]; [left|by right].
      destruct (local_pkg local (name p1)) as [old|] eqn:E; [|by apply elem_of_nil in Hn].
      apply local_pkg_Some in E as [_ <-]. by apply list_elem_of_singleton in Hn.
    - exfalso. assert (l ∈ KList.diff Package.pkg_cmp (l0 :: owners)
        ((match local_pkg local (name p1) with Some d => [d] | None => [] end) ++ rem)) as Hbad
        by (by apply (KList.diff_elem _ name)).
      rewrite Ed in Hbad. by apply elem_of_nil in Hbad. }
  apply excused_dir_goes; [|exact Hgo|].
  - exists l0. apply (owners_elem l0 dir). rewrite Eo. set_solver.
  - intros path Hb. rewrite <- Eo in H. eapply dir_belongsto_spec in H as (l & Hl & Hh); [| |exact Hb].
    + apply owners_elem in Hl as [Hl Hd]. eauto.
    + apply Forall_forall. intros l [Hl _]%owners_elem. rewrite Forall_forall in Hlocal. auto.
Qed.
Lemma unowned_backup_spec p1 f d : f <> [] -> unowned_backup root local p1 f = true -> excused p1 f d.
Proof.
  intros Hf H. unfold unowned_backup, Package.needbackup in H. rewrite relative_path_bare in H by done.
  destruct (find_first _ _) as [b|] eqn:E; [|done]. apply find_first_Some in E as [Hb Eb].
  apply Z.eqb_eq, strcmp_eq in Eb. apply excused_backup.
  - rewrite Eb. apply list_elem_of_fmap. eauto.
  - intros l Hl Hh. apply negb_true_iff in H. rewrite (proj2 (existsb_owns local (bare f) Hlocal)) in H; [done|eauto].
Qed.

Lemma judge_excused p1 f d :
  f <> [] -> v_resolved (judge p1 (local_pkg local (name p1)) f d) = true -> excused p1 f d.
Proof.
  intros Hf. unfold Conflict.judge.
  destruct (was_file _ _ _) eqn:E1; [intros _; by apply excused_gives_way, was_file_spec|].
  destruct (will_be_removed _ _ _) eqn:E2; [intros _; by apply excused_gives_way, will_be_removed_spec|].
  destruct (changed_hands _ _ _ _ _) eqn:E3; [intros _; by apply excused_gives_way, changed_hands_spec|]. simpl.
  intros [[H|H]%orb_true_iff|H]%orb_true_iff; [by apply dir_goes_away_spec|by apply unowned_backup_spec|].
  apply andb_true_iff in H as [H1%negb_true_iff H2]. subst d. apply excused_forced. by rewrite cut_path_bare in H2.
Qed.
Lemma judge_skip p1 f d :
  f <> [] -> v_skip (judge p1 (local_pkg local (name p1)) f d) = true -> FileList.is_dir_name f = true /\ gives_way p1 f.
Proof.
  intros Hf. unfold Conflict.judge.
  destruct (was_file _ _ _) eqn:E1.
  { intros _. split; [|by apply was_file_spec]. apply andb_true_iff in E1 as [E1 _]. by rewrite pfile_isdir_name in E1. }
  destruct (will_be_removed _ _ _) eqn:E2.
  { simpl. rewrite pfile_isdir_name by done. intros H. split; [done|by apply will_be_removed_spec]. }
  destruct (changed_hands _ _ _ _ _) eqn:E3; [|done]. simpl. intros H. split; [done|by apply changed_hands_spec].
Qed.

Lemma skip_inside_spec g rest f : f ∈ rest -> f ∈ skip_inside g rest \/ is_prefix g f = true.
Proof.
  induction rest as [|x rest IH]; simpl; [auto|]. destruct (is_prefix g x) eqn:E; [|auto].
  intros [->|?]%elem_of_cons; auto.
Qed.
Lemma skip_inside_length g rest : (length (skip_inside g rest) <= length rest)%nat.
Proof. induction rest as [|x rest IH]; simpl; [lia|]. destruct (is_prefix g x); simpl; lia. Qed.
Lemma skip_inside_sub g rest f : f ∈ skip_inside g rest -> f ∈ rest.
Proof. induction rest as [|x rest IH]; simpl; [auto|]. destruct (is_prefix g x); set_solver. Qed.

Lemma check_files_spec fuel p1 newfiles st :
  (length newfiles <= fuel)%nat -> (forall f, f ∈ newfiles -> f <> [] /\ has_file p1 f) ->
  exists more, (check_files fuel dir_fuel upgrade rem p1 (local_pkg local (name p1)) newfiles st).1 = st.1 ++ more /\
    (more = [] -> forall f, f ∈ newfiles -> harmless p1 f).
Proof.
  set (dbpkg := local_pkg local (name p1)). revert newfiles st.
  induction fuel as [|fuel IH]; intros newfiles st Hf Hne; cbn [Conflict.check_files].
  { destruct newfiles; [|simpl in Hf; lia]. exists []. rewrite app_nil_r. split; [done|set_solver]. }
  destruct newfiles as [|f rest]; [exists []; rewrite app_nil_r; split; [done|set_solver]|]. simpl in Hf.
  destruct (Hne f) as [Hfne Hff]; [set_solver|].
  assert (forall st, (forall d, llstat lstat (root ++ f) = Some d -> excused p1 f d) ->
    exists more, (check_files fuel dir_fuel upgrade rem p1 dbpkg rest st).1 = st.1 ++ more /\
      (more = [] -> forall g, g ∈ f :: rest -> harmless p1 g)) as Hskip.
  { intros st' He. destruct (IH rest st') as (more & E & Hm); [lia|intros g Hg; apply Hne; set_solver|].
    exists more. split; [done|]. intros E0 g [->|Hg]%elem_of_cons; [by left|auto]. }
  destruct (llstat lstat (root ++ f)) as [d|] eqn:El; [|by apply Hskip].
  destruct (pfile_isdir root f && d) eqn:Ed.
  { apply andb_true_iff in Ed as [Ed ->]. rewrite pfile_isdir_name in Ed by done. apply Hskip. intros d [= <-]. by constructor. }
  set (v := judge p1 dbpkg f d). set (rest' := if v_skip v then _ else _).
  assert (length rest' <= length rest)%nat as Hlen by (unfold rest'; destruct (v_skip v); [apply skip_inside_length|lia]).
  assert (forall g, g ∈ rest' -> g ∈ rest) as Hsub by (unfold rest'; destruct (v_skip v); [apply skip_inside_sub|done]).
  set (st' := (_, _)). destruct (IH rest' st') as (more & E & Hm); [lia|intros g Hg; apply Hne; set_solver|].
  destruct (v_resolved v) eqn:Ev.
  - exists more. split; [exact E|]. intros E0 g [->|Hg]%elem_of_cons.
    + left. rewrite El. intros d' [= <-]. by apply judge_excused.
    + destruct (decide (g ∈ rest')) as [?|Hn]; [auto|]. unfold rest' in Hn. destruct (v_skip v) eqn:Es; [|done].
      destruct (skip_inside_spec f rest g Hg) as [?|Hp]; [done|]. apply judge_skip in Es as [Hdir Hg']; [|done].
      right. exists f. split_and!; [done|done|done| |done]. rewrite pfile_isdir_name, Hdir in Ed by done. simpl in Ed. by subst d.
  - unfold st', add_fileconflict in E. simpl in E. rewrite <- app_assoc in E. eexists. split; [exact E|]. done.
Qed.

(** Two targets whose files are compared reliably: the names are ASCII, and none is
    a file of the one package and a directory of the other. *)
Definition comparable (p1 p2 : pkg) : Prop :=
  Forall FileList.ascii_name (FileList.names (files p1) ++ FileList.names (files p2)) /\
  (forall a b, has_file p1 a -> has_file p2 b -> ~ FileList.clash a b).
(** They share no file unless an overwrite is forced. *)
Definition disjoint_targets (p1 p2 : pkg) : Prop :=
  forall f, has_file p1 f -> has_file p2 f -> FileList.is_dir_name f = false ->
    can_overwrite_file fnmatch overwrite_files f (root ++ f) = true.

Lemma intersection_disjoint p1 p2 :
  p1 ∈ upgrade -> p2 ∈ upgrade ->
  (forall f, f ∈ FileList.intersection (files p1) (files p2) ->
     can_overwrite_file fnmatch overwrite_files f (root ++ f) && owns f p2 = true) -> comparable p1 p2 -> disjoint_targets p1 p2.
Proof.
  intros H1 H2 H [Ha Hc] f Hf1 Hf2 Hd. rewrite Forall_forall in Hupgrade.
  assert (f ∈ FileList.intersection (files p1) (files p2)) as Hin
    by (apply FileList.intersection_exact; [apply Hupgrade, H1|apply Hupgrade, H2|done..]).
  apply H, andb_true_iff in Hin as [? _]. done.
Qed.

Lemma check_targets_spec p1 conflicts p2 :
  exists more, check_targets p1 conflicts p2 = conflicts ++ more /\
    (more = [] -> p1 ∈ upgrade -> p2 ∈ upgrade -> comparable p1 p2 -> disjoint_targets p1 p2).
Proof.
  cut (exists more, check_targets p1 conflicts p2 = conflicts ++ more /\
    (more = [] -> forall f, f ∈ FileList.intersection (files p1) (files p2) ->
       can_overwrite_file fnmatch overwrite_files f (root ++ f) && owns f p2 = true)).
  { intros (more & E & H). exists more. split; [done|]. intros E0 H1 H2. by apply intersection_disjoint; auto. }
  unfold Conflict.check_targets. revert conflicts.
  induction (FileList.intersection (files p1) (files p2)) as [|f l IH]; intros conflicts; simpl.
  { exists []. rewrite app_nil_r. split; [done|set_solver]. }
  destruct (_ && _) eqn:E.
  - destruct (IH conflicts) as (more & E' & H). exists more. split; [done|]. intros E0 g [->|?]%elem_of_cons; auto.
  - destruct (IH (add_fileconflict conflicts (root ++ f) p1 (Some p2))) as (more & E' & H).
    rewrite E'. unfold add_fileconflict. rewrite <- app_assoc. eexists. split; [reflexivity|done].
Qed.

Lemma fold_targets_spec p1 l conflicts :
  exists more, fold_left (check_targets p1) l conflicts = conflicts ++ more /\
    (more = [] -> p1 ∈ upgrade -> forall p2, p2 ∈ l -> p2 ∈ upgrade -> comparable p1 p2 -> disjoint_targets p1 p2).
Proof.
  revert conflicts. induction l as [|p2 l IH]; intros conflicts; simpl.
  { exists []. rewrite app_nil_r. split; [done|set_solver]. }
  destruct (check_targets_spec p1 conflicts p2) as (m1 & -> & H1). destruct (IH (conflicts ++ m1)) as (m2 & -> & H2).
  exists (m1 ++ m2). rewrite app_assoc. split; [done|]. intros [-> ->]%app_eq_nil Hu p [->|?]%elem_of_cons; auto.
Qed.

(** The files CHECK 2 looks at: those the installed version does not have. *)
Definition brings (p1 : pkg) (f : cstr) : Prop :=
  has_file p1 f /\ forall old, old ∈ local -> name old = name p1 -> ~ has_file old f.

Lemma new_files_spec p1 :
  sound_files p1 ->
  (forall f, brings p1 f -> f ∈ new_files p1 (local_pkg local (name p1))) /\
  (forall f, f ∈ new_files p1 (local_pkg local (name p1)) -> f <> [] /\ has_file p1 f).
Proof.
  intros [Hs He]. assert (forall f, has_file p1 f -> f <> []) as Hne by (intros f Hf ->; done).
  unfold new_files. destruct (local_pkg local (name p1)) as [old|] eqn:E.
  - apply local_pkg_Some in E as [Ho En]. rewrite Forall_forall in Hlocal. destruct (Hlocal old Ho) as [Hso _].
    pose proof (FileList.difference_exact (files p1) (files old) Hs (FileList.strict_sorted _ Hso)) as Hd.
    split; intros f Hf; [apply Hd; destruct Hf; split; [done|by apply (H0 old)]|].
    apply Hd in Hf as [Hf _]. auto.
  - split; [by intros f [? _]|]. intros f Hf. split; [by apply Hne|done].
Qed.

Notation loop := (fileconflicts_loop fnmatch lstat readdir root overwrite_files local dir_fuel upgrade rem).

Lemma fileconflicts_loop_spec todo st :
  (forall p, p ∈ todo -> p ∈ upgrade) ->
  exists more, (loop todo st).1 = st.1 ++ more /\
    (more = [] ->
     (forall l1 p1 l2 p2, todo = l1 ++ p1 :: l2 -> p2 ∈ l2 -> comparable p1 p2 -> disjoint_targets p1 p2) /\
     (forall p1 f, p1 ∈ todo -> brings p1 f -> harmless p1 f)).
Proof.
  revert st. induction todo as [|p1 todo IH]; intros st Hsub; cbn [fileconflicts_loop].
  { exists []. rewrite app_nil_r. split; [done|]. intros _. split; [by intros [|]|set_solver]. }
  destruct (fold_targets_spec p1 todo st.1) as (m1 & -> & H1).
  destruct (new_files_spec p1) as [Hin Hnf]; [rewrite Forall_forall in Hupgrade; apply Hupgrade, Hsub; set_solver|].
  set (nf := new_files p1 (local_pkg local (name p1))) in *.
  destruct (check_files_spec (length nf) p1 nf (st.1 ++ m1, st.2)) as (m2 & E2 & H2); [lia|done|].
  destruct (IH (check_files (length nf) dir_fuel upgrade rem p1 (local_pkg local (name p1)) nf (st.1 ++ m1, st.2)))
    as (m3 & E3 & H3); [set_solver|].
  exists (m1 ++ m2 ++ m3). rewrite E3, E2. simpl. rewrite <- !app_assoc. split; [done|].
  intros [-> [-> ->]%app_eq_nil]%app_eq_nil. destruct (H3 eq_refl) as [H4 H5]. split.
  - intros [|x l1] p l2 p2; simpl; [intros [= -> ->] Hp; apply H1; [done| |done|]; apply Hsub; set_solver|].
    intros [= -> ->]; by apply (H4 l1).
  - intros p f [->|Hp]%elem_of_cons Hf; auto.
Qed.
End FileLemmas.

(** C24: when [_klpm_db_find_fileconflicts] finds no conflict between packages whose
    lists of files are sorted, without duplicates and without empty names, the following
    holds.  Two targets share no file except by a forced overwrite, if all their file
    names are ASCII and none is a file of the one and a directory of the other (without
    this a shared file can go unnoticed: [FileList.intersection_misses]).
    Every file a target brings, and that the installed version of it does not
    have, is harmless: nothing is at its path; or a directory meets a
    directory; or what is there belonged as a file to the installed version,
    to a package being removed or to the installed version of another target;
    or it is a directory whose owners and contents go away; or it is unowned
    and in the backup list; or it may be overwritten; or the file lies in a
    directory that replaces a file that gives way. *)
Theorem fileconflicts_safe fnmatch lstat readdir root ow local fuel upgrade rem skip skip'
    (Hlocal : Forall sound_files local) (Hupgrade : Forall sound_files upgrade) (Hrem : Forall sound_files rem)
    (Hnames : NoDup (name <$> local))
    (H : db_find_fileconflicts fnmatch lstat readdir root ow local fuel upgrade rem skip = ([], skip')) :
  (forall l1 p1 l2 p2, upgrade = l1 ++ p1 :: l2 -> p2 ∈ l2 -> comparable p1 p2 -> disjoint_targets fnmatch root ow p1 p2) /\
  (forall p1 f, p1 ∈ upgrade -> brings local p1 f ->
     harmless fnmatch lstat readdir root ow local upgrade rem p1 f).
Proof.
  unfold db_find_fileconflicts in H.
  destruct (fileconflicts_loop_spec fnmatch lstat readdir root ow local fuel upgrade rem Hlocal Hupgrade Hrem Hnames
    upgrade ([], skip)) as (more & E & Hs); [done|].
  rewrite H in E. simpl in E. by apply Hs.
Qed.

Definition ex_owner : pkg := with_files (mkpkg 8 (lit "old") (lit "1")) [File (lit "usr/x") 0 0].
Definition ex_new : pkg := with_files (mkpkg 9 (lit "new") (lit "1")) [File (lit "usr/x") 0 0].
Definition ex_second : pkg := with_files (mkpkg 10 (lit "second") (lit "1")) [File (lit "usr/y") 0 0].
Definition ex_lstat (path : cstr) : option bool := if decide (path = lit "/usr/x") then Some false else None.
Lemma ex_comparable : comparable ex_new ex_second.
Proof.
  split; [repeat constructor; by_decide|]. intros a b Ha Hb. unfold has_file in *.
  apply list_elem_of_singleton in Ha as ->. apply list_elem_of_singleton in Hb as ->. by_decide.
Qed.
(** A file of a package that is removed, and a new one, brought by two targets. *)
Lemma fileconflicts_safe_witness :
  db_find_fileconflicts (fun _ _ => 1) ex_lstat (fun _ => None) (lit "/") [] [ex_owner] 0 [ex_new; ex_second] [ex_owner] [] = ([], []) /\
  disjoint_targets (fun _ _ => 1) (lit "/") [] ex_new ex_second /\
  harmless (fun _ _ => 1) ex_lstat (fun _ => None) (lit "/") [] [ex_owner] [ex_new; ex_second] [ex_owner] ex_new (lit "usr/x").
Proof.
  assert (db_find_fileconflicts (fun _ _ => 1) ex_lstat (fun _ => None) (lit "/") [] [ex_owner] 0 [ex_new; ex_second] [ex_owner] [] = ([], [])) as E
    by (vm_compute; reflexivity).
  destruct (fileconflicts_safe (fun _ _ => 1) ex_lstat (fun _ => None) (lit "/") [] [ex_owner] 0
    [ex_new; ex_second] [ex_owner] [] []) as [H1 H2];
    [repeat constructor; by_decide..|by_decide|exact E|]. split; [exact E|]. split.
  - apply (H1 [] ex_new [ex_second] ex_second); [reflexivity|by_decide|exact ex_comparable].
  - apply (H2 ex_new (lit "usr/x")); [by_decide|]. split; [unfold has_file; by_decide|].
    intros old Ho En. apply list_elem_of_singleton in Ho as ->. discriminate En.
Defined.

End Conflict.
