(* ===== verification/Db.v ===== *)
(** * Databases ([src/lib/libkuzpkg/db.c], [group.c])

    A database object with its lazily loaded package cache (a [PkgHash] table)
    and group cache.  [status] is the bit field of [_klpm_dbstatus_t].  The
    backend's [populate] and [validate], which look at the database files, are
    parameters; what they promise is the class [Backend], which [Populate]
    discharges for the local database. *)

From S2P Require Import Prelude CStr KList Package PkgHash.
Local Open Scope Z_scope.

Module Db.

Definition DB_STATUS_VALID : Z := 1.
Definition DB_STATUS_INVALID : Z := 2.
Definition DB_STATUS_EXISTS : Z := 4.
Definition DB_STATUS_MISSING : Z := 8.
Definition DB_STATUS_LOCAL : Z := 1024.
Definition DB_STATUS_PKGCACHE : Z := 2048.
Definition DB_STATUS_GRPCACHE : Z := 4096.
Definition DB_USAGE_SEARCH : Z := 2.
Definition DB_USAGE_ALL : Z := 15.
Definition SIG_USE_DEFAULT : Z := 2 ^ 30.

(** [status & flag], [status |= flag] and [status &= ~flag] *)
Definition has (status flag : Z) : bool := negb (Z.land status flag =? 0).
Definition set_flag (status flag : Z) : Z := Z.lor status flag.
Definition clear_flag (status flag : Z) : Z := Z.land status (Z.lnot flag).

(** [klpm_group_t] *)
Record group := Group { g_name : cstr; g_packages : list pkg }.
Definition group_new (n : cstr) : group := Group n [].

(** [struct _klpm_db_t] without the back pointer to the handle. *)
Record db := MkDb {
  treename : cstr;
  pkgcache : option PkgHash.pkghash;
  grpcache : list group;
  cache_servers : list cstr;
  servers : list cstr;
  status : Z;
  siglevel : Z;
  usage : Z
}.

(** The errors the functions put into [handle->pm_errno]. *)
Inductive db_errno := OK | WRONG_ARGS | DB_INVALID | MEMORY | PKG_NOT_FOUND | INVALID_REGEX.

Definition set_status (d : db) (s : Z) : db :=
  MkDb (treename d) (pkgcache d) (grpcache d) (cache_servers d) (servers d) s (siglevel d) (usage d).
Definition set_pkgcache (d : db) (h : option PkgHash.pkghash) : db :=
  MkDb (treename d) h (grpcache d) (cache_servers d) (servers d) (status d) (siglevel d) (usage d).
Definition set_grpcache (d : db) (g : list group) : db :=
  MkDb (treename d) (pkgcache d) g (cache_servers d) (servers d) (status d) (siglevel d) (usage d).
Definition set_servers (d : db) (l : list cstr) : db :=
  MkDb (treename d) (pkgcache d) (grpcache d) (cache_servers d) l (status d) (siglevel d) (usage d).

(** [_klpm_db_new] *)
Definition db_new (n : cstr) (is_local : bool) : db :=
  MkDb n None [] [] [] (if is_local then set_flag 0 DB_STATUS_LOCAL else clear_flag 0 DB_STATUS_LOCAL) 0 DB_USAGE_ALL.

(** [klpm_db_get_siglevel] *)
Definition db_get_siglevel (handle_siglevel : Z) (d : db) : Z :=
  if has (siglevel d) SIG_USE_DEFAULT then handle_siglevel else siglevel d.

(** ** Servers *)

(** [sanitize_url] of a string that is not empty. *)
Definition sanitize_url (url : cstr) : cstr :=
  if decide (last url = Some "/"%char) then take (length url - 1) url else url.

(** [klpm_db_add_server]; [url == NULL] or empty is refused. *)
Definition db_add_server (d : db) (url : option cstr) : Z * db * db_errno :=
  match url with
  | None | Some [] => (-1, d, WRONG_ARGS)
  | Some u => (0, set_servers d (servers d ++ [sanitize_url u]), OK)
  end.

(** [klpm_db_set_servers] *)
Fixpoint add_servers (d : db) (urls : list (option cstr)) : Z * db * db_errno :=
  match urls with
  | [] => (0, d, OK)
  | u :: urls' =>
      match db_add_server d u with
      | (0, d, _) => add_servers d urls'
      | (_, d, e) => (-1, d, e)
      end
  end.
Definition db_set_servers (d : db) (urls : list (option cstr)) : Z * db * db_errno :=
  add_servers (set_servers d []) urls.

(** [klpm_db_remove_server]: 1 when the URL was not there. *)
Definition db_remove_server (d : db) (url : option cstr) : Z * db * db_errno :=
  match url with
  | None | Some [] => (-1, d, WRONG_ARGS)
  | Some u =>
      let newurl := sanitize_url u in
      match KList.find_str (servers d) newurl with
      | Some _ => (0, set_servers d (KList.remove_first strcmp (servers d) newurl), OK)
      | None => (1, d, OK)
      end
  end.

(** The same operations on the cache servers. *)
Definition set_cache_servers (d : db) (l : list cstr) : db :=
  MkDb (treename d) (pkgcache d) (grpcache d) l (servers d) (status d) (siglevel d) (usage d).
Definition db_add_cache_server (d : db) (url : option cstr) : Z * db * db_errno :=
  match url with
  | None | Some [] => (-1, d, WRONG_ARGS)
  | Some u => (0, set_cache_servers d (cache_servers d ++ [sanitize_url u]), OK)
  end.
Fixpoint add_cache_servers (d : db) (urls : list (option cstr)) : Z * db * db_errno :=
  match urls with
  | [] => (0, d, OK)
  | u :: urls' =>
      match db_add_cache_server d u with
      | (0, d, _) => add_cache_servers d urls'
      | (_, d, e) => (-1, d, e)
      end
  end.
Definition db_set_cache_servers (d : db) (urls : list (option cstr)) : Z * db * db_errno :=
  add_cache_servers (set_cache_servers d []) urls.
Definition db_remove_cache_server (d : db) (url : option cstr) : Z * db * db_errno :=
  match url with
  | None | Some [] => (-1, d, WRONG_ARGS)
  | Some u =>
      let newurl := sanitize_url u in
      match KList.find_str (cache_servers d) newurl with
      | Some _ => (0, set_cache_servers d (KList.remove_first strcmp (cache_servers d) newurl), OK)
      | None => (1, d, OK)
      end
  end.

(** ** Caches *)

Definition free_groupcache (d : db) : db :=
  if negb (has (status d) DB_STATUS_GRPCACHE) then d
  else set_status (set_grpcache d []) (clear_flag (status d) DB_STATUS_GRPCACHE).

Definition db_free_pkgcache (d : db) : db :=
  match pkgcache d with
  | None => d
  | Some _ =>
      free_groupcache (set_status (set_pkgcache d None) (clear_flag (status d) DB_STATUS_PKGCACHE))
  end.

Section Backend.
(** [db->ops->populate]: whether it succeeds, and the database afterwards. *)
Variable populate : db -> bool * db.

Definition load_pkgcache (d : db) : Z * db :=
  let d := db_free_pkgcache d in
  match populate d with
  | (false, d) => (-1, d)
  | (true, d) => (0, set_status d (set_flag (status d) DB_STATUS_PKGCACHE))
  end.

(** [_klpm_db_get_pkgcache_hash] *)
Definition db_get_pkgcache_hash (d : db) (e : db_errno) : option PkgHash.pkghash * db * db_errno :=
  if negb (has (status d) DB_STATUS_VALID) then (None, d, DB_INVALID)
  else if negb (has (status d) DB_STATUS_PKGCACHE) then
    match load_pkgcache d with
    | (0, d) => (pkgcache d, d, e)
    | (_, d) => (None, d, e)
    end
  else (pkgcache d, d, e).

(** [_klpm_db_get_pkgcache] *)
Definition db_get_pkgcache (d : db) (e : db_errno) : list pkg * db * db_errno :=
  let '(h, d, e) := db_get_pkgcache_hash d e in
  (match h with Some h => PkgHash.pkgs_of h | None => [] end, d, e).

(** [_klpm_db_get_pkgfromcache]; the outer option is the probing fuel. *)
Definition db_get_pkgfromcache (d : db) (target : cstr) (e : db_errno) : option (option pkg * db * db_errno) :=
  let '(h, d, e) := db_get_pkgcache_hash d e in
  match h with
  | None => Some (None, d, e)
  | Some h => match PkgHash.pkghash_find h target with Some r => Some (r, d, e) | None => None end
  end.

(** The loop of [load_grpcache] over the groups seen so far: the first group
    of that name that does not hold the package gets it. *)
Fixpoint join_group (grps : list group) (n : cstr) (p : pkg) : option (list group) :=
  match grps with
  | [] => None
  | g :: grps' =>
      if (strcmp (g_name g) n =? 0) && match KList.find_ptr (g_packages g) p with Some _ => false | None => true end
      then Some (Group (g_name g) (g_packages g ++ [p]) :: grps')
      else cons g <$> join_group grps' n p
  end.
Definition add_to_group (p : pkg) (grps : list group) (n : cstr) : list group :=
  match join_group grps n p with
  | Some grps' => grps'
  | None => grps ++ [Group n [p]]
  end.
Definition build_groups (grps : list group) (pkgs : list pkg) : list group :=
  fold_left (fun grps p => fold_left (add_to_group p) (groups p) grps) pkgs grps.

Definition load_grpcache (d : db) (e : db_errno) : Z * db * db_errno :=
  let '(pkgs, d, e) := db_get_pkgcache d e in
  (0, set_status (set_grpcache d (build_groups (grpcache d) pkgs)) (set_flag (status d) DB_STATUS_GRPCACHE), e).

(** [_klpm_db_get_groupcache] *)
Definition db_get_groupcache (d : db) (e : db_errno) : list group * db * db_errno :=
  if negb (has (status d) DB_STATUS_VALID) then ([], d, DB_INVALID)
  else if negb (has (status d) DB_STATUS_GRPCACHE) then
    let '(_, d, e) := load_grpcache d e in (grpcache d, d, e)
  else (grpcache d, d, e).

(** [_klpm_db_get_groupfromcache] *)
Definition db_get_groupfromcache (d : db) (target : cstr) (e : db_errno) : option group * db * db_errno :=
  match target with
  | [] => (None, d, e)
  | _ => let '(grps, d, e) := db_get_groupcache d e in
         (find_first (fun g => strcmp (g_name g) target =? 0) grps, d, e)
  end.

(** [_klpm_db_add_pkgincache]: [force_load] and [addr] are those of
    [_klpm_pkg_dup], [ptr] the list node [pkghash_add_pkg] allocates. *)
Definition with_origin (d : db) (p : pkg) : pkg :=
  {| pkg_id := pkg_id p; name_hash := name_hash p; filename := filename p; base := base p; name := name p;
     version := version p; desc := desc p; url := url p; packager := packager p; sha256sum := sha256sum p;
     base64_sig := base64_sig p; arch := arch p; builddate := builddate p; installdate := installdate p;
     size := size p; isize := isize p; download_size := download_size p; licenses := licenses p;
     replaces := replaces p; groups := groups p; backups := backups p; depends := depends p;
     optdepends := optdepends p; checkdepends := checkdepends p; makedepends := makedepends p;
     conflicts := conflicts p; provides := provides p; files := files p;
     origin := if has (status d) DB_STATUS_LOCAL then FROM_LOCALDB else FROM_SYNCDB;
     origin_db := Some (treename d); origin_file := None;
     reason := reason p; scriptlet := scriptlet p; pkg_xdata := pkg_xdata p; infolevel := infolevel p;
     validation := validation p |}.
Definition db_add_pkgincache (d : db) (p : pkg) (force_load : bool) (addr : positive) (ptr : option positive)
    (e : db_errno) : option (Z * db * db_errno) :=
  match has (status d) DB_STATUS_PKGCACHE, pkgcache d with
  | true, Some h =>
      let '(r, newpkg) := Package.pkg_dup force_load addr p in
      if negb (r =? 0) then Some (-1, d, e)
      else
        r ← PkgHash.pkghash_add_pkg h (with_origin d newpkg) true ptr;
        match r with
        | PkgHash.AddFailed h => Some (-1, set_pkgcache d (Some h), MEMORY)
        | PkgHash.Added h => Some (0, free_groupcache (set_pkgcache d (Some h)), e)
        end
  | _, _ => Some (-1, d, e)
  end.

(** [_klpm_db_remove_pkgfromcache] *)
Definition db_remove_pkgfromcache (d : db) (p : pkg) : option (Z * db) :=
  match has (status d) DB_STATUS_PKGCACHE, pkgcache d with
  | true, Some h =>
      r ← PkgHash.pkghash_remove h p;
      let '(h, data) := r in
      match data with
      | None => Some (-1, set_pkgcache d (Some h))
      | Some _ => Some (0, free_groupcache (set_pkgcache d (Some h)))
      end
  | _, _ => Some (-1, d)
  end.

(** ** Searching *)

(** <regex.h>: [regcomp] gives the compiled expression's matcher. *)
Variable regcomp : cstr -> option (cstr -> bool).

Definition search_match (targ : cstr) (regexec : cstr -> bool) (p : pkg) : bool :=
  regexec (name p) || match strstr (name p) targ with Some _ => true | None => false end
  || match desc p with Some ds => regexec ds | None => false end
  || existsb (fun provide => regexec (dep_name provide)) (provides p)
  || existsb regexec (groups p).

(** The loop over the needles; [list] is what the previous needle left and
    [ret] what [*ret] holds. *)
Fixpoint search_loop (needles : list cstr) (lst ret : list pkg) : Z * list pkg :=
  match needles with
  | [] => (0, ret)
  | targ :: needles' =>
      match regcomp targ with
      | None => (-1, [])
      | Some regexec =>
          let ret := List.filter (search_match targ regexec) lst in
          search_loop needles' ret ret
      end
  end.

(** [_klpm_db_search]: the result, [*ret], the database and the errno. *)
Definition db_search (d : db) (needles : list cstr) (ret : list pkg) (e : db_errno) : Z * list pkg * db * db_errno :=
  if negb (has (usage d) DB_USAGE_SEARCH) then (0, ret, d, e)
  else
    let '(pkgs, d, e) := db_get_pkgcache d e in
    match search_loop needles pkgs ret with
    | (0, ret) => (0, ret, d, e)
    | (_, ret) => (-1, ret, d, INVALID_REGEX)
    end.
End Backend.

(** ** Status bits *)

Lemma has_testbit s k : 0 <= k -> has s (2 ^ k) = Z.testbit s k.
Proof.
  intros Hk. unfold has. destruct (Z.testbit s k) eqn:E.
  - apply negb_true_iff, Z.eqb_neq. intros H. assert (Z.testbit (Z.land s (2 ^ k)) k = true) as Ht.
    { by rewrite Z.land_spec, E, Z.pow2_bits_true by lia. }
    rewrite H, Z.bits_0 in Ht. done.
  - apply negb_false_iff, Z.eqb_eq. apply Z.bits_inj'. intros n Hn. rewrite Z.land_spec, Z.bits_0.
    destruct (decide (n = k)) as [->|]; [by rewrite E|]. rewrite Z.pow2_bits_false by done. apply andb_false_r.
Qed.

Lemma has_set s j k : 0 <= j -> 0 <= k -> has (set_flag s (2 ^ j)) (2 ^ k) = bool_decide (j = k) || has s (2 ^ k).
Proof.
  intros Hj Hk. rewrite !has_testbit by done. unfold set_flag. rewrite Z.lor_spec, Z.pow2_bits_eqb by done.
  rewrite orb_comm. f_equal. case_bool_decide; [subst; apply Z.eqb_refl|by apply Z.eqb_neq].
Qed.

Lemma has_clear s j k : 0 <= j -> 0 <= k -> has (clear_flag s (2 ^ j)) (2 ^ k) = negb (bool_decide (j = k)) && has s (2 ^ k).
Proof.
  intros Hj Hk. rewrite !has_testbit by done. unfold clear_flag. rewrite Z.land_spec, Z.lnot_spec, Z.pow2_bits_eqb by done.
  rewrite andb_comm. f_equal. f_equal. case_bool_decide; [subst; apply Z.eqb_refl|by apply Z.eqb_neq].
Qed.

Definition loaded (d : db) : bool := has (status d) DB_STATUS_PKGCACHE.
Definition grouped (d : db) : bool := has (status d) DB_STATUS_GRPCACHE.

(** The operations on a status bit move no other one. *)
Lemma other_bit s j k : 0 <= j -> 0 <= k -> j <> k ->
  has (set_flag s (2 ^ j)) (2 ^ k) = has s (2 ^ k) /\ has (clear_flag s (2 ^ j)) (2 ^ k) = has s (2 ^ k).
Proof. intros Hj Hk Hn. rewrite has_set, has_clear by done. by rewrite bool_decide_eq_false_2. Qed.
Lemma bits_moves s :
  has (set_flag s DB_STATUS_PKGCACHE) DB_STATUS_PKGCACHE = true /\
  has (set_flag s DB_STATUS_PKGCACHE) DB_STATUS_GRPCACHE = has s DB_STATUS_GRPCACHE /\
  has (set_flag s DB_STATUS_GRPCACHE) DB_STATUS_GRPCACHE = true /\
  has (set_flag s DB_STATUS_GRPCACHE) DB_STATUS_PKGCACHE = has s DB_STATUS_PKGCACHE /\
  has (clear_flag s DB_STATUS_PKGCACHE) DB_STATUS_PKGCACHE = false /\
  has (clear_flag s DB_STATUS_PKGCACHE) DB_STATUS_GRPCACHE = has s DB_STATUS_GRPCACHE /\
  has (clear_flag s DB_STATUS_GRPCACHE) DB_STATUS_GRPCACHE = false /\
  has (clear_flag s DB_STATUS_GRPCACHE) DB_STATUS_PKGCACHE = has s DB_STATUS_PKGCACHE.
Proof.
  change DB_STATUS_PKGCACHE with (2 ^ 11). change DB_STATUS_GRPCACHE with (2 ^ 12).
  rewrite !has_set, !has_clear by lia. done.
Qed.

(** The bits of validation. *)
Record vbits := VBits { b_valid : bool; b_invalid : bool; b_missing : bool }.
Definition vbits_of (s : Z) : vbits := VBits (has s DB_STATUS_VALID) (has s DB_STATUS_INVALID) (has s DB_STATUS_MISSING).
Lemma vbits_moves s :
  vbits_of (set_flag s DB_STATUS_PKGCACHE) = vbits_of s /\ vbits_of (set_flag s DB_STATUS_GRPCACHE) = vbits_of s /\
  vbits_of (clear_flag s DB_STATUS_PKGCACHE) = vbits_of s /\ vbits_of (clear_flag s DB_STATUS_GRPCACHE) = vbits_of s.
Proof.
  unfold vbits_of. change DB_STATUS_PKGCACHE with (2 ^ 11). change DB_STATUS_GRPCACHE with (2 ^ 12).
  change DB_STATUS_VALID with (2 ^ 0). change DB_STATUS_INVALID with (2 ^ 1). change DB_STATUS_MISSING with (2 ^ 3).
  by rewrite !has_set, !has_clear by lia.
Qed.
Definition keeps_caches (s s' : Z) : Prop :=
  has s' DB_STATUS_PKGCACHE = has s DB_STATUS_PKGCACHE /\ has s' DB_STATUS_GRPCACHE = has s DB_STATUS_GRPCACHE.
(** A database that counts as valid can be read. *)
Definition sound (b : vbits) : Prop := b_valid b = true -> b_invalid b = false /\ b_missing b = false.

(** How populating may fail on a valid database: no cache counts as loaded, a table
    left behind is well formed, the group cache is as it was or freed. *)
Record failed_load (d d' : db) : Prop := {
  fl_loaded : loaded d' = false;
  fl_wf h : pkgcache d' = Some h -> PkgHash.wf h;
  fl_groups : grouped d' = grouped d /\ grpcache d' = grpcache d \/ grouped d' = false /\ grpcache d' = [];
  fl_sound : sound (vbits_of (status d'))
}.

(** What the code of this file relies on in a backend: validation leaves the
    cache bits alone and a sound verdict, and a database it has found valid is
    loaded into a well-formed table, or, with a backend that may fail, is left
    without one. *)
Class Backend (may_fail : Prop) (populate : db -> bool * db) (validate : Z -> Z) : Prop := {
  backend_validate s : sound (vbits_of s) -> keeps_caches s (validate s) /\ sound (vbits_of (validate s));
  backend_populate d : b_valid (vbits_of (status d)) = true -> sound (vbits_of (status d)) -> loaded d = false -> pkgcache d = None ->
    (exists h s, populate d = (true, set_status (set_pkgcache d (Some h)) s) /\ PkgHash.wf h /\
       keeps_caches (status d) s /\ vbits_of s = vbits_of (status d)) \/
    may_fail /\ exists d', populate d = (false, d') /\ failed_load d d'
}.

(** ** The cache invariant *)

(** The group cache is the grouping of the packages of the cache; where populating
    may fail it may also be empty, and a table that does not count as loaded may be
    left over. *)
Record db_ok (may_fail : Prop) (d : db) : Prop := {
  ok_loaded : loaded d = true -> is_Some (pkgcache d);
  ok_present : is_Some (pkgcache d) -> loaded d = true \/ may_fail;
  ok_wf h : pkgcache d = Some h -> PkgHash.wf h;
  ok_grouped : grouped d = true ->
    (exists h, pkgcache d = Some h /\ grpcache d = build_groups [] (PkgHash.pkgs_of h)) \/ may_fail /\ grpcache d = [];
  ok_ungrouped : grouped d = false -> grpcache d = [];
  ok_sound : sound (vbits_of (status d))
}.

Section Freeing.
Context (may_fail : Prop).
Notation db_ok := (db_ok may_fail).

Lemma free_groupcache_ok d :
  (loaded d = true -> is_Some (pkgcache d)) -> (is_Some (pkgcache d) -> loaded d = true \/ may_fail) ->
  (forall h, pkgcache d = Some h -> PkgHash.wf h) -> (grouped d = false -> grpcache d = []) -> sound (vbits_of (status d)) ->
  db_ok (free_groupcache d) /\ grouped (free_groupcache d) = false /\ loaded (free_groupcache d) = loaded d /\
  pkgcache (free_groupcache d) = pkgcache d /\ vbits_of (status (free_groupcache d)) = vbits_of (status d).
Proof.
  intros H1 H1' H2 H3 H4. unfold free_groupcache. fold (grouped d). destruct (grouped d) eqn:E; simpl.
  - destruct (bits_moves (status d)) as (_ & _ & _ & _ & _ & _ & B7 & B8).
    assert (grouped (set_status (set_grpcache d []) (clear_flag (status d) DB_STATUS_GRPCACHE)) = false) as G by exact B7.
    destruct (vbits_moves (status d)) as (_ & _ & _ & V).
    assert (loaded (set_status (set_grpcache d []) (clear_flag (status d) DB_STATUS_GRPCACHE)) = loaded d) as L by exact B8.
    split_and!; [|done..]. split; [by rewrite L|by rewrite L|done|congruence|done|simpl; by rewrite V].
  - split_and!; [|done..]. split; [done|done|done|congruence|auto|done].
Qed.

Lemma db_free_pkgcache_ok d : db_ok d -> db_ok (db_free_pkgcache d) /\ pkgcache (db_free_pkgcache d) = None /\
  loaded (db_free_pkgcache d) = false /\ (grouped d = false -> grouped (db_free_pkgcache d) = false) /\
  vbits_of (status (db_free_pkgcache d)) = vbits_of (status d).
Proof.
  intros [H1 H1' H2 H3 H4 H5]. unfold db_free_pkgcache. destruct (pkgcache d) as [h|] eqn:E.
  - destruct (bits_moves (status d)) as (_ & _ & _ & _ & B5 & B6 & _ & _).
    destruct (vbits_moves (status d)) as (_ & _ & V & _).
    edestruct free_groupcache_ok as (Hok & Hg & Hl & Hp & Hv);
      [..|split_and!; [exact Hok|rewrite Hp; done|rewrite Hl; exact B5|intros _; exact Hg|rewrite Hv; exact V]].
    + simpl. unfold loaded. simpl. by rewrite B5.
    + by intros [? [=]].
    + done.
    + unfold grouped. simpl. rewrite B6. exact H4.
    + simpl. by rewrite V.
  - assert (loaded d = false) as L by (destruct (loaded d); [by destruct (H1 eq_refl)|done]).
    split_and!; [by split; rewrite ?E|done..].
Qed.
End Freeing.

Section Invariant.
Context (may_fail : Prop) (populate : db -> bool * db) (validate : Z -> Z) `{!Backend may_fail populate validate}.
Notation db_ok := (db_ok may_fail).

Lemma failed_load_ok d d' : db_ok d -> pkgcache d = None -> may_fail -> failed_load d d' ->
  db_ok d' /\ (grouped d = false -> grouped d' = false).
Proof.
  intros Hok Hnone Hf [L W G S].
  assert (grouped d' = true -> grpcache d' = []) as Hg.
  { destruct G as [[E1 ->]|[? _]]; [rewrite E1; intros Hg|congruence].
    destruct (ok_grouped _ _ Hok Hg) as [(h & ? & _)|[_ ?]]; [congruence|done]. }
  split; [|destruct G as [[-> _]|[? _]]; done].
  split; [by rewrite L|by right|done|intros; right; auto| |done]. destruct G as [[-> ->]|[_ ->]]; [apply Hok|done].
Qed.

(** A cache that is returned is the one of the database. *)
Lemma get_pkgcache_hash_ok d e r d' e' :
  db_ok d -> db_get_pkgcache_hash populate d e = (r, d', e') ->
  db_ok d' /\ (grouped d = false -> grouped d' = false) /\
  (if has (status d) DB_STATUS_VALID then (exists h, r = Some h /\ pkgcache d' = Some h) \/ may_fail /\ r = None
   else r = None /\ d' = d /\ e' = DB_INVALID).
Proof.
  intros Hok. unfold db_get_pkgcache_hash. destruct (has (status d) DB_STATUS_VALID) eqn:Ev; simpl.
  2: { by intros [= <- <- <-]. }
  fold (loaded d). destruct (loaded d) eqn:El; simpl.
  { intros [= <- <- _]. split_and!; [done|done|]. destruct (ok_loaded _ _ Hok El) as [h Hh]. eauto. }
  unfold load_pkgcache. destruct (db_free_pkgcache_ok may_fail d Hok) as (Hok' & Hnone & Hl & Hg & Hv).
  set (d1 := db_free_pkgcache d) in *.
  destruct (backend_populate d1) as [(h & s & -> & Hw & [K1 K2] & Ev')|(Hf & d2 & -> & Hd2)]; [by rewrite Hv|apply Hok'|done|done|..].
  2: { destruct (failed_load_ok d1 d2 Hok' Hnone Hf Hd2) as [Hok2 Hg2]. intros [= <- <- _]. split_and!; [done|auto|by right]. }
  destruct (bits_moves s) as (B1 & B2 & _). destruct (vbits_moves s) as (V1 & _). intros [= <- <- _].
  assert (grouped (set_status (set_pkgcache d1 (Some h)) (set_flag s DB_STATUS_PKGCACHE)) = grouped d1) as G
    by (unfold grouped in *; simpl; by rewrite B2, K2).
  match goal with |- db_ok ?x /\ _ => change x with (set_status (set_pkgcache d1 (Some h)) (set_flag s DB_STATUS_PKGCACHE)) end.
  split_and!; [|rewrite G; auto|eauto]. split.
  - intros _. simpl. eauto.
  - intros _. left. exact B1.
  - by intros ? [= <-].
  - rewrite G. intros E. destruct (ok_grouped _ _ Hok' E) as [(h0 & ? & _)|?]; [congruence|by right].
  - rewrite G. apply Hok'.
  - simpl. rewrite V1, Ev', Hv. apply Hok.
Qed.

Lemma get_groupcache_ok d e g d' e' :
  db_ok d -> db_get_groupcache populate d e = (g, d', e') ->
  db_ok d' /\ (if has (status d) DB_STATUS_VALID
              then (exists h, pkgcache d' = Some h /\ g = build_groups [] (PkgHash.pkgs_of h)) \/ may_fail /\ g = [] else g = []).
Proof.
  intros Hok. unfold db_get_groupcache. destruct (has (status d) DB_STATUS_VALID) eqn:Ev; simpl.
  2: { by intros [= <- <- <-]. }
  fold (grouped d). destruct (grouped d) eqn:Eg; simpl.
  { intros [= <- <- _]. split; [done|]. by apply (ok_grouped _ _ Hok). }
  unfold load_grpcache, db_get_pkgcache. destruct (db_get_pkgcache_hash populate d e) as [[r d1] e1] eqn:E.
  destruct (get_pkgcache_hash_ok _ _ _ _ _ Hok E) as (Hok1 & Hg1 & Hr). rewrite Ev in Hr. specialize (Hg1 Eg). simpl. intros [= <- <- _].
  rewrite (ok_ungrouped _ _ Hok1 Hg1). destruct (bits_moves (status d1)) as (_ & _ & B3 & B4 & _).
  assert ((exists h, pkgcache d1 = Some h /\ build_groups [] (match r with Some h => PkgHash.pkgs_of h | None => [] end) = build_groups [] (PkgHash.pkgs_of h)) \/
    may_fail /\ build_groups [] (match r with Some h => PkgHash.pkgs_of h | None => [] end) = []) as Hb
    by (destruct Hr as [(h & -> & Hh)|[? ->]]; [left; eauto|by right]).
  split; [|exact Hb]. split; simpl.
  - unfold loaded. simpl. rewrite B4. apply Hok1.
  - unfold loaded. simpl. rewrite B4. apply Hok1.
  - apply Hok1.
  - intros _. exact Hb.
  - unfold grouped. simpl. rewrite B3. done.
  - destruct (vbits_moves (status d1)) as (_ & V2 & _). rewrite V2. apply Hok1.
Qed.

(** The operations on a database that touch its caches or its status. *)
Inductive db_step (d : db) : db -> Prop :=
  | step_validate : db_step d (set_status d (validate (status d)))
  | step_get_pkgcache e r d' e' : db_get_pkgcache populate d e = (r, d', e') -> db_step d d'
  | step_get_pkg n e r d' e' : db_get_pkgfromcache populate d n e = Some (r, d', e') -> db_step d d'
  | step_get_groupcache e r d' e' : db_get_groupcache populate d e = (r, d', e') -> db_step d d'
  | step_get_group n e r d' e' : db_get_groupfromcache populate d n e = (r, d', e') -> db_step d d'
  | step_search regcomp needles ret e z r d' e' : db_search populate regcomp d needles ret e = (z, r, d', e') -> db_step d d'
  | step_add p f a ptr e z d' e' :
      pkg_hashed p -> (forall h x, pkgcache d = Some h -> ptr = Some x -> x ∉ (PkgHash.hlist h).*1) ->
      db_add_pkgincache d p f a ptr e = Some (z, d', e') -> db_step d d'
  | step_remove p z d' : pkg_hashed p -> db_remove_pkgfromcache d p = Some (z, d') -> db_step d d'
  | step_free : db_step d (db_free_pkgcache d).

Lemma get_pkgcache_ok d e r d' e' : db_ok d -> db_get_pkgcache populate d e = (r, d', e') -> db_ok d'.
Proof.
  intros Hok. unfold db_get_pkgcache. destruct (db_get_pkgcache_hash populate d e) as [[h d1] e1] eqn:E.
  intros [= _ <- _]. by apply (get_pkgcache_hash_ok _ _ _ _ _ Hok E).
Qed.

(** Replacing a well-formed table and dropping the group cache. *)
Lemma set_pkgcache_ok d h h' :
  db_ok d -> pkgcache d = Some h -> PkgHash.wf h' -> db_ok (free_groupcache (set_pkgcache d (Some h'))).
Proof.
  intros Hok Hh Hw. apply free_groupcache_ok; simpl.
  - eauto.
  - intros _. apply (ok_present _ _ Hok). eauto.
  - by intros ? [= <-].
  - apply Hok.
  - apply Hok.
Qed.

Lemma add_pkgincache_ok d p f a ptr e z d' e' :
  db_ok d -> pkg_hashed p -> (forall h x, pkgcache d = Some h -> ptr = Some x -> x ∉ (PkgHash.hlist h).*1) ->
  db_add_pkgincache d p f a ptr e = Some (z, d', e') -> db_ok d'.
Proof.
  intros Hok Hp Hptr. unfold db_add_pkgincache. fold (loaded d). destruct (loaded d) eqn:El; [|by intros [= _ <- _]].
  destruct (pkgcache d) as [h|] eqn:Eh; [|by intros [= _ <- _]]. simpl.
  destruct f; simpl; [by intros [= _ <- _]|].
  destruct (PkgHash.add_correct h (with_origin d (Package.pkg_dup false a p).2) true ptr) as (r & Er & Hr);
    [by apply (ok_wf _ _ Hok)|done|intros x; by apply Hptr|].
  simpl in Er. rewrite Er. simpl. destruct r as [h'|h']; intros [= _ <- _].
  - destruct Hr as (Hw & Hp' & _). split; simpl.
    + eauto.
    + intros _. by left.
    + by intros ? [= <-].
    + intros Hg. destruct (ok_grouped _ _ Hok Hg) as [(h0 & E0 & ->)|?]; [left|by right]. exists h'. split; [done|].
      rewrite Eh in E0. injection E0 as <-. by rewrite Hp'.
    + apply Hok.
    + apply Hok.
  - eapply set_pkgcache_ok; [done|done|apply Hr].
Qed.

Lemma remove_pkgfromcache_ok d p z d' :
  db_ok d -> pkg_hashed p -> db_remove_pkgfromcache d p = Some (z, d') -> db_ok d'.
Proof.
  intros Hok Hp. unfold db_remove_pkgfromcache. fold (loaded d). destruct (loaded d) eqn:El; [|by intros [= _ <-]].
  destruct (pkgcache d) as [h|] eqn:Eh; [|by intros [= _ <-]].
  destruct (PkgHash.remove_correct h p (ok_wf _ _ Hok h Eh) Hp) as (h' & data & Er & Hw & Hd).
  rewrite Er. simpl. destruct data as [q|]; intros [= _ <-].
  - by eapply set_pkgcache_ok.
  - destruct Hd as [-> _]. assert (set_pkgcache d (Some h) = d) as -> by (destruct d; simpl in *; by subst). done.
Qed.

Lemma db_step_ok d d' : db_ok d -> db_step d d' -> db_ok d'.
Proof.
  intros Hok. destruct 1 as [|e r d' e' E|n e r d' e' E|e r d' e' E|n e r d' e' E|rc nd rt e z r d' e' E| | |].
  - destruct (backend_validate (status d) (ok_sound _ _ Hok)) as ([K1 K2] & Hs).
    destruct Hok as [H1 H1' H2 H3 H4 _]. split; unfold loaded, grouped in *; simpl; rewrite ?K1, ?K2; done.
  - by eapply get_pkgcache_ok.
  - unfold db_get_pkgfromcache in E. destruct (db_get_pkgcache_hash populate d e) as [[h d1] e1] eqn:Eh.
    destruct (get_pkgcache_hash_ok _ _ _ _ _ Hok Eh) as (? & _).
    destruct h as [h|]; [destruct (PkgHash.pkghash_find h n)|]; by simplify_eq.
  - by apply (get_groupcache_ok _ _ _ _ _ Hok E).
  - unfold db_get_groupfromcache in E. destruct n as [|c n]; [by simplify_eq|].
    destruct (db_get_groupcache populate d e) as [[g d1] e1] eqn:Eg.
    destruct (get_groupcache_ok _ _ _ _ _ Hok Eg) as [? _]. by simplify_eq.
  - unfold db_search in E. destruct (has (usage d) DB_USAGE_SEARCH); simpl in E; [|by simplify_eq].
    destruct (db_get_pkgcache populate d e) as [[l d1] e1] eqn:El. pose proof (get_pkgcache_ok _ _ _ _ _ Hok El).
    destruct (search_loop rc nd l rt) as [[|?|?] ?]; by simplify_eq.
  - by eapply add_pkgincache_ok.
  - by eapply remove_pkgfromcache_ok.
  - by apply db_free_pkgcache_ok.
Qed.
End Invariant.

Lemma db_new_ok may_fail n is_local : db_ok may_fail (db_new n is_local).
Proof. split; [by destruct is_local|by intros [? [=]]|done|by destruct is_local|done|by destruct is_local]. Qed.
Lemma reachable_ok may_fail populate validate `{!Backend may_fail populate validate} n is_local d :
  rtc (db_step populate validate) (db_new n is_local) d -> db_ok may_fail d.
Proof.
  intros Hd. pose proof (db_new_ok may_fail n is_local) as H0. revert H0. induction Hd as [d|d d' d'' Hs _ IH]; [done|].
  intros H0. apply IH. by eapply db_step_ok.
Qed.

(** C37: a new database keeps the cache invariant under every sequence of operations,
    validation included: a database whose status says that its packages are loaded
    has a package cache, the package cache is a well-formed hash table, and the group
    cache, when there, is the grouping of the current packages.  Over a backend whose
    populating may fail on a database found valid, the group cache may also be empty
    although there are groups (see [groupcache_stale]) and a table that does not count
    as loaded may be left over; with one that does not fail ([may_fail] is [False]) it
    is never stale. *)
Theorem db_reachable_ok may_fail populate validate n is_local d (HB : Backend may_fail populate validate)
    (Hd : rtc (db_step populate validate) (db_new n is_local) d) : db_ok may_fail d.
Proof. by eapply reachable_ok. Qed.

(** A backend that fails once leaves the groups of the database empty for
    good: [load_grpcache] marks the group cache as loaded although no package
    could be read, and loading the packages later does not drop it, because
    [_klpm_db_free_pkgcache] returns early when there is no package cache. *)
Theorem groupcache_stale :
  let p := with_groups (mkpkg 1 (lit "foo") (lit "1")) [lit "base"] in
  let h := PkgHash.PkgHash {[ 5 := (1%positive, p) ]} [(1%positive, p)] 11 1 7 in
  let d0 := set_status (db_new (lit "core") false) DB_STATUS_VALID in
  let '(_, d1, _) := db_get_groupcache (fun d => (false, d)) d0 OK in
  let '(pkgs, d2, _) := db_get_pkgcache (fun d => (true, set_pkgcache d (Some h))) d1 OK in
  let '(grps, _, _) := db_get_groupcache (fun d => (true, set_pkgcache d (Some h))) d2 OK in
  PkgHash.pkghash_find h (lit "foo") = Some (Some p) /\ pkgs = [p] /\ grps = [] /\
  build_groups [] pkgs = [Group (lit "base") [p]].
Proof. vm_compute. done. Qed.

(** ** Groups *)

(** The packages of a list that are in a group. *)
Definition members (n : cstr) (l : list pkg) : list pkg := filter (fun q => n ∈ groups q) l.

(** The state of [load_grpcache] after the packages [l] and, of the package
    [p], the groups [gs]. *)
Definition groups_inv (l : list pkg) (p : pkg) (gs : list cstr) (G : list group) : Prop :=
  NoDup (g_name <$> G) /\
  (forall g, g ∈ G -> g_packages g = members (g_name g) l ++ (if decide (g_name g ∈ gs) then [p] else [])) /\
  (forall n, n ∈ g_name <$> G <-> n ∈ gs \/ exists q, q ∈ l /\ n ∈ groups q).

Lemma join_group_spec G n p :
  NoDup (g_name <$> G) -> (forall g, g ∈ G -> g_name g = n -> p ∉ g_packages g) ->
  match join_group G n p with
  | Some G' => n ∈ g_name <$> G /\ G' = (fun g => if decide (g_name g = n) then Group n (g_packages g ++ [p]) else g) <$> G
  | None => n ∉ g_name <$> G
  end.
Proof.
  induction G as [|g G IH]; simpl; intros Hnd Hp; [set_solver|]. apply NoDup_cons in Hnd as [Hg Hnd].
  destruct (Z.eqb_spec (strcmp (g_name g) n) 0) as [E|E]; simpl.
  - apply strcmp_eq in E as <-. rewrite (proj2 (KList.find_ptr_None (g_packages g) p)) by (apply Hp; set_solver).
    split; [set_solver|]. rewrite decide_True by done. f_equal. symmetry.
    rewrite <- (list_fmap_id G) at 2. apply list_fmap_ext. intros i x Hx. rewrite decide_False; [done|].
    intros E. apply Hg. rewrite <- E. apply list_elem_of_fmap. exists x. split; [done|]. by eapply list_elem_of_lookup_2.
  - rewrite strcmp_eq in E. specialize (IH Hnd ltac:(set_solver)). destruct (join_group G n p) as [G'|]; simpl.
    + destruct IH as [? ->]. split; [set_solver|]. by rewrite decide_False.
    + set_solver.
Qed.

Lemma add_to_group_inv l p gs G n :
  groups_inv l p gs G -> n ∉ gs -> p ∉ l -> groups_inv l p (gs ++ [n]) (add_to_group p G n).
Proof.
  intros (Hnd & Hg & Hn) Hnew Hp. unfold add_to_group.
  pose proof (join_group_spec G n p Hnd) as Hj. destruct (join_group G n p) as [G'|].
  - destruct Hj as [Hin ->].
    { intros g Hgin <-. rewrite (Hg g Hgin), decide_False, app_nil_r by done. unfold members. rewrite list_elem_of_filter. tauto. }
    assert (g_name <$> ((fun g => if decide (g_name g = n) then Group n (g_packages g ++ [p]) else g) <$> G) = g_name <$> G) as En.
    { rewrite <- list_fmap_compose. apply list_fmap_ext. intros i x _. simpl. case_decide; simpl; congruence. }
    split_and!.
    + by rewrite En.
    + intros g (g0 & -> & Hg0)%list_elem_of_fmap. case_decide as E; simpl.
      * subst n. rewrite (Hg g0 Hg0), decide_False, app_nil_r by done. rewrite decide_True by set_solver. done.
      * rewrite (Hg g0 Hg0). f_equal. repeat case_decide; set_solver.
    + intros m. rewrite En, Hn, elem_of_app, list_elem_of_singleton. rewrite Hn in Hin. naive_solver.
  - assert (n ∉ g_name <$> G) as Hnn.
    { apply Hj. intros g Hgin <-. rewrite (Hg g Hgin), decide_False, app_nil_r by done. unfold members.
      rewrite list_elem_of_filter. tauto. }
    split_and!.
    + rewrite fmap_app. apply NoDup_app. split_and!; [done| |apply NoDup_singleton].
      intros x Hx Hx'. apply list_elem_of_singleton in Hx' as ->. done.
    + intros g [Hgin|Hgin]%elem_of_app.
      * rewrite (Hg g Hgin). f_equal. assert (g_name g <> n) by (intros <-; apply Hnn, list_elem_of_fmap; eauto).
        repeat case_decide; set_solver.
      * apply list_elem_of_singleton in Hgin as ->. simpl. rewrite decide_True by set_solver.
        assert (members n l = []) as ->; [|done]. unfold members.
        destruct (filter _ l) as [|q r] eqn:E; [done|exfalso]. apply Hnn, Hn. right. exists q.
        assert (q ∈ filter (fun q => n ∈ groups q) l) as Hq by (rewrite E; set_solver).
        by apply list_elem_of_filter in Hq as [? ?].
    + intros m. rewrite fmap_app, elem_of_app, Hn, elem_of_app. simpl. rewrite !list_elem_of_singleton. naive_solver.
Qed.

Lemma fold_groups_inv l p gs gs' G :
  groups_inv l p gs G -> NoDup (gs ++ gs') -> p ∉ l -> groups_inv l p (gs ++ gs') (fold_left (add_to_group p) gs' G).
Proof.
  revert gs G. induction gs' as [|n gs' IH]; intros gs G HG Hnd Hp; simpl; [by rewrite app_nil_r|].
  replace (gs ++ n :: gs') with ((gs ++ [n]) ++ gs') in * by (by rewrite <- app_assoc).
  apply IH; [|done|done]. apply add_to_group_inv; [done| |done].
  rewrite <- app_assoc in Hnd. apply NoDup_app in Hnd as (_ & Hd & _). intros Hn. apply (Hd n Hn). set_solver.
Qed.

Lemma build_groups_inv l l' G :
  (forall p, groups_inv l p [] G) -> NoDup (l ++ l') -> Forall (fun p => NoDup (groups p)) l' ->
  forall p, groups_inv (l ++ l') p [] (build_groups G l').
Proof.
  revert l G. induction l' as [|q l' IH]; intros l G HG Hnd Hgs; simpl; [by rewrite app_nil_r|].
  inversion Hgs as [|? ? Hq Hgs']; subst.
  replace (l ++ q :: l') with ((l ++ [q]) ++ l') in * by (by rewrite <- app_assoc).
  apply IH; [|done|done]. intros p.
  assert (q ∉ l) as Hql.
  { rewrite <- app_assoc in Hnd. apply NoDup_app in Hnd as (_ & Hd & _). intros H. apply (Hd q H). set_solver. }
  destruct (fold_groups_inv l q [] (groups q) G (HG q) Hq Hql) as (H1 & H2 & H3). simpl in *.
  split_and!; [done| |].
  - intros g Hg. rewrite (H2 g Hg), (decide_False (P := g_name g ∈ [])) by set_solver. rewrite app_nil_r. unfold members.
    rewrite filter_app. by f_equal.
  - intros n. rewrite H3. setoid_rewrite elem_of_app. setoid_rewrite list_elem_of_singleton. split.
    + intros [?|(x & ? & ?)]; right; eauto.
    + intros [?%elem_of_nil|(x & [?| ->] & ?)]; [done|right; eauto|by left].
Qed.

(** The group cache built from a package cache has one entry per group, and
    the entry lists exactly the packages of that group in cache order, when no
    package names a group twice. *)
Theorem build_groups_spec pkgs (Hnd : NoDup pkgs) (Hgs : Forall (fun p => NoDup (groups p)) pkgs) :
  NoDup (g_name <$> build_groups [] pkgs) /\
  (forall g, g ∈ build_groups [] pkgs -> g_packages g = members (g_name g) pkgs) /\
  (forall n, n ∈ g_name <$> build_groups [] pkgs <-> exists q, q ∈ pkgs /\ n ∈ groups q).
Proof.
  destruct (build_groups_inv [] pkgs [] (fun p => ltac:(split_and!; [constructor|set_solver|set_solver])) Hnd Hgs
    (mkpkg 1 [] [])) as (H1 & H2 & H3). split_and!; [done| |].
  - intros g Hg. rewrite (H2 g Hg), decide_False by set_solver. by rewrite app_nil_r.
  - intros n. rewrite H3. set_solver.
Qed.

(** ** Searching *)

Lemma search_loop_spec regcomp needles l ret :
  (forall t, t ∈ needles -> is_Some (regcomp t)) -> needles <> [] ->
  exists r, search_loop regcomp needles l ret = (0, r) /\
    forall p, p ∈ r <-> p ∈ l /\ forall t rx, t ∈ needles -> regcomp t = Some rx -> search_match t rx p = true.
Proof.
  revert l ret. induction needles as [|t ns IH]; intros l ret Hc Hne; [done|]. cbn [search_loop].
  destruct (Hc t) as [rx Hrx]; [set_solver|]. rewrite Hrx.
  set (l' := List.filter (search_match t rx) l).
  assert (forall p, p ∈ l' <-> p ∈ l /\ search_match t rx p = true) as Hl'.
  { intros p. unfold l'. by rewrite !list_elem_of_In, filter_In. }
  destruct ns as [|t' ns].
  - exists l'. split; [done|]. intros p. rewrite Hl'. split.
    + intros [? ?]. split; [done|]. intros t2 rx2 ->%list_elem_of_singleton. congruence.
    + intros [? HM]. split; [done|]. apply HM; [set_solver|done].
  - destruct (IH l' l') as (r & E & Hr); [set_solver|done|]. exists r. split; [done|].
    intros p. rewrite Hr, Hl'. split.
    + intros [[? ?] HM]. split; [done|]. intros t2 rx2 [->|Ht2]%elem_of_cons; [congruence|]. by apply HM.
    + intros [? HM]. split_and!; [done|apply HM; [set_solver|done]|]. intros t2 rx2 Ht2. apply HM. set_solver.
Qed.

(** A search with at least one needle, all of them valid expressions,
    returns exactly the packages of the cache that every needle matches. *)
Theorem db_search_spec populate regcomp d needles ret e l d' e'
    (Hu : has (usage d) DB_USAGE_SEARCH = true) (Hc : forall t, t ∈ needles -> is_Some (regcomp t)) (Hne : needles <> [])
    (Hl : db_get_pkgcache populate d e = (l, d', e')) :
  exists r, db_search populate regcomp d needles ret e = (0, r, d', e') /\
    forall p, p ∈ r <-> p ∈ l /\ forall t rx, t ∈ needles -> regcomp t = Some rx -> search_match t rx p = true.
Proof.
  unfold db_search. rewrite Hu, Hl. simpl.
  destruct (search_loop_spec regcomp needles l ret Hc Hne) as (r & -> & Hr). eauto.
Qed.


(** *** Witnesses *)

Definition ex_populate (d : db) : bool * db := (true, set_pkgcache d (Some PkgHash.ex_hash)).
Definition ex_validate (s : Z) : Z := Z.lor DB_STATUS_VALID (Z.land s (DB_STATUS_LOCAL + DB_STATUS_PKGCACHE + DB_STATUS_GRPCACHE)).
Definition ex_db : db := set_status (db_new (lit "core") false) DB_STATUS_VALID.

Lemma has_lor s t k : 0 <= k -> has (Z.lor s t) (2 ^ k) = has s (2 ^ k) || has t (2 ^ k).
Proof. intros Hk. by rewrite !has_testbit, Z.lor_spec. Qed.
Lemma has_land s t k : 0 <= k -> has (Z.land s t) (2 ^ k) = has s (2 ^ k) && has t (2 ^ k).
Proof. intros Hk. by rewrite !has_testbit, Z.land_spec. Qed.
#[local] Instance ex_backend : Backend False ex_populate ex_validate.
Proof.
  split.
  - intros s _. unfold keeps_caches, sound, vbits_of, ex_validate. cbn [b_valid b_invalid b_missing].
    change DB_STATUS_PKGCACHE with (2 ^ 11) at 1 2. change DB_STATUS_GRPCACHE with (2 ^ 12) at 2 3.
    change DB_STATUS_INVALID with (2 ^ 1). change DB_STATUS_MISSING with (2 ^ 3).
    rewrite !has_lor, !has_land by done. cbn [orb]. split; [|intros _; by rewrite !andb_false_r].
    by rewrite !andb_true_r.
  - intros d _ _ _ _. left. exists PkgHash.ex_hash, (status d). split_and!; [by destruct d|apply PkgHash.ex_hash_wf|done|done].
Qed.
Lemma db_reachable_witness :
  let d := (db_get_pkgcache ex_populate (set_status (db_new (lit "core") false) 1) OK).1.2 in
  db_ok False d /\ pkgcache d = Some PkgHash.ex_hash.
Proof.
  split; [|reflexivity]. apply (db_reachable_ok False ex_populate ex_validate (lit "core") false _ ex_backend).
  eapply rtc_l; [apply step_validate|]. eapply rtc_once. eapply (step_get_pkgcache _ _ _ OK). reflexivity.
Defined.

Definition ex_grouped : list pkg :=
  [with_groups (mkpkg 1 (lit "a") (lit "1")) [lit "base"; lit "x"]; with_groups (mkpkg 2 (lit "b") (lit "1")) [lit "base"]].
Lemma build_groups_witness : NoDup (g_name <$> build_groups [] ex_grouped) /\ lit "base" ∈ g_name <$> build_groups [] ex_grouped.
Proof.
  destruct (build_groups_spec ex_grouped) as (H1 & _ & H3); [by_decide|by_decide|]. split; [exact H1|].
  apply H3. exists (with_groups (mkpkg 2 (lit "b") (lit "1")) [lit "base"]). split; by_decide.
Defined.

Lemma db_search_witness :
  exists r, db_search ex_populate (fun t => Some (fun s => bool_decide (s = t))) ex_db [lit "zlib"] [] OK =
      (0, r, (db_get_pkgcache ex_populate ex_db OK).1.2, OK) /\ PkgHash.ex_zlib ∈ r.
Proof.
  destruct (db_search_spec ex_populate (fun t => Some (fun s => bool_decide (s = t))) ex_db [lit "zlib"] [] OK
    (PkgHash.pkgs_of PkgHash.ex_hash) (db_get_pkgcache ex_populate ex_db OK).1.2 OK) as (r & E & Hr).
  - reflexivity.
  - intros t _. eauto.
  - discriminate.
  - reflexivity.
  - exists r. split; [exact E|]. apply Hr. split; [by_decide|].
    intros t rx ->%list_elem_of_singleton [= <-]. vm_compute. reflexivity.
Defined.

End Db.
