(* ===== verification/Handle.v ===== *)
(** * The handle and the transaction object
    ([src/lib/libkuzpkg/handle.h], [handle.c], [trans.h], [trans.c], [add.c],
    [remove.c])

    The part of [klpm_handle_t] the transaction code works on, the lock, and
    the operations that create, fill, interrupt and release a transaction.
    Packages are shared objects: the fields a transaction writes into them
    ([reason], [removes], [oldpkg], [download_size]) live in a store keyed by
    the address of the package. *)

From S2P Require Import Prelude CStr Package.
Local Open Scope Z_scope.

Module Handle.

(** [klpm_transflag_t] *)
Definition FLAG_NODEPS : Z := 1.
Definition FLAG_NODEPVERSION : Z := 2 ^ 3.
Definition FLAG_CASCADE : Z := 2 ^ 4.
Definition FLAG_RECURSE : Z := 2 ^ 5.
Definition FLAG_NOHOOKS : Z := 2 ^ 7.
Definition FLAG_DOWNLOADONLY : Z := 2 ^ 9.
Definition FLAG_NOCONFLICTS : Z := 2 ^ 11.
Definition FLAG_NEEDED : Z := 2 ^ 13.
Definition FLAG_UNNEEDED : Z := 2 ^ 15.
Definition FLAG_RECURSEALL : Z := 2 ^ 16.
Definition FLAG_NOLOCK : Z := 2 ^ 17.

(** [flags & flag] as a truth value *)
Definition has (flags flag : Z) : bool := negb (Z.land flags flag =? 0).

(** [klpm_transstate_t] *)
Inductive transstate :=
  STATE_IDLE | STATE_INITIALIZED | STATE_PREPARED | STATE_DOWNLOADING
  | STATE_COMMITTING | STATE_COMMITTED | STATE_INTERRUPTED.
#[global] Instance transstate_eq_dec : EqDecision transstate.
Proof. solve_decision. Defined.

(** [klpm_trans_t] *)
Record trans := MkTrans {
  t_flags : Z; t_state : transstate; t_unresolvable : list pkg;
  t_add : list pkg; t_remove : list pkg; t_skip_remove : list cstr
}.

(** The values of [klpm_errno_t] the transaction code sets. *)
Inductive errno :=
  ERR_OK | ERR_MEMORY | ERR_SYSTEM | ERR_WRONG_ARGS | ERR_HANDLE_LOCK
  | ERR_TRANS_NOT_NULL | ERR_TRANS_NULL | ERR_TRANS_DUP_TARGET | ERR_TRANS_DUP_FILENAME
  | ERR_TRANS_NOT_INITIALIZED | ERR_TRANS_NOT_PREPARED | ERR_TRANS_ABORT | ERR_TRANS_TYPE
  | ERR_TRANS_NOT_LOCKED | ERR_TRANS_HOOK_FAILED | ERR_PKG_INVALID | ERR_PKG_INVALID_NAME | ERR_PKG_INVALID_ARCH
  | ERR_UNSATISFIED_DEPS | ERR_CONFLICTING_DEPS | ERR_DB_INVALID | ERR_DB_NOT_FOUND
  | ERR_PKG_IGNORED | ERR_PKG_NOT_FOUND.
#[global] Instance errno_eq_dec : EqDecision errno.
Proof. solve_decision. Defined.

(** The fields of a package object the transaction writes; [None] for a field
    that still has the value the package was loaded with. *)
Record fields := Fields {
  o_reason : option pkgreason; o_removes : list pkg;
  o_oldpkg : option pkg; o_download_size : option Z
}.
Definition no_fields : fields := Fields None [] None None.

(** The fields of [klpm_handle_t] used here; [lockfd] tells whether
    [handle->lockfd >= 0]. *)
Record handle := MkHandle {
  h_trans : option trans; lockfile : option cstr; lockfd : bool; pm_errno : errno;
  objs : gmap positive fields;
  ignorepkg : list cstr; ignoregroup : list cstr; architectures : list cstr;
  assumeinstalled : list depend
}.

Definition set_trans (h : handle) (t : option trans) : handle :=
  MkHandle t (lockfile h) (lockfd h) (pm_errno h) (objs h) (ignorepkg h) (ignoregroup h) (architectures h) (assumeinstalled h).
Definition set_lockfd (h : handle) (b : bool) : handle :=
  MkHandle (h_trans h) (lockfile h) b (pm_errno h) (objs h) (ignorepkg h) (ignoregroup h) (architectures h) (assumeinstalled h).
Definition set_errno (h : handle) (e : errno) : handle :=
  MkHandle (h_trans h) (lockfile h) (lockfd h) e (objs h) (ignorepkg h) (ignoregroup h) (architectures h) (assumeinstalled h).
Definition set_objs (h : handle) (o : gmap positive fields) : handle :=
  MkHandle (h_trans h) (lockfile h) (lockfd h) (pm_errno h) o (ignorepkg h) (ignoregroup h) (architectures h) (assumeinstalled h).

Definition set_state (t : trans) (s : transstate) : trans :=
  MkTrans (t_flags t) s (t_unresolvable t) (t_add t) (t_remove t) (t_skip_remove t).
Definition set_add (t : trans) (l : list pkg) : trans :=
  MkTrans (t_flags t) (t_state t) (t_unresolvable t) l (t_remove t) (t_skip_remove t).
Definition set_remove (t : trans) (l : list pkg) : trans :=
  MkTrans (t_flags t) (t_state t) (t_unresolvable t) (t_add t) l (t_skip_remove t).
Definition set_unresolvable (t : trans) (l : list pkg) : trans :=
  MkTrans (t_flags t) (t_state t) l (t_add t) (t_remove t) (t_skip_remove t).

(** The fields of one package object: reading and writing the store. *)
Definition fields_of (o : gmap positive fields) (p : pkg) : fields := default no_fields (o !! pkg_id p).
Definition get_removes (o : gmap positive fields) (p : pkg) : list pkg := o_removes (fields_of o p).
Definition get_reason (o : gmap positive fields) (p : pkg) : pkgreason := default (reason p) (o_reason (fields_of o p)).
Definition put_reason (p : pkg) (r : pkgreason) (o : gmap positive fields) : gmap positive fields :=
  let f := fields_of o p in <[pkg_id p := Fields (Some r) (o_removes f) (o_oldpkg f) (o_download_size f)]> o.
Definition put_removes (p : pkg) (l : list pkg) (o : gmap positive fields) : gmap positive fields :=
  let f := fields_of o p in <[pkg_id p := Fields (o_reason f) l (o_oldpkg f) (o_download_size f)]> o.
Definition put_oldpkg (p old : pkg) (o : gmap positive fields) : gmap positive fields :=
  let f := fields_of o p in <[pkg_id p := Fields (o_reason f) (o_removes f) (Some old) (o_download_size f)]> o.
Definition put_download_size (p : pkg) (z : Z) (o : gmap positive fields) : gmap positive fields :=
  let f := fields_of o p in <[pkg_id p := Fields (o_reason f) (o_removes f) (o_oldpkg f) (Some z)]> o.

(** ** The lock *)

(** [_klpm_handle_lock]; [makepath_ok] and [open_ok] are the outcomes of
    creating the directory and of the exclusive creation of the lock file. *)
Definition handle_lock (makepath_ok open_ok : bool) (h : handle) : Z * handle :=
  match lockfile h with
  | None => (-1, h)
  | Some _ =>
      if lockfd h then (0, h)
      else if negb makepath_ok then (-1, h)
      else if open_ok then (0, set_lockfd h true) else (-1, set_lockfd h false)
  end.

(** The outcome of [unlink] on the lock file. *)
Inductive unlink_result := UNLINKED | UNLINK_ENOENT | UNLINK_FAILED.

(** [klpm_unlock] *)
Definition unlock (unlink : unlink_result) (h : handle) : Z * handle :=
  match lockfile h with
  | None => (0, h)
  | Some _ =>
      if lockfd h then
        let h := set_lockfd h false in
        match unlink with UNLINKED => (0, h) | _ => (-1, set_errno h ERR_SYSTEM) end
      else (0, h)
  end.

(** [_klpm_handle_unlock]; [errno] is the one [unlink] left. *)
Definition handle_unlock (unlink : unlink_result) (h : handle) : Z * handle :=
  let '(r, h) := unlock unlink h in
  if r =? 0 then (0, h)
  else match unlink with UNLINK_ENOENT => (0, h) | _ => (-1, h) end.

(** ** Creating and releasing a transaction *)

(** [CHECK_HANDLE]: every entry point clears the error first. *)
Definition check_handle (h : handle) : handle := set_errno h ERR_OK.
(** [RET_ERR(handle, err, -1)] *)
Definition ret_err (h : handle) (e : errno) : Z * handle := (-1, set_errno h e).

(** [klpm_trans_init]; [calloc_ok] is the outcome of the allocation. *)
Definition trans_init (makepath_ok open_ok calloc_ok : bool) (h : handle) (flags : Z) : Z * handle :=
  let h := check_handle h in
  match h_trans h with
  | Some _ => ret_err h ERR_TRANS_NOT_NULL
  | None =>
      let '(r, h) := if has flags FLAG_NOLOCK then (0, h) else handle_lock makepath_ok open_ok h in
      if negb (r =? 0) then ret_err h ERR_HANDLE_LOCK
      else if negb calloc_ok then ret_err h ERR_MEMORY
      else (0, set_trans h (Some (MkTrans flags STATE_INITIALIZED [] [] [] [])))
  end.

(** [klpm_trans_interrupt] *)
Definition trans_interrupt (h : handle) : Z * handle :=
  let h := check_handle h in
  match h_trans h with
  | None => ret_err h ERR_TRANS_NULL
  | Some t =>
      if decide (t_state t = STATE_COMMITTING \/ t_state t = STATE_INTERRUPTED)
      then (0, set_trans h (Some (set_state t STATE_INTERRUPTED)))
      else ret_err h ERR_TRANS_TYPE
  end.

(** [klpm_trans_release]; the packages of the lists are freed by
    [_klpm_trans_free]. *)
Definition trans_release (unlink : unlink_result) (h : handle) : Z * handle :=
  let h := check_handle h in
  match h_trans h with
  | None => ret_err h ERR_TRANS_NULL
  | Some t =>
      if decide (t_state t = STATE_IDLE) then ret_err h ERR_TRANS_NULL
      else
        let nolock_flag := has (t_flags t) FLAG_NOLOCK in
        let h := set_trans h None in
        let h := if nolock_flag then h else (handle_unlock unlink h).2 in
        (0, h)
  end.

(** ** Adding targets *)

Section Targets.
Context {D : Type} `{!PkgCache D}.
Variables (force_load : pkg -> bool) (new_addr : pkg -> positive) (db_local : D).

(** [klpm_add_pkg] for a non-NULL package of this handle. *)
Definition add_pkg (h : handle) (p : pkg) : Z * handle :=
  let h := check_handle h in
  if decide (origin p = FROM_LOCALDB) then ret_err h ERR_WRONG_ARGS
  else match h_trans h with
  | None => ret_err h ERR_TRANS_NULL
  | Some t =>
      if decide (t_state t = STATE_INITIALIZED) then
        match Package.pkg_find (t_add t) (name p) with
        | Some dup => if decide (pkg_id dup = pkg_id p) then (0, h) else ret_err h ERR_TRANS_DUP_TARGET
        | None =>
            let up_to_date := match pc_find db_local (name p) with
                              | Some local => Package.pkg_compare_versions p local =? 0
                              | None => false
                              end in
            if up_to_date && has (t_flags t) FLAG_NEEDED then (0, h)
            else (0, set_trans (set_objs h (put_reason p REASON_EXPLICIT (objs h)))
                       (Some (set_add t (t_add t ++ [p]))))
        end
      else ret_err h ERR_TRANS_NOT_INITIALIZED
  end.

(** [klpm_remove_pkg] for a non-NULL package of this handle. *)
Definition remove_pkg (h : handle) (p : pkg) : Z * handle :=
  let h := check_handle h in
  if decide (origin p = FROM_LOCALDB) then
    match h_trans h with
    | None => ret_err h ERR_TRANS_NULL
    | Some t =>
        if decide (t_state t = STATE_INITIALIZED) then
          match Package.pkg_find (t_remove t) (name p) with
          | Some _ => (0, h)
          | None =>
              let '(r, copy) := Package.pkg_dup (force_load p) (new_addr p) p in
              if r =? -1 then (-1, h)
              else (0, set_trans h (Some (set_remove t (t_remove t ++ [copy]))))
          end
        else ret_err h ERR_TRANS_NOT_INITIALIZED
    end
  else ret_err h ERR_WRONG_ARGS.
End Targets.

(** ** Architectures *)

(** The test of [check_arch] on one package. *)
Definition arch_ok (archs : list cstr) (p : pkg) : bool :=
  match arch p with
  | None => true
  | Some a => (strcmp a (lit "any") =? 0) || existsb (fun b => strcmp a b =? 0) archs
  end.

(** ["%s-%s-%s"] *)
Definition arch_string (p : pkg) : cstr :=
  name p ++ "-"%char :: version p ++ "-"%char :: default [] (arch p).

(** [check_arch]: the strings of the packages with a wrong architecture. *)
Definition check_arch (archs : list cstr) (pkgs : list pkg) : list cstr :=
  match archs with
  | [] => []
  | _ => arch_string <$> List.filter (fun p => negb (arch_ok archs p)) pkgs
  end.

Lemma check_arch_nil archs pkgs :
  check_arch archs pkgs = [] <->
  archs = [] \/ forall p a, p ∈ pkgs -> arch p = Some a -> a = lit "any" \/ a ∈ archs.
Proof.
  unfold check_arch. destruct archs as [|x archs]; [split; [by left|done]|]. set (l := x :: archs).
  assert (forall p, arch_ok l p = true <-> forall a, arch p = Some a -> a = lit "any" \/ a ∈ l) as Hok.
  { intros p. unfold arch_ok. destruct (arch p) as [a|]; [|split; [intros _ a E; done|done]].
    rewrite orb_true_iff, Z.eqb_eq, strcmp_eq, existsb_exists. split.
    - intros [->|(b & Hb & E%Z.eqb_eq%strcmp_eq)] a' [= <-]; [by left|]. right. subst. by apply list_elem_of_In.
    - intros H. destruct (H a eq_refl) as [->|Ha]; [by left|right]. exists a. rewrite Z.eqb_eq, strcmp_eq. by apply list_elem_of_In in Ha. }
  split.
  - intros H%fmap_nil_inv. right. intros p a Hp. revert a. apply Hok.
    destruct (arch_ok l p) eqn:E; [done|]. exfalso. apply list_elem_of_In in Hp.
    assert (In p (List.filter (fun p => negb (arch_ok l p)) pkgs)) as Hin by (apply filter_In; by rewrite E).
    by rewrite H in Hin.
  - intros [?|H]; [done|]. destruct (List.filter _ pkgs) as [|p r] eqn:E; [done|]. exfalso.
    assert (In p (List.filter (fun p => negb (arch_ok l p)) pkgs)) as [Hp Hn]%filter_In by (rewrite E; by left).
    rewrite (proj2 (Hok p)) in Hn; [done|]. intros a. apply H. by apply list_elem_of_In.
Qed.

End Handle.
