(* ===== verification/Remove.v ===== *)
(** * Preparing a removal ([src/lib/libkuzpkg/remove.c])

    [_klpm_remove_prepare] and its helpers: cascading to the packages whose
    dependencies would break, dropping the targets that are still needed, and
    recursing into dependencies nobody needs any more. *)

From S2P Require Import Prelude CStr KList Package Deps ResolveDeps Handle.
Local Open Scope Z_scope.

Module Remove.

Section Prepare.
Context {D : Type} `{!PkgCache D}.
(** The backend, the addresses of the copies, the local database and the parts
    of the handle that are read. *)
Variables (force_load : pkg -> bool) (new_addr : pkg -> positive) (db_local : D).
Variables (assumeinstalled : list depend) (flags : Z).

(** [no_dep_version(handle)] inside a transaction *)
Definition no_dep_version : bool := Handle.has flags Handle.FLAG_NODEPVERSION.

(** The call of [klpm_checkdeps] for the packages being removed. *)
Definition broken (remove : list pkg) : list Deps.depmissing :=
  Deps.checkdeps no_dep_version assumeinstalled (pc_list db_local) remove [] true.

(** One round of [remove_prepare_cascade]. *)
Fixpoint pull_dependents (remove : list pkg) (lp : list Deps.depmissing) : Z * list pkg :=
  match lp with
  | [] => (0, remove)
  | miss :: lp' =>
      match pc_find db_local (Deps.miss_target miss) with
      | None => pull_dependents remove lp'
      | Some info =>
          match Package.pkg_find remove (name info) with
          | Some _ => pull_dependents remove lp'
          | None =>
              let '(r, copy) := Package.pkg_dup (force_load info) (new_addr info) info in
              if r =? -1 then (-1, remove) else pull_dependents (remove ++ [copy]) lp'
          end
      end
  end.

(** [remove_prepare_cascade]: the return value and [trans->remove]. *)
Fixpoint prepare_cascade (fuel : nat) (remove : list pkg) (lp : list Deps.depmissing) : option (Z * list pkg) :=
  match lp with
  | [] => Some (0, remove)
  | _ =>
      match fuel with
      | O => None
      | S fuel =>
          let '(r, remove) := pull_dependents remove lp in
          if r =? 0 then prepare_cascade fuel remove (broken remove) else Some (r, remove)
      end
  end.

(** One round of [remove_prepare_keep_needed]. *)
Fixpoint drop_needed (remove : list pkg) (lp : list Deps.depmissing) : list pkg :=
  match lp with
  | [] => remove
  | miss :: lp' =>
      match Deps.miss_causingpkg miss ≫= Package.pkg_find remove with
      | None => drop_needed remove lp'
      | Some p => drop_needed (KList.remove_first Package.pkg_cmp remove p) lp'
      end
  end.

(** [remove_prepare_keep_needed]: [trans->remove] *)
Fixpoint prepare_keep_needed (fuel : nat) (remove : list pkg) (lp : list Deps.depmissing) : option (list pkg) :=
  match lp with
  | [] => Some remove
  | _ =>
      match fuel with
      | O => None
      | S fuel => let remove := drop_needed remove lp in prepare_keep_needed fuel remove (broken remove)
      end
  end.

(** [remove_notify_needed_optdepends]: the events it sends. *)
Definition notify_needed_optdepends (lp : list pkg) : list (pkg * depend) :=
  p ← pc_list db_local;
  match Package.pkg_find lp (name p) with
  | Some _ => []
  | None =>
      optdep ← optdepends p;
      match Deps.find_satisfier lp (Some (Deps.dep_compute_string optdep)) with
      | Some _ => [(p, optdep)]
      | None => []
      end
  end.

(** The return value, [trans->remove], [*data], the error set (if any) and the
    events sent. *)
Record prepared := Prepared {
  p_ret : Z; p_remove : list pkg; p_data : list Deps.depmissing;
  p_errno : option Handle.errno; p_events : list (pkg * depend)
}.

(** The dependency check in the middle of [_klpm_remove_prepare]: a list to go
    on with, or the final result. *)
Definition check_targets (remove : list pkg) : option (list pkg + prepared) :=
  if Handle.has flags Handle.FLAG_NODEPS then Some (inl remove)
  else
    match broken remove with
    | [] => Some (inl remove)
    | lp =>
        if Handle.has flags Handle.FLAG_CASCADE then
          c ← prepare_cascade (length (pc_list db_local)) remove lp;
          Some (if c.1 =? 0 then inl c.2 else inr (Prepared (-1) c.2 [] None []))
        else if Handle.has flags Handle.FLAG_UNNEEDED then
          inl <$> prepare_keep_needed (length remove) remove lp
        else Some (inr (Prepared (-1) remove lp (Some Handle.ERR_UNSATISFIED_DEPS) []))
    end.

(** [_klpm_recursedeps], if the flags ask for it at this point. *)
Definition recurse_if (wanted : bool) (remove : list pkg) : option (Z * list pkg) :=
  if wanted
  then ResolveDeps.recursedeps force_load new_addr (pc_list db_local) remove (Handle.has flags Handle.FLAG_RECURSEALL)
  else Some (0, remove).

(** [_klpm_remove_prepare] *)
Definition remove_prepare (remove : list pkg) : option prepared :=
  let recurse := Handle.has flags Handle.FLAG_RECURSE in
  let cascade := Handle.has flags Handle.FLAG_CASCADE in
  r ← recurse_if (recurse && negb cascade) remove;
  let '(ret, remove) := r in
  if negb (ret =? 0) then Some (Prepared (-1) remove [] None [])
  else
    c ← check_targets remove;
    match c with
    | inr result => Some result
    | inl remove =>
        r ← recurse_if (cascade && recurse) remove;
        let '(ret, remove) := r in
        if negb (ret =? 0) then Some (Prepared (-1) remove [] None [])
        else Some (Prepared 0 remove [] None
               (if Handle.has flags Handle.FLAG_NODEPS then [] else notify_needed_optdepends remove))
    end.
End Prepare.

(** ** Theorems *)

Lemma is_modified_names rem p :
  Forall pkg_hashed rem -> Deps.is_modified rem [] p = true <-> name p ∈ name <$> rem.
Proof.
  intros Hr. unfold Deps.is_modified. change (Package.pkg_find [] (name p)) with (@None pkg).
  rewrite <- Package.pkg_find_is_Some by done. destruct (Package.pkg_find rem (name p)); split; eauto; [done|]. by intros [? [=]].
Qed.

Lemma elem_of_kept rem l p :
  Forall pkg_hashed rem -> p ∈ Deps.untouched rem [] l <-> p ∈ l /\ name p ∉ name <$> rem.
Proof.
  intros Hr. rewrite Deps.elem_of_untouched, <- (is_modified_names rem) by done.
  destruct (Deps.is_modified rem [] p); naive_solver.
Qed.

(** Removing more leaves less. *)
Lemma kept_shrinks rem new l p :
  Forall pkg_hashed (rem ++ new) -> p ∈ Deps.untouched rem [] l -> name p ∈ name <$> new ->
  (length (Deps.untouched (rem ++ new) [] l) < length (Deps.untouched rem [] l))%nat.
Proof.
  intros Hh Hp Hn. assert (Forall pkg_hashed rem) as Hr by by apply Forall_app in Hh as [? _].
  assert (forall q, Deps.is_modified rem [] q = true -> Deps.is_modified (rem ++ new) [] q = true) as Hmono.
  { intros q. rewrite !is_modified_names, fmap_app by done. set_solver. }
  apply Deps.elem_of_untouched in Hp as [Hp Hm].
  assert (Deps.is_modified (rem ++ new) [] p = true) as Hm' by (rewrite is_modified_names, fmap_app by done; set_solver).
  unfold Deps.untouched. clear Hh Hr Hn.
  assert (forall l', (length (List.filter (fun p => negb (Deps.is_modified (rem ++ new) [] p)) l') <=
                      length (List.filter (fun p => negb (Deps.is_modified rem [] p)) l'))%nat) as Hle.
  { induction l' as [|q l' IH]; simpl; [lia|]. specialize (Hmono q).
    destruct (Deps.is_modified rem [] q), (Deps.is_modified (rem ++ new) [] q); simpl; try lia; by discriminate Hmono. }
  induction l as [|q l IH]; [by apply elem_of_nil in Hp|]. simpl. apply elem_of_cons in Hp as [<-|Hp].
  - rewrite Hm, Hm'. simpl. specialize (Hle l). lia.
  - specialize (IH Hp). specialize (Hmono q).
    destruct (Deps.is_modified rem [] q), (Deps.is_modified (rem ++ new) [] q); simpl; try lia; by discriminate Hmono.
Qed.

(** What [klpm_list_remove] with [_klpm_pkg_cmp] leaves of a list. *)
Lemma remove_first_sublist l p : sublist (KList.remove_first Package.pkg_cmp l p) l.
Proof.
  induction l as [|x l IH]; simpl; [done|]. case_match; [by apply sublist_cons|by apply sublist_skip].
Qed.

Lemma remove_first_shorter l p :
  p ∈ l -> (length (KList.remove_first Package.pkg_cmp l p) < length l)%nat.
Proof.
  induction l as [|x l IH]; [by intros ?%elem_of_nil|]. simpl. intros [->|Hp]%elem_of_cons.
  - unfold Package.pkg_cmp. rewrite strcmp_refl. simpl. lia.
  - case_match; simpl; [lia|]. specialize (IH Hp). lia.
Qed.

Lemma sublist_hashed l k : sublist l k -> Forall pkg_hashed k -> Forall pkg_hashed l.
Proof. intros Hs. rewrite !Forall_forall. intros H x Hx. apply H. by eapply elem_of_submseteq, sublist_submseteq. Qed.

Lemma remove_first_elem l t p :
  NoDup (name <$> l) ->
  NoDup (name <$> KList.remove_first Package.pkg_cmp l t) /\
  (p ∈ KList.remove_first Package.pkg_cmp l t <-> p ∈ l /\ name p <> name t).
Proof.
  intros Hl. split.
  { eapply NoDup_sub, Hl. apply sublist_submseteq, fmap_sublist, remove_first_sublist. }
  induction l as [|x l IH]; simpl; [set_solver|]. simpl in Hl. apply NoDup_cons in Hl as [Hx Hl].
  unfold Package.pkg_cmp at 1. destruct (Z.eqb_spec (strcmp (name x) (name t)) 0) as [E%strcmp_eq|E].
  - split; [intros Hp; split; [set_solver|]|intros [[->|?]%elem_of_cons ?]; [congruence|done]].
    intros Ep. apply Hx. rewrite E, <- Ep. apply list_elem_of_fmap. eauto.
  - rewrite !elem_of_cons, IH by done. rewrite strcmp_eq in E. naive_solver.
Qed.

Lemma remove_targets_elem targs l p :
  NoDup (name <$> l) ->
  NoDup (name <$> fold_left (KList.remove_first Package.pkg_cmp) targs l) /\
  (p ∈ fold_left (KList.remove_first Package.pkg_cmp) targs l <-> p ∈ l /\ name p ∉ name <$> targs).
Proof.
  revert l. induction targs as [|t targs IH]; intros l Hl; simpl; [set_solver|].
  destruct (remove_first_elem l t p Hl) as [Hl' Hin]. destruct (IH _ Hl') as [? Hin2]. split; [done|].
  rewrite Hin2, Hin. set_solver.
Qed.

Section Lemmas.
Context {D : Type} `{!PkgCache D} (force_load : pkg -> bool) (new_addr : pkg -> positive) (db_local : D).
Context (assumed : list depend) (flags : Z).

Notation local := (pc_list db_local).
Notation copy p := (Package.pkg_dup (force_load p) (new_addr p) p).2.
Notation broken := (broken db_local assumed flags).
Notation relax := (Deps.relax (no_dep_version flags)).
Notation consistent := (Deps.consistent (no_dep_version flags) assumed).

(** What a reported dependency says: an installed package that stays, one of
    its dependencies that a removed package satisfies and nothing else does. *)
Lemma broken_elem rem m :
  m ∈ broken rem ->
  exists p q d, p ∈ Deps.untouched rem [] local /\ Deps.miss_target m = name p /\
    q ∈ local /\ Deps.is_modified rem [] q = true /\ Deps.miss_causingpkg m = Some (name q) /\
    d ∈ depends p /\ Deps.depcmp q (relax d) = true /\
    (forall r, r ∈ Deps.untouched rem [] local -> Deps.depcmp r (relax d) = false).
Proof.
  unfold Remove.broken, Deps.checkdeps. rewrite Deps.split_modified_eq. fold (Deps.untouched rem [] local). simpl.
  intros (p & Hm & Hp)%list_elem_of_bind. apply list_elem_of_bind in Hm as (d & Hm & Hd).
  unfold Deps.check_reverse_dep in Hm. destruct (Deps.find_dep_satisfier _ _) as [q|] eqn:Eq; [|by apply elem_of_nil in Hm].
  destruct (Deps.satisfied _ _ _ _) eqn:Es; [by apply elem_of_nil in Hm|].
  apply list_elem_of_singleton in Hm as ->. apply find_first_Some in Eq as [Hq Hc].
  apply list_elem_of_In, filter_In in Hq as [Hq Hmod]. apply list_elem_of_In in Hq.
  exists p, q, d. split_and!; try done. intros r Hr. destruct (Deps.depcmp r (relax d)) eqn:E; [|done].
  assert (Deps.satisfied assumed [] (Deps.untouched rem [] local) (relax d) = true) as Hs
    by (apply Deps.satisfied_spec; left; exists r; rewrite app_nil_r; done).
  congruence.
Qed.

Lemma copy_hashed p : pkg_hashed p -> pkg_hashed (copy p).
Proof. done. Qed.

Lemma local_hashed p : p ∈ local -> pkg_hashed p.
Proof. pose proof (pc_hashed db_local) as H. rewrite Forall_forall in H. auto. Qed.

Lemma pull_dependents_spec rem lp :
  Forall pkg_hashed rem ->
  exists new, pull_dependents force_load new_addr db_local rem lp = (0, rem ++ new) /\ Forall pkg_hashed new /\
    (forall m, m ∈ lp -> Deps.miss_target m ∈ name <$> local -> Deps.miss_target m ∈ name <$> (rem ++ new)) /\
    (forall l1 c l2, new = l1 ++ c :: l2 -> exists m p, m ∈ lp /\ p ∈ local /\ name p = Deps.miss_target m /\
       c = copy p /\ name p ∉ name <$> (rem ++ l1)).
Proof.
  revert rem. induction lp as [|m lp IH]; intros rem Hr; cbn [pull_dependents].
  { exists []. rewrite app_nil_r. split_and!; [done|done|set_solver|]. intros l1 c l2 E. by destruct l1. }
  destruct (pc_find db_local (Deps.miss_target m)) as [info|] eqn:Ef.
  2: { destruct (IH rem Hr) as (new & E & Hh & Hin & Hj). exists new. split_and!; [done|done| |].
       - intros m' [->|Hm]%elem_of_cons Hl; [|auto]. by apply pc_find_None in Ef.
       - intros l1 c l2 En. destruct (Hj _ _ _ En) as (m' & p & Hm & Hp). exists m', p. split; [set_solver|done]. }
  apply pc_find_Some in Ef as [Hinfo Hn]. destruct (Package.pkg_find rem (name info)) as [old|] eqn:Ep.
  { destruct (IH rem Hr) as (new & E & Hh & Hin & Hj). exists new. split_and!; [done|done| |].
    - intros m' [->|Hm]%elem_of_cons Hl; [|auto]. apply Package.pkg_find_Some in Ep as [? Ho].
      rewrite <- Hn, fmap_app, elem_of_app. left. apply list_elem_of_fmap. eauto.
    - intros l1 c l2 En. destruct (Hj _ _ _ En) as (m' & p & Hm & Hp). exists m', p. split; [set_solver|done]. }
  apply Package.pkg_find_None in Ep; [|done].
  destruct (Package.pkg_dup (force_load info) (new_addr info) info) as [r c] eqn:Ed.
  assert (r =? -1 = false) as -> by (unfold Package.pkg_dup in Ed; injection Ed as <- _; by destruct (force_load info)).
  assert (c = copy info) as -> by (by rewrite Ed). clear Ed.
  destruct (IH (rem ++ [copy info])) as (new & E & Hh & Hin & Hj).
  { apply Forall_app. split; [done|]. repeat constructor. by apply copy_hashed, local_hashed. }
  exists (copy info :: new). rewrite <- app_assoc in *. split_and!; [done|constructor; [by apply copy_hashed, local_hashed|done]| |].
  - intros m' [->|Hm]%elem_of_cons Hl; [|auto]. rewrite <- Hn, !fmap_app. simpl. set_solver.
  - intros l1 c l2 En. destruct l1 as [|c1 l1]; simplify_eq/=.
    + exists m, info. rewrite app_nil_r. split_and!; [set_solver|done..].
    + destruct (Hj l1 c l2 eq_refl) as (m' & p & Hm & Hp & Hnp & Hc & Hnot). exists m', p.
      rewrite <- app_assoc in Hnot. split_and!; [set_solver|done..].
Qed.

(** Every package pulled in had, when it was added, a dependency that a
    package already on the list satisfies and no remaining package does. *)
Definition justified (rem new : list pkg) : Prop :=
  forall i c, new !! i = Some c ->
    exists p d, p ∈ local /\ c = copy p /\ name p ∉ name <$> (rem ++ take i new) /\ d ∈ depends p /\
      (exists q, q ∈ local /\ name q ∈ name <$> (rem ++ take i new) /\ Deps.depcmp q (relax d) = true) /\
      (forall r, r ∈ Deps.untouched (rem ++ take i new) [] local -> Deps.depcmp r (relax d) = false).

Lemma justified_app rem n1 n2 : justified rem n1 -> justified (rem ++ n1) n2 -> justified rem (n1 ++ n2).
Proof.
  intros H1 H2 i c [Hi|[Hle Hi]]%lookup_app_Some.
  - rewrite take_app_le by (apply lookup_lt_Some in Hi; lia). by apply H1.
  - rewrite take_app_ge, app_assoc by lia. by apply H2.
Qed.

Context (Hnd : NoDup (name <$> local)).

Lemma name_inj p q : p ∈ local -> q ∈ local -> name p = name q -> p = q.
Proof.
  clear flags. induction local as [|x l IH]; [intros Hp; by apply elem_of_nil in Hp|].
  simpl in Hnd. apply NoDup_cons in Hnd as [Hx Hl]. intros [->|Hp]%elem_of_cons [->|Hq]%elem_of_cons E; [done| | |auto].
  - exfalso. apply Hx. rewrite E. apply list_elem_of_fmap. eauto.
  - exfalso. apply Hx. rewrite <- E. apply list_elem_of_fmap. eauto.
Qed.

Lemma round_justified rem new :
  Forall pkg_hashed rem -> Forall pkg_hashed new ->
  (forall l1 c l2, new = l1 ++ c :: l2 -> exists m p, m ∈ broken rem /\ p ∈ local /\ name p = Deps.miss_target m /\
     c = copy p /\ name p ∉ name <$> (rem ++ l1)) ->
  justified rem new.
Proof.
  intros Hr Hn H i c Hi. apply take_drop_middle in Hi.
  destruct (H _ _ _ (eq_sym Hi)) as (m & p & Hm & Hp & Hnp & Hc & Hnot).
  destruct (broken_elem _ _ Hm) as (p' & q & d & Hp' & Ht & Hq & Hmod & _ & Hd & Hsat & Hno).
  assert (p' = p) as ->.
  { apply name_inj; [by apply Deps.elem_of_untouched in Hp' as [? _]|done|congruence]. }
  assert (Forall pkg_hashed (rem ++ take i new)) as Hh by (apply Forall_app; split; [done|by apply Forall_take]).
  exists p, d. split_and!; [done..| |].
  - exists q. split_and!; [done| |done]. apply is_modified_names in Hmod; [|done]. rewrite fmap_app. set_solver.
  - intros r Hkept. apply Hno. apply elem_of_kept in Hkept as [? Hk]; [|done]. apply elem_of_kept; [done|].
    split; [done|]. rewrite fmap_app in Hk. set_solver.
Qed.

Lemma cascade_run fuel rem :
  Forall pkg_hashed rem -> (length (Deps.untouched rem [] local) <= fuel)%nat ->
  exists new, prepare_cascade force_load new_addr db_local assumed flags fuel rem (broken rem) = Some (0, rem ++ new) /\
    Forall pkg_hashed new /\ broken (rem ++ new) = [] /\ justified rem new.
Proof.
  revert rem. induction fuel as [|fuel IH]; intros rem Hr Hf.
  all: destruct (broken rem) as [|m lp] eqn:Eb; cbn [prepare_cascade].
  1, 3: (exists []; rewrite app_nil_r; split_and!; [done..|]; intros i c Hi; by rewrite lookup_nil in Hi).
  all: assert (m ∈ broken rem) as Hm by (rewrite Eb; set_solver).
  all: destruct (broken_elem _ _ Hm) as (p & q & d & Hp & Ht & _).
  { assert (Deps.untouched rem [] local = []) as E by (destruct (Deps.untouched rem [] local); simpl in *; [done|lia]).
    rewrite E in Hp. by apply elem_of_nil in Hp. }
  destruct (pull_dependents_spec rem (m :: lp) Hr) as (n1 & E & Hh & Hin & Hj).
  rewrite E. cbn. rewrite <- Eb in Hin, Hj.
  assert (name p ∈ name <$> n1) as Hpn.
  { assert (p ∈ local /\ name p ∉ name <$> rem) as [Hpl Hnr] by by apply elem_of_kept.
    specialize (Hin m Hm). rewrite Ht, fmap_app, elem_of_app in Hin. destruct Hin as [?|?]; [|done..].
    apply list_elem_of_fmap. eauto. }
  assert (Forall pkg_hashed (rem ++ n1)) as Hh1 by by apply Forall_app.
  pose proof (kept_shrinks rem n1 local p Hh1 Hp Hpn) as Hlt.
  destruct (IH (rem ++ n1)) as (n2 & E2 & Hh2 & Hb & Hj2); [done|lia|].
  exists (n1 ++ n2). rewrite E2, app_assoc. split_and!; [done|by apply Forall_app|done|].
  apply justified_app; [|done]. by apply round_justified.
Qed.

(** *** Keeping what is needed *)

Lemma drop_needed_sublist rem lp : sublist (drop_needed rem lp) rem.
Proof.
  revert rem. induction lp as [|m lp IH]; intros rem; simpl; [done|].
  case_match; [|apply IH]. etrans; [apply IH|apply remove_first_sublist].
Qed.

Lemma keep_needed_run fuel rem :
  Forall pkg_hashed rem -> (length rem <= fuel)%nat ->
  exists rem', prepare_keep_needed db_local assumed flags fuel rem (broken rem) = Some rem' /\
    sublist rem' rem /\ broken rem' = [].
Proof.
  revert rem. induction fuel as [|fuel IH]; intros rem Hr Hf.
  all: destruct (broken rem) as [|m lp] eqn:Eb; cbn [prepare_keep_needed].
  1, 3: by exists rem.
  all: assert (m ∈ broken rem) as Hm by (rewrite Eb; set_solver).
  all: destruct (broken_elem _ _ Hm) as (p & q & d & Hp & Ht & Hq & Hmod & Hc & _).
  all: apply is_modified_names in Hmod; [|done].
  { assert (rem = []) as -> by (destruct rem; simpl in *; [done|lia]). by apply elem_of_nil in Hmod. }
  apply Package.pkg_find_is_Some in Hmod as [x Ex]; [|done].
  assert (length (drop_needed rem (m :: lp)) < length rem)%nat as Hlt.
  { cbn [drop_needed]. rewrite Hc. simpl. rewrite Ex.
    apply Package.pkg_find_Some in Ex as [Hx _]. apply remove_first_shorter in Hx.
    pose proof (sublist_length _ _ (drop_needed_sublist (KList.remove_first Package.pkg_cmp rem x) lp)). lia. }
  pose proof (drop_needed_sublist rem (m :: lp)) as Hs.
  destruct (IH (drop_needed rem (m :: lp))) as (rem' & E & Hs' & Hb); [by eapply sublist_hashed|lia|].
  exists rem'. split_and!; [done|by etrans|done].
Qed.

(** *** Recursing *)

Lemma recurse_consistent rem e :
  (forall p, force_load p = false) -> no_dep_version flags = false ->
  Forall pkg_hashed rem -> consistent (Deps.untouched rem [] local) ->
  exists new, ResolveDeps.recursedeps force_load new_addr local rem e = Some (0, rem ++ new) /\
    Forall pkg_hashed new /\ consistent (Deps.untouched (rem ++ new) [] local).
Proof.
  intros Hload Hv Hr Hc.
  destruct (ResolveDeps.recursedeps_run force_load new_addr local rem e Hload) as (keep & gone & E & Hp & _ & Hsep).
  set (new := (fun p => (Package.pkg_dup false (new_addr p) p).2) <$> gone) in *.
  assert (name <$> new = name <$> gone) as En by (unfold new; by rewrite <- list_fmap_compose).
  assert (forall p, p ∈ keep ++ gone <-> p ∈ local /\ name p ∉ name <$> rem) as Hall.
  { intros p. rewrite Hp. by apply remove_targets_elem. }
  assert (NoDup (name <$> keep ++ gone)) as Hd by (rewrite Hp; by apply (remove_targets_elem rem local (mkpkg 1 [] []))).
  rewrite fmap_app in Hd. apply NoDup_app in Hd as (_ & Hd & _).
  assert (Forall pkg_hashed new) as Hh.
  { unfold new. apply Forall_fmap, Forall_forall. intros q Hq. apply (local_hashed q), Hall. set_solver. }
  assert (forall p, p ∈ Deps.untouched (rem ++ new) [] local <-> p ∈ keep) as Hkeep.
  { intros p. rewrite elem_of_kept, fmap_app, En, elem_of_app by by apply Forall_app. split.
    - intros [Hpl Hpn]. assert (p ∈ keep ++ gone) as [?|Hg]%elem_of_app by (apply Hall; tauto); [done|].
      exfalso. apply Hpn. right. apply list_elem_of_fmap. eauto.
    - intros Hk. destruct (proj1 (Hall p)) as [Hpl Hpn]; [set_solver|]. split; [done|]. intros [?|?]; [done|].
      eapply Hd; [apply list_elem_of_fmap; exists p; eauto|done]. }
  exists new. split_and!; [done|done|]. intros p d Hp' Hdp. apply Hkeep in Hp' as Hpk.
  destruct (Hc p d) as [(q & Hq & Hsat)|?]; [|done| |by right].
  - apply elem_of_kept; [done|]. apply Hall. set_solver.
  - apply elem_of_kept in Hq; [|done]. apply Hall, elem_of_app in Hq as [Hq|Hq]; [left; exists q; by rewrite Hkeep|].
    specialize (Hsep p q Hpk Hq). unfold Deps.pkg_depends_on in Hsep. exfalso.
    apply not_true_iff_false in Hsep. apply Hsep, existsb_exists. exists d. rewrite <- list_elem_of_In.
    rewrite Hv in Hsat. done.
Qed.

Lemma broken_consistent rem :
  consistent local -> broken rem = [] -> consistent (Deps.untouched rem [] local).
Proof. intros Hc Hb. rewrite <- (app_nil_r (Deps.untouched rem [] local)). by apply Deps.checkdeps_keeps. Qed.

Lemma check_targets_run rem :
  Forall pkg_hashed rem -> consistent local ->
  exists c, check_targets force_load new_addr db_local assumed flags rem = Some c /\
    match c with
    | inl rem' => Forall pkg_hashed rem' /\ (Handle.has flags Handle.FLAG_NODEPS = false -> consistent (Deps.untouched rem' [] local))
    | inr r => Handle.has flags Handle.FLAG_CASCADE = false /\ Handle.has flags Handle.FLAG_UNNEEDED = false /\
        r = Prepared (-1) rem (broken rem) (Some Handle.ERR_UNSATISFIED_DEPS) [] /\ broken rem <> []
    end.
Proof.
  intros Hr Hc. unfold check_targets. destruct (Handle.has flags Handle.FLAG_NODEPS); [by eexists|]. destruct (broken rem) as [|m lp] eqn:Eb.
  { eexists. split; [done|]. split; [done|intros _; by apply broken_consistent]. }
  rewrite <- Eb. destruct (Handle.has flags Handle.FLAG_CASCADE).
  { destruct (cascade_run (length local) rem) as (new & E & Hh & Hb & _); [done|apply List.filter_length_le|].
    rewrite E. simpl. eexists. split; [done|]. split; [by apply Forall_app|intros _; by apply broken_consistent]. }
  destruct (Handle.has flags Handle.FLAG_UNNEEDED).
  { destruct (keep_needed_run (length rem) rem Hr) as (rem' & E & Hs & Hb); [done|].
    rewrite E. simpl. eexists. split; [done|]. split; [by eapply sublist_hashed|intros _; by apply broken_consistent]. }
  eexists. split; [done|]. by rewrite Eb.
Qed.

Lemma recurse_if_run wanted rem : (forall p, force_load p = false) -> Forall pkg_hashed rem ->
  exists rem', recurse_if force_load new_addr db_local flags wanted rem = Some (0, rem') /\ Forall pkg_hashed rem' /\
    (no_dep_version flags = false \/ wanted = false -> consistent (Deps.untouched rem [] local) -> consistent (Deps.untouched rem' [] local)).
Proof.
  intros Hload Hr. unfold recurse_if. destruct wanted; [|exists rem; by split_and!].
  destruct (ResolveDeps.recursedeps_run force_load new_addr local rem (Handle.has flags Handle.FLAG_RECURSEALL) Hload)
    as (keep & gone & E & Hp & _).
  match type of E with _ = Some (0, ?l) => assert (Forall pkg_hashed l) as Hl; [|revert E Hl; generalize l] end.
  - apply Forall_app. split; [done|]. apply Forall_fmap, Forall_forall. intros q Hq. apply (local_hashed q).
    assert (q ∈ keep ++ gone) as Hin by set_solver. rewrite Hp in Hin. by apply remove_targets_elem in Hin as [? _].
  - intros rem' E Hl. exists rem'. split_and!; [done|done|]. intros [Hv|?] Hc; [|done].
    destruct (recurse_consistent rem (Handle.has flags Handle.FLAG_RECURSEALL) Hload Hv Hr Hc) as (new & E' & _ & Hc').
    assert (rem' = rem ++ new) as -> by congruence. done.
Qed.

(** The flags do not switch the dependency check off, nor the comparison of
    versions while asking for recursion after the check. *)
Definition keeps_deps : Prop :=
  Handle.has flags Handle.FLAG_NODEPS = false /\
  (no_dep_version flags = false \/ Handle.has flags Handle.FLAG_CASCADE && Handle.has flags Handle.FLAG_RECURSE = false).

Lemma remove_prepare_run rem :
  (forall p, force_load p = false) -> Forall pkg_hashed rem -> consistent local ->
  exists r, remove_prepare force_load new_addr db_local assumed flags rem = Some r /\
    ((p_ret r = 0 /\ (keeps_deps -> consistent (Deps.untouched (p_remove r) [] local))) \/
     (p_ret r = -1 /\ p_errno r = Some Handle.ERR_UNSATISFIED_DEPS /\
      Handle.has flags Handle.FLAG_CASCADE = false /\ Handle.has flags Handle.FLAG_UNNEEDED = false /\
      p_data r = broken (p_remove r) /\ p_data r <> [])).
Proof.
  intros Hload Hr Hc. unfold remove_prepare.
  set (recurse := Handle.has flags Handle.FLAG_RECURSE). set (cascade := Handle.has flags Handle.FLAG_CASCADE).
  destruct (recurse_if_run (recurse && negb cascade) rem Hload Hr) as (rem1 & -> & Hr1 & _).
  simpl. destruct (check_targets_run rem1 Hr1 Hc) as (c & -> & Hres). simpl. destruct c as [rem2|r].
  - destruct Hres as [Hr2 Hc2]. destruct (recurse_if_run (cascade && recurse) rem2 Hload Hr2) as (rem3 & -> & _ & Hc3). simpl. eexists. split; [done|]. left.
    split; [done|]. intros [Hn Hv]. by apply Hc3, Hc2.
  - destruct Hres as (Hcas & Hun & -> & Hne). eexists. split; [done|]. right. by split_and!.
Qed.
End Lemmas.

(** C25: preparing a removal on a consistent system ends, when the metadata of
    every installed package can be loaded.  Either it returns 0 and leaves a list of
    packages, after cascading, dropping needed targets and recursing as the flags
    ask, whose removal keeps the system consistent, unless NODEPS is set or
    cascading and recursion are asked for together with NODEPVERSION (see
    [recurse_breaks_without_versions]); or, when neither cascading nor dropping was
    asked for, it fails with the unsatisfied dependencies that would break. *)
Theorem remove_prepare_spec {D} `{!PkgCache D} force_load new_addr (db_local : D) assumed flags rem
    (Hload : forall p, force_load p = false) (Hrem : Forall pkg_hashed rem) (Hnd : NoDup (name <$> pc_list db_local))
    (Hc : Deps.consistent (no_dep_version flags) assumed (pc_list db_local)) :
  exists r, remove_prepare force_load new_addr db_local assumed flags rem = Some r /\
    ((p_ret r = 0 /\
      (keeps_deps flags -> Deps.consistent (no_dep_version flags) assumed (Deps.untouched (p_remove r) [] (pc_list db_local)))) \/
     (p_ret r = -1 /\ p_errno r = Some Handle.ERR_UNSATISFIED_DEPS /\
      Handle.has flags Handle.FLAG_CASCADE = false /\ Handle.has flags Handle.FLAG_UNNEEDED = false /\
      p_data r = broken db_local assumed flags (p_remove r) /\ p_data r <> [])).
Proof. by apply remove_prepare_run. Qed.

(** [remove_prepare_cascade] ends after at most as many rounds as there are
    installed packages, breaks nothing any more, and pulls in only packages
    that had to go: each had, when it was added, a dependency that a package
    already on the list satisfies and no remaining package does. *)
Theorem prepare_cascade_spec {D} `{!PkgCache D} force_load new_addr (db_local : D) assumed flags rem
    (Hrem : Forall pkg_hashed rem) (Hnd : NoDup (name <$> pc_list db_local)) :
  exists new, prepare_cascade force_load new_addr db_local assumed flags (length (pc_list db_local)) rem
      (broken db_local assumed flags rem) = Some (0, rem ++ new) /\
    broken db_local assumed flags (rem ++ new) = [] /\
    justified force_load new_addr db_local flags rem new.
Proof.
  destruct (cascade_run force_load new_addr db_local assumed flags Hnd (length (pc_list db_local)) rem Hrem)
    as (new & E & _ & Hb & Hj); [apply List.filter_length_le|]. eauto.
Qed.

(** Removing [t] from a system where [p] needs [d>=2] but has [d] 1, with
    cascading, recursion and without version checks. *)
Definition ex_t : pkg := with_depends (mkpkg 1 (lit "t") (lit "1")) [Deps.dep_from_string (lit "d")].
Definition ex_p : pkg := with_depends (mkpkg 2 (lit "p") (lit "1")) [Deps.dep_from_string (lit "d>=2")].
Definition ex_d : pkg := with_reason (mkpkg 3 (lit "d") (lit "1")) REASON_DEPEND.
Definition ex_local : pkglist := PkgList [ex_t; ex_p; ex_d] ltac:(by_decide).
Definition ex_flags : Z := Handle.FLAG_NODEPVERSION + Handle.FLAG_CASCADE + Handle.FLAG_RECURSE.

(** With version checks off, cascading followed by recursion removes a
    package that is still needed: [d] satisfies the dependency of [p] in the
    dependency check, which ignores the version, but not in the recursion,
    which compares it, and nothing is checked after the recursion. *)
Theorem recurse_breaks_without_versions :
  Deps.consistent (no_dep_version ex_flags) [] (pc_list ex_local) /\
  exists r, remove_prepare (fun _ => false) pkg_id ex_local [] ex_flags [ex_t] = Some r /\
    p_ret r = 0 /\ name <$> p_remove r = [lit "t"; lit "d"] /\ broken ex_local [] ex_flags (p_remove r) <> [].
Proof.
  split.
  - intros p d Hp Hd. left. exists ex_d. split; [by_decide|].
    apply elem_of_cons in Hp as [->|[->|[->|Hp%elem_of_nil]%elem_of_cons]%elem_of_cons]; [| | |done];
      [apply list_elem_of_singleton in Hd as ->; reflexivity..|by apply elem_of_nil in Hd].
  - eexists. split; [vm_compute; reflexivity|]. split_and!; [reflexivity|reflexivity|vm_compute; discriminate].
Qed.

Lemma ex_ab_consistent : Deps.consistent false [] [Deps.ex_a; Deps.ex_b].
Proof. apply Deps.ex_consistent. Qed.
Definition ex_ab : pkglist := PkgList [Deps.ex_a; Deps.ex_b] ltac:(by_decide).

Lemma remove_prepare_witness :
  exists r, remove_prepare (fun _ => false) pkg_id ex_ab [] Handle.FLAG_CASCADE [Deps.ex_b] = Some r /\
    Deps.consistent false [] (Deps.untouched (p_remove r) [] [Deps.ex_a; Deps.ex_b]).
Proof.
  destruct (remove_prepare_spec (fun _ => false) pkg_id ex_ab [] Handle.FLAG_CASCADE [Deps.ex_b])
    as (r & E & [[_ H]|(_ & _ & Hf & _)]);
    [done|by_decide|by_decide|exact ex_ab_consistent| |discriminate Hf].
  exists r. split; [exact E|]. apply H. split; [reflexivity|left; reflexivity].
Defined.

Lemma prepare_cascade_witness :
  exists new, prepare_cascade (fun _ => false) pkg_id ex_ab [] 0 2 [Deps.ex_b] (broken ex_ab [] 0 [Deps.ex_b])
      = Some (0, [Deps.ex_b] ++ new) /\
    justified (fun _ => false) pkg_id ex_ab 0 [Deps.ex_b] new.
Proof.
  destruct (prepare_cascade_spec (fun _ => false) pkg_id ex_ab [] 0 [Deps.ex_b]) as (new & E & _ & H);
    [by_decide|by_decide|]. exists new. split; [exact E|exact H].
Defined.

End Remove.
