(* ===== verification/Sync.v ===== *)
(** * Preparing an installation or upgrade ([src/lib/libkuzpkg/sync.c])

    [klpm_sync_sysupgrade] with its helpers, [klpm_find_group_pkgs], the
    download size, and [_klpm_sync_prepare] with all its phases.  The answers of
    the question callback are a list, as in ResolveDeps; the file cache is read
    through [filecache_find] and [stat_size]. *)

From S2P Require Import Prelude CStr KList Package Deps ResolveDeps Conflict Handle Remove.
Local Open Scope Z_scope.

Module Sync.

Notation objects := (gmap positive Handle.fields).

(** ** Upgrading the system *)

Section Upgrade.
Context {D : Type} `{!PkgCache D}.
(** [db->usage], [db->treename], <fnmatch.h> and the ignore lists. *)
Variables (usage : D -> Z) (treename : D -> cstr) (fnmatch : cstr -> cstr -> Z).
Variables (ignorepkg ignoregroup : list cstr) (db_local : D) (dbs_sync : list D).

Definition should_ignore (p : pkg) : bool := Package.pkg_should_ignore fnmatch ignorepkg ignoregroup p.

(** The loop of [klpm_sync_get_new_version]. *)
Fixpoint find_in_dbs (dbs : list D) (n : cstr) : option pkg :=
  match dbs with
  | [] => None
  | db :: dbs' => match pc_find db n with Some p => Some p | None => find_in_dbs dbs' n end
  end.

(** [klpm_sync_get_new_version] *)
Definition sync_get_new_version (p : pkg) : option pkg :=
  match find_in_dbs dbs_sync (name p) with
  | None => None
  | Some spkg => if 0 <? Package.pkg_compare_versions spkg p then Some spkg else None
  end.

(** [check_literal] *)
Definition check_literal (lpkg spkg : pkg) (enable_downgrade : bool) : bool :=
  let cmp := Package.pkg_compare_versions spkg lpkg in
  if 0 <? cmp then negb (should_ignore spkg || should_ignore lpkg)
  else if cmp <? 0 then
    if enable_downgrade then negb (should_ignore spkg || should_ignore lpkg) else false
  else false.

(** The loop of [check_replacers] over the packages of the database [sdb]:
    the replacers, the package objects and the answers left. *)
Fixpoint replacers_loop (lpkg : pkg) (sdb : D) (add pkgs replacers : list pkg) (o : objects) (ans : list Z)
    : list pkg * objects * list Z :=
  match pkgs with
  | [] => (replacers, o, ans)
  | spkg :: rest =>
      if existsb (Deps.depcmp_literal lpkg) (replaces spkg) then
        if should_ignore spkg || should_ignore lpkg then replacers_loop lpkg sdb add rest replacers o ans
        else
          let '(replace, ans) := ResolveDeps.question 0 ans in
          if replace =? 0 then replacers_loop lpkg sdb add rest replacers o ans
          else
            match Package.pkg_find add (name spkg) with
            | Some tpkg =>
                if decide (origin_db tpkg = Some (treename sdb)) then
                  let o := Handle.put_removes tpkg (Handle.get_removes o tpkg ++ [lpkg]) o in
                  let o := if decide (Handle.get_reason o lpkg = REASON_EXPLICIT)
                           then Handle.put_reason tpkg REASON_EXPLICIT o else o in
                  replacers_loop lpkg sdb add rest replacers o ans
                else replacers_loop lpkg sdb add rest replacers o ans
            | None =>
                let o := Handle.put_reason spkg (Handle.get_reason o lpkg) o in
                let o := Handle.put_removes spkg [lpkg] o in
                replacers_loop lpkg sdb add rest (replacers ++ [spkg]) o ans
            end
      else replacers_loop lpkg sdb add rest replacers o ans
  end.

(** [check_replacers] *)
Definition check_replacers (lpkg : pkg) (sdb : D) (add : list pkg) (o : objects) (ans : list Z)
    : list pkg * objects * list Z :=
  replacers_loop lpkg sdb add (pc_list sdb) [] o ans.

(** [trans->add], the package objects and the answers left. *)
Record upgrade := Upgrade { u_add : list pkg; u_objs : objects; u_ans : list Z }.

(** The inner loop of [klpm_sync_sysupgrade], over the sync databases. *)
Fixpoint upgrade_one (lpkg : pkg) (enable_downgrade : bool) (dbs : list D) (u : upgrade) : upgrade :=
  match dbs with
  | [] => u
  | sdb :: dbs' =>
      if Z.land (usage sdb) ResolveDeps.USAGE_UPGRADE =? 0 then upgrade_one lpkg enable_downgrade dbs' u
      else
        let '(replacers, o, ans) := check_replacers lpkg sdb (u_add u) (u_objs u) (u_ans u) in
        match replacers with
        | _ :: _ => Upgrade (u_add u ++ replacers) o ans
        | [] =>
            match pc_find sdb (name lpkg) with
            | Some spkg => Upgrade (if check_literal lpkg spkg enable_downgrade then u_add u ++ [spkg] else u_add u) o ans
            | None => upgrade_one lpkg enable_downgrade dbs' (Upgrade (u_add u) o ans)
            end
        end
  end.

(** The outer loop, over the installed packages. *)
Fixpoint upgrade_all (remove : list pkg) (enable_downgrade : bool) (pkgs : list pkg) (u : upgrade) : upgrade :=
  match pkgs with
  | [] => u
  | lpkg :: rest =>
      upgrade_all remove enable_downgrade rest
        (match Package.pkg_find remove (name lpkg), Package.pkg_find (u_add u) (name lpkg) with
         | None, None => upgrade_one lpkg enable_downgrade dbs_sync u
         | _, _ => u
         end)
  end.

(** [klpm_sync_sysupgrade]: the return value, the handle and the answers. *)
Definition sync_sysupgrade (h : Handle.handle) (enable_downgrade : bool) (ans : list Z) : Z * Handle.handle * list Z :=
  let h := Handle.check_handle h in
  match Handle.h_trans h with
  | None => (Handle.ret_err h Handle.ERR_TRANS_NULL, ans)
  | Some t =>
      if decide (Handle.t_state t = Handle.STATE_INITIALIZED) then
        let u := upgrade_all (Handle.t_remove t) enable_downgrade (pc_list db_local)
                   (Upgrade (Handle.t_add t) (Handle.objs h) ans) in
        (0, Handle.set_trans (Handle.set_objs h (u_objs u)) (Some (Handle.set_add t (u_add u))), u_ans u)
      else (Handle.ret_err h Handle.ERR_TRANS_NOT_INITIALIZED, ans)
  end.

(** *** Groups *)

(** The packages of a group are offered one after the other; [needed] tells
    whether a transaction with the NEEDED flag is open. *)
Fixpoint group_loop (needed : bool) (pkgs : list pkg) (acc ignorelist : list pkg) (ans : list Z)
    : list pkg * list pkg * list Z :=
  match pkgs with
  | [] => (acc, ignorelist, ans)
  | p :: rest =>
      match Package.pkg_find ignorelist (name p) with
      | Some _ => group_loop needed rest acc ignorelist ans
      | None =>
          let up_to_date := match pc_find db_local (name p) with
                            | Some local => Package.pkg_compare_versions p local =? 0
                            | None => false
                            end in
          if needed && up_to_date then group_loop needed rest acc (ignorelist ++ [p]) ans
          else
            let '(take_it, ignorelist, ans) :=
              if should_ignore p then
                let '(install, ans) := ResolveDeps.question 0 ans in (negb (install =? 0), ignorelist ++ [p], ans)
              else (true, ignorelist, ans) in
            if take_it then
              match Package.pkg_find acc (name p) with
              | Some _ => group_loop needed rest acc ignorelist ans
              | None => group_loop needed rest (acc ++ [p]) ignorelist ans
              end
            else group_loop needed rest acc ignorelist ans
      end
  end.

(** [klpm_find_group_pkgs]; [get_group] is [klpm_db_get_group]: the packages of
    the group in a database. *)
Fixpoint find_group_loop (needed : bool) (get_group : D -> option (list pkg)) (dbs : list D) (acc ignorelist : list pkg)
    (ans : list Z) : list pkg * list pkg * list Z :=
  match dbs with
  | [] => (acc, ignorelist, ans)
  | db :: dbs' =>
      match get_group db with
      | None => find_group_loop needed get_group dbs' acc ignorelist ans
      | Some pkgs =>
          let '(acc, ignorelist, ans) := group_loop needed pkgs acc ignorelist ans in
          find_group_loop needed get_group dbs' acc ignorelist ans
      end
  end.
Definition find_group_pkgs (needed : bool) (get_group : D -> option (list pkg)) (dbs : list D) (ans : list Z)
    : list pkg * list Z :=
  let '(pkgs, _, ans) := find_group_loop needed get_group dbs [] [] ans in (pkgs, ans).

(** ** Theorems about the upgrade *)

Definition may_upgrade (db : D) : bool := negb (Z.land (usage db) ResolveDeps.USAGE_UPGRADE =? 0).

(** [p] upgrades (or, if allowed, downgrades) the installed [lpkg]. *)
Definition upgrades (enable_downgrade : bool) (lpkg p : pkg) : Prop :=
  name p = name lpkg /\
  (0 < Package.pkg_compare_versions p lpkg \/ enable_downgrade = true /\ Package.pkg_compare_versions p lpkg < 0).
(** [p] declares to replace the installed [lpkg]. *)
Definition replaces_pkg (lpkg p : pkg) : Prop := exists d, d ∈ replaces p /\ Deps.depcmp_literal lpkg d = true.

(** Why a package may be added for [lpkg]. *)
Definition upgrade_for (enable_downgrade : bool) (dbs : list D) (lpkg p : pkg) : Prop :=
  (exists db, db ∈ dbs /\ may_upgrade db = true /\ p ∈ pc_list db) /\
  should_ignore p = false /\ should_ignore lpkg = false /\
  (upgrades enable_downgrade lpkg p \/ replaces_pkg lpkg p).

Lemma replacers_loop_spec lpkg sdb add pkgs replacers o ans r o' ans' :
  replacers_loop lpkg sdb add pkgs replacers o ans = (r, o', ans') ->
  (exists new, r = replacers ++ new /\ sublist new pkgs /\
    forall p, p ∈ new -> should_ignore p = false /\ should_ignore lpkg = false /\ replaces_pkg lpkg p /\
      Package.pkg_find add (name p) = None) /\
  (ans = [] -> r = replacers /\ ans' = []).
Proof.
  revert replacers o ans. induction pkgs as [|spkg rest IH]; intros replacers o ans; cbn [replacers_loop].
  { intros [= <- <- <-]. split; [|done]. exists []. rewrite app_nil_r. split_and!; [done..|]. intros p ?%elem_of_nil. done. }
  assert (forall replacers o ans, replacers_loop lpkg sdb add rest replacers o ans = (r, o', ans') ->
    (exists new, r = replacers ++ new /\ sublist new (spkg :: rest) /\
      forall p, p ∈ new -> should_ignore p = false /\ should_ignore lpkg = false /\ replaces_pkg lpkg p /\
        Package.pkg_find add (name p) = None) /\ (ans = [] -> r = replacers /\ ans' = [])) as Hskip.
  { intros rs o1 a1 E. destruct (IH _ _ _ E) as [(new & -> & Hs & Hn) Ha]. split; [|done]. exists new. split_and!; [done|by apply sublist_cons|done]. }
  destruct (existsb _ _) eqn:Ex; [|apply Hskip].
  destruct (should_ignore spkg || should_ignore lpkg) eqn:Ei; [apply Hskip|]. apply orb_false_iff in Ei as [Ei1 Ei2].
  destruct ans as [|a ans]; simpl; [apply Hskip|]. destruct (a =? 0).
  { intros E. destruct (Hskip _ _ _ E) as [H _]. done. }
  destruct (Package.pkg_find add (name spkg)) as [tpkg|] eqn:Ef.
  { case_decide; intros E; destruct (Hskip _ _ _ E) as [H' _]; done. }
  intros E. destruct (IH _ _ _ E) as [(new & -> & Hs & Hn) _]. split; [|done]. exists (spkg :: new).
  rewrite <- app_assoc. split_and!; [done|by apply sublist_skip|]. intros p [->|?]%elem_of_cons; [|auto].
  apply existsb_exists in Ex as (d & Hd & Hc). split_and!; [done..| |done]. exists d. by rewrite list_elem_of_In.
Qed.

Lemma check_literal_spec lpkg spkg b :
  check_literal lpkg spkg b = true -> name spkg = name lpkg ->
  should_ignore spkg = false /\ should_ignore lpkg = false /\ upgrades b lpkg spkg.
Proof.
  unfold check_literal, upgrades. intros H En.
  destruct (Z.ltb_spec 0 (Package.pkg_compare_versions spkg lpkg)).
  - apply negb_true_iff, orb_false_iff in H as [? ?]. naive_solver.
  - destruct (Z.ltb_spec (Package.pkg_compare_versions spkg lpkg) 0); [|done]. destruct b; [|done].
    apply negb_true_iff, orb_false_iff in H as [? ?]. naive_solver.
Qed.

Lemma distinct_app (l k : list pkg) :
  ResolveDeps.distinct l -> ResolveDeps.distinct k -> (forall p, p ∈ k -> name p ∉ name <$> l) -> ResolveDeps.distinct (l ++ k).
Proof.
  intros [H1 H2] [H3 H4] H. split; [by apply Forall_app|]. rewrite fmap_app. apply NoDup_app. split_and!; [done| |done].
  intros x Hx Hx'. apply list_elem_of_fmap in Hx' as (p & -> & Hp). by apply (H p).
Qed.

Context (Hdbs : forall db : D, db ∈ dbs_sync -> NoDup (name <$> pc_list db)).

Lemma db_distinct db new : db ∈ dbs_sync -> sublist new (pc_list db) -> ResolveDeps.distinct new.
Proof.
  intros Hdb Hs. split; [eapply Remove.sublist_hashed; [exact Hs|apply pc_hashed]|].
  eapply NoDup_sub, (Hdbs _ Hdb). by apply sublist_submseteq, fmap_sublist.
Qed.

Lemma upgrade_one_spec lpkg b dbs u :
  (forall db, db ∈ dbs -> db ∈ dbs_sync) -> ResolveDeps.distinct (u_add u) -> name lpkg ∉ name <$> u_add u ->
  exists new, u_add (upgrade_one lpkg b dbs u) = u_add u ++ new /\ ResolveDeps.distinct (u_add u ++ new) /\
    (forall p, p ∈ new -> upgrade_for b dbs lpkg p) /\
    (u_ans u = [] -> u_ans (upgrade_one lpkg b dbs u) = [] /\
      new = match find_in_dbs (List.filter may_upgrade dbs) (name lpkg) with
            | Some spkg => if check_literal lpkg spkg b then [spkg] else []
            | None => []
            end).
Proof.
  revert u. induction dbs as [|sdb dbs IH]; intros u Hsub Hd Hn; cbn [upgrade_one].
  { exists []. rewrite app_nil_r. split_and!; [done|done| |done]. intros p ?%elem_of_nil. done. }
  assert (sdb ∈ dbs_sync) as Hsdb by (apply Hsub; set_solver).
  assert (forall db, db ∈ dbs -> db ∈ dbs_sync) as Hsub' by (intros db ?; apply Hsub; set_solver).
  assert (forall p, upgrade_for b dbs lpkg p -> upgrade_for b (sdb :: dbs) lpkg p) as Hmono.
  { intros p [(db & ? & ?) ?]. split; [exists db; split; [set_solver|done]|done]. }
  simpl. unfold may_upgrade at 1. destruct (Z.land (usage sdb) ResolveDeps.USAGE_UPGRADE =? 0) eqn:Eu; simpl.
  { destruct (IH u Hsub' Hd Hn) as (new & E & Hd' & Hj & Ha). exists new. split_and!; [done|done|auto|done]. }
  destruct (check_replacers lpkg sdb (u_add u) (u_objs u) (u_ans u)) as [[rs o] ans] eqn:Er.
  apply replacers_loop_spec in Er as [(new & -> & Hs & Hr) Ha]. simpl in *. destruct new as [|r0 new].
  - destruct (pc_find sdb (name lpkg)) as [spkg|] eqn:Ef.
    + apply pc_find_Some in Ef as [Hin En]. simpl. destruct (check_literal lpkg spkg b) eqn:El.
      * exists [spkg]. split_and!; [done| | |intros E; split; [by apply Ha|done]].
        -- apply distinct_app; [done|apply (db_distinct sdb); [done|by apply singleton_sublist_l]|].
           intros p ->%list_elem_of_singleton. by rewrite En.
        -- intros p ->%list_elem_of_singleton. destruct (check_literal_spec _ _ _ El En) as (? & ? & ?).
           split_and!; [|done|done|by left]. exists sdb. split_and!; [set_solver| |done]. unfold may_upgrade. by rewrite Eu.
      * exists []. rewrite app_nil_r. split_and!; [done|done| |intros E; split; [by apply Ha|done]]. intros p ?%elem_of_nil. done.
    + destruct (IH (Upgrade (u_add u) o ans) Hsub' Hd Hn) as (new & E & Hd' & Hj & Ha'). exists new. split_and!; [done|done|auto|].
      intros E'. apply Ha'. by apply Ha.
  - exists (r0 :: new). simpl. split_and!; [done| | |intros E; by destruct (Ha E)].
    + apply distinct_app; [done|by apply (db_distinct sdb)|]. intros p Hp. apply Hr in Hp as (_ & _ & _ & Hf).
      apply Package.pkg_find_None in Hf; [done|apply Hd].
    + intros p Hp. destruct (Hr p Hp) as (? & ? & ? & _). split_and!; [|done|done|by right].
      exists sdb. split_and!; [set_solver|unfold may_upgrade; by rewrite Eu|].
      eapply elem_of_submseteq; [exact Hp|by apply sublist_submseteq].
Qed.

Lemma find_in_dbs_name dbs n p : find_in_dbs dbs n = Some p -> name p = n.
Proof.
  induction dbs as [|db dbs IH]; simpl; [done|]. destruct (pc_find db n) as [q|] eqn:E; [|done].
  intros [= <-]. by apply pc_find_Some in E as [_ ?].
Qed.

(** The upgrade a package gets when nobody answers questions. *)
Definition new_version (b : bool) (lpkg spkg : pkg) : Prop :=
  find_in_dbs (List.filter may_upgrade dbs_sync) (name lpkg) = Some spkg /\ check_literal lpkg spkg b = true.

Lemma upgrade_all_spec remove b pkgs u :
  Forall pkg_hashed remove -> ResolveDeps.distinct (u_add u) ->
  exists new, u_add (upgrade_all remove b pkgs u) = u_add u ++ new /\ ResolveDeps.distinct (u_add u ++ new) /\
    (forall p, p ∈ new -> exists lpkg, lpkg ∈ pkgs /\ name lpkg ∉ name <$> remove /\ upgrade_for b dbs_sync lpkg p) /\
    (u_ans u = [] -> NoDup (name <$> pkgs) -> forall lpkg spkg, lpkg ∈ pkgs -> name lpkg ∉ name <$> remove ->
      name lpkg ∉ name <$> u_add u -> new_version b lpkg spkg -> spkg ∈ new).
Proof.
  intros Hr. revert u. induction pkgs as [|l pkgs IH]; intros u Hd; cbn [upgrade_all].
  { exists []. rewrite app_nil_r. split_and!; [done|done|intros p ?%elem_of_nil; done|intros _ _ lpkg spkg ?%elem_of_nil; done]. }
  assert (name l ∈ name <$> remove \/ name l ∈ name <$> u_add u ->
    exists new, u_add (upgrade_all remove b pkgs u) = u_add u ++ new /\ ResolveDeps.distinct (u_add u ++ new) /\
    (forall p, p ∈ new -> exists lpkg, lpkg ∈ l :: pkgs /\ name lpkg ∉ name <$> remove /\ upgrade_for b dbs_sync lpkg p) /\
    (u_ans u = [] -> NoDup (name <$> l :: pkgs) -> forall lpkg spkg, lpkg ∈ l :: pkgs -> name lpkg ∉ name <$> remove ->
      name lpkg ∉ name <$> u_add u -> new_version b lpkg spkg -> spkg ∈ new)) as Hskip.
  { intros Hor. destruct (IH u Hd) as (new & E & Hd' & Hj & Ha). exists new. split_and!; [done|done| |].
    - intros p Hp. destruct (Hj p Hp) as (lp & ? & ?). exists lp. split; [set_solver|done].
    - intros Hans Hnd lpkg spkg [->|Hin]%elem_of_cons Hn1 Hn2; [by destruct Hor|]. apply Ha; try done.
      rewrite fmap_cons in Hnd. by apply NoDup_cons in Hnd as [_ ?]. }
  destruct (Package.pkg_find remove (name l)) as [q|] eqn:E1.
  { apply Hskip. left. apply Package.pkg_find_Some in E1 as [? <-]. apply list_elem_of_fmap. eauto. }
  destruct (Package.pkg_find (u_add u) (name l)) as [q|] eqn:E2.
  { apply Hskip. right. apply Package.pkg_find_Some in E2 as [? <-]. apply list_elem_of_fmap. eauto. }
  apply Package.pkg_find_None in E1, E2; [|apply Hd|done]. clear Hskip.
  destruct (upgrade_one_spec l b dbs_sync u (fun _ H => H) Hd E2) as (n1 & Ea & Hd1 & Hj1 & Ha1).
  rewrite <- Ea in Hd1. destruct (IH (upgrade_one l b dbs_sync u) Hd1) as (n2 & E & Hd2 & Hj2 & Ha2).
  exists (n1 ++ n2). rewrite E, Ea, <- app_assoc in *. split_and!; [done|done| |].
  - intros p [Hp|Hp]%elem_of_app; [exists l; split_and!; [set_solver|done|auto]|].
    destruct (Hj2 p Hp) as (lp & ? & ?). exists lp. split; [set_solver|done].
  - intros Hans Hnd lpkg spkg Hin Hn1 Hn2 [Hf Hc]. destruct (Ha1 Hans) as [Hans1 En1].
    rewrite fmap_cons in Hnd. apply NoDup_cons in Hnd as [Hl Hnd]. apply elem_of_app.
    apply elem_of_cons in Hin as [->|Hin]; [left; rewrite Hf, Hc in En1; subst n1; set_solver|right].
    apply (Ha2 Hans1 Hnd lpkg); [done|done| |by split].
    rewrite fmap_app, elem_of_app. intros [?|Hx]; [done|]. apply list_elem_of_fmap in Hx as (x & Ex & Hx).
    destruct (find_in_dbs (List.filter may_upgrade dbs_sync) (name l)) as [y|] eqn:Ey; [|subst n1; by apply elem_of_nil in Hx].
    apply find_in_dbs_name in Ey. destruct (check_literal l y b); [|subst n1; by apply elem_of_nil in Hx].
    subst n1. apply list_elem_of_singleton in Hx as ->. apply Hl. rewrite <- Ey, <- Ex. apply list_elem_of_fmap. eauto.
Qed.
End Upgrade.

(** In an initialised transaction [klpm_sync_sysupgrade] returns 0 and only
    appends to the targets, which keep distinct names; every package it adds
    comes from a database enabled for upgrades, is not ignored, and is a newer
    (or, when asked for, older) version of an installed package that is not
    being removed, or declares to replace one.  Without a question callback
    every installed package that is neither a target nor being removed gets the
    new version the first such database has for it. *)
Theorem sysupgrade_spec {D} `{!PkgCache D} usage treename fnmatch ignorepkg ignoregroup (db_local : D) dbs_sync h t b ans
    (Hdbs : forall db : D, db ∈ dbs_sync -> NoDup (name <$> pc_list db)) (Hlocal : NoDup (name <$> pc_list db_local)) (Ht : Handle.h_trans h = Some t)
    (Hst : Handle.t_state t = Handle.STATE_INITIALIZED)
    (Hrem : Forall pkg_hashed (Handle.t_remove t)) (Hadd : ResolveDeps.distinct (Handle.t_add t)) :
  exists h' ans' new, sync_sysupgrade usage treename fnmatch ignorepkg ignoregroup db_local dbs_sync h b ans = (0, h', ans') /\
    Handle.h_trans h' = Some (Handle.set_add t (Handle.t_add t ++ new)) /\
    ResolveDeps.distinct (Handle.t_add t ++ new) /\
    (forall p, p ∈ new -> exists lpkg, lpkg ∈ pc_list db_local /\ name lpkg ∉ name <$> Handle.t_remove t /\
       upgrade_for usage fnmatch ignorepkg ignoregroup b dbs_sync lpkg p) /\
    (ans = [] -> forall lpkg spkg, lpkg ∈ pc_list db_local -> name lpkg ∉ name <$> Handle.t_remove t ->
       name lpkg ∉ name <$> Handle.t_add t -> new_version usage fnmatch ignorepkg ignoregroup dbs_sync b lpkg spkg -> spkg ∈ new).
Proof.
  destruct (upgrade_all_spec usage treename fnmatch ignorepkg ignoregroup db_local dbs_sync Hdbs (Handle.t_remove t) b (pc_list db_local)
    (Upgrade (Handle.t_add t) (Handle.objs h) ans) Hrem Hadd) as (new & E & Hd & Hj & Ha). simpl in *.
  unfold sync_sysupgrade. simpl. rewrite Ht, decide_True by done. do 2 eexists. exists new.
  split_and!; [done|simpl; by rewrite E|done|done|]. intros Hans lpkg spkg. by apply Ha.
Qed.

Definition ex_old : pkg := mkpkg 20 (lit "b") (lit "0.9-1").
Definition ex_olds : pkglist := PkgList [ex_old] ltac:(by_decide).
Definition ex_repo : pkglist := PkgList [Deps.ex_b] ltac:(by_decide).
Definition ex_trans : Handle.trans := Handle.MkTrans 0 Handle.STATE_INITIALIZED [] [] [] [].
Definition ex_handle : Handle.handle := Handle.MkHandle (Some ex_trans) None false Handle.ERR_OK ∅ [] [] [] [].

Lemma sysupgrade_witness :
  exists h' ans' (new : list pkg), sync_sysupgrade (fun _ => 15) (fun _ => lit "core") (fun _ _ => 1) [] [] ex_olds [ex_repo] ex_handle false []
      = (0, h', ans') /\ Deps.ex_b ∈ new.
Proof.
  destruct (sysupgrade_spec (fun _ => 15) (fun _ => lit "core") (fun _ _ => 1) [] [] ex_olds [ex_repo] ex_handle ex_trans false [])
    as (h' & ans' & new & E & _ & _ & _ & H); [|by_decide|reflexivity|reflexivity|by_decide|by_decide|].
  - intros db ->%list_elem_of_singleton. by_decide.
  - exists h', ans', new. split; [exact E|]. apply (H eq_refl ex_old); [by_decide|by_decide|by_decide|]. split; reflexivity.
Defined.

(** ** Download sizes *)

Section Download.
(** [_klpm_filecache_find] and the size [stat] reports for a path. *)
Variables (filecache_find : cstr -> option cstr) (stat_size : cstr -> option Z).

(** [compute_download_size]: the return value, the size stored in the package
    and the error set (if any). *)
Definition compute_download_size (p : pkg) : Z * option Z * option Handle.errno :=
  if negb (bool_decide (origin p = FROM_SYNCDB)) then (0, Some 0, None)
  else
    match filename p with
    | None => (-1, None, Some Handle.ERR_PKG_INVALID_NAME)
    | Some fname =>
        match filecache_find fname with
        | Some _ => (0, Some 0, None)
        | None =>
            match filecache_find (fname ++ lit ".part") with
            | Some fpath =>
                match stat_size fpath with
                | Some st_size => let size := size p - st_size in (1, Some (if size <? 0 then 0 else size), None)
                | None => (1, Some 0, None)
                end
            | None => (0, Some (size p), None)
            end
        end
    end.
End Download.

(** ** Preparing the transaction *)

Section Prepare.
Context {D : Type} `{!PkgCache D}.
Variables (usage status : D -> Z) (fnmatch : cstr -> cstr -> Z).
Variables (force_load : pkg -> bool) (new_addr : pkg -> positive).
Variables (filecache_find : cstr -> option cstr) (stat_size : cstr -> option Z).
Variables (ignorepkg ignoregroup : list cstr) (assumeinstalled : list depend).
Variables (db_local : D) (dbs_sync : list D) (flags : Z).

(** [DB_STATUS_INVALID] and [DB_STATUS_MISSING] of [db.h] *)
Definition STATUS_INVALID : Z := 2 ^ 1.
Definition STATUS_MISSING : Z := 2 ^ 3.

(** What [*data] points to: missing dependencies or conflicts. *)
Inductive datum := Missing (m : Deps.depmissing) | Clash (c : Conflict.conflict).

(** The part of the transaction and of the handle [_klpm_sync_prepare] works
    on; [s_ans] are the answers still to come. *)
Record sstate := SState {
  s_add : list pkg; s_remove : list pkg; s_unresolvable : list pkg;
  s_objs : objects; s_ans : list Z; s_errno : Handle.errno; s_data : list datum
}.

(** The state after a phase, with [true] when the function goes on and [false]
    when it returns -1; [None] stands for a loop without end, or for a NULL file
    name that is compared. *)
Definition phase : Type := sstate -> option (bool * sstate).
Definition andthen (f g : phase) : phase := fun s =>
  r ← f s; let '(go, s') := r : bool * sstate in if go then g s' else Some (false, s').
Definition fail (s : sstate) (e : Handle.errno) (data : list datum) : option (bool * sstate) :=
  Some (false, SState (s_add s) (s_remove s) (s_unresolvable s) (s_objs s) (s_ans s) e data).

Definition no_deps : bool := Handle.has flags Handle.FLAG_NODEPS.
Definition nodepversion : bool := Handle.has flags Handle.FLAG_NODEPVERSION.

(** *** All sync databases must be usable *)

Definition check_db (from_sync : bool) (db : D) : option Handle.errno :=
  if Handle.has (status db) STATUS_INVALID then Some Handle.ERR_DB_INVALID
  else if from_sync && Handle.has (status db) STATUS_MISSING then Some Handle.ERR_DB_NOT_FOUND
  else None.
Fixpoint check_dbs (from_sync : bool) (dbs : list D) : option Handle.errno :=
  match dbs with
  | [] => None
  | db :: dbs' => match check_db from_sync db with Some e => Some e | None => check_dbs from_sync dbs' end
  end.
Definition validate : phase := fun s =>
  let from_sync := existsb (fun p => bool_decide (origin p = FROM_SYNCDB)) (s_add s) in
  match check_dbs from_sync dbs_sync with
  | Some e => fail s e (s_data s)
  | None => Some (true, s)
  end.

(** *** Resolving dependencies *)

Definition of_errno (e : ResolveDeps.resolve_errno) : Handle.errno :=
  match e with
  | ResolveDeps.ERR_OK => Handle.ERR_OK
  | ResolveDeps.ERR_PKG_IGNORED => Handle.ERR_PKG_IGNORED
  | ResolveDeps.ERR_PKG_NOT_FOUND => Handle.ERR_PKG_NOT_FOUND
  | ResolveDeps.ERR_UNSATISFIED_DEPS => Handle.ERR_UNSATISFIED_DEPS
  end.

(** The loop that resolves the targets one at a time: [resolved],
    [unresolvable], [*data] and the handle. *)
Fixpoint resolve_targets (localpkgs preferred remove targets resolved unresolvable : list pkg)
    (data : list Deps.depmissing) (st : ResolveDeps.rstate)
    : option (list pkg * list pkg * list Deps.depmissing * ResolveDeps.rstate) :=
  match targets with
  | [] => Some (resolved, unresolvable, data, st)
  | p :: rest =>
      r ← ResolveDeps.resolvedeps usage fnmatch ignorepkg ignoregroup db_local dbs_sync nodepversion assumeinstalled
            localpkgs preferred remove (length (ResolveDeps.reachable dbs_sync preferred p)) p resolved data st;
      let unresolvable := if ResolveDeps.r_ret r =? -1 then unresolvable ++ [p] else unresolvable in
      resolve_targets localpkgs preferred remove rest (ResolveDeps.r_packages r) unresolvable
        (ResolveDeps.r_data r) (ResolveDeps.r_st r)
  end.

(** Two packages with the same file name: [strcmp] of the names, neither of which
    may be NULL; all pairs are compared. *)
Definition same_filename (p q : pkg) : option bool :=
  a ← filename p; b ← filename q; Some (strcmp a b =? 0).
Fixpoint any_same (p : pkg) (rest : list pkg) : option bool :=
  match rest with
  | [] => Some false
  | q :: rest => b ← same_filename p q; c ← any_same p rest; Some (b || c)
  end.
Fixpoint dup_filename (pkgs : list pkg) : option bool :=
  match pkgs with
  | [] => Some false
  | p :: rest => b ← any_same p rest; c ← dup_filename rest; Some (b || c)
  end.

(** Pulled packages get the DEPEND reason. *)
Definition mark_pulled (add : list pkg) (o : objects) (p : pkg) : objects :=
  match Package.pkg_find add (name p) with Some _ => o | None => Handle.put_reason p REASON_DEPEND o end.

(** The packages the targets will remove, in order. *)
Definition removes_of (o : objects) (add : list pkg) : list pkg := add ≫= Handle.get_removes o.

Definition resolve_phase : phase := fun s =>
  if no_deps then Some (true, s)
  else
    let remove := s_remove s ++ removes_of (s_objs s) (s_add s) in
    let localpkgs := KList.diff Package.pkg_cmp (pc_list db_local) (s_add s) in
    r ← resolve_targets localpkgs (s_add s) remove (s_add s) [] [] [] (ResolveDeps.RState (s_ans s) ResolveDeps.ERR_OK);
    let '(resolved, unresolvable, data, st) := r in
    let '(go, ans, e, data) :=
      match unresolvable with
      | [] => (true, ResolveDeps.answers st, of_errno (ResolveDeps.pm_errno st), data)
      | _ =>
          let '(skip, ans) := ResolveDeps.question 0 (ResolveDeps.answers st) in
          if skip =? 0 then (false, ans, Handle.ERR_UNSATISFIED_DEPS, data) else (true, ans, Handle.ERR_OK, [])
      end in
    let s' := SState (s_add s) (s_remove s) (s_unresolvable s) (s_objs s) ans e (Missing <$> data) in
    if negb go then Some (false, s')
    else
      dup ← dup_filename resolved;
      if dup : bool then fail s' Handle.ERR_TRANS_DUP_FILENAME (s_data s')
      else Some (true, SState resolved (s_remove s) unresolvable (fold_left (mark_pulled (s_add s)) resolved (s_objs s))
                         ans e (s_data s')).

(** *** Conflicts among the targets *)

(** Which of the two conflicting targets goes: the one the other provides. *)
Definition loser (sync1 sync2 : pkg) : option pkg :=
  if Deps.depcmp sync1 (Deps.dep_from_string (name sync2)) then Some sync2
  else if Deps.depcmp sync2 (Deps.dep_from_string (name sync1)) then Some sync1
  else None.

(** An unresolvable conflict: [*data] gets a copy of it ([_klpm_conflict_dup]);
    when the copy cannot be made, [_klpm_pkg_dup] has replaced the error. *)
Definition report (s : sstate) (c : Conflict.conflict) : option (bool * sstate) :=
  match Conflict.conflict_new force_load new_addr (Conflict.package1 c) (Conflict.package2 c) (Conflict.c_reason c) with
  | Some c' => fail s Handle.ERR_CONFLICTING_DEPS (s_data s ++ [Clash c'])
  | None => fail s Handle.ERR_PKG_INVALID (s_data s)
  end.

Fixpoint inner_loop (deps : list Conflict.conflict) : phase := fun s =>
  match deps with
  | [] => Some (true, s)
  | c :: deps' =>
      match Package.pkg_find (s_add s) (name (Conflict.package1 c)), Package.pkg_find (s_add s) (name (Conflict.package2 c)) with
      | Some sync1, Some sync2 =>
          match loser sync1 sync2 with
          | None => report s c
          | Some rsync =>
              inner_loop deps' (SState (KList.remove_first Package.pkg_cmp (s_add s) rsync) (s_remove s)
                (s_unresolvable s ++ [rsync]) (s_objs s) (s_ans s) (s_errno s) (s_data s))
          end
      | _, _ => inner_loop deps' s
      end
  end.

(** *** Conflicts with installed packages *)

Definition elected (s : sstate) (n : cstr) : bool :=
  match Package.pkg_find (s_remove s) n with
  | Some _ => true
  | None => existsb (fun p => match Package.pkg_find (Handle.get_removes (s_objs s) p) n with Some _ => true | None => false end)
              (s_add s)
  end.

(** [sync->removes = klpm_list_add(sync->removes, local)] for the target
    [name1] and the installed package [name2], which both exist. *)
Definition elect (s : sstate) (name1 name2 : cstr) : objects :=
  match Package.pkg_find (s_add s) name1, pc_find db_local name2 with
  | Some sync, Some local => Handle.put_removes sync (Handle.get_removes (s_objs s) sync ++ [local]) (s_objs s)
  | _, _ => s_objs s
  end.

Fixpoint outer_loop (deps : list Conflict.conflict) : phase := fun s =>
  match deps with
  | [] => Some (true, s)
  | c :: deps' =>
      let name1 := name (Conflict.package1 c) in
      let name2 := name (Conflict.package2 c) in
      if elected s name2 then outer_loop deps' s
      else
        let '(remove, ans) := ResolveDeps.question 0 (s_ans s) in
        let s := SState (s_add s) (s_remove s) (s_unresolvable s) (s_objs s) ans (s_errno s) (s_data s) in
        if remove =? 0 then report s c
        else outer_loop deps' (SState (s_add s) (s_remove s) (s_unresolvable s) (elect s name1 name2) ans (s_errno s) (s_data s))
  end.

Definition conflict_phase : phase := fun s =>
  if Handle.has flags Handle.FLAG_NOCONFLICTS then Some (true, s)
  else
    andthen (inner_loop (Conflict.innerconflicts force_load new_addr (s_add s)))
      (fun s => outer_loop (Conflict.outerconflicts force_load new_addr (pc_list db_local) (s_add s)) s) s.

(** *** The list of packages to remove

    The error an incomplete copy leaves is not kept: the function goes on. *)

Fixpoint build_remove (remove todo : list pkg) : bool * list pkg :=
  match todo with
  | [] => (true, remove)
  | rpkg :: todo' =>
      match Package.pkg_find remove (name rpkg) with
      | Some _ => build_remove remove todo'
      | None =>
          let '(r, copy) := Package.pkg_dup (force_load rpkg) (new_addr rpkg) rpkg in
          if r =? -1 then (false, remove) else build_remove (remove ++ [copy]) todo'
      end
  end.
Definition remove_phase : phase := fun s =>
  let '(go, remove) := build_remove (s_remove s) (removes_of (s_objs s) (s_add s)) in
  Some (go, SState (s_add s) remove (s_unresolvable s) (s_objs s) (s_ans s) (s_errno s) (s_data s)).

(** *** The final check of the dependencies; [klpm_checkdeps] clears the error *)

Definition deps_phase : phase := fun s =>
  if no_deps then Some (true, s)
  else
    match Deps.checkdeps nodepversion assumeinstalled (pc_list db_local) (s_remove s) (s_add s) true with
    | [] => Some (true, SState (s_add s) (s_remove s) (s_unresolvable s) (s_objs s) (s_ans s) Handle.ERR_OK (s_data s))
    | deps => fail s Handle.ERR_UNSATISFIED_DEPS (Missing <$> deps)
    end.

(** *** Download sizes and the installed versions *)

(** [klpm_db_get_pkg]: the package and the error left. *)
Definition db_get_pkg (n : cstr) : option pkg * Handle.errno :=
  match n with
  | [] => (None, Handle.ERR_WRONG_ARGS)
  | _ => match pc_find db_local n with Some p => (Some p, Handle.ERR_OK) | None => (None, Handle.ERR_PKG_NOT_FOUND) end
  end.

Fixpoint size_loop (add : list pkg) : phase := fun s =>
  match add with
  | [] => Some (true, s)
  | spkg :: rest =>
      let '(lpkg, e) := db_get_pkg (name spkg) in
      let '(r, dsize, e') := compute_download_size filecache_find stat_size spkg in
      let e := default e e' in
      let o := match dsize with Some z => Handle.put_download_size spkg z (s_objs s) | None => s_objs s end in
      let s := SState (s_add s) (s_remove s) (s_unresolvable s) o (s_ans s) e (s_data s) in
      if r <? 0 then Some (false, s)
      else
        match lpkg with
        | None => size_loop rest s
        | Some lpkg =>
            let '(r, copy) := Package.pkg_dup (force_load lpkg) (new_addr lpkg) lpkg in
            let s := SState (s_add s) (s_remove s) (s_unresolvable s) (Handle.put_oldpkg spkg copy (s_objs s))
                       (s_ans s) (if r =? 0 then s_errno s else Handle.ERR_PKG_INVALID) (s_data s) in
            if r =? 0 then size_loop rest s else Some (false, s)
        end
  end.
Definition size_phase : phase := fun s => size_loop (s_add s) s.

(** [_klpm_sync_prepare] *)
Definition sync_prepare : phase := fun s =>
  andthen validate (andthen resolve_phase (andthen conflict_phase (andthen remove_phase (andthen deps_phase size_phase))))
    (SState (s_add s) (s_remove s) (s_unresolvable s) (s_objs s) (s_ans s) (s_errno s) []).

(** ** Theorems about the preparation *)

Context (Hload : forall p, force_load p = false).

(** The package has a file name, as those of the repositories should. *)
Definition has_filename (p : pkg) : Prop := is_Some (filename p).
Context (Hfiles : forall db p, db ∈ dbs_sync -> p ∈ pc_list db -> has_filename p).
Lemma any_same_total p l : has_filename p -> Forall has_filename l -> exists b, any_same p l = Some b.
Proof.
  intros [a Ea]. induction 1 as [|q l [b Eb] _ [c IH]]; [by exists false|]. cbn. unfold same_filename. rewrite Ea, Eb. cbn. rewrite IH. by eexists.
Qed.
Lemma dup_filename_total l : Forall has_filename l -> exists b, dup_filename l = Some b.
Proof.
  induction 1 as [|p l Hp Hl [c IH]]; [by exists false|]. cbn. destruct (any_same_total p l Hp Hl) as [b ->]. cbn. rewrite IH. by eexists.
Qed.

Lemma resolve_targets_run localpkgs preferred remove targets resolved unresolvable data st :
  Forall pkg_hashed preferred -> Forall has_filename preferred -> Forall pkg_hashed targets -> Forall has_filename targets ->
  ResolveDeps.distinct resolved -> Forall has_filename resolved ->
  exists r, resolve_targets localpkgs preferred remove targets resolved unresolvable data st = Some r /\
    ResolveDeps.distinct r.1.1.1 /\ Forall has_filename r.1.1.1.
Proof.
  intros Hpref Hpf. revert resolved unresolvable data st.
  induction targets as [|p rest IH]; intros resolved unresolvable data st Ht Htf Hd Hdf; cbn [resolve_targets]; [eauto|].
  apply Forall_cons in Ht as [Hp Hrest]. apply Forall_cons in Htf as [Hpn Hrestf].
  destruct (ResolveDeps.resolvedeps_total usage fnmatch ignorepkg ignoregroup db_local dbs_sync nodepversion assumeinstalled
    localpkgs preferred remove p resolved data st Hp Hpref (proj1 Hd)) as [r Er].
  rewrite Er. simpl. apply IH; [done|done|by eapply ResolveDeps.resolvedeps_distinct in Er|].
  by eapply (ResolveDeps.resolvedeps_all _ _ _ _ _ _ _ _ _ _ _ has_filename) in Er.
Qed.

Lemma distinct_sublist l k : sublist l k -> ResolveDeps.distinct k -> ResolveDeps.distinct l.
Proof.
  intros Hs [Hh Hn]. split; [by eapply Remove.sublist_hashed|].
  eapply NoDup_sub, Hn. by apply sublist_submseteq, fmap_sublist.
Qed.

Lemma resolve_phase_run s :
  ResolveDeps.distinct (s_add s) -> Forall has_filename (s_add s) ->
  exists go s', resolve_phase s = Some (go, s') /\
    if go then ResolveDeps.distinct (s_add s') /\ s_remove s' = s_remove s else s_errno s' <> Handle.ERR_OK.
Proof.
  intros Hd Hf. unfold resolve_phase. destruct no_deps; [by exists true, s|].
  destruct (resolve_targets_run (KList.diff Package.pkg_cmp (pc_list db_local) (s_add s)) (s_add s)
    (s_remove s ++ removes_of (s_objs s) (s_add s)) (s_add s) [] [] [] (ResolveDeps.RState (s_ans s) ResolveDeps.ERR_OK))
    as ([[[resolved unres] data] st] & Er & Hr & Hrf); [apply Hd|done|apply Hd|done|split; constructor|constructor|]. cbn [fst] in Hr, Hrf.
  rewrite Er. simpl. destruct (match unres with [] => _ | _ => _ end) as [[[go ans] e] data'] eqn:Eg.
  destruct go; simpl.
  - destruct (dup_filename_total resolved Hrf) as [[] ->]; cbn [mbind option_bind]; [exists false; by eexists|]. exists true. eexists. split; [done|]. done.
  - exists false. eexists. split; [done|]. simpl. destruct unres; [done|].
    destruct (ResolveDeps.question 0 _) as [skip ans']. destruct (skip =? 0); [|done]. by injection Eg as <- <- <-.
Qed.

(** A conflict is settled once one of its targets is gone. *)
Definition settled_inner (add : list pkg) (c : Conflict.conflict) : Prop :=
  name (Conflict.package1 c) ∉ name <$> add \/ name (Conflict.package2 c) ∉ name <$> add.

Lemma settled_inner_sublist add add' c : sublist add' add -> settled_inner add c -> settled_inner add' c.
Proof.
  intros Hs. assert (forall x, x ∈ name <$> add' -> x ∈ name <$> add) as Hsub.
  { intros x Hx. eapply elem_of_submseteq; [exact Hx|]. by apply sublist_submseteq, fmap_sublist. }
  intros [H|H]; [left|right]; auto.
Qed.

Lemma loser_elem sync1 sync2 rsync : loser sync1 sync2 = Some rsync -> rsync = sync1 \/ rsync = sync2.
Proof. unfold loser. repeat case_match; intros [= <-]; auto. Qed.

Lemma report_run s c : exists s', report s c = Some (false, s') /\ s_errno s' <> Handle.ERR_OK.
Proof. unfold report, fail. case_match; by eexists. Qed.

Lemma inner_loop_run deps s :
  ResolveDeps.distinct (s_add s) ->
  exists go s', inner_loop deps s = Some (go, s') /\
    if go then sublist (s_add s') (s_add s) /\ s_remove s' = s_remove s /\ s_objs s' = s_objs s /\
               forall c, c ∈ deps -> settled_inner (s_add s') c
    else s_errno s' <> Handle.ERR_OK.
Proof.
  revert s. induction deps as [|c deps IH]; intros s Hd; cbn [inner_loop].
  { exists true, s. split_and!; [done..|]. intros c ?%elem_of_nil. done. }
  assert (settled_inner (s_add s) c ->
    exists go s', inner_loop deps s = Some (go, s') /\
      if go then sublist (s_add s') (s_add s) /\ s_remove s' = s_remove s /\ s_objs s' = s_objs s /\
                 forall c', c' ∈ c :: deps -> settled_inner (s_add s') c'
      else s_errno s' <> Handle.ERR_OK) as Hskip.
  { intros Hc. destruct (IH s Hd) as (go & s' & E & H). exists go, s'. split; [done|]. destruct go; [|done].
    destruct H as (Hs & ? & ? & Hall). split_and!; [done..|]. intros c' [->|?]%elem_of_cons; [|auto].
    by eapply settled_inner_sublist. }
  destruct Hd as [Hh Hn].
  destruct (Package.pkg_find (s_add s) (name (Conflict.package1 c))) as [s1|] eqn:E1;
    [|apply Package.pkg_find_None in E1; [|done]; apply Hskip; by left].
  destruct (Package.pkg_find (s_add s) (name (Conflict.package2 c))) as [s2|] eqn:E2;
    [|apply Package.pkg_find_None in E2; [|done]; apply Hskip; by right].
  apply Package.pkg_find_Some in E1 as [H1 N1], E2 as [H2 N2].
  destruct (loser s1 s2) as [rsync|] eqn:El; [|exists false; apply report_run].
  apply loser_elem in El. clear Hskip.
  set (s' := SState _ _ _ _ _ _ _). pose proof (Remove.remove_first_sublist (s_add s) rsync) as Hs.
  destruct (IH s') as (go & s'' & E & H); [eapply distinct_sublist; [exact Hs|done]|].
  exists go, s''. split; [done|]. destruct go; [|done]. destruct H as (Hs' & ? & ? & Hall).
  split_and!; [by etrans|done|done|]. intros c' [->|?]%elem_of_cons; [|auto].
  assert (name rsync ∉ name <$> s_add s'') as Hgone.
  { intros Hin. assert (name rsync ∈ name <$> KList.remove_first Package.pkg_cmp (s_add s) rsync) as Hin'
      by (eapply elem_of_submseteq; [exact Hin|]; by apply sublist_submseteq, fmap_sublist).
    apply list_elem_of_fmap in Hin' as (x & Ex & Hx). apply (Remove.remove_first_elem _ _ _ Hn) in Hx as [_ Hne]. congruence. }
  destruct El as [-> | ->]; [left|right]; congruence.
Qed.

(** *** Conflicts with installed packages *)

(** The package [n] is going to be removed. *)
Definition covered (s : sstate) (n : cstr) : Prop :=
  n ∈ name <$> s_remove s \/ exists p, p ∈ s_add s /\ n ∈ name <$> Handle.get_removes (s_objs s) p.

Lemma elected_covered s n : elected s n = true -> covered s n.
Proof.
  unfold elected. destruct (Package.pkg_find (s_remove s) n) as [q|] eqn:E.
  - intros _. left. apply Package.pkg_find_Some in E as [? <-]. apply list_elem_of_fmap. eauto.
  - intros (p & Hp & Hf)%existsb_exists. destruct (Package.pkg_find (Handle.get_removes (s_objs s) p) n) as [q|] eqn:Eq; [|done].
    right. exists p. split; [by apply list_elem_of_In|]. apply Package.pkg_find_Some in Eq as [? <-]. apply list_elem_of_fmap. eauto.
Qed.

Lemma get_put_removes o p l q :
  Handle.get_removes (Handle.put_removes p l o) q = if decide (pkg_id p = pkg_id q) then l else Handle.get_removes o q.
Proof.
  unfold Handle.get_removes, Handle.put_removes, Handle.fields_of. case_decide as E.
  - by rewrite E, lookup_insert_eq.
  - by rewrite lookup_insert_ne.
Qed.

(** [removes] lists only grow. *)
Definition grows (o o' : objects) : Prop :=
  forall p n, n ∈ name <$> Handle.get_removes o p -> n ∈ name <$> Handle.get_removes o' p.

Lemma elect_spec s n1 n2 :
  ResolveDeps.distinct (s_add s) -> n1 ∈ name <$> s_add s -> n2 ∈ name <$> pc_list db_local ->
  grows (s_objs s) (elect s n1 n2) /\
  exists p, p ∈ s_add s /\ n2 ∈ name <$> Handle.get_removes (elect s n1 n2) p.
Proof.
  intros [Hh _] H1 H2. unfold elect.
  apply Package.pkg_find_is_Some in H1 as [sync E1]; [|done]. rewrite E1.
  destruct (pc_find db_local n2) as [q|] eqn:E2; [|by apply pc_find_None in E2].
  apply pc_find_Some in E2 as [_ E2]. apply Package.pkg_find_Some in E1 as [Hs _]. split.
  - intros p n. rewrite get_put_removes. case_decide as E; [|done].
    unfold Handle.get_removes, Handle.fields_of. rewrite E, fmap_app. set_solver.
  - exists sync. split; [done|]. rewrite get_put_removes, decide_True by done. rewrite fmap_app, <- E2. set_solver.
Qed.

Lemma covered_grows s s' n :
  s_add s' = s_add s -> s_remove s' = s_remove s -> grows (s_objs s) (s_objs s') -> covered s n -> covered s' n.
Proof. intros Ea Er Hg [?|(p & Hp & Hn)]; [left; by rewrite Er|right]. exists p. rewrite Ea. auto. Qed.

Lemma outer_loop_run deps s :
  ResolveDeps.distinct (s_add s) ->
  (forall c, c ∈ deps -> name (Conflict.package1 c) ∈ name <$> s_add s /\ name (Conflict.package2 c) ∈ name <$> pc_list db_local) ->
  exists go s', outer_loop deps s = Some (go, s') /\
    if go then s_add s' = s_add s /\ s_remove s' = s_remove s /\ grows (s_objs s) (s_objs s') /\
               forall c, c ∈ deps -> covered s' (name (Conflict.package2 c))
    else s_errno s' <> Handle.ERR_OK.
Proof.
  revert s. induction deps as [|c deps IH]; intros s Hd Hc; cbn [outer_loop].
  { exists true, s. split_and!; [done|done|done|by intros p n ?|]. intros c ?%elem_of_nil. done. }
  assert (forall s1, s_add s1 = s_add s -> s_remove s1 = s_remove s -> grows (s_objs s) (s_objs s1) ->
    covered s1 (name (Conflict.package2 c)) ->
    exists go s', outer_loop deps s1 = Some (go, s') /\
      if go then s_add s' = s_add s /\ s_remove s' = s_remove s /\ grows (s_objs s) (s_objs s') /\
                 forall c', c' ∈ c :: deps -> covered s' (name (Conflict.package2 c'))
      else s_errno s' <> Handle.ERR_OK) as Hgo.
  { intros s1 Ea Er Hg Hcov. destruct (IH s1) as (go & s' & E & H).
    - by rewrite Ea.
    - intros c' Hc'. rewrite Ea. apply Hc. set_solver.
    - exists go, s'. split; [done|]. destruct go; [|done]. destruct H as (Ea' & Er' & Hg' & Hall).
      split_and!; [congruence|congruence|intros p n ?; by apply Hg', Hg|].
      intros c' [->|?]%elem_of_cons; [|auto]. by eapply covered_grows. }
  destruct (elected s (name (Conflict.package2 c))) eqn:Ee; [apply Hgo; [done|done|by intros p n ?|by apply elected_covered]|].
  destruct (ResolveDeps.question 0 (s_ans s)) as [a ans]. set (s1 := SState _ _ _ _ _ _ _).
  destruct (a =? 0); [exists false; apply report_run|].
  destruct (Hc c) as [H1 H2]; [set_solver|]. destruct (elect_spec s1 _ _ Hd H1 H2) as [Hg Hex].
  apply Hgo; [done|done|exact Hg|right; exact Hex].
Qed.

Lemma conflict_phase_run s :
  ResolveDeps.distinct (s_add s) -> NoDup (name <$> pc_list db_local) ->
  exists go s', conflict_phase s = Some (go, s') /\
    if go then ResolveDeps.distinct (s_add s') /\ s_remove s' = s_remove s /\ (Handle.has flags Handle.FLAG_NOCONFLICTS = false ->
      (forall p q, p ∈ s_add s' -> q ∈ s_add s' -> ~ Conflict.declares p q) /\
      forall p q, p ∈ s_add s' -> q ∈ pc_list db_local -> name q ∉ name <$> s_add s' ->
         Conflict.declares p q \/ Conflict.declares q p -> covered s' (name q))
    else s_errno s' <> Handle.ERR_OK.
Proof.
  intros Hd Hl. unfold conflict_phase, andthen. destruct (Handle.has flags Handle.FLAG_NOCONFLICTS); [by exists true, s|].
  destruct (Conflict.inner_correct force_load new_addr (s_add s) Hload (proj1 Hd)) as [_ Hinner].
  destruct (inner_loop_run (Conflict.innerconflicts force_load new_addr (s_add s)) s Hd) as (go & s1 & E & H).
  rewrite E. simpl. destruct go; [|exists false; by eexists]. destruct H as (Hs & Er & Eo & Hset).
  assert (ResolveDeps.distinct (s_add s1)) as Hd1 by by eapply distinct_sublist.
  destruct (Conflict.outer_correct force_load new_addr (pc_list db_local) (s_add s1) Hload (pc_hashed db_local) (proj1 Hd1) Hl)
    as [_ Houter].
  destruct (outer_loop_run (Conflict.outerconflicts force_load new_addr (pc_list db_local) (s_add s1)) s1 Hd1)
    as (go & s2 & E2 & H2).
  { intros c Hc. assert (Conflict.pair_of c ∈ Conflict.pair_of <$> Conflict.outerconflicts force_load new_addr (pc_list db_local) (s_add s1))
      as Hin by (apply list_elem_of_fmap; eauto). apply Houter in Hin as (p & q & Hp & Hq & _ & <- & <- & _).
    split; apply list_elem_of_fmap; eauto. }
  exists go, s2. split; [done|]. destruct go; [|done]. destruct H2 as (Ea & Er2 & Hg & Hcov). rewrite Ea.
  split_and!; [done|congruence|]. intros _. split.
  - intros p q Hp Hq Hdec. assert (forall x, x ∈ s_add s1 -> x ∈ s_add s) as Hsub
      by (intros x Hx; eapply elem_of_submseteq; [exact Hx|by apply sublist_submseteq]).
    assert ((name p, name q) ∈ Conflict.pair_of <$> Conflict.innerconflicts force_load new_addr (s_add s)) as Hin.
    { apply Hinner. exists p, q. auto. }
    apply list_elem_of_fmap in Hin as (c & Ec & Hc). injection Ec as E1 E3.
    destruct (Hset c Hc) as [Hn|Hn]; apply Hn; [rewrite <- E1|rewrite <- E3]; apply list_elem_of_fmap; eauto.
  - intros p q Hp Hq Hn Hdec.
    assert ((name p, name q) ∈ Conflict.pair_of <$> Conflict.outerconflicts force_load new_addr (pc_list db_local) (s_add s1)) as Hin.
    { apply Houter. exists p, q. auto 10. }
    apply list_elem_of_fmap in Hin as (c & Ec & Hc). injection Ec as E1 E3. rewrite E3. auto.
Qed.

(** *** The remaining phases *)

Lemma build_remove_run remove todo :
  exists remove', build_remove remove todo = (true, remove') /\
    forall n, n ∈ name <$> remove \/ n ∈ name <$> todo -> n ∈ name <$> remove'.
Proof.
  revert remove. induction todo as [|r todo IH]; intros remove; cbn [build_remove].
  { exists remove. split; [done|]. intros n [?|?%elem_of_nil]; done. }
  destruct (Package.pkg_find remove (name r)) as [q|] eqn:E.
  - destruct (IH remove) as (remove' & E' & H). exists remove'. split; [done|]. apply Package.pkg_find_Some in E as [Hq En].
    intros n [?|[->|?]%elem_of_cons]; [auto| |auto]. apply H. left. rewrite <- En. apply list_elem_of_fmap. eauto.
  - unfold Package.pkg_dup. rewrite Hload. simpl.
    match goal with |- context [build_remove ?l todo] => destruct (IH l) as (remove' & E' & H) end.
    exists remove'. split; [done|]. intros n Hn. apply H. rewrite fmap_app. simpl. set_solver.
Qed.

Lemma size_loop_run add s :
  exists go s', size_loop add s = Some (go, s') /\ s_add s' = s_add s /\ s_remove s' = s_remove s /\
    (go = false -> s_errno s' <> Handle.ERR_OK).
Proof.
  revert s. induction add as [|p add IH]; intros s; cbn [size_loop]; [by exists true, s|].
  destruct (db_get_pkg (name p)) as [lpkg e].
  destruct (compute_download_size filecache_find stat_size p) as [[r dsize] e'] eqn:Ec. set (s1 := SState _ _ _ _ _ _ _).
  destruct (Z.ltb_spec r 0) as [Hr|Hr].
  { exists false, s1. split_and!; [done..|]. intros _. unfold s1. simpl. unfold compute_download_size in Ec.
    repeat case_match; simplify_eq; simpl; try done; lia. }
  destruct lpkg as [l|]; [|destruct (IH s1) as (go & s' & E & H); exists go, s'; done].
  unfold Package.pkg_dup. rewrite Hload. simpl.
  match goal with |- context [size_loop add ?s2] => destruct (IH s2) as (go & s' & E & H) end. exists go, s'. done.
Qed.

Lemma check_dbs_error b dbs e : check_dbs b dbs = Some e -> e <> Handle.ERR_OK.
Proof.
  induction dbs as [|db dbs IH]; simpl; [done|]. destruct (check_db b db) as [e'|] eqn:E; [|done].
  intros [= ->]. unfold check_db in E. repeat case_match; by simplify_eq.
Qed.

Lemma deps_phase_run s : Deps.consistent nodepversion assumeinstalled (pc_list db_local) ->
  exists go s', deps_phase s = Some (go, s') /\
    if go then s_add s' = s_add s /\ s_remove s' = s_remove s /\
      (no_deps = false -> Deps.consistent nodepversion assumeinstalled (Deps.untouched (s_remove s) (s_add s) (pc_list db_local) ++ s_add s))
    else s_errno s' <> Handle.ERR_OK.
Proof.
  intros Hc. unfold deps_phase. destruct no_deps; [by exists true, s|].
  destruct (Deps.checkdeps _ _ _ _ _ _) as [|m deps] eqn:Ed; [|exists false; by eexists]. exists true. eexists. split; [done|].
  split_and!; [done|done|]. intros _. by apply Deps.checkdeps_keeps.
Qed.
Lemma sync_prepare_run s :
  ResolveDeps.distinct (s_add s) -> Forall has_filename (s_add s) -> NoDup (name <$> pc_list db_local) ->
  Deps.consistent nodepversion assumeinstalled (pc_list db_local) ->
  exists go s', sync_prepare s = Some (go, s') /\
    if go then
      NoDup (name <$> s_add s') /\
      (no_deps = false ->
        Deps.consistent nodepversion assumeinstalled (Deps.untouched (s_remove s') (s_add s') (pc_list db_local) ++ s_add s')) /\
      (Handle.has flags Handle.FLAG_NOCONFLICTS = false ->
       (forall p q, p ∈ s_add s' -> q ∈ s_add s' -> ~ Conflict.declares p q) /\
       forall p q, p ∈ s_add s' -> q ∈ pc_list db_local -> name q ∉ name <$> s_add s' ->
         Conflict.declares p q \/ Conflict.declares q p -> name q ∈ name <$> s_remove s')
    else s_errno s' <> Handle.ERR_OK.
Proof.
  intros Hd Hfn Hl Hc. unfold sync_prepare, andthen at 1. set (s0 := SState _ _ _ _ _ _ _).
  unfold validate. destruct (check_dbs _ dbs_sync) as [e|] eqn:Ec.
  { simpl. exists false. eexists. split; [done|]. simpl. by eapply check_dbs_error. }
  simpl. destruct (resolve_phase_run s0) as (go & s1 & E1 & H1); [done..|]. unfold andthen at 1. rewrite E1. simpl.
  destruct go; [|exists false; by eexists]. destruct H1 as [Hd1 Er1].
  destruct (conflict_phase_run s1) as (go & s2 & E2 & H2); [done..|]. unfold andthen at 1. rewrite E2. simpl.
  destruct go; [|exists false; by eexists]. destruct H2 as (Hd2 & Er2 & Hconf).
  unfold andthen at 1, remove_phase.
  destruct (build_remove_run (s_remove s2) (removes_of (s_objs s2) (s_add s2))) as (remove & Eb & Hrem). rewrite Eb. simpl.
  unfold andthen. set (s3 := SState _ _ _ _ _ _ _).
  destruct (deps_phase_run s3 Hc) as (go & s4 & -> & H4). cbn [mbind option_bind]. destruct go; [|exists false; by eexists]. destruct H4 as (Ea4 & Er4 & H4).
  destruct (size_loop_run (s_add s4) s4) as (go & s5 & E5 & Ea & Er & He). unfold size_phase. exists go, s5. split; [done|]. destruct go; [|auto].
  rewrite Ea, Er, Ea4, Er4. split_and!; [apply Hd2|exact H4|]. intros Hn. destruct (Hconf Hn) as [Hin Hout]. split; [done|].
  intros p q Hp Hq Hnq Hdec. apply Hrem. destruct (Hout p q Hp Hq Hnq Hdec) as [?|(x & Hx & Hxn)]; [by left|right].
  apply list_elem_of_fmap in Hxn as (y & Ey & Hy). apply list_elem_of_fmap. exists y. split; [done|].
  apply list_elem_of_bind. eauto.
Qed.
End Prepare.

(** C1: [_klpm_sync_prepare] of targets with distinct names on a consistent system
    ends, when the metadata of every package can be loaded and every target and every package of a repository
    has a file name (the code compares the names without a test).  When it returns 0,
    the targets have distinct names; unless NODEPS is set, the system after the
    transaction (what is neither removed nor replaced, and the targets) is
    consistent; unless NOCONFLICTS is set, no two targets conflict, and every
    installed package that conflicts with a target and is not itself replaced is on
    the list of packages to remove.  When it returns -1 it has set an error. *)
Theorem sync_prepare_spec {D} `{!PkgCache D} usage status fnmatch force_load new_addr filecache_find stat_size
    ignorepkg ignoregroup assumed (db_local : D) dbs_sync flags s
    (Hload : forall p, force_load p = false) (Hadd : ResolveDeps.distinct (s_add s)) (Hnd : NoDup (name <$> pc_list db_local))
    (Hfiles : forall (db : D) p, db ∈ dbs_sync -> p ∈ pc_list db -> has_filename p) (Htargets : Forall has_filename (s_add s))
    (Hc : Deps.consistent (nodepversion flags) assumed (pc_list db_local)) :
  exists go s', sync_prepare usage status fnmatch force_load new_addr filecache_find stat_size ignorepkg ignoregroup
      assumed db_local dbs_sync flags s = Some (go, s') /\
    if go then
      NoDup (name <$> s_add s') /\
      (no_deps flags = false ->
        Deps.consistent (nodepversion flags) assumed
          (Deps.untouched (s_remove s') (s_add s') (pc_list db_local) ++ s_add s')) /\
      (Handle.has flags Handle.FLAG_NOCONFLICTS = false ->
       (forall p q, p ∈ s_add s' -> q ∈ s_add s' -> ~ Conflict.declares p q) /\
       (forall p q, p ∈ s_add s' -> q ∈ pc_list db_local -> name q ∉ name <$> s_add s' ->
          Conflict.declares p q \/ Conflict.declares q p -> name q ∈ name <$> s_remove s'))
    else s_errno s' <> Handle.ERR_OK.
Proof. by apply sync_prepare_run. Qed.

(** Installing [b], which the installed [foe] declares a conflict with; the
    user agrees to the removal. *)
Definition ex_foes : pkglist := PkgList [Conflict.ex_foe] ltac:(by_decide).
Definition ex_new : pkg := with_filename Deps.ex_b (lit "b-1-1.pkg").
Definition ex_state : sstate := SState [ex_new] [] [] ∅ [1] Handle.ERR_OK [].

Lemma sync_prepare_witness :
  exists s', sync_prepare (fun _ => 15) (fun _ => 1) (fun _ _ => 1) (fun _ => false) pkg_id (fun _ => None) (fun _ => None)
      [] [] [] ex_foes [] 0 ex_state = Some (true, s') /\ lit "foe" ∈ name <$> s_remove s'.
Proof.
  destruct (sync_prepare_spec (fun _ => 15) (fun _ => 1) (fun _ _ => 1) (fun _ => false) pkg_id (fun _ => None) (fun _ => None)
    [] [] [] ex_foes [] 0 ex_state) as (go & s' & E & H); [done|by_decide|by_decide|by intros db p []%not_elem_of_nil|apply Forall_singleton; by eexists| |].
  - intros p d Hp Hd. apply list_elem_of_singleton in Hp as ->. by apply elem_of_nil in Hd.
  - vm_compute in E. injection E as <- <-. destruct H as (_ & _ & H). destruct (H eq_refl) as [_ Hc]. clear H. eexists. split; [vm_compute; reflexivity|].
    apply (Hc ex_new Conflict.ex_foe); [by_decide|by_decide|by_decide|]. right.
    split; [by_decide|]. exists (Deps.dep_from_string (lit "b<2")). split; [by_decide|reflexivity].
Defined.

(** A target without a file name, as an entry of a repository that has none gives
    it, makes the comparison read through NULL. *)
Theorem null_filename_crashes :
  sync_prepare (fun _ => 15) (fun _ => 1) (fun _ _ => 1) (fun _ => false) pkg_id (fun _ => None) (fun _ => None)
    [] [] [] ex_foes [] 0 (SState [ex_new; mkpkg 9 (lit "c") (lit "1-1")] [] [] ∅ [] Handle.ERR_OK []) = None.
Proof. vm_compute. reflexivity. Qed.

End Sync.
