(* ===== verification/Trans.v ===== *)
(** * Transactions ([src/lib/libkuzpkg/trans.c], and the commit loops of
    [add.c], [remove.c] and [sync.c])

    [klpm_trans_prepare] and [klpm_trans_commit] on top of the preparation of
    removals and upgrades.  What happens to one package on disk ([_klpm_remove_single_package],
    [commit_single_pkg]), loading and checking the package files
    ([_klpm_sync_load], [_klpm_sync_check]) and the hooks are parameters. *)

From S2P Require Import Prelude CStr KList Package Deps SortDeps ResolveDeps Conflict Db Handle Remove Sync.
Local Open Scope Z_scope.

Module Trans.
Import Handle.

(** What [*data] is set to. *)
Inductive tdata := NoData | InvalidArch (l : list cstr) | BrokenDeps (l : list Deps.depmissing) | SyncData (l : list Sync.datum).

Section Prepare.
Context {D : Type} `{!PkgCache D}.
Variables (usage status : D -> Z) (fnmatch : cstr -> cstr -> Z).
Variables (force_load : pkg -> bool) (new_addr : pkg -> positive).
Variables (filecache_find : cstr -> option cstr) (stat_size : cstr -> option Z).
Variables (db_local : D) (dbs_sync : list D).

(** The call of [_klpm_remove_prepare]: does it go on, the transaction, the
    handle, [*data]. *)
Definition run_remove_prepare (h : handle) (t : trans) : option (bool * trans * handle * tdata) :=
  r ← Remove.remove_prepare force_load new_addr db_local (assumeinstalled h) (t_flags t) (t_remove t);
  let h := match Remove.p_errno r with Some e => set_errno h e | None => h end in
  Some (Remove.p_ret r =? 0, set_remove t (Remove.p_remove r), h, BrokenDeps (Remove.p_data r)).

(** The call of [_klpm_sync_prepare]. *)
Definition run_sync_prepare (h : handle) (t : trans) (ans : list Z) : option (bool * trans * handle * tdata * list Z) :=
  r ← Sync.sync_prepare usage status fnmatch force_load new_addr filecache_find stat_size (ignorepkg h) (ignoregroup h)
        (assumeinstalled h) db_local dbs_sync (t_flags t)
        (Sync.SState (t_add t) (t_remove t) (t_unresolvable t) (objs h) ans (pm_errno h) []);
  let '(go, s) := r : bool * Sync.sstate in
  Some (go, set_unresolvable (set_remove (set_add t (Sync.s_add s)) (Sync.s_remove s)) (Sync.s_unresolvable s),
        set_errno (set_objs h (Sync.s_objs s)) (Sync.s_errno s), SyncData (Sync.s_data s), Sync.s_ans s).

(** The two lists in dependency order; an empty list stays as it is. *)
Definition sort_targets (t : trans) : option trans :=
  if has (t_flags t) FLAG_NODEPS then Some t
  else
    add ← SortDeps.sortbydeps (pc_list db_local) (t_add t) (t_remove t) false;
    remove ← SortDeps.sortbydeps (pc_list db_local) (t_remove t) [] true;
    Some (set_remove (set_add t add) remove).

(** [klpm_trans_prepare] with a non-NULL [data]: the return value, the handle,
    [*data] and the answers left. *)
Definition trans_prepare (h : handle) (ans : list Z) : option (Z * handle * tdata * list Z) :=
  let h := check_handle h in
  match h_trans h with
  | None => Some (ret_err h ERR_TRANS_NULL, NoData, ans)
  | Some t =>
      if decide (t_state t = STATE_INITIALIZED) then
        match t_add t, t_remove t with
        | [], [] => Some (0, h, NoData, ans)
        | _, _ =>
            match check_arch (architectures h) (t_add t) with
            | (_ :: _) as invalid => Some (ret_err h ERR_PKG_INVALID_ARCH, InvalidArch invalid, ans)
            | [] =>
                r ← match t_add t with
                    | [] => r ← run_remove_prepare h t; Some (r, ans)
                    | _ => run_sync_prepare h t ans
                    end;
                let '(go, t, h, data, ans) := r : bool * trans * handle * tdata * list Z in
                if negb go then Some (-1, set_trans h (Some t), data, ans)
                else
                  t ← sort_targets t;
                  Some (0, set_trans h (Some (set_state t STATE_PREPARED)), data, ans)
            end
        end
      else Some (ret_err h ERR_TRANS_NOT_INITIALIZED, NoData, ans)
  end.
End Prepare.

(** ** Committing *)

Section Commit.
(** Loading and checking the package files, the hooks, and the removal or
    installation of one package; they may change the handle, and an interrupt
    may arrive while they run. *)
Variables (sync_load sync_check : handle -> Z * handle).
Variables (hook_pre hook_post : handle -> Z * handle).
Variables (remove_single_package commit_single_pkg : handle -> pkg -> Z * handle).

(** What is done to the system, in order. *)
Inductive op := Removed (p : pkg) | Installed (p : pkg).

Definition state_of (h : handle) : transstate := match h_trans h with Some t => t_state t | None => STATE_IDLE end.
Definition put_state (h : handle) (s : transstate) : handle := set_trans h ((fun t => set_state t s) <$> h_trans h).
Definition targets_add (h : handle) : list pkg := match h_trans h with Some t => t_add t | None => [] end.
Definition targets_remove (h : handle) : list pkg := match h_trans h with Some t => t_remove t | None => [] end.

(** The loop of [_klpm_remove_packages]: a failed removal is remembered, the
    others still run. *)
Fixpoint remove_packages (targs : list pkg) (h : handle) (ret : Z) : Z * handle * list op :=
  match targs with
  | [] => (ret, h, [])
  | p :: rest =>
      if decide (state_of h = STATE_INTERRUPTED) then (ret, h, [])
      else
        let '(r, h) := remove_single_package h p in
        let '(ret, h) := if r =? -1 then (-1, set_errno h ERR_TRANS_ABORT) else (ret, h) in
        let '(ret, h, ops) := remove_packages rest h ret in
        (ret, h, Removed p :: ops)
  end.

(** The loop of [_klpm_upgrade_packages]: a failed installation interrupts the
    transaction. *)
Fixpoint upgrade_packages (targs : list pkg) (h : handle) (ret : Z) : Z * handle * list op :=
  match targs with
  | [] => (ret, h, [])
  | p :: rest =>
      if decide (state_of h = STATE_INTERRUPTED) then (ret, h, [])
      else
        let '(r, h) := commit_single_pkg h p in
        let '(ret, h) := if r =? 0 then (ret, h) else (-1, set_errno (put_state h STATE_INTERRUPTED) ERR_TRANS_ABORT) in
        let '(ret, h, ops) := upgrade_packages rest h ret in
        (ret, h, Installed p :: ops)
  end.

(** [_klpm_sync_commit] *)
Definition sync_commit (h : handle) : Z * handle * list op :=
  let '(r, h1, ops1) := remove_packages (targets_remove h) h 0 in
  if r =? -1 then (-1, h1, ops1)
  else
    let '(r, h2, ops2) := upgrade_packages (targets_add h1) h1 0 in
    ((if r =? -1 then -1 else 0), h2, ops1 ++ ops2).

(** The second half of [klpm_trans_commit], once the pre-transaction hooks are
    through. *)
Definition do_commit (h : handle) : Z * handle * list op :=
  let h := put_state h STATE_COMMITTING in
  let '(r, h, ops) := match targets_add h with
                      | [] => remove_packages (targets_remove h) h 0
                      | _ => sync_commit h
                      end in
  if r =? -1 then (-1, h, ops)
  else
    let nohooks := match h_trans h with Some t => has (t_flags t) FLAG_NOHOOKS | None => false end in
    let h := if decide (state_of h = STATE_INTERRUPTED) then h
             else if nohooks then h else (hook_post h).2 in
    (0, put_state h STATE_COMMITTED, ops).

(** The first half: loading and checking the packages to install (or only
    downloading them) and the pre-transaction hooks; the return value, whether
    the function goes on, and the handle. *)
Definition preflight (flags : Z) (add : list pkg) (h : handle) : Z * bool * handle :=
  let '(r, h) := match add with [] => (0, h) | _ => sync_load h end in
  if negb (r =? 0) then (-1, false, h)
  else if match add with [] => false | _ => has flags FLAG_DOWNLOADONLY end then (0, false, h)
  else
    let '(r, h) := match add with [] => (0, h) | _ => sync_check h end in
    if negb (r =? 0) then (-1, false, h)
    else
      let '(r, h) := if has flags FLAG_NOHOOKS then (0, h) else hook_pre h in
      if negb (r =? 0) then (-1, false, set_errno h ERR_TRANS_HOOK_FAILED) else (0, true, h).

(** [klpm_trans_commit]: the return value, the handle and what was done. *)
Definition trans_commit (h : handle) : Z * handle * list op :=
  let h := check_handle h in
  match h_trans h with
  | None => (ret_err h ERR_TRANS_NULL, [])
  | Some t =>
      if negb (bool_decide (t_state t = STATE_PREPARED)) then (ret_err h ERR_TRANS_NOT_PREPARED, [])
      else if has (t_flags t) FLAG_NOLOCK then (ret_err h ERR_TRANS_NOT_LOCKED, [])
      else
        match t_add t, t_remove t with
        | [], [] => (0, h, [])
        | add, _ =>
            let '(r, go, h) := preflight (t_flags t) add h in
            if go : bool then do_commit h else (r, h, [])
        end
  end.
End Commit.

(** ** Preparation: the lists of the prepared transaction are safe *)

Lemma find_perm l l' n : l ≡ₚ l' -> is_Some (Package.pkg_find l n) <-> is_Some (Package.pkg_find l' n).
Proof. intros Hp. unfold Package.pkg_find. rewrite !find_first_is_Some. setoid_rewrite Hp. done. Qed.

(** The order of the lists of a transaction does not matter for what it leads
    to. *)
#[global] Instance untouched_proper : Proper (Permutation ==> Permutation ==> eq ==> Permutation) Deps.untouched.
Proof.
  intros rem rem' Hr u u' Hu l ? <-. unfold Deps.untouched. erewrite List.filter_ext; [reflexivity|]. intros p. f_equal. unfold Deps.is_modified.
  pose proof (find_perm rem rem' (name p) Hr) as H1. pose proof (find_perm u u' (name p) Hu) as H2.
  destruct (Package.pkg_find rem (name p)), (Package.pkg_find rem' (name p)),
    (Package.pkg_find u (name p)), (Package.pkg_find u' (name p)); try done; exfalso; unfold is_Some in *; naive_solver.
Qed.

#[global] Instance consistent_proper nv assumed : Proper (Permutation ==> iff) (Deps.consistent nv assumed).
Proof. intros l l' Hp. unfold Deps.consistent. by setoid_rewrite Hp. Qed.

Section PrepareLemmas.
Context {D : Type} `{!PkgCache D} (usage status : D -> Z) (fnmatch : cstr -> cstr -> Z).
Context (force_load : pkg -> bool) (new_addr : pkg -> positive).
Context (filecache_find : cstr -> option cstr) (stat_size : cstr -> option Z) (db_local : D) (dbs_sync : list D).
Context (Hload : forall p, force_load p = false) (Hnd : NoDup (name <$> pc_list db_local)).

(** The system the transaction leads to. *)
Definition outcome (t : trans) : list pkg := Deps.untouched (t_remove t) (t_add t) (pc_list db_local) ++ t_add t.
Definition nodepversion (t : trans) : bool := has (t_flags t) FLAG_NODEPVERSION.

Lemma sort_targets_run t :
  exists t', sort_targets db_local t = Some t' /\ t_flags t' = t_flags t /\
    t_add t' ≡ₚ t_add t /\ t_remove t' ≡ₚ t_remove t.
Proof.
  unfold sort_targets. destruct (has (t_flags t) FLAG_NODEPS); [by exists t|].
  destruct (SortDeps.sortbydeps_run (pc_list db_local) (t_add t) (t_remove t) false Hnd) as (add & -> & Ha).
  destruct (SortDeps.sortbydeps_run (pc_list db_local) (t_remove t) [] true Hnd) as (remove & -> & Hr).
  simpl. eexists. by split_and!.
Qed.

(** A transaction as [klpm_add_pkg] and [klpm_remove_pkg] build it, of packages
    with a file name. *)
Definition targets_ok (t : trans) : Prop :=
  ResolveDeps.distinct (t_add t) /\ Forall Sync.has_filename (t_add t) /\ Forall pkg_hashed (t_remove t).
Context (Hfiles : forall (db : D) p, db ∈ dbs_sync -> p ∈ pc_list db -> Sync.has_filename p).

Notation prepare := (trans_prepare usage status fnmatch force_load new_addr filecache_find stat_size db_local dbs_sync).

(** What either preparation leaves: a consistent outcome when the flags leave the
    checks on, or an error. *)
Definition attempt_ok (t : trans) (h : handle) (r : bool * trans * handle * tdata * list Z) : Prop :=
  let '(go, t', h', _, _) := r in
  t_flags t' = t_flags t /\ t_state t' = t_state t /\
  if go then Remove.keeps_deps (t_flags t) -> Deps.consistent (nodepversion t) (assumeinstalled h) (outcome t')
  else pm_errno h' <> ERR_OK.

Lemma attempt_run h t ans :
  targets_ok t -> Deps.consistent (nodepversion t) (assumeinstalled h) (pc_list db_local) ->
  exists r, match t_add t with
            | [] => r ← run_remove_prepare force_load new_addr db_local h t; Some (r, ans)
            | _ => run_sync_prepare usage status fnmatch force_load new_addr filecache_find stat_size db_local dbs_sync h t ans
            end = Some r /\ attempt_ok t h r.
Proof.
  intros (Hadd & Hfn & Hrem) Hc. destruct (t_add t) as [|p add] eqn:Ea.
  - unfold run_remove_prepare.
    destruct (Remove.remove_prepare_run force_load new_addr db_local (assumeinstalled h) (t_flags t) Hnd (t_remove t))
      as (r & -> & Hr); [done..|]. simpl. eexists. split; [reflexivity|]. unfold attempt_ok.
    split_and!; [done|done|]. destruct Hr as [[-> Hcon]|(-> & -> & _)]; simpl; [|done].
    intros Hk. unfold outcome. simpl. rewrite Ea, app_nil_r. exact (Hcon Hk).
  - unfold run_sync_prepare. set (s := Sync.SState _ _ _ _ _ _ _).
    destruct (Sync.sync_prepare_run usage status fnmatch force_load new_addr filecache_find stat_size (ignorepkg h) (ignoregroup h)
      (assumeinstalled h) db_local dbs_sync (t_flags t) Hload Hfiles s) as (go & s' & -> & Hs); [simpl; by rewrite Ea|simpl; by rewrite Ea|done..|].
    simpl. eexists. split; [reflexivity|]. unfold attempt_ok. split_and!; [done|done|]. destruct go; [|done].
    destruct Hs as (_ & Hcon & _). intros [Hn _]. exact (Hcon Hn).
Qed.

Lemma prepare_run h t ans :
  h_trans h = Some t -> t_state t = STATE_INITIALIZED -> targets_ok t ->
  Deps.consistent (nodepversion t) (assumeinstalled h) (pc_list db_local) ->
  exists ret h' data ans', prepare h ans = Some (ret, h', data, ans') /\
    ((ret = 0 /\ t_add t = [] /\ t_remove t = [] /\ h_trans h' = Some t) \/
     (ret = 0 /\ check_arch (architectures h) (t_add t) = [] /\
      exists t', h_trans h' = Some t' /\ t_state t' = STATE_PREPARED /\
        (Remove.keeps_deps (t_flags t) -> Deps.consistent (nodepversion t) (assumeinstalled h) (outcome t'))) \/
     (ret = -1 /\ pm_errno h' <> ERR_OK /\ state_of h' = STATE_INITIALIZED)).
Proof.
  intros Ht Hst Hok Hc. unfold trans_prepare. simpl. rewrite Ht, decide_True by done.
  assert (t_add t = [] /\ t_remove t = [] \/ ~ (t_add t = [] /\ t_remove t = [])) as [[Ea Er]|Hne].
  { destruct (t_add t), (t_remove t); naive_solver. }
  { rewrite Ea, Er. do 4 eexists. split; [done|]. left. split_and!; [done..|exact Ht]. }
  assert (forall A (x y : A), match t_add t, t_remove t with [], [] => x | _, _ => y end = y) as Hmatch.
  { intros A x y. destruct (t_add t), (t_remove t); try done. exfalso. by apply Hne. }
  rewrite Hmatch. destruct (check_arch (architectures h) (t_add t)) as [|a l] eqn:Earch.
  2: { do 4 eexists. split; [done|]. right; right. split_and!; [done..|]. unfold state_of. simpl. by rewrite Ht. }
  destruct (attempt_run (check_handle h) t ans Hok Hc) as ([[[[go t1] h1] data] ans1] & Er & Hr).
  rewrite Er. simpl. destruct Hr as (Efl & Est & Hr). destruct go; simpl.
  - destruct (sort_targets_run t1) as (t2 & -> & _ & Ha2 & Hr2).
    simpl. do 4 eexists. split; [done|]. right; left. split_and!; [done..|]. eexists. split_and!; [done..|].
    intros Hk. unfold outcome in *. simpl. rewrite Ha2, Hr2. exact (Hr Hk).
  - do 4 eexists. split; [done|]. right; right. split_and!; [done|done|]. unfold state_of. simpl. by rewrite Est.
Qed.
End PrepareLemmas.

(** ** The order of the commit *)

Section CommitLemmas.
Context (sync_load sync_check hook_pre hook_post : handle -> Z * handle).
Context (remove_single_package commit_single_pkg : handle -> pkg -> Z * handle).

Lemma remove_packages_prefix targs h ret :
  exists done_ left_, (remove_packages remove_single_package targs h ret).2 = Removed <$> done_ /\ targs = done_ ++ left_ /\
    (left_ = [] \/ state_of (remove_packages remove_single_package targs h ret).1.2 = STATE_INTERRUPTED).
Proof.
  revert h ret. induction targs as [|p targs IH]; intros h ret; cbn [remove_packages]; [by exists [], []; auto|].
  case_decide as Es; [exists [], (p :: targs); auto|]. destruct (remove_single_package h p) as [r h1].
  destruct (if r =? -1 then _ else _) as [ret1 h2]. specialize (IH h2 ret1).
  destruct (remove_packages remove_single_package targs h2 ret1) as [[ret3 h3] ops].
  destruct IH as (d & l & E & -> & Hor). exists (p :: d), l. simpl in *. by rewrite E.
Qed.

Lemma upgrade_packages_prefix targs h ret :
  exists done_ left_, (upgrade_packages commit_single_pkg targs h ret).2 = Installed <$> done_ /\ targs = done_ ++ left_ /\
    (left_ = [] \/ state_of (upgrade_packages commit_single_pkg targs h ret).1.2 = STATE_INTERRUPTED).
Proof.
  revert h ret. induction targs as [|p targs IH]; intros h ret; cbn [upgrade_packages]; [by exists [], []; auto|].
  case_decide as Es; [exists [], (p :: targs); auto|]. destruct (commit_single_pkg h p) as [r h1].
  destruct (if r =? 0 then _ else _) as [ret1 h2]. specialize (IH h2 ret1).
  destruct (upgrade_packages commit_single_pkg targs h2 ret1) as [[ret3 h3] ops].
  destruct IH as (d & l & E & -> & Hor). exists (p :: d), l. simpl in *. by rewrite E.
Qed.

Lemma upgrade_interrupted targs h ret :
  state_of h = STATE_INTERRUPTED -> (upgrade_packages commit_single_pkg targs h ret).2 = [].
Proof. intros E. destruct targs; [done|]. cbn [upgrade_packages]. by rewrite decide_True. Qed.

(** Removing one package does not touch the list of packages to install. *)
Hypothesis remove_keeps_targets : forall h p, targets_add (remove_single_package h p).2 = targets_add h.

Lemma remove_packages_targets targs h ret :
  targets_add (remove_packages remove_single_package targs h ret).1.2 = targets_add h.
Proof.
  revert h ret. induction targs as [|p targs IH]; intros h ret; cbn [remove_packages]; [done|]. case_decide; [done|].
  pose proof (remove_keeps_targets h p) as Hk. destruct (remove_single_package h p) as [r h1]. simpl in Hk.
  assert (forall ret1 h2, targets_add h2 = targets_add h1 ->
    targets_add (let '(ret, h, ops) := remove_packages remove_single_package targs h2 ret1 in (ret, h, Removed p :: ops)).1.2
      = targets_add h) as Hgo.
  { intros ret1 h2 E. specialize (IH h2 ret1). destruct (remove_packages _ _ _ _) as [[? ?] ?]. simpl in *. congruence. }
  destruct (r =? -1); by apply Hgo.
Qed.

(** The plan of a transaction: first everything that is to be removed, then
    everything that is to be installed. *)
Definition plan (h : handle) : list op := (Removed <$> targets_remove h) ++ (Installed <$> targets_add h).

Lemma prefix_done {A B} (f : A -> B) d l (l' : list B) : (f <$> d) `prefix_of` (f <$> (d ++ l)) ++ l'.
Proof. exists ((f <$> l) ++ l'). by rewrite fmap_app, app_assoc. Qed.

Lemma sync_commit_prefix h : (sync_commit remove_single_package commit_single_pkg h).2 `prefix_of` plan h.
Proof.
  unfold sync_commit, plan. pose proof (remove_packages_prefix (targets_remove h) h 0) as (d & l & E & El & Hor).
  pose proof (remove_packages_targets (targets_remove h) h 0) as Et.
  destruct (remove_packages _ _ _ _) as [[r h1] ops1]. simpl in *. rewrite El. subst ops1.
  destruct (r =? -1); [apply prefix_done|].
  pose proof (upgrade_packages_prefix (targets_add h1) h1 0) as (d' & l' & E' & El' & _).
  destruct (decide (l = [])) as [->|Hl].
  - destruct (upgrade_packages _ _ _ _) as [[r2 h2] ops2]. simpl in *. subst ops2. rewrite app_nil_r, <- Et, El'.
    apply prefix_app. pose proof (prefix_done Installed d' l' []) as Hp. by rewrite app_nil_r in Hp.
  - destruct Hor as [?|Hi]; [done|]. pose proof (upgrade_interrupted (targets_add h1) h1 0 Hi) as Eu.
    destruct (upgrade_packages _ _ _ _) as [[r2 h2] ops2]. simpl in *. subst ops2. rewrite Eu, app_nil_r. apply prefix_done.
Qed.

Lemma put_state_targets h s : targets_add (put_state h s) = targets_add h /\ targets_remove (put_state h s) = targets_remove h.
Proof. unfold put_state, targets_add, targets_remove. simpl. by destruct (h_trans h). Qed.

Lemma put_state_state h s : is_Some (h_trans h) -> state_of (put_state h s) = s.
Proof. intros [t E]. unfold put_state, state_of. simpl. by rewrite E. Qed.

Lemma do_commit_prefix h : (do_commit hook_post remove_single_package commit_single_pkg h).2 `prefix_of` plan h.
Proof.
  unfold do_commit. destruct (put_state_targets h STATE_COMMITTING) as [Ea Er].
  set (h0 := put_state h STATE_COMMITTING) in *.
  assert (plan h = plan h0) as -> by (unfold plan; by rewrite Ea, Er).
  assert ((match targets_add h0 with [] => remove_packages remove_single_package (targets_remove h0) h0 0
           | _ => sync_commit remove_single_package commit_single_pkg h0 end).2 `prefix_of` plan h0) as Hp.
  { pose proof (sync_commit_prefix h0) as Hs. unfold plan in *. destruct (targets_add h0); [|done]. simpl. rewrite app_nil_r.
    destruct (remove_packages_prefix (targets_remove h0) h0 0) as (d & l & -> & E & _). rewrite E.
    pose proof (prefix_done Removed d l []) as Hpd. by rewrite app_nil_r in Hpd. }
  destruct (match targets_add h0 with [] => _ | _ => _ end) as [[r h1] ops]. simpl in Hp. by destruct (r =? -1).
Qed.

(** *** Without failures and interrupts the whole plan is carried out *)

Definition uneventful (f : handle -> pkg -> Z * handle) : Prop :=
  forall h p, (f h p).1 = 0 /\ state_of (f h p).2 = state_of h.

Lemma remove_packages_all targs h :
  uneventful remove_single_package -> state_of h <> STATE_INTERRUPTED ->
  exists h', remove_packages remove_single_package targs h 0 = (0, h', Removed <$> targs) /\ state_of h' = state_of h.
Proof.
  intros Hu. revert h. induction targs as [|p targs IH]; intros h Hs; cbn [remove_packages]; [eauto|].
  rewrite decide_False by done. destruct (Hu h p) as [Hr Hst]. destruct (remove_single_package h p) as [r h1]. simpl in *. subst r.
  simpl. destruct (IH h1) as (h' & -> & E); [congruence|]. exists h'. split; [done|congruence].
Qed.

Lemma upgrade_packages_all targs h :
  uneventful commit_single_pkg -> state_of h <> STATE_INTERRUPTED ->
  exists h', upgrade_packages commit_single_pkg targs h 0 = (0, h', Installed <$> targs) /\ state_of h' = state_of h.
Proof.
  intros Hu. revert h. induction targs as [|p targs IH]; intros h Hs; cbn [upgrade_packages]; [eauto|].
  rewrite decide_False by done. destruct (Hu h p) as [Hr Hst]. destruct (commit_single_pkg h p) as [r h1]. simpl in *. subst r.
  simpl. destruct (IH h1) as (h' & -> & E); [congruence|]. exists h'. split; [done|congruence].
Qed.

Lemma do_commit_all h :
  uneventful remove_single_package -> uneventful commit_single_pkg -> is_Some (h_trans h) ->
  exists h', do_commit hook_post remove_single_package commit_single_pkg h = (0, h', plan h).
Proof.
  intros Hr Hc Ht. unfold do_commit, plan. destruct (put_state_targets h STATE_COMMITTING) as [Ea Er].
  assert (state_of (put_state h STATE_COMMITTING) <> STATE_INTERRUPTED) as Hs by (by rewrite put_state_state).
  set (h0 := put_state h STATE_COMMITTING) in *. rewrite <- Ea, <- Er.
  destruct (remove_packages_all (targets_remove h0) h0 Hr Hs) as (h1 & E1 & Hs1).
  assert (exists h2, match targets_add h0 with [] => remove_packages remove_single_package (targets_remove h0) h0 0
           | _ => sync_commit remove_single_package commit_single_pkg h0 end
    = (0, h2, (Removed <$> targets_remove h0) ++ (Installed <$> targets_add h0))) as (h2 & ->).
  { destruct (targets_add h0) as [|p add] eqn:Eadd; [exists h1; by rewrite E1, app_nil_r|].
    unfold sync_commit. pose proof (remove_packages_targets (targets_remove h0) h0 0) as Et. rewrite E1 in Et |- *. simpl in *.
    destruct (upgrade_packages_all (targets_add h1) h1 Hc) as (h2 & E2 & _); [congruence|].
    rewrite E2. simpl. exists h2. by rewrite Et, Eadd. }
  simpl. eauto.
Qed.

(** What is done to which package. *)
Definition label (o : op) : bool * cstr := match o with Removed p => (false, name p) | Installed p => (true, name p) end.

(** Loading replaces the targets by the packages read from their files, of the
    same names. *)
Definition keeps_names (f : handle -> Z * handle) : Prop :=
  forall h, name <$> targets_add (f h).2 = name <$> targets_add h /\ name <$> targets_remove (f h).2 = name <$> targets_remove h.

Lemma label_plan h : label <$> plan h = ((fun n => (false, n)) <$> (name <$> targets_remove h)) ++ ((fun n => (true, n)) <$> (name <$> targets_add h)).
Proof. unfold plan. by rewrite fmap_app, <- !list_fmap_compose. Qed.

Lemma keeps_names_plan f h : keeps_names f -> label <$> plan (f h).2 = label <$> plan h.
Proof. intros Hf. destruct (Hf h) as [Ha Hr]. by rewrite !label_plan, Ha, Hr. Qed.

Context (Hl : keeps_names sync_load) (Hk : keeps_names sync_check) (Hh : keeps_names hook_pre).
Notation commit := (trans_commit sync_load sync_check hook_pre hook_post remove_single_package commit_single_pkg).

Lemma preflight_names flags add h :
  label <$> plan (preflight sync_load sync_check hook_pre flags add h).2 = label <$> plan h.
Proof.
  unfold preflight.
  assert (forall f h0, keeps_names f -> label <$> plan h0 = label <$> plan h -> label <$> plan (f h0).2 = label <$> plan h) as Hstep
    by (intros f h0 Hf E; by rewrite keeps_names_plan).
  assert (label <$> plan (match add with [] => (0, h) | _ => sync_load h end).2 = label <$> plan h) as E1
    by (destruct add; [done|by apply Hstep]).
  destruct (match add with [] => (0, h) | _ => sync_load h end) as [r1 h1]. simpl in E1.
  destruct (negb (r1 =? 0)); [done|]. destruct (match add with [] => false | _ => _ end); [done|].
  assert (label <$> plan (match add with [] => (0, h1) | _ => sync_check h1 end).2 = label <$> plan h) as E2
    by (destruct add; [done|by apply Hstep]).
  destruct (match add with [] => (0, h1) | _ => sync_check h1 end) as [r2 h2]. simpl in E2.
  destruct (negb (r2 =? 0)); [done|].
  assert (label <$> plan (if has flags FLAG_NOHOOKS then (0, h2) else hook_pre h2).2 = label <$> plan h) as E3
    by (destruct (has flags FLAG_NOHOOKS); [done|by apply Hstep]).
  destruct (if has flags FLAG_NOHOOKS then _ else _) as [r3 h3]. by destruct (negb (r3 =? 0)).
Qed.

(** A commit that starts: the guards are passed and there is something to do. *)
Lemma trans_commit_cases h :
  (commit h).2 = [] \/
  exists t, h_trans h = Some t /\ t_state t = STATE_PREPARED /\ has (t_flags t) FLAG_NOLOCK = false /\
    commit h = let '(r, go, h1) := preflight sync_load sync_check hook_pre (t_flags t) (t_add t) (check_handle h) in
               if go : bool then do_commit hook_post remove_single_package commit_single_pkg h1 else (r, h1, []).
Proof.
  unfold trans_commit. simpl. destruct (h_trans h) as [t|]; [|by left].
  destruct (bool_decide_reflect (t_state t = STATE_PREPARED)) as [Hp|]; simpl; [|by left].
  destruct (has (t_flags t) FLAG_NOLOCK) eqn:El; [by left|].
  destruct (t_add t) as [|a add] eqn:Ea; [destruct (t_remove t) as [|r rem]; [by left|]|]; right; exists t; by rewrite Ea.
Qed.

Lemma trans_commit_prefix h : label <$> (commit h).2 `prefix_of` label <$> plan h.
Proof.
  destruct (trans_commit_cases h) as [->|(t & _ & _ & _ & ->)]; [apply prefix_nil|].
  pose proof (preflight_names (t_flags t) (t_add t) (check_handle h)) as E. change (plan (check_handle h)) with (plan h) in E.
  destruct (preflight _ _ _ _ _ _) as [[r go] h1]. simpl in E. destruct go; [|apply prefix_nil]. rewrite <- E.
  destruct (do_commit_prefix h1) as [k Ek]. exists (label <$> k). by rewrite Ek, fmap_app.
Qed.

Definition succeeds (f : handle -> Z * handle) : Prop := forall h, (f h).1 = 0.

Lemma preflight_go flags add h :
  succeeds sync_load -> succeeds sync_check -> succeeds hook_pre -> has flags FLAG_DOWNLOADONLY = false ->
  (preflight sync_load sync_check hook_pre flags add h).1 = (0, true).
Proof.
  intros H1 H2 H3 Hd. unfold preflight.
  assert ((match add with [] => (0, h) | _ => sync_load h end).1 = 0) as E1 by (destruct add; [done|apply H1]).
  destruct (match add with [] => (0, h) | _ => sync_load h end) as [r1 h1]. simpl in E1. subst r1. simpl.
  assert (match add with [] => false | _ => has flags FLAG_DOWNLOADONLY end = false) as -> by by destruct add.
  assert ((match add with [] => (0, h1) | _ => sync_check h1 end).1 = 0) as E2 by (destruct add; [done|apply H2]).
  destruct (match add with [] => (0, h1) | _ => sync_check h1 end) as [r2 h2]. simpl in E2. subst r2. simpl.
  assert ((if has flags FLAG_NOHOOKS then (0, h2) else hook_pre h2).1 = 0) as E3 by (destruct (has flags FLAG_NOHOOKS); [done|apply H3]).
  destruct (if has flags FLAG_NOHOOKS then _ else _) as [r3 h3]. simpl in E3. by subst r3.
Qed.

Lemma plan_trans h : plan h <> [] -> is_Some (h_trans h).
Proof. unfold plan, targets_add, targets_remove. by destruct (h_trans h). Qed.

Lemma trans_commit_all h t :
  h_trans h = Some t -> t_state t = STATE_PREPARED -> has (t_flags t) FLAG_NOLOCK = false ->
  has (t_flags t) FLAG_DOWNLOADONLY = false ->
  succeeds sync_load -> succeeds sync_check -> succeeds hook_pre ->
  uneventful remove_single_package -> uneventful commit_single_pkg ->
  (commit h).1.1 = 0 /\ label <$> (commit h).2 = label <$> plan h.
Proof.
  intros Ht Hst Hnl Hd H1 H2 H3 Hr Hc.
  assert (plan h = (Removed <$> t_remove t) ++ (Installed <$> t_add t)) as Hplan by (unfold plan, targets_add, targets_remove; by rewrite Ht).
  destruct (decide (plan h = [])) as [E|Hne].
  { rewrite E. rewrite Hplan in E. apply app_eq_nil in E as [Er%fmap_nil_inv Ea%fmap_nil_inv].
    unfold trans_commit. simpl. rewrite Ht, bool_decide_true, Hnl, Ea, Er by done. done. }
  assert (commit h = let '(r, go, h1) := preflight sync_load sync_check hook_pre (t_flags t) (t_add t) (check_handle h) in
    if go : bool then do_commit hook_post remove_single_package commit_single_pkg h1 else (r, h1, [])) as ->.
  { unfold trans_commit. simpl. rewrite Ht, bool_decide_true, Hnl by done. simpl.
    destruct (t_add t) as [|a add]; [|done]. destruct (t_remove t); [|done]. by rewrite Hplan in Hne. }
  pose proof (preflight_names (t_flags t) (t_add t) (check_handle h)) as E. change (plan (check_handle h)) with (plan h) in E.
  pose proof (preflight_go (t_flags t) (t_add t) (check_handle h) H1 H2 H3 Hd) as Eg.
  destruct (preflight _ _ _ _ _ _) as [[r go] h1]. simpl in E, Eg. injection Eg as -> ->.
  assert (is_Some (h_trans h1)) as Hs.
  { apply plan_trans. intros E1. rewrite E1 in E. apply eq_sym, fmap_nil_inv in E. done. }
  destruct (do_commit_all h1 Hr Hc Hs) as (h' & ->). done.
Qed.
End CommitLemmas.

(** C5: preparing an initialised transaction on a consistent system ends in one
    of three ways, when the metadata of every package can be loaded and every target
    and every package of a repository has a file name.  With nothing to do it
    returns 0 and leaves the transaction alone.  When it succeeds, the packages
    chosen by the caller (not the dependencies pulled in later) have an allowed
    architecture, the transaction is prepared, and the system it leads to is
    consistent, unless NODEPS is set or cascading and recursion are asked for
    together with NODEPVERSION.  When it fails it returns -1 with an error set, and
    the transaction is still only initialised. *)
Theorem trans_prepare_spec {D} `{!PkgCache D} usage status fnmatch force_load new_addr filecache_find stat_size
    (db_local : D) dbs_sync h t ans
    (Hload : forall p, force_load p = false) (Hnd : NoDup (name <$> pc_list db_local))
    (Ht : h_trans h = Some t) (Hst : t_state t = STATE_INITIALIZED) (Hok : targets_ok t)
    (Hfiles : forall (db : D) p, db ∈ dbs_sync -> p ∈ pc_list db -> Sync.has_filename p)
    (Hc : Deps.consistent (nodepversion t) (assumeinstalled h) (pc_list db_local)) :
  exists ret h' data ans', trans_prepare usage status fnmatch force_load new_addr filecache_find stat_size
      db_local dbs_sync h ans = Some (ret, h', data, ans') /\
    ((ret = 0 /\ t_add t = [] /\ t_remove t = [] /\ h_trans h' = Some t) \/
     (ret = 0 /\ check_arch (architectures h) (t_add t) = [] /\
      exists t', h_trans h' = Some t' /\ t_state t' = STATE_PREPARED /\
        (Remove.keeps_deps (t_flags t) -> Deps.consistent (nodepversion t) (assumeinstalled h) (outcome db_local t'))) \/
     (ret = -1 /\ pm_errno h' <> ERR_OK /\ state_of h' = STATE_INITIALIZED)).
Proof. by apply prepare_run. Qed.

(** A commit works through the plan of the transaction in order, first the
    removals and then the installations, and what it has done when it stops is
    always a beginning of that plan; when nothing fails or interrupts it, it
    returns 0 and has carried out the whole plan. *)
Theorem commit_order sync_load sync_check hook_pre hook_post remove_single_package commit_single_pkg h
    (Hkeep : forall h p, targets_add (remove_single_package h p).2 = targets_add h)
    (Hl : keeps_names sync_load) (Hk : keeps_names sync_check) (Hh : keeps_names hook_pre) :
  let r := trans_commit sync_load sync_check hook_pre hook_post remove_single_package commit_single_pkg h in
  label <$> r.2 `prefix_of` label <$> plan h /\
  (forall t, h_trans h = Some t -> t_state t = STATE_PREPARED -> has (t_flags t) FLAG_NOLOCK = false ->
     has (t_flags t) FLAG_DOWNLOADONLY = false ->
     succeeds sync_load -> succeeds sync_check -> succeeds hook_pre ->
     uneventful remove_single_package -> uneventful commit_single_pkg ->
     r.1.1 = 0 /\ label <$> r.2 = label <$> plan h).
Proof.
  intros r. unfold r. split; [by apply trans_commit_prefix|]. intros t Ht Hst Hnl Hd H1 H2 H3 Hr Hc.
  by eapply trans_commit_all.
Qed.

(** A removal of [a] from the system with [a] and [b]. *)
Definition ex_local : pkglist := PkgList [Deps.ex_a; Deps.ex_b] ltac:(by_decide).
Definition ex_remove (state : transstate) : trans := MkTrans 0 state [] [] [Deps.ex_a] [].
Definition ex_handle (lock : bool) (t : option trans) : handle :=
  MkHandle t (Some (lit "/db.lck")) lock ERR_OK ∅ [] [] [] [].
Definition ex_ok (h : handle) : Z * handle := (0, h).

Lemma trans_prepare_witness :
  exists ret h' data ans', trans_prepare (fun _ => 15) (fun _ => 1) (fun _ _ => 1) (fun _ => false) pkg_id (fun _ => None)
      (fun _ => None) ex_local [] (ex_handle true (Some (ex_remove STATE_INITIALIZED))) [] = Some (ret, h', data, ans') /\
    state_of h' = STATE_PREPARED.
Proof.
  destruct (trans_prepare_spec (fun _ => 15) (fun _ => 1) (fun _ _ => 1) (fun _ => false) pkg_id (fun _ => None)
    (fun _ => None) ex_local [] (ex_handle true (Some (ex_remove STATE_INITIALIZED))) (ex_remove STATE_INITIALIZED) [])
    as (ret & h' & data & ans' & E & Hor);
    [done|by_decide|reflexivity|reflexivity|split_and!; by_decide|by intros db p []%not_elem_of_nil|exact Deps.ex_consistent|].
  exists ret, h', data, ans'. split; [exact E|].
  destruct Hor as [(_ & _ & [=] & _)|[(_ & _ & t' & Et & Hst & _)|(Er & _)]].
  - unfold state_of. by rewrite Et.
  - vm_compute in E. injection E as E _ _ _. rewrite <- E in Er. discriminate Er.
Defined.

Lemma commit_order_witness :
  label <$> (trans_commit ex_ok ex_ok ex_ok ex_ok (fun h _ => ex_ok h) (fun h _ => ex_ok h)
    (ex_handle true (Some (ex_remove STATE_PREPARED)))).2 = [(false, lit "a")].
Proof.
  destruct (commit_order ex_ok ex_ok ex_ok ex_ok (fun h _ => ex_ok h) (fun h _ => ex_ok h)
    (ex_handle true (Some (ex_remove STATE_PREPARED)))) as [_ H]; [reflexivity|intros h; split; reflexivity..|].
  apply (H (ex_remove STATE_PREPARED)); try reflexivity; intros h; try reflexivity. all: intros p; split; reflexivity.
Defined.

End Trans.
