(* ===== verification/Util.v ===== *)
(** * Strings, numbers and names
    ([src/src/common/util-common.c], parts of [src/lib/libkuzpkg/util.c])

    Base and directory names, trimming, hexadecimal, splitting of command lines
    into words, conversion of decimal numbers at their machine width, and the
    splitting of "name-version-release".  Allocations succeed. *)

From S2P Require Import Prelude CStr Version.
Local Open Scope Z_scope.

Module Util.

(** ** util-common.c *)

(** [hex_digits[b >> 4]] and [hex_digits[b & 0x0f]] *)
Definition hex_digit (n : Z) : ascii := default "0"%char (lit "0123456789abcdef" !! Z.to_nat n).
Definition hex_representation (bytes : list ascii) : cstr :=
  bytes ≫= fun b => [hex_digit (Z.shiftr (uchar b) 4); hex_digit (Z.land (uchar b) 15)].

(** [strrchr s c]: what is before and after the last [c]. *)
Fixpoint strrchr (s : cstr) (c : ascii) : option (cstr * cstr) :=
  match s with
  | [] => None
  | x :: s' =>
      match strrchr s' c with
      | Some (a, b) => Some (x :: a, b)
      | None => if decide (x = c) then Some ([], s') else None
      end
  end.

Definition mbasename (path : cstr) : cstr :=
  match strrchr path "/"%char with Some (_, b) => b | None => path end.

Definition mdirname (path : option cstr) : cstr :=
  match path with
  | None | Some [] => lit "."
  | Some path =>
      match strrchr path "/"%char with
      | Some ([], _) => lit "/"
      | Some (a, _) => a
      | None => lit "."
      end
  end.

(** [while(isspace( *end )) end--], as the number of characters kept. *)
Fixpoint trim_length (s : cstr) (len : nat) : nat :=
  match len with
  | O => O
  | S len' => match s !! len' with
              | Some c => if isspace c then trim_length s len' else len
              | None => len
              end
  end.
(** [strtrim]: the string afterwards and the length returned. *)
Definition strtrim (str : cstr) : cstr * nat :=
  match str with
  | [] => ([], 0%nat)
  | _ =>
      match (span isspace str).2 with
      | [] => ([], 0%nat)
      | pch => let n := trim_length pch (length pch) in (take n pch, n)
      end
  end.

(** *** wordsplit *)

Definition is_quote (c : ascii) : bool := bool_decide (c = ascii_of_nat 39) || bool_decide (c = ascii_of_nat 34).
Definition backslash : ascii := "\"%char.
(** A backslash that the next character [b] makes an escape. *)
Definition escapes (b : ascii -> bool) (c : ascii) (s : cstr) : bool :=
  bool_decide (c = backslash) && match s with d :: _ => b d | [] => false end.

(** The length pass inside quotes: the characters counted and what follows the
    closing quote; [None] for an unbalanced quote. *)
Fixpoint scan_quoted (quote : ascii) (s : cstr) : option (nat * cstr) :=
  match s with
  | [] => None
  | c :: s' =>
      if decide (c = quote) then Some (0%nat, s')
      else if escapes (fun d => bool_decide (d = quote)) c s' then
        match s' with
        | _ :: s'' => '(n, e) ← scan_quoted quote s''; Some (S n, e)
        | [] => None
        end
      else '(n, e) ← scan_quoted quote s'; Some (S n, e)
  end.
(** The length pass over one word. *)
Fixpoint scan_word (fuel : nat) (s : cstr) : option (nat * cstr) :=
  match fuel, s with
  | _, [] => Some (0%nat, [])
  | O, _ => None
  | S fuel, c :: s' =>
      if isspace c then Some (0%nat, s)
      else if is_quote c then
        '(n, r) ← scan_quoted c s';
        '(m, e) ← scan_word fuel r;
        Some ((n + m)%nat, e)
      else
        let s' := if escapes is_quote c s' then tail s' else s' in
        '(m, e) ← scan_word fuel s';
        Some (S m, e)
  end.

(** The copying pass: what is written, and the pointer afterwards; [None] for
    running past the end of the string. *)
Fixpoint copy_quoted (quote : ascii) (s : cstr) : option (cstr * cstr) :=
  match s with
  | [] => None
  | c :: s' =>
      if decide (c = quote) then Some ([], s')
      else if escapes (fun d => bool_decide (d = quote)) c s' then
        match s' with
        | d :: s'' => '(w, r) ← copy_quoted quote s''; Some (d :: w, r)
        | [] => None
        end
      else '(w, r) ← copy_quoted quote s'; Some (c :: w, r)
  end.
(** [while(c < stop)]; pointers into one string compare as the lengths of the
    rests. *)
Fixpoint copy_word (fuel : nat) (s stop : cstr) : option (cstr * cstr) :=
  if (length s <=? length stop)%nat then Some ([], s)
  else
    match fuel, s with
    | S fuel, c :: s' =>
        if is_quote c then
          '(w, r) ← copy_quoted c s';
          '(w', e) ← copy_word fuel r stop;
          Some (w ++ w', e)
        else
          let '(d, s') := if escapes is_quote c s' then (default c (head s'), tail s') else (c, s') in
          '(w, e) ← copy_word fuel s' stop;
          Some (d :: w, e)
    | _, _ => None
    end.

(** One round of the outer loop, at the start of a word: the word and the
    pointer to its end; [inl] for an unbalanced quote, [None] when memory is
    accessed out of bounds. *)
Definition split_one (c : cstr) : option (unit + cstr * cstr) :=
  match scan_word (length c) c with
  | None => Some (inl ())
  | Some (wordlen, stop) =>
      if decide (wordlen = length c - length stop)%nat then Some (inr (take wordlen c, stop))
      else
        '(dest, _) ← copy_word (length c) c stop;
        if decide (length dest = wordlen) then Some (inr (dest, stop)) else None
  end.
Fixpoint wordsplit_loop (fuel : nat) (c : cstr) : option (option (list cstr)) :=
  match c with
  | [] => Some (Some [])
  | _ =>
      match fuel with
      | O => None
      | S fuel =>
          r ← split_one c;
          match r with
          | inl _ => Some None
          | inr (word, []) => Some (Some [word])
          | inr (word, _ :: stop) =>
              ws ← wordsplit_loop fuel (span isspace stop).2;
              Some (option_map (cons word) ws)
          end
      end
  end.
Definition wordsplit (str : cstr) : option (option (list cstr)) :=
  let c := (span isspace str).2 in wordsplit_loop (length c) c.

(** ** Numbers (util.c, <stdio.h>, <stdlib.h>) *)

(** ["%lu"] and ["%jd"]: twenty digits are enough for 64 bits. *)
Definition digit_char (d : Z) : ascii := ascii_of_nat (Z.to_nat (48 + d)).
Fixpoint print_loop (fuel : nat) (n : Z) (acc : cstr) : cstr :=
  match fuel with
  | O => acc
  | S fuel =>
      let acc := digit_char (n mod 10) :: acc in
      if n / 10 =? 0 then acc else print_loop fuel (n / 10) acc
  end.
Definition print_u (n : Z) : cstr := print_loop 20 n [].
Definition print_d (n : Z) : cstr := if n <? 0 then "-"%char :: print_u (- n) else print_u n.

Definition ULLONG_MAX : Z := 2 ^ 64 - 1.
Definition LLONG_MAX : Z := 2 ^ 63 - 1.
Definition LLONG_MIN : Z := - 2 ^ 63.
(** Conversion to a signed 64-bit type. *)
Definition s64 (z : Z) : Z := if z mod 2 ^ 64 <? 2 ^ 63 then z mod 2 ^ 64 else z mod 2 ^ 64 - 2 ^ 64.

(** The sign and the digits [strtoll] reads, and the rest; [None] when there
    are no digits. *)
Definition strto_digits (s : cstr) : option (bool * cstr * cstr) :=
  let s := (span isspace s).2 in
  let '(neg, s) := match s with
                   | c :: s' => if decide (c = "-"%char) then (true, s')
                                else if decide (c = "+"%char) then (false, s') else (false, s)
                   | [] => (false, s)
                   end in
  match span isdigit s with
  | ([], _) => None
  | (ds, rest) => Some (neg, ds, rest)
  end.
(** [strtoull] and [strtoll] in base 10: the value, [*end] and whether [errno]
    is ERANGE; without digits [end] is the start of the string. *)
Definition strtoull (s : cstr) : Z * cstr * bool :=
  match strto_digits s with
  | None => (0, s, false)
  | Some (neg, ds, rest) =>
      let v := Version.decval ds in
      if ULLONG_MAX <? v then (ULLONG_MAX, rest, true) else (if neg then u64 (- v) else v, rest, false)
  end.
Definition strtoll (s : cstr) : Z * cstr * bool :=
  match strto_digits s with
  | None => (0, s, false)
  | Some (neg, ds, rest) =>
      let v := if neg then - Version.decval ds else Version.decval ds in
      if LLONG_MAX <? v then (LLONG_MAX, rest, true)
      else if v <? LLONG_MIN then (LLONG_MIN, rest, true) else (v, rest, false)
  end.

Definition strtoofft (line : cstr) : Z :=
  match line with
  | c :: _ =>
      if negb (isdigit c) then -1
      else
        let '(result, stop, erange) := strtoull line in
        if (result =? 0) && bool_decide (stop = line) then -1
        else if (result =? ULLONG_MAX) && erange then -1
        else match stop with [] => s64 result | _ => -1 end
  | [] => -1
  end.

Definition parsedate (line : cstr) : Z :=
  let '(result, stop, erange) := strtoll line in
  if (result =? 0) && bool_decide (stop = line) then 0
  else if erange then 0
  else match stop with [] => result | _ => 0 end.

(** ** _klpm_splitname *)

(** The characters before the first [c], or all. *)
Definition before (c : ascii) (s : cstr) : cstr :=
  match strchr s c with Some r => take (length s - length r) s | None => s end.

(** [None] when a search runs past the start of the string, [Some None] for the
    result -1, otherwise the name, the version and the hash of the name. *)
Definition splitname (target : cstr) : option (option (cstr * cstr * Z)) :=
  let target := before "/"%char target in
  '(front, release) ← strrchr target "-"%char;
  '(n, ver) ← strrchr front "-"%char;
  match n with
  | [] => Some None
  | _ => Some (Some (n, ver ++ "-"%char :: release, hash_sdbm n))
  end.

(** ** Names and paths *)

Lemma strrchr_None s c : strrchr s c = None <-> c ∉ s.
Proof.
  induction s as [|x s IH]; cbn [strrchr]; [split; [intros _; apply not_elem_of_nil|done]|].
  rewrite not_elem_of_cons. destruct (strrchr s c) as [[a b]|].
  - split; [done|]. intros [_ H]. by apply IH in H.
  - case_decide as Hx; [split; [done|by intros [? _]; subst]|]. split; [|done]. intros _. split; [done|by apply IH].
Qed.
Lemma strrchr_Some s c a b : strrchr s c = Some (a, b) <-> s = a ++ c :: b /\ c ∉ b.
Proof.
  split.
  - revert a. induction s as [|x s IH]; intros a; cbn [strrchr]; [done|].
    destruct (strrchr s c) as [[a' b']|] eqn:E.
    + intros [= <- <-]. destruct (IH a') as [-> Hb]; done.
    + apply strrchr_None in E. case_decide; [|done]. intros [= <- <-]. by subst.
  - intros [-> Hb]. apply strrchr_None in Hb. induction a as [|x a IH]; cbn [app strrchr]; [|by rewrite IH].
    by rewrite Hb, decide_True.
Qed.

(** A path is its directory, a slash and its base name; without a slash it is
    its base name in the current directory. *)
Lemma mdirname_mbasename path :
  "/"%char ∉ mbasename path /\
  (path = mdirname (Some path) ++ "/"%char :: mbasename path \/
   path = lit "/" ++ mbasename path /\ mdirname (Some path) = lit "/" \/
   path = mbasename path /\ mdirname (Some path) = lit ".").
Proof.
  unfold mbasename, mdirname. destruct (strrchr path "/"%char) as [[a b]|] eqn:E.
  - apply strrchr_Some in E as [-> Hb]. split; [done|]. destruct a as [|x a]; [right; by left|by left].
  - apply strrchr_None in E. split; [done|]. right; right. split; [done|]. by destruct path.
Qed.

Lemma trim_length_spec s n :
  (n <= length s)%nat ->
  exists k, take n s = take (trim_length s n) s ++ k /\ Forall (fun c => isspace c = true) k /\
    (forall c, last (take (trim_length s n) s) = Some c -> isspace c = false) /\ (trim_length s n <= n)%nat.
Proof.
  induction n as [|n IH]; intros Hn; cbn [trim_length]; [by exists []|].
  destruct (lookup_lt_is_Some_2 s n) as [c Hc]; [lia|]. rewrite Hc. destruct (isspace c) eqn:E.
  - destruct IH as (k & Ek & Hk & Hl & Hle); [lia|]. exists (k ++ [c]). rewrite (take_S_r _ _ _ Hc), Ek, <- app_assoc.
    split_and!; [done| |done|lia]. apply Forall_app. by repeat constructor.
  - exists []. rewrite app_nil_r. split_and!; [done|constructor| |lia]. intros d. rewrite (take_S_r _ _ _ Hc), last_snoc. congruence.
Qed.

#[local] Arguments trim_length : simpl never.

(** [strtrim] removes exactly the white space at both ends: the string is
    spaces, the result and spaces, the result neither starts nor ends with one,
    and the length returned is its length. *)
Theorem strtrim_spec str :
  let '(r, n) := strtrim str in
  (exists a b, str = a ++ r ++ b /\ Forall (fun c => isspace c = true) a /\ Forall (fun c => isspace c = true) b) /\
  (forall c, head r = Some c -> isspace c = false) /\ (forall c, last r = Some c -> isspace c = false) /\ n = length r.
Proof.
  unfold strtrim. destruct str as [|x str]; [split_and!; [by exists [], []|done..]|]. set (s := x :: str).
  pose proof (span_app isspace s) as Es. pose proof (span_all isspace s) as Ha. pose proof (span_stop isspace s) as Hst.
  destruct (span isspace s) as [a p]. simpl in *. destruct p as [|y p].
  { split_and!; [exists a, []; split_and!; [by rewrite app_nil_r in *|done|constructor]|done..]. }
  destruct (trim_length_spec (y :: p) (length (y :: p))) as (k & Ek & Hk & Hl & Hle); [lia|].
  rewrite take_ge in Ek by lia. set (m := trim_length (y :: p) (length (y :: p))) in *.
  assert (isspace y = false) as Hy by by eapply Hst.
  change (trim_length (y :: p) (S (length p))) with m.
  split_and!; [|intros c|done|rewrite length_take; lia].
  - exists a, k. split_and!; [by rewrite <- Ek|done|done].
  - destruct m; simpl; [done|]. by intros [= <-].
Qed.

(** ** Words *)

Lemma scan_copy_quoted q s :
  match scan_quoted q s with
  | Some (n, e) => exists w, copy_quoted q s = Some (w, e) /\ length w = n /\ (length e < length s)%nat /\ (n < length s - length e)%nat
  | None => copy_quoted q s = None
  end.
Proof.
  induction s as [s IH] using (induction_ltof1 _ (@length _)). destruct s as [|c s]; cbn [scan_quoted copy_quoted]; [done|].
  case_decide; [exists []; simpl; split_and!; [done|done|lia|lia]|]. destruct (escapes _ c s).
  - destruct s as [|d s]; [done|]. specialize (IH s). destruct (scan_quoted q s) as [[n e]|]; simpl in *.
    + destruct IH as (w & -> & <- & Hl & Hn); [unfold ltof; simpl; lia|]. exists (d :: w). simpl. split_and!; [done|done|lia|lia].
    + rewrite IH; [done|]. unfold ltof. simpl. lia.
  - specialize (IH s). destruct (scan_quoted q s) as [[n e]|]; simpl in *.
    + destruct IH as (w & -> & <- & Hl & Hn); [unfold ltof; simpl; lia|]. exists (c :: w). simpl. split_and!; [done|done|lia|lia].
    + rewrite IH; [done|]. unfold ltof. simpl. lia.
Qed.

Lemma scan_copy_word fuel s n e :
  scan_word fuel s = Some (n, e) -> (length s <= fuel)%nat ->
  (length e <= length s)%nat /\ (exists u, s = u ++ e) /\
  exists w, copy_word fuel s e = Some (w, e) /\ length w = n /\ (n <= length s - length e)%nat /\
    (n = length s - length e -> w = take n s)%nat.
Proof.
  assert (forall s e : cstr, length s <= length e -> (exists u, s = u ++ e) -> s = e)%nat as Hsuf.
  { intros s' e' Hl [u ->]. rewrite length_app in Hl. by destruct u; [|simpl in Hl; lia]. }
  revert s n e. induction fuel as [|fuel IH]; intros s n e H Hf.
  { destruct s; [|simpl in Hf; lia]. injection H as <- <-. split_and!; [done|by exists []|]. exists []. done. }
  destruct s as [|c s]; cbn [scan_word] in H.
  { injection H as <- <-. split_and!; [done|by exists []|]. exists []. done. }
  simpl in Hf. destruct (isspace c).
  { injection H as <- <-. split_and!; [done|by exists []|]. exists []. split_and!; [|done|lia|done].
    cbn [copy_word]. by rewrite (proj2 (Nat.leb_le _ _)). }
  destruct (is_quote c) eqn:Eq.
  - pose proof (scan_copy_quoted c s) as Hq. destruct (scan_quoted c s) as [[n1 r]|] eqn:Er; simpl in H; [|done].
    destruct Hq as (w1 & Ew1 & Hw1 & Hl1 & Hn1).
    destruct (scan_word fuel r) as [[m e']|] eqn:E2; simpl in H; [|done]. injection H as <- <-.
    destruct (IH r m e' E2) as (Hle & [u Hu] & w2 & Ew2 & Hw2 & Hm & _); [lia|].
    split_and!; [simpl; lia| |].
    + assert (exists u1, s = u1 ++ r) as [u1 ->].
      { clear -Er. revert n1 r Er. induction s as [s IHs] using (induction_ltof1 _ (@length _)). intros n1 r Er.
        destruct s as [|d s]; cbn [scan_quoted] in Er; [done|]. case_decide; [injection Er as <- <-; by exists [d]|].
        destruct (escapes _ d s); [destruct s as [|d' s]; [done|]|];
          destruct (scan_quoted c s) as [[k e]|] eqn:E; simpl in Er; try done; injection Er as <- <-;
          (destruct (IHs s) with (n1 := k) (r := e) as [u ->]; [unfold ltof; simpl; lia|done|]);
          [by exists (d :: d' :: u)|by exists (d :: u)]. }
      exists (c :: u1 ++ u). simpl. by rewrite Hu, app_assoc.
    + exists (w1 ++ w2). split_and!; [|rewrite length_app; lia|simpl; lia|simpl; lia].
      cbn [copy_word]. rewrite (proj2 (Nat.leb_gt _ _)) by (simpl; lia). rewrite Eq, Ew1. simpl. by rewrite Ew2.
  - set (s1 := if escapes is_quote c s then tail s else s) in *.
    destruct (scan_word fuel s1) as [[m e']|] eqn:E2; simpl in H; [|done]. injection H as <- <-.
    assert (length s1 <= length s)%nat as Hl1 by (unfold s1; destruct (escapes _ c s), s; simpl; lia).
    destruct (IH s1 m e' E2) as (Hle & [u Hu] & w & Ew & Hw & Hm & Heq); [lia|].
    assert (exists v, s = v ++ s1) as [v Hv].
    { unfold s1. destruct (escapes _ c s), s as [|d s']; [by exists []|by exists [d]|by exists []|by exists []]. }
    split_and!; [simpl; lia|exists (c :: v ++ u); simpl; f_equal; rewrite <- app_assoc, <- Hu; exact Hv|].
    exists ((if escapes is_quote c s then default c (head s) else c) :: w). split_and!; [|simpl; lia|simpl; lia|].
    + cbn [copy_word]. rewrite (proj2 (Nat.leb_gt _ _)) by (simpl; lia). rewrite Eq.
      unfold s1 in Ew. destruct (escapes is_quote c s); rewrite Ew; done.
    + simpl. intros Hm'. unfold s1 in *. destruct (escapes is_quote c s) eqn:Ee.
      * exfalso. destruct s as [|d s]; [by unfold escapes in Ee; rewrite andb_false_r in Ee|]. simpl in *. lia.
      * f_equal. apply Heq. lia.
Qed.

(** One word is always read safely: the copying pass ends where the length pass
    ended and writes as many characters as were allocated; copying the text
    unchanged when the lengths agree gives the same word. *)
Lemma split_one_run c :
  match split_one c with
  | Some (inr (word, stop)) => copy_word (length c) c stop = Some (word, stop) /\ exists u, c = u ++ stop
  | Some (inl _) => scan_word (length c) c = None
  | None => False
  end.
Proof.
  unfold split_one. destruct (scan_word (length c) c) as [[n e]|] eqn:E; [|done].
  destruct (scan_copy_word _ _ _ _ E) as (Hle & Hu & w & Ew & Hw & Hn & Heq); [done|].
  case_decide as Hd; [by rewrite <- Heq|]. rewrite Ew. simpl. rewrite decide_True by done. done.
Qed.

Lemma wordsplit_loop_total fuel c : (length c <= fuel)%nat -> is_Some (wordsplit_loop fuel c).
Proof.
  revert c. induction fuel as [|fuel IH]; intros c Hf; (destruct c as [|x c]; [by eexists|]); [simpl in Hf; lia|].
  cbn [wordsplit_loop]. pose proof (split_one_run (x :: c)) as H. destruct (split_one (x :: c)) as [[[]|[w e]]|]; simpl; [by eexists| |done].
  destruct H as [_ [u Hu]]. destruct e as [|y e]; [by eexists|].
  assert (length (span isspace e).2 <= fuel)%nat as Hl.
  { pose proof (span_length isspace e). apply (f_equal length) in Hu. rewrite length_app in Hu. simpl in *. lia. }
  destruct (IH _ Hl) as [r ->]. by eexists.
Qed.

(** A word without white space, quotes and backslashes. *)
Definition plain_char (c : ascii) : bool := negb (isspace c) && negb (is_quote c) && negb (bool_decide (c = backslash)).
Definition plain (w : cstr) : Prop := w <> [] /\ Forall (fun c => plain_char c = true) w.
Fixpoint join_words (ws : list cstr) : cstr :=
  match ws with [] => [] | [w] => w | w :: ws' => w ++ " "%char :: join_words ws' end.

Lemma scan_word_plain w e fuel :
  Forall (fun c => plain_char c = true) w -> (length w <= fuel)%nat ->
  match e with [] => True | c :: _ => isspace c = true end -> (length e <> 0 -> length w < fuel)%nat ->
  scan_word fuel (w ++ e) = Some (length w, e).
Proof.
  intros Hw. revert fuel. induction Hw as [|c w Hc Hw IH]; intros fuel Hf He Hf'; simpl.
  { destruct e as [|x e]; [by destruct fuel|]. destruct fuel; [simpl in Hf'; lia|]. cbn [scan_word]. by rewrite He. }
  destruct fuel as [|fuel]; [simpl in Hf; lia|]. cbn [scan_word]. unfold plain_char in Hc.
  apply andb_true_iff in Hc as [[Hsp%negb_true_iff Hq%negb_true_iff]%andb_true_iff Hb%negb_true_iff%bool_decide_eq_false].
  rewrite Hsp, Hq. unfold escapes. rewrite bool_decide_eq_false_2 by done. simpl. simpl in Hf, Hf'. rewrite IH; [done|lia|done|lia].
Qed.

Lemma join_words_head w ws c r : plain w -> join_words (w :: ws) = c :: r -> isspace c = false.
Proof.
  intros [Hne Hw] E. destruct w as [|x w]; [done|]. assert (x = c) as -> by (destruct ws; by injection E).
  inversion Hw as [|? ? Hc _]; subst. unfold plain_char in Hc. by bool_hyps.
Qed.
Lemma span_join ws : Forall plain ws -> (span isspace (join_words ws)).2 = join_words ws.
Proof.
  intros Hw. destruct ws as [|w ws]; [done|]. destruct (join_words (w :: ws)) as [|c r] eqn:E; [done|].
  inversion Hw; subst. cbn [span]. by rewrite (join_words_head w ws c r).
Qed.

Lemma wordsplit_loop_plain ws fuel :
  Forall plain ws -> (length (join_words ws) <= fuel)%nat -> wordsplit_loop fuel (join_words ws) = Some (Some ws).
Proof.
  revert fuel. induction ws as [|w ws IH]; intros fuel Hw Hf; [by destruct fuel|].
  inversion Hw as [|? ? [Hne Hp] Hws]; subst. destruct w as [|x w]; [done|]. set (w0 := x :: w) in *.
  destruct fuel as [|fuel]; [destruct ws; simpl in Hf; lia|].
  assert (exists e, join_words (w0 :: ws) = w0 ++ e /\ match ws with [] => e = [] | _ => e = " "%char :: join_words ws end)
    as (e & Ej & He) by (destruct ws; [exists []; by rewrite app_nil_r|by eexists]).
  assert (split_one (w0 ++ e) = Some (inr (w0, e))) as Es.
  { unfold split_one. rewrite scan_word_plain; [|done|rewrite length_app; lia|by destruct ws; subst e|rewrite length_app; lia].
    rewrite decide_True by (rewrite length_app; lia). by rewrite take_app_length. }
  rewrite Ej in *. unfold w0 at 1. cbn [app wordsplit_loop]. change (x :: w ++ e) with (w0 ++ e). rewrite Es. simpl.
  destruct ws as [|w1 ws]; subst e; [done|]. rewrite span_join by done.
  rewrite IH; [done|done|]. rewrite length_app in Hf. simpl in *. lia.
Qed.

(** [wordsplit] never accesses memory outside its buffers and always ends,
    for any string, unbalanced quotes included; a command line of plain words
    separated by blanks is split into these words. *)
Theorem wordsplit_spec str ws :
  is_Some (wordsplit str) /\ (Forall plain ws -> wordsplit (join_words ws) = Some (Some ws)).
Proof.
  split; [by apply wordsplit_loop_total|]. intros Hw. unfold wordsplit. rewrite span_join by done. by apply wordsplit_loop_plain.
Qed.

(** ** Numbers *)

Lemma digit_char_spec d : 0 <= d < 10 -> isdigit (digit_char d) = true /\ uchar (digit_char d) - 48 = d.
Proof.
  intros Hd. unfold digit_char, isdigit, uchar. rewrite nat_ascii_embedding by lia. rewrite Z2Nat.id by lia. split; [|lia].
  apply andb_true_iff. split; apply Z.leb_le; lia.
Qed.

Lemma print_loop_spec fuel n acc :
  0 <= n < 10 ^ Z.of_nat (S fuel) ->
  exists ds, print_loop (S fuel) n acc = ds ++ acc /\ ds <> [] /\ Version.digits ds /\ Version.decval ds = n.
Proof.
  revert n acc. induction fuel as [|fuel IH]; intros n acc Hn.
  all: destruct (digit_char_spec (n mod 10)) as [Hd Hv]; [apply Z.mod_pos_bound; lia|].
  - exists [digit_char (n mod 10)]. simpl in Hn. cbn [print_loop]. rewrite (Z.div_small n 10) by lia. simpl.
    split_and!; [done|done|by repeat constructor|]. unfold Version.decval. simpl. rewrite Hv. rewrite Z.mod_small; lia.
  - cbn [print_loop]. destruct (Z.eqb_spec (n / 10) 0) as [E|E].
    { exists [digit_char (n mod 10)]. split_and!; [done|done|by repeat constructor|]. unfold Version.decval. simpl. rewrite Hv.
      apply Z.div_small_iff in E; [|lia]. rewrite Z.mod_small; lia. }
    destruct (IH (n / 10) (digit_char (n mod 10) :: acc)) as (ds & Ed & Hne & Hds & Hval).
    { rewrite (Nat2Z.inj_succ (S fuel)), Z.pow_succ_r in Hn by lia. split; [apply Z.div_pos; lia|].
      apply Z.div_lt_upper_bound; lia. }
    exists (ds ++ [digit_char (n mod 10)]). cbn [print_loop] in Ed. rewrite Ed, <- app_assoc.
    split_and!; [done|by destruct ds|apply Forall_app; by repeat constructor|].
    unfold Version.decval in *. rewrite fold_left_app, Hval. simpl. rewrite Hv. pose proof (Z.div_mod n 10). lia.
Qed.
Lemma print_u_spec n : 0 <= n < 2 ^ 64 -> print_u n <> [] /\ Version.digits (print_u n) /\ Version.decval (print_u n) = n.
Proof.
  intros Hn. destruct (print_loop_spec 19 n []) as (ds & E & H); [cbn; lia|]. unfold print_u. by rewrite E, app_nil_r.
Qed.

Lemma digits_span ds : Version.digits ds -> span isdigit ds = (ds, []).
Proof. induction 1 as [|c ds Hc _ IH]; cbn [span]; [done|]. by rewrite Hc, IH. Qed.
Lemma isdigit_not_space c : isdigit c = true -> isspace c = false.
Proof. unfold isdigit, isspace. intros H. bool_hyps. apply orb_false_iff. split; [apply Z.eqb_neq; lia|]. apply andb_false_iff. right. apply Z.leb_gt. lia. Qed.

Lemma strto_digits_print ds : Version.digits ds -> ds <> [] -> strto_digits ds = Some (false, ds, []).
Proof.
  intros Hd Hne. destruct ds as [|c ds]; [done|]. inversion Hd as [|? ? Hc Hds]; subst.
  unfold strto_digits. cbn [span]. rewrite (isdigit_not_space c Hc). cbn [snd].
  rewrite decide_False by (intros ->; discriminate Hc). rewrite decide_False by (intros ->; discriminate Hc).
  by rewrite (digits_span (c :: ds)).
Qed.
Lemma strto_digits_minus ds : Version.digits ds -> ds <> [] -> strto_digits ("-"%char :: ds) = Some (true, ds, []).
Proof.
  intros Hd Hne. unfold strto_digits. cbn [span]. change (isspace "-"%char) with false. cbn [snd].
  rewrite decide_True by done. rewrite digits_span by done. by destruct ds.
Qed.

Lemma parsedate_print z : LLONG_MIN <= z <= LLONG_MAX -> parsedate (print_d z) = z.
Proof.
  unfold LLONG_MIN, LLONG_MAX. intros Hz. unfold print_d. destruct (Z.ltb_spec z 0).
  - destruct (print_u_spec (- z)) as (Hne & Hd & Hv); [lia|]. unfold parsedate, strtoll. rewrite strto_digits_minus, Hv by done.
    unfold LLONG_MAX, LLONG_MIN. rewrite Z.opp_involutive. rewrite (proj2 (Z.ltb_ge _ _)) by lia.
    rewrite (proj2 (Z.ltb_ge _ _)) by lia. rewrite (proj2 (Z.eqb_neq z 0)) by lia. done.
  - destruct (print_u_spec z) as (Hne & Hd & Hv); [lia|]. unfold parsedate, strtoll. rewrite strto_digits_print, Hv by done.
    unfold LLONG_MAX, LLONG_MIN. rewrite (proj2 (Z.ltb_ge _ _)) by lia. rewrite (proj2 (Z.ltb_ge _ _)) by lia.
    rewrite (bool_decide_eq_false_2 ([] = print_u z)) by congruence. by rewrite andb_false_r.
Qed.
Lemma strtoofft_print z : 0 <= z <= LLONG_MAX -> strtoofft (print_d z) = z.
Proof.
  unfold LLONG_MAX. intros Hz. unfold print_d. rewrite (proj2 (Z.ltb_ge z 0)) by lia.
  destruct (print_u_spec z) as (Hne & Hd & Hv); [lia|].
  unfold strtoofft, strtoull. rewrite strto_digits_print, Hv by done.
  destruct (print_u z) as [|c r] eqn:E; [done|]. apply Forall_cons in Hd as [Hc _]. rewrite Hc. simpl negb. cbn iota.
  unfold ULLONG_MAX at 1. rewrite (proj2 (Z.ltb_ge _ _)) by lia. rewrite (bool_decide_eq_false_2 ([] = c :: r)) by done.
  rewrite !andb_false_r. unfold s64. rewrite Z.mod_small by lia. rewrite (proj2 (Z.ltb_lt _ _)) by lia. done.
Qed.

(** The decimal numbers of the database files are read back exactly: every
    64-bit time from what ["%jd"] prints, and every size from 0 to 2^63-1. *)
Theorem numbers_roundtrip z :
  (LLONG_MIN <= z <= LLONG_MAX -> parsedate (print_d z) = z) /\
  (0 <= z <= LLONG_MAX -> strtoofft (print_d z) = z).
Proof. split; [apply parsedate_print|apply strtoofft_print]. Qed.

(** Sizes that do not fit [off_t] are not rejected: they come out negative. *)
Example strtoofft_wraps : strtoofft (lit "9223372036854775808") = - 2 ^ 63 /\ strtoofft (lit "12k") = -1.
Proof. split; reflexivity. Qed.

(** ** Package specifiers *)

Lemma before_spec c s r : c ∉ s -> before c (s ++ c :: r) = s /\ before c s = s.
Proof.
  intros H. unfold before. split.
  - rewrite strchr_app by done. rewrite length_app. simpl.
    replace (length s + S (length r) - S (length r))%nat with (length s) by lia. by rewrite take_app_length.
  - by rewrite (proj2 (strchr_None s c)).
Qed.

(** [_klpm_splitname] recovers name and version from the directory name
    "name-version-release", alone or followed by a path, for any name without a
    slash and any version and release without hyphen and slash. *)
Theorem splitname_roundtrip n v r path
    (Hn : n <> []) (Hs : "/"%char ∉ n ++ v ++ r) (Hv : "-"%char ∉ v) (Hr : "-"%char ∉ r)
    (Hp : match path with [] => True | c :: _ => c = "/"%char end) :
  splitname (n ++ "-"%char :: v ++ "-"%char :: r ++ path) = Some (Some (n, v ++ "-"%char :: r, hash_sdbm n)).
Proof.
  unfold splitname. set (t := n ++ "-"%char :: v ++ "-"%char :: r).
  assert ("/"%char ∉ t) as Ht by (unfold t; set_solver).
  assert (before "/"%char (n ++ "-"%char :: v ++ "-"%char :: r ++ path) = t) as ->.
  { replace (n ++ "-"%char :: v ++ "-"%char :: r ++ path) with (t ++ path) by (unfold t; by rewrite <- !app_assoc; simpl; rewrite <- app_assoc).
    destruct path as [|c path]; [rewrite app_nil_r; by apply (before_spec _ _ [])|subst c; by apply before_spec]. }
  unfold t. rewrite (proj2 (strrchr_Some _ "-"%char (n ++ "-"%char :: v) r)); [|split; [by rewrite <- app_assoc|done]]. simpl.
  rewrite (proj2 (strrchr_Some _ "-"%char n v)) by done. simpl. by destruct n.
Qed.
Lemma splitname_witness :
  splitname (lit "libfoo-devel-1.2-3/desc") = Some (Some (lit "libfoo-devel", lit "1.2-3", hash_sdbm (lit "libfoo-devel"))).
Proof. apply (splitname_roundtrip (lit "libfoo-devel") (lit "1.2") (lit "3") (lit "/desc")); [done|by_decide..|done]. Defined.

(** Without a release the split goes wrong: a hyphen of the name is taken for
    the one before the version, and with fewer than two hyphens the search
    leaves the string, although such versions pass the metadata check. *)
Theorem splitname_without_release :
  splitname (lit "foo-bar-1.0") = Some (Some (lit "foo", lit "bar-1.0", hash_sdbm (lit "foo"))) /\
  splitname (lit "foo-1.0") = None.
Proof. split; reflexivity. Qed.

End Util.
