(* ===== verification/LocalDb.v ===== *)
(** * The files of the local database ([src/lib/libkuzpkg/be_local.c])

    Reading and writing of the desc and files entries of an installed package,
    and building the package cache from the database directory.

    A file is read through [fgets] with the 1024-byte buffer [line]: a stream is
    what is left of the file, whether a read past that fails or meets the end,
    and the end-of-file flag.  As in the source the buffer keeps its old
    contents when [fgets] fails.  The loops carry fuel, two more than the bytes
    of the file for the outer ones, which is always enough
    ([local_db_read_total]). *)

From S2P Require Import Prelude CStr Version KList Package PkgHash Deps FileList Util.
Local Open Scope Z_scope.

Module LocalDb.

(** ** Streams *)

Record stream := Stream { rest : cstr; failing : bool; eof : bool }.
Definition NL : ascii := ascii_of_nat 10.
Definition NUL : ascii := ascii_of_nat 0.

(** Up to [n] bytes, through the first newline: the bytes, what is left, and
    whether the end was met. *)
Fixpoint take_line (n : nat) (s : cstr) : cstr * cstr * bool :=
  match n, s with
  | O, _ => ([], s, false)
  | S _, [] => ([], [], true)
  | S n, c :: s' =>
      if decide (c = NL) then ([c], s', false)
      else let '(l, r, e) := take_line n s' in (c :: l, r, e)
  end.

(** [safe_fgets] with a buffer of [n + 1] bytes: the string read, as far as its
    first NUL, or [None]. *)
Definition fgets_n (n : nat) (st : stream) : option cstr * stream :=
  let '(l, r, hit) := take_line n (rest st) in
  if hit then
    if failing st then (None, Stream r true (eof st))
    else (match l with [] => None | _ => Some (Util.before NUL l) end, Stream r false true)
  else (Some (Util.before NUL l), Stream r (failing st) (eof st)).

(** [safe_fgets(line, sizeof(line), fp)] of the local backend. *)
Definition LINE_MAX : nat := 1023.
Definition fgets (st : stream) : option cstr * stream := fgets_n LINE_MAX st.

Definition strip (line : cstr) : cstr := (strip_newline line 0).1.

(** The result of a piece of the reading code: it goes on, jumps to [error]
    with what was stored until then, or ran out of fuel. *)
Inductive res (E A : Type) := Next (a : A) | Error (e : E) | NoFuel.
#[global] Arguments Next {E A}.
#[global] Arguments Error {E A}.
#[global] Arguments NoFuel {E A}.
Definition bind {E A B} (m : res E A) (f : A -> res E B) : res E B :=
  match m with Next a => f a | Error e => Error e | NoFuel => NoFuel end.

(** [READ_NEXT]: the buffer and the stream. *)
Definition read_next (line : cstr) (st : stream) : res unit (cstr * stream) :=
  match fgets st with
  | (Some l, st') => Next (strip l, st')
  | (None, st') => if eof st' then Next (strip line, st') else Error ()
  end.

(** [READ_AND_STORE_ALL] and [READ_AND_SPLITDEP]: the lines up to an empty one
    or the end, the buffer and the stream; the lines before a read error. *)
Fixpoint read_all (fuel : nat) (line : cstr) (st : stream) : res (list cstr) (list cstr * cstr * stream) :=
  match fuel with
  | O => NoFuel
  | S fuel =>
      match fgets st with
      | (None, st') => if eof st' then Next ([], line, st') else Error []
      | (Some l, st') =>
          match strip l with
          | [] => Next ([], [], st')
          | l => match read_all fuel l st' with
                 | Next (ls, line, st) => Next (l :: ls, line, st)
                 | Error ls => Error (l :: ls)
                 | NoFuel => NoFuel
                 end
          end
      end
  end.

(** ** The desc file *)

(** The fields of a package the desc file holds. *)
Record info := Info {
  i_base : option cstr;
  i_desc : option cstr;
  i_groups : list cstr;
  i_url : option cstr;
  i_licenses : list cstr;
  i_arch : option cstr;
  i_builddate : Z;
  i_installdate : Z;
  i_packager : option cstr;
  i_reason : pkgreason;
  i_validation : Z;
  i_isize : Z;
  i_replaces : list depend;
  i_depends : list depend;
  i_optdepends : list depend;
  i_makedepends : list depend;
  i_checkdepends : list depend;
  i_conflicts : list depend;
  i_provides : list depend;
  i_xdata : list xdata
}.
#[global] Instance info_eq_dec : EqDecision info.
Proof. solve_decision. Defined.
(** As [_klpm_pkg_new] leaves them. *)
Definition fresh_info : info :=
  Info None None [] None [] None 0 0 None REASON_EXPLICIT 0 0 [] [] [] [] [] [] [] [].
Definition set_base (v : option cstr) (i : info) : info :=
  Info v (i_desc i) (i_groups i) (i_url i) (i_licenses i) (i_arch i) (i_builddate i) (i_installdate i) (i_packager i) (i_reason i) (i_validation i) (i_isize i) (i_replaces i) (i_depends i) (i_optdepends i) (i_makedepends i) (i_checkdepends i) (i_conflicts i) (i_provides i) (i_xdata i).
Definition set_desc (v : option cstr) (i : info) : info :=
  Info (i_base i) v (i_groups i) (i_url i) (i_licenses i) (i_arch i) (i_builddate i) (i_installdate i) (i_packager i) (i_reason i) (i_validation i) (i_isize i) (i_replaces i) (i_depends i) (i_optdepends i) (i_makedepends i) (i_checkdepends i) (i_conflicts i) (i_provides i) (i_xdata i).
Definition set_groups (v : list cstr) (i : info) : info :=
  Info (i_base i) (i_desc i) v (i_url i) (i_licenses i) (i_arch i) (i_builddate i) (i_installdate i) (i_packager i) (i_reason i) (i_validation i) (i_isize i) (i_replaces i) (i_depends i) (i_optdepends i) (i_makedepends i) (i_checkdepends i) (i_conflicts i) (i_provides i) (i_xdata i).
Definition set_url (v : option cstr) (i : info) : info :=
  Info (i_base i) (i_desc i) (i_groups i) v (i_licenses i) (i_arch i) (i_builddate i) (i_installdate i) (i_packager i) (i_reason i) (i_validation i) (i_isize i) (i_replaces i) (i_depends i) (i_optdepends i) (i_makedepends i) (i_checkdepends i) (i_conflicts i) (i_provides i) (i_xdata i).
Definition set_licenses (v : list cstr) (i : info) : info :=
  Info (i_base i) (i_desc i) (i_groups i) (i_url i) v (i_arch i) (i_builddate i) (i_installdate i) (i_packager i) (i_reason i) (i_validation i) (i_isize i) (i_replaces i) (i_depends i) (i_optdepends i) (i_makedepends i) (i_checkdepends i) (i_conflicts i) (i_provides i) (i_xdata i).
Definition set_arch (v : option cstr) (i : info) : info :=
  Info (i_base i) (i_desc i) (i_groups i) (i_url i) (i_licenses i) v (i_builddate i) (i_installdate i) (i_packager i) (i_reason i) (i_validation i) (i_isize i) (i_replaces i) (i_depends i) (i_optdepends i) (i_makedepends i) (i_checkdepends i) (i_conflicts i) (i_provides i) (i_xdata i).
Definition set_builddate (v : Z) (i : info) : info :=
  Info (i_base i) (i_desc i) (i_groups i) (i_url i) (i_licenses i) (i_arch i) v (i_installdate i) (i_packager i) (i_reason i) (i_validation i) (i_isize i) (i_replaces i) (i_depends i) (i_optdepends i) (i_makedepends i) (i_checkdepends i) (i_conflicts i) (i_provides i) (i_xdata i).
Definition set_installdate (v : Z) (i : info) : info :=
  Info (i_base i) (i_desc i) (i_groups i) (i_url i) (i_licenses i) (i_arch i) (i_builddate i) v (i_packager i) (i_reason i) (i_validation i) (i_isize i) (i_replaces i) (i_depends i) (i_optdepends i) (i_makedepends i) (i_checkdepends i) (i_conflicts i) (i_provides i) (i_xdata i).
Definition set_packager (v : option cstr) (i : info) : info :=
  Info (i_base i) (i_desc i) (i_groups i) (i_url i) (i_licenses i) (i_arch i) (i_builddate i) (i_installdate i) v (i_reason i) (i_validation i) (i_isize i) (i_replaces i) (i_depends i) (i_optdepends i) (i_makedepends i) (i_checkdepends i) (i_conflicts i) (i_provides i) (i_xdata i).
Definition set_reason (v : pkgreason) (i : info) : info :=
  Info (i_base i) (i_desc i) (i_groups i) (i_url i) (i_licenses i) (i_arch i) (i_builddate i) (i_installdate i) (i_packager i) v (i_validation i) (i_isize i) (i_replaces i) (i_depends i) (i_optdepends i) (i_makedepends i) (i_checkdepends i) (i_conflicts i) (i_provides i) (i_xdata i).
Definition set_validation (v : Z) (i : info) : info :=
  Info (i_base i) (i_desc i) (i_groups i) (i_url i) (i_licenses i) (i_arch i) (i_builddate i) (i_installdate i) (i_packager i) (i_reason i) v (i_isize i) (i_replaces i) (i_depends i) (i_optdepends i) (i_makedepends i) (i_checkdepends i) (i_conflicts i) (i_provides i) (i_xdata i).
Definition set_isize (v : Z) (i : info) : info :=
  Info (i_base i) (i_desc i) (i_groups i) (i_url i) (i_licenses i) (i_arch i) (i_builddate i) (i_installdate i) (i_packager i) (i_reason i) (i_validation i) v (i_replaces i) (i_depends i) (i_optdepends i) (i_makedepends i) (i_checkdepends i) (i_conflicts i) (i_provides i) (i_xdata i).
Definition set_replaces (v : list depend) (i : info) : info :=
  Info (i_base i) (i_desc i) (i_groups i) (i_url i) (i_licenses i) (i_arch i) (i_builddate i) (i_installdate i) (i_packager i) (i_reason i) (i_validation i) (i_isize i) v (i_depends i) (i_optdepends i) (i_makedepends i) (i_checkdepends i) (i_conflicts i) (i_provides i) (i_xdata i).
Definition set_depends (v : list depend) (i : info) : info :=
  Info (i_base i) (i_desc i) (i_groups i) (i_url i) (i_licenses i) (i_arch i) (i_builddate i) (i_installdate i) (i_packager i) (i_reason i) (i_validation i) (i_isize i) (i_replaces i) v (i_optdepends i) (i_makedepends i) (i_checkdepends i) (i_conflicts i) (i_provides i) (i_xdata i).
Definition set_optdepends (v : list depend) (i : info) : info :=
  Info (i_base i) (i_desc i) (i_groups i) (i_url i) (i_licenses i) (i_arch i) (i_builddate i) (i_installdate i) (i_packager i) (i_reason i) (i_validation i) (i_isize i) (i_replaces i) (i_depends i) v (i_makedepends i) (i_checkdepends i) (i_conflicts i) (i_provides i) (i_xdata i).
Definition set_makedepends (v : list depend) (i : info) : info :=
  Info (i_base i) (i_desc i) (i_groups i) (i_url i) (i_licenses i) (i_arch i) (i_builddate i) (i_installdate i) (i_packager i) (i_reason i) (i_validation i) (i_isize i) (i_replaces i) (i_depends i) (i_optdepends i) v (i_checkdepends i) (i_conflicts i) (i_provides i) (i_xdata i).
Definition set_checkdepends (v : list depend) (i : info) : info :=
  Info (i_base i) (i_desc i) (i_groups i) (i_url i) (i_licenses i) (i_arch i) (i_builddate i) (i_installdate i) (i_packager i) (i_reason i) (i_validation i) (i_isize i) (i_replaces i) (i_depends i) (i_optdepends i) (i_makedepends i) v (i_conflicts i) (i_provides i) (i_xdata i).
Definition set_conflicts (v : list depend) (i : info) : info :=
  Info (i_base i) (i_desc i) (i_groups i) (i_url i) (i_licenses i) (i_arch i) (i_builddate i) (i_installdate i) (i_packager i) (i_reason i) (i_validation i) (i_isize i) (i_replaces i) (i_depends i) (i_optdepends i) (i_makedepends i) (i_checkdepends i) v (i_provides i) (i_xdata i).
Definition set_provides (v : list depend) (i : info) : info :=
  Info (i_base i) (i_desc i) (i_groups i) (i_url i) (i_licenses i) (i_arch i) (i_builddate i) (i_installdate i) (i_packager i) (i_reason i) (i_validation i) (i_isize i) (i_replaces i) (i_depends i) (i_optdepends i) (i_makedepends i) (i_checkdepends i) (i_conflicts i) v (i_xdata i).
Definition set_xdata (v : list xdata) (i : info) : info :=
  Info (i_base i) (i_desc i) (i_groups i) (i_url i) (i_licenses i) (i_arch i) (i_builddate i) (i_installdate i) (i_packager i) (i_reason i) (i_validation i) (i_isize i) (i_replaces i) (i_depends i) (i_optdepends i) (i_makedepends i) (i_checkdepends i) (i_conflicts i) (i_provides i) v.

(** The lines the reader compares with; anything else is an unknown key. *)
Inductive key :=
  K_NAME | K_VERSION | K_BASE | K_DESC | K_GROUPS | K_URL | K_LICENSE | K_ARCH | K_BUILDDATE | K_INSTALLDATE | K_PACKAGER | K_REASON | K_VALIDATION | K_SIZE | K_REPLACES | K_DEPENDS | K_OPTDEPENDS | K_MAKEDEPENDS | K_CHECKDEPENDS | K_CONFLICTS | K_PROVIDES | K_XDATA | K_UNKNOWN.
Definition keys : list (string * key) :=
  [("%NAME%", K_NAME);
   ("%VERSION%", K_VERSION);
   ("%BASE%", K_BASE);
   ("%DESC%", K_DESC);
   ("%GROUPS%", K_GROUPS);
   ("%URL%", K_URL);
   ("%LICENSE%", K_LICENSE);
   ("%ARCH%", K_ARCH);
   ("%BUILDDATE%", K_BUILDDATE);
   ("%INSTALLDATE%", K_INSTALLDATE);
   ("%PACKAGER%", K_PACKAGER);
   ("%REASON%", K_REASON);
   ("%VALIDATION%", K_VALIDATION);
   ("%SIZE%", K_SIZE);
   ("%REPLACES%", K_REPLACES);
   ("%DEPENDS%", K_DEPENDS);
   ("%OPTDEPENDS%", K_OPTDEPENDS);
   ("%MAKEDEPENDS%", K_MAKEDEPENDS);
   ("%CHECKDEPENDS%", K_CHECKDEPENDS);
   ("%CONFLICTS%", K_CONFLICTS);
   ("%PROVIDES%", K_PROVIDES);
   ("%XDATA%", K_XDATA)].
Definition key_of (line : cstr) : key :=
  match find_first (fun e => strcmp line (lit e.1) =? 0) keys with Some (_, k) => k | None => K_UNKNOWN end.

Definition read_pkgreason (line : cstr) : pkgreason :=
  if strcmp line (lit "0") =? 0 then REASON_EXPLICIT
  else if strcmp line (lit "1") =? 0 then REASON_DEPEND
  else REASON_UNKNOWN.

(** [KUZPKG_PKG_VALIDATION_*] *)
Definition VALIDATION_NONE : Z := 2 ^ 0.
Definition VALIDATION_SHA256SUM : Z := 2 ^ 2.
Definition VALIDATION_SIGNATURE : Z := 2 ^ 3.
Definition add_validation (v : Z) (l : cstr) : Z :=
  if strcmp l (lit "none") =? 0 then Z.lor v VALIDATION_NONE
  else if strcmp l (lit "sha256") =? 0 then Z.lor v VALIDATION_SHA256SUM
  else if strcmp l (lit "pgp") =? 0 then Z.lor v VALIDATION_SIGNATURE
  else v.

(** The state of the loop: the buffer, the stream and the package. *)
Record rd := Rd { rd_line : cstr; rd_st : stream; rd_info : info }.

Definition read_lines (s : rd) : res (list cstr) (list cstr * cstr * stream) :=
  read_all (S (S (length (rest (rd_st s))))) (rd_line s) (rd_st s).
(** [READ_NEXT] and storing what was read. *)
Definition store (s : rd) (f : cstr -> info -> info) : res info rd :=
  match read_next (rd_line s) (rd_st s) with
  | Next (line, st) => Next (Rd line st (f line (rd_info s)))
  | Error _ => Error (rd_info s)
  | NoFuel => NoFuel
  end.
(** Storing each line as it is read. *)
Definition store_all (s : rd) (f : list cstr -> info -> info) : res info rd :=
  match read_lines s with
  | Next (l, line, st) => Next (Rd line st (f l (rd_info s)))
  | Error l => Error (f l (rd_info s))
  | NoFuel => NoFuel
  end.
(** Reading all lines first and storing them afterwards. *)
Definition store_after (s : rd) (f : list cstr -> info -> res info info) : res info rd :=
  match read_lines s with
  | Next (l, line, st) => bind (f l (rd_info s)) (fun i => Next (Rd line st i))
  | Error _ => Error (rd_info s)
  | NoFuel => NoFuel
  end.
Fixpoint add_xdata (lines : list cstr) (i : info) : res info info :=
  match lines with
  | [] => Next i
  | l :: lines =>
      match Package.pkg_parse_xdata (Some l) with
      | Some pd => add_xdata lines (set_xdata (i_xdata i ++ [pd]) i)
      | None => Error i
      end
  end.

(** The body of the chain of [strcmp]s.  A name or version other than the
    package's is only logged. *)
Definition read_key (k : key) (s : rd) : res info rd :=
  match k with
  | K_NAME | K_VERSION => store s (fun _ i => i)
  | K_BASE => store s (fun line => set_base (Some line))
  | K_DESC => store s (fun line => set_desc (Some line))
  | K_URL => store s (fun line => set_url (Some line))
  | K_ARCH => store s (fun line => set_arch (Some line))
  | K_PACKAGER => store s (fun line => set_packager (Some line))
  | K_BUILDDATE => store s (fun line => set_builddate (Util.parsedate line))
  | K_INSTALLDATE => store s (fun line => set_installdate (Util.parsedate line))
  | K_SIZE => store s (fun line => set_isize (Util.strtoofft line))
  | K_REASON => store s (fun line => set_reason (read_pkgreason line))
  | K_GROUPS => store_all s (fun l i => set_groups (i_groups i ++ l) i)
  | K_LICENSE => store_all s (fun l i => set_licenses (i_licenses i ++ l) i)
  | K_VALIDATION => store_after s (fun l i => Next (set_validation (fold_left add_validation l (i_validation i)) i))
  | K_REPLACES => store_all s (fun l i => set_replaces (i_replaces i ++ (Deps.dep_from_string <$> l)) i)
  | K_DEPENDS => store_all s (fun l i => set_depends (i_depends i ++ (Deps.dep_from_string <$> l)) i)
  | K_OPTDEPENDS => store_all s (fun l i => set_optdepends (i_optdepends i ++ (Deps.dep_from_string <$> l)) i)
  | K_MAKEDEPENDS => store_all s (fun l i => set_makedepends (i_makedepends i ++ (Deps.dep_from_string <$> l)) i)
  | K_CHECKDEPENDS => store_all s (fun l i => set_checkdepends (i_checkdepends i ++ (Deps.dep_from_string <$> l)) i)
  | K_CONFLICTS => store_all s (fun l i => set_conflicts (i_conflicts i ++ (Deps.dep_from_string <$> l)) i)
  | K_PROVIDES => store_all s (fun l i => set_provides (i_provides i ++ (Deps.dep_from_string <$> l)) i)
  | K_XDATA => store_after s add_xdata
  | K_UNKNOWN => store_all s (fun _ i => i)
  end.

Definition dispatch (s : rd) : res info rd :=
  match rd_line s with [] => Next s | line => read_key (key_of line) s end.
Definition desc_step (s : rd) : res info rd :=
  let '(r, st) := fgets (rd_st s) in
  match r, eof st with
  | None, false => Error (rd_info s)
  | _, _ => dispatch (Rd (strip (default (rd_line s) r)) st (rd_info s))
  end.

Fixpoint desc_loop (fuel : nat) (s : rd) : res info rd :=
  if eof (rd_st s) then Next s
  else match fuel with
       | O => NoFuel
       | S fuel => bind (desc_step s) (desc_loop fuel)
       end.

(** ** The files file *)

(** [while(safe_fgets(...) && strip)]: the lines, and the stream; [None] is
    running out of fuel. *)
Fixpoint read_block (fuel : nat) (st : stream) : option (list cstr * stream) :=
  match fuel with
  | O => None
  | S fuel =>
      match fgets st with
      | (None, st') => Some ([], st')
      | (Some l, st') =>
          match strip l with
          | [] => Some ([], st')
          | l => '(ls, st) ← read_block fuel st'; Some (l :: ls, st)
          end
      end
  end.

Record filesinfo := FilesInfo { fi_files : list file; fi_backups : list backup }.
#[global] Instance filesinfo_eq_dec : EqDecision filesinfo.
Proof. solve_decision. Defined.

(** The outer loop; a second list of files replaces the first, backups add up. *)
Fixpoint files_loop (fuel : nat) (st : stream) (fi : filesinfo) : option (filesinfo * stream) :=
  match fuel with
  | O => None
  | S fuel =>
      match fgets st with
      | (None, st') => Some (fi, st')
      | (Some l, st') =>
          let line := strip l in
          if strcmp line (lit "%FILES%") =? 0 then
            '(ls, st) ← read_block (S (S (length (rest st')))) st';
            files_loop fuel st (FilesInfo (FileList.sort ((fun n => File n 0 0) <$> ls)) (fi_backups fi))
          else if strcmp line (lit "%BACKUP%") =? 0 then
            '(ls, st) ← read_block (S (S (length (rest st')))) st';
            files_loop fuel st (FilesInfo (fi_files fi) (fi_backups fi ++ (Package.split_backup <$> ls)))
          else files_loop fuel st' fi
      end
  end.

(** ** local_db_read *)

Definition INFRQ_DESC : Z := 2 ^ 1.
Definition INFRQ_FILES : Z := 2 ^ 2.
Definition INFRQ_SCRIPTLET : Z := 2 ^ 3.
Definition INFRQ_ERROR : Z := 2 ^ 30.
Definition INFRQ_ALL : Z := 31.
Definition on (flags bit : Z) : bool := negb (Z.land flags bit =? 0).

(** The database entry of a package: its directory on disk, as the contents of
    the files it has ([Some (contents, failing)]), and whether there is an
    install script. *)
Record dbentry := DbEntry { d_desc : option (cstr * bool); d_files : option (cstr * bool); d_install : bool }.

(** A package as the local backend loads it. *)
Record lpkg := LPkg {
  l_name : cstr; l_version : cstr; l_info : info; l_files : filesinfo; l_scriptlet : bool; l_infolevel : Z
}.

Definition open_file (f : option (cstr * bool)) : option stream :=
  match f with Some (text, fails) => Some (Stream text fails false) | None => None end.

Definition read_desc (f : option (cstr * bool)) (i : info) : res info info :=
  match open_file f with
  | None => Error i
  | Some st => bind (desc_loop (S (S (length (rest st)))) (Rd [] st i)) (fun s => Next (rd_info s))
  end.
Definition read_files (f : option (cstr * bool)) (fi : filesinfo) : res filesinfo filesinfo :=
  match open_file f with
  | None => Error fi
  | Some st => match files_loop (S (S (length (rest st)))) st fi with
               | Some (fi, _) => Next fi
               | None => NoFuel
               end
  end.

(** One of the first two parts: it is loaded if it is asked for and not loaded
    yet.  The result is whether there was no jump to [error], which marks the
    package, the data and the new level. *)
Definition load {A} (wanted : bool) (bit : Z) (level : Z) (old : A) (read : A -> res A A) : option (bool * A * Z) :=
  if wanted && negb (on level bit) then
    match read old with
    | Next a => Some (true, a, Z.lor level bit)
    | Error a => Some (false, a, Z.lor level INFRQ_ERROR)
    | NoFuel => None
    end
  else Some (true, old, level).

(** [local_db_read]: the return value and the package. *)
Definition local_db_read (e : dbentry) (inforeq : Z) (p : lpkg) : option (Z * lpkg) :=
  let level := l_infolevel p in
  if Z.land level inforeq =? inforeq then Some (0, p)
  else if on level INFRQ_ERROR then Some (-1, p)
  else
    '(ok, i, level) ← load (on inforeq INFRQ_DESC) INFRQ_DESC level (l_info p) (read_desc (d_desc e));
    if negb ok then Some (-1, LPkg (l_name p) (l_version p) i (l_files p) (l_scriptlet p) level)
    else
      '(ok, fi, level) ← load (on inforeq INFRQ_FILES) INFRQ_FILES level (l_files p) (read_files (d_files e));
      if negb ok then Some (-1, LPkg (l_name p) (l_version p) i fi (l_scriptlet p) level)
      else
        let want := on inforeq INFRQ_SCRIPTLET && negb (on level INFRQ_SCRIPTLET) in
        Some (0, LPkg (l_name p) (l_version p) i fi
                   (if want then l_scriptlet p || d_install e else l_scriptlet p)
                   (if want then Z.lor level INFRQ_SCRIPTLET else level)).

(** ** _klpm_local_db_write *)

Definition line_of (s : cstr) : cstr := s ++ [NL].
Definition section (k : string) (ls : list cstr) : cstr := line_of (lit k) ++ (ls ≫= line_of) ++ [NL].
Definition opt_section (k : string) (v : option cstr) : cstr :=
  match v with Some v => section k [v] | None => [] end.
Definition num_section (k : string) (z : Z) : cstr := if z =? 0 then [] else section k [Util.print_d z].
Definition list_section (k : string) (ls : list cstr) : cstr := match ls with [] => [] | _ => section k ls end.

Definition write_deps (k : string) (ds : list depend) : cstr :=
  list_section k (Deps.dep_compute_string <$> ds).

Definition reason_value (r : pkgreason) : Z :=
  match r with REASON_EXPLICIT => 0 | REASON_DEPEND => 1 | REASON_UNKNOWN => 2 end.
Definition validation_lines (v : Z) : list cstr :=
  (if on v VALIDATION_NONE then [lit "none"] else []) ++
  (if on v VALIDATION_SHA256SUM then [lit "sha256"] else []) ++
  (if on v VALIDATION_SIGNATURE then [lit "pgp"] else []).
Definition xdata_line (x : xdata) : cstr := x_name x ++ "="%char :: x_value x.

Definition write_desc (p : lpkg) : cstr :=
  let i := l_info p in
  section "%NAME%" [l_name p] ++ section "%VERSION%" [l_version p] ++
  opt_section "%BASE%" (i_base i) ++ opt_section "%DESC%" (i_desc i) ++ opt_section "%URL%" (i_url i) ++
  opt_section "%ARCH%" (i_arch i) ++ num_section "%BUILDDATE%" (i_builddate i) ++
  num_section "%INSTALLDATE%" (i_installdate i) ++ opt_section "%PACKAGER%" (i_packager i) ++
  num_section "%SIZE%" (i_isize i) ++ num_section "%REASON%" (reason_value (i_reason i)) ++
  list_section "%GROUPS%" (i_groups i) ++ list_section "%LICENSE%" (i_licenses i) ++
  (if i_validation i =? 0 then [] else section "%VALIDATION%" (validation_lines (i_validation i))) ++
  write_deps "%REPLACES%" (i_replaces i) ++ write_deps "%DEPENDS%" (i_depends i) ++
  write_deps "%OPTDEPENDS%" (i_optdepends i) ++ write_deps "%CONFLICTS%" (i_conflicts i) ++
  write_deps "%PROVIDES%" (i_provides i) ++ list_section "%XDATA%" (xdata_line <$> i_xdata i).

(** ["%s\t%s\n"]; a NULL hash is printed by the C library as "(null)". *)
Definition backup_line (b : backup) : cstr := b_name b ++ ascii_of_nat 9 :: default (lit "(null)") (b_hash b).
Definition write_files (fi : filesinfo) : cstr :=
  list_section "%FILES%" (f_name <$> fi_files fi) ++ list_section "%BACKUP%" (backup_line <$> fi_backups fi).

(** [_klpm_local_db_write], when the files can be created: the entry afterwards. *)
Definition local_db_write (p : lpkg) (inforeq : Z) (e : dbentry) : dbentry :=
  DbEntry (if on inforeq INFRQ_DESC then Some (write_desc p, false) else d_desc e)
          (if on inforeq INFRQ_FILES then Some (write_files (l_files p), false) else d_files e)
          (d_install e).

(** [_klpm_local_db_pkgpath] *)
Definition local_db_pkgpath (dbpath n v : cstr) (filename : option cstr) : cstr :=
  dbpath ++ n ++ "-"%char :: v ++ "/"%char :: default [] filename.

(** ** Reading always ends *)

Lemma take_line_length n s :
  let '(l, r, hit) := take_line n s in
  (length r <= length s)%nat /\ (l <> [] -> (length r < length s)%nat) /\
  (hit = false -> n <> O -> l <> []) /\ (hit = true -> r = []).
Proof.
  revert s. induction n as [|n IH]; intros [|c s]; cbn [take_line]; try (split_and!; [lia|done..]).
  case_decide; [simpl; split_and!; [lia|lia|done|done]|].
  specialize (IH s). destruct (take_line n s) as [[l r] hit]. destruct IH as (? & _ & _ & ?). simpl.
  split_and!; [lia|lia|done|done].
Qed.

#[local] Arguments LINE_MAX : simpl never.
Lemma fgets_n_progress n st r st' : n <> O -> fgets_n n st = (r, st') ->
  (length (rest st') <= length (rest st))%nat /\
  (is_Some r -> (length (rest st') < length (rest st))%nat) /\
  (r = None -> eof st' = false -> eof st = false) /\ (eof st = true -> eof st' = true).
Proof.
  intros Hn. unfold fgets_n. pose proof (take_line_length n (rest st)) as H.
  destruct (take_line n (rest st)) as [[l rs] hit]. destruct H as (H1 & H2 & H3 & H4). destruct hit.
  - destruct (failing st); [intros [= <- <-]; split_and!; simpl; [done|by intros []|done|done]|].
    destruct l; intros [= <- <-]; split_and!; simpl; try done. intros _. by apply H2.
  - intros [= <- <-]. split_and!; simpl; try done. intros _. by apply H2, H3.
Qed.
Lemma fgets_progress st r st' : fgets st = (r, st') ->
  (length (rest st') <= length (rest st))%nat /\
  (is_Some r -> (length (rest st') < length (rest st))%nat) /\
  (r = None -> eof st' = false -> eof st = false) /\ (eof st = true -> eof st' = true).
Proof. by apply fgets_n_progress. Qed.

(** What the reading code leaves of the file is no more than there was. *)
Definition shrinks (st st' : stream) : Prop :=
  (length (rest st') <= length (rest st))%nat /\ (eof st = true -> eof st' = true).
#[local] Instance shrinks_preorder : PreOrder shrinks.
Proof. split; [done|]. intros x y z [] []. split; [lia|auto]. Qed.
Lemma fgets_shrinks st r st' : fgets st = (r, st') -> shrinks st st'.
Proof. intros (? & _ & _ & ?)%fgets_progress. done. Qed.

Lemma read_next_shrinks line st line' st' : read_next line st = Next (line', st') -> shrinks st st'.
Proof.
  unfold read_next. destruct (fgets st) as [[l|] s] eqn:E; [|destruct (eof s); [|done]]; intros [= _ <-]; by eapply fgets_shrinks.
Qed.
Lemma read_all_total fuel line st : (length (rest st) < fuel)%nat ->
  match read_all fuel line st with Next (_, _, st') => shrinks st st' | Error _ => True | NoFuel => False end.
Proof.
  revert line st. induction fuel as [|fuel IH]; intros line st Hf; cbn [read_all]; [lia|].
  destruct (fgets st) as [[l|] st'] eqn:E; [|destruct (eof st'); [by eapply fgets_shrinks|done]].
  pose proof (fgets_shrinks _ _ _ E). apply fgets_progress in E as (_ & Hlt & _ & _). specialize (Hlt ltac:(eauto)).
  destruct (strip l) as [|c l'] eqn:El; [done|]. specialize (IH (c :: l') st' ltac:(lia)).
  destruct (read_all fuel (c :: l') st') as [[[ls ln] s]| |]; [by etrans|done..].
Qed.

Definition ends {E} (st : stream) (m : res E rd) : Prop :=
  match m with Next s => shrinks st (rd_st s) | Error _ => True | NoFuel => False end.
Lemma store_ends s f : ends (rd_st s) (store s f).
Proof.
  unfold store. destruct (read_next _ _) as [[line st]| |] eqn:E; simpl; [by eapply read_next_shrinks|done|].
  unfold read_next in E. destruct (fgets _) as [[|] s']; [|destruct (eof s')]; discriminate.
Qed.
Lemma read_lines_total s : match read_lines s with Next (_, _, st') => shrinks (rd_st s) st' | Error _ => True | NoFuel => False end.
Proof. apply read_all_total. lia. Qed.
Lemma store_all_ends s f : ends (rd_st s) (store_all s f).
Proof. unfold store_all. pose proof (read_lines_total s) as H. by destruct (read_lines s) as [[[l line] st]| |]. Qed.
Lemma store_after_ends s f : (forall l i, f l i <> NoFuel) -> ends (rd_st s) (store_after s f).
Proof.
  intros Hf. unfold store_after. pose proof (read_lines_total s) as H. destruct (read_lines s) as [[[l line] st]| |]; [|done..].
  specialize (Hf l (rd_info s)). by destruct (f l (rd_info s)).
Qed.
Lemma add_xdata_ends l i : add_xdata l i <> NoFuel.
Proof. revert i. induction l as [|x l IH]; intros i; cbn [add_xdata]; [done|]. by destruct (Package.pkg_parse_xdata _). Qed.
#[local] Hint Resolve store_ends store_all_ends store_after_ends add_xdata_ends : core.
Lemma read_key_ends k s : ends (rd_st s) (read_key k s).
Proof. destruct k; cbn [read_key]; auto; by apply store_after_ends. Qed.

Lemma dispatch_ends s : ends (rd_st s) (dispatch s).
Proof. unfold dispatch. destruct (rd_line s); [done|apply read_key_ends]. Qed.

(** A round of the loop reads something, meets the end of the file, or fails. *)
Lemma desc_step_ends s :
  match desc_step s with
  | Next s' => (length (rest (rd_st s')) < length (rest (rd_st s)))%nat \/ eof (rd_st s') = true
  | Error _ => True
  | NoFuel => False
  end.
Proof.
  unfold desc_step. destruct (fgets (rd_st s)) as [r st] eqn:E. apply fgets_progress in E as (_ & Hlt & _ & _).
  pose proof (dispatch_ends (Rd (strip (default (rd_line s) r)) st (rd_info s))) as H.
  destruct r as [l|]; [|destruct (eof st) eqn:Ee; [|done]].
  - destruct (dispatch _) as [s'| |]; [|done..]. destruct H as [H _]. specialize (Hlt ltac:(eauto)). simpl in H. left. lia.
  - destruct (dispatch _) as [s'| |]; [|done..]. destruct H as [_ H]. right. auto.
Qed.
Lemma desc_loop_total fuel s : (length (rest (rd_st s)) < fuel)%nat -> desc_loop fuel s <> NoFuel.
Proof.
  revert s. induction fuel as [|fuel IH]; intros s Hf; [lia|]. cbn [desc_loop]. destruct (eof (rd_st s)); [done|].
  pose proof (desc_step_ends s) as H. destruct (desc_step s) as [s'| |]; [|done..]. cbn [bind].
  destruct H as [H|H]; [apply IH; lia|]. destruct fuel; cbn [desc_loop]; by rewrite H.
Qed.

Lemma read_block_total fuel st : (length (rest st) < fuel)%nat ->
  exists ls st', read_block fuel st = Some (ls, st') /\ (length (rest st') <= length (rest st))%nat.
Proof.
  revert st. induction fuel as [|fuel IH]; intros st Hf; cbn [read_block]; [lia|].
  destruct (fgets st) as [[l|] st'] eqn:E; apply fgets_progress in E as (Hle & Hlt & _ & _); [|by eauto].
  specialize (Hlt ltac:(eauto)). destruct (strip l) as [|c l']; [by eauto|].
  destruct (IH st') as (ls & st2 & -> & H); [lia|]. simpl. eexists _, _. split; [done|lia].
Qed.
Lemma files_loop_total fuel st fi : (length (rest st) < fuel)%nat -> is_Some (files_loop fuel st fi).
Proof.
  revert st fi. induction fuel as [|fuel IH]; intros st fi Hf; cbn [files_loop]; [lia|].
  destruct (fgets st) as [[l|] st'] eqn:E; apply fgets_progress in E as (Hle & Hlt & _ & _); [|by eauto].
  specialize (Hlt ltac:(eauto)). destruct (read_block_total (S (S (length (rest st')))) st') as (ls & st2 & -> & H); [lia|].
  simpl. destruct (_ =? 0); [apply IH; lia|]. destruct (_ =? 0); apply IH; lia.
Qed.


(** *** Loading on demand *)

Lemma on_bit f k : 0 <= k -> on f (2 ^ k) = Z.testbit f k.
Proof.
  intros Hk. unfold on. destruct (Z.testbit f k) eqn:E.
  - apply negb_true_iff, Z.eqb_neq. intros H. assert (Z.testbit (Z.land f (2 ^ k)) k = false) as Hb by (by rewrite H, Z.bits_0).
    by rewrite Z.land_spec, Z.pow2_bits_true, E in Hb.
  - apply negb_false_iff, Z.eqb_eq. apply Z.bits_inj'. intros j Hj. rewrite Z.land_spec, Z.bits_0, Z.pow2_bits_eqb by done.
    destruct (Z.eqb_spec k j); [subst; by rewrite E|apply andb_false_r].
Qed.
Lemma on_lor f g k : 0 <= k -> on (Z.lor f g) (2 ^ k) = on f (2 ^ k) || on g (2 ^ k).
Proof. intros Hk. by rewrite !on_bit, Z.lor_spec. Qed.
Lemma on_land f g k : 0 <= k -> on (Z.land f g) (2 ^ k) = on f (2 ^ k) && on g (2 ^ k).
Proof. intros Hk. by rewrite !on_bit, Z.land_spec. Qed.
Lemma land_pow f k : 0 <= k -> Z.land f (2 ^ k) = if on f (2 ^ k) then 2 ^ k else 0.
Proof.
  intros Hk. rewrite on_bit by done. apply Z.bits_inj'. intros j Hj. rewrite Z.land_spec, Z.pow2_bits_eqb by done.
  destruct (Z.eqb_spec k j) as [->|Hn].
  - destruct (Z.testbit f j) eqn:E; simpl; [by rewrite Z.pow2_bits_true|by rewrite Z.bits_0].
  - rewrite andb_false_r. destruct (Z.testbit f k); [by rewrite Z.pow2_bits_false|by rewrite Z.bits_0].
Qed.

Lemma lor_land_absorb a b : Z.lor a (Z.land a b) = a.
Proof. apply Z.bits_inj'. intros j Hj. rewrite Z.lor_spec, Z.land_spec. by destruct (Z.testbit a j). Qed.

(** A part that is not asked for or already there is not read. *)
Lemma load_skip {A} inforeq bit level (old : A) read :
  (on inforeq bit = true -> on level bit = true) -> load (on inforeq bit) bit level old read = Some (true, old, level).
Proof. unfold load. intros H. destruct (on inforeq bit); [by rewrite H|done]. Qed.
Lemma load_cases {A} inforeq k level (old : A) read : 0 <= k -> (forall a, read a <> NoFuel) ->
  (exists a, load (on inforeq (2 ^ k)) (2 ^ k) level old read = Some (true, a, Z.lor level (Z.land inforeq (2 ^ k)))) \/
  (exists a, load (on inforeq (2 ^ k)) (2 ^ k) level old read = Some (false, a, Z.lor level INFRQ_ERROR) /\
    on inforeq (2 ^ k) = true /\ on level (2 ^ k) = false).
Proof.
  intros Hk Hr. unfold load. rewrite land_pow by done. destruct (on inforeq (2 ^ k)); simpl; [|left; exists old; by rewrite Z.lor_0_r].
  destruct (on level (2 ^ k)) eqn:E; simpl.
  - left. exists old. do 2 f_equal. pose proof (land_pow level k Hk) as H. rewrite E in H. by rewrite <- H, lor_land_absorb.
  - specialize (Hr old). destruct (read old) as [a|a|]; [left|right|done]; eauto.
Qed.

Lemma read_desc_total f i : read_desc f i <> NoFuel.
Proof.
  unfold read_desc. destruct (open_file f) as [st|]; [|done].
  pose proof (desc_loop_total (S (S (length (rest st)))) (Rd [] st i) ltac:(simpl; lia)). by destruct (desc_loop _ _).
Qed.
Lemma read_files_total f fi : read_files f fi <> NoFuel.
Proof.
  unfold read_files. destruct (open_file f) as [st|]; [|done].
  destruct (files_loop_total (S (S (length (rest st)))) st fi ltac:(lia)) as [[? ?] ->]. done.
Qed.

(** The bits of [inforeq] that [local_db_read] can load. *)
Definition LOADABLE : Z := Z.lor (Z.lor INFRQ_DESC INFRQ_FILES) INFRQ_SCRIPTLET.
Lemma read_nothing e inforeq p :
  on (l_infolevel p) INFRQ_ERROR = false -> Z.land (l_infolevel p) (Z.land inforeq LOADABLE) = Z.land inforeq LOADABLE ->
  local_db_read e inforeq p = Some (0, p).
Proof.
  intros He Hl.
  assert (forall k, 0 <= k -> on LOADABLE (2 ^ k) = true -> on inforeq (2 ^ k) = true -> on (l_infolevel p) (2 ^ k) = true) as Hb.
  { intros k Hk H1 H2. assert (on (Z.land (l_infolevel p) (Z.land inforeq LOADABLE)) (2 ^ k) = true) as H by (by rewrite Hl, on_land, H1, H2).
    rewrite on_land in H by done. by bool_hyps. }
  unfold local_db_read. destruct (_ =? _); [done|]. rewrite He.
  rewrite load_skip by (by apply (Hb 1)). simpl. rewrite load_skip by (by apply (Hb 2)). simpl.
  destruct (on inforeq INFRQ_SCRIPTLET) eqn:E; simpl; [apply (Hb 3) in E; [|done..]; change (2 ^ 3) with INFRQ_SCRIPTLET in E; rewrite E|];
    by destruct p.
Qed.
Lemma read_again e inforeq p k : 0 <= k ->
  on (l_infolevel p) INFRQ_ERROR = true -> on inforeq (2 ^ k) = true -> on (l_infolevel p) (2 ^ k) = false ->
  local_db_read e inforeq p = Some (-1, p).
Proof.
  intros Hk He Hi Hl. unfold local_db_read. rewrite He. rewrite (proj2 (Z.eqb_neq _ _)); [done|].
  intros H. pose proof (on_land (l_infolevel p) inforeq k Hk) as Ho. by rewrite H, Hi, Hl in Ho.
Qed.

Lemma on_error level : on (Z.lor level INFRQ_ERROR) INFRQ_ERROR = true.
Proof. unfold INFRQ_ERROR. by rewrite on_lor, orb_true_r. Qed.

Lemma local_db_read_cases e inforeq p :
  let level := l_infolevel p in
  (Z.land level inforeq =? inforeq) = false -> on level INFRQ_ERROR = false ->
  (exists p', local_db_read e inforeq p = Some (0, p') /\ l_infolevel p' = Z.lor level (Z.land inforeq LOADABLE)) \/
  (exists p' k, local_db_read e inforeq p = Some (-1, p') /\ 0 <= k /\ on (l_infolevel p') INFRQ_ERROR = true /\
     on inforeq (2 ^ k) = true /\ on (l_infolevel p') (2 ^ k) = false).
Proof.
  intros level E0 EE. unfold local_db_read. fold level. rewrite E0, EE.
  destruct (load_cases inforeq 1 level (l_info p) (read_desc (d_desc e))) as [[i Hd]|(i & Hd & Hw & Hn)]; [done|apply read_desc_total| |];
    change (2 ^ 1) with INFRQ_DESC in *; rewrite Hd; simpl mbind; cbn beta iota.
  2:{ right. eexists _, 1. split_and!; [done|done|apply on_error|done|]. simpl l_infolevel. rewrite on_lor by done. change (2 ^ 1) with INFRQ_DESC. by rewrite Hn. }
  destruct (load_cases inforeq 2 (Z.lor level (Z.land inforeq INFRQ_DESC)) (l_files p) (read_files (d_files e))) as [[fi Hf]|(fi & Hf & Hw & Hn)];
    [done|apply read_files_total| |]; change (2 ^ 2) with INFRQ_FILES in *; simpl negb; cbn iota; rewrite Hf; simpl mbind; cbn beta iota.
  2:{ right. eexists _, 2. split_and!; [done|done|apply on_error|done|]. simpl l_infolevel. rewrite on_lor by done. change (2 ^ 2) with INFRQ_FILES. by rewrite Hn. }
  left. eexists. split; [done|]. simpl l_infolevel. unfold LOADABLE. rewrite !Z.land_lor_distr_r, !Z.lor_assoc.
  set (l2 := Z.lor (Z.lor _ _) _). pose proof (land_pow inforeq 3 ltac:(done)) as H3. pose proof (land_pow l2 3 ltac:(done)) as H4.
  change (2 ^ 3) with INFRQ_SCRIPTLET in *. rewrite H3.
  destruct (on inforeq INFRQ_SCRIPTLET); simpl; [|by rewrite Z.lor_0_r].
  destruct (on l2 INFRQ_SCRIPTLET); simpl; [|done]. by rewrite <- H4, lor_land_absorb.
Qed.

(** [local_db_read] always returns, whatever the files hold.  On success
    exactly the requested parts were added to the level and a later request for
    them touches no file; after a failure the package is marked and the same
    request fails again, also without touching a file. *)
Theorem local_db_read_total e inforeq p :
  exists ret p', local_db_read e inforeq p = Some (ret, p') /\
    (ret = 0 /\ l_infolevel p' = Z.lor (l_infolevel p) (Z.land inforeq LOADABLE) /\
       (forall e', local_db_read e' inforeq p' = Some (0, p')) \/
     ret = -1 /\ on (l_infolevel p') INFRQ_ERROR = true /\ (forall e', local_db_read e' inforeq p' = Some (-1, p'))).
Proof.
  destruct (Z.land (l_infolevel p) inforeq =? inforeq) eqn:E0.
  { exists 0, p. unfold local_db_read. rewrite E0. split; [done|]. left. split_and!; [done| |done].
    apply Z.eqb_eq in E0. rewrite <- E0 at 1. by rewrite <- Z.land_assoc, lor_land_absorb. }
  destruct (on (l_infolevel p) INFRQ_ERROR) eqn:EE.
  { exists (-1), p. unfold local_db_read. rewrite E0, EE. split; [done|]. by right. }
  destruct (local_db_read_cases e inforeq p E0 EE) as [(p' & -> & Hl)|(p' & k & -> & Hk & He & Hi & Hn)].
  - exists 0, p'. split; [done|]. left. split_and!; [done..|]. intros e'. apply read_nothing; rewrite Hl.
    + unfold INFRQ_ERROR in *. rewrite on_lor, on_land, EE by done. apply andb_false_r.
    + apply Z.bits_inj'. intros j Hj. rewrite Z.land_spec, Z.lor_spec. destruct (Z.testbit (Z.land inforeq LOADABLE) j); [by rewrite orb_true_r|apply andb_false_r].
  - exists (-1), p'. split; [done|]. right. split_and!; [done..|]. intros e'. by apply (read_again _ _ _ k).
Qed.

(** ** What is written is read back *)

(** A line the reader's buffer holds whole. *)
Definition text (s : cstr) : Prop := NL ∉ s /\ NUL ∉ s /\ (length s < LINE_MAX)%nat.
#[global] Instance text_dec s : Decision (text s).
Proof. unfold text. apply _. Defined.
(** A line of a list: an empty one would end the list. *)
Definition item (s : cstr) : Prop := text s /\ s <> [].
#[global] Instance item_dec s : Decision (item s).
Proof. unfold item. apply _. Defined.

Lemma take_line_text n s r : NL ∉ s -> (length s < n)%nat -> take_line n (line_of s ++ r) = (line_of s, r, false).
Proof.
  unfold line_of. revert n. induction s as [|c s IH]; intros [|n] Hs Hn; simpl in *; try lia; [done|].
  apply not_elem_of_cons in Hs as [Hc Hs]. rewrite decide_False by done. rewrite IH; [done|done|lia].
Qed.
Lemma before_absent c s : c ∉ s -> Util.before c s = s.
Proof. intros H. unfold Util.before. apply strchr_None in H. by rewrite H. Qed.
Lemma fgets_n_text n s r f e : NL ∉ s -> NUL ∉ s -> (length s < n)%nat -> fgets_n n (Stream (line_of s ++ r) f e) = (Some (line_of s), Stream r f e).
Proof.
  intros Hnl Hnul Hl. unfold fgets_n. cbn [rest]. rewrite take_line_text by done. cbn [failing eof].
  rewrite before_absent; [done|]. unfold line_of. rewrite elem_of_app. intros [?|H]; [done|]. by apply list_elem_of_singleton in H.
Qed.
Lemma fgets_text s r f e : text s -> fgets (Stream (line_of s ++ r) f e) = (Some (line_of s), Stream r f e).
Proof. intros (Hnl & Hnul & Hl). by apply fgets_n_text. Qed.
Lemma strip_line s : NL ∉ s -> strip (line_of s) = s.
Proof.
  intros H. unfold strip, strip_newline, line_of. destruct (s ++ [NL]) eqn:E; [by destruct s|]. rewrite <- E. clear E. cbn [Nat.eqb].
  rewrite length_app, Nat.add_1_r. cbn [strip_newline_len fst]. rewrite list_lookup_middle by done. rewrite decide_True by done.
  destruct s as [|c s] using rev_ind; [done|]. rewrite length_app, Nat.add_1_r. cbn [strip_newline_len].
  rewrite lookup_app_l by (rewrite length_app; simpl; lia). rewrite list_lookup_middle by done.
  rewrite decide_False by (intros [= ->]; set_solver). cbn [fst]. rewrite take_app_le by (rewrite length_app; simpl; lia).
  apply take_ge. rewrite length_app. simpl. lia.
Qed.
Lemma text_nil : text [].
Proof. by_decide. Qed.
Lemma line_length s : length (line_of s) = S (length s).
Proof. unfold line_of. rewrite length_app. simpl. lia. Qed.

(** *** The desc file *)

(** The loop gets from [s] to [s'], with fuel to spare. *)
Definition runs (s s' : rd) : Prop :=
  forall fuel, (length (rest (rd_st s)) < fuel)%nat ->
    exists fuel', (length (rest (rd_st s')) < fuel')%nat /\ desc_loop fuel s = desc_loop fuel' s'.
#[local] Instance runs_preorder : PreOrder runs.
Proof.
  split; [intros s fuel H; eauto|]. intros x y z Hxy Hyz fuel H. destruct (Hxy _ H) as (f1 & H1 & ->). destruct (Hyz _ H1) as (f2 & H2 & ->). eauto.
Qed.
Lemma runs_step s s' : eof (rd_st s) = false -> desc_step s = Next s' -> (length (rest (rd_st s')) < length (rest (rd_st s)))%nat -> runs s s'.
Proof.
  intros He Hs Hl fuel Hf. destruct fuel as [|fuel]; [lia|]. exists fuel. split; [lia|]. cbn [desc_loop]. by rewrite He, Hs.
Qed.

Definition at_line (r : cstr) (line : cstr) (i : info) : rd := Rd line (Stream r false false) i.
(** Reading the piece [sec] of a file updates the package with [f]. *)
Definition reads (sec : cstr) (f : info -> info) : Prop := forall r i, runs (at_line (sec ++ r) [] i) (at_line r [] (f i)).
Lemma reads_app a b f g : reads a f -> reads b g -> reads (a ++ b) (fun i => g (f i)).
Proof. intros Ha Hb r i. rewrite <- app_assoc. etrans; [apply Ha|apply Hb]. Qed.

Lemma runs_key k r line i s' : text (lit k) -> lit k <> [] ->
  read_key (key_of (lit k)) (at_line r (lit k) i) = Next s' -> (length (rest (rd_st s')) <= length r)%nat ->
  runs (at_line (line_of (lit k) ++ r) line i) s'.
Proof.
  intros Ht Hne Hk Hl. apply runs_step; [done| |cbn [at_line rd_st rest]; rewrite length_app, line_length; lia].
  unfold desc_step, at_line. cbn [rd_st rd_line rd_info]. rewrite fgets_text by done. cbn [from_option id eof].
  rewrite strip_line by apply Ht. unfold dispatch. cbn [rd_line]. by destruct (lit k).
Qed.
Lemma runs_blank r line i : runs (at_line (NL :: r) line i) (at_line r [] i).
Proof.
  apply runs_step; [done| |simpl; lia]. unfold desc_step, at_line. cbn [rd_st].
  pose proof (fgets_text [] r false false text_nil) as E. cbn in E. by rewrite E.
Qed.

Lemma reads_value k v f : text (lit k) -> lit k <> [] -> text v ->
  (forall s, read_key (key_of (lit k)) s = store s f) -> reads (section k [v]) (f v).
Proof.
  intros Ht Hne Hv Hk r i. unfold section. cbn [mbind list_bind]. rewrite app_nil_r, <- !app_assoc.
  etrans; [apply runs_key with (s' := at_line ([NL] ++ r) v (f v i)); [done..| |]|apply runs_blank].
  - rewrite Hk. unfold store, read_next, at_line. cbn [rd_st rd_line rd_info]. rewrite fgets_text by done. by rewrite strip_line by apply Hv.
  - cbn [at_line rd_st rest]. rewrite !length_app. simpl. lia.
Qed.

Lemma read_all_lines ls r f e : Forall item ls ->
  forall fuel line, (length (rest (Stream ((ls ≫= line_of) ++ [NL] ++ r) f e)) < fuel)%nat ->
  read_all fuel line (Stream ((ls ≫= line_of) ++ [NL] ++ r) f e) = Next (ls, [], Stream r f e).
Proof.
  induction 1 as [|s ls [Hs Hne] _ IH]; intros fuel line Hf.
  - destruct fuel as [|fuel]; [simpl in Hf; lia|]. cbn [mbind list_bind app read_all].
    pose proof (fgets_text [] r f e text_nil) as E. cbn in E. by rewrite E.
  - destruct fuel as [|fuel]; [simpl in Hf; lia|]. cbn [mbind list_bind rest] in *. rewrite <- app_assoc in *. cbn [read_all].
    rewrite fgets_text, strip_line by (done || apply Hs). destruct s as [|c s]; [done|].
    rewrite length_app, line_length in Hf. rewrite IH by (cbn [rest]; lia). done.
Qed.
Lemma reads_lines k ls f : text (lit k) -> lit k <> [] -> Forall item ls ->
  (forall s r i, read_lines s = Next (ls, [], Stream r false false) -> rd_info s = i ->
     read_key (key_of (lit k)) s = Next (at_line r [] (f i))) -> reads (section k ls) f.
Proof.
  intros Ht Hne Hls Hk r i. unfold section. rewrite <- !app_assoc.
  apply runs_key; [done..| |cbn [at_line rd_st rest]; rewrite !length_app; lia].
  apply (Hk _ r i); [|done]. unfold read_lines, at_line. cbn [rd_st rd_line]. apply read_all_lines; [done|]. simpl. lia.
Qed.
Lemma reads_list k ls f : text (lit k) -> lit k <> [] -> Forall item ls ->
  (forall s, read_key (key_of (lit k)) s = store_all s f) -> (forall i, f [] i = i) -> reads (list_section k ls) (f ls).
Proof.
  intros Ht Hne Hls Hk Hnil. destruct ls as [|s ls]; [intros r i; by rewrite Hnil|].
  apply reads_lines; [done..|]. intros s' r i Hr <-. rewrite Hk. unfold store_all. by rewrite Hr.
Qed.

Lemma reads_strings k ls (set : list cstr -> info -> info) (get : info -> list cstr) : text (lit k) -> lit k <> [] ->
  Forall item ls -> (forall s, read_key (key_of (lit k)) s = store_all s (fun l i => set (get i ++ l) i)) ->
  (forall i, set (get i) i = i) -> reads (list_section k ls) (fun i => set (get i ++ ls) i).
Proof.
  intros Ht Hne Hls Hk Hg. apply (reads_list k ls (fun l i => set (get i ++ l) i)); [done..|]. intros i. by rewrite app_nil_r.
Qed.
Lemma reads_opt k v (set : option cstr -> info -> info) (get : info -> option cstr) : text (lit k) -> lit k <> [] ->
  from_option text True v -> (forall s, read_key (key_of (lit k)) s = store s (fun line => set (Some line))) ->
  (forall i, set (get i) i = i) -> reads (opt_section k v) (fun i => set (match v with Some _ => v | None => get i end) i).
Proof.
  intros Ht Hne Hv Hk Hg. destruct v as [v|]; cbn [opt_section]; [by apply (reads_value k v (fun line => set (Some line)))|].
  intros r i. by rewrite Hg.
Qed.

Lemma print_loop_length fuel n acc : (length (Util.print_loop fuel n acc) <= fuel + length acc)%nat.
Proof.
  revert n acc. induction fuel as [|fuel IH]; intros n acc; cbn [Util.print_loop]; [lia|].
  destruct (_ =? 0); [simpl; lia|]. etrans; [apply IH|]. simpl. lia.
Qed.
Lemma digits_text ds : Version.digits ds -> NL ∉ ds /\ NUL ∉ ds.
Proof. intros H. unfold Version.digits in H. rewrite Forall_forall in H. split; intros Hin%H; discriminate. Qed.
Lemma print_d_text z : - 2 ^ 64 < z < 2 ^ 64 -> text (Util.print_d z).
Proof.
  intros Hz. unfold text, Util.print_d, LINE_MAX. pose proof (print_loop_length 20 z []). pose proof (print_loop_length 20 (- z) []).
  destruct (Z.ltb_spec z 0); cbn [length] in *.
  - destruct (Util.print_u_spec (- z)) as (_ & [? ?]%digits_text & _); [lia|].
    split_and!; [by apply not_elem_of_cons..|]. unfold Util.print_u. cbn [length]. lia.
  - destruct (Util.print_u_spec z) as (_ & [? ?]%digits_text & _); [lia|]. split_and!; [done..|]. unfold Util.print_u. lia.
Qed.
Lemma reads_num {A} k z (read : cstr -> A) (set : A -> info -> info) (get : info -> A) : text (lit k) -> lit k <> [] ->
  - 2 ^ 64 < z < 2 ^ 64 -> (forall s, read_key (key_of (lit k)) s = store s (fun line => set (read line))) ->
  (forall i, set (get i) i = i) -> reads (num_section k z) (fun i => set (if z =? 0 then get i else read (Util.print_d z)) i).
Proof.
  intros Ht Hne Hz Hk Hg. unfold num_section. destruct (z =? 0); [intros r i; by rewrite Hg|].
  apply (reads_value k (Util.print_d z) (fun line => set (read line))); [done..|by apply print_d_text|done].
Qed.

(** A dependency that is printed on one line and read back. *)
Definition dep_writable (d : depend) : Prop := Deps.dep_printable d /\ item (Deps.dep_compute_string d).
#[global] Instance dep_writable_dec d : Decision (dep_writable d).
Proof. unfold dep_writable. apply _. Defined.
Lemma reads_deps k ds (set : list depend -> info -> info) (get : info -> list depend) : text (lit k) -> lit k <> [] ->
  Forall dep_writable ds ->
  (forall s, read_key (key_of (lit k)) s = store_all s (fun l i => set (get i ++ (Deps.dep_from_string <$> l)) i)) ->
  (forall i, set (get i) i = i) -> reads (write_deps k ds) (fun i => set (get i ++ ds) i).
Proof.
  intros Ht Hne Hds Hk Hg.
  assert (Deps.dep_from_string <$> (Deps.dep_compute_string <$> ds) = ds) as E.
  { induction Hds as [|d ds [Hd _] _ IH]; cbn [fmap list_fmap]; [done|]. rewrite Deps.dep_read_back by done. by f_equal. }
  cut (reads (write_deps k ds) (fun i => set (get i ++ (Deps.dep_from_string <$> (Deps.dep_compute_string <$> ds))) i)); [by rewrite E|].
  apply (reads_list k _ (fun l i => set (get i ++ (Deps.dep_from_string <$> l)) i)); [done..| |done|intros i; by rewrite app_nil_r].
  apply Forall_fmap. eapply Forall_impl; [exact Hds|]. by intros d [_ ?].
Qed.

Lemma reads_validation v :
  reads (if v =? 0 then [] else section "%VALIDATION%" (validation_lines v))
        (fun i => set_validation (fold_left add_validation (validation_lines v) (i_validation i)) i).
Proof.
  destruct (Z.eqb_spec v 0) as [->|_]; [intros r i; by destruct i|]. apply reads_lines; [by_decide|done| |].
  - unfold validation_lines. repeat apply Forall_app_2; destruct (on v _); repeat constructor; by_decide || done.
  - intros s r i Hr <-. change (key_of (lit "%VALIDATION%")) with K_VALIDATION. cbn [read_key]. unfold store_after. by rewrite Hr.
Qed.
Lemma validation_read v : Z.land v 13 = v -> fold_left add_validation (validation_lines v) 0 = v.
Proof.
  intros E. unfold validation_lines. rewrite <- E at 4. change 13 with (Z.lor (Z.lor (2 ^ 0) (2 ^ 2)) (2 ^ 3)).
  rewrite !Z.land_lor_distr_r, !land_pow by lia. change (2 ^ 0) with VALIDATION_NONE. change (2 ^ 2) with VALIDATION_SHA256SUM.
  change (2 ^ 3) with VALIDATION_SIGNATURE. by destruct (on v VALIDATION_NONE), (on v VALIDATION_SHA256SUM), (on v VALIDATION_SIGNATURE).
Qed.

(** Extra data whose name has no equals sign. *)
Definition xdata_writable (x : xdata) : Prop := "="%char ∉ x_name x /\ item (xdata_line x).
#[global] Instance xdata_writable_dec x : Decision (xdata_writable x).
Proof. unfold xdata_writable. apply _. Defined.
Lemma parse_xdata_line x : "="%char ∉ x_name x -> Package.pkg_parse_xdata (Some (xdata_line x)) = Some x.
Proof.
  intros Hx. unfold Package.pkg_parse_xdata, xdata_line. rewrite strchr_app by done.
  rewrite length_app, Nat.add_sub, take_app_length. by destruct x.
Qed.
Lemma add_xdata_lines xs i : Forall xdata_writable xs -> add_xdata (xdata_line <$> xs) i = Next (set_xdata (i_xdata i ++ xs) i).
Proof.
  intros H. revert i. induction H as [|x xs [Hx _] _ IH]; intros i; cbn [fmap list_fmap add_xdata]; [rewrite app_nil_r; by destruct i|].
  rewrite parse_xdata_line, IH by done. destruct i. cbn [i_xdata set_xdata]. by rewrite <- app_assoc.
Qed.
Lemma reads_xdata xs : Forall xdata_writable xs -> reads (list_section "%XDATA%" (xdata_line <$> xs)) (fun i => set_xdata (i_xdata i ++ xs) i).
Proof.
  intros Hx. assert (Forall item (xdata_line <$> xs)) by (apply Forall_fmap; eapply Forall_impl; [exact Hx|by intros ? [_ ?]]).
  destruct xs as [|x xs]; [intros r i; rewrite app_nil_r; by destruct i|]. apply reads_lines; [by_decide|done|done|].
  intros s r i Hr <-. change (key_of (lit "%XDATA%")) with K_XDATA. cbn [read_key]. unfold store_after.
  rewrite Hr. by rewrite add_xdata_lines.
Qed.

(** What the format can hold: values on one line that fits the buffer, lists
    without empty entries, 64-bit dates, sizes that are not negative, the three
    known kinds of validation, no make and check dependencies. *)
Definition int64 (z : Z) : Prop := Util.LLONG_MIN <= z <= Util.LLONG_MAX.
#[global] Instance int64_dec z : Decision (int64 z).
Proof. unfold int64. apply _. Defined.
Definition info_writable (i : info) : Prop :=
  Forall (from_option text True) [i_base i; i_desc i; i_url i; i_arch i; i_packager i] /\
  Forall int64 [i_builddate i; i_installdate i; i_isize i] /\ 0 <= i_isize i /\
  Forall item (i_groups i ++ i_licenses i) /\ Z.land (i_validation i) 13 = i_validation i /\
  Forall dep_writable (i_replaces i ++ i_depends i ++ i_optdepends i ++ i_conflicts i ++ i_provides i) /\
  i_makedepends i = [] /\ i_checkdepends i = [] /\ Forall xdata_writable (i_xdata i).
#[global] Instance info_writable_dec i : Decision (info_writable i).
Proof.
  assert (forall o : option cstr, Decision (from_option text True o)) by (intros []; simpl; apply _).
  unfold info_writable. apply _.
Defined.

Ltac key_conditions := first [assumption | discriminate | intros s; reflexivity | intros []; reflexivity | by_decide].
Lemma reads_step a b f i i' s : reads a f -> f i = i' -> runs (at_line b [] i') s -> runs (at_line (a ++ b) [] i) s.
Proof. intros Ha <- Hb. etrans; [apply Ha|done]. Qed.
Ltac section_with lemma :=
  eapply reads_step; [apply lemma; key_conditions
                     |lazy beta iota delta [set_xdata set_provides set_conflicts set_optdepends set_depends set_replaces set_validation
                        set_licenses set_groups set_reason set_isize set_packager set_installdate set_builddate set_arch set_url
                        set_desc set_base i_base i_desc i_groups i_url i_licenses i_arch i_builddate i_installdate i_packager
                        i_reason i_validation i_isize i_replaces i_depends i_optdepends i_makedepends i_checkdepends i_conflicts
                        i_provides i_xdata app]; reflexivity|].
Lemma write_desc_runs p : text (l_name p) -> text (l_version p) -> info_writable (l_info p) ->
  runs (at_line (write_desc p) [] fresh_info) (at_line [] [] (l_info p)).
Proof.
  destruct p as [n v [ba de gr ur li ar bd idt pa re va sz rp dp op mk ck cf pr xd] fi sc lv].
  unfold info_writable, int64, Util.LLONG_MIN, Util.LLONG_MAX, write_desc, fresh_info.
  cbn [l_name l_version l_info i_base i_desc i_groups i_url i_licenses i_arch i_builddate i_installdate i_packager i_reason
    i_validation i_isize i_replaces i_depends i_optdepends i_makedepends i_checkdepends i_conflicts i_provides i_xdata].
  rewrite !Forall_cons, !Forall_app.
  intros Hn Hv ((Hb & Hde & Hu & Ha & Hp & _) & (Hbd & Hid & His & _) & Hs & [Hg Hli] & Hva & (Hr & Hdep & Hopt & Hcf & Hpr) & -> & -> & Hx).
  assert (Hbd' : - 2 ^ 64 < bd < 2 ^ 64) by lia. assert (Hid' : - 2 ^ 64 < idt < 2 ^ 64) by lia. assert (His' : - 2 ^ 64 < sz < 2 ^ 64) by lia.
  assert (Hre : - 2 ^ 64 < reason_value re < 2 ^ 64) by (by destruct re).
  section_with (reads_value "%NAME%" n (fun _ i => i)). section_with (reads_value "%VERSION%" v (fun _ i => i)).
  section_with (reads_opt "%BASE%" ba set_base i_base). section_with (reads_opt "%DESC%" de set_desc i_desc).
  section_with (reads_opt "%URL%" ur set_url i_url). section_with (reads_opt "%ARCH%" ar set_arch i_arch).
  section_with (reads_num "%BUILDDATE%" bd Util.parsedate set_builddate i_builddate).
  section_with (reads_num "%INSTALLDATE%" idt Util.parsedate set_installdate i_installdate).
  section_with (reads_opt "%PACKAGER%" pa set_packager i_packager).
  section_with (reads_num "%SIZE%" sz Util.strtoofft set_isize i_isize).
  section_with (reads_num "%REASON%" (reason_value re) read_pkgreason set_reason i_reason).
  section_with (reads_strings "%GROUPS%" gr set_groups i_groups). section_with (reads_strings "%LICENSE%" li set_licenses i_licenses).
  section_with (reads_validation va).
  section_with (reads_deps "%REPLACES%" rp set_replaces i_replaces). section_with (reads_deps "%DEPENDS%" dp set_depends i_depends).
  section_with (reads_deps "%OPTDEPENDS%" op set_optdepends i_optdepends).
  section_with (reads_deps "%CONFLICTS%" cf set_conflicts i_conflicts). section_with (reads_deps "%PROVIDES%" pr set_provides i_provides).
  rewrite <- (app_nil_r (list_section _ _)). section_with (reads_xdata xd).
  assert (forall o : option cstr, match o with Some _ => o | None => None end = o) as Eo by (by intros []).
  rewrite !Eo, validation_read by done.
  assert ((if bd =? 0 then 0 else Util.parsedate (Util.print_d bd)) = bd) as ->
    by (destruct (Z.eqb_spec bd 0); [done|by apply Util.parsedate_print]).
  assert ((if idt =? 0 then 0 else Util.parsedate (Util.print_d idt)) = idt) as ->
    by (destruct (Z.eqb_spec idt 0); [done|by apply Util.parsedate_print]).
  assert ((if sz =? 0 then 0 else Util.strtoofft (Util.print_d sz)) = sz) as ->
    by (destruct (Z.eqb_spec sz 0); [done|apply Util.strtoofft_print; unfold Util.LLONG_MAX; lia]).
  by destruct re.
Qed.

Lemma read_desc_write p : text (l_name p) -> text (l_version p) -> info_writable (l_info p) ->
  read_desc (Some (write_desc p, false)) fresh_info = Next (l_info p).
Proof.
  intros Hn Hv Hi. pose proof (write_desc_runs p Hn Hv Hi) as Hf. unfold read_desc, open_file. cbn [rest]. unfold at_line in Hf.
  destruct (Hf (S (S (length (write_desc p))))) as (fuel & Hl & ->); [simpl; lia|].
  destruct fuel as [|fuel]; [simpl in Hl; lia|]. cbn. by destruct fuel.
Qed.

(** *** The files file *)

Lemma read_block_lines ls r f e : Forall item ls ->
  forall fuel, (length (rest (Stream ((ls ≫= line_of) ++ [NL] ++ r) f e)) < fuel)%nat ->
  read_block fuel (Stream ((ls ≫= line_of) ++ [NL] ++ r) f e) = Some (ls, Stream r f e).
Proof.
  induction 1 as [|s ls [Hs Hne] _ IH]; intros fuel Hf; (destruct fuel as [|fuel]; [simpl in Hf; lia|]).
  - cbn [mbind list_bind app read_block]. pose proof (fgets_text [] r f e text_nil) as E. cbn in E. by rewrite E.
  - cbn [mbind list_bind rest] in *. rewrite <- app_assoc in *. cbn [read_block].
    rewrite fgets_text, strip_line by (done || apply Hs). destruct s as [|c s]; [done|].
    rewrite length_app, line_length in Hf. rewrite IH by (cbn [rest]; lia). done.
Qed.

Definition backup_writable (b : backup) : Prop := is_Some (b_hash b) /\ ascii_of_nat 9 ∉ b_name b /\ item (backup_line b).
#[global] Instance backup_writable_dec b : Decision (backup_writable b).
Proof. unfold backup_writable. apply _. Defined.
(** The entry holds the names of the files only, sorted. *)
Definition file_writable (f : file) : Prop := item (f_name f) /\ f_size f = 0 /\ f_mode f = 0.
#[global] Instance file_writable_dec f : Decision (file_writable f).
Proof. unfold file_writable. apply _. Defined.
Definition files_writable (fi : filesinfo) : Prop :=
  Forall file_writable (fi_files fi) /\ FileList.presorted (fi_files fi) = true /\ Forall backup_writable (fi_backups fi).
#[global] Instance files_writable_dec fi : Decision (files_writable fi).
Proof. unfold files_writable. apply _. Defined.

Lemma split_backup_line b : backup_writable b -> Package.split_backup (backup_line b) = b.
Proof.
  intros ([h Hh] & Ht & _). unfold Package.split_backup, backup_line. rewrite strchr_app by done.
  rewrite length_app, Nat.add_sub, take_app_length. destruct b. simpl in *. by subst.
Qed.
Lemma files_section k ls r fi fuel : text (lit k) -> Forall item ls ->
  files_loop (S fuel) (Stream (section k ls ++ r) false false) fi =
  if strcmp (lit k) (lit "%FILES%") =? 0 then
    files_loop fuel (Stream r false false) (FilesInfo (FileList.sort ((fun n => File n 0 0) <$> ls)) (fi_backups fi))
  else if strcmp (lit k) (lit "%BACKUP%") =? 0 then
    files_loop fuel (Stream r false false) (FilesInfo (fi_files fi) (fi_backups fi ++ (Package.split_backup <$> ls)))
  else files_loop fuel (Stream ((ls ≫= line_of) ++ [NL] ++ r) false false) fi.
Proof.
  intros Hk Hls. unfold section. rewrite <- !app_assoc. cbn [files_loop]. rewrite fgets_text by done. rewrite strip_line by apply Hk.
  rewrite read_block_lines; [done|done|lia].
Qed.
Lemma files_part fs bs r fuel : Forall file_writable fs -> FileList.presorted fs = true ->
  (length (list_section "%FILES%" (f_name <$> fs) ++ r) < fuel)%nat ->
  exists fuel', (length r < fuel')%nat /\
    files_loop fuel (Stream (list_section "%FILES%" (f_name <$> fs) ++ r) false false) (FilesInfo [] bs) =
    files_loop fuel' (Stream r false false) (FilesInfo fs bs).
Proof.
  intros Hf Hs Hl. destruct (decide (fs = [])) as [->|Hne]; [by exists fuel|].
  assert (Forall item (f_name <$> fs)) as Hi by (apply Forall_fmap; eapply Forall_impl; [exact Hf|by intros ? [? _]]).
  assert ((fun n => File n 0 0) <$> (f_name <$> fs) = fs) as Ef.
  { clear Hs Hl Hi Hne. induction Hf as [|[n z m] fs (_ & Hz & Hm) _ IH]; [done|]. simpl in Hz, Hm. subst. cbn. f_equal. apply IH. }
  assert (list_section "%FILES%" (f_name <$> fs) = section "%FILES%" (f_name <$> fs)) as El by (by destruct fs). rewrite El in *.
  destruct fuel as [|fuel]; [lia|]. exists fuel. rewrite length_app in Hl. split; [unfold section in Hl; rewrite length_app, line_length in Hl; lia|].
  rewrite files_section by (done || by_decide). change (strcmp (lit "%FILES%") (lit "%FILES%") =? 0) with true. cbn iota.
  unfold FileList.sort. by rewrite Ef, Hs.
Qed.
Lemma backup_part fs bs r fuel : Forall backup_writable bs ->
  (length (list_section "%BACKUP%" (backup_line <$> bs) ++ r) < fuel)%nat ->
  exists fuel', (length r < fuel')%nat /\
    files_loop fuel (Stream (list_section "%BACKUP%" (backup_line <$> bs) ++ r) false false) (FilesInfo fs []) =
    files_loop fuel' (Stream r false false) (FilesInfo fs bs).
Proof.
  intros Hb Hl. destruct (decide (bs = [])) as [->|Hne]; [by exists fuel|].
  assert (Forall item (backup_line <$> bs)) as Hi by (apply Forall_fmap; eapply Forall_impl; [exact Hb|by intros ? (_ & _ & ?)]).
  assert (Package.split_backup <$> (backup_line <$> bs) = bs) as Eb.
  { clear Hl Hi Hne. induction Hb as [|b bs Hb _ IH]; [done|]. cbn [fmap list_fmap]. rewrite split_backup_line by done. f_equal. apply IH. }
  assert (list_section "%BACKUP%" (backup_line <$> bs) = section "%BACKUP%" (backup_line <$> bs)) as El by (by destruct bs). rewrite El in *.
  destruct fuel as [|fuel]; [lia|]. exists fuel. rewrite length_app in Hl. split; [unfold section in Hl; rewrite length_app, line_length in Hl; lia|].
  rewrite files_section by (done || by_decide). change (strcmp (lit "%BACKUP%") (lit "%FILES%") =? 0) with false.
  change (strcmp (lit "%BACKUP%") (lit "%BACKUP%") =? 0) with true. cbn iota. by rewrite Eb.
Qed.
Lemma read_files_write fi : files_writable fi -> read_files (Some (write_files fi, false)) (FilesInfo [] []) = Next fi.
Proof.
  intros (Hf & Hs & Hb). destruct fi as [fs bs]. cbn [fi_files fi_backups] in *. unfold read_files, open_file, write_files.
  cbn [rest fi_files fi_backups]. destruct (files_part fs [] (list_section "%BACKUP%" (backup_line <$> bs)) _ Hf Hs (Nat.lt_lt_succ_r _ _ (Nat.lt_succ_diag_r _)))
    as (fuel & Hl & ->).
  rewrite <- (app_nil_r (list_section "%BACKUP%" _)) in *. destruct (backup_part fs bs [] fuel Hb Hl) as (fuel' & Hl' & ->).
  destruct fuel' as [|fuel']; [lia|]. done.
Qed.

(** A package whose entry the format can hold. *)
Definition writable (p : lpkg) : Prop :=
  text (l_name p) /\ text (l_version p) /\ info_writable (l_info p) /\ files_writable (l_files p).
#[global] Instance writable_dec p : Decision (writable p).
Proof. unfold writable. apply _. Defined.

(** Writing and loading again. *)
Lemma write_then_read p e (H : writable p) :
  local_db_read (local_db_write p INFRQ_ALL e) INFRQ_ALL (LPkg (l_name p) (l_version p) fresh_info (FilesInfo [] []) false 0) =
  Some (0, LPkg (l_name p) (l_version p) (l_info p) (l_files p) (d_install e) LOADABLE).
Proof.
  destruct H as (Hn & Hv & Hi & Hf). unfold local_db_write. change (on INFRQ_ALL INFRQ_DESC) with true.
  change (on INFRQ_ALL INFRQ_FILES) with true. cbn iota. unfold local_db_read. cbn [l_infolevel l_info l_files d_desc d_files d_install l_name l_version l_scriptlet].
  unfold load. change (on INFRQ_ALL INFRQ_DESC && _) with true. cbn iota. rewrite read_desc_write by done. cbn [mbind option_bind negb].
  change (on INFRQ_ALL INFRQ_FILES && _) with true. cbn iota. by rewrite read_files_write.
Qed.

(** C12: what [_klpm_local_db_write] stores, [local_db_read] brings back: for
    every package the format can hold, writing the entry and loading it into a
    package that has only name and version gives all fields again, whatever the
    entry held before, and the install script flag of the entry. *)
Theorem local_db_roundtrip p e (H : writable p) :
  local_db_read (local_db_write p INFRQ_ALL e) INFRQ_ALL (LPkg (l_name p) (l_version p) fresh_info (FilesInfo [] []) false 0) =
  Some (0, LPkg (l_name p) (l_version p) (l_info p) (l_files p) (d_install e) LOADABLE).
Proof. by apply write_then_read. Qed.

Definition ex_pkg : lpkg :=
  LPkg (lit "foo") (lit "1.0-1")
    (Info (Some (lit "foo")) (Some (lit "a: b=c")) [lit "base"; lit "devel"] None [lit "GPL"] (Some (lit "x86_64")) 1700000000 (-5)
       (Some []) REASON_DEPEND 12 4096 [] [Deps.ex_dep] [] [] [] [] [] [Xdata (lit "pkgtype") (lit "a=b")])
    (FilesInfo [File (lit "etc/") 0 0; File (lit "etc/foo.conf") 0 0] [Backup (lit "etc/foo.conf") (Some (lit "d41d8"))]) true 15.
Lemma local_db_roundtrip_witness :
  local_db_read (local_db_write ex_pkg INFRQ_ALL (DbEntry None None true)) INFRQ_ALL
    (LPkg (lit "foo") (lit "1.0-1") fresh_info (FilesInfo [] []) false 0) =
  Some (0, LPkg (lit "foo") (lit "1.0-1") (l_info ex_pkg) (l_files ex_pkg) true 14).
Proof. apply (local_db_roundtrip ex_pkg (DbEntry None None true)). by_decide. Defined.

(** A description of 1023 bytes or more does not survive: the entry is
    written whole, but the reader's buffer cuts the line after 1023 bytes and
    the rest is taken for an unknown key, so the package comes back with a
    shorter description and no error. *)
Theorem long_description_truncated :
  let long := repeat "a"%char 1200 in
  let p := LPkg (lit "foo") (lit "1.0-1") (set_desc (Some long) fresh_info) (FilesInfo [] []) false 0 in
  exists p', local_db_read (local_db_write p INFRQ_ALL (DbEntry None None false)) INFRQ_ALL
      (LPkg (lit "foo") (lit "1.0-1") fresh_info (FilesInfo [] []) false 0) = Some (0, p') /\
    i_desc (l_info p') = Some (take 1023 long).
Proof. eexists. split; [vm_compute; reflexivity|vm_compute; reflexivity]. Qed.

(** A read error while the list of files is loaded goes unnoticed: the
    package counts as loaded, with the files read so far (a later removal would
    leave the others behind), whereas the same error in the desc file is
    reported. *)
Theorem files_read_error_unnoticed :
  let e := DbEntry (Some (lit "", false)) (Some (line_of (lit "%FILES%") ++ line_of (lit "usr/") ++ lit "usr/b", true)) false in
  let p := LPkg (lit "foo") (lit "1.0-1") fresh_info (FilesInfo [] []) false 0 in
  local_db_read e INFRQ_FILES p =
    Some (0, LPkg (lit "foo") (lit "1.0-1") fresh_info (FilesInfo [File (lit "usr/") 0 0] []) false INFRQ_FILES) /\
  local_db_read (DbEntry (Some (lit "", true)) None false) INFRQ_DESC p =
    Some (-1, LPkg (lit "foo") (lit "1.0-1") fresh_info (FilesInfo [] []) false INFRQ_ERROR).
Proof. split; vm_compute; reflexivity. Qed.

End LocalDb.
