(* ===== verification/Populate.v ===== *)
(** * The local database directory ([src/lib/libkuzpkg/be_local.c])

    Validation of the directory, and the package cache built from its entries.
    What the system calls give is a record of the directory: the entries in
    [readdir] order, the link count and the version file.  Packages and list
    nodes get fresh addresses counted up from a given one. *)

From S2P Require Import Prelude CStr Version KList Package PkgHash Db Util LocalDb.
Local Open Scope Z_scope.

Module Populate.

(** An entry: its name, whether [is_dir] finds a directory, and the files it
    holds. *)
Record dent := Dent { d_name : cstr; d_isdir : bool; d_files : LocalDb.dbentry }.
Record dbdir := DbDir { dd_ents : list dent; dd_nlink : Z; dd_version : option cstr }.

Inductive perror := ERR_DB_INVALID | ERR_DB_NOT_FOUND | ERR_DB_OPEN | ERR_DB_CREATE | ERR_DB_VERSION | ERR_MEMORY.

(** ** local_db_validate *)

(** [opendir] *)
Inductive opened := Opened (d : dbdir) | Enoent | OpenFailed.
(** What [mkdir] and writing the version file would give. *)
Record diskstate := Disk { can_mkdir : bool; can_write_version : bool }.

Definition LOCAL_DB_VERSION : Z := 9.
(** The text [local_db_add_version] writes. *)
Definition version_text : cstr := LocalDb.line_of (Util.print_u LOCAL_DB_VERSION).
(** [fscanf(dbverfile, "%zu", &version)] gave one number, and it is ours. *)
Definition version_ok (text : cstr) : bool :=
  match Util.strto_digits text with
  | None => false
  | Some _ => let '(v, _, _) := Util.strtoull text in v =? LOCAL_DB_VERSION
  end.

Definition is_dot (n : cstr) : bool := (strcmp n (lit ".") =? 0) || (strcmp n (lit "..") =? 0).

Definition exists_now (s : Z) : Z := Db.clear_flag (Db.set_flag s Db.DB_STATUS_EXISTS) Db.DB_STATUS_MISSING.
Definition missing_now (s : Z) : Z := Db.set_flag (Db.clear_flag s Db.DB_STATUS_EXISTS) Db.DB_STATUS_MISSING.
Definition valid_now (s : Z) : Z := Db.clear_flag (Db.set_flag s Db.DB_STATUS_VALID) Db.DB_STATUS_INVALID.
Definition invalid_now (s : Z) : Z := Db.set_flag (Db.clear_flag s Db.DB_STATUS_VALID) Db.DB_STATUS_INVALID.

(** [local_db_create]: the result and [pm_errno]. *)
Definition local_db_create (k : diskstate) (e : option perror) : Z * option perror :=
  if negb (can_mkdir k) then (-1, Some ERR_DB_CREATE)
  else if negb (can_write_version k) then (1, e) else (0, e).

(** The result, the status and [pm_errno] ([e] before); [path] is whether
    [_klpm_db_path] gives one. *)
Definition local_db_validate (path : bool) (dir : opened) (k : diskstate) (status : Z) (e : option perror)
    : Z * Z * option perror :=
  if Db.has status Db.DB_STATUS_VALID then (0, status, e)
  else if Db.has status Db.DB_STATUS_INVALID then (-1, status, e)
  else if negb path then (-1, status, Some ERR_DB_OPEN)
  else
    match dir with
    | Enoent =>
        let '(r, e) := local_db_create k e in
        if r =? 0 then (0, exists_now (valid_now status), e) else (-1, missing_now status, e)
    | OpenFailed => (-1, status, Some ERR_DB_OPEN)
    | Opened d =>
        let status := exists_now status in
        let latest := match dd_version d with
                      | None => forallb (fun n => is_dot (d_name n)) (dd_ents d) && can_write_version k
                      | Some text => version_ok text
                      end in
        if latest then (0, valid_now status, e) else (-1, invalid_now status, Some ERR_DB_VERSION)
    end.

(** ** local_db_populate *)

(** What [_klpm_pkg_new] and [_klpm_splitname] leave in the package. *)
Definition local_pkg (a : positive) (n v : cstr) (h : Z) : pkg := {|
  pkg_id := a; name_hash := h; filename := None; base := None; name := n; version := v;
  desc := None; url := None; packager := None; sha256sum := None; base64_sig := None; arch := None;
  builddate := 0; installdate := 0; size := 0; isize := 0; download_size := 0; licenses := [];
  replaces := []; groups := []; backups := []; depends := []; optdepends := []; checkdepends := [];
  makedepends := []; conflicts := []; provides := []; files := []; origin := FROM_LOCALDB;
  origin_db := Some (lit "local"); origin_file := None; reason := REASON_EXPLICIT; scriptlet := false;
  pkg_xdata := []; infolevel := 0; validation := 0 |}.

Definition INFRQ_BASE : Z := 2 ^ 0.
(** The state of the loop: the cache, the next address and [count]. *)
Record pop := Pop { p_hash : PkgHash.pkghash; p_next : positive; p_count : nat }.

(** One round: [None] for an access out of bounds or an endless probe,
    [Some None] for the error return, with the cache as it is then. *)
Definition populate_one (s : pop) (ent : dent) : option (pop + PkgHash.pkghash) :=
  if is_dot (d_name ent) || negb (d_isdir ent) then Some (inl s)
  else
    split ← Util.splitname (d_name ent);
    match split with
    | None => Some (inl s)
    | Some (n, v, nhash) =>
        found ← PkgHash.pkghash_find (p_hash s) n;
        match found with
        | Some _ => Some (inl s)
        | None =>
            '(ret, _) ← LocalDb.local_db_read (d_files ent) INFRQ_BASE
                          (LocalDb.LPkg n v LocalDb.fresh_info (LocalDb.FilesInfo [] []) false 0);
            if ret =? -1 then Some (inl s)
            else
              let a := p_next s in
              r ← PkgHash.pkghash_add_pkg (p_hash s) (local_pkg a n v nhash) false (Some a);
              match r with
              | PkgHash.Added h => Some (inl (Pop h (Pos.succ a) (S (p_count s))))
              | PkgHash.AddFailed h => Some (inr h)
              end
        end
    end.
Fixpoint populate_loop (ents : list dent) (s : pop) : option (pop + PkgHash.pkghash) :=
  match ents with
  | [] => Some (inl s)
  | ent :: ents =>
      r ← populate_one s ent;
      match r with
      | inl s => populate_loop ents s
      | inr h => Some (inr h)
      end
  end.

Definition est_count (d : dbdir) : Z :=
  let est := if 2 <=? dd_nlink d then dd_nlink d else Z.of_nat (length (dd_ents d)) in
  if 2 <=? est then est - 2 else est.
(** [klpm_list_msort(db->pkgcache->list, count, _klpm_pkg_cmp)] *)
Definition sort_list (h : PkgHash.pkghash) : PkgHash.pkghash :=
  PkgHash.PkgHash (PkgHash.hash_table h) (KList.list_msort PkgHash.node_cmp (PkgHash.hlist h)) (PkgHash.buckets h)
    (PkgHash.entries h) (PkgHash.limit h).

(** The result, the status, the cache and [pm_errno]; [stat] is whether
    [fstat] works. *)
Definition local_db_populate (path stat : bool) (dir : opened) (base : positive) (status : Z)
    : option (Z * Z * option PkgHash.pkghash * option perror) :=
  if Db.has status Db.DB_STATUS_INVALID then Some (-1, status, None, Some ERR_DB_INVALID)
  else if Db.has status Db.DB_STATUS_MISSING then Some (-1, status, None, Some ERR_DB_NOT_FOUND)
  else if negb path then Some (-1, status, None, None)
  else
    match dir with
    | Opened d =>
        if negb stat then Some (-1, status, None, Some ERR_DB_OPEN)
        else
          let status := exists_now status in
          match PkgHash.pkghash_create (est_count d) with
          | None => Some (-1, status, None, Some ERR_MEMORY)
          | Some h =>
              r ← populate_loop (dd_ents d) (Pop h base 0);
              match r with
              | inr h => Some (-1, status, Some h, Some ERR_MEMORY)
              | inl s => Some (0, status, Some (if (0 <? p_count s)%nat then sort_list (p_hash s) else p_hash s), None)
              end
          end
    | _ => Some (-1, status, None, Some ERR_DB_OPEN)
    end.

(** ** Validation *)

(** The two flags validation decides on. *)
Definition verdict (s : Z) : bool * bool := (Db.has s Db.DB_STATUS_VALID, Db.has s Db.DB_STATUS_INVALID).
Ltac flags :=
  intros; unfold verdict, exists_now, missing_now, valid_now, invalid_now, Db.keeps_caches;
  change Db.DB_STATUS_VALID with (2 ^ 0); change Db.DB_STATUS_INVALID with (2 ^ 1);
  change Db.DB_STATUS_EXISTS with (2 ^ 2); change Db.DB_STATUS_MISSING with (2 ^ 3);
  change Db.DB_STATUS_PKGCACHE with (2 ^ 11); change Db.DB_STATUS_GRPCACHE with (2 ^ 12);
  repeat first [rewrite Db.has_set by done | rewrite Db.has_clear by done]; done.
Lemma verdict_valid s : verdict (valid_now s) = (true, false).
Proof. flags. Qed.
Lemma verdict_invalid s : verdict (invalid_now s) = (false, true).
Proof. flags. Qed.
Lemma verdict_exists s : verdict (exists_now s) = verdict s.
Proof. flags. Qed.
Lemma verdict_missing s : verdict (missing_now s) = verdict s.
Proof. flags. Qed.
Lemma keeps_now s : Db.keeps_caches s (exists_now s) /\ Db.keeps_caches s (missing_now s) /\
  Db.keeps_caches s (valid_now s) /\ Db.keeps_caches s (invalid_now s).
Proof. split_and!; flags. Qed.
Lemma exists_not_missing s : Db.has (exists_now s) Db.DB_STATUS_MISSING = false.
Proof. flags. Qed.
Lemma valid_missing s : Db.has (valid_now s) Db.DB_STATUS_MISSING = Db.has s Db.DB_STATUS_MISSING.
Proof. flags. Qed.

(** Validating the local database answers the same when asked again and is
    sticky: a result 0 leaves the status valid and not invalid, a version
    mismatch leaves it invalid, and in both cases the next call decides from
    the status alone, whatever has become of the directory. *)
Theorem local_db_validate_spec path dir k status e :
  verdict status <> (true, true) ->
  let '(ret, status', e') := local_db_validate path dir k status e in
  (ret = 0 /\ verdict status' = (true, false) \/
   ret = -1 /\ verdict status' = (false, false) /\ verdict status = (false, false) \/
   ret = -1 /\ verdict status' = (false, true) /\ (verdict status = (false, true) \/ e' = Some ERR_DB_VERSION)) /\
  (verdict status' <> (false, false) ->
     forall path' dir' k' e2, local_db_validate path' dir' k' status' e2 = (ret, status', e2)).
Proof.
  intros Hs.
  assert (forall s, verdict s = (true, false) -> forall path' dir' k' e2, local_db_validate path' dir' k' s e2 = (0, s, e2)) as H1.
  { unfold verdict. intros s [= E _] ????. unfold local_db_validate. by rewrite E. }
  assert (forall s, verdict s = (false, true) -> forall path' dir' k' e2, local_db_validate path' dir' k' s e2 = (-1, s, e2)) as H2.
  { unfold verdict. intros s [= E1 E2] ????. unfold local_db_validate. by rewrite E1, E2. }
  unfold local_db_validate at 1. destruct (Db.has status Db.DB_STATUS_VALID) eqn:Ev, (Db.has status Db.DB_STATUS_INVALID) eqn:Ei.
  { by destruct Hs; unfold verdict; rewrite Ev, Ei. }
  { assert (verdict status = (true, false)) as E by (unfold verdict; by rewrite Ev, Ei). split; [by left|auto]. }
  { assert (verdict status = (false, true)) as E by (unfold verdict; by rewrite Ev, Ei). split; [by auto 6|auto]. }
  assert (verdict status = (false, false)) as E by (unfold verdict; by rewrite Ev, Ei). clear Hs Ev Ei.
  assert (verdict (exists_now (valid_now status)) = (true, false)) as Hv by (rewrite verdict_exists; apply verdict_valid).
  pose proof (verdict_missing status) as Hm. pose proof (verdict_valid (exists_now status)) as Hv2.
  pose proof (verdict_invalid (exists_now status)) as Hi.
  destruct path; simpl negb; cbn iota; [|split; [auto 8|by rewrite E]].
  destruct dir as [d| |]; [|destruct (local_db_create k e) as [r e0]; destruct (r =? 0)|].
  - destruct (match dd_version d with Some _ => _ | None => _ end); (split; [|by auto]); auto 8.
  - split; [|by auto]. auto 8.
  - rewrite Hm. split; [auto 8|]. by rewrite E.
  - split; [auto 8|by rewrite E].
Qed.
Lemma local_db_validate_witness :
  let '(ret, status', e') := local_db_validate true (Opened (DbDir [] 2 (Some (lit "8")))) (Disk true true) Db.DB_STATUS_LOCAL None in
  ret = -1 /\ forall path' dir' k' e2, local_db_validate path' dir' k' status' e2 = (-1, status', e2).
Proof.
  destruct (local_db_validate_spec true (Opened (DbDir [] 2 (Some (lit "8")))) (Disk true true) Db.DB_STATUS_LOCAL None) as [_ H]; [by vm_compute|].
  split; [reflexivity|]. apply H. by vm_compute.
Defined.

(** A database without version file is accepted only when it is empty, and
    what [local_db_add_version] writes is accepted. *)
Lemma version_text_ok : version_ok version_text = true.
Proof. reflexivity. Qed.

(** "pm_errno is set by local_db_create" does not hold: when the directory
    can be made but not the version file, validation fails with the error
    number untouched, so the caller reports success or an older error. *)
Theorem validate_error_not_set k e (Hm : can_mkdir k = true) (Hw : can_write_version k = false) :
  local_db_validate true Enoent k Db.DB_STATUS_LOCAL e = (-1, missing_now Db.DB_STATUS_LOCAL, e).
Proof. destruct k. simpl in *. by subst. Qed.
Lemma validate_error_witness :
  local_db_validate true Enoent (Disk true false) Db.DB_STATUS_LOCAL None = (-1, missing_now Db.DB_STATUS_LOCAL, None).
Proof. by apply validate_error_not_set. Defined.

(** ** The cache *)

(** The name and version an entry stands for. *)
Definition entry_of (ent : dent) : option (cstr * cstr) :=
  if is_dot (d_name ent) || negb (d_isdir ent) then None
  else match Util.splitname (d_name ent) with Some (Some (n, v, _)) => Some (n, v) | _ => None end.
(** Of several entries for one name the first in directory order counts. *)
Fixpoint firsts (seen : list cstr) (l : list (cstr * cstr)) : list (cstr * cstr) :=
  match l with
  | [] => []
  | (n, v) :: l => if decide (n ∈ seen) then firsts seen l else (n, v) :: firsts (seen ++ [n]) l
  end.
Definition installed (d : dbdir) : list (cstr * cstr) := firsts [] (omap entry_of (dd_ents d)).

Definition nv (p : pkg) : cstr * cstr := (name p, version p).

(** The directories [splitname] is given. *)
Definition candidate (ent : dent) : bool := negb (is_dot (d_name ent) || negb (d_isdir ent)).
Definition splittable (ent : dent) : Prop := candidate ent = true -> Util.splitname (d_name ent) <> None.
#[global] Instance splittable_dec ent : Decision (splittable ent).
Proof. unfold splittable. apply _. Defined.

(** Adding with room in the table. *)
Lemma add_room h p a :
  PkgHash.wf h -> pkg_hashed p -> a ∉ (PkgHash.hlist h).*1 -> PkgHash.entries h < PkgHash.limit h ->
  exists h', PkgHash.pkghash_add_pkg h p false (Some a) = Some (PkgHash.Added h') /\ PkgHash.wf h' /\
    PkgHash.hlist h' = PkgHash.hlist h ++ [(a, p)] /\ PkgHash.limit h' = PkgHash.limit h /\
    PkgHash.entries h' = PkgHash.entries h + 1.
Proof.
  intros Hw Hp Ha Hroom. destruct (PkgHash.add_correct h p false (Some a) Hw Hp) as (r & E & Hr); [by intros ? [= <-]|].
  destruct r as [h'|h']; [destruct Hr as (_ & _ & [?|[? _]]); [done|lia]|]. exists h'. split; [done|]. split; [apply Hr|].
  unfold PkgHash.pkghash_add_pkg in E. rewrite (proj2 (Z.leb_gt _ _)) in E by done. cbn [mbind option_bind] in E.
  destruct (PkgHash.get_hash_position _ _); cbn [mbind option_bind] in E; [|done]. by injection E as <-.
Qed.

(** The invariant of the loop; [room] bounds what is still to come. *)
Record pop_ok (s : pop) (room : Z) : Prop := {
  po_wf : PkgHash.wf (p_hash s);
  po_fresh : Forall (fun a => (a < p_next s)%positive) (PkgHash.hlist (p_hash s)).*1;
  po_room : PkgHash.entries (p_hash s) + room <= PkgHash.limit (p_hash s);
  po_count : p_count s = length (PkgHash.pkgs_of (p_hash s))
}.

Lemma splitname_hash t n v h : Util.splitname t = Some (Some (n, v, h)) -> h = hash_sdbm n.
Proof.
  unfold Util.splitname. destruct (Util.strrchr _ _) as [[f r]|]; cbn [mbind option_bind]; [|done].
  destruct (Util.strrchr f _) as [[n' v']|]; cbn [mbind option_bind]; [|done]. destruct n'; [done|]. by intros [= <- _ <-].
Qed.

Lemma populate_one_spec s ent room : splittable ent ->
  pop_ok s (Z.b2z (candidate ent) + room) -> 0 <= room ->
  exists s', populate_one s ent = Some (inl s') /\ pop_ok s' room /\
    nv <$> PkgHash.pkgs_of (p_hash s') =
      (nv <$> PkgHash.pkgs_of (p_hash s)) ++
      match entry_of ent with
      | Some (n, v) => if decide (n ∈ name <$> PkgHash.pkgs_of (p_hash s)) then [] else [(n, v)]
      | None => []
      end.
Proof.
  intros Hs [Hw Hf Hr Hc] Hroom. unfold populate_one, entry_of, splittable, candidate in *.
  assert (pop_ok s room) as Hskip by (split; [done|done|destruct (negb _); simpl in Hr; lia|done]).
  destruct (is_dot (d_name ent) || negb (d_isdir ent)); [exists s; by rewrite app_nil_r|]. simpl in Hs, Hr.
  destruct (Util.splitname (d_name ent)) as [[[[n v] h]|]|] eqn:E; cbn [mbind option_bind]; [|exists s; by rewrite app_nil_r|by destruct (Hs eq_refl)].
  apply splitname_hash in E as ->.
  destruct (PkgHash.find_correct (p_hash s) n Hw) as (r & -> & Hfound). cbn [mbind option_bind]. destruct r as [q|].
  { exists s. rewrite decide_True; [by rewrite app_nil_r|]. destruct Hfound as [Hq <-]. by apply list_elem_of_fmap_2. }
  rewrite decide_False by done.
  destruct (add_room (p_hash s) (local_pkg (p_next s) n v (hash_sdbm n)) (p_next s) Hw) as (h' & E & Hw' & El & Elim & Een); [done| |lia|].
  { intros Hin. rewrite Forall_forall in Hf. specialize (Hf _ Hin). simpl in Hf. lia. }
  change (LocalDb.local_db_read _ _ _) with (Some (0, LocalDb.LPkg n v LocalDb.fresh_info (LocalDb.FilesInfo [] []) false 0)).
  cbn [mbind option_bind]. change (0 =? -1) with false. cbn iota zeta. rewrite E. cbn [mbind option_bind].
  eexists. split; [done|]. unfold PkgHash.pkgs_of in *. cbn [p_hash]. rewrite El. split; [|by rewrite !fmap_app].
  split; cbn [p_hash p_next p_count]; [done| |lia|].
  - rewrite El, fmap_app, Forall_app. split; [|repeat constructor; simpl; lia].
    eapply Forall_impl; [exact Hf|]. intros x Hx. simpl in Hx. lia.
  - unfold PkgHash.pkgs_of. rewrite El, fmap_app, length_app, Hc. simpl. lia.
Qed.

Lemma populate_loop_spec ents s :
  Forall splittable ents -> pop_ok s (Z.of_nat (length (List.filter candidate ents))) ->
  exists s', populate_loop ents s = Some (inl s') /\ pop_ok s' 0 /\
    nv <$> PkgHash.pkgs_of (p_hash s') =
      (nv <$> PkgHash.pkgs_of (p_hash s)) ++ firsts (name <$> PkgHash.pkgs_of (p_hash s)) (omap entry_of ents).
Proof.
  intros Hs. revert s. induction Hs as [|ent ents He Hs IH]; intros s Ho; cbn [populate_loop]; [exists s; by rewrite app_nil_r|].
  destruct (populate_one_spec s ent (Z.of_nat (length (List.filter candidate ents)))) as (s1 & -> & Ho1 & E1); [done| |lia|].
  { replace (Z.b2z (candidate ent) + Z.of_nat (length (List.filter candidate ents))) with (Z.of_nat (length (List.filter candidate (ent :: ents)))); [done|].
    simpl. destruct (candidate ent); simpl; lia. }
  cbn [mbind option_bind]. destruct (IH s1 Ho1) as (s' & -> & Ho' & E'). exists s'. split_and!; [done..|]. rewrite E'.
  assert (name <$> PkgHash.pkgs_of (p_hash s1) = fst <$> (nv <$> PkgHash.pkgs_of (p_hash s1))) as -> by (by rewrite <- list_fmap_compose).
  rewrite E1, fmap_app, <- list_fmap_compose. change (fst ∘ nv) with name. cbn [omap list_omap].
  destruct (entry_of ent) as [[n v]|]; [|by rewrite !app_nil_r]. cbn [firsts].
  case_decide; [by rewrite !app_nil_r|]. by rewrite <- app_assoc.
Qed.

#[local] Instance node_cmp_order : CmpOrder PkgHash.node_cmp := cmp_order_proj PkgHash.node_pkg Package.pkg_cmp _.
Lemma sort_list_wf h : PkgHash.wf h ->
  PkgHash.wf (sort_list h) /\ PkgHash.pkgs_of (sort_list h) ≡ₚ PkgHash.pkgs_of h /\
  StronglySorted (cmp_le Package.pkg_cmp) (PkgHash.pkgs_of (sort_list h)).
Proof.
  intros Hw. assert (PkgHash.hlist (sort_list h) ≡ₚ PkgHash.hlist h) as Hp by (apply KList.list_msort_perm; apply _).
  split_and!; [|unfold PkgHash.pkgs_of; by rewrite Hp|].
  - split; try apply Hw.
    + rewrite Hp. apply Hw.
    + rewrite Hp. apply Hw.
    + rewrite Hp. apply Hw.
    + unfold PkgHash.pkgs_of. rewrite Hp. apply Hw.
  - unfold PkgHash.pkgs_of. pose proof (KList.list_msort_sorted PkgHash.node_cmp (PkgHash.hlist h)) as H.
    change (KList.list_msort _ _) with (PkgHash.hlist (sort_list h)) in H. clear Hp Hw.
    induction H as [|x l Hl IH Hx]; [constructor|]. cbn [fmap list_fmap]. constructor; [done|].
    apply Forall_fmap. eapply Forall_impl; [exact Hx|]. done.
Qed.

Lemma firsts_NoDup seen l : NoDup (firsts seen l).*1 /\ (forall n, n ∈ (firsts seen l).*1 -> n ∉ seen).
Proof.
  revert seen. induction l as [|[n v] l IH]; intros seen; cbn [firsts]; [split; [constructor|intros ? ?%elem_of_nil; done]|].
  case_decide as Hn; [apply IH|]. destruct (IH (seen ++ [n])) as [H1 H2]. cbn [fmap list_fmap fst]. split.
  - constructor; [|done]. intros Hin%H2. apply Hin. set_solver.
  - intros m [->|Hm]%elem_of_cons; [done|]. specialize (H2 m Hm). set_solver.
Qed.

(** A directory whose entries can be split and whose link count is that of a
    directory with so many subdirectories, with fewer than half a million of
    them. *)
Record readable_dir (d : dbdir) : Prop := {
  rd_split : Forall splittable (dd_ents d);
  rd_links : Z.of_nat (length (List.filter candidate (dd_ents d))) <= est_count d;
  rd_size : PkgHash.initial_size (est_count d) < 976369
}.

Lemma populate_correct d base status :
  Db.has status Db.DB_STATUS_INVALID = false -> Db.has status Db.DB_STATUS_MISSING = false -> readable_dir d ->
  exists h, local_db_populate true true (Opened d) base status = Some (0, exists_now status, Some h, None) /\
    PkgHash.wf h /\ StronglySorted (cmp_le Package.pkg_cmp) (PkgHash.pkgs_of h) /\
    nv <$> PkgHash.pkgs_of h ≡ₚ installed d /\ NoDup (name <$> PkgHash.pkgs_of h).
Proof.
  intros Hi Hm [Hs Hest Hbig]. unfold local_db_populate. rewrite Hi, Hm. simpl negb. cbn iota.
  assert (0 <= est_count d) as H0 by lia. pose proof (PkgHash.create_spec (est_count d) H0) as Hc.
  pose proof (PkgHash.create_room (est_count d) H0) as Hroom.
  destruct (PkgHash.pkghash_create (est_count d)) as [h0|]; [|rewrite Forall_forall in Hc; specialize (Hc 976369 ltac:(by_decide)); lia].
  destruct Hc as (Hw & Hnil & _).
  destruct (populate_loop_spec (dd_ents d) (Pop h0 base 0) Hs) as (s & -> & [Hw' _ _ Hcount] & E).
  { split; cbn [p_hash p_next p_count]; [done|by rewrite Hnil|rewrite (PkgHash.wf_entries _ Hw), Hnil; simpl; lia|].
    unfold PkgHash.pkgs_of. by rewrite Hnil. }
  assert (PkgHash.pkgs_of h0 = []) as E0 by (unfold PkgHash.pkgs_of; by rewrite Hnil). cbn [p_hash] in E. rewrite E0 in E. cbn [fmap list_fmap app] in E.
  cbn [mbind option_bind]. destruct (sort_list_wf (p_hash s) Hw') as (Hsw & Hp & Hsorted).
  assert (forall l, nv <$> l ≡ₚ installed d -> NoDup (name <$> l)) as Hnd.
  { intros l Hl. change name with (fst ∘ nv). rewrite list_fmap_compose, Hl. apply firsts_NoDup. }
  destruct (Nat.ltb_spec 0 (p_count s)).
  - eexists. split_and!; [done|done|done|by rewrite Hp, E|]. apply Hnd. by rewrite Hp, E.
  - eexists. split_and!; [done|done| |by rewrite E|apply Hnd; by rewrite E].
    destruct (PkgHash.pkgs_of (p_hash s)); [constructor|]. simpl in Hcount. lia.
Qed.

(** Loading the local database gives a well-formed cache, sorted by name,
    with exactly one package for each name in the directory, the version being
    that of the first entry of the name; plain files and entries with a
    malformed name are left out.  (The table is made large enough for the
    directories counted, so that it never has to grow.) *)
Theorem local_db_populate_spec d base status
    (Hi : Db.has status Db.DB_STATUS_INVALID = false) (Hm : Db.has status Db.DB_STATUS_MISSING = false) (Hd : readable_dir d) :
  exists h, local_db_populate true true (Opened d) base status = Some (0, exists_now status, Some h, None) /\
    PkgHash.wf h /\ StronglySorted (cmp_le Package.pkg_cmp) (PkgHash.pkgs_of h) /\
    nv <$> PkgHash.pkgs_of h ≡ₚ installed d /\ NoDup (name <$> PkgHash.pkgs_of h).
Proof. by apply populate_correct. Qed.

Definition ex_entry (n : string) (dir : bool) : dent := Dent (lit n) dir (LocalDb.DbEntry None None false).
Definition ex_dir : dbdir :=
  DbDir [ex_entry "." true; ex_entry "zlib-1.3-1" true; ex_entry ".." true; ex_entry "KUZPKG_DB_VERSION" false;
         ex_entry "bash-5.2-1" true; ex_entry "zlib-1.2-1" true] 5 (Some version_text).
Lemma local_db_populate_witness :
  exists h, local_db_populate true true (Opened ex_dir) 1 1 = Some (0, 5, Some h, None) /\
    nv <$> PkgHash.pkgs_of h ≡ₚ [(lit "zlib", lit "1.3-1"); (lit "bash", lit "5.2-1")].
Proof.
  destruct (local_db_populate_spec ex_dir 1 1) as (h & E & _ & _ & Hp & _); [reflexivity|reflexivity|split; [by_decide|by vm_compute|by vm_compute]|].
  exists h. split; [exact E|exact Hp].
Defined.

(** ** The local backend of a database *)

(** The operations of [local_db_ops] over a directory, as [Db] calls them. *)
Definition local_populate (d : dbdir) (base : positive) (x : Db.db) : bool * Db.db :=
  match local_db_populate true true (Opened d) base (Db.status x) with
  | Some (ret, s, Some h, _) => (ret =? 0, Db.set_status (Db.set_pkgcache x (Some h)) s)
  | Some (ret, s, None, _) => (ret =? 0, Db.set_status x s)
  | None => (false, x)
  end.
Definition local_validate (d : dbdir) (k : diskstate) (s : Z) : Z := (local_db_validate true (Opened d) k s None).1.2.

Lemma local_validate_cases d k s :
  local_validate d k s = s \/
  verdict s = (false, false) /\ (local_validate d k s = valid_now (exists_now s) \/ local_validate d k s = invalid_now (exists_now s)).
Proof.
  unfold local_validate, local_db_validate, verdict.
  destruct (Db.has s Db.DB_STATUS_VALID); [by left|]. destruct (Db.has s Db.DB_STATUS_INVALID); [by left|]. simpl negb. cbn iota.
  right. split; [done|]. destruct (match dd_version d with Some _ => _ | None => _ end); auto.
Qed.
Lemma keeps_trans s1 s2 s3 : Db.keeps_caches s1 s2 -> Db.keeps_caches s2 s3 -> Db.keeps_caches s1 s3.
Proof. unfold Db.keeps_caches. intros [-> ->] [-> ->]. done. Qed.

#[global] Instance local_backend d base k : readable_dir d -> Db.Backend False (local_populate d base) (local_validate d k).
Proof.
  intros Hd. split.
  - intros s Hs. destruct (local_validate_cases d k s) as [->|[_ Hc]]; [by split|].
    destruct (keeps_now s) as (Ke & _). destruct (keeps_now (exists_now s)) as (_ & _ & Kv & Ki).
    destruct Hc as [-> | ->]; (split; [by eapply keeps_trans|]); unfold Db.sound, Db.vbits_of; cbn [Db.b_valid Db.b_invalid Db.b_missing].
    + pose proof (verdict_valid (exists_now s)) as [= -> ->]. by rewrite valid_missing, exists_not_missing.
    + pose proof (verdict_invalid (exists_now s)) as [= -> _]. done.
  - intros x Hv Hs _ _. left. destruct (Hs Hv) as [Hi Hm]. cbn in Hi, Hm.
    destruct (populate_correct d base (Db.status x) Hi Hm Hd) as (h & E & Hw & _).
    exists h, (exists_now (Db.status x)). unfold local_populate. rewrite E. split_and!; [done|done|apply keeps_now|].
    unfold Db.vbits_of. rewrite exists_not_missing, Hm. pose proof (verdict_exists (Db.status x)) as [= -> ->]. done.
Qed.

(** The local database as [_klpm_db_register_local] leaves it. *)
Definition registered (d : dbdir) (k : diskstate) : Db.db :=
  let x := Db.db_new (lit "local") true in Db.set_status x (local_validate d k (Db.status x)).

(** C13: the installed packages as the library sees them are the entries of the
    database directory, when it has the version file the library expects, its entries
    have names that can be split and their number fits the tables: after registering
    the local database, its package list
    is sorted and holds each name of the directory once, and a lookup by name
    finds exactly those, with the version of the entry; the caches then satisfy
    the invariant of [Db]. *)
Theorem local_cache_refines_directory d base k text
    (Hd : readable_dir d) (Hv : dd_version d = Some text) (Ht : version_ok text = true) :
  exists l x, Db.db_get_pkgcache (local_populate d base) (registered d k) Db.OK = (l, x, Db.OK) /\ Db.db_ok False x /\
    StronglySorted (cmp_le Package.pkg_cmp) l /\ nv <$> l ≡ₚ installed d /\
    forall n, exists r, Db.db_get_pkgfromcache (local_populate d base) x n Db.OK = Some (r, x, Db.OK) /\
      match r with
      | Some p => name p = n /\ (n, version p) ∈ installed d
      | None => n ∉ (installed d).*1
      end.
Proof.
  pose proof (local_backend d base k Hd) as HB.
  assert (registered d k = Db.set_status (Db.db_new (lit "local") true) 1029) as Er.
  { unfold registered. f_equal. unfold local_validate, local_db_validate. cbn. rewrite Hv, Ht. done. }
  destruct (populate_correct d base 1029) as (h & E & Hw & Hsort & Hp & Hnd); [done|done|done|].
  set (x1 := Db.set_status (Db.db_new (lit "local") true) 1029) in *. set (x2 := Db.set_status (Db.set_pkgcache x1 (Some h)) 3077).
  assert (Db.db_get_pkgcache_hash (local_populate d base) x1 Db.OK = (Some h, x2, Db.OK)) as Eh.
  { unfold Db.db_get_pkgcache_hash. change (negb (Db.has (Db.status x1) Db.DB_STATUS_VALID)) with false.
    change (negb (Db.has (Db.status x1) Db.DB_STATUS_PKGCACHE)) with true. cbn iota. unfold Db.load_pkgcache, local_populate.
    change (Db.db_free_pkgcache x1) with x1. change (Db.status x1) with 1029. by rewrite E. }
  assert (Db.db_get_pkgcache (local_populate d base) x1 Db.OK = (PkgHash.pkgs_of h, x2, Db.OK)) as El
    by (unfold Db.db_get_pkgcache; by rewrite Eh).
  exists (PkgHash.pkgs_of h), x2. rewrite Er. split_and!; [done| |done|done|].
  - apply (Db.reachable_ok False (local_populate d base) (local_validate d k) (lit "local") true).
    eapply rtc_l; [apply Db.step_validate|]. eapply rtc_once. change (Db.set_status _ _) with (registered d k). rewrite Er.
    by eapply Db.step_get_pkgcache.
  - intros n. destruct (PkgHash.find_correct h n Hw) as (r & Ef & Hr). exists r. split.
    { unfold Db.db_get_pkgfromcache. change (Db.db_get_pkgcache_hash (local_populate d base) x2 Db.OK) with (Some h, x2, Db.OK).
      cbn iota. by rewrite Ef. }
    destruct r as [p|].
    + destruct Hr as [Hin <-]. split; [done|]. rewrite <- Hp. by apply (list_elem_of_fmap_2 nv).
    + rewrite <- Hp, <- list_fmap_compose. exact Hr.
Qed.
Lemma local_cache_witness :
  exists l x, Db.db_get_pkgcache (local_populate ex_dir 1) (registered ex_dir (Disk true true)) Db.OK = (l, x, Db.OK) /\
    nv <$> l ≡ₚ [(lit "zlib", lit "1.3-1"); (lit "bash", lit "5.2-1")].
Proof.
  destruct (local_cache_refines_directory ex_dir 1 (Disk true true) version_text) as (l & x & E & _ & _ & Hl & _);
    [split; [by_decide|by vm_compute|by vm_compute]|reflexivity|reflexivity|].
  exists l, x. split; [exact E|exact Hl].
Defined.

End Populate.
