(* ===== verification/PackInstall.v ===== *)
(** * Building and packaging helpers ([src/src/util/packinstall.c])

    The parts of the packaging tool that decide things: quoting of shell words,
    wildcard matching, target triplets with the table of architectures, and the
    normalisation of package names and versions.  [malloc] and [strdup] succeed.
    The loop of [wildcard_match] carries fuel; [S (length string) * S (length
    pattern)] is always enough ([wildcard_match_spec]). *)

From S2P Require Import Prelude CStr Version.
Local Open Scope Z_scope.

Module PackInstall.

(** ** Generic helpers *)

(** [strrchr s '/'], as the part after it; [None] when there is none. *)
Fixpoint after_slash (s : cstr) : option cstr :=
  match s with
  | [] => None
  | c :: s' =>
      match after_slash s' with
      | Some r => Some r
      | None => if decide (c = "/"%char) then Some s' else None
      end
  end.
Definition base_name (path : option cstr) : cstr :=
  match path with
  | None => []
  | Some path => default path (after_slash path)
  end.

Definition quote : ascii := ascii_of_nat 39.
(** The four characters quote, backslash, quote, quote. *)
Definition escaped_quote : cstr := [quote; "\"%char; quote; quote].

Fixpoint quote_body (s : cstr) : cstr :=
  match s with
  | [] => []
  | c :: s' => (if decide (c = quote) then escaped_quote else [c]) ++ quote_body s'
  end.
Definition shell_quote (s : cstr) : cstr := quote :: quote_body s ++ [quote].

(** The first loop of [shell_quote]: the room allocated, less the NUL. *)
Definition quote_size (s : cstr) : nat :=
  fold_left (fun size c => size + (if decide (c = quote) then 4 else 1))%nat s 2%nat.

(** The loop of [wildcard_match]: [star] is the pattern after the last star and
    the [mark] in the string. *)
Fixpoint wildcard_loop (fuel : nat) (pattern string : cstr) (star : option (cstr * cstr)) : option bool :=
  match string with
  | [] => Some (bool_decide ((span (fun c => bool_decide (c = "*"%char)) pattern).2 = []))
  | c :: string' =>
      match fuel with
      | O => None
      | S fuel =>
          let mismatch :=
            match star with
            | Some (after, mark) => wildcard_loop fuel after (tail mark) (Some (after, tail mark))
            | None => Some false
            end in
          match pattern with
          | [] => mismatch
          | p :: pattern' =>
              if decide (p = "*"%char) then wildcard_loop fuel pattern' string (Some (pattern', string))
              else if decide (p = "?"%char \/ p = c) then wildcard_loop fuel pattern' string' star
              else mismatch
          end
      end
  end.
Definition wildcard_match (pattern string : cstr) : bool :=
  default false (wildcard_loop (S (length string) * S (length pattern)) pattern string None).

(** ** Targets *)

(** [enum target_os] *)
Inductive target_os :=
  OS_UNKNOWN | OS_LINUX | OS_NETBSD | OS_FREEBSD | OS_OPENBSD | OS_DRAGONFLY
  | OS_SOLARIS | OS_AIX | OS_HPUX | OS_DARWIN | OS_NONE | OS_OTHER.
#[global] Instance target_os_eq_dec : EqDecision target_os.
Proof. solve_decision. Defined.

Definition target_os_name (os : target_os) : string :=
  match os with
  | OS_LINUX => "linux" | OS_NETBSD => "netbsd" | OS_FREEBSD => "freebsd" | OS_OPENBSD => "openbsd"
  | OS_DRAGONFLY => "dragonfly" | OS_SOLARIS => "solaris" | OS_AIX => "aix" | OS_HPUX => "hpux"
  | OS_DARWIN => "darwin" | OS_NONE => "none" | OS_OTHER => "other" | OS_UNKNOWN => "unknown"
  end.

(** [struct architecture] *)
Record architecture := Architecture {
  a_name : cstr; a_uname : cstr; a_triplet : cstr; a_family : cstr;
  a_os : target_os; a_supported : bool; a_historical : bool
}.
Definition arch (n u t f : string) (os : target_os) (s h : bool) : architecture :=
  Architecture (lit n) (lit u) (lit t) (lit f) os s h.

Definition architectures : list architecture :=
  [
   arch "x86_64" "x86_64" "x86_64-unknown-linux-gnu" "x86" OS_LINUX true false;
   arch "i686" "i686" "i686-unknown-linux-gnu" "x86" OS_LINUX true false;
   arch "i586" "i586" "i586-unknown-linux-gnu" "x86" OS_LINUX true false;
   arch "i486" "i486" "i486-unknown-linux-gnu" "x86" OS_LINUX true false;
   arch "i386" "i386" "i386-unknown-linux-gnu" "x86" OS_LINUX true false;
   arch "x32" "x86_64" "x86_64-unknown-linux-gnux32" "x86" OS_LINUX true false;
   arch "aarch64" "aarch64" "aarch64-unknown-linux-gnu" "arm" OS_LINUX true false;
   arch "aarch64_be" "aarch64_be" "aarch64_be-unknown-linux-gnu" "arm" OS_LINUX true false;
   arch "arm" "arm" "arm-unknown-linux-gnueabi" "arm" OS_LINUX true false;
   arch "armel" "arm" "arm-unknown-linux-gnueabi" "arm" OS_LINUX true false;
   arch "armhf" "arm" "arm-unknown-linux-gnueabihf" "arm" OS_LINUX true false;
   arch "armv6" "arm" "arm-unknown-linux-gnueabi" "arm" OS_LINUX true false;
   arch "armv7" "arm" "arm-unknown-linux-gnueabihf" "arm" OS_LINUX true false;
   arch "armeb" "armeb" "armeb-unknown-linux-gnueabi" "arm" OS_LINUX true false;
   arch "mips" "mips" "mips-unknown-linux-gnu" "mips" OS_LINUX true false;
   arch "mipsel" "mipsel" "mipsel-unknown-linux-gnu" "mips" OS_LINUX true false;
   arch "mips64" "mips64" "mips64-unknown-linux-gnuabi64" "mips" OS_LINUX true false;
   arch "mips64el" "mips64el" "mips64el-unknown-linux-gnuabi64" "mips" OS_LINUX true false;
   arch "mips64n32" "mips64" "mips64-unknown-linux-gnuabin32" "mips" OS_LINUX true false;
   arch "mips64n32el" "mips64el" "mips64el-unknown-linux-gnuabin32" "mips" OS_LINUX true false;
   arch "powerpc" "ppc" "powerpc-unknown-linux-gnu" "powerpc" OS_LINUX true false;
   arch "powerpcle" "ppcle" "powerpcle-unknown-linux-gnu" "powerpc" OS_LINUX true false;
   arch "powerpc64" "ppc64" "powerpc64-unknown-linux-gnu" "powerpc" OS_LINUX true false;
   arch "powerpc64le" "ppc64le" "powerpc64le-unknown-linux-gnu" "powerpc" OS_LINUX true false;
   arch "riscv32" "riscv32" "riscv32-unknown-linux-gnu" "riscv" OS_LINUX true false;
   arch "riscv32be" "riscv32be" "riscv32be-unknown-linux-gnu" "riscv" OS_LINUX true false;
   arch "riscv64" "riscv64" "riscv64-unknown-linux-gnu" "riscv" OS_LINUX true false;
   arch "riscv64be" "riscv64be" "riscv64be-unknown-linux-gnu" "riscv" OS_LINUX true false;
   arch "s390" "s390" "s390-ibm-linux-gnu" "s390" OS_LINUX true false;
   arch "s390x" "s390x" "s390x-ibm-linux-gnu" "s390" OS_LINUX true false;
   arch "sparc" "sparc" "sparc-unknown-linux-gnu" "sparc" OS_LINUX true false;
   arch "sparc64" "sparc64" "sparc64-unknown-linux-gnu" "sparc" OS_LINUX true false;
   arch "alpha" "alpha" "alpha-unknown-linux-gnu" "alpha" OS_LINUX true false;
   arch "arc" "arc" "arc-unknown-linux-gnu" "arc" OS_LINUX true false;
   arch "arceb" "arceb" "arceb-unknown-linux-gnu" "arc" OS_LINUX true false;
   arch "csky" "csky" "csky-unknown-linux-gnuabiv2" "csky" OS_LINUX true false;
   arch "hexagon" "hexagon" "hexagon-unknown-linux-musl" "hexagon" OS_LINUX true false;
   arch "loongarch64" "loongarch64" "loongarch64-unknown-linux-gnu" "loongarch" OS_LINUX true false;
   arch "m68k" "m68k" "m68k-unknown-linux-gnu" "m68k" OS_LINUX true false;
   arch "microblaze" "microblaze" "microblaze-unknown-linux-gnu" "microblaze" OS_LINUX true false;
   arch "microblazeel" "microblazeel" "microblazeel-unknown-linux-gnu" "microblaze" OS_LINUX true false;
   arch "nios2" "nios2" "nios2-unknown-linux-gnu" "nios2" OS_LINUX true false;
   arch "openrisc" "or1k" "or1k-unknown-linux-gnu" "openrisc" OS_LINUX true false;
   arch "or1k" "or1k" "or1k-unknown-linux-gnu" "openrisc" OS_LINUX true false;
   arch "parisc" "hppa" "hppa-unknown-linux-gnu" "parisc" OS_LINUX true false;
   arch "parisc64" "hppa64" "hppa64-unknown-linux-gnu" "parisc" OS_LINUX true false;
   arch "sh" "sh" "sh-unknown-linux-gnu" "sh" OS_LINUX true false;
   arch "sh4" "sh4" "sh4-unknown-linux-gnu" "sh" OS_LINUX true false;
   arch "sh4eb" "sh4eb" "sh4eb-unknown-linux-gnu" "sh" OS_LINUX true false;
   arch "xtensa" "xtensa" "xtensa-unknown-linux-gnu" "xtensa" OS_LINUX true false;
   arch "xtensaeb" "xtensa" "xtensaeb-unknown-linux-gnu" "xtensa" OS_LINUX true false;
   arch "ia64" "ia64" "ia64-unknown-linux-gnu" "ia64" OS_LINUX false true;
   arch "cris" "cris" "cris-unknown-linux-gnu" "cris" OS_LINUX false true;
   arch "frv" "frv" "frv-unknown-linux-gnu" "frv" OS_LINUX false true;
   arch "h8300" "h8300" "h8300-unknown-linux-gnu" "h8300" OS_LINUX false true;
   arch "m32r" "m32r" "m32r-unknown-linux-gnu" "m32r" OS_LINUX false true;
   arch "mn10300" "mn10300" "mn10300-unknown-linux-gnu" "mn10300" OS_LINUX false true;
   arch "metag" "metag" "metag-unknown-linux-gnu" "metag" OS_LINUX false true;
   arch "blackfin" "bfin" "bfin-unknown-linux-gnu" "blackfin" OS_LINUX false true;
   arch "tile" "tile" "tile-unknown-linux-gnu" "tile" OS_LINUX false true;
   arch "avr32" "avr32" "avr32-unknown-linux-gnu" "avr32" OS_LINUX false true;
   arch "c6x" "tic6x" "tic6x-unknown-linux-gnu" "c6x" OS_LINUX false true;
   arch "netbsd-amd64" "x86_64" "x86_64-unknown-netbsd" "x86" OS_NETBSD true false;
   arch "netbsd-i386" "i386" "i386-unknown-netbsd" "x86" OS_NETBSD false true;
   arch "netbsd-alpha" "alpha" "alpha-unknown-netbsd" "alpha" OS_NETBSD false true;
   arch "netbsd-arm" "arm" "arm-unknown-netbsd" "arm" OS_NETBSD true false;
   arch "netbsd-earm" "arm" "earm-unknown-netbsd" "arm" OS_NETBSD true false;
   arch "netbsd-hppa" "hppa" "hppa-unknown-netbsd" "parisc" OS_NETBSD true false;
   arch "netbsd-m68k" "m68k" "m68k-unknown-netbsd" "m68k" OS_NETBSD true false;
   arch "netbsd-mipseb" "mipseb" "mipseb-unknown-netbsd" "mips" OS_NETBSD true false;
   arch "netbsd-mipsel" "mipsel" "mipsel-unknown-netbsd" "mips" OS_NETBSD true false;
   arch "netbsd-powerpc" "powerpc" "powerpc-unknown-netbsd" "powerpc" OS_NETBSD true false;
   arch "netbsd-sh3eb" "sh3eb" "sh3eb-unknown-netbsd" "sh" OS_NETBSD true false;
   arch "netbsd-sh3el" "sh3el" "sh3el-unknown-netbsd" "sh" OS_NETBSD true false;
   arch "netbsd-sparc" "sparc" "sparc-unknown-netbsd" "sparc" OS_NETBSD true false;
   arch "netbsd-sparc64" "sparc64" "sparc64-unknown-netbsd" "sparc" OS_NETBSD true false;
   arch "netbsd-vax" "vax" "vax-unknown-netbsd" "vax" OS_NETBSD true false;
   arch "netbsd-evbarm" "arm" "arm-unknown-netbsd" "arm" OS_NETBSD true false;
   arch "netbsd-evbmips" "mips" "mips-unknown-netbsd" "mips" OS_NETBSD true false;
   arch "netbsd-evbppc" "powerpc" "powerpc-unknown-netbsd" "powerpc" OS_NETBSD true false;
   arch "freebsd-amd64" "amd64" "x86_64-unknown-freebsd" "x86" OS_FREEBSD true false;
   arch "freebsd-aarch64" "aarch64" "aarch64-unknown-freebsd" "arm" OS_FREEBSD true false;
   arch "freebsd-armv7" "armv7" "armv7-unknown-freebsd" "arm" OS_FREEBSD true false;
   arch "freebsd-armv6" "armv6" "armv6-unknown-freebsd" "arm" OS_FREEBSD false true;
   arch "freebsd-i386" "i386" "i386-unknown-freebsd" "x86" OS_FREEBSD false true;
   arch "freebsd-powerpc" "powerpc" "powerpc-unknown-freebsd" "powerpc" OS_FREEBSD true false;
   arch "freebsd-powerpc64" "powerpc64" "powerpc64-unknown-freebsd" "powerpc" OS_FREEBSD true false;
   arch "freebsd-powerpc64le" "powerpc64le" "powerpc64le-unknown-freebsd" "powerpc" OS_FREEBSD true false;
   arch "freebsd-powerpcspe" "powerpcspe" "powerpcspe-unknown-freebsd" "powerpc" OS_FREEBSD false true;
   arch "freebsd-riscv64" "riscv64" "riscv64-unknown-freebsd" "riscv" OS_FREEBSD true false;
   arch "freebsd-mips" "mips" "mips-unknown-freebsd" "mips" OS_FREEBSD false true;
   arch "freebsd-mipsel" "mipsel" "mipsel-unknown-freebsd" "mips" OS_FREEBSD false true;
   arch "freebsd-mips64" "mips64" "mips64-unknown-freebsd" "mips" OS_FREEBSD false true;
   arch "freebsd-mips64el" "mips64el" "mips64el-unknown-freebsd" "mips" OS_FREEBSD false true;
   arch "freebsd-mipsn32" "mipsn32" "mipsn32-unknown-freebsd" "mips" OS_FREEBSD false true;
   arch "freebsd-sparc64" "sparc64" "sparc64-unknown-freebsd" "sparc" OS_FREEBSD false true;
   arch "freebsd-alpha" "alpha" "alpha-unknown-freebsd" "alpha" OS_FREEBSD false true;
   arch "freebsd-ia64" "ia64" "ia64-unknown-freebsd" "ia64" OS_FREEBSD false true;
   arch "openbsd-amd64" "amd64" "x86_64-unknown-openbsd" "x86" OS_OPENBSD true false;
   arch "openbsd-i386" "i386" "i386-unknown-openbsd" "x86" OS_OPENBSD true false;
   arch "openbsd-aarch64" "arm64" "aarch64-unknown-openbsd" "arm" OS_OPENBSD true false;
   arch "openbsd-armv7" "armv7" "armv7-unknown-openbsd" "arm" OS_OPENBSD true false;
   arch "openbsd-mips64" "mips64" "mips64-unknown-openbsd" "mips" OS_OPENBSD false true;
   arch "openbsd-powerpc64" "powerpc64" "powerpc64-unknown-openbsd" "powerpc" OS_OPENBSD false true;
   arch "dragonfly-amd64" "x86_64" "x86_64-unknown-dragonfly" "x86" OS_DRAGONFLY true false;
   arch "solaris-amd64" "i86pc" "x86_64-pc-solaris2" "x86" OS_SOLARIS true false;
   arch "solaris-sparc64" "sparc64" "sparc64-sun-solaris2" "sparc" OS_SOLARIS true false;
   arch "darwin-arm64" "arm64" "aarch64-apple-darwin" "arm" OS_DARWIN true false;
   arch "darwin-x86_64" "x86_64" "x86_64-apple-darwin" "x86" OS_DARWIN true false
  ].

Definition find_architecture (n : cstr) : option architecture :=
  find_first (fun a => strcmp (a_name a) n =? 0) architectures.
Definition find_architecture_triplet (t : cstr) : option architecture :=
  find_first (fun a => strcmp (a_triplet a) t =? 0) architectures.
(** [detect_host_architecture]; [machine] is what [uname] reports. *)
Definition detect_host_architecture (machine : option cstr) : option architecture :=
  m ← machine;
  find_first (fun a => (strcmp (a_uname a) m =? 0) && negb (a_historical a)) architectures.

Definition matches (p : string) (t : cstr) : bool := wildcard_match (lit p) t.

Definition detect_target_os (target : cstr) : target_os :=
  if matches "*-*-linux-*" target || matches "*-*-linux" target then OS_LINUX
  else if matches "*-*-netbsd*" target then OS_NETBSD
  else if matches "*-*-freebsd*" target then OS_FREEBSD
  else if matches "*-*-openbsd*" target then OS_OPENBSD
  else if matches "*-*-dragonfly*" target then OS_DRAGONFLY
  else if matches "*-*-solaris*" target then OS_SOLARIS
  else if matches "*-*-darwin*" target then OS_DARWIN
  else if matches "*-*-none*" target || matches "*-*-elf*" target || matches "*-*-eabi*" target then OS_NONE
  else OS_OTHER.

Definition contains (s : cstr) (n : string) : bool := match strstr s (lit n) with Some _ => true | None => false end.

Definition target_is_elf (target : cstr) : bool :=
  if matches "*-*-elf" target || matches "*-*-elf32" target || matches "*-*-elf64" target
     || matches "*-*-eabi" target || matches "*-*-eabihf" target || matches "*-*-eabisim" target then true
  else if contains target "-elf" then true
  else contains target "-eabi".

Definition target_is_bare_metal (target : cstr) : bool :=
  if decide (detect_target_os target = OS_NONE) then true
  else if target_is_elf target then true
  else matches "*-*-none" target.

(** [split_target]: cpu, vendor and system. *)
Definition split_target (triplet : cstr) : option (cstr * cstr * cstr) :=
  match strchr triplet "-"%char with
  | None => None
  | Some p =>
      let cpu := take (length triplet - length p) triplet in
      let p := tail p in
      match strchr p "-"%char with
      | None => None
      | Some q => Some (cpu, take (length p - length q) p, tail q)
      end
  end.

(** [struct target_spec] *)
Record target_spec := TargetSpec {
  ts_triplet : cstr; ts_cpu : cstr; ts_vendor : cstr; ts_system : cstr; ts_abi : cstr;
  ts_os : target_os; ts_elf : bool; ts_bare_metal : bool; ts_wildcard : bool; ts_known : bool
}.

Definition has_char (s : cstr) (c : ascii) : bool := match strchr s c with Some _ => true | None => false end.
Definition is_pattern (s : cstr) : bool := has_char s "*"%char || has_char s "?"%char.

Definition parse_target (triplet : cstr) : option target_spec :=
  '(cpu, vendor, system) ← split_target triplet;
  Some (TargetSpec triplet cpu vendor system system (detect_target_os triplet) (target_is_elf triplet)
          (target_is_bare_metal triplet) (is_pattern triplet)
          (match find_architecture_triplet triplet with Some _ => true | None => false end)).

Definition resolve_target_pattern (pattern : cstr) : option cstr :=
  if negb (is_pattern pattern) then Some pattern
  else
    match find_first (fun a => wildcard_match pattern (a_triplet a)) architectures with
    | Some a => Some (a_triplet a)
    | None => a_triplet <$> find_first (fun a => wildcard_match pattern (a_name a)) architectures
    end.

(** ** Package names and versions *)

Definition is_dot (c : ascii) : bool := bool_decide (c = "."%char).

Definition name_char (c : ascii) : bool :=
  isalnum c || bool_decide (c ∈ lit "._+@-").

Definition clean_char (c : ascii) : ascii := if name_char c then c else "_"%char.

Definition sanitize_package_name (input : cstr) : option cstr :=
  match input with
  | [] => None
  | _ =>
      let name := clean_char <$> input in
      let name := (span is_dot name).2 in
      match name with
      | [] => None
      | _ => if (strcmp name (lit ".") =? 0) || (strcmp name (lit "..") =? 0) then None else Some name
      end
  end.

Definition version_char (c : ascii) : ascii :=
  if bool_decide (c ∈ lit "-/:") || isspace c then "."%char
  else if isalnum c || bool_decide (c ∈ lit "._") then c
  else "."%char.

(** The loop that collapses repeated dots. *)
Fixpoint collapse (previous_dot : bool) (s : cstr) : cstr :=
  match s with
  | [] => []
  | c :: s' =>
      if is_dot c then if previous_dot then collapse true s' else c :: collapse true s'
      else c :: collapse false s'
  end.

(** [while(length > 0 && version[length - 1] == '.') length--] *)
Fixpoint trailing_length (version : cstr) (length : nat) : nat :=
  match length with
  | O => O
  | S length' => if decide (version !! length' = Some "."%char) then trailing_length version length' else length
  end.

Definition sanitize_package_version (input : cstr) : option cstr :=
  match input with
  | [] => None
  | _ =>
      let version := collapse false (version_char <$> input) in
      let version := (span is_dot version).2 in
      let version := take (trailing_length version (length version)) version in
      match version with [] => None | _ => Some version end
  end.

(** ** Shell words

    Reading one word of a POSIX shell command: text in single quotes is
    literal, a backslash outside them makes the next character literal, a
    blank ends the word, and any other character the shell treats specially is
    not read here. *)

Definition blank (c : ascii) : bool := bool_decide (c = " "%char) || (uchar c =? 9) || (uchar c =? 10).
Definition special (c : ascii) : bool := bool_decide (c ∈ lit "|&;<>()$`*?[#~=%!{}") || (uchar c =? 34).

Fixpoint sh_word (quoted : bool) (s : cstr) : option (cstr * cstr) :=
  match s with
  | [] => if quoted then None else Some ([], [])
  | c :: s' =>
      if decide (c = quote) then sh_word (negb quoted) s'
      else if quoted then '(w, r) ← sh_word true s'; Some (c :: w, r)
      else if blank c then Some ([], s)
      else if decide (c = "\"%char) then
        match s' with
        | [] => None
        | d :: s'' => '(w, r) ← sh_word false s''; Some (d :: w, r)
        end
      else if special c then None
      else '(w, r) ← sh_word false s'; Some (c :: w, r)
  end.

Lemma sh_word_body s rest w r :
  sh_word true rest = Some (w, r) -> sh_word true (quote_body s ++ rest) = Some (s ++ w, r).
Proof.
  intros H. induction s as [|c s IH]; [done|]. cbn [quote_body]. rewrite <- app_assoc.
  destruct (decide (c = quote)) as [->|Hc].
  - change (escaped_quote ++ quote_body s ++ rest) with (quote :: "\"%char :: quote :: quote :: quote_body s ++ rest).
    assert (forall k, sh_word true (quote :: "\"%char :: quote :: quote :: k) = '(w, r) ← sh_word true k; Some (quote :: w, r)) as ->
      by reflexivity.
    by rewrite IH.
  - simpl. rewrite decide_False by done. by rewrite IH.
Qed.

(** C40: a shell reads back exactly the string [shell_quote] was given, whatever
    characters it has, as one word that ends where the quoted text ends; and
    the buffer is exactly as long as the text written to it. *)
Theorem shell_quote_spec s rest
    (Hrest : match rest with [] => True | c :: _ => blank c = true end) :
  sh_word false (shell_quote s ++ rest) = Some (s, rest) /\ length (shell_quote s) = quote_size s.
Proof.
  split.
  - assert (forall k, sh_word false (quote :: k) = sh_word true k) as E by reflexivity.
    unfold shell_quote. rewrite <- app_comm_cons, E, <- app_assoc.
    rewrite (sh_word_body s ([quote] ++ rest) [] rest); [by rewrite app_nil_r|].
    change (sh_word false rest = Some ([], rest)). destruct rest as [|c rest]; [done|]. cbn [sh_word].
    destruct (decide (c = quote)) as [->|]; [done|]. by rewrite Hrest.
  - unfold shell_quote, quote_size. simpl. rewrite length_app. simpl.
    assert (forall n, fold_left (fun size c => size + (if decide (c = quote) then 4 else 1))%nat s n = (n + length (quote_body s))%nat) as ->; [|lia].
    induction s as [|c s IH]; intros n; simpl; [lia|]. rewrite IH, length_app. case_decide; simpl; lia.
Qed.
Lemma shell_quote_witness :
  sh_word false (shell_quote [quote; " "%char; "$"%char] ++ lit " rest") = Some ([quote; " "%char; "$"%char], lit " rest").
Proof. apply (shell_quote_spec [quote; " "%char; "$"%char] (lit " rest")). reflexivity. Defined.

(** ** Wildcards *)

(** What a pattern means: a star stands for any text, a question mark for any
    character. *)
Inductive glob : cstr -> cstr -> Prop :=
| glob_nil : glob [] []
| glob_star p w s : glob p s -> glob ("*"%char :: p) (w ++ s)
| glob_any p c s : glob p s -> glob ("?"%char :: p) (c :: s)
| glob_char p c s : c <> "*"%char -> glob p s -> glob (c :: p) (c :: s).

Lemma glob_star_inv p s : glob ("*"%char :: p) s <-> exists w r, s = w ++ r /\ glob p r.
Proof.
  split; [|intros (w & r & -> & H); by constructor].
  intros H. inversion H; subst; [eauto|done].
Qed.
Lemma glob_step p c s x : p <> "*"%char -> glob (p :: x) (c :: s) <-> (p = "?"%char \/ p = c) /\ glob x s.
Proof.
  intros Hp. split; [intros H; inversion H; subst; auto; done|]. intros [[-> | ->] H]; by constructor.
Qed.
Lemma glob_nil_r p : glob p [] <-> (span (fun c => bool_decide (c = "*"%char)) p).2 = [].
Proof.
  induction p as [|c p IH]; simpl; [split; [done|constructor]|]. case_bool_decide as Hc.
  - subst. destruct (span _ p) as [a b]. simpl in *. rewrite glob_star_inv, <- IH. split.
    + intros (w & r & [-> ->]%eq_sym%app_eq_nil & H). done.
    + intros H. by exists [], [].
  - split; [|done]. intros H. inversion H; subst. done.
Qed.

(** The part of the pattern since the last star, and of the string since the
    mark, have been matched character by character. *)
Definition star_free (q : cstr) : Prop := "*"%char ∉ q.
Lemma glob_prefix q p t : star_free q -> glob (q ++ p) t -> exists u v, t = u ++ v /\ length u = length q /\ glob p v.
Proof.
  revert t. induction q as [|x q IH]; intros t Hq H; [by exists [], t|]. apply not_elem_of_cons in Hq as [Hx Hq].
  simpl in H. destruct t as [|c t]; [inversion H; subst; done|].
  apply glob_step in H as [_ H]; [|done]. destruct (IH t Hq H) as (u & v & -> & Hl & Hv).
  exists (c :: u), v. simpl. auto.
Qed.

(** What the loop decides: the rest of the pattern matches the rest of the
    string, or the pattern after the last star matches a later suffix. *)
Definition later (star : option (cstr * cstr)) : Prop :=
  match star with
  | Some (after, mark) => exists w r, w <> [] /\ mark = w ++ r /\ glob after r
  | None => False
  end.
Definition tracks (pattern string : cstr) (star : option (cstr * cstr)) : Prop :=
  match star with
  | Some (after, mark) => exists q m, after = q ++ pattern /\ mark = m ++ string /\ length q = length m /\ star_free q
  | None => True
  end.
Definition budget (n : nat) (pattern string : cstr) (star : option (cstr * cstr)) : nat :=
  match star with Some (_, mark) => length mark | None => length string end * S n + length pattern.

Lemma tracks_here pattern string : tracks pattern string (Some (pattern, string)).
Proof. exists [], []. split_and!; [done..|apply not_elem_of_nil]. Qed.

Lemma suffix_of_longer (w m u s v : cstr) : w <> [] -> m ++ s = w ++ u ++ v -> length m = length u -> exists k, s = k ++ v.
Proof.
  intros Hw E Hl. assert (length s = length w + length v)%nat as Hs
    by (apply (f_equal length) in E; rewrite !length_app in E; lia).
  exists (drop (length m) (w ++ u)). rewrite app_assoc in E.
  assert (s = drop (length m) (m ++ s)) as -> by by rewrite drop_app_length.
  rewrite E. rewrite drop_app_le; [done|]. rewrite length_app. lia.
Qed.

Lemma later_tail after mark c s m :
  mark = m ++ c :: s -> later (Some (after, mark)) <-> glob after (tail mark) \/ later (Some (after, tail mark)).
Proof.
  intros ->. destruct m as [|x m]; simpl; split.
  1, 3: intros ([|y w] & r & Hw & E & H); [done|]; injection E as <- E; destruct w as [|z w];
        [left; simpl in E; by rewrite E|right; exists (z :: w), r; by rewrite E].
  - intros [H|(w & r & Hw & E & H)]; [by exists [c], s|exists (c :: w), r; rewrite E; by split_and!].
  - intros [H|(w & r & Hw & E & H)]; [by exists [x], (m ++ c :: s)|exists (x :: w), r; rewrite E; by split_and!].
Qed.

Lemma later_star pattern s star :
  tracks ("*"%char :: pattern) s star -> later star -> glob ("*"%char :: pattern) s.
Proof.
  destruct star as [[after mark]|]; [|done]. intros (q & m & -> & -> & Hl & Hq) (w & r & Hw & E & H).
  apply glob_prefix in H as (u & v & -> & Hu & Hv); [|done].
  destruct (suffix_of_longer w m u s v) as [k ->]; [done|done|lia|].
  apply glob_star_inv in Hv as (w' & r & -> & Hv). apply glob_star_inv. exists (k ++ w'), r. by rewrite <- app_assoc.
Qed.

Lemma star_later pattern s : glob ("*"%char :: pattern) s <-> glob pattern s \/ later (Some (pattern, s)).
Proof.
  rewrite glob_star_inv. split.
  - intros ([|c w] & r & -> & H); [by left|right]. by exists (c :: w), r.
  - intros [H|(w & r & _ & -> & H)]; [by exists [], s|eauto].
Qed.

Lemma wildcard_loop_spec n fuel pattern string star :
  tracks pattern string star ->
  (match star with Some (after, _) => length after | None => length pattern end <= n)%nat -> (length pattern <= n)%nat ->
  (budget n pattern string star < fuel)%nat ->
  exists b, wildcard_loop fuel pattern string star = Some b /\ (b = true <-> glob pattern string \/ later star).
Proof.
  revert pattern string star. induction fuel as [|fuel IH]; intros pattern string star Ht Hn Hp Hf; [lia|].
  destruct string as [|c string]; cbn [wildcard_loop].
  { eexists. split; [done|]. rewrite bool_decide_eq_true, <- glob_nil_r. split; [by left|]. intros [H|H]; [done|].
    destruct star as [[after mark]|]; [|done]. destruct Ht as (q & m & -> & -> & Hl & Hq), H as (w & r & Hw & E & H).
    apply glob_prefix in H as (u & v & -> & Hu & Hv); [|done].
    exfalso. apply (f_equal length) in E. rewrite !length_app in E. simpl in E. destruct w; [done|]. simpl in E. lia. }
  assert (~ glob pattern (c :: string) -> exists b,
    match star with
    | Some (after, mark) => wildcard_loop fuel after (tail mark) (Some (after, tail mark))
    | None => Some false
    end = Some b /\ (b = true <-> glob pattern (c :: string) \/ later star)) as Hmis.
  { intros Hno. destruct star as [[after mark]|]; [|exists false; split; [done|]; naive_solver].
    destruct Ht as (q & m & -> & Em & Hl & Hq).
    destruct (IH (q ++ pattern) (tail mark) (Some (q ++ pattern, tail mark))) as (b & E & Hb).
    - apply tracks_here.
    - done.
    - done.
    - unfold budget in *. rewrite Em in *. rewrite length_app in Hf. simpl in Hf. destruct m as [|x m]; simpl in *; [lia|].
      rewrite ?length_app in *. simpl in *. lia.
    - exists b. split; [done|]. rewrite Hb, (later_tail (q ++ pattern) mark c string m Em). tauto. }
  destruct pattern as [|p pattern]; [apply Hmis; inversion 1|]. destruct (decide (p = "*"%char)) as [->|Hps].
  { destruct (IH pattern (c :: string) (Some (pattern, c :: string))) as (b & E & Hb).
    - apply tracks_here.
    - simpl in *. lia.
    - simpl in *. lia.
    - unfold budget in *. simpl in Hp. destruct star as [[after mark]|]; [|simpl in *; lia].
      destruct Ht as (q & m & -> & -> & _). rewrite length_app in Hf. simpl in *. nia.
    - exists b. split; [done|]. rewrite Hb, <- star_later. split; [auto|]. intros [H|H]; [done|]. by eapply later_star. }
  case_decide as Hm.
  - destruct (IH pattern string star) as (b & E & Hb).
    + destruct star as [[after mark]|]; [|done]. destruct Ht as (q & m & -> & -> & Hl & Hq).
      exists (q ++ [p]), (m ++ [c]). rewrite <- !app_assoc, !length_app. simpl. split_and!; [done|done|lia|].
      unfold star_free. set_solver.
    + destruct star as [[after mark]|]; simpl in *; lia.
    + simpl in *. lia.
    + unfold budget in *. simpl in *. destruct star as [[after mark]|]; simpl in *; nia.
    + exists b. split; [done|]. rewrite Hb, glob_step by done. tauto.
  - apply Hmis. rewrite glob_step by done. tauto.
Qed.

(** [wildcard_match] ends within the fuel it is given and decides exactly
    whether the pattern matches the string, although it only ever goes back to
    the last star. *)
Theorem wildcard_match_spec pattern string :
  is_Some (wildcard_loop (S (length string) * S (length pattern)) pattern string None) /\
  (wildcard_match pattern string = true <-> glob pattern string).
Proof.
  unfold wildcard_match.
  destruct (wildcard_loop_spec (length pattern) (S (length string) * S (length pattern)) pattern string None)
    as (b & E & Hb); [done|done|done|unfold budget; lia|].
  rewrite E. split; [done|]. simpl. rewrite Hb. simpl. tauto.
Qed.

(** ** Targets *)

(** A triplet splits into cpu, vendor and system exactly when it has two
    hyphens, and the parts put together give it back; the cpu and the vendor
    have no hyphen. *)
Theorem split_target_spec triplet cpu vendor system :
  split_target triplet = Some (cpu, vendor, system) <->
  triplet = cpu ++ "-"%char :: vendor ++ "-"%char :: system /\ "-"%char ∉ cpu /\ "-"%char ∉ vendor.
Proof.
  unfold split_target. split.
  - destruct (strchr triplet "-"%char) as [p|] eqn:Ep; [|done].
    apply strchr_split in Ep as (u & r & -> & -> & Hu). simpl.
    destruct (strchr r "-"%char) as [q|] eqn:Eq; [|done].
    apply strchr_split in Eq as (u' & r' & -> & -> & Hu'). simpl.
    rewrite !length_app. simpl. rewrite !length_app. simpl.
    replace (length u + S (length u' + S (length r')) - S (length u' + S (length r')))%nat with (length u) by lia.
    replace (length u' + S (length r') - S (length r'))%nat with (length u') by lia.
    rewrite !take_app_length. intros [= <- <- <-]. auto.
  - intros (-> & Hc & Hv). rewrite strchr_app by done. simpl. rewrite strchr_app by done. simpl.
    rewrite !length_app. simpl. rewrite !length_app. simpl.
    replace (length cpu + S (length vendor + S (length system)) - S (length vendor + S (length system)))%nat with (length cpu) by lia.
    replace (length vendor + S (length system) - S (length system))%nat with (length vendor) by lia.
    by rewrite !take_app_length.
Qed.

(** The table of architectures is consistent with the code that reads triplets:
    names are unique, and every triplet parses as a known target of the
    operating system the table gives. *)
Lemma architectures_consistent :
  NoDup (a_name <$> architectures) /\
  Forall (fun a => (fun t => (ts_os t, ts_known t, ts_wildcard t)) <$> parse_target (a_triplet a) = Some (a_os a, true, false))
    architectures.
Proof. split; by_decide. Qed.

Lemma has_char_spec s c : has_char s c = true <-> c ∈ s.
Proof.
  unfold has_char. destruct (strchr s c) as [r|] eqn:E.
  - apply strchr_split in E as (u & r' & -> & -> & _). split; [set_solver|done].
  - apply strchr_None in E. done.
Qed.
Lemma is_pattern_spec s : is_pattern s = true <-> "*"%char ∈ s \/ "?"%char ∈ s.
Proof. unfold is_pattern. by rewrite orb_true_iff, !has_char_spec. Qed.

Lemma wildcard_glob p s : wildcard_match p s = true <-> glob p s.
Proof.
  destruct (wildcard_loop_spec (length p) (S (length s) * S (length p)) p s None) as (b & E & Hb);
    [done|done|done|unfold budget; lia|].
  unfold wildcard_match. rewrite E. simpl. rewrite Hb. simpl. tauto.
Qed.

(** A plain target resolves to itself; a pattern resolves to the triplet of
    an entry whose triplet or name it matches, a matching triplet taking
    precedence, and fails only if it matches none. *)
Theorem resolve_target_pattern_spec pattern :
  match resolve_target_pattern pattern with
  | Some t => (t = pattern /\ "*"%char ∉ pattern /\ "?"%char ∉ pattern) \/
      exists a, a ∈ architectures /\ a_triplet a = t /\
        (glob pattern (a_triplet a) \/ glob pattern (a_name a) /\ forall b, b ∈ architectures -> ~ glob pattern (a_triplet b))
  | None => forall a, a ∈ architectures -> ~ glob pattern (a_triplet a) /\ ~ glob pattern (a_name a)
  end.
Proof.
  unfold resolve_target_pattern. generalize architectures. intros archs. destruct (is_pattern pattern) eqn:Ep; simpl.
  2: { left. split; [done|]. apply not_true_iff_false in Ep. rewrite is_pattern_spec in Ep. tauto. }
  destruct (find_first _ archs) as [a|] eqn:E1.
  { apply find_first_Some in E1 as [Ha Hm]. right. exists a. rewrite wildcard_glob in Hm. auto. }
  rewrite find_first_None in E1. assert (forall b, b ∈ archs -> ~ glob pattern (a_triplet b)) as Hno.
  { intros b Hb. rewrite <- wildcard_glob. by rewrite E1. }
  destruct (find_first _ archs) as [a|] eqn:E2; simpl.
  - apply find_first_Some in E2 as [Ha Hm]. right. exists a. rewrite wildcard_glob in Hm. auto.
  - rewrite find_first_None in E2. intros a Ha. split; [by apply Hno|]. rewrite <- wildcard_glob. by rewrite E2.
Qed.

(** ** Names and versions *)

Lemma span_dots s : exists k, s = replicate k "."%char ++ (span is_dot s).2 /\ head (span is_dot s).2 <> Some "."%char.
Proof.
  induction s as [|c s (k & E & H)]; [by exists 0%nat|]. simpl. destruct (is_dot c) eqn:Ec.
  - apply bool_decide_eq_true in Ec as ->. destruct (span is_dot s) as [a b]. simpl in *. exists (S k). simpl. by rewrite <- E.
  - exists 0%nat. split; [done|]. apply bool_decide_eq_false in Ec. simpl. congruence.
Qed.

Lemma clean_char_ok c : name_char (clean_char c) = true.
Proof. unfold clean_char. by destruct (name_char c) eqn:E. Qed.

(** A sanitised package name is not empty, consists of letters, digits and
    the five characters makepkg allows, does not start with a dot, and is the
    input, with forbidden characters replaced, less its leading dots; there is
    none exactly for inputs of dots only. *)
Theorem sanitize_package_name_spec input :
  match sanitize_package_name input with
  | Some n => n <> [] /\ Forall (fun c => name_char c = true) n /\ head n <> Some "."%char /\
      exists k, clean_char <$> input = replicate k "."%char ++ n
  | None => Forall (fun c => c = "."%char) input
  end.
Proof.
  unfold sanitize_package_name. destruct input as [|c0 input']; [done|]. set (input := c0 :: input').
  destruct (span_dots (clean_char <$> input)) as (k & E & Hh). destruct (span is_dot (clean_char <$> input)) as [dots n]. cbn [snd] in *.
  assert (Forall (fun c => name_char c = true) (clean_char <$> input)) as Hall
    by (apply Forall_fmap, Forall_true; intros; apply clean_char_ok).
  destruct n as [|c n].
  - apply Forall_forall. intros c Hc. assert (clean_char c ∈ clean_char <$> input) as Hin by by apply list_elem_of_fmap_2.
    rewrite E, app_nil_r in Hin. apply elem_of_replicate_inv in Hin. unfold clean_char in Hin. by destruct (name_char c).
  - assert (strcmp (c :: n) (lit ".") =? 0 = false) as -> by (apply Z.eqb_neq; rewrite strcmp_eq; intros [= -> _]; done).
    assert (strcmp (c :: n) (lit "..") =? 0 = false) as -> by (apply Z.eqb_neq; rewrite strcmp_eq; intros [= -> _]; done).
    simpl. split_and!; [done| |done|by exists k]. rewrite E in Hall. by apply Forall_app in Hall as [_ ?].
Qed.

(** The characters a version keeps. *)
Definition keeps (c : ascii) : bool := isalnum c || bool_decide (c = "_"%char).
Definition kept (s : cstr) : cstr := List.filter keeps s.

Lemma version_char_keeps c : version_char c = if keeps c then c else "."%char.
Proof. by destruct c as [[] [] [] [] [] [] [] []]. Qed.
Lemma keeps_dot c : is_dot c = true -> keeps c = false.
Proof. intros H%bool_decide_eq_true. by subst. Qed.

Lemma kept_app s r : kept (s ++ r) = kept s ++ kept r.
Proof. apply List.filter_app. Qed.
Lemma kept_dots k : kept (replicate k "."%char) = [].
Proof. induction k as [|k IH]; [done|]. exact IH. Qed.
Lemma kept_version s : kept (version_char <$> s) = kept s.
Proof.
  induction s as [|c s IH]; [done|]. unfold kept in *. simpl. rewrite version_char_keeps.
  destruct (keeps c) eqn:E; simpl; [rewrite E; by f_equal|done].
Qed.
Lemma kept_collapse p s : kept (collapse p s) = kept s.
Proof.
  revert p. induction s as [|c s IH]; intros p; [done|]. unfold kept in *. simpl.
  destruct (is_dot c) eqn:E; [rewrite (keeps_dot _ E); destruct p; simpl; rewrite ?(keeps_dot _ E); apply IH|].
  simpl. by rewrite IH.
Qed.

(** No two dots in a row. *)
Definition single_dots (s : cstr) : Prop := forall a b, s <> a ++ "."%char :: "."%char :: b.
Lemma single_dots_infix x s y : single_dots (x ++ s ++ y) -> single_dots s.
Proof. intros H a b ->. apply (H (x ++ a) (b ++ y)). by rewrite <- !app_assoc. Qed.
Lemma collapse_single p s : single_dots (collapse p s) /\ (p = true -> head (collapse p s) <> Some "."%char).
Proof.
  revert p. induction s as [|c s IH]; intros p; [split; [by intros [|? [|? ?]] b|done]|].
  cbn [collapse]. destruct (is_dot c) eqn:E.
  - apply bool_decide_eq_true in E as ->. destruct (IH true) as [H1 H2]. destruct p; [done|]. split; [|done].
    intros [|x a] b; simpl; intros [= E]; [|subst; by eapply H1]. by rewrite E in H2; apply H2.
  - apply bool_decide_eq_false in E. destruct (IH false) as [H1 _]. split; [|intros _; simpl; congruence].
    intros [|x a] b; simpl; [intros [= ? _]; done|intros [= -> E']; by eapply H1].
Qed.

Lemma trailing_length_spec s n :
  (n <= length s)%nat ->
  exists k, take n s = take (trailing_length s n) s ++ replicate k "."%char /\
    last (take (trailing_length s n) s) <> Some "."%char.
Proof.
  induction n as [|n IH]; intros Hn; cbn [trailing_length]; [by exists 0%nat|].
  destruct (lookup_lt_is_Some_2 s n) as [c Hc]; [lia|]. rewrite Hc.
  destruct (decide (Some c = Some "."%char)) as [[= ->]|Hne].
  - destruct IH as (k & E & H); [lia|]. exists (S k). split; [|done]. rewrite (take_S_r _ _ _ Hc), E.
    rewrite <- app_assoc. f_equal. by rewrite <- replicate_cons_app.
  - exists 0%nat. rewrite app_nil_r. split; [done|]. rewrite (take_S_r _ _ _ Hc), last_snoc. done.
Qed.

(** What makepkg accepts as a version. *)
Definition clean_version (v : cstr) : Prop :=
  v <> [] /\ Forall (fun c => keeps c = true \/ c = "."%char) v /\
  head v <> Some "."%char /\ last v <> Some "."%char /\ single_dots v.

Lemma collapse_chars p s c : c ∈ collapse p s -> c ∈ s.
Proof.
  revert p. induction s as [|x s IH]; intros p; [done|]. cbn [collapse]. rewrite elem_of_cons.
  destruct (is_dot x), p; rewrite ?elem_of_cons; naive_solver.
Qed.

(** The three parts of what the trimming leaves: dots, the version, dots. *)
Lemma version_parts input :
  exists j k v, collapse false (version_char <$> input) = replicate j "."%char ++ v ++ replicate k "."%char /\
    sanitize_package_version input = match v with [] => None | _ => Some v end /\
    head v <> Some "."%char /\ last v <> Some "."%char.
Proof.
  destruct input as [|c0 input']; [by exists 0%nat, 0%nat, []|]. set (input := c0 :: input').
  set (s := collapse false (version_char <$> input)).
  destruct (span_dots s) as (j & E & Hh). set (u := (span is_dot s).2) in *.
  destruct (trailing_length_spec u (length u)) as (k & Eu & Hl); [lia|]. rewrite take_ge in Eu by lia.
  set (v := take (trailing_length u (length u)) u) in *. exists j, k, v. split_and!; [by rewrite E, Eu|done| |done].
  destruct v; [done|]. rewrite Eu in Hh. done.
Qed.

(** A sanitised version is one makepkg accepts: letters, digits and
    underscores separated by single dots, none at the ends.  It keeps the
    letters, digits and underscores of the input in order, and there is none
    exactly when the input has none of them. *)
Theorem sanitize_package_version_spec input :
  match sanitize_package_version input with
  | Some v => clean_version v /\ kept v = kept input
  | None => kept input = []
  end.
Proof.
  destruct (version_parts input) as (j & k & v & E & -> & Hh & Hl).
  assert (kept v = kept input) as Hk.
  { rewrite <- (kept_version input), <- (kept_collapse false (version_char <$> input)), E, !kept_app, !kept_dots. by rewrite app_nil_r. }
  destruct v as [|c v]; [done|]. split; [|done]. split_and!; [done| |done|done|].
  - apply Forall_forall. intros x Hx. assert (x ∈ collapse false (version_char <$> input)) as Hin by (rewrite E; set_solver).
    apply collapse_chars, list_elem_of_fmap in Hin as (y & -> & _). rewrite version_char_keeps. destruct (keeps y) eqn:Ey; auto.
  - eapply single_dots_infix. rewrite <- E. apply (collapse_single false).
Qed.

Lemma parseEVR_plain v r :
  "-"%char ∉ v -> ":"%char ∉ v ->
  Version.parseEVR (v ++ "-"%char :: r) =
  {| Version.evr_epoch := lit "0"; Version.evr_version := v; Version.evr_release := Some r |}.
Proof.
  intros Hd Hc. unfold Version.parseEVR.
  assert (exists u w, v = u ++ w /\ span isdigit (v ++ "-"%char :: r) = (u, w ++ "-"%char :: r)) as (u & w & -> & E).
  { clear Hd Hc. induction v as [|c v (u & w & -> & E)]; [by exists [], []|]. cbn [app span]. destruct (isdigit c).
    - rewrite E. by exists (c :: u), w.
    - by exists [], (c :: u ++ w). }
  rewrite E. assert (Version.cut_release (w ++ "-"%char :: r) = (w, Some r)) as Ec.
  { unfold Version.cut_release. rewrite strchr_app by set_solver. rewrite length_app. simpl.
    replace (length w + S (length r) - S (length r))%nat with (length w) by lia. by rewrite take_app_length. }
  destruct w as [|c w]; simpl app in *; [by rewrite Ec|].
  destruct (decide (c = ":"%char)) as [->|Hne]; [set_solver|].
  destruct c as [[] [] [] [] [] [] [] []]; try (by rewrite Ec). done.
Qed.

(** The full version [packinstall] builds from a sanitised version and a
    release is read back by the package manager's own [parseEVR] as epoch 0,
    that version and that release. *)
Theorem sanitized_version_parses input v rel (H : sanitize_package_version input = Some v) :
  Version.parseEVR (v ++ "-"%char :: rel) =
  {| Version.evr_epoch := lit "0"; Version.evr_version := v; Version.evr_release := Some rel |}.
Proof.
  destruct (version_parts input) as (j & k & w & E & Hs & _). rewrite H in Hs. destruct w as [|c w]; [done|]. injection Hs as ->.
  assert (forall x, x ∈ c :: w -> keeps x = true \/ x = "."%char) as Hc.
  { intros x Hx. assert (x ∈ collapse false (version_char <$> input)) as Hin by (rewrite E; set_solver).
    apply collapse_chars, list_elem_of_fmap in Hin as (y & -> & _). rewrite version_char_keeps. destruct (keeps y) eqn:Ey; auto. }
  apply parseEVR_plain; intros Hin; by destruct (Hc _ Hin).
Qed.
Lemma sanitized_version_witness :
  Version.parseEVR (lit "6.2.0.alpha.2-1") =
  {| Version.evr_epoch := lit "0"; Version.evr_version := lit "6.2.0.alpha.2"; Version.evr_release := Some (lit "1") |}.
Proof. apply (sanitized_version_parses (lit "6.2.0-alpha.2") (lit "6.2.0.alpha.2") (lit "1")). reflexivity. Defined.

End PackInstall.
