(* ===== verification/FileSys.v ===== *)
(** * The file system

    The part of POSIX the code that removes and extracts files uses.  A file
    system maps absolute paths, without trailing slash, to nodes.  A path is
    looked up as it is: symbolic links in its directory part are not followed
    (the packages of one system agree on the names of the directories), the
    last component is followed by the calls that do so in C, through the
    parameter [follow].  Which paths the system refuses to change (permissions,
    read-only mounts, I/O errors) is the parameter [denied]. *)

From S2P Require Import Prelude CStr Util Conflict.
Local Open Scope Z_scope.

Module FileSys.

Inductive node := NFile (content : cstr) | NDir | NLink (target : cstr).
#[global] Instance node_eq_dec : EqDecision node.
Proof. solve_decision. Defined.
Notation fs := (gmap cstr node).

Definition PATH_MAX : nat := 4096.

(** A hash function, and the files it cannot be computed of although they can be
    looked up: no memory, no permission to read, an I/O error. *)
Record hasher := Hasher { hash_of :> cstr -> cstr; hash_fails : cstr -> bool }.
Definition ex_md5 : hasher := Hasher (fun c => c) (fun _ => false).

(** [lstat] through [llstat], which drops trailing slashes. *)
Definition llstat (f : fs) (path : cstr) : option node := f !! Conflict.strip_slashes (length path) path.

(** The names in a directory, without [.] and [..]. *)
Definition dir_prefix (d : cstr) : cstr := if decide (d = lit "/") then d else d ++ lit "/".
Definition child_name (d k : cstr) : option cstr :=
  if is_prefix (dir_prefix d) k then
    let n := drop (length (dir_prefix d)) k in
    match n with [] => None | _ => match strchr n "/"%char with Some _ => None | None => Some n end end
  else None.
Definition readdir (f : fs) (d : cstr) : list cstr := omap (child_name d) (map_to_list f).*1.

Section Calls.
Variables (denied : cstr -> bool) (follow : fs -> cstr -> option node).

(** [unlink] and [rmdir]; [None] is the result -1. *)
Definition unlink (f : fs) (path : cstr) : option fs :=
  match f !! path with
  | None | Some NDir => None
  | Some _ => if denied path then None else Some (delete path f)
  end.
Definition rmdir (f : fs) (path : cstr) : option fs :=
  match f !! path with
  | Some NDir =>
      match readdir f path with
      | [] => if denied path then None else Some (delete path f)
      | _ => None
      end
  | _ => None
  end.

(** Moving the subtree at [a] to [b]. *)
Definition moved (a b k : cstr) : cstr :=
  if decide (k = a) then b else if is_prefix (a ++ lit "/") k then b ++ drop (length a) k else k.
Definition move_tree (f : fs) (a b : cstr) : fs :=
  list_to_map ((fun kn => (moved a b kn.1, kn.2)) <$> map_to_list (delete b f)).

(** [rename]; the two paths are in the same directory. *)
Definition rename (f : fs) (a b : cstr) : option fs :=
  match f !! a with
  | None => None
  | Some n =>
      if denied a || denied b then None
      else if decide (a = b) then Some f
      else
        match n, f !! b with
        | NDir, Some NDir => match readdir f b with [] => Some (move_tree f a b) | _ => None end
        | NDir, Some _ => None
        | NDir, None => Some (move_tree f a b)
        | _, Some NDir => None
        | _, _ => Some (<[b := n]> (delete a f))
        end
  end.
(** [rename] with its result ignored. *)
Definition try_rename (f : fs) (a b : cstr) : fs := default f (rename f a b).

(** What [open] and [stat] find. *)
Definition stat (f : fs) (path : cstr) : option node :=
  match f !! path with Some (NLink _) => follow f path | n => n end.

(** [klpm_compute_md5sum]: NULL for what cannot be opened or is no regular file,
    and where reading or the computation fails. *)
Definition compute_md5sum (md5 : hasher) (f : fs) (path : cstr) : option cstr :=
  if hash_fails md5 path then None else match stat f path with Some (NFile c) => Some (md5 c) | _ => None end.
End Calls.
Lemma compute_md5sum_file follow md5 f path c : hash_fails md5 path = false -> f !! path = Some (NFile c) -> compute_md5sum follow md5 f path = Some (md5 c).
Proof. intros Hh Hf. unfold compute_md5sum, stat. by rewrite Hh, Hf. Qed.

(** ** Frames *)

(** Two file systems that differ at most at the paths in [P]. *)
Definition only_differ (P : cstr -> Prop) (f f' : fs) : Prop := forall k, ~ P k -> f' !! k = f !! k.

#[global] Instance only_differ_preorder P : PreOrder (only_differ P).
Proof. split; [by intros f k|]. intros f g h H1 H2 k Hk. by rewrite H2, H1. Qed.
Lemma only_differ_mono P Q f f' : (forall k, P k -> Q k) -> only_differ P f f' -> only_differ Q f f'.
Proof. intros H Hd k Hk. apply Hd. auto. Qed.

Section Laws.
Context (denied : cstr -> bool).

Lemma unlink_Some f path f' : unlink denied f path = Some f' ->
  f' = delete path f /\ (exists n, f !! path = Some n /\ n <> NDir) /\ denied path = false.
Proof.
  unfold unlink. destruct (f !! path) as [[c| |t]|] eqn:E; try done; destruct (denied path); try done; intros [= <-]; split_and!; eauto.
Qed.
Lemma unlink_frame f path f' : unlink denied f path = Some f' -> only_differ (fun k => k = path) f f'.
Proof. intros (-> & _ & _)%unlink_Some k Hk. by rewrite lookup_delete_ne. Qed.

Lemma rmdir_Some f path f' : rmdir denied f path = Some f' ->
  f' = delete path f /\ f !! path = Some NDir /\ readdir f path = [] /\ denied path = false.
Proof.
  unfold rmdir. destruct (f !! path) as [[c| |t]|] eqn:E; try done. destruct (readdir f path); [|done].
  destruct (denied path); [done|]. by intros [= <-].
Qed.
Lemma rmdir_frame f path f' : rmdir denied f path = Some f' -> only_differ (fun k => k = path) f f'.
Proof. intros (-> & _)%rmdir_Some k Hk. by rewrite lookup_delete_ne. Qed.

(** Renaming something that is not a directory. *)
Lemma rename_file f a b n : f !! a = Some n -> n <> NDir ->
  rename denied f a b =
    if denied a || denied b then None
    else if decide (a = b) then Some f
    else if decide (f !! b = Some NDir) then None
    else Some (<[b := n]> (delete a f)).
Proof.
  intros E Hn. unfold rename. rewrite E. destruct (denied a || denied b); [done|]. case_decide; [done|].
  destruct n; [|done|]; destruct (f !! b) as [[]|]; first [rewrite decide_True by done; done|rewrite decide_False by done; done].
Qed.

(** Renaming onto a free name moves the node, or does nothing when there is
    none. *)
Lemma try_rename_free f a b : a <> b -> f !! b = None -> f !! a <> Some NDir -> denied a = false -> denied b = false ->
  forall k, try_rename denied f a b !! k = if decide (k = b) then f !! a else if decide (k = a) then None else f !! k.
Proof.
  intros Hab Hb Ha Hda Hdb k. unfold try_rename. destruct (f !! a) as [n|] eqn:E.
  - rewrite (rename_file _ _ _ n E) by congruence. rewrite Hda, Hdb. cbn [orb]. rewrite decide_False by done.
    rewrite decide_False by congruence. cbn [default]. change (default f (Some ?x)) with x. simpl.
    destruct (decide (k = b)) as [->|Hkb]; [by rewrite lookup_insert_eq|]. rewrite lookup_insert_ne by done.
    destruct (decide (k = a)) as [->|]; [by rewrite lookup_delete_eq|by rewrite lookup_delete_ne].
  - unfold rename. rewrite E. simpl. destruct (decide (k = b)) as [->|]; [done|]. destruct (decide (k = a)) as [->|]; done.
Qed.

(** A path under [a]. *)
Definition under (a k : cstr) : Prop := k = a \/ is_prefix (a ++ lit "/") k = true.
Lemma list_to_map_moved (g : cstr -> cstr) (l : list (cstr * node)) k :
  (forall k', k' ∈ l.*1 -> g k' = k <-> k' = k) ->
  (list_to_map ((fun kn => (g kn.1, kn.2)) <$> l) : fs) !! k = (list_to_map l : fs) !! k.
Proof.
  induction l as [|[k0 n] l IH]; intros H; [done|]. cbn [fmap list_fmap list_to_map foldr fst snd uncurry].
  specialize (IH ltac:(intros k' Hk'; apply H; cbn; set_solver)).
  assert (g k0 = k <-> k0 = k) as H0 by (apply H; cbn; set_solver).
  destruct (decide (k0 = k)) as [->|Hne]; [rewrite (proj2 H0) by done; by rewrite !lookup_insert_eq|].
  rewrite !lookup_insert_ne by tauto. exact IH.
Qed.
Lemma move_tree_frame f a b : only_differ (fun k => under a k \/ under b k) f (move_tree f a b).
Proof.
  intros k Hk. unfold move_tree. rewrite list_to_map_moved.
  - rewrite list_to_map_to_list. rewrite lookup_delete_ne; [done|]. intros ->. apply Hk. right. by left.
  - intros k' _. unfold moved. case_decide as E.
    + subst k'. split; intros ->; exfalso; apply Hk; [right|left]; by left.
    + destruct (is_prefix (a ++ lit "/") k') eqn:Ep; [|done]. split.
      * intros <-. exfalso. apply Hk. right. right. apply is_prefix_spec. apply is_prefix_spec in Ep as [r ->].
        exists r. rewrite <- !app_assoc, drop_app_length. done.
      * intros ->. exfalso. apply Hk. left. by right.
Qed.
Lemma rename_frame f a b f' : rename denied f a b = Some f' -> only_differ (fun k => under a k \/ under b k) f f'.
Proof.
  unfold rename. destruct (f !! a) as [n|]; [|done]. destruct (denied a || denied b); [done|].
  case_decide; [by intros [= <-]|].
  assert (only_differ (fun k => under a k \/ under b k) f (<[b := n]> (delete a f))) as Hi.
  { intros k Hk. rewrite lookup_insert_ne, lookup_delete_ne; [done| |]; intros ->; apply Hk; [left|right]; by left. }
  pose proof (move_tree_frame f a b) as Hm.
  destruct n; [|destruct (f !! b) as [[]|]; [done|destruct (readdir f b); [|done]|done|]|]; try (destruct (f !! b) as [[]|]); intros [= <-]; done.
Qed.
End Laws.

End FileSys.
