(* ===== verification/RemoveFiles.v ===== *)
(** * Removing the files of a package ([src/lib/libkuzpkg/remove.c])

    [unlink_file] with its backups ([.pacsave]), [remove_package_files] and
    [_klpm_remove_single_package] over the file system of [FileSys].  The
    answers of the system that are not in the file system, the scriptlets, MD5,
    regular expressions and file name patterns are parameters.  The local
    database directory is kept apart, as the entries by name and version. *)

From S2P Require Import Prelude CStr Version KList Package FileList PkgHash Util Conflict Db LocalDb FileSys.
Local Open Scope Z_scope.

Module RemoveFiles.
Import FileSys.

Section Calls.
Variables (denied unreadable : cstr -> bool) (follow : fs -> cstr -> option node).
(** [st_dev], of the object itself and through [stat]. *)
Variables (lstat_dev : cstr -> Z) (stat_dev : cstr -> option Z).
(** [access(path, W_OK)]: [None] is success, [Some true] the errors EACCES and
    ETXTBSY, [Some false] any other. *)
Variable access_w : cstr -> option bool.
Variables (md5 : hasher) (regcomp : cstr -> option (cstr -> bool)) (fnmatch : cstr -> cstr -> Z).
(** [handle->root], [handle->noupgrade], [trans->skip_remove] and the packages
    of the local database. *)
Variables (root : cstr) (noupgrade skip_remove : list cstr) (local_pkgs : list pkg).

Definition dir_is_mountpoint (directory : cstr) (stbuf : option Z) : bool :=
  match (match stbuf with Some d => Some d | None => stat_dev directory end) with
  | None => false
  | Some dir_st_dev =>
      match stat_dev (directory ++ lit "..") with
      | None => false
      | Some parent => negb (dir_st_dev =? parent)
      end
  end.

Definition can_remove_file (f : fs) (fl : file) : bool :=
  let filepath := take (PATH_MAX - 1) (root ++ f_name fl) in
  if FileList.is_dir_name (f_name fl) && dir_is_mountpoint filepath None then true
  else match access_w filepath with
       | Some false => match llstat f filepath with Some _ => false | None => true end
       | _ => true
       end.

(** ** shift_pacsave *)

Definition pacsave (path : cstr) : cstr := path ++ lit ".pacsave".
(** ["%s.pacsave.%lu"] *)
Definition numbered (path : cstr) (n : Z) : cstr := path ++ lit ".pacsave." ++ Util.print_u n.
Definition save_regex (base : cstr) : cstr := lit "^" ++ base ++ lit "\.pacsave\.([[:digit:]]+)$".

(** The loop over the directory: the highest number in use. *)
Definition save_number (base entry : cstr) : Z := (Util.strtoull (drop (length base + length (lit ".pacsave.")) entry)).1.1.
Definition log_max (matches : cstr -> bool) (base : cstr) (entries : list cstr) : Z :=
  fold_left (fun m e => if matches e then (if m <? save_number base e then save_number base e else m) else m) entries 0.

(** [for(i = log_max + 1; i > 1; i--)], called with [n = i - 1]; false is the
    jump to [cleanup]. *)
Fixpoint shift_loop (n : nat) (f : fs) (path : cstr) : bool * fs :=
  match n with
  | O => (true, f)
  | S m =>
      let oldfile := numbered path (Z.of_nat n) in
      let newfile := numbered path (Z.of_nat n + 1) in
      if (PATH_MAX <=? length oldfile)%nat || (PATH_MAX <=? length newfile)%nat then (false, f)
      else shift_loop m (try_rename denied f oldfile newfile) path
  end.

Definition shift_pacsave (f : fs) (path : cstr) : fs :=
  let dirname := Util.mdirname (Some path) in
  let base := Util.mbasename path in
  match regcomp (take (PATH_MAX - 1) (save_regex base)) with
  | None => f
  | Some matches =>
      if unreadable dirname then f
      else
        let m := log_max matches base (readdir f dirname) in
        let start := u64 (m + 1) in
        match shift_loop (Z.to_nat (start - 1)) f path with
        | (false, f) => f
        | (true, f) =>
            let oldfile := pacsave path in
            let newfile := oldfile ++ lit ".1" in
            if (PATH_MAX <=? length oldfile)%nat || (PATH_MAX <=? length newfile)%nat then f
            else match stat follow f oldfile with
                 | Some _ => try_rename denied f oldfile newfile
                 | None => f
                 end
        end
  end.

(** ** unlink_file *)

(** The path of a file of a package, without the trailing slash. *)
Definition path_of (n : cstr) : cstr :=
  let path := root ++ n in if FileList.is_dir_name path then take (length path - 1) path else path.

(** The loop over the local packages: does one of another name own the
    directory? *)
Definition owned_elsewhere (oldpkg : pkg) (n : cstr) : bool :=
  existsb (fun p => negb ((name_hash oldpkg =? name_hash p) && (strcmp (name oldpkg) (name p) =? 0))
                    && match FileList.contains (Some (files p)) n with Some _ => true | None => false end) local_pkgs.
Definition in_files (p : option pkg) (n : cstr) : bool :=
  match p with
  | Some p => match FileList.contains (Some (files p)) n with Some _ => true | None => false end
  | None => false
  end.

(** The branch for a directory. *)
Definition unlink_dir (f : fs) (oldpkg : pkg) (newpkg : option pkg) (n path : cstr) : Z * fs :=
  let key := Conflict.strip_slashes (length path) path in
  if (PATH_MAX - 1 <=? length path)%nat then (-1, f)
  else if unreadable key then (0, f)
  else match readdir f key with
       | _ :: _ => (0, f)
       | [] =>
           if in_files newpkg n then (0, f)
           else if dir_is_mountpoint (path ++ lit "/") (Some (lstat_dev key)) then (0, f)
           else if owned_elsewhere oldpkg n then (0, f)
           else match rmdir denied f key with Some f => (0, f) | None => (-1, f) end
       end.

(** The branch for anything else; [None] is the comparison with a hash that is
    NULL. *)
Definition unlink_other (f : fs) (oldpkg : pkg) (n path : cstr) (nosave : bool) : option (Z * fs) :=
  let really := match unlink denied f path with Some f => (0, f) | None => (-1, f) end in
  match Package.needbackup n oldpkg with
  | Some b =>
      if nosave then Some really
      else
        match compute_md5sum follow md5 f path with
        | None => Some really
        | Some filehash =>
            hash ← b_hash b;
            if strcmp filehash hash =? 0 then Some really
            else
              let f := shift_pacsave f path in
              Some (match rename denied f path (pacsave path) with Some f => (0, f) | None => (-1, f) end)
        end
  | None => Some really
  end.

(** [unlink_file]: 0, -1 for an error, 1 for a file that is not there. *)
Definition unlink_file (f : fs) (oldpkg : pkg) (newpkg : option pkg) (fileobj : file) (nosave : bool) : option (Z * fs) :=
  let full := root ++ f_name fileobj in
  if (length full =? 0)%nat || (PATH_MAX <=? length full)%nat then Some (-1, f)
  else
    let path := path_of (f_name fileobj) in
    match llstat f path with
    | None => Some (1, f)
    | Some NDir => Some (unlink_dir f oldpkg newpkg (f_name fileobj) path)
    | Some _ => unlink_other f oldpkg (f_name fileobj) path nosave
    end.

(** ** remove_package_files *)

Definition should_skip_file (newpkg : option pkg) (path : cstr) : bool :=
  (Conflict.fnmatch_patterns fnmatch noupgrade path =? 0)
  || match KList.find_str skip_remove path with Some _ => true | None => false end
  || match newpkg with
     | Some p => match Package.needbackup path p with Some _ => in_files newpkg path | None => false end
     | None => false
     end.

Fixpoint remove_loop (f : fs) (oldpkg : pkg) (newpkg : option pkg) (nosave : bool) (l : list file) (err : Z) : option (Z * fs) :=
  match l with
  | [] => Some (err, f)
  | fl :: l =>
      if should_skip_file newpkg (f_name fl) then remove_loop f oldpkg newpkg nosave l err
      else
        '(r, f) ← unlink_file f oldpkg newpkg fl nosave;
        remove_loop f oldpkg newpkg nosave l (if r <? 0 then err + 1 else err)
  end.
(** -1 is KUZPKG_ERR_PKG_CANT_REMOVE, before anything was touched; otherwise
    the number of files that could not be removed. *)
Definition remove_package_files (f : fs) (oldpkg : pkg) (newpkg : option pkg) (nosave : bool) : option (Z * fs) :=
  if forallb (fun fl => should_skip_file newpkg (f_name fl) || can_remove_file f fl) (files oldpkg)
  then remove_loop f oldpkg newpkg nosave (reverse (files oldpkg)) 0
  else Some (-1, f).

(** ** _klpm_remove_single_package *)

(** The system: its files, the entries of the local database by name and
    version, and the local database object. *)
Record sys := Sys { s_fs : fs; s_entries : gmap (cstr * cstr) LocalDb.dbentry; s_db : Db.db }.

Definition FLAG_DBONLY : Z := 2 ^ 6.
Definition FLAG_NOSAVE : Z := 2 ^ 2.
Definition FLAG_NOSCRIPTLET : Z := 2 ^ 10.
Definition flag (flags f : Z) : bool := negb (Z.land flags f =? 0).

(** What a scriptlet does to the files. *)
Variable run_scriptlet : pkg -> cstr -> fs -> fs.
(** What is left of a database entry that cannot be removed altogether. *)
Variable entry_left : cstr * cstr -> LocalDb.dbentry -> option LocalDb.dbentry.

Definition local_db_remove (s : sys) (p : pkg) : Z * sys :=
  let key := (name p, version p) in
  match s_entries s !! key with
  | None => (-1, s)
  | Some e =>
      match entry_left key e with
      | None => (0, Sys (s_fs s) (delete key (s_entries s)) (s_db s))
      | Some e => (-1, Sys (s_fs s) (<[key := e]> (s_entries s)) (s_db s))
      end
  end.

Definition set_fs (s : sys) (f : fs) : sys := Sys f (s_entries s) (s_db s).
Definition scriptlet_of (flags : Z) (p : pkg) (which : string) (s : sys) : sys :=
  if scriptlet p && negb (flag flags FLAG_NOSCRIPTLET) then set_fs s (run_scriptlet p (lit which) (s_fs s)) else s.

(** The results of the two database operations are only logged. *)
Definition remove_single_package (s : sys) (flags : Z) (oldpkg : pkg) (newpkg : option pkg) : option (Z * sys) :=
  let s := match newpkg with None => scriptlet_of flags oldpkg "pre_remove" s | Some _ => s end in
  s ← (if flag flags FLAG_DBONLY then Some s
       else '(_, f) ← remove_package_files (s_fs s) oldpkg newpkg (flag flags FLAG_NOSAVE); Some (set_fs s f));
  let s := match newpkg with None => scriptlet_of flags oldpkg "post_remove" s | Some _ => s end in
  let '(_, s) := local_db_remove s oldpkg in
  '(_, d) ← Db.db_remove_pkgfromcache (s_db s) oldpkg;
  Some (0, Sys (s_fs s) (s_entries s) d).
End Calls.

(** ** Saves *)

(** The names [shift_pacsave] deals with, and what is below them. *)
Definition save_name (path s : cstr) : Prop := s = pacsave path \/ exists n, 0 < n < 2 ^ 64 /\ s = numbered path n.
Definition save_area (path k : cstr) : Prop := exists s, save_name path s /\ under s k.

Lemma numbered_inj path m n : 0 <= m < 2 ^ 64 -> 0 <= n < 2 ^ 64 -> numbered path m = numbered path n -> m = n.
Proof.
  intros Hm Hn H. unfold numbered in H. apply app_inv_head in H. apply app_inv_head in H.
  destruct (Util.print_u_spec m Hm) as (_ & _ & <-). destruct (Util.print_u_spec n Hn) as (_ & _ & <-). by rewrite H.
Qed.
Lemma last_pacsave path : last (pacsave path) = Some "e"%char.
Proof. unfold pacsave. change (lit ".pacsave") with (lit ".pacsav" ++ ["e"%char]). rewrite app_assoc. apply last_snoc. Qed.
Lemma last_numbered path n : 0 <= n < 2 ^ 64 -> exists c, last (numbered path n) = Some c /\ isdigit c = true.
Proof.
  intros Hn. destruct (Util.print_u_spec n Hn) as (Hne & Hd & _). unfold numbered.
  destruct (Util.print_u n) as [|c ds _] using rev_ind; [done|]. rewrite !app_assoc, last_snoc. exists c. split; [done|].
  unfold Version.digits in Hd. rewrite Forall_app in Hd. destruct Hd as [_ Hd]. by inversion Hd.
Qed.
Lemma pacsave_numbered path path' n : 0 <= n < 2 ^ 64 -> pacsave path <> numbered path' n.
Proof.
  intros Hn H. destruct (last_numbered path' n Hn) as (c & Hc & Hd). rewrite <- H, last_pacsave in Hc. injection Hc as <-. discriminate.
Qed.
Lemma pacsave_inj p q : pacsave p = pacsave q -> p = q.
Proof. apply app_inv_tail. Qed.
Lemma save_longer path s : save_name path s -> (length path < length s)%nat.
Proof. intros [->|(n & _ & ->)]; unfold pacsave, numbered; rewrite length_app; [simpl; lia|]. rewrite length_app. simpl. lia. Qed.
Lemma under_length a k : under a k -> (length a <= length k)%nat.
Proof. intros [->|[r ->]%is_prefix_spec]; [done|]. rewrite !length_app. lia. Qed.
Lemma save_area_self path : ~ save_area path path.
Proof. intros (s & Hs & Hu). apply save_longer in Hs. apply under_length in Hu. lia. Qed.
Lemma pacsave_area path : save_area path (pacsave path).
Proof. exists (pacsave path). split; by left. Qed.
Lemma numbered_area path n : 0 < n < 2 ^ 64 -> save_area path (numbered path n).
Proof. intros Hn. exists (numbered path n). split; [right; eauto|by left]. Qed.

Lemma rename_area denied path f a b f' : save_name path a -> save_name path b -> rename denied f a b = Some f' -> only_differ (save_area path) f f'.
Proof.
  intros Ha Hb H. eapply only_differ_mono; [|by eapply rename_frame]. intros k [Hk|Hk]; [by exists a|by exists b].
Qed.
Lemma try_rename_area denied path f a b : save_name path a -> save_name path b -> only_differ (save_area path) f (try_rename denied f a b).
Proof. intros Ha Hb. unfold try_rename. destruct (rename denied f a b) eqn:E; simpl; [by apply (rename_area denied path f a b)|reflexivity]. Qed.

Section Shift.
Context (denied unreadable : cstr -> bool) (follow : fs -> cstr -> option node) (regcomp : cstr -> option (cstr -> bool)).

Lemma shift_loop_area n f path : Z.of_nat n + 1 < 2 ^ 64 -> only_differ (save_area path) f (shift_loop denied n f path).2.
Proof.
  revert f. induction n as [|n IH]; intros f Hn; cbn [shift_loop]; [done|].
  destruct (_ || _); [done|]. etrans; [|apply IH; lia]. apply try_rename_area; right; eexists; (split; [|done]); lia.
Qed.
Lemma fold_max_range (g : cstr -> Z) (matches : cstr -> bool) l m : (forall e, 0 <= g e < 2 ^ 64) -> 0 <= m < 2 ^ 64 ->
  let r := fold_left (fun m e => if matches e then (if m <? g e then g e else m) else m) l m in
  m <= r < 2 ^ 64 /\ forall e, e ∈ l -> matches e = true -> g e <= r.
Proof.
  intros Hg. revert m. induction l as [|e l IH]; intros m Hm; cbn [fold_left]; [split; [lia|intros ? ?%elem_of_nil; done]|].
  set (m' := if matches e then (if m <? g e then g e else m) else m).
  assert (0 <= m' < 2 ^ 64 /\ m <= m' /\ (matches e = true -> g e <= m')) as (H1 & H2 & H3).
  { unfold m'. specialize (Hg e). destruct (matches e); [|lia]. destruct (Z.ltb_spec m (g e)); lia. }
  destruct (IH m' H1) as [H4 H5]. split; [lia|]. intros x [->|Hx]%elem_of_cons Hmx; [specialize (H3 Hmx); lia|auto].
Qed.
Lemma decval_nonneg ds : Version.digits ds -> 0 <= Version.decval ds.
Proof.
  intros H. induction ds as [|c ds IH] using rev_ind; [done|]. unfold Version.digits in H. rewrite Forall_app in H. destruct H as [H1 H2].
  unfold Version.decval in *. rewrite fold_left_app. specialize (IH H1). inversion H2 as [|? ? Hc]; subst. unfold isdigit in Hc. bool_hyps. simpl. lia.
Qed.
Lemma save_number_range base e : 0 <= save_number base e < 2 ^ 64.
Proof.
  unfold save_number, Util.strtoull. set (s := drop _ e). destruct (Util.strto_digits s) as [[[neg ds] r]|] eqn:E; cbn [fst]; [|lia].
  unfold Util.ULLONG_MAX. destruct (Z.ltb_spec (2 ^ 64 - 1) (Version.decval ds)); cbn [fst]; [lia|].
  assert (0 <= Version.decval ds).
  { apply decval_nonneg. unfold Util.strto_digits in E.
    destruct (match (span isspace s).2 with [] => _ | _ => _ end) as [ng t]. pose proof (span_all isdigit t) as Ha.
    destruct (span isdigit t) as [[|d u] v]; [done|]. by injection E as _ <- _. }
  destruct neg; cbn [fst]; [|lia]. unfold u64. apply Z.mod_pos_bound. lia.
Qed.
Lemma log_max_spec matches base l : 0 <= log_max matches base l < 2 ^ 64 /\
  forall e, e ∈ l -> matches e = true -> save_number base e <= log_max matches base l.
Proof.
  unfold log_max. destruct (fold_max_range (save_number base) matches l 0) as [H1 H2]; [apply save_number_range|lia|]. split; [lia|done].
Qed.

(** Whatever happens, [shift_pacsave] touches nothing but the saves. *)
Lemma shift_pacsave_area f path : only_differ (save_area path) f (shift_pacsave denied unreadable follow regcomp f path).
Proof.
  unfold shift_pacsave. destruct (regcomp _) as [m|]; [|done]. destruct (unreadable _); [done|].
  set (start := u64 _). assert (0 <= start < 2 ^ 64) as Hs by (unfold start, u64; apply Z.mod_pos_bound; lia).
  pose proof (shift_loop_area (Z.to_nat (start - 1)) f path ltac:(lia)) as H.
  destruct (shift_loop denied (Z.to_nat (start - 1)) f path) as [b f1]. cbn [snd] in H. destruct b; [|done].
  destruct (_ || _); [done|]. destruct (stat follow f1 (pacsave path)); [|done]. etrans; [exact H|].
  apply try_rename_area; [by left|right]. exists 1. split; [lia|]. unfold pacsave, numbered. by rewrite <- app_assoc.
Qed.

(** *** Older saves are kept *)

Lemma shift_loop_spec n f path :
  Z.of_nat n + 1 < 2 ^ 64 ->
  (forall i, 0 < i <= Z.of_nat n + 1 -> denied (numbered path i) = false /\ f !! numbered path i <> Some NDir /\
     (length (numbered path i) < PATH_MAX)%nat) ->
  f !! numbered path (Z.of_nat n + 1) = None ->
  exists f', shift_loop denied n f path = (true, f') /\
    (forall i, 0 < i <= Z.of_nat n -> f' !! numbered path (i + 1) = f !! numbered path i) /\
    f' !! numbered path 1 = None /\
    (forall k, (forall i, 0 < i <= Z.of_nat n + 1 -> k <> numbered path i) -> f' !! k = f !! k).
Proof.
  revert f. induction n as [|n IH]; intros f Hn Hok Hfree; cbn [shift_loop].
  { exists f. split_and!; [done|lia|exact Hfree|done]. }
  rewrite !(proj2 (Nat.leb_gt _ _)) by (apply Hok; lia). cbn [orb].
  set (a := numbered path (Z.of_nat (S n))). set (b := numbered path (Z.of_nat (S n) + 1)).
  assert (a <> b) as Hab by (intros E; apply numbered_inj in E; lia).
  pose proof (try_rename_free denied f a b Hab Hfree ltac:(apply Hok; lia) ltac:(apply Hok; lia) ltac:(apply Hok; lia)) as Ht.
  assert (forall i, 0 < i <= Z.of_nat n -> try_rename denied f a b !! numbered path i = f !! numbered path i) as Hsame.
  { intros i Hi. rewrite Ht. rewrite !decide_False; [done| |]; intros E; apply numbered_inj in E; lia. }
  destruct (IH (try_rename denied f a b)) as (f' & -> & H1 & H2 & H3).
  - lia.
  - intros i Hi. split_and!; [apply Hok; lia| |apply Hok; lia].
    destruct (decide (i = Z.of_nat n + 1)) as [->|]; [|rewrite Hsame by lia; apply Hok; lia].
    rewrite Ht. replace (Z.of_nat n + 1) with (Z.of_nat (S n)) by lia. fold a. rewrite decide_False by done. by rewrite decide_True.
  - replace (Z.of_nat n + 1) with (Z.of_nat (S n)) by lia. fold a. rewrite Ht. rewrite decide_False by done. by rewrite decide_True.
  - exists f'. split_and!; [done| |done|].
    + intros i Hi. destruct (decide (i = Z.of_nat (S n))) as [->|]; [|rewrite H1 by lia; apply Hsame; lia].
      fold b. rewrite H3; [rewrite Ht; by rewrite decide_True|]. intros j Hj E. apply numbered_inj in E; lia.
    + intros k Hk. rewrite H3 by (intros i Hi; apply Hk; lia). rewrite Ht. rewrite !decide_False; [done|apply (Hk (Z.of_nat (S n)))|apply (Hk (Z.of_nat (S n) + 1))]; lia.
Qed.
End Shift.

Section ShiftSpec.
Context (denied unreadable : cstr -> bool) (follow : fs -> cstr -> option node) (regcomp : cstr -> option (cstr -> bool)).

Lemma elem_of_readdir f d k n : is_Some (f !! k) -> child_name d k = Some n -> n ∈ readdir f d.
Proof.
  intros [x Hx] Hc. unfold readdir. apply list_elem_of_omap. exists k. split; [|done].
  apply list_elem_of_fmap. exists (k, x). split; [done|]. by apply elem_of_map_to_list.
Qed.
Lemma child_name_app d n : n <> [] -> "/"%char ∉ n -> child_name d (dir_prefix d ++ n) = Some n.
Proof.
  intros Hne Hs. unfold child_name. rewrite (proj2 (is_prefix_spec _ _)) by eauto. rewrite drop_app_length.
  destruct n as [|c n]; [done|]. by apply strchr_None in Hs as ->.
Qed.
Lemma save_number_print base n : 0 <= n < 2 ^ 64 -> save_number base (base ++ lit ".pacsave." ++ Util.print_u n) = n.
Proof.
  intros Hn. unfold save_number. rewrite app_assoc, <- length_app, drop_app_length.
  destruct (Util.print_u_spec n Hn) as (Hne & Hd & Hv). unfold Util.strtoull. rewrite Util.strto_digits_print, Hv by done.
  unfold Util.ULLONG_MAX. by rewrite (proj2 (Z.ltb_ge _ _)) by lia.
Qed.

(** The circumstances under which [shift_pacsave] can do its work: the regular
    expression built from the name recognises the saves, the directory can be
    read, the names fit and can be renamed, and none of them is a directory or
    a dangling link. *)
Record shift_ready (f : fs) (path : cstr) : Prop := {
  sr_regex : exists m, regcomp (take (PATH_MAX - 1) (save_regex (Util.mbasename path))) = Some m /\
    (forall ds, Version.digits ds -> ds <> [] -> m (Util.mbasename path ++ lit ".pacsave." ++ ds) = true) /\
    log_max m (Util.mbasename path) (readdir f (Util.mdirname (Some path))) < 2 ^ 64 - 1;
  sr_dir : path = dir_prefix (Util.mdirname (Some path)) ++ Util.mbasename path;
  sr_readable : unreadable (Util.mdirname (Some path)) = false;
  sr_saves n : 0 < n < 2 ^ 64 ->
    denied (numbered path n) = false /\ f !! numbered path n <> Some NDir /\ (length (numbered path n) < PATH_MAX)%nat;
  sr_first : denied (pacsave path) = false /\ match f !! pacsave path with None | Some (NFile _) => True | _ => False end
}.

Lemma shift_ready_unused f path m n :
  path = dir_prefix (Util.mdirname (Some path)) ++ Util.mbasename path ->
  (forall ds, Version.digits ds -> ds <> [] -> m (Util.mbasename path ++ lit ".pacsave." ++ ds) = true) ->
  log_max m (Util.mbasename path) (readdir f (Util.mdirname (Some path))) < n < 2 ^ 64 -> f !! numbered path n = None.
Proof.
  intros Hp Hm Hn. destruct (f !! numbered path n) as [x|] eqn:E; [|done]. exfalso.
  destruct (log_max_spec m (Util.mbasename path) (readdir f (Util.mdirname (Some path)))) as [Hr Hmax].
  destruct (Util.print_u_spec n) as (Hne & Hd & _); [lia|].
  destruct (Util.mdirname_mbasename path) as [Hslash _].
  assert (Util.mbasename path ++ lit ".pacsave." ++ Util.print_u n ∈ readdir f (Util.mdirname (Some path))) as Hin.
  { eapply elem_of_readdir; [by rewrite E|]. unfold numbered. rewrite Hp at 2. rewrite <- app_assoc. apply child_name_app.
    - destruct (Util.mbasename path); simpl; [done|done].
    - rewrite !not_elem_of_app. split_and!; [done|by_decide|]. unfold Version.digits in Hd. rewrite Forall_forall in Hd. intros H%Hd. discriminate. }
  specialize (Hmax _ Hin (Hm _ Hd Hne)). rewrite save_number_print in Hmax; lia.
Qed.

Lemma shift_correct f path : shift_ready f path ->
  let f' := shift_pacsave denied unreadable follow regcomp f path in
  (forall n, 0 < n < 2 ^ 64 - 1 -> f' !! numbered path (n + 1) = f !! numbered path n) /\
  f' !! numbered path 1 = f !! pacsave path /\ f' !! pacsave path = None /\
  (forall k, ~ save_name path k -> f' !! k = f !! k).
Proof.
  intros [(m & Er & Hm & Hlt) Hp Hrd Hs [Hd0 H0]]. unfold shift_pacsave. rewrite Er, Hrd.
  set (L := log_max m _ _) in *. assert (0 <= L) as HL by apply log_max_spec.
  assert (u64 (L + 1) = L + 1) as -> by (unfold u64; apply Z.mod_small; lia).
  assert (forall n, L < n < 2 ^ 64 -> f !! numbered path n = None) as Hun by (intros n Hn; by apply (shift_ready_unused f path m)).
  destruct (shift_loop_spec denied (Z.to_nat (L + 1 - 1)) f path) as (f1 & -> & H1 & H2 & H3).
  { lia. } { intros i Hi. apply Hs. lia. } { apply Hun. lia. }
  assert (f1 !! pacsave path = f !! pacsave path) as E0 by (apply H3; intros i Hi; apply pacsave_numbered; lia).
  assert (pacsave path ++ lit ".1" = numbered path 1) as E1 by (unfold pacsave, numbered; by rewrite <- app_assoc).
  destruct (Hs 1 ltac:(lia)) as (Hd1 & _ & Hl1). rewrite E1.
  rewrite (proj2 (Nat.leb_gt PATH_MAX (length (pacsave path)))) by (rewrite <- E1, length_app in Hl1; lia).
  rewrite (proj2 (Nat.leb_gt _ _)) by done. cbn [orb].
  assert (forall n, 0 < n < 2 ^ 64 - 1 -> f1 !! numbered path (n + 1) = f !! numbered path n) as Hall.
  { intros n Hn. destruct (Z.le_gt_cases n L); [apply H1; lia|]. rewrite (Hun n) by lia. rewrite H3; [apply Hun; lia|].
    intros i Hi E. apply numbered_inj in E; lia. }
  assert (forall k, ~ save_name path k -> f1 !! k = f !! k) as Hk.
  { intros k Hk. apply H3. intros i Hi ->. apply Hk. right. exists i. split; [lia|done]. }
  assert (pacsave path <> numbered path 1) as Hne by (apply pacsave_numbered; lia).
  unfold stat. rewrite E0. destruct (f !! pacsave path) as [[c| |]|] eqn:Ep; try done.
  - pose proof (try_rename_free denied f1 (pacsave path) (numbered path 1) Hne H2 ltac:(congruence) Hd0 Hd1) as Ht. split_and!.
    + intros n Hn. rewrite Ht. rewrite !decide_False; [by apply Hall|intros E; symmetry in E; revert E; apply pacsave_numbered; lia|intros E; apply numbered_inj in E; lia].
    + rewrite Ht. by rewrite decide_True.
    + rewrite Ht. rewrite decide_False by done. by rewrite decide_True.
    + intros k Hn. rewrite Ht. rewrite !decide_False; [by apply Hk|intros ->; apply Hn; by left|intros ->; apply Hn; right; by exists 1].
Qed.
End ShiftSpec.

(** ** Removal *)

Section Removal.
Context (denied unreadable : cstr -> bool) (follow : fs -> cstr -> option node).
Context (lstat_dev : cstr -> Z) (stat_dev : cstr -> option Z) (access_w : cstr -> option bool).
Context (md5 : hasher) (regcomp : cstr -> option (cstr -> bool)) (fnmatch : cstr -> cstr -> Z).
Context (root : cstr) (noupgrade skip_remove : list cstr) (local_pkgs : list pkg).
Notation path := (path_of root).
Notation unlink_file := (unlink_file denied unreadable follow lstat_dev stat_dev md5 regcomp root local_pkgs).
Notation skip := (should_skip_file fnmatch noupgrade skip_remove).
Notation remove_loop := (remove_loop denied unreadable follow lstat_dev stat_dev md5 regcomp fnmatch root noupgrade skip_remove local_pkgs).

(** A name that ends in at most one slash. *)
Definition clean (n : cstr) : Prop := FileList.is_dir_name (path n) = false.
#[global] Instance clean_dec n : Decision (clean n).
Proof. unfold clean. apply _. Defined.
Lemma clean_key n : clean n -> Conflict.strip_slashes (length (path n)) (path n) = path n.
Proof. unfold clean. intros H. destruct (length (path n)) eqn:E; cbn [Conflict.strip_slashes]; [done|]. by rewrite H, andb_false_r. Qed.

(** What the removal of the file [n] may touch. *)
Definition touches (oldpkg : pkg) (n k : cstr) : Prop :=
  k = path n \/ is_Some (Package.needbackup n oldpkg) /\ save_area (path n) k.

(** The user's version of a configuration file: it is still there, or saved. *)
Definition kept (p c : cstr) (f : fs) : Prop := f !! p = Some (NFile c) \/ f !! pacsave p = Some (NFile c).
(** The code can tell that the user changed the file: its hash can be computed,
    and it is not the recorded one. *)
Definition modified (oldpkg : pkg) (n c : cstr) : Prop :=
  hash_fails md5 (path n) = false /\ exists b h, Package.needbackup n oldpkg = Some b /\ b_hash b = Some h /\ md5 c <> h.

Lemma unlink_other_step f oldpkg n nosave nd :
  f !! path n = Some nd -> nd <> NDir -> Forall (fun b => is_Some (b_hash b)) (backups oldpkg) ->
  exists r f', unlink_other denied unreadable follow md5 regcomp f oldpkg n (path n) nosave = Some (r, f') /\
    (r = 0 \/ r = -1) /\ only_differ (touches oldpkg n) f f' /\ (r = 0 -> f' !! path n = None) /\
    (forall c, nosave = false -> nd = NFile c -> modified oldpkg n c -> kept (path n) c f').
Proof.
  intros E Hnd Hb. unfold unlink_other. set (really := match unlink denied f (path n) with Some f => (0, f) | None => (-1, f) end).
  assert (exists r f', really = (r, f') /\ (r = 0 \/ r = -1) /\ only_differ (touches oldpkg n) f f' /\ (r = 0 -> f' !! path n = None)) as (r & f' & Er & Hr & Hd & H0).
  { unfold really. destruct (unlink denied f (path n)) as [f1|] eqn:Eu.
    - apply unlink_Some in Eu as (-> & _ & _). eexists _, _. split_and!; [done|by left| |intros _; apply lookup_delete_eq].
      intros k Hk. rewrite lookup_delete_ne; [done|]. intros <-. apply Hk. by left.
    - eexists _, _. split_and!; [done|by right|done|done]. }
  clearbody really. subst really.
  destruct (Package.needbackup n oldpkg) as [b|] eqn:Eb.
  2: { eexists _, _. split_and!; [done|done|done|done|]. intros c _ _ (_ & b & h & Eb' & _). congruence. }
  destruct nosave; [eexists _, _; by split_and!|].
  assert (is_Some (b_hash b)) as [h Eh].
  { unfold Package.needbackup in Eb. apply find_first_Some in Eb as [Hin _]. rewrite Forall_forall in Hb. by apply Hb. }
  destruct (compute_md5sum follow md5 f (path n)) as [fh|] eqn:Em.
  2: { eexists _, _. split_and!; [done|done|done|done|]. intros c _ -> (Hh & _). by rewrite (compute_md5sum_file _ _ _ _ c) in Em. }
  rewrite Eh. cbn [mbind option_bind]. destruct (Z.eqb_spec (strcmp fh h) 0) as [Ec|Ec].
  { eexists _, _. split_and!; [done|done|done|done|]. intros c _ -> (Hh & b' & h' & Eb' & Eh' & Hne). rewrite (compute_md5sum_file _ _ _ _ c) in Em by done. injection Em as <-. apply strcmp_eq in Ec. congruence. }
  clear r f' Hr Hd H0. set (f1 := shift_pacsave denied unreadable follow regcomp f (path n)).
  pose proof (shift_pacsave_area denied unreadable follow regcomp f (path n)) as Hs. fold f1 in Hs.
  assert (f1 !! path n = Some nd) as E1 by (rewrite Hs; [done|apply save_area_self]).
  assert (only_differ (touches oldpkg n) f f1) as Hd1.
  { eapply only_differ_mono; [|exact Hs]. intros k Hk. right. by rewrite Eb. }
  rewrite (rename_file _ _ _ _ nd E1 Hnd).
  assert (path n <> pacsave (path n)) as Hpn by (intros H; apply (f_equal length) in H; unfold pacsave in H; rewrite length_app in H; simpl in H; lia).
  destruct (denied _ || denied _); [eexists _, _; split_and!; [done|by right|done|done|intros c _ -> _; by left]|].
  rewrite decide_False by done. case_decide; [eexists _, _; split_and!; [done|by right|done|done|intros c _ -> _; by left]|].
  eexists _, _. split_and!; [done|by left| |intros _; rewrite lookup_insert_ne by done; apply lookup_delete_eq|intros c _ -> _; right; apply lookup_insert_eq].
  intros k Hk. rewrite lookup_insert_ne, lookup_delete_ne; [by apply Hd1| |]; intros <-; apply Hk; [by left|].
  right. rewrite Eb. split; [done|apply pacsave_area].
Qed.

Lemma unlink_dir_step f oldpkg newpkg n : clean n -> f !! path n = Some NDir ->
  exists r f', unlink_dir denied unreadable lstat_dev stat_dev local_pkgs f oldpkg newpkg n (path n) = (r, f') /\
    (r = 0 \/ r = -1) /\ only_differ (touches oldpkg n) f f' /\ (f' !! path n = None \/ f' !! path n = Some NDir).
Proof.
  intros Hc E. unfold unlink_dir. rewrite clean_key by done.
  assert (only_differ (touches oldpkg n) f (delete (path n) f)) as Hd.
  { intros k Hk. rewrite lookup_delete_ne; [done|]. intros <-. apply Hk. by left. }
  assert (forall r, r = 0 \/ r = -1 -> exists r' f', (r, f) = (r', f') /\ (r' = 0 \/ r' = -1) /\ only_differ (touches oldpkg n) f f' /\
    (f' !! path n = None \/ f' !! path n = Some NDir)) as Hkeep by (intros r Hr; exists r, f; split_and!; [done|done|done|by right]).
  destruct (_ <=? _)%nat; [by apply Hkeep; right|]. destruct (unreadable _); [by apply Hkeep; left|].
  destruct (readdir f (path n)); [|by apply Hkeep; left]. destruct (in_files newpkg n); [by apply Hkeep; left|].
  destruct (dir_is_mountpoint _ _ _); [by apply Hkeep; left|]. destruct (owned_elsewhere _ _ _); [by apply Hkeep; left|].
  destruct (rmdir denied f (path n)) as [f1|] eqn:Er; [|by apply Hkeep; right].
  apply rmdir_Some in Er as (-> & _). eexists _, _. split_and!; [done|by left|done|left; apply lookup_delete_eq].
Qed.
Lemma unlink_file_step f oldpkg newpkg fl nosave :
  clean (f_name fl) -> Forall (fun b => is_Some (b_hash b)) (backups oldpkg) ->
  exists r f', unlink_file f oldpkg newpkg fl nosave = Some (r, f') /\
    (r = 0 \/ r = -1 \/ r = 1) /\ only_differ (touches oldpkg (f_name fl)) f f' /\
    (r <> -1 -> f' !! path (f_name fl) = None \/ f' !! path (f_name fl) = Some NDir) /\
    (forall c, nosave = false -> f !! path (f_name fl) = Some (NFile c) -> modified oldpkg (f_name fl) c -> kept (path (f_name fl)) c f').
Proof.
  intros Hc Hb. unfold RemoveFiles.unlink_file. set (n := f_name fl) in *.
  destruct (_ || _); [eexists _, _; split_and!; [done|by auto|done|done|intros c _ E _; by left]|].
  unfold llstat. rewrite clean_key by done. destruct (f !! path n) as [nd|] eqn:E.
  2: { eexists _, _. split_and!; [done|by auto|done|intros _; by left|done]. }
  destruct (decide (nd = NDir)) as [->|Hnd].
  { destruct (unlink_dir_step f oldpkg newpkg n Hc E) as (r & f' & -> & Hr & Hd & Hp). eexists _, _. split_and!; [done|tauto|done|done|done]. }
  destruct (unlink_other_step f oldpkg n nosave nd E Hnd Hb) as (r & f' & Eu & Hr & Hd & H0 & Hk).
  exists r, f'. split_and!; [destruct nd; done|tauto|done|intros ?; left; apply H0; tauto|].
  intros c Hns [= ->] Hm. by apply (Hk c).
Qed.

(** The files of the package do not get in each other's way: the paths are
    distinct and none of them is the save of another file's backup. *)
Definition apart (oldpkg : pkg) : Prop :=
  NoDup ((fun fl => path (f_name fl)) <$> files oldpkg) /\
  forall a b, a ∈ files oldpkg -> b ∈ files oldpkg -> is_Some (Package.needbackup (f_name b) oldpkg) -> ~ save_area (path (f_name b)) (path (f_name a)).

Lemma pacsave_apart p q : p <> q -> ~ save_area q p -> ~ save_area q (pacsave p).
Proof.
  intros Hpq Hn (s & Hs & Hu). destruct Hu as [Hu|[r Hu]%is_prefix_spec].
  - destruct Hs as [->|(n & Hr & ->)]; [by apply pacsave_inj in Hu|]. by apply pacsave_numbered in Hu; [|lia].
  - unfold pacsave in Hu. apply app_eq_inv in Hu as [(l & -> & _)|(l & El & E2)].
    + apply Hn. exists s. split; [done|]. right. apply is_prefix_spec. eauto.
    + destruct l as [|c l _] using rev_ind; [rewrite app_nil_r in El; apply Hn; exists s; split; [done|]; right; apply is_prefix_spec; exists []; by rewrite app_nil_r|].
      rewrite app_assoc in El. apply app_inj_tail in El as [_ <-].
      assert ("/"%char ∈ lit ".pacsave") as H by (rewrite E2; set_solver). revert H. by_decide.
Qed.

Lemma apart_ne oldpkg a b : apart oldpkg -> a ∈ files oldpkg -> b ∈ files oldpkg -> a <> b -> path (f_name a) <> path (f_name b).
Proof.
  intros [Hnd _] Ha Hb Hab E. apply list_elem_of_lookup in Ha as [i Hi]. apply list_elem_of_lookup in Hb as [j Hj].
  assert (i = j) as ->; [|congruence]. eapply (NoDup_lookup _ _ _ (path (f_name a)) Hnd); rewrite list_lookup_fmap; [by rewrite Hi|by rewrite Hj, E].
Qed.
Lemma touches_path oldpkg a b : apart oldpkg -> a ∈ files oldpkg -> b ∈ files oldpkg -> a <> b -> ~ touches oldpkg (f_name b) (path (f_name a)).
Proof. intros Hap Ha Hb Hab [E|[Hs Hk]]; [exact (apart_ne oldpkg a b Hap Ha Hb Hab E)|exact (proj2 Hap a b Ha Hb Hs Hk)]. Qed.
Lemma touches_save oldpkg a b : apart oldpkg -> a ∈ files oldpkg -> b ∈ files oldpkg -> a <> b -> is_Some (Package.needbackup (f_name a) oldpkg) ->
  ~ touches oldpkg (f_name b) (pacsave (path (f_name a))).
Proof.
  intros Hap Ha Hb Hab Hn [E|[Hs Hk]].
  - apply (proj2 Hap b a Hb Ha Hn). rewrite <- E. apply pacsave_area.
  - revert Hk. apply pacsave_apart; [by apply (apart_ne oldpkg)|]. by apply (proj2 Hap a b).
Qed.
(** Removing other files loses neither a file nor its save. *)
Lemma kept_frame oldpkg a l f f' c : apart oldpkg -> a ∈ files oldpkg -> l ⊆ files oldpkg -> a ∉ l -> is_Some (Package.needbackup (f_name a) oldpkg) ->
  only_differ (fun k => exists fl, fl ∈ l /\ touches oldpkg (f_name fl) k) f f' ->
  kept (path (f_name a)) c f -> kept (path (f_name a)) c f'.
Proof.
  intros Hap Ha Hl Hal Hn Hd Hk. unfold kept. rewrite (Hd (path (f_name a))), (Hd (pacsave (path (f_name a)))); [exact Hk| |].
  - intros (fl & Hfl & Ht). revert Ht. apply touches_save; [done..|by apply Hl|by intros ->|done].
  - intros (fl & Hfl & Ht). revert Ht. apply touches_path; [done..|by apply Hl|by intros ->].
Qed.

Lemma remove_loop_safe oldpkg newpkg nosave l f err :
  Forall clean (f_name <$> l) -> Forall (fun b => is_Some (b_hash b)) (backups oldpkg) -> 0 <= err ->
  exists r f', remove_loop f oldpkg newpkg nosave l err = Some (r, f') /\ err <= r /\
    only_differ (fun k => exists fl, fl ∈ l /\ skip newpkg (f_name fl) = false /\ touches oldpkg (f_name fl) k) f f' /\
    (apart oldpkg -> NoDup l -> l ⊆ files oldpkg ->
      (r = err -> forall fl, fl ∈ l -> skip newpkg (f_name fl) = false ->
         f' !! path (f_name fl) = None \/ f' !! path (f_name fl) = Some NDir) /\
      (forall fl c, fl ∈ l -> nosave = false -> f !! path (f_name fl) = Some (NFile c) -> modified oldpkg (f_name fl) c ->
         kept (path (f_name fl)) c f')).
Proof.
  intros Hc Hb. revert f err. induction l as [|fl l IH]; intros f err Herr; cbn [RemoveFiles.remove_loop].
  { eexists _, _. split_and!; [done|lia|done|]. intros _ _ _. split; [intros _ ? ?%elem_of_nil; done|intros ? ? ?%elem_of_nil; done]. }
  inversion Hc as [|? ? Hc1 Hc2]; subst. specialize (IH Hc2). destruct (skip newpkg (f_name fl)) eqn:Es.
  - destruct (IH f err Herr) as (r & f' & -> & Hr & Hd & Hrest). exists r, f'. split_and!; [done|done| |].
    { eapply only_differ_mono; [|exact Hd]. intros k (x & Hx & ?). exists x. split; [set_solver|done]. }
    intros Hap [Hfl Hnd]%NoDup_cons Hsub. destruct (Hrest Hap Hnd ltac:(set_solver)) as [H1 H2]. split.
    + intros Hre x [->|Hx]%elem_of_cons Hsk; [congruence|by apply H1].
    + intros x c [->|Hx]%elem_of_cons Hns E Hm; [|by apply H2]. apply (kept_frame oldpkg fl l f f' c); [exact Hap|set_solver|set_solver|exact Hfl|destruct Hm as (_ & b & h & -> & _); done| |by left].
      eapply only_differ_mono; [|exact Hd]. intros k (x & Hx & _ & Ht). by exists x.
  - destruct (unlink_file_step f oldpkg newpkg fl nosave Hc1 Hb) as (r1 & f1 & -> & Hr1 & Hd1 & H01 & Hk1). cbn [mbind option_bind].
    destruct (IH f1 (if r1 <? 0 then err + 1 else err) ltac:(destruct (r1 <? 0); lia)) as (r & f' & -> & Hr & Hd & Hrest).
    exists r, f'. split_and!; [done|destruct (r1 <? 0); lia| |].
    { etrans; [eapply only_differ_mono; [|exact Hd1]|eapply only_differ_mono; [|exact Hd]]; intros k.
      - intros Hk. exists fl. split; [set_solver|done].
      - intros (x & Hx & ?). exists x. split; [set_solver|done]. }
    intros Hap [Hfl Hnd]%NoDup_cons Hsub. destruct (Hrest Hap Hnd ltac:(set_solver)) as [H1 H2].
    assert (fl ∈ files oldpkg) as Hin by set_solver. assert (l ⊆ files oldpkg) as Hsub' by set_solver. split.
    + intros Hre x Hx Hsk. assert ((r1 <? 0) = false) as Er1 by (destruct (r1 <? 0); [lia|done]). rewrite Er1 in H1. apply Z.ltb_ge in Er1.
      apply elem_of_cons in Hx as [->|Hx]; [|by apply H1]. rewrite (Hd (path (f_name fl))); [apply H01; lia|].
      intros (y & Hy & _ & Ht). revert Ht. apply touches_path; [done..|by apply Hsub'|by intros ->].
    + intros x c [->|Hx]%elem_of_cons Hns E Hm.
      * apply (kept_frame oldpkg fl l f1 f' c); [exact Hap|exact Hin|exact Hsub'|exact Hfl|destruct Hm as (_ & b & h & -> & _); done| |by apply Hk1].
        eapply only_differ_mono; [|exact Hd]. intros k (x & Hx & _ & Ht). by exists x.
      * apply H2; [done..| |done]. rewrite Hd1; [done|]. apply touches_path; [done|by apply Hsub'|done|by intros ->].
Qed.

(** The removal of a package's files, on every branch. *)
Lemma remove_package_files_run oldpkg newpkg nosave f
    (Hc : Forall clean (f_name <$> files oldpkg)) (Hb : Forall (fun b => is_Some (b_hash b)) (backups oldpkg))
    (Hap : apart oldpkg) (Hnd : NoDup (files oldpkg)) :
  exists r f', remove_package_files denied unreadable follow lstat_dev stat_dev access_w md5 regcomp fnmatch root noupgrade skip_remove
      local_pkgs f oldpkg newpkg nosave = Some (r, f') /\
    only_differ (fun k => exists fl, fl ∈ files oldpkg /\ skip newpkg (f_name fl) = false /\ touches oldpkg (f_name fl) k) f f' /\
    (forall fl c, fl ∈ files oldpkg -> nosave = false -> f !! path (f_name fl) = Some (NFile c) -> modified oldpkg (f_name fl) c ->
       kept (path (f_name fl)) c f') /\
    (r = 0 -> forall fl, fl ∈ files oldpkg -> skip newpkg (f_name fl) = false ->
       f' !! path (f_name fl) = None \/ f' !! path (f_name fl) = Some NDir) /\
    (r = -1 -> f' = f).
Proof.
  unfold remove_package_files. destruct (forallb _ (files oldpkg)).
  - destruct (remove_loop_safe oldpkg newpkg nosave (reverse (files oldpkg)) f 0) as (r & f' & -> & Hr & Hd & Hrest);
      [by rewrite fmap_reverse, Forall_reverse|done|lia|].
    destruct (Hrest Hap ltac:(by rewrite reverse_Permutation) ltac:(intros x; by rewrite elem_of_reverse)) as [H1 H2].
    exists r, f'. split_and!; [done| | | |lia].
    + eapply only_differ_mono; [|exact Hd]. intros k (x & Hx & ?). exists x. by rewrite elem_of_reverse in Hx.
    + intros fl c Hfl. apply H2. by apply elem_of_reverse.
    + intros -> fl Hfl. apply H1; [done|by apply elem_of_reverse].
  - exists (-1), f. split_and!; [done|done|intros fl c _ _ E _; by left|done|done].
Qed.
(** A configuration file that is also one of the new version is not touched. *)
Lemma remove_keeps_config oldpkg newpkg nosave f n r f' :
  Forall clean (f_name <$> files oldpkg) -> Forall (fun b => is_Some (b_hash b)) (backups oldpkg) -> apart oldpkg -> NoDup (files oldpkg) ->
  n ∈ f_name <$> files oldpkg -> is_Some (Package.needbackup n newpkg) -> in_files (Some newpkg) n = true ->
  remove_package_files denied unreadable follow lstat_dev stat_dev access_w md5 regcomp fnmatch root noupgrade skip_remove
      local_pkgs f oldpkg (Some newpkg) nosave = Some (r, f') ->
  f' !! path n = f !! path n.
Proof.
  intros Hc Hb Hap Hnd (a & -> & Ha)%list_elem_of_fmap [b Hn] Hin E.
  destruct (remove_package_files_run oldpkg (Some newpkg) nosave f Hc Hb Hap Hnd) as (r0 & f0 & E0 & Hd & _).
  rewrite E in E0. injection E0 as <- <-. apply Hd. intros (fl & Hfl & Hsk & Ht).
  destruct (decide (fl = a)) as [->|Hne]; [|exact (touches_path oldpkg a fl Hap Ha Hfl (not_eq_sym Hne) Ht)].
  revert Hsk. unfold should_skip_file. rewrite Hn, Hin. by rewrite orb_true_r.
Qed.

(** C22: removing the files of a package whose recorded data are in order: every
    backup entry has a hash (the code compares with it without a test), no file is
    listed twice, and no file of the package is in the place of another or of its
    saves.  The removal ends; it changes nothing but the package's own files that are
    not to be skipped and the saves of its backup files; unless saving is switched
    off (NOSAVE), a backup file whose MD5 hash can be computed and is not the
    recorded one is afterwards still there or, with its contents, in the .pacsave
    file (a changed file whose hash cannot be computed is unlinked); the result 0
    means that no file of the package is left, apart from directories kept; and the
    result -1 means that nothing was touched at all. *)
Theorem remove_package_files_safe oldpkg newpkg nosave f
    (Hc : Forall clean (f_name <$> files oldpkg)) (Hb : Forall (fun b => is_Some (b_hash b)) (backups oldpkg))
    (Hap : apart oldpkg) (Hnd : NoDup (files oldpkg)) :
  exists r f', remove_package_files denied unreadable follow lstat_dev stat_dev access_w md5 regcomp fnmatch root noupgrade skip_remove
      local_pkgs f oldpkg newpkg nosave = Some (r, f') /\
    only_differ (fun k => exists fl, fl ∈ files oldpkg /\ skip newpkg (f_name fl) = false /\ touches oldpkg (f_name fl) k) f f' /\
    (forall fl c, fl ∈ files oldpkg -> nosave = false -> f !! path (f_name fl) = Some (NFile c) -> modified oldpkg (f_name fl) c ->
       kept (path (f_name fl)) c f') /\
    (r = 0 -> forall fl, fl ∈ files oldpkg -> skip newpkg (f_name fl) = false ->
       f' !! path (f_name fl) = None \/ f' !! path (f_name fl) = Some NDir) /\
    (r = -1 -> f' = f).
Proof. by apply remove_package_files_run. Qed.
End Removal.

(** Backing up again loses no older save: when the saves can be recognised
    and renamed, every file.pacsave.N becomes file.pacsave.N+1 and file.pacsave
    becomes file.pacsave.1, with their contents; file.pacsave is then free, and
    nothing else changes. *)
Theorem shift_pacsave_spec denied unreadable follow regcomp f path (H : shift_ready denied unreadable regcomp f path) :
  let f' := shift_pacsave denied unreadable follow regcomp f path in
  (forall n, 0 < n < 2 ^ 64 - 1 -> f' !! numbered path (n + 1) = f !! numbered path n) /\
  f' !! numbered path 1 = f !! pacsave path /\ f' !! pacsave path = None /\
  (forall k, ~ save_name path k -> f' !! k = f !! k).
Proof. by apply shift_correct. Qed.

(** *** Witnesses *)

Definition allowed (_ : cstr) : bool := false.
(** Recognises exactly the saves of a name without special characters. *)
Definition ex_regcomp (pattern : cstr) : option (cstr -> bool) :=
  let base := take (length pattern - 27) (tail pattern) in
  Some (fun e => is_prefix (base ++ lit ".pacsave.") e &&
                 bool_decide (Forall (fun c => isdigit c = true) (drop (length base + 9) e))).
Definition ex_fs : fs :=
  list_to_map [(lit "/etc", NDir); (lit "/etc/a", NFile (lit "user")); (lit "/etc/a.pacsave", NFile (lit "old"));
               (lit "/etc/a.pacsave.1", NFile (lit "older")); (lit "/x", NFile (lit "x"))].

Lemma numbered_length path n : (length (numbered path n) <= length path + 29)%nat.
Proof.
  unfold numbered, Util.print_u. rewrite !length_app. pose proof (LocalDb.print_loop_length 20 n []). cbn [length] in *.
  change (length (lit ".pacsave.")) with 9%nat. lia.
Qed.
Lemma ex_shift_ready : shift_ready allowed allowed ex_regcomp ex_fs (lit "/etc/a").
Proof.
  split.
  - eexists. split_and!; [reflexivity| |by vm_compute].
    intros ds Hd _. change (Util.mbasename (lit "/etc/a")) with (lit "a"). cbv beta. change (take _ (tail _)) with (lit "a").
    apply andb_true_iff. split; [apply is_prefix_spec; by exists ds|]. by apply bool_decide_eq_true_2.
  - reflexivity.
  - reflexivity.
  - intros n Hn. split_and!; [done| |pose proof (numbered_length (lit "/etc/a") n); unfold PATH_MAX; simpl in *; lia].
    intros H. apply elem_of_list_to_map_2 in H. revert H. rewrite !elem_of_cons, elem_of_nil.
    by intros [H|[H|[H|[H|[H|[]]]]]].
  - split; [done|]. by vm_compute.
Qed.
Lemma shift_pacsave_witness :
  let f' := shift_pacsave allowed allowed (fun _ _ => None) ex_regcomp ex_fs (lit "/etc/a") in
  f' !! lit "/etc/a.pacsave.2" = Some (NFile (lit "older")) /\ f' !! lit "/etc/a.pacsave.1" = Some (NFile (lit "old")).
Proof.
  destruct (shift_pacsave_spec allowed allowed (fun _ _ => None) ex_regcomp ex_fs (lit "/etc/a") ex_shift_ready) as (H1 & H2 & _).
  split; [exact (H1 1 ltac:(lia))|exact H2].
Defined.

Definition with_backups (p : pkg) (bs : list backup) : pkg := {|
  pkg_id := pkg_id p; name_hash := name_hash p; filename := filename p; base := base p; name := name p;
  version := version p; desc := desc p; url := url p; packager := packager p; sha256sum := sha256sum p;
  base64_sig := base64_sig p; arch := arch p; builddate := builddate p; installdate := installdate p;
  size := size p; isize := isize p; download_size := download_size p; licenses := licenses p;
  replaces := replaces p; groups := groups p; backups := bs; depends := depends p;
  optdepends := optdepends p; checkdepends := checkdepends p; makedepends := makedepends p;
  conflicts := conflicts p; provides := provides p; files := files p; origin := origin p;
  origin_db := origin_db p; origin_file := origin_file p; reason := reason p; scriptlet := scriptlet p;
  pkg_xdata := pkg_xdata p; infolevel := infolevel p; validation := validation p |}.
Definition ex_old : pkg :=
  with_backups (with_files (mkpkg 1 (lit "foo") (lit "1-1")) [File (lit "etc/") 0 0; File (lit "etc/a") 0 0; File (lit "x") 0 0])
    [Backup (lit "etc/a") (Some (lit "packaged"))].
Notation ex_remove nosave :=
  (remove_package_files allowed allowed (fun _ _ => None) (fun _ => 0) (fun _ => Some 0) (fun _ => None) ex_md5 ex_regcomp
     (fun _ _ => 1) (lit "/") [] [] [] ex_fs ex_old None nosave).
Lemma ex_apart : apart (lit "/") ex_old.
Proof.
  split; [by_decide|]. intros a b Ha Hb [bk Hn] (s & Hs & Hu).
  assert (f_name b = lit "etc/a") as Eb.
  { unfold Package.needbackup in Hn. apply find_first_Some in Hn as [Hin Hn]. apply list_elem_of_singleton in Hin as ->.
    apply Z.eqb_eq, strcmp_eq in Hn. done. }
  rewrite Eb in Hs. apply save_longer in Hs. apply under_length in Hu.
  revert Ha. change (files ex_old) with [File (lit "etc/") 0 0; File (lit "etc/a") 0 0; File (lit "x") 0 0].
  rewrite !elem_of_cons, elem_of_nil. intros [->|[->|[->|[]]]]; simpl in *; lia.
Qed.
Lemma remove_package_files_witness :
  exists f', ex_remove false = Some (0, f') /\ kept (lit "/etc/a") (lit "user") f' /\ f' !! lit "/x" = None.
Proof.
  destruct (remove_package_files_safe allowed allowed (fun _ _ => None) (fun _ => 0) (fun _ => Some 0) (fun _ => None) ex_md5 ex_regcomp
     (fun _ _ => 1) (lit "/") [] [] [] ex_old None false ex_fs) as (r & f' & E & _ & Hk & Hg & _);
    [by_decide|by_decide|apply ex_apart|by_decide|].
  assert ((fun x : Z * fs => (x.1, x.2 !! lit "/x")) <$> ex_remove false = Some (0, None)) as Er by (vm_compute; reflexivity).
  rewrite E in Er. injection Er as -> Hx. exists f'. split_and!; [exact E| |].
  - apply (Hk (File (lit "etc/a") 0 0) (lit "user")); [by_decide|reflexivity|reflexivity|].
    split; [reflexivity|]. exists (Backup (lit "etc/a") (Some (lit "packaged"))), (lit "packaged"). split_and!; [reflexivity|reflexivity|discriminate].
  - exact Hx.
Defined.

End RemoveFiles.
