(* ===== verification/AddFiles.v ===== *)
(** * Extracting a package ([src/lib/libkuzpkg/add.c])

    [extract_single_file] with the decision about configuration files, and
    [commit_single_pkg], which replaces the old version of a package, extracts
    the archive and updates the local database.  libarchive is the parameter
    [extract] (what it promises is [Extract]); the other parameters are those
    of [RemoveFiles]. *)

From S2P Require Import Prelude CStr Version KList Package FileList PkgHash Util Conflict Db LocalDb Handle FileSys RemoveFiles.
Local Open Scope Z_scope.

Module AddFiles.
Import FileSys RemoveFiles.

(** An archive member. *)
Record entry := Entry { e_name : cstr; e_node : node }.

Definition key (path : cstr) : cstr := Conflict.strip_slashes (length path) path.
Definition pacnew (path : cstr) : cstr := path ++ lit ".pacnew".

(** What the code relies on in [archive_read_extract2]: when it reports
    success the member is at its place, and it leaves other files alone,
    whatever it reports (missing parent directories may be made, and symbolic
    links in the place of parent directories replaced). *)
Class Extract (extract : fs -> cstr -> entry -> bool * fs) : Prop := {
  extract_there f path e f' : extract f path e = (true, f') -> f' !! key path = Some (e_node e);
  extract_others f path e k : ~ under k (key path) -> is_Some (f !! k) -> (extract f path e).2 !! k = f !! k
}.

Section Calls.
Variables (denied unreadable : cstr -> bool) (follow : fs -> cstr -> option node).
Variables (lstat_dev : cstr -> Z) (stat_dev : cstr -> option Z) (access_w : cstr -> option bool).
Variables (md5 : hasher) (regcomp : cstr -> option (cstr -> bool)) (fnmatch : cstr -> cstr -> Z).
Variables (root : cstr) (noupgrade noextract skip_remove : list cstr).
Variable extract : fs -> cstr -> entry -> bool * fs.

(** [backup->hash = klpm_compute_md5sum(filename)] in the backup entry that
    [_klpm_needbackup] found, the first one of the name. *)
Fixpoint set_hash (bs : list backup) (n : cstr) (h : option cstr) : list backup :=
  match bs with
  | [] => []
  | b :: bs => if strcmp n (b_name b) =? 0 then Backup (b_name b) h :: bs else b :: set_hash bs n h
  end.

(** [a && b && strcmp(a, b) == 0] *)
Definition same_hash (a b : option cstr) : bool :=
  match a, b with Some a, Some b => strcmp a b =? 0 | _, _ => false end.

(** What the code has decided about an entry before it extracts it. *)
Inductive plan :=
  | Skip (errors : Z)
  | Plain
  | NoTouch
  | NeedBackup (hash_orig : option cstr).

(** The tests of [extract_single_file] up to the extraction. *)
Definition plan_for (f : fs) (newpkg : pkg) (oldpkg : option pkg) (e : entry) : plan :=
  let n := e_name e in
  if negb (in_files (Some newpkg) n) then Skip 0
  else if (PATH_MAX <=? length (root ++ n))%nat then Skip 1
  else if Conflict.fnmatch_patterns fnmatch noextract n =? 0 then Skip 0
  else
    match llstat f (root ++ n), e_node e with
    | None, _ => Plain
    | Some NDir, NDir => Skip 0
    | Some NDir, _ => Skip 1
    | Some _, NDir => Plain
    | Some _, _ =>
        if Conflict.fnmatch_patterns fnmatch noupgrade n =? 0 then NoTouch
        else
          match (p ← oldpkg; Package.needbackup n p) with
          | Some oldbackup => NeedBackup (b_hash oldbackup)
          | None => match Package.needbackup n newpkg with Some _ => NeedBackup None | None => Plain end
          end
    end.

(** The choice between the local, the packaged and the original version. *)
Definition resolve_backup (f : fs) (filename : cstr) (hash_orig hash_pkg : option cstr) (isnewfile : bool) : Z * fs :=
  let install := match rename denied f (pacnew filename) filename with Some f => (0, f) | None => (1, f) end in
  let hash_local := compute_md5sum follow md5 f filename in
  if same_hash hash_local hash_pkg then install
  else if same_hash hash_orig hash_pkg then
    (0, if isnewfile then default f (unlink denied f (pacnew filename)) else f)
  else if same_hash hash_orig hash_local then install
  else (0, f).

(** [extract_single_file] for an entry whose name does not start with a dot:
    the number of errors, the files and the new package with its hashes. *)
Definition extract_single_file (f : fs) (newpkg : pkg) (oldpkg : option pkg) (e : entry) : Z * fs * pkg :=
  let plan := plan_for f newpkg oldpkg e in
  match plan with
  | Skip errors => (errors, f, newpkg)
  | _ =>
      let filename := root ++ e_name e in
      let aside := match plan with Plain => false | _ => true end in
      let target := if aside then pacnew filename else filename in
      if aside && (PATH_MAX <=? length target)%nat then (1, f, newpkg)
      else
        let isnewfile := match llstat f target with None => true | Some _ => false end in
        let '(ok, f) := extract f target e in
        if negb ok then (1, f, newpkg)
        else
          let hash_pkg := compute_md5sum follow md5 f target in
          let newpkg := match Package.needbackup (e_name e) newpkg with
                        | Some _ => with_backups newpkg (set_hash (backups newpkg) (e_name e) hash_pkg)
                        | None => newpkg
                        end in
          match plan with
          | NeedBackup hash_orig => let '(errors, f) := resolve_backup f filename hash_orig hash_pkg isnewfile in (errors, f, newpkg)
          | _ => (0, f, newpkg)
          end
  end.

(** [extract_db_file]: the metadata goes to the database entry; [fails] is
    whether the extraction does.  Only the install script matters to the other
    components. *)
Variable db_extract_fails : cstr -> bool.
Definition extract_db_file (d : LocalDb.dbentry) (n : cstr) : Z * LocalDb.dbentry :=
  let go := if db_extract_fails n then (1, d)
            else (0, if strcmp n (lit ".INSTALL") =? 0 then LocalDb.DbEntry (LocalDb.d_desc d) (LocalDb.d_files d) true else d) in
  if (strcmp n (lit ".INSTALL") =? 0) || (strcmp n (lit ".CHANGELOG") =? 0) || (strcmp n (lit ".MTREE") =? 0) then go
  else (0, d).

Definition is_meta (n : cstr) : bool := bool_decide (head n = Some "."%char).

(** The loop over the archive: the errors, the files, the database entry and
    the package. *)
Fixpoint extract_all (dbonly : bool) (f : fs) (d : LocalDb.dbentry) (newpkg : pkg) (oldpkg : option pkg) (es : list entry) (errors : Z)
    : Z * fs * LocalDb.dbentry * pkg :=
  match es with
  | [] => (errors, f, d, newpkg)
  | e :: es =>
      if is_meta (e_name e) then
        let '(r, d) := extract_db_file d (e_name e) in extract_all dbonly f d newpkg oldpkg es (errors + r)
      else if dbonly then extract_all dbonly f d newpkg oldpkg es errors
      else let '(r, f, newpkg) := extract_single_file f newpkg oldpkg e in extract_all dbonly f d newpkg oldpkg es (errors + r)
  end.
End Calls.

(** ** The decision about configuration files *)

(** What becomes of a configuration file with contents [cur], original hash
    [orig] and packaged version [new]. *)
Inductive choice := Install | Leave | Both.
Definition three_way (md5 : cstr -> cstr) (cur new : cstr) (orig : option cstr) : choice :=
  if decide (md5 cur = md5 new) then Install
  else if decide (orig = Some (md5 new)) then Leave
  else if decide (orig = Some (md5 cur)) then Install
  else Both.

Lemma same_hash_spec a b : same_hash a b = true <-> a = b /\ is_Some a.
Proof.
  destruct a as [a|], b as [b|]; simpl; [|split; [done|by intros [? [? ?]]]..]. rewrite Z.eqb_eq, strcmp_eq. split; [intros ->; eauto|]. by intros [[= ->] _].
Qed.
Lemma same_hash_some a b : same_hash a (Some b) = bool_decide (a = Some b).
Proof. apply eq_true_iff_eq. rewrite same_hash_spec, bool_decide_eq_true. split; [by intros [-> _]|]. intros ->. eauto. Qed.

Section Extraction.
Context (denied unreadable : cstr -> bool) (follow : fs -> cstr -> option node).
Context (lstat_dev : cstr -> Z) (stat_dev : cstr -> option Z) (access_w : cstr -> option bool).
Context (md5 : hasher) (regcomp : cstr -> option (cstr -> bool)) (fnmatch : cstr -> cstr -> Z).
Context (root : cstr) (noupgrade noextract skip_remove : list cstr).
Context (extract : fs -> cstr -> entry -> bool * fs) `{!Extract extract}.
Notation extract_single_file := (extract_single_file denied follow md5 fnmatch root noupgrade noextract extract).
Notation resolve_backup := (resolve_backup denied follow md5).

Lemma pacnew_key path : key (pacnew path) = pacnew path.
Proof.
  unfold key. assert (FileList.is_dir_name (pacnew path) = false) as H.
  { unfold FileList.is_dir_name, pacnew. change (lit ".pacnew") with (lit ".pacne" ++ ["w"%char]). by rewrite app_assoc, last_snoc. }
  destruct (length (pacnew path)); cbn [Conflict.strip_slashes]; [done|]. by rewrite H, andb_false_r.
Qed.
Lemma pacnew_ne path : path <> pacnew path.
Proof. intros H. apply (f_equal length) in H. unfold pacnew in H. rewrite length_app in H. simpl in H. lia. Qed.
Lemma pacnew_not_under path : ~ under path (pacnew path).
Proof.
  intros [H|[r H]%is_prefix_spec]; [by apply (pacnew_ne path)|]. unfold pacnew in H. rewrite <- app_assoc in H. by apply app_inv_head in H.
Qed.
Lemma key_clean path : FileList.is_dir_name path = false -> key path = path.
Proof. intros H. unfold key. destruct (length path); cbn [Conflict.strip_slashes]; [done|]. by rewrite H, andb_false_r. Qed.

(** [resolve_backup] follows the table. *)
Lemma resolve_backup_spec f filename cur new orig isnew :
  f !! filename = Some (NFile cur) -> f !! pacnew filename = Some (NFile new) ->
  hash_fails md5 filename = false -> denied filename = false -> denied (pacnew filename) = false ->
  exists f', resolve_backup f filename orig (Some (md5 new)) isnew = (0, f') /\
    f' !! filename = Some (NFile match three_way md5 cur new orig with Install => new | _ => cur end) /\
    f' !! pacnew filename = match three_way md5 cur new orig with
                            | Install => None
                            | Leave => if isnew then None else Some (NFile new)
                            | Both => Some (NFile new)
                            end /\
    (forall k, k <> filename -> k <> pacnew filename -> f' !! k = f !! k).
Proof.
  intros Hf Hp Hh Hd1 Hd2. pose proof (pacnew_ne filename) as Hne. unfold AddFiles.resolve_backup, three_way.
  rewrite (compute_md5sum_file _ _ _ _ cur Hh Hf).
  assert (exists f', (match rename denied f (pacnew filename) filename with Some f => (0, f) | None => (1, f) end) = (0, f') /\
    f' !! filename = Some (NFile new) /\ f' !! pacnew filename = None /\ (forall k, k <> filename -> k <> pacnew filename -> f' !! k = f !! k)) as Hi.
  { rewrite (rename_file _ _ _ _ (NFile new) Hp) by done. rewrite Hd1, Hd2. cbn [orb]. rewrite decide_False by done. rewrite decide_False by congruence.
    eexists. split_and!; [done|apply lookup_insert_eq|rewrite lookup_insert_ne by done; apply lookup_delete_eq|].
    intros k H1 H2. by rewrite lookup_insert_ne, lookup_delete_ne. }
  rewrite !same_hash_some. destruct (decide (md5 cur = md5 new)) as [E|E]; [rewrite bool_decide_eq_true_2 by congruence; exact Hi|].
  rewrite bool_decide_eq_false_2 by congruence.
  destruct (decide (orig = Some (md5 new))) as [E2|E2]; [rewrite bool_decide_eq_true_2 by done|rewrite bool_decide_eq_false_2 by done].
  - destruct isnew; [|exists f; split_and!; done]. unfold unlink. rewrite Hp, Hd2. simpl. eexists. split_and!; [done|by rewrite lookup_delete_ne|apply lookup_delete_eq|].
    intros k _ Hk. by rewrite lookup_delete_ne.
  - destruct (decide (orig = Some (md5 cur))) as [E3|E3]; [rewrite bool_decide_eq_true_2 by done; exact Hi|rewrite bool_decide_eq_false_2 by done].
    exists f. split_and!; done.
Qed.

(** C23: an existing configuration file is treated as the table says, by the
    hashes of the local, the new and the originally installed version: equal
    local and new, or local unchanged since it was installed: the new version
    replaces it; new unchanged: the local one stays; otherwise both are kept,
    the new one as .pacnew.  The extraction succeeds, the hashes can be computed
    and the files may be renamed and removed.  No other file is touched, and the new package
    remembers the hash of its version. *)
Theorem config_three_way f newpkg oldpkg e cur new orig
    (Hnew : e_node e = NFile new) (Hcur : f !! (root ++ e_name e) = Some (NFile cur))
    (Hclean : FileList.is_dir_name (root ++ e_name e) = false)
    (Hplan : plan_for fnmatch root noupgrade noextract f newpkg oldpkg e = NeedBackup orig)
    (Hlen : (length (pacnew (root ++ e_name e)) < PATH_MAX)%nat)
    (Hok : (extract f (pacnew (root ++ e_name e)) e).1 = true)
    (Hh1 : hash_fails md5 (root ++ e_name e) = false) (Hh2 : hash_fails md5 (pacnew (root ++ e_name e)) = false)
    (Hd1 : denied (root ++ e_name e) = false) (Hd2 : denied (pacnew (root ++ e_name e)) = false) :
  let path := root ++ e_name e in
  exists f' newpkg', extract_single_file f newpkg oldpkg e = (0, f', newpkg') /\
    f' !! path = Some (NFile match three_way md5 cur new orig with Install => new | _ => cur end) /\
    f' !! pacnew path = match three_way md5 cur new orig with
                        | Install => None
                        | Leave => if decide (f !! pacnew path = None) then None else Some (NFile new)
                        | Both => Some (NFile new)
                        end /\
    (forall k, k <> path -> ~ under k (pacnew path) -> is_Some (f !! k) -> f' !! k = f !! k) /\
    (forall b, Package.needbackup (e_name e) newpkg = Some b -> Package.needbackup (e_name e) newpkg' = Some (Backup (b_name b) (Some (md5 new)))).
Proof.
  intros path. unfold AddFiles.extract_single_file. rewrite Hplan. cbn [andb]. fold path in Hcur, Hclean, Hlen, Hok, Hh1, Hh2, Hd1, Hd2 |- *.
  rewrite (proj2 (Nat.leb_gt _ _)) by done.
  unfold llstat at 1. pose proof (pacnew_key path) as Hk. unfold key in Hk. rewrite Hk.
  destruct (extract f (pacnew path) e) as [ok f1] eqn:Ex. simpl in Hok. subst ok. cbn [negb].
  pose proof (extract_there _ _ _ _ Ex) as Ht. rewrite pacnew_key, Hnew in Ht.
  assert (forall k, ~ under k (pacnew path) -> is_Some (f !! k) -> f1 !! k = f !! k) as Hoth.
  { intros k Hkn Hs. pose proof (extract_others f (pacnew path) e k) as H. rewrite Ex, pacnew_key in H. by apply H. }
  assert (f1 !! path = Some (NFile cur)) as Hcur1 by (rewrite Hoth; [done|apply pacnew_not_under|by rewrite Hcur]).
  rewrite (compute_md5sum_file _ _ _ _ new Hh2 Ht).
  set (isnew := match f !! pacnew path with None => true | Some _ => false end).
  destruct (resolve_backup_spec f1 path cur new orig isnew Hcur1 Ht Hh1 Hd1 Hd2) as (f' & -> & H1 & H2 & H3).
  eexists _, _. split_and!; [done|done| | |].
  - rewrite H2. destruct (three_way _ _ _ _); try done. unfold isnew. destruct (f !! pacnew path); [by rewrite decide_False|by rewrite decide_True].
  - intros k Hk1 Hk2 Hs. rewrite H3; [by apply Hoth|done|]. intros ->. apply Hk2. by left.
  - intros b Hb. rewrite Hb. unfold Package.needbackup in *. cbn [with_backups backups]. clear -Hb.
    induction (backups newpkg) as [|x bs IH]; cbn [set_hash find_first List.find] in *; [done|].
    unfold find_first in *. cbn [List.find] in Hb. destruct (strcmp (e_name e) (b_name x) =? 0) eqn:E; cbn [List.find b_name]; rewrite E; [by injection Hb as ->|by apply IH].
Qed.
(** ** Extraction leaves other files alone *)

(** The path [k] is neither written for the member [n] nor a parent directory
    of what is written. *)
Definition off (n k : cstr) : Prop := k <> root ++ n /\ ~ under k (key (root ++ n)) /\ ~ under k (pacnew (root ++ n)).

Lemma extract_off n aside f e k : off n k -> is_Some (f !! k) ->
  (extract f (if aside : bool then pacnew (root ++ n) else root ++ n) e).2 !! k = f !! k.
Proof. intros (_ & H1 & H2) Hs. apply extract_others; [|done]. destruct aside; [by rewrite pacnew_key|done]. Qed.

(** [resolve_backup] changes at most the file and its .pacnew. *)
Lemma resolve_backup_frame f filename n orig hp isnew k :
  f !! pacnew filename = Some n -> n <> NDir -> k <> filename -> k <> pacnew filename ->
  (resolve_backup f filename orig hp isnew).2 !! k = f !! k.
Proof.
  intros Hp Hn H1 H2. unfold AddFiles.resolve_backup.
  assert ((match rename denied f (pacnew filename) filename with Some f => (0, f) | None => (1, f) end).2 !! k = f !! k) as Hi.
  { rewrite (rename_file _ _ _ _ n Hp) by done. destruct (_ || _); [done|]. case_decide; [done|]. case_decide; [done|].
    cbn [snd]. by rewrite lookup_insert_ne, lookup_delete_ne. }
  destruct (same_hash _ _); [exact Hi|]. destruct (same_hash _ _); [|destruct (same_hash _ _); [exact Hi|done]].
  cbn [snd]. destruct isnew; [|done]. destruct (unlink denied f (pacnew filename)) as [f'|] eqn:E; [|done].
  by apply (unlink_frame denied f _ f' E).
Qed.

(** A member that is put aside is not a directory. *)
Lemma plan_aside f newpkg oldpkg e : 
  match plan_for fnmatch root noupgrade noextract f newpkg oldpkg e with NoTouch | NeedBackup _ => e_node e <> NDir | _ => True end.
Proof.
  unfold plan_for. destruct (negb _); [done|]. destruct (_ <=? _)%nat; [done|]. destruct (_ =? 0); [done|].
  destruct (llstat f _) as [[]|], (e_node e); try done; (destruct (_ =? 0); [done|]; destruct (_ ← _; _); [done|]; destruct (Package.needbackup _ _); done).
Qed.

Lemma extract_single_frame f newpkg oldpkg e k : off (e_name e) k -> is_Some (f !! k) ->
  (extract_single_file f newpkg oldpkg e).1.2 !! k = f !! k.
Proof.
  intros Hoff Hs. unfold AddFiles.extract_single_file. pose proof (plan_aside f newpkg oldpkg e) as Ha.
  destruct (plan_for _ _ _ _ _ _ _ _) as [z| | |orig]; [done|..]; cbn [andb];
    [pose proof (extract_off (e_name e) false f e k Hoff Hs) as Hx|destruct (_ <=? _)%nat; [done|]; pose proof (extract_off (e_name e) true f e k Hoff Hs) as Hx..];
    cbn iota in Hx; destruct (extract f _ e) as [ok f1] eqn:Ex; cbn [snd] in Hx; destruct ok; cbn [negb]; try exact Hx.
  destruct (AddFiles.resolve_backup _ _ _ _ _ _ _ _) as [z f2] eqn:Er. cbn [fst snd]. rewrite <- Hx.
  replace f2 with (resolve_backup f1 (root ++ e_name e) orig (compute_md5sum follow md5 f1 (pacnew (root ++ e_name e)))
    (match llstat f (pacnew (root ++ e_name e)) with None => true | Some _ => false end)).2 by (by rewrite Er).
  destruct Hoff as (H1 & _ & H3). eapply resolve_backup_frame; [|exact Ha|done|intros ->; apply H3; by left].
  apply extract_there in Ex. by rewrite pacnew_key in Ex.
Qed.

Lemma extract_single_pkg f newpkg oldpkg e n :
  (is_Some (Package.needbackup n newpkg) -> is_Some (Package.needbackup n (extract_single_file f newpkg oldpkg e).2)) /\
  exists bs, (extract_single_file f newpkg oldpkg e).2 = with_backups newpkg bs.
Proof.
  assert (newpkg = with_backups newpkg (backups newpkg)) as Hid by by destruct newpkg.
  assert (forall h, is_Some (Package.needbackup n newpkg) ->
    is_Some (Package.needbackup n (with_backups newpkg (set_hash (backups newpkg) (e_name e) h)))) as Hset.
  { intros h. unfold Package.needbackup. cbn [with_backups backups]. clear. unfold find_first.
    induction (backups newpkg) as [|b bs IH]; cbn [set_hash List.find]; [done|].
    destruct (strcmp (e_name e) (b_name b) =? 0); cbn [List.find b_name]; destruct (strcmp n (b_name b) =? 0); eauto. }
  unfold AddFiles.extract_single_file. destruct (plan_for _ _ _ _ _ _ _ _) as [z| | |orig]; [eauto|..];
    (destruct (_ && _); [by split; [|eauto]|]); destruct (extract f _ e) as [[] f1]; cbn [negb]; (try by split; [|eauto]);
    try destruct (AddFiles.resolve_backup _ _ _ _ _ _ _ _) as [z f2]; cbn [snd]; destruct (Package.needbackup (e_name e) newpkg); split; eauto.
Qed.

(** ** A configuration file the user changed survives *)

(** The file [p] holds [cur], as far as its hash tells. *)
Definition holds (p cur : cstr) (f : fs) : Prop := exists c, f !! p = Some (NFile c) /\ md5 c = md5 cur.

(** Whether or not the hashes of the two files can be computed. *)
Lemma resolve_keeps f p cur new orig isnew : f !! pacnew p = Some (NFile new) -> holds p cur f -> orig <> Some (md5 cur) ->
  holds p cur (resolve_backup f p orig (compute_md5sum follow md5 f (pacnew p)) isnew).2.
Proof.
  intros Hp (c & Hc & Ec) Hh. pose proof (pacnew_ne p) as Hne. unfold AddFiles.resolve_backup.
  assert (forall b : bool, holds p cur (if b then default f (unlink denied f (pacnew p)) else f)) as Hun.
  { intros []; [|by exists c]. destruct (unlink denied f (pacnew p)) as [f'|] eqn:E; [|by exists c].
    exists c. split; [|done]. cbn [default]. change (default f (Some f')) with f'. simpl. by rewrite (unlink_frame denied f _ f' E) by done. }
  assert (compute_md5sum follow md5 f p = None \/ compute_md5sum follow md5 f p = Some (md5 cur)) as El.
  { unfold compute_md5sum, stat. rewrite Hc, Ec. destruct (hash_fails md5 p); auto. }
  assert (compute_md5sum follow md5 f (pacnew p) = None \/ compute_md5sum follow md5 f (pacnew p) = Some (md5 new)) as Ep.
  { unfold compute_md5sum, stat. rewrite Hp. destruct (hash_fails md5 (pacnew p)); auto. }
  assert (same_hash orig (compute_md5sum follow md5 f p) = false) as Eo.
  { destruct El as [-> | ->]; [by destruct orig|]. destruct orig as [o|]; [|done]. rewrite same_hash_some. by apply bool_decide_eq_false_2. }
  rewrite Eo. destruct (same_hash (compute_md5sum follow md5 f p) _) eqn:E1.
  { assert (md5 new = md5 cur) as En. { destruct El as [El|El], Ep as [Ep|Ep]; rewrite El, Ep in E1; try done. rewrite same_hash_some in E1. apply bool_decide_eq_true in E1. congruence. }
    rewrite (rename_file _ _ _ _ (NFile new) Hp) by done. destruct (_ || _); [by exists c|]. rewrite decide_False by done.
    rewrite decide_False by congruence. exists new. cbn [snd]. rewrite lookup_insert_eq. by split. }
  destruct (same_hash orig (compute_md5sum follow md5 f (pacnew p))); [apply Hun|by exists c].
Qed.

(** The hash of the version that was installed. *)
Definition orig_hash (n : cstr) (oldpkg : option pkg) : option cstr := p ← oldpkg; b ← Package.needbackup n p; b_hash b.

(** A regular file the new package lists for backup is never overwritten at
    once. *)
Lemma plan_config f newpkg oldpkg e c new :
  FileList.is_dir_name (root ++ e_name e) = false -> e_node e = NFile new -> f !! (root ++ e_name e) = Some (NFile c) ->
  is_Some (Package.needbackup (e_name e) newpkg) ->
  match plan_for fnmatch root noupgrade noextract f newpkg oldpkg e with
  | Plain => False | NeedBackup orig => orig = orig_hash (e_name e) oldpkg | _ => True
  end.
Proof.
  intros Hcl Hnode Hc [b Hb]. unfold plan_for. destruct (negb _); [done|]. destruct (_ <=? _)%nat; [done|]. destruct (_ =? 0); [done|].
  unfold llstat. fold (key (root ++ e_name e)). rewrite key_clean, Hc, Hnode, Hb by done. destruct (_ =? 0); [done|].
  unfold orig_hash. destruct oldpkg as [o|]; [|done]. simpl. by destruct (Package.needbackup (e_name e) o).
Qed.

Lemma extract_single_keeps f newpkg oldpkg e cur new :
  FileList.is_dir_name (root ++ e_name e) = false -> e_node e = NFile new ->
  holds (root ++ e_name e) cur f -> is_Some (Package.needbackup (e_name e) newpkg) -> orig_hash (e_name e) oldpkg <> Some (md5 cur) ->
  holds (root ++ e_name e) cur (extract_single_file f newpkg oldpkg e).1.2.
Proof.
  intros Hcl Hnode Hh Hb Hne. pose proof Hh as (c & Hc & _). unfold AddFiles.extract_single_file.
  pose proof (plan_config f newpkg oldpkg e c new Hcl Hnode Hc Hb) as Hp.
  assert (forall f1 ok, extract f (pacnew (root ++ e_name e)) e = (ok, f1) -> holds (root ++ e_name e) cur f1) as Hx.
  { intros f1 ok Ex. destruct Hh as (c' & Hc' & Ec). exists c'. split; [|done]. rewrite <- Hc'.
    replace f1 with (extract f (pacnew (root ++ e_name e)) e).2 by by rewrite Ex.
    apply extract_others; [rewrite pacnew_key; apply pacnew_not_under|by rewrite Hc']. }
  destruct (plan_for _ _ _ _ _ _ _ _) as [z| | |orig]; [done|done|..]; [|rewrite Hp; clear Hp]; cbn [andb];
    (destruct (_ <=? _)%nat; [done|]); destruct (extract f _ e) as [ok f1] eqn:Ex; specialize (Hx _ _ eq_refl); destruct ok; cbn [negb]; try exact Hx.
  apply extract_there in Ex. rewrite pacnew_key, Hnode in Ex.
  pose proof (resolve_keeps f1 (root ++ e_name e) cur new (orig_hash (e_name e) oldpkg) (match llstat f (pacnew (root ++ e_name e)) with None => true | Some _ => false end) Ex Hx Hne) as Hr.
  destruct (AddFiles.resolve_backup _ _ _ _ _ _ _ _) as [z f2]. exact Hr.
Qed.
(** What the archive has to look like for the file [n]: its own member is a
    regular file, and no other member is put in its place. *)
Definition member_ok (n : cstr) (e : entry) : Prop :=
  is_meta (e_name e) = true \/ (e_name e = n /\ exists new, e_node e = NFile new) \/ off (e_name e) (root ++ n).

Lemma extract_all_keeps db_fails dbonly n cur oldpkg es :
  FileList.is_dir_name (root ++ n) = false -> orig_hash n oldpkg <> Some (md5 cur) -> Forall (member_ok n) es ->
  forall f d newpkg errors, is_Some (Package.needbackup n newpkg) -> holds (root ++ n) cur f ->
  holds (root ++ n) cur (extract_all denied follow md5 fnmatch root noupgrade noextract extract db_fails dbonly f d newpkg oldpkg es errors).1.1.2.
Proof.
  intros Hcl Hne. induction 1 as [|e es He Hes IH]; intros f d newpkg errors Hb Hh; cbn [extract_all]; [done|].
  destruct (is_meta (e_name e)) eqn:Em; [destruct (extract_db_file _ _ _); by apply IH|]. destruct dbonly; [by apply IH|].
  destruct (extract_single_pkg f newpkg oldpkg e n) as [Hb1 _]. specialize (Hb1 Hb).
  assert (holds (root ++ n) cur (extract_single_file f newpkg oldpkg e).1.2) as H1.
  { destruct He as [He|[[<- [new Hnew]]|Hoff]]; [congruence|by eapply extract_single_keeps|].
    destruct Hh as (c & Hc & Ec). exists c. rewrite extract_single_frame; [done|done|by rewrite Hc]. }
  destruct (AddFiles.extract_single_file _ _ _ _ _ _ _ _ _ _ _ _) as [[r f1] newpkg1]. by apply IH.
Qed.

(** Extraction changes nothing of the package but the hashes. *)
Lemma extract_all_pkg db_fails dbonly oldpkg es f d newpkg errors :
  exists bs, (extract_all denied follow md5 fnmatch root noupgrade noextract extract db_fails dbonly f d newpkg oldpkg es errors).2 = with_backups newpkg bs.
Proof.
  revert f d newpkg errors. induction es as [|e es IH]; intros f d newpkg errors; cbn [extract_all]; [exists (backups newpkg); by destruct newpkg|].
  destruct (is_meta (e_name e)); [destruct (extract_db_file _ _ _); apply IH|]. destruct dbonly; [apply IH|].
  destruct (extract_single_pkg f newpkg oldpkg e []) as [_ [bs Hbs]].
  destruct (AddFiles.extract_single_file _ _ _ _ _ _ _ _ _ _ _ _) as [[r f1] newpkg1]. cbn [snd] in Hbs. subst newpkg1.
  destruct (IH f1 d (with_backups newpkg bs) (errors + r)) as [bs' ->]. exists bs'. by destruct newpkg.
Qed.
End Extraction.

(** *** Witness *)

(** Extraction that always succeeds. *)
Definition ex_extract (f : fs) (path : cstr) (e : entry) : bool * fs := (true, <[key path := e_node e]> f).
#[global] Instance ex_extract_ok : Extract ex_extract.
Proof.
  split.
  - intros f path e f' [= <-]. apply lookup_insert_eq.
  - intros f path e k Hk _. cbn [ex_extract snd]. rewrite lookup_insert_ne; [done|]. intros <-. apply Hk. by left.
Qed.
Definition ex_new : pkg :=
  with_backups (with_files (mkpkg 2 (lit "foo") (lit "2-1")) [File (lit "etc/") 0 0; File (lit "etc/a") 0 0]) [Backup (lit "etc/a") None].
Definition ex_member : entry := Entry (lit "etc/a") (NFile (lit "shipped")).
Lemma config_three_way_witness :
  exists f' newpkg', extract_single_file allowed (fun _ _ => None) ex_md5 (fun _ _ => 1) (lit "/") [] [] ex_extract
      ex_fs ex_new (Some ex_old) ex_member = (0, f', newpkg') /\
    f' !! lit "/etc/a" = Some (NFile (lit "user")) /\ f' !! lit "/etc/a.pacnew" = Some (NFile (lit "shipped")) /\
    three_way ex_md5 (lit "user") (lit "shipped") (Some (lit "packaged")) = Both.
Proof.
  destruct (config_three_way allowed (fun _ _ => None) ex_md5 (fun _ _ => 1) (lit "/") [] [] ex_extract
      ex_fs ex_new (Some ex_old) ex_member (lit "user") (lit "shipped") (Some (lit "packaged"))) as (f' & newpkg' & E & H1 & H2 & _);
    [reflexivity..|vm_compute; lia|reflexivity|reflexivity|reflexivity|reflexivity|reflexivity|].
  exists f', newpkg'. split_and!; [exact E|exact H1|exact H2|reflexivity].
Defined.

End AddFiles.
