(* ===== verification/Commit.v ===== *)
(** * Installing one package ([commit_single_pkg] of [src/lib/libkuzpkg/add.c])

    The whole step a transaction makes for one package: the old version is
    removed, the entry in the local database is made, the archive is extracted
    and the entry and the package cache are brought up to date.  What the
    platform decides is bundled in [platform]; the components of the library
    are those of the other files. *)

From S2P Require Import Prelude CStr Version KList Package FileList PkgHash Util Conflict Db LocalDb FileSys RemoveFiles AddFiles.
Local Open Scope Z_scope.

Module Commit.
Import FileSys RemoveFiles AddFiles.

(** What the operating system, libarchive, the C library and the scriptlets
    decide. *)
Record platform := Platform {
  p_denied : cstr -> bool;
  p_unreadable : cstr -> bool;
  p_follow : fs -> cstr -> option node;
  p_lstat_dev : cstr -> Z;
  p_stat_dev : cstr -> option Z;
  p_access_w : cstr -> option bool;
  p_md5 : hasher;
  p_regcomp : cstr -> option (cstr -> bool);
  p_fnmatch : cstr -> cstr -> Z;
  p_extract : fs -> cstr -> entry -> bool * fs;
  (** Metadata members that cannot be extracted. *)
  p_db_extract_fails : cstr -> bool;
  p_scriptlet : pkg -> cstr -> fs -> fs;
  (** What is left of an entry that cannot be removed, the files of an entry that
      cannot be opened for writing, what of a text written to them reaches the disk,
      and the entries whose directory cannot be made. *)
  p_entry_left : cstr * cstr -> LocalDb.dbentry -> option LocalDb.dbentry;
  p_fopen_fails : cstr * cstr -> string -> bool;
  p_stored : cstr * cstr -> cstr -> cstr;
  p_mkdir_fails : cstr * cstr -> bool;
  p_archive : option cstr -> option (list entry);
  p_chdir_fails : bool;
  p_populate : Db.db -> bool * Db.db;
  (** [time(NULL)] and the environment variable SOURCE_DATE_EPOCH. *)
  p_time : Z;
  p_epoch : option cstr
}.

(** The settings of the handle and of the transaction the step uses. *)
Record config := Config {
  c_root : cstr; c_noupgrade : list cstr; c_noextract : list cstr; c_skip_remove : list cstr; c_flags : Z
}.

Inductive cerror := ERR_TRANS_ABORT | ERR_DB_WRITE | ERR_PKG_OPEN.

Definition FLAG_ALLDEPS : Z := 2 ^ 8.
Definition FLAG_ALLEXPLICIT : Z := 2 ^ 14.

Definition with_installdate (p : pkg) (t : Z) : pkg := {|
  pkg_id := pkg_id p; name_hash := name_hash p; filename := filename p; base := base p; name := name p;
  version := version p; desc := desc p; url := url p; packager := packager p; sha256sum := sha256sum p;
  base64_sig := base64_sig p; arch := arch p; builddate := builddate p; installdate := t;
  size := size p; isize := isize p; download_size := download_size p; licenses := licenses p;
  replaces := replaces p; groups := groups p; backups := backups p; depends := depends p;
  optdepends := optdepends p; checkdepends := checkdepends p; makedepends := makedepends p;
  conflicts := conflicts p; provides := provides p; files := files p; origin := origin p;
  origin_db := origin_db p; origin_file := origin_file p; reason := reason p; scriptlet := scriptlet p;
  pkg_xdata := pkg_xdata p; infolevel := infolevel p; validation := validation p |}.

(** A package object as the local backend writes it. *)
Definition to_lpkg (p : pkg) : LocalDb.lpkg :=
  LocalDb.LPkg (name p) (version p)
    (LocalDb.Info (base p) (desc p) (groups p) (url p) (licenses p) (arch p) (builddate p) (installdate p) (packager p)
       (reason p) (validation p) (isize p) (replaces p) (depends p) (optdepends p) (makedepends p) (checkdepends p)
       (conflicts p) (provides p) (pkg_xdata p))
    (LocalDb.FilesInfo (files p) (backups p)) (scriptlet p) (infolevel p).

Section Commit.
Variables (P : platform) (C : config).

(** [get_install_time] *)
Definition get_install_time : Z :=
  match p_epoch P with
  | None => p_time P
  | Some text =>
      let '(sde, stop, erange) := Util.strtoull text in
      if bool_decide (stop = text) || negb (bool_decide (stop = [])) || erange then p_time P else Util.s64 sde
  end.

Definition entry_key (p : pkg) : cstr * cstr := (name p, version p).
Definition no_entry : LocalDb.dbentry := LocalDb.DbEntry None None false.

(** [_klpm_local_db_prepare]: [mkdir] fails when the directory exists. *)
Definition local_db_prepare (s : sys) (p : pkg) : option sys :=
  match s_entries s !! entry_key p with
  | Some _ => None
  | None => if p_mkdir_fails P (entry_key p) then None
            else Some (Sys (s_fs s) (<[entry_key p := no_entry]> (s_entries s)) (s_db s))
  end.

Definition run_scriptlet (p : pkg) (which : string) (s : sys) : sys :=
  scriptlet_of (p_scriptlet P) (c_flags C) p which s.

(** The install reason: that of the old version, unless the transaction sets
    one for all packages. *)
Definition copy_reason (newpkg : pkg) (oldpkg : option pkg) : pkg :=
  match oldpkg with Some o => with_reason newpkg (reason o) | None => newpkg end.
Definition override_reason (newpkg : pkg) : pkg :=
  if flag (c_flags C) FLAG_ALLDEPS then with_reason newpkg REASON_DEPEND
  else if flag (c_flags C) FLAG_ALLEXPLICIT then with_reason newpkg REASON_EXPLICIT
  else newpkg.

Definition remove_old (s : sys) (oldpkg : option pkg) (newpkg : pkg) (e : Db.db_errno) : option (Z * sys) :=
  match oldpkg with
  | None => Some (0, s)
  | Some o =>
      remove_single_package (p_denied P) (p_unreadable P) (p_follow P) (p_lstat_dev P) (p_stat_dev P) (p_access_w P) (p_md5 P)
        (p_regcomp P) (p_fnmatch P) (c_root C) (c_noupgrade C) (c_skip_remove C) (Db.db_get_pkgcache (p_populate P) (s_db s) e).1.1
        (p_scriptlet P) (p_entry_left P) s (c_flags C) o (Some newpkg)
  end.

(** [_klpm_local_db_write] into the local database: whether it returns 0, and the
    entry.  A file that cannot be opened ends it with -1; the results of fputs and
    fclose are not looked at. *)
Definition write_entry (p : pkg) (d : LocalDb.dbentry) : bool * LocalDb.dbentry :=
  let k := entry_key p in
  let stored (t : cstr * bool) := (p_stored P k t.1, t.2) in
  if p_fopen_fails P k "desc" then (false, d)
  else
    let d := LocalDb.local_db_write (to_lpkg p) LocalDb.INFRQ_DESC d in
    let d := LocalDb.DbEntry (stored <$> LocalDb.d_desc d) (LocalDb.d_files d) (LocalDb.d_install d) in
    if p_fopen_fails P k "files" then (false, d)
    else
      let d := LocalDb.local_db_write (to_lpkg p) LocalDb.INFRQ_FILES d in
      (true, LocalDb.DbEntry (LocalDb.d_desc d) (stored <$> LocalDb.d_files d) (LocalDb.d_install d)).

(** From the archive's first member on: extraction, the entry on disk and the
    cache; [force_load], [addr] and [ptr] are those of [Db.db_add_pkgincache]. *)
Definition install_files (s : sys) (newpkg : pkg) (oldpkg : option pkg) (es : list entry)
    (force_load : bool) (addr : positive) (ptr : option positive) (e : Db.db_errno) : option (Z * option cerror * sys * pkg) :=
  let d := default no_entry (s_entries s !! entry_key newpkg) in
  let '(errors, f, d, newpkg) :=
    extract_all (p_denied P) (p_follow P) (p_md5 P) (p_fnmatch P) (c_root C) (c_noupgrade C) (c_noextract C) (p_extract P)
      (p_db_extract_fails P) (flag (c_flags C) FLAG_DBONLY) (s_fs s) d newpkg oldpkg es 0 in
  let newpkg := with_installdate newpkg get_install_time in
  let put d db := Sys f (<[entry_key newpkg := d]> (s_entries s)) db in
  if negb (Db.has (Db.status (s_db s)) Db.DB_STATUS_LOCAL) then Some (-1, Some ERR_DB_WRITE, put d (s_db s), newpkg)
  else
    match write_entry newpkg d with
    | (false, d) => Some (-1, Some ERR_DB_WRITE, put d (s_db s), newpkg)
    | (true, d) =>
        '(_, db, _) ← Db.db_add_pkgincache (s_db s) newpkg force_load addr ptr e;
        let s := run_scriptlet newpkg (if oldpkg then "post_upgrade" else "post_install") (put d db) in
        Some (if errors =? 0 then 0 else -1, None, s, newpkg)
    end.

(** [commit_single_pkg]; [oldpkg] is [newpkg->oldpkg].  The result is the
    return value, the error set, the system and the package object. *)
Definition commit_single_pkg (s : sys) (newpkg : pkg) (oldpkg : option pkg)
    (force_load : bool) (addr : positive) (ptr : option positive) (e : Db.db_errno) : option (Z * option cerror * sys * pkg) :=
  '(local, db, e) ← Db.db_get_pkgfromcache (p_populate P) (s_db s) (name newpkg) e;
  let s := Sys (s_fs s) (s_entries s) db in
  let oldpkg := match local with Some _ => oldpkg | None => None end in
  let newpkg := copy_reason newpkg oldpkg in
  let s := run_scriptlet newpkg (if oldpkg then "pre_upgrade" else "pre_install") s in
  let newpkg := override_reason newpkg in
  '(r, s) ← remove_old s oldpkg newpkg e;
  if r =? -1 then Some (-1, Some ERR_TRANS_ABORT, s, newpkg)
  else
    match local_db_prepare s newpkg with
    | None => Some (-1, Some ERR_DB_WRITE, s, newpkg)
    | Some s =>
        match p_archive P (origin_file newpkg) with
        | None => Some (-1, Some ERR_PKG_OPEN, s, newpkg)
        | Some es =>
            if p_chdir_fails P then Some (-1, None, s, newpkg)
            else install_files s newpkg oldpkg es force_load addr ptr e
        end
    end.
End Commit.

(** ** The package cache during the step *)

(** The local database is usable and its cache, [h], is loaded. *)
Record db_ready (d : Db.db) (h : PkgHash.pkghash) : Prop := {
  dr_ok : Db.db_ok False d;
  dr_valid : Db.has (Db.status d) Db.DB_STATUS_VALID = true;
  dr_local : Db.has (Db.status d) Db.DB_STATUS_LOCAL = true;
  dr_cache : Db.pkgcache d = Some h;
  dr_names : NoDup (PkgHash.names_of h)
}.

Lemma db_loaded d h : Db.db_ok False d -> Db.pkgcache d = Some h -> Db.loaded d = true.
Proof. intros Hok Hc. destruct (Db.ok_present _ _ Hok) as [?|[]]; [rewrite Hc; eauto|done]. Qed.
Lemma free_groupcache_local d : Db.has (Db.status (Db.free_groupcache d)) Db.DB_STATUS_LOCAL = Db.has (Db.status d) Db.DB_STATUS_LOCAL.
Proof.
  unfold Db.free_groupcache. destruct (negb _); [done|]. cbn [Db.status Db.set_status].
  change Db.DB_STATUS_GRPCACHE with (2 ^ 12). change Db.DB_STATUS_LOCAL with (2 ^ 10). by rewrite Db.has_clear by lia.
Qed.
Lemma set_cache_ready d h h' : db_ready d h -> PkgHash.wf h' -> NoDup (PkgHash.names_of h') ->
  db_ready (Db.free_groupcache (Db.set_pkgcache d (Some h'))) h'.
Proof.
  intros [Hok Hv Hl Hc _] Hw Hnd. destruct (Db.free_groupcache_ok False (Db.set_pkgcache d (Some h'))) as (_ & _ & _ & Hp & Eb).
  { simpl. eauto. }
  { simpl. intros _. apply (Db.ok_present _ _ Hok). rewrite Hc. eauto. }
  { by intros ? [= <-]. } { apply Hok. } { apply Hok. }
  split; [by eapply Db.set_pkgcache_ok| |by rewrite free_groupcache_local|by rewrite Hp|done].
  injection Eb as Eb _ _. by rewrite Eb.
Qed.

Lemma get_loaded populate d h e : db_ready d h -> Db.db_get_pkgcache_hash populate d e = (Some h, d, e).
Proof.
  intros [Hok Hv Hl Hc _]. unfold Db.db_get_pkgcache_hash. rewrite Hv. cbn [negb]. fold (Db.loaded d).
  rewrite (db_loaded d h Hok Hc). by rewrite Hc.
Qed.

(** Removing a package from the cache, and adding one to it. *)
Lemma cache_remove d h p : db_ready d h -> pkg_hashed p ->
  exists z d' h', Db.db_remove_pkgfromcache d p = Some (z, d') /\ db_ready d' h' /\
    (PkgHash.hlist h').*1 ⊆ (PkgHash.hlist h).*1 /\ PkgHash.entries h' <= PkgHash.entries h /\
    PkgHash.pkgs_of h' ≡ₚ filter (fun q => name q <> name p) (PkgHash.pkgs_of h) /\ name p ∉ PkgHash.names_of h' /\
    forall n, PkgHash.pkghash_find h' n = if decide (n = name p) then Some None else PkgHash.pkghash_find h n.
Proof.
  intros Hr Hp. pose proof Hr as [Hok Hv Hl Hc Hnd]. pose proof (Db.ok_wf _ _ Hok h Hc) as Hw. unfold Db.db_remove_pkgfromcache. fold (Db.loaded d).
  rewrite (db_loaded d h Hok Hc), Hc.
  destruct (PkgHash.remove_correct h p Hw Hp) as (h' & data & E & Hw' & Hd). rewrite E. cbn [mbind option_bind].
  destruct (PkgHash.remove_room _ _ _ _ E) as (R1 & R2 & R3). destruct data as [q|].
  - destruct Hd as (Eq & Hperm & _). destruct (PkgHash.find_remove h q h' Hw Hw' Hnd Hperm) as (Hnd' & Hq & Hf). rewrite Eq in *.
    eexists _, _, h'. split; [done|]. split_and!; [by eapply set_cache_ready|done|done| |done|done].
    rewrite Hperm, filter_cons_False by (rewrite Eq; tauto). rewrite filter_keep; [done|]. intros x Hx En. apply Hq. rewrite <- En. by apply list_elem_of_fmap_2.
  - destruct Hd as [-> Hn]. exists (-1), (Db.set_pkgcache d (Some h)), h. split; [done|].
    assert (Db.set_pkgcache d (Some h) = d) as -> by (destruct d; simpl in *; by subst). split_and!; [done..| |done|].
    { rewrite filter_keep; [done|]. intros x Hx En. apply Hn. rewrite <- En. by apply list_elem_of_fmap_2. }
    intros n. case_decide as En; [|done]. subst n. by apply PkgHash.find_absent.
Qed.

(** What [_klpm_db_add_pkgincache] stores. *)
Definition cached (d : Db.db) (addr : positive) (p : pkg) : pkg := Db.with_origin d (Package.pkg_dup false addr p).2.

Lemma cache_add d h p addr x e : db_ready d h -> pkg_hashed p -> x ∉ (PkgHash.hlist h).*1 -> PkgHash.entries h <= 300000 ->
  name p ∉ PkgHash.names_of h ->
  exists d' h', Db.db_add_pkgincache d p false addr (Some x) e = Some (0, d', e) /\ db_ready d' h' /\
    PkgHash.pkgs_of h' ≡ₚ cached d addr p :: PkgHash.pkgs_of h /\
    forall n, PkgHash.pkghash_find h' n = if decide (n = name p) then Some (Some (cached d addr p)) else PkgHash.pkghash_find h n.
Proof.
  intros Hr Hp Hx Hroom Hn. pose proof Hr as [Hok Hv Hl Hc Hnd]. pose proof (Db.ok_wf _ _ Hok h Hc) as Hw. unfold Db.db_add_pkgincache.
  fold (Db.loaded d). rewrite (db_loaded d h Hok Hc), Hc.
  destruct (PkgHash.add_correct h (cached d addr p) true (Some x) Hw Hp ltac:(by intros ? [= <-])) as (r & E & Hd).
  unfold cached in *. cbn [Package.pkg_dup fst snd] in *. cbn iota beta zeta. change (negb (0 =? 0)) with false. cbn iota.
  rewrite E. cbn [mbind option_bind]. destruct r as [h'|h'].
  - by apply PkgHash.add_succeeds in E.
  - destruct Hd as (Hw' & _ & Hperm & _). destruct (PkgHash.find_add h (cached d addr p) h' Hw Hw' Hnd Hn Hperm) as [Hnd' Hf].
    eexists _, h'. split; [done|]. split; [by eapply set_cache_ready|]. split; [exact Hperm|exact Hf].
Qed.

(** ** The step as a whole *)

Section Step.
Context (P : platform) (C : config).
Notation path := (path_of (c_root C)).

(** An installed version whose files can be removed. *)
Definition old_ok (o : pkg) : Prop :=
  pkg_hashed o /\ Forall (clean (c_root C)) (f_name <$> files o) /\ Forall (fun b => is_Some (b_hash b)) (backups o) /\
  apart (c_root C) o /\ NoDup (files o).

Lemma scriptlet_entries p w s : s_entries (run_scriptlet P C p w s) = s_entries s /\ s_db (run_scriptlet P C p w s) = s_db s /\
  (s_fs (run_scriptlet P C p w s) = s_fs s \/ s_fs (run_scriptlet P C p w s) = p_scriptlet P p (lit w) (s_fs s)).
Proof. unfold run_scriptlet, scriptlet_of. destruct (_ && _); simpl; auto. Qed.

(** The entries after the removal of [o]. *)
Definition entries_without (s : sys) (o : pkg) : gmap (cstr * cstr) LocalDb.dbentry :=
  match s_entries s !! entry_key o with
  | None => s_entries s
  | Some d => match p_entry_left P (entry_key o) d with
              | None => delete (entry_key o) (s_entries s)
              | Some d => <[entry_key o := d]> (s_entries s)
              end
  end.

(** Removing a package, with its scriptlets when no new version follows. *)
Notation remove_single s o newpkg e :=
  (remove_single_package (p_denied P) (p_unreadable P) (p_follow P) (p_lstat_dev P) (p_stat_dev P) (p_access_w P) (p_md5 P)
     (p_regcomp P) (p_fnmatch P) (c_root C) (c_noupgrade C) (c_skip_remove C) (Db.db_get_pkgcache (p_populate P) (s_db s) e).1.1
     (p_scriptlet P) (p_entry_left P) s (c_flags C) o newpkg).
(** The state after the removal of [o]. *)
Record removed (s : sys) (h : PkgHash.pkghash) (o : pkg) (s1 : sys) (h1 : PkgHash.pkghash) : Prop := {
  rm_db : db_ready (s_db s1) h1;
  rm_entries : s_entries s1 = entries_without s o;
  rm_addr : (PkgHash.hlist h1).*1 ⊆ (PkgHash.hlist h).*1;
  rm_count : PkgHash.entries h1 <= PkgHash.entries h;
  rm_pkgs : PkgHash.pkgs_of h1 ≡ₚ filter (fun q => name q <> name o) (PkgHash.pkgs_of h);
  rm_name : name o ∉ PkgHash.names_of h1;
  rm_find n : PkgHash.pkghash_find h1 n = if decide (n = name o) then Some None else PkgHash.pkghash_find h n
}.
(** The files are removed; the database follows. *)
Lemma files_run s o newpkg local_pkgs : old_ok o ->
  exists f, (if flag (c_flags C) FLAG_DBONLY then Some s
     else '(_, f) ← remove_package_files (p_denied P) (p_unreadable P) (p_follow P) (p_lstat_dev P) (p_stat_dev P) (p_access_w P) (p_md5 P)
            (p_regcomp P) (p_fnmatch P) (c_root C) (c_noupgrade C) (c_skip_remove C) local_pkgs (s_fs s) o newpkg (flag (c_flags C) FLAG_NOSAVE);
          Some (set_fs s f)) = Some (set_fs s f) /\
    forall np, newpkg = Some np -> forall n, n ∈ f_name <$> files o -> is_Some (Package.needbackup n np) -> in_files (Some np) n = true -> f !! path n = s_fs s !! path n.
Proof.
  intros (Hh & Hc & Hb & Hap & Hnd). destruct (flag _ _); [exists (s_fs s); split; [by destruct s|done]|].
  destruct (remove_package_files_run (p_denied P) (p_unreadable P) (p_follow P) (p_lstat_dev P) (p_stat_dev P) (p_access_w P) (p_md5 P)
    (p_regcomp P) (p_fnmatch P) (c_root C) (c_noupgrade C) (c_skip_remove C) local_pkgs
    o newpkg (flag (c_flags C) FLAG_NOSAVE) (s_fs s) Hc Hb Hap Hnd) as (r & f & E & _).
  rewrite E. exists f. split; [done|]. intros np -> n Hn1 Hn2 Hn3. by eapply remove_keeps_config.
Qed.
Lemma database_run s h o f : db_ready (s_db s) h -> pkg_hashed o ->
  exists s1 h1, (let '(_, s) := local_db_remove (p_entry_left P) (set_fs s f) o in
     '(_, d) ← Db.db_remove_pkgfromcache (s_db s) o; Some (0, Sys (s_fs s) (s_entries s) d)) = Some (0, s1) /\
    removed s h o s1 h1 /\ s_fs s1 = f.
Proof.
  intros Hr Hh. unfold local_db_remove. fold (entry_key o). cbn [s_entries set_fs s_fs s_db].
  destruct (cache_remove (s_db s) h o Hr Hh) as (z & d' & h' & E & R1 & R2 & R3 & R4 & R5 & R6).
  destruct (s_entries s !! entry_key o) as [d|] eqn:Ed; [destruct (p_entry_left P (entry_key o) d) as [d1|] eqn:El|];
    cbn [s_db s_fs s_entries set_fs]; rewrite E; cbn [mbind option_bind]; eexists _, h'; (split; [done|]); (split; [|done]);
    split; try done; unfold entries_without; cbn [s_entries]; by rewrite Ed, ?El.
Qed.
Lemma remove_old_run s o newpkg e h : db_ready (s_db s) h -> old_ok o ->
  exists s1 h1, remove_old P C s (Some o) newpkg e = Some (0, s1) /\ removed s h o s1 h1 /\
    (forall n, n ∈ f_name <$> files o -> is_Some (Package.needbackup n newpkg) -> in_files (Some newpkg) n = true ->
       s_fs s1 !! path n = s_fs s !! path n).
Proof.
  intros Hr Ho. unfold remove_old, remove_single_package. destruct (files_run s o (Some newpkg) (Db.db_get_pkgcache (p_populate P) (s_db s) e).1.1 Ho) as (f & -> & Hf).
  cbn [mbind option_bind]. destruct (database_run s h o f Hr (proj1 Ho)) as (s1 & h1 & E & Hrm & Hfs). exists s1, h1. split; [exact E|]. split; [done|].
  rewrite Hfs. by apply Hf.
Qed.
Lemma remove_run s o e h : db_ready (s_db s) h -> old_ok o -> exists s1 h1, remove_single s o None e = Some (0, s1) /\ removed s h o s1 h1.
Proof.
  intros Hr Ho. unfold remove_single_package. change (scriptlet_of (p_scriptlet P) (c_flags C)) with (run_scriptlet P C).
  destruct (scriptlet_entries o "pre_remove" s) as (E1 & E2 & _). set (s0 := run_scriptlet P C o "pre_remove" s) in *.
  destruct (files_run s0 o None (Db.db_get_pkgcache (p_populate P) (s_db s) e).1.1 Ho) as (f & -> & _). cbn [mbind option_bind].
  destruct (scriptlet_entries o "post_remove" (set_fs s0 f)) as (E3 & E4 & _). set (s2 := run_scriptlet P C o "post_remove" (set_fs s0 f)) in *.
  destruct (database_run s2 h o (s_fs s2)) as (s1 & h1 & E & Hrm & _); [rewrite E4; cbn; by rewrite E2|apply Ho|].
  assert (set_fs s2 (s_fs s2) = s2) as Es by by destruct s2. rewrite Es in E. exists s1, h1. split; [exact E|]. destruct Hrm as [H1 H2 H3 H4 H5 H6 H7].
  split; try done. rewrite H2. unfold entries_without. rewrite E3. cbn [set_fs s_entries]. by rewrite E1.
Qed.

(** The package after the step: only the reason, the hashes of the backup
    files and the date of installation have changed. *)
Definition installed_as (newpkg : pkg) (p' : pkg) : Prop :=
  exists bs, p' = with_installdate (with_backups newpkg bs) (get_install_time P).

Definition extraction (s : sys) (newpkg : pkg) (oldpkg : option pkg) (es : list entry) :=
  extract_all (p_denied P) (p_follow P) (p_md5 P) (p_fnmatch P) (c_root C) (c_noupgrade C) (c_noextract C) (p_extract P)
    (p_db_extract_fails P) (flag (c_flags C) FLAG_DBONLY) (s_fs s) (default no_entry (s_entries s !! entry_key newpkg)) newpkg oldpkg es 0.

Lemma install_run s newpkg oldpkg es addr x e h `{!Extract (p_extract P)} :
  db_ready (s_db s) h -> pkg_hashed newpkg -> x ∉ (PkgHash.hlist h).*1 -> PkgHash.entries h <= 300000 -> name newpkg ∉ PkgHash.names_of h ->
  exists r err s' p' d, install_files P C s newpkg oldpkg es false addr (Some x) e = Some (r, err, s', p') /\ (r = 0 \/ r = -1) /\
    installed_as newpkg p' /\ s_entries s' = <[entry_key newpkg := d]> (s_entries s) /\
    (s_fs s' = (extraction s newpkg oldpkg es).1.1.2 \/ exists w, s_fs s' = p_scriptlet P p' w (extraction s newpkg oldpkg es).1.1.2) /\
    (r = 0 -> (exists d0, write_entry P p' d0 = (true, d)) /\
      exists h' q, db_ready (s_db s') h' /\ q = cached (s_db s) addr p' /\ PkgHash.pkgs_of h' ≡ₚ q :: PkgHash.pkgs_of h /\
        forall n, PkgHash.pkghash_find h' n = if decide (n = name newpkg) then Some (Some q) else PkgHash.pkghash_find h n).
Proof.
  intros Hr Hh Hx Hroom Hn. unfold install_files. fold (extraction s newpkg oldpkg es).
  pose proof (extract_all_pkg (p_denied P) (p_follow P) (p_md5 P) (p_fnmatch P) (c_root C) (c_noupgrade C) (c_noextract C) (p_extract P)
    (p_db_extract_fails P) (flag (c_flags C) FLAG_DBONLY) oldpkg es (s_fs s) (default no_entry (s_entries s !! entry_key newpkg)) newpkg 0) as [bs Hbs].
  fold (extraction s newpkg oldpkg es) in Hbs. destruct (extraction s newpkg oldpkg es) as [[[errors f] d0] p1]. cbn [fst snd] in *. subst p1.
  set (p' := with_installdate (with_backups newpkg bs) (get_install_time P)). change (entry_key p') with (entry_key newpkg).
  assert (installed_as newpkg p') as Hi by by exists bs. rewrite (dr_local _ _ Hr). cbn [negb].
  destruct (write_entry P p' d0) as [[] d1] eqn:Ew.
  2: { eexists _, _, _, _, d1. split; [done|]. split_and!; [by right|done|done|by left|done]. }
  destruct (cache_add (s_db s) h p' addr x e Hr Hh Hx Hroom Hn) as (db & h' & E & Hr' & Hps & Hf). rewrite E. cbn [mbind option_bind].
  set (s1 := Sys f _ db). set (w := if oldpkg then _ else _). destruct (scriptlet_entries p' w s1) as (E1 & E2 & E3).
  eexists _, _, _, _, _. split; [done|]. split_and!; [destruct (errors =? 0); auto|done|by rewrite E1| |].
  - destruct E3 as [E3|E3]; [by left|right; by exists (lit w)].
  - intros _. split; [by exists d0|]. rewrite E2. by exists h', (cached (s_db s) addr p').
Qed.
(** The situation in which a transaction commits a package: the cache is
    loaded and not too large, [x] is the address of the new list node, and [oldpkg]
    is the installed version, if there is one. *)
Record step_ready (s : sys) (newpkg : pkg) (oldpkg : option pkg) (h : PkgHash.pkghash) (x : positive) : Prop := {
  sr_db : db_ready (s_db s) h;
  sr_hashed : pkg_hashed newpkg;
  sr_addr : x ∉ (PkgHash.hlist h).*1;
  sr_room : PkgHash.entries h <= 300000;
  sr_old : match oldpkg with
           | Some o => old_ok o /\ name o = name newpkg /\ name newpkg ∈ PkgHash.names_of h
           | None => name newpkg ∉ PkgHash.names_of h
           end
}.
Definition labelled (newpkg : pkg) (oldpkg : option pkg) : pkg := override_reason C (copy_reason newpkg oldpkg).
Lemma labelled_reason newpkg oldpkg : exists r, labelled newpkg oldpkg = with_reason newpkg r.
Proof.
  assert (newpkg = with_reason newpkg (reason newpkg)) as Hid by by destruct newpkg.
  unfold labelled, override_reason, copy_reason. destruct (flag (c_flags C) FLAG_ALLDEPS), (flag (c_flags C) FLAG_ALLEXPLICIT), oldpkg; eauto.
Qed.

(** After the old version is gone. *)
Record cleared (s : sys) (newpkg : pkg) (oldpkg : option pkg) (h : PkgHash.pkghash) (x : positive) (s2 : sys) (h2 : PkgHash.pkghash) : Prop := {
  cl_db : db_ready (s_db s2) h2;
  cl_addr : x ∉ (PkgHash.hlist h2).*1;
  cl_room : PkgHash.entries h2 <= 300000;
  cl_pkgs : PkgHash.pkgs_of h2 ≡ₚ filter (fun q => name q <> name newpkg) (PkgHash.pkgs_of h);
  cl_name : name newpkg ∉ PkgHash.names_of h2;
  cl_find n : n <> name newpkg -> PkgHash.pkghash_find h2 n = PkgHash.pkghash_find h n;
  cl_entries : s_entries s2 = match oldpkg with Some o => entries_without s o | None => s_entries s end;
  cl_config n : is_Some (Package.needbackup n newpkg) -> in_files (Some newpkg) n = true ->
    (forall o, oldpkg = Some o -> n ∈ f_name <$> files o) -> s_fs s2 !! path n = s_fs s !! path n
}.

Lemma remove_phase s newpkg oldpkg h x e r : step_ready s newpkg oldpkg h x ->
  exists s2 h2, remove_old P C s oldpkg (with_reason newpkg r) e = Some (0, s2) /\ cleared s newpkg oldpkg h x s2 h2.
Proof.
  intros [Hdb Hh Hx Hroom Hold]. destruct oldpkg as [o|].
  - destruct Hold as (Ho & En & Hin). destruct (remove_old_run s o (with_reason newpkg r) e h Hdb Ho) as (s2 & h2 & E & [H1 H2 H3 H4 H5 H6 H7] & H8).
    rewrite En in *. exists s2, h2. split; [exact E|]. split; [done|set_solver|lia|done|done| |done|].
    + intros n Hn. rewrite H7. by rewrite decide_False.
    + intros n Hn1 Hn2 Hn3. by apply H8; [apply Hn3| |].
  - exists s, h. split; [done|]. split; try done. rewrite filter_keep; [done|]. intros q Hq En. apply Hold. rewrite <- En. by apply list_elem_of_fmap_2.
Qed.

(** The step, phase by phase: it fails before anything is extracted, or it
    goes on to [install_files]. *)
Lemma commit_phases s newpkg oldpkg h x addr e : step_ready s newpkg oldpkg h x ->
  let np := labelled newpkg oldpkg in
  exists s0 s2 h2,
    (s_fs s0 = s_fs s \/ exists p w, s_fs s0 = p_scriptlet P p w (s_fs s)) /\ s_entries s0 = s_entries s /\ cleared s0 newpkg oldpkg h x s2 h2 /\
    ((exists err s', commit_single_pkg P C s newpkg oldpkg false addr (Some x) e = Some (-1, err, s', np) /\ s_fs s' = s_fs s2) \/
     exists es, p_archive P (origin_file newpkg) = Some es /\ s_entries s2 !! entry_key newpkg = None /\
       commit_single_pkg P C s newpkg oldpkg false addr (Some x) e =
       install_files P C (Sys (s_fs s2) (<[entry_key newpkg := no_entry]> (s_entries s2)) (s_db s2)) np oldpkg es false addr (Some x) e).
Proof.
  intros Hready np. pose proof Hready as [Hdb Hh Hx Hroom Hold]. pose proof (Db.ok_wf _ _ (dr_ok _ _ Hdb) h (dr_cache _ _ Hdb)) as Hw.
  unfold commit_single_pkg, Db.db_get_pkgfromcache. rewrite (get_loaded _ _ h e Hdb).
  assert (exists local, PkgHash.pkghash_find h (name newpkg) = Some local /\ match local with Some _ => oldpkg | None => None end = oldpkg)
    as (local & El & Eo).
  { destruct (PkgHash.find_correct h (name newpkg) Hw) as ([q|] & -> & Hq); eexists; (split; [done|]); [done|].
    destruct oldpkg as [o|]; [|done]. by destruct Hold as (_ & _ & ?%Hq). }
  rewrite El. cbn [mbind option_bind]. rewrite Eo. fold (labelled newpkg oldpkg). fold np.
  set (sp := Sys (s_fs s) (s_entries s) (s_db s)). set (w := if oldpkg then _ else _).
  destruct (scriptlet_entries (copy_reason newpkg oldpkg) w sp) as (E1 & E2 & E3). set (s0 := run_scriptlet _ _ _ _ sp) in *.
  assert (step_ready s0 newpkg oldpkg h x) as Hr0 by (split; [by rewrite E2|done..]).
  destruct (labelled_reason newpkg oldpkg) as [rs Ers]. fold np in Ers.
  destruct (remove_phase s0 newpkg oldpkg h x e rs Hr0) as (s2 & h2 & Em & Hcl). rewrite <- Ers in Em. rewrite Em. cbn [mbind option_bind].
  change (0 =? -1) with false. cbn iota. exists s0, s2, h2.
  split; [destruct E3; eauto|]. split; [done|]. split; [done|]. unfold local_db_prepare.
  assert (entry_key np = entry_key newpkg) as -> by by rewrite Ers. assert (origin_file np = origin_file newpkg) as -> by by rewrite Ers.
  destruct (s_entries s2 !! entry_key newpkg) eqn:Ee; [by left; eexists _, _|].
  destruct (p_mkdir_fails P (entry_key newpkg)); [by left; eexists _, _|].
  destruct (p_archive P (origin_file newpkg)) as [es|]; [|by left; eexists _, _].
  destruct (p_chdir_fails P); [by left; eexists _, _|]. right. by exists es.
Qed.
(** C3: installing or upgrading a package keeps a configuration file the user
    changed, over a loaded cache and with the installed version's recorded data in
    order ([step_ready]).  The file is one of the new version's files and backup files, belonged
    to the installed version, if there is one, and its contents are not those
    recorded for that version: whatever happens in the step, errors at every point
    and hashes that cannot be computed included, it ends and the file then still has
    its contents (up to their MD5 hash), provided that the scriptlets leave it alone
    and that no other member of the archive is put in its place. *)
Theorem commit_keeps_config s newpkg oldpkg h x addr e n cur
    (Hx : Extract (p_extract P)) (Hready : step_ready s newpkg oldpkg h x)
    (Hscript : forall p w f, p_scriptlet P p w f !! (c_root C ++ n) = f !! (c_root C ++ n))
    (Hclean : FileList.is_dir_name (c_root C ++ n) = false)
    (Hnew : is_Some (Package.needbackup n newpkg) /\ in_files (Some newpkg) n = true)
    (Hfile : forall o, oldpkg = Some o -> n ∈ f_name <$> files o)
    (Hcur : s_fs s !! (c_root C ++ n) = Some (NFile cur)) (Hmod : orig_hash n oldpkg <> Some (p_md5 P cur))
    (Harch : forall es, p_archive P (origin_file newpkg) = Some es -> Forall (member_ok (c_root C) n) es) :
  exists r err s' p', commit_single_pkg P C s newpkg oldpkg false addr (Some x) e = Some (r, err, s', p') /\
    holds (p_md5 P) (c_root C ++ n) cur (s_fs s').
Proof.
  destruct (commit_phases s newpkg oldpkg h x addr e Hready) as (s0 & s2 & h2 & H0 & _ & Hcl & Hend).
  destruct (labelled_reason newpkg oldpkg) as [rs Ers]. destruct Hnew as [Hb Hin].
  assert (s_fs s2 !! (c_root C ++ n) = Some (NFile cur)) as H2.
  { assert (path n = c_root C ++ n) as Ep by (unfold path_of; by rewrite Hclean). rewrite <- Ep, (cl_config _ _ _ _ _ _ _ Hcl n Hb Hin Hfile), Ep.
    destruct H0 as [->|(p & w & ->)]; by rewrite ?Hscript. }
  destruct Hend as [(err & s' & -> & Ef)|(es & Ea & Ee & ->)].
  { eexists _, _, _, _. split; [done|]. exists cur. by rewrite Ef. }
  set (s3 := Sys _ _ _). destruct (install_run s3 (labelled newpkg oldpkg) oldpkg es addr x e h2) as (r & err & s' & p' & d & -> & _ & _ & _ & Hf & _);
    [apply Hcl|rewrite Ers; apply Hready|apply Hcl|apply Hcl|rewrite Ers; apply Hcl|].
  eexists _, _, _, _. split; [done|].
  assert (holds (p_md5 P) (c_root C ++ n) cur (extraction s3 (labelled newpkg oldpkg) oldpkg es).1.1.2) as Hh.
  { apply extract_all_keeps; [done|done|done|by apply Harch|rewrite Ers; exact Hb|by exists cur]. }
  destruct Hf as [->|(w & ->)]; [exact Hh|]. destruct Hh as (c & Hc & Ec). exists c. by rewrite Hscript.
Qed.

(** Everything written to the entry of the package reaches the disk. *)
Definition stores (p : pkg) : Prop := forall t, p_stored P (entry_key p) t = t.
Lemma write_entry_stored p d d' : stores p -> write_entry P p d = (true, d') -> d' = LocalDb.local_db_write (to_lpkg p) LocalDb.INFRQ_ALL d.
Proof.
  intros Hs. unfold write_entry. destruct (p_fopen_fails P _ "desc"); [done|]. destruct (p_fopen_fails P _ "files"); [done|]. intros [= <-].
  unfold LocalDb.local_db_write. cbn. by rewrite !Hs.
Qed.

(** What a successful step leaves. *)
Record replaced (s : sys) (newpkg : pkg) (oldpkg : option pkg) (h : PkgHash.pkghash) (s' : sys) (p' : pkg) (h' : PkgHash.pkghash) (q : pkg) : Prop := {
  re_pkg : installed_as (labelled newpkg oldpkg) p';
  re_entry : exists d, s_entries s' !! entry_key newpkg = Some d /\
    (stores newpkg -> LocalDb.writable (to_lpkg p') ->
      LocalDb.local_db_read d LocalDb.INFRQ_ALL (LocalDb.LPkg (name newpkg) (version newpkg) LocalDb.fresh_info (LocalDb.FilesInfo [] []) false 0) =
      Some (0, LocalDb.LPkg (name newpkg) (version newpkg) (LocalDb.l_info (to_lpkg p')) (LocalDb.l_files (to_lpkg p')) (LocalDb.d_install d) LocalDb.LOADABLE));
  re_others k : k <> entry_key newpkg -> (forall o, oldpkg = Some o -> k <> entry_key o) -> s_entries s' !! k = s_entries s !! k;
  re_old o : oldpkg = Some o -> entry_key o <> entry_key newpkg -> (forall d, p_entry_left P (entry_key o) d = None) -> s_entries s' !! entry_key o = None;
  re_db : db_ready (s_db s') h';
  re_cached : exists d addr, q = cached d addr p';
  re_pkgs : PkgHash.pkgs_of h' ≡ₚ q :: filter (fun r => name r <> name newpkg) (PkgHash.pkgs_of h);
  re_find n : PkgHash.pkghash_find h' n = if decide (n = name newpkg) then Some (Some q) else PkgHash.pkghash_find h n
}.
Lemma commit_run s newpkg oldpkg h x addr e : Extract (p_extract P) -> step_ready s newpkg oldpkg h x ->
  exists r err s' p', commit_single_pkg P C s newpkg oldpkg false addr (Some x) e = Some (r, err, s', p') /\ (r = 0 \/ r = -1) /\
    (r = 0 -> exists h' q, replaced s newpkg oldpkg h s' p' h' q).
Proof.
  intros Hx Hready. destruct (commit_phases s newpkg oldpkg h x addr e Hready) as (s0 & s2 & h2 & _ & E0 & Hcl & Hend).
  destruct (labelled_reason newpkg oldpkg) as [rs Ers].
  destruct Hend as [(err & s' & -> & _)|(es & _ & Ee & ->)]; [eexists _, _, _, _; split; [done|]; split; [by right|done]|].
  set (s3 := Sys _ _ _). destruct (install_run s3 (labelled newpkg oldpkg) oldpkg es addr x e h2) as (r & err & s' & p' & d & -> & Hr & Hi & Hent & _ & Hok);
    [apply Hcl|rewrite Ers; apply Hready|apply Hcl|apply Hcl|rewrite Ers; apply Hcl|].
  eexists _, _, _, _. split; [done|]. split; [done|]. intros ->. destruct (Hok eq_refl) as ((d0 & Ed) & h' & q & Hr' & Eq & Hps & Hf). exists h', q.
  assert (entry_key (labelled newpkg oldpkg) = entry_key newpkg) as Ek by by rewrite Ers. rewrite Ek in Hent.
  assert (name (labelled newpkg oldpkg) = name newpkg) as En by by rewrite Ers. rewrite En in Hf.
  pose proof Hi as [bs Ep]. rewrite Ers in Ep. split.
  - exact Hi.
  - exists d. rewrite Hent. split; [apply lookup_insert_eq|]. intros Hst Hwr.
    rewrite (write_entry_stored p' d0 d); [|by rewrite Ep|exact Ed]. pose proof (LocalDb.write_then_read (to_lpkg p') d0 Hwr) as Hw. rewrite Ep in Hw |- *. exact Hw.
  - intros k Hk Hko. rewrite Hent, lookup_insert_ne by done. unfold s3. cbn [s_entries]. rewrite lookup_insert_ne by done.
    rewrite (cl_entries _ _ _ _ _ _ _ Hcl), <- E0. destruct oldpkg as [o|]; [|done]. specialize (Hko o eq_refl). unfold entries_without.
    destruct (s_entries s0 !! entry_key o) as [dd|]; [|done]. destruct (p_entry_left _ _ _); [by rewrite lookup_insert_ne|by rewrite lookup_delete_ne].
  - intros o -> Hne Hleft. rewrite Hent, lookup_insert_ne by done. unfold s3. cbn [s_entries]. rewrite lookup_insert_ne by done.
    rewrite (cl_entries _ _ _ _ _ _ _ Hcl). unfold entries_without. destruct (s_entries s0 !! entry_key o) as [dd|] eqn:Eo; [|done].
    rewrite Hleft. apply lookup_delete_eq.
  - exact Hr'.
  - by eexists _, _.
  - by rewrite Hps, (cl_pkgs _ _ _ _ _ _ _ Hcl).
  - intros n. rewrite Hf. case_decide; [done|]. by apply (cl_find _ _ _ _ _ _ _ Hcl).
Qed.

(** C4: a step over a loaded cache of at most 300000 packages, with sufficient
    memory, for a package whose installed version, if there is one, has its recorded
    data in order ([old_ok]: every backup entry has a hash, no file is listed twice or
    lies in the place of another or of its saves).  The step ends, with 0 or -1.  After 0 the cache
    maps the package's name to the new version and every other name as before; all
    other entries of the database directory are as before; the new version has an
    entry, which reads back as the installed package (its install reason taken from
    the old version unless the transaction says otherwise) when the disk has taken
    what was written; and the old version's entry is gone if it could be removed.
    The code returns 0 also when these two fail. *)
Theorem commit_replaces_package s newpkg oldpkg h x addr e
    (Hx : Extract (p_extract P)) (Hready : step_ready s newpkg oldpkg h x) :
  exists r err s' p', commit_single_pkg P C s newpkg oldpkg false addr (Some x) e = Some (r, err, s', p') /\ (r = 0 \/ r = -1) /\
    (r = 0 ->
      installed_as (labelled newpkg oldpkg) p' /\
      (exists d, s_entries s' !! entry_key newpkg = Some d /\
        (stores newpkg -> LocalDb.writable (to_lpkg p') ->
          LocalDb.local_db_read d LocalDb.INFRQ_ALL (LocalDb.LPkg (name newpkg) (version newpkg) LocalDb.fresh_info (LocalDb.FilesInfo [] []) false 0) =
          Some (0, LocalDb.LPkg (name newpkg) (version newpkg) (LocalDb.l_info (to_lpkg p')) (LocalDb.l_files (to_lpkg p')) (LocalDb.d_install d) LocalDb.LOADABLE))) /\
      (forall k, k <> entry_key newpkg -> (forall o, oldpkg = Some o -> k <> entry_key o) -> s_entries s' !! k = s_entries s !! k) /\
      (forall o, oldpkg = Some o -> entry_key o <> entry_key newpkg -> (forall d, p_entry_left P (entry_key o) d = None) -> s_entries s' !! entry_key o = None) /\
      exists h' q, Db.pkgcache (s_db s') = Some h' /\ PkgHash.wf h' /\ version q = version newpkg /\ files q = Package.file_copy <$> files newpkg /\
        forall n, PkgHash.pkghash_find h' n = if decide (n = name newpkg) then Some (Some q) else PkgHash.pkghash_find h n).
Proof.
  destruct (commit_run s newpkg oldpkg h x addr e Hx Hready) as (r & err & s' & p' & E & Hr & H). exists r, err, s', p'. split; [exact E|]. split; [exact Hr|].
  intros H0. destruct (H H0) as (h' & q & [R1 R2 R3 R4 R5 (d & a & Eq) _ R7]). split; [exact R1|]. split; [exact R2|]. split; [exact R3|]. split; [exact R4|].
  exists h', q. destruct (labelled_reason newpkg oldpkg) as [rs Ers]. destruct R1 as [bs Ep]. rewrite Ers in Ep.
  split_and!; [apply R5|apply (Db.ok_wf _ _ (dr_ok _ _ R5)), R5|by rewrite Eq, Ep|by rewrite Eq, Ep|exact R7].
Qed.
End Step.

(** ** Witnesses *)

Definition ex_platform : platform := {|
  p_denied := allowed; p_unreadable := allowed; p_follow := fun _ _ => None; p_lstat_dev := fun _ => 0; p_stat_dev := fun _ => Some 0;
  p_access_w := fun _ => None; p_md5 := ex_md5; p_regcomp := ex_regcomp; p_fnmatch := fun _ _ => 1; p_extract := ex_extract;
  p_db_extract_fails := allowed; p_scriptlet := fun _ _ f => f; p_entry_left := fun _ _ => None; p_fopen_fails := fun _ _ => false; p_stored := fun _ t => t;
  p_mkdir_fails := fun _ => false; p_archive := fun _ => Some [Entry (lit ".PKGINFO") (NFile []); Entry (lit "etc/") NDir; ex_member];
  p_chdir_fails := false; p_populate := fun d => (false, d); p_time := 1700000000; p_epoch := None |}.
Definition ex_config : config := Config (lit "/") [] [] [] 0.
Definition ex_localdb : Db.db :=
  Db.set_status (Db.set_pkgcache (Db.db_new (lit "local") true) (Some PkgHash.ex_hash)) (Db.DB_STATUS_VALID + Db.DB_STATUS_LOCAL + Db.DB_STATUS_PKGCACHE).
Definition ex_sys : sys := Sys ex_fs {[entry_key ex_old := no_entry]} ex_localdb.

Lemma ex_db_ready : db_ready ex_localdb PkgHash.ex_hash.
Proof.
  split; [|reflexivity..|by_decide]. split.
  - simpl. eauto.
  - left. reflexivity.
  - intros h [= <-]. apply PkgHash.ex_hash_wf.
  - discriminate.
  - reflexivity.
  - intros _. split; reflexivity.
Qed.
Lemma ex_step_ready : step_ready ex_config ex_sys ex_new (Some ex_old) PkgHash.ex_hash 100.
Proof.
  split; [apply ex_db_ready|reflexivity|by_decide|by_decide|].
  split; [split_and!; [reflexivity|by_decide|by_decide|apply ex_apart|by_decide]|]. split; [reflexivity|by_decide].
Qed.
Lemma ex_off : off (lit "/") (lit "etc/") (lit "/etc/a").
Proof. split_and!; [discriminate|intros [H|H]; [discriminate|discriminate H]..]. Qed.

Notation ex_commit := (commit_single_pkg ex_platform ex_config ex_sys ex_new (Some ex_old) false 50 (Some 100%positive) Db.OK).
Lemma commit_keeps_config_witness :
  exists r err s' p', ex_commit = Some (r, err, s', p') /\ holds ex_md5 (lit "/etc/a") (lit "user") (s_fs s').
Proof.
  apply (commit_keeps_config ex_platform ex_config ex_sys ex_new (Some ex_old) PkgHash.ex_hash 100 50 Db.OK (lit "etc/a") (lit "user")).
  - apply ex_extract_ok.
  - apply ex_step_ready.
  - reflexivity.
  - reflexivity.
  - split; [eauto|reflexivity].
  - intros o [= <-]. by_decide.
  - reflexivity.
  - discriminate.
  - intros es [= <-]. repeat apply Forall_cons_2; [by left|right; right; apply ex_off|right; left; split; [reflexivity|by eexists]|apply Forall_nil_2].
Defined.

Lemma commit_replaces_witness :
  exists r err s' p', ex_commit = Some (r, err, s', p') /\ r = 0 /\ s_entries s' !! entry_key ex_old = None /\
    exists h' q, Db.pkgcache (s_db s') = Some h' /\ PkgHash.pkghash_find h' (lit "foo") = Some (Some q) /\ version q = lit "2-1".
Proof.
  destruct (commit_replaces_package ex_platform ex_config ex_sys ex_new (Some ex_old) PkgHash.ex_hash 100 50 Db.OK ex_extract_ok ex_step_ready)
    as (r & err & s' & p' & E & _ & H).
  assert ((fun x => x.1.1.1) <$> ex_commit = Some 0) as Er by (vm_compute; reflexivity). rewrite E in Er. injection Er as ->.
  destruct (H eq_refl) as (_ & _ & _ & Ho & h' & q & Hc & _ & Hv & _ & Hf). exists 0, err, s', p'. split_and!; [exact E|reflexivity| |].
  - apply Ho; [reflexivity|discriminate|reflexivity].
  - exists h', q. split_and!; [exact Hc| |exact Hv]. exact (Hf (lit "foo")).
Defined.

End Commit.
