(* ===== verification/Ini.v ===== *)
(** * The configuration file parser ([src/src/common/ini.c])

    [parse_ini] reads a file of sections and directives line by line and calls
    a callback for each; the hook files and the configuration of the front end
    go through it.  The callback is a function on the caller's data; its result
    is [None] when it would dereference a null pointer. *)

From S2P Require Import Prelude CStr Util LocalDb.
Local Open Scope Z_scope.

Module Ini.

(** A call of the callback.  The section, the key and the value may be NULL. *)
Record event := Event { ev_section : option cstr; ev_key : option cstr; ev_value : option cstr }.
#[global] Instance event_eq_dec : EqDecision event.
Proof. solve_decision. Defined.

(** [char line[PATH_MAX]] *)
Definition LINE : nat := 4095.

Inductive kind := Blank | Header (name : cstr) | Directive (key : cstr) (value : option cstr).

(** [strsep(&value, "=")]: the key, and what follows the first equals sign. *)
Definition strsep (line : cstr) : cstr * option cstr :=
  match strchr line "="%char with
  | Some r => (take (length line - length r) line, Some (tail r))
  | None => (line, None)
  end.
(** The treatment of one line. *)
Definition classify (line : cstr) : kind :=
  let '(line, line_len) := Util.strtrim line in
  if (line_len =? 0)%nat || bool_decide (head line = Some "#"%char) then Blank
  else if bool_decide (head line = Some "["%char) && bool_decide (line !! (line_len - 1)%nat = Some "]"%char)
  then Header (take (line_len - 2) (tail line))
  else let '(key, value) := strsep line in
       Directive (Util.strtrim key).1 ((fun v => (Util.strtrim v).1) <$> value).

Section Parse.
Context {D : Type} (cb : D -> event -> option (Z * D)).

Fixpoint ini_loop (fuel : nat) (st : LocalDb.stream) (section_name : option cstr) (d : D) : option (Z * D) :=
  match fuel with
  | O => None
  | S fuel =>
      match LocalDb.fgets_n LINE st with
      | (None, _) => Some (0, d)
      | (Some line, st) =>
          match classify line with
          | Blank => ini_loop fuel st section_name d
          | Header name =>
              '(ret, d) ← cb d (Event (Some name) None None);
              if ret =? 0 then ini_loop fuel st (Some name) d else Some (ret, d)
          | Directive key value =>
              '(ret, d) ← cb d (Event section_name (Some key) value);
              if ret =? 0 then ini_loop fuel st section_name d else Some (ret, d)
          end
      end
  end.

(** [parse_ini]; the file is its contents and whether reading them fails at the
    end, or [None] when it cannot be opened. *)
Definition parse_ini (file : option (cstr * bool)) (d : D) : option (Z * D) :=
  match file with
  | None => cb d (Event None None None)
  | Some (text, fails) => ini_loop (S (length text)) (LocalDb.Stream text fails false) None d
  end.

(** ** The calls as a sequence *)

(** Calling the callback until it returns non-zero. *)
Fixpoint run (evs : list event) (d : D) : option (Z * D) :=
  match evs with
  | [] => Some (0, d)
  | ev :: evs => '(ret, d) ← cb d ev; if ret =? 0 then run evs d else Some (ret, d)
  end.
End Parse.

(** The lines [fgets] delivers, and the calls they stand for. *)
Fixpoint file_lines (fuel : nat) (st : LocalDb.stream) : list cstr :=
  match fuel with
  | O => []
  | S fuel => match LocalDb.fgets_n LINE st with (None, _) => [] | (Some line, st) => line :: file_lines fuel st end
  end.
Fixpoint events (section_name : option cstr) (lines : list cstr) : list event :=
  match lines with
  | [] => []
  | line :: lines =>
      match classify line with
      | Blank => events section_name lines
      | Header name => Event (Some name) None None :: events (Some name) lines
      | Directive key value => Event section_name (Some key) value :: events section_name lines
      end
  end.

#[local] Arguments LINE : simpl never.
Lemma ini_loop_run {D} (cb : D -> event -> option (Z * D)) fuel st section d : (length (LocalDb.rest st) < fuel)%nat ->
  ini_loop cb fuel st section d = run cb (events section (file_lines fuel st)) d.
Proof.
  revert st section d. induction fuel as [|fuel IH]; intros st section d Hf; [lia|]. cbn [ini_loop file_lines].
  destruct (LocalDb.fgets_n LINE st) as [[line|] st'] eqn:E; [|done]. apply LocalDb.fgets_n_progress in E as (_ & Hlt & _); [|done].
  assert (length (LocalDb.rest st') < fuel)%nat as Hl by (specialize (Hlt ltac:(done)); lia). cbn [events].
  destruct (classify line); cbn [run]; [by apply IH|..]; (destruct (cb d _) as [[r d']|]; [|done]; cbn [mbind option_bind]; destruct (r =? 0); [by apply IH|done]).
Qed.

Lemma run_total {D} (cb : D -> event -> option (Z * D)) evs d : (forall d e, is_Some (cb d e)) -> is_Some (run cb evs d).
Proof.
  intros H. revert d. induction evs as [|e evs IH]; intros d; cbn [run]; [done|]. destruct (H d e) as [[r d'] ->]. cbn [mbind option_bind].
  destruct (r =? 0); [apply IH|done].
Qed.

(** ** Documents *)

(** A document: sections of directives, a directive with or without value. *)
Definition document := list (cstr * list (cstr * option cstr)).
Definition directive_line (kv : cstr * option cstr) : cstr :=
  match kv.2 with Some v => kv.1 ++ lit " = " ++ v | None => kv.1 end.
Definition header_line (n : cstr) : cstr := "["%char :: n ++ lit "]".
Definition print (doc : document) : cstr :=
  doc ≫= fun sec => LocalDb.line_of (header_line sec.1) ++ (sec.2 ≫= fun kv => LocalDb.line_of (directive_line kv)).
Definition doc_events (doc : document) : list event :=
  doc ≫= fun sec => Event (Some sec.1) None None :: ((fun kv => Event (Some sec.1) (Some kv.1) kv.2) <$> sec.2).

(** White space at neither end. *)
Definition trimmed (s : cstr) : Prop :=
  match head s, last s with Some a, Some b => isspace a = false /\ isspace b = false | _, _ => True end.
#[global] Instance trimmed_dec s : Decision (trimmed s).
Proof. unfold trimmed. destruct (head s); [destruct (last s)|]; apply _. Defined.
(** A line the buffer holds. *)
Definition fits (s : cstr) : Prop := LocalDb.NL ∉ s /\ LocalDb.NUL ∉ s /\ (length s < LINE)%nat.
#[global] Instance fits_dec s : Decision (fits s).
Proof. unfold fits. apply _. Defined.
Definition key_ok (k : cstr) : Prop := k <> [] /\ trimmed k /\ "="%char ∉ k /\ head k <> Some "#"%char /\ head k <> Some "["%char.
#[global] Instance key_ok_dec k : Decision (key_ok k).
Proof. unfold key_ok. apply _. Defined.
Definition directive_ok (kv : cstr * option cstr) : Prop := key_ok kv.1 /\ fits (directive_line kv) /\ trimmed (default [] kv.2).
#[global] Instance directive_ok_dec kv : Decision (directive_ok kv).
Proof. unfold directive_ok. apply _. Defined.
Definition document_ok (doc : document) : Prop := Forall (fun sec => fits (header_line sec.1) /\ Forall directive_ok sec.2) doc.
#[global] Instance document_ok_dec doc : Decision (document_ok doc).
Proof. unfold document_ok. apply _. Defined.

Lemma strtrim_pad a s b : Forall (fun c => isspace c = true) a -> Forall (fun c => isspace c = true) b -> trimmed s -> s <> [] ->
  Util.strtrim (a ++ s ++ b) = (s, length s).
Proof.
  intros Ha Hb Ht Hs. destruct s as [|c s]; [done|]. destruct (last (c :: s)) as [e|] eqn:El; [|by apply last_None in El].
  unfold trimmed in Ht. rewrite El in Ht. cbn [head] in Ht. destruct Ht as [Hc He]. unfold Util.strtrim.
  destruct (a ++ (c :: s) ++ b) as [|x y] eqn:Ex; [by destruct a|]. rewrite <- Ex, span_app_l by done. cbn [snd app].
  change (c :: s ++ b) with ((c :: s) ++ b). set (w := c :: s) in *.
  assert (forall b', b' `prefix_of` b -> Util.trim_length (w ++ b) (length w + length b') = length w) as Htl.
  { intros b'. induction b' as [|z b' IH] using rev_ind; intros Hpre.
    - rewrite Nat.add_0_r. apply last_Some in El as [w' Ew]. rewrite Ew, length_app, Nat.add_1_r. cbn [Util.trim_length].
      rewrite lookup_app_l by (rewrite length_app; simpl; lia). by rewrite list_lookup_middle, He by done.
    - rewrite length_app. cbn [length]. replace (length w + (length b' + 1))%nat with (S (length w + length b')) by lia. cbn [Util.trim_length].
      destruct Hpre as [r Er]. rewrite lookup_app_r by lia. replace (length w + length b' - length w)%nat with (length b') by lia.
      rewrite Er, <- app_assoc. cbn [app]. rewrite list_lookup_middle by done.
      rewrite Er, !Forall_app in Hb. destruct Hb as [[_ Hz] _]. apply Forall_cons in Hz as [-> _].
      rewrite <- (app_assoc b' [z] r) in Er. cbn [app] in Er. rewrite <- Er. apply IH. by exists (z :: r). }
  rewrite length_app, Htl by done. by rewrite take_app_length.
Qed.
Lemma strtrim_id s : trimmed s -> Util.strtrim s = (s, length s).
Proof. intros H. destruct s as [|c s]; [done|]. pose proof (strtrim_pad [] (c :: s) []) as E. rewrite app_nil_r in E. by apply E; try constructor. Qed.
Lemma strtrim_right s : trimmed s -> Util.strtrim (s ++ [LocalDb.NL]) = (s, length s).
Proof.
  intros H. destruct s as [|c s]; [done|]. apply (strtrim_pad [] (c :: s) [LocalDb.NL]); try done. by repeat constructor.
Qed.

Lemma classify_header n : classify (LocalDb.line_of (header_line n)) = Header n.
Proof.
  assert (trimmed (header_line n)) as Ht.
  { unfold trimmed, header_line. cbn [head]. change ("["%char :: n ++ lit "]") with (("["%char :: n) ++ ["]"%char]). by rewrite last_snoc. }
  unfold classify, LocalDb.line_of. rewrite strtrim_right by done. unfold header_line. cbn [length Nat.eqb head tail].
  rewrite length_app. change (length (lit "]")) with 1%nat. rewrite Nat.add_1_r. cbn [orb]. rewrite bool_decide_eq_false_2 by done.
  rewrite bool_decide_eq_true_2 by done. cbn [andb]. replace (S (S (length n)) - 1)%nat with (S (length n)) by lia.
  change ("["%char :: n ++ lit "]") with (("["%char :: n) ++ "]"%char :: []). rewrite list_lookup_middle by done. rewrite bool_decide_eq_true_2 by done.
  replace (S (S (length n)) - 2)%nat with (length n) by lia. by rewrite take_app_length.
Qed.

Lemma strsep_key k v : "="%char ∉ k -> strsep (k ++ "="%char :: v) = (k, Some v).
Proof.
  intros H. unfold strsep. rewrite strchr_app by done. rewrite length_app. cbn [length tail].
  by replace (length k + S (length v) - S (length v))%nat with (length k) by lia; rewrite take_app_length.
Qed.
Lemma trimmed_app k c r : trimmed k -> k <> [] -> isspace c = false -> trimmed (k ++ r ++ [c]).
Proof.
  intros Ht Hk Hc. destruct k as [|a k]; [done|]. unfold trimmed in *. rewrite app_assoc, last_snoc. cbn [head app] in *.
  destruct (last (a :: k)) as [b|] eqn:E; [|by apply last_None in E]. by destruct Ht.
Qed.
(** A directive once the line is trimmed. *)
Lemma classify_trimmed line t : Util.strtrim line = (t, length t) -> t <> [] -> head t <> Some "#"%char -> head t <> Some "["%char ->
  classify line = let '(key, value) := strsep t in Directive (Util.strtrim key).1 ((fun v => (Util.strtrim v).1) <$> value).
Proof.
  intros E Ht H1 H2. unfold classify. rewrite E. destruct t as [|c t]; [done|]. cbn [length Nat.eqb orb].
  rewrite bool_decide_eq_false_2 by done. by rewrite bool_decide_eq_false_2 by done.
Qed.

Lemma classify_directive kv : directive_ok kv -> classify (LocalDb.line_of (directive_line kv)) = Directive kv.1 kv.2.
Proof.
  destruct kv as [k [v|]]; intros ((Hk & Htk & Heq & Hh & Hb) & Hfit & Htv); cbn [fst snd default] in *; unfold directive_line; cbn [fst snd].
  - assert (forall r, head (k ++ r) = head k) as Hhead by (intros r; by destruct k).
    assert ("="%char ∉ k ++ lit " ") as Heq' by (rewrite elem_of_app; intros [?|H]; [done|]; revert H; by_decide).
    assert (Util.strtrim (k ++ lit " ") = (k, length k)) as Ek by (apply (strtrim_pad [] k (lit " ")); [done|by_decide|done|done]).
    destruct v as [|c v].
    + rewrite (classify_trimmed _ (k ++ lit " " ++ ["="%char])).
      * change (lit " " ++ ["="%char]) with (lit " " ++ "="%char :: []). rewrite app_assoc, strsep_key by done. by rewrite Ek.
      * unfold LocalDb.line_of. rewrite app_nil_r. change (lit " = ") with ((lit " " ++ ["="%char]) ++ lit " "). rewrite <- !app_assoc.
        rewrite (app_assoc (lit " ")), app_assoc. apply (strtrim_pad [] _ (lit " " ++ [LocalDb.NL])); [done|by_decide|by apply trimmed_app|by destruct k].
      * by destruct k.
      * by rewrite Hhead.
      * by rewrite Hhead.
    + assert (trimmed (k ++ lit " = " ++ c :: v)) as Ht.
      { change (trimmed (c :: v)) in Htv. unfold trimmed in Htv. cbn [head] in Htv. destruct (last (c :: v)) as [e|] eqn:El; [|by apply last_None in El].
        destruct Htv as [_ He]. apply last_Some in El as [w ->]. rewrite (app_assoc (lit " = ")). by apply trimmed_app. }
      rewrite (classify_trimmed _ (k ++ lit " = " ++ c :: v)).
      * change (lit " = " ++ c :: v) with (lit " " ++ "="%char :: lit " " ++ c :: v). rewrite app_assoc, strsep_key by done. rewrite Ek. cbn [fmap option_fmap option_map fst].
        pose proof (strtrim_pad (lit " ") (c :: v) []) as Ev. rewrite app_nil_r in Ev. rewrite Ev; [done|by_decide|done|done|done].
      * by apply strtrim_right.
      * by destruct k.
      * by rewrite Hhead.
      * by rewrite Hhead.
  - rewrite (classify_trimmed _ k); [|by apply strtrim_right|done..]. unfold strsep. rewrite (proj2 (strchr_None _ _)) by done. by rewrite strtrim_id.
Qed.

(** The lines of a printed text. *)
Lemma file_lines_lines ls fuel : Forall fits ls -> (length (ls ≫= LocalDb.line_of) < fuel)%nat ->
  file_lines fuel (LocalDb.Stream (ls ≫= LocalDb.line_of) false false) = LocalDb.line_of <$> ls.
Proof.
  intros Hls. revert fuel. induction Hls as [|l ls (H1 & H2 & H3) Hls IH]; intros fuel Hf.
  - destruct fuel; [simpl in Hf; lia|]. done.
  - cbn [mbind list_bind] in *. rewrite length_app, LocalDb.line_length in Hf. destruct fuel as [|fuel]; [lia|]. cbn [file_lines].
    rewrite LocalDb.fgets_n_text by done. cbn [fmap list_fmap]. f_equal. apply IH. lia.
Qed.

Definition doc_lines (doc : document) : list cstr := doc ≫= fun sec => header_line sec.1 :: (directive_line <$> sec.2).
Lemma print_lines doc : print doc = doc_lines doc ≫= LocalDb.line_of.
Proof.
  unfold print, doc_lines. induction doc as [|[n kvs] doc IH]; [done|]. cbn [mbind list_bind fst snd] in *. rewrite bind_app, IH. cbn [mbind list_bind].
  f_equal. f_equal. clear. induction kvs as [|kv kvs IH]; [done|]. cbn [mbind list_bind fmap list_fmap]. by rewrite IH.
Qed.
Lemma events_directives n kvs section ls : Forall directive_ok kvs -> section = Some n ->
  events section ((LocalDb.line_of <$> (directive_line <$> kvs)) ++ ls) = ((fun kv => Event (Some n) (Some kv.1) kv.2) <$> kvs) ++ events section ls.
Proof.
  intros H ->. induction H as [|kv kvs Hkv Hkvs IH]; [done|]. cbn [fmap list_fmap app events]. rewrite classify_directive by done. by rewrite <- IH.
Qed.
Lemma events_doc doc section : document_ok doc -> events section (LocalDb.line_of <$> doc_lines doc) = doc_events doc.
Proof.
  intros H. revert section. unfold doc_lines, doc_events. induction H as [|[n kvs] doc [_ Hkv] Hdoc IH]; intros section; [done|].
  cbn [mbind list_bind fst snd app]. rewrite fmap_cons, fmap_app. cbn [events]. rewrite classify_header, (events_directives n) by done. f_equal. f_equal. apply IH.
Qed.
Lemma doc_lines_fit doc : document_ok doc -> Forall fits (doc_lines doc).
Proof.
  unfold doc_lines. induction 1 as [|[n kvs] doc [Hh Hkv] Hdoc IH]; [constructor|]. cbn [mbind list_bind fst snd]. apply Forall_app. split; [|done].
  constructor; [done|]. apply Forall_fmap. eapply Forall_impl; [exact Hkv|]. by intros kv (_ & ? & _).
Qed.

(** C38: [parse_ini] reads what is written: for every document whose lines fit
    the buffer, the callback is called once for each section and directive, in
    order, with the section's name, the key and the value (NULL for a key
    without one), until it returns non-zero; and for any file at all, garbage
    included, the parser ends if the callback does. *)
Theorem parse_ini_spec {D} (cb : D -> event -> option (Z * D)) doc file d :
  (document_ok doc -> parse_ini cb (Some (print doc, false)) d = run cb (doc_events doc) d) /\
  ((forall d e, is_Some (cb d e)) -> is_Some (parse_ini cb file d)).
Proof.
  split.
  - intros H. unfold parse_ini. rewrite ini_loop_run by (simpl; lia). rewrite print_lines, file_lines_lines; [by rewrite events_doc|by apply doc_lines_fit|lia].
  - intros H. destruct file as [[text fails]|]; cbn [parse_ini]; [|apply H]. rewrite ini_loop_run by (simpl; lia). by apply run_total.
Qed.

Definition ex_doc : document := [(lit "Trigger", [(lit "Type", Some (lit "Package")); (lit "Target", Some (lit "a=b"))]); (lit "Action", [(lit "NeedsTargets", None)])].
Lemma parse_ini_witness :
  parse_ini (fun l e => Some (0, l ++ [e])) (Some (print ex_doc, false)) [] = Some (0, doc_events ex_doc).
Proof. rewrite (proj1 (parse_ini_spec (fun l e => Some (0, l ++ [e])) ex_doc None [])) by by_decide. reflexivity. Defined.

End Ini.
