(* ===== verification/Hook.v ===== *)
(** * Transaction hooks ([src/lib/libkuzpkg/hook.c])

    The hook files are read with [Ini.parse_ini] and checked, the triggers are
    matched against the packages and files of the transaction, and the hooks
    that apply are run in order.  A null pointer that the code would
    dereference makes the result [None].  Running a command is the parameter
    [run_chroot]; the transaction is given by its two lists and [oldpkg]. *)

From S2P Require Import Prelude CStr KList Package Deps Util Conflict LocalDb Ini.
Local Open Scope Z_scope.

Module Hook.
Import Ini.

Definition OP_INSTALL : Z := 2 ^ 0.
Definition OP_UPGRADE : Z := 2 ^ 1.
Definition OP_REMOVE : Z := 2 ^ 2.
Definition has_op (op bit : Z) : bool := negb (Z.land op bit =? 0).
Inductive trigger_type := TYPE_PACKAGE | TYPE_PATH.
#[global] Instance trigger_type_eq_dec : EqDecision trigger_type.
Proof. solve_decision. Defined.
Inductive hook_when := PRE_TRANSACTION | POST_TRANSACTION.
#[global] Instance hook_when_eq_dec : EqDecision hook_when.
Proof. solve_decision. Defined.

(** [None] is the 0 the fields are allocated with; a target may be NULL. *)
Record trigger := Trigger { t_op : Z; t_type : option trigger_type; t_targets : list (option cstr) }.
Record hook := Hook {
  h_name : cstr; h_desc : option cstr; h_triggers : list trigger; h_depends : list (option cstr);
  h_cmd : option (list cstr); h_matches : list cstr; h_when : option hook_when; h_abort_on_fail : bool; h_needs_targets : bool
}.
Definition new_trigger : trigger := Trigger 0 None [].
Definition new_hook : hook := Hook [] None [] [] None [] None false false.

Definition set_triggers (h : hook) (ts : list trigger) : hook :=
  Hook (h_name h) (h_desc h) ts (h_depends h) (h_cmd h) (h_matches h) (h_when h) (h_abort_on_fail h) (h_needs_targets h).
Definition set_desc (h : hook) (d : option cstr) : hook :=
  Hook (h_name h) d (h_triggers h) (h_depends h) (h_cmd h) (h_matches h) (h_when h) (h_abort_on_fail h) (h_needs_targets h).
Definition set_depends (h : hook) (l : list (option cstr)) : hook :=
  Hook (h_name h) (h_desc h) (h_triggers h) l (h_cmd h) (h_matches h) (h_when h) (h_abort_on_fail h) (h_needs_targets h).
Definition set_cmd (h : hook) (c : option (list cstr)) : hook :=
  Hook (h_name h) (h_desc h) (h_triggers h) (h_depends h) c (h_matches h) (h_when h) (h_abort_on_fail h) (h_needs_targets h).
Definition set_when (h : hook) (w : option hook_when) : hook :=
  Hook (h_name h) (h_desc h) (h_triggers h) (h_depends h) (h_cmd h) (h_matches h) w (h_abort_on_fail h) (h_needs_targets h).
Definition set_abort (h : hook) : hook :=
  Hook (h_name h) (h_desc h) (h_triggers h) (h_depends h) (h_cmd h) (h_matches h) (h_when h) true (h_needs_targets h).
Definition set_needs (h : hook) : hook :=
  Hook (h_name h) (h_desc h) (h_triggers h) (h_depends h) (h_cmd h) (h_matches h) (h_when h) (h_abort_on_fail h) true.
Definition set_name (h : hook) (n : cstr) : hook :=
  Hook n (h_desc h) (h_triggers h) (h_depends h) (h_cmd h) (h_matches h) (h_when h) (h_abort_on_fail h) (h_needs_targets h).
Definition set_matches (h : hook) (ms : list cstr) : hook :=
  Hook (h_name h) (h_desc h) (h_triggers h) (h_depends h) (h_cmd h) ms (h_when h) (h_abort_on_fail h) (h_needs_targets h).

(** ** Checking and parsing *)

Definition trigger_validate (t : trigger) : Z :=
  if match t_targets t with [] => true | _ => false end || bool_decide (t_type t = None) || (t_op t =? 0) then -1 else 0.
Definition hook_validate (h : hook) : Z :=
  match h_triggers h with
  | [] => 0
  | ts => if existsb (fun t => negb (trigger_validate t =? 0)) ts || bool_decide (h_cmd h = None) || bool_decide (h_when h = None) then -1 else 0
  end.

(** [strcmp] with a string literal. *)
Definition is_str (s : cstr) (l : string) : bool := strcmp s (lit l) =? 0.

(** The last trigger of the hook, [hook->triggers->prev->data]. *)
Definition update_last (h : hook) (f : trigger -> option (Z * trigger)) : option (Z * hook) :=
  t ← last (h_triggers h);
  '(r, t) ← f t;
  Some (r, set_triggers h (take (length (h_triggers h) - 1) (h_triggers h) ++ [t])).

Definition trigger_option (key : cstr) (value : option cstr) (t : trigger) : option (Z * trigger) :=
  let add_op bit := Some (0, Trigger (Z.lor (t_op t) bit) (t_type t) (t_targets t)) in
  if is_str key "Operation" then
    v ← value;
    if is_str v "Install" then add_op OP_INSTALL
    else if is_str v "Upgrade" then add_op OP_UPGRADE
    else if is_str v "Remove" then add_op OP_REMOVE
    else Some (1, t)
  else if is_str key "Type" then
    v ← value;
    if is_str v "Package" then Some (0, Trigger (t_op t) (Some TYPE_PACKAGE) (t_targets t))
    else if is_str v "Path" then Some (0, Trigger (t_op t) (Some TYPE_PATH) (t_targets t))
    else Some (1, t)
  else if is_str key "Target" then Some (0, Trigger (t_op t) (t_type t) (t_targets t ++ [value]))
  else Some (1, t).

Definition action_option (key : cstr) (value : option cstr) (h : hook) : option (Z * hook) :=
  if is_str key "When" then
    v ← value;
    if is_str v "PreTransaction" then Some (0, set_when h (Some PRE_TRANSACTION))
    else if is_str v "PostTransaction" then Some (0, set_when h (Some POST_TRANSACTION))
    else Some (1, h)
  else if is_str key "Description" then Some (0, set_desc h value)
  else if is_str key "Depends" then Some (0, set_depends h (h_depends h ++ [value]))
  else if is_str key "AbortOnFail" then Some (0, set_abort h)
  else if is_str key "NeedsTargets" then Some (0, set_needs h)
  else if is_str key "Exec" then
    v ← value;
    r ← Util.wordsplit v;
    let h := set_cmd h r in
    match r with Some _ => Some (0, h) | None => Some (1, h) end
  else Some (1, h).

(** [_klpm_hook_parse_cb] *)
Definition hook_parse_cb (h : hook) (ev : event) : option (Z * hook) :=
  match ev_section ev, ev_key ev with
  | None, _ => Some (1, h)
  | Some section, None =>
      if is_str section "Trigger" then Some (0, set_triggers h (h_triggers h ++ [new_trigger]))
      else if is_str section "Action" then Some (0, h)
      else Some (1, h)
  | Some section, Some key =>
      if is_str section "Trigger" then update_last h (trigger_option key (ev_value ev))
      else if is_str section "Action" then action_option key (ev_value ev) h
      else Some (0, h)
  end.

(** ** Matching *)

Section Match.
Variables (fnmatch : cstr -> cstr -> Z) (noextract : list cstr).
(** The transaction: the packages to install and to remove, and the installed
    version of a package. *)
Variables (oldpkg : pkg -> option pkg) (add remove : list pkg).

(** [_klpm_fnmatch_patterns] on a list that may hold NULL. *)
Fixpoint match_targets (patterns : list (option cstr)) (string : cstr) : option Z :=
  match patterns with
  | [] => Some (-1)
  | None :: _ => None
  | Some pattern :: rest =>
      let inverted := bool_decide (head pattern = Some "!"%char) in
      let pattern := if inverted || bool_decide (head pattern = Some "\"%char) then tail pattern else pattern in
      if fnmatch pattern string =? 0 then Some (if inverted then 1 else 0) else match_targets rest string
  end.
Definition target_match (t : trigger) (s : cstr) : option bool :=
  z ← match_targets (reverse (t_targets t)) s; Some (z =? 0).

(** The names of the list that a test selects. *)
Fixpoint select (test : cstr -> option bool) (l : list cstr) : option (list cstr) :=
  match l with
  | [] => Some []
  | x :: l => b ← test x; r ← select test l; Some (if b : bool then x :: r else r)
  end.
Definition names_in (ps : list pkg) : list cstr := ps ≫= fun p => f_name <$> files p.

(** [while(i && strcmp(i->data, path) == 0)] *)
Fixpoint drop_equal (path : cstr) (l : list cstr) : list cstr :=
  match l with
  | [] => []
  | x :: l' => if strcmp x path =? 0 then drop_equal path l' else l
  end.
(** [while(j && strcmp(i->data, j->data) > 0)]: the names passed, and the rest. *)
Fixpoint pass_smaller (x : cstr) (j : list cstr) : list cstr * list cstr :=
  match j with
  | [] => ([], [])
  | y :: j' => if 0 <? strcmp x y then let '(a, b) := pass_smaller x j' in (y :: a, b) else ([], j)
  end.
(** The walk through the two sorted lists: what stays of [install], the common
    paths, and what stays of [remove]; the fuel is the length of [i]. *)
Fixpoint match_walk (fuel : nat) (i j : list cstr) : list cstr * list cstr * list cstr :=
  match fuel, i with
  | O, _ => (i, [], j)
  | S _, [] => ([], [], j)
  | S fuel, x :: i' =>
      match pass_smaller x j with
      | (_, []) => (i, [], j)
      | (passed, (y :: _) as j1) =>
          if strcmp x y =? 0 then
            let '(a, u, b) := match_walk fuel (drop_equal x i) (drop_equal x j1) in (a, x :: u, passed ++ b)
          else
            let '(a, u, b) := match_walk fuel i' j1 in (x :: a, u, passed ++ b)
      end
  end.

Definition nonempty {A} (l : list A) : bool := match l with [] => false | _ => true end.

(** [_klpm_hook_trigger_match_file]: the result and [hook->matches]. *)
Definition trigger_match_file (needs_targets : bool) (matches : list cstr) (t : trigger) : option (bool * list cstr) :=
  install ← select (fun n => if Conflict.fnmatch_patterns fnmatch noextract n =? 0 then Some false else target_match t n) (names_in add);
  removed ← select (target_match t) (names_in (omap oldpkg add));
  removed' ← select (target_match t) (names_in remove);
  let i := KList.list_msort strcmp install in
  let j := KList.list_msort strcmp (removed ++ removed') in
  let '(install, upgrade, remove) := match_walk (length i) i j in
  let on bit (l : list cstr) := has_op (t_op t) bit && nonempty l in
  let ret := on OP_INSTALL install || on OP_UPGRADE upgrade || on OP_REMOVE remove in
  let save bit (l : list cstr) := if on bit l then l else [] in
  Some (ret, if needs_targets then matches ++ save OP_INSTALL install ++ save OP_UPGRADE upgrade ++ save OP_REMOVE remove else matches).

(** The loop of [_klpm_hook_trigger_match_pkg] over the packages to install;
    [None] inside is the early [return 1]. *)
Fixpoint match_add (needs_targets : bool) (t : trigger) (l : list pkg) (install upgrade : list cstr) : option (option (list cstr * list cstr)) :=
  match l with
  | [] => Some (Some (install, upgrade))
  | p :: l =>
      m ← target_match t (name p);
      if m : bool then
        match oldpkg p with
        | Some _ =>
            if has_op (t_op t) OP_UPGRADE then
              if needs_targets then match_add needs_targets t l install (upgrade ++ [name p]) else Some None
            else match_add needs_targets t l install upgrade
        | None =>
            if has_op (t_op t) OP_INSTALL then
              if needs_targets then match_add needs_targets t l (install ++ [name p]) upgrade else Some None
            else match_add needs_targets t l install upgrade
        end
      else match_add needs_targets t l install upgrade
  end.
Fixpoint match_remove (needs_targets : bool) (t : trigger) (l : list pkg) (removed : list cstr) : option (option (list cstr)) :=
  match l with
  | [] => Some (Some removed)
  | p :: l =>
      m ← target_match t (name p);
      if (m : bool) && match KList.find Package.pkg_cmp add p with Some _ => false | None => true end then
        if needs_targets then match_remove needs_targets t l (removed ++ [name p]) else Some None
      else match_remove needs_targets t l removed
  end.
Definition trigger_match_pkg (needs_targets : bool) (matches : list cstr) (t : trigger) : option (bool * list cstr) :=
  a ← (if has_op (t_op t) OP_INSTALL || has_op (t_op t) OP_UPGRADE then match_add needs_targets t add [] [] else Some (Some ([], [])));
  match a with
  | None => Some (true, matches)
  | Some (install, upgrade) =>
      b ← (if has_op (t_op t) OP_REMOVE then match_remove needs_targets t remove [] else Some (Some []));
      match b with
      | None => Some (true, matches)
      | Some removed => Some (nonempty install || nonempty upgrade || nonempty removed, matches ++ install ++ upgrade ++ removed)
      end
  end.

Definition trigger_match (needs_targets : bool) (matches : list cstr) (t : trigger) : option (bool * list cstr) :=
  if bool_decide (t_type t = Some TYPE_PACKAGE) then trigger_match_pkg needs_targets matches t else trigger_match_file needs_targets matches t.

(** The loop of [_klpm_hook_triggered]. *)
Fixpoint triggered_loop (needs_targets : bool) (ts : list trigger) (matches : list cstr) (ret : bool) : option (bool * list cstr) :=
  match ts with
  | [] => Some (ret, matches)
  | t :: ts =>
      '(m, matches) ← trigger_match needs_targets matches t;
      if (m : bool) && negb needs_targets then Some (true, matches) else triggered_loop needs_targets ts matches (ret || m)
  end.
Definition hook_triggered (h : hook) : option (bool * hook) :=
  '(r, ms) ← triggered_loop (h_needs_targets h) (h_triggers h) (h_matches h) false;
  Some (r, set_matches h ms).
End Match.

(** ** What a trigger matches *)

Lemma drop_equal_spec path l : StronglySorted (cmp_le strcmp) l -> Forall (fun y => strcmp path y <= 0) l ->
  (forall y, y ∈ drop_equal path l <-> y ∈ l /\ y <> path) /\ StronglySorted (cmp_le strcmp) (drop_equal path l) /\
  (length (drop_equal path l) <= length l)%nat.
Proof.
  induction 1 as [|x l Hs IH Hx]; intros Hp; cbn [drop_equal]; [split_and!; [set_solver|constructor|done]|].
  inversion Hp as [|? ? Hpx Hpl]; subst. destruct (Z.eqb_spec (strcmp x path) 0) as [E|E].
  - apply strcmp_eq in E as ->. destruct (IH Hpl) as (H1 & H2 & H3). split_and!; [set_solver|done|simpl; lia].
  - split_and!; [|by constructor|done]. intros y. split; [|by intros [? _]]. intros Hy. split; [done|]. intros ->.
    assert (strcmp x path <= 0) by (apply elem_of_cons in Hy as [->|Hy]; [by rewrite strcmp_refl|]; rewrite Forall_forall in Hx; by apply Hx).
    apply E. pose proof (strcmp_opp x path). lia.
Qed.

Lemma pass_smaller_spec x j : let '(a, b) := pass_smaller x j in
  j = a ++ b /\ Forall (fun y => 0 < strcmp x y) a /\ match b with y :: _ => strcmp x y <= 0 | [] => True end.
Proof.
  induction j as [|y j IH]; cbn [pass_smaller]; [done|]. destruct (Z.ltb_spec 0 (strcmp x y)); [|by split_and!].
  destruct (pass_smaller x j) as [a b]. destruct IH as (-> & H1 & H2). split_and!; [done|by constructor|done].
Qed.

(** The walk splits the two sorted lists into what is only in the first, in
    both, and only in the second. *)
Lemma match_walk_spec fuel i j : (length i <= fuel)%nat -> StronglySorted (cmp_le strcmp) i -> StronglySorted (cmp_le strcmp) j ->
  let '(a, u, b) := match_walk fuel i j in
  forall x, (x ∈ a <-> x ∈ i /\ x ∉ j) /\ (x ∈ u <-> x ∈ i /\ x ∈ j) /\ (x ∈ b <-> x ∈ j /\ x ∉ i).
Proof.
  revert i j. induction fuel as [|fuel IH]; intros i j Hf Hi Hj.
  { destruct i; [|simpl in Hf; lia]. cbn [match_walk]. set_solver. }
  destruct i as [|x i]; cbn [match_walk]; [set_solver|]. pose proof (pass_smaller_spec x j) as Hp. destruct (pass_smaller x j) as [passed j1].
  destruct Hp as (-> & Hpass & Hhead). inversion Hi as [|? ? Hi' Hx]; subst. rewrite Forall_forall in Hpass, Hx.
  assert (forall z, z ∈ x :: i -> z ∉ passed) as Hnp.
  { intros z Hz Hzp. apply Hpass in Hzp. apply elem_of_cons in Hz as [->|Hz]; [rewrite strcmp_refl in Hzp; lia|]. apply Hx in Hz. unfold cmp_le in Hz. lia. }
  destruct j1 as [|y j1]; [rewrite app_nil_r in *; set_solver|].
  assert (StronglySorted (cmp_le strcmp) (y :: j1)) as Hj1 by (by apply StronglySorted_app_1_r in Hj).
  destruct (Z.eqb_spec (strcmp x y) 0) as [E|E].
  - apply strcmp_eq in E as <-. assert (Forall (fun z => strcmp x z <= 0) (x :: i)) as Fi by (constructor; [by rewrite strcmp_refl|by apply Forall_forall]).
    assert (Forall (fun z => strcmp x z <= 0) (x :: j1)) as Fj by (constructor; [by rewrite strcmp_refl|by inversion Hj1]).
    destruct (drop_equal_spec x (x :: i) Hi Fi) as (D1 & D2 & _). destruct (drop_equal_spec x (x :: j1) Hj1 Fj) as (D3 & D4 & _).
    assert (length (drop_equal x (x :: i)) <= fuel)%nat as Hl.
    { cbn [drop_equal]. rewrite strcmp_refl. cbn [Z.eqb]. destruct (drop_equal_spec x i Hi' ltac:(by inversion Fi)) as (_ & _ & ?). simpl in Hf. lia. }
    specialize (IH _ _ Hl D2 D4). destruct (match_walk fuel _ _) as [[a u] b]. intros z. destruct (IH z) as (A & U & B).
    specialize (D1 z). specialize (D3 z). specialize (Hnp z). rewrite !elem_of_cons, !elem_of_app, elem_of_cons in *. rewrite A, U, B, D1, D3.
    clear - Hnp. destruct (decide (z = x)); tauto.
  - simpl in Hf. specialize (IH i (y :: j1) ltac:(lia) Hi' Hj1). destruct (match_walk fuel i (y :: j1)) as [[a u] b]. intros z. destruct (IH z) as (A & U & B).
    assert (x ∉ y :: j1) as Hxj.
    { intros [->|H]%elem_of_cons; [by rewrite strcmp_refl in E|]. inversion Hj1 as [|? ? _ Hy]; subst. rewrite Forall_forall in Hy. apply Hy in H.
      unfold cmp_le in H. pose proof (strcmp_opp x y). lia. }
    specialize (Hnp z). rewrite !elem_of_cons, !elem_of_app, elem_of_cons in *. rewrite A, U, B.
    assert (z = x -> z <> y /\ z ∉ j1) as Hzx by (intros ->; tauto). clear - Hnp Hzx. destruct (decide (z ∈ i)), (decide (z = x)); tauto.
Qed.

Section Fires.
Context (fnmatch : cstr -> cstr -> Z) (noextract : list cstr) (oldpkg : pkg -> option pkg) (add remove : list pkg).

(** A trigger all of whose targets have a value. *)
Definition valued (t : trigger) : Prop := Forall is_Some (t_targets t).
#[global] Instance valued_dec t : Decision (valued t).
Proof. unfold valued. apply _. Defined.
(** Does the name match the targets? *)
Definition wants (t : trigger) (s : cstr) : bool := Conflict.fnmatch_patterns fnmatch (omap id (t_targets t)) s =? 0.
Lemma match_targets_rev l s : match_targets fnmatch (Some <$> l) s = Some (Conflict.match_rev fnmatch l s).
Proof. induction l as [|p l IH]; [done|]. cbn [fmap list_fmap match_targets Conflict.match_rev]. destruct (_ =? 0); [done|apply IH]. Qed.
Lemma target_match_wants t s : valued t -> target_match fnmatch t s = Some (wants t s).
Proof.
  intros H. unfold target_match, wants, Conflict.fnmatch_patterns.
  assert (t_targets t = Some <$> omap id (t_targets t)) as E.
  { unfold valued in H. induction H as [|x l [y ->] Hl IH]; [done|]. cbn [omap list_omap fmap list_fmap id]. by f_equal. }
  rewrite E at 1. rewrite <- fmap_reverse, match_targets_rev. done.
Qed.
Lemma select_filter test g l : (forall x, test x = Some (g x)) -> select test l = Some (List.filter g l).
Proof. intros H. induction l as [|x l IH]; [done|]. cbn [select List.filter]. rewrite H, IH. cbn [mbind option_bind]. by destruct (g x). Qed.
Lemma elem_of_sort l x : x ∈ KList.list_msort strcmp l <-> x ∈ l.
Proof. by rewrite (KList.list_msort_perm strcmp l). Qed.

(** The names an installation, upgrade or removal trigger is about. *)
Definition installs (t : trigger) (f : cstr) : Prop :=
  f ∈ names_in add /\ Conflict.fnmatch_patterns fnmatch noextract f <> 0 /\ wants t f = true.
Definition removes (t : trigger) (f : cstr) : Prop :=
  (f ∈ names_in (omap oldpkg add) \/ f ∈ names_in remove) /\ wants t f = true.
Definition affects_path (t : trigger) (f : cstr) : Prop :=
  (has_op (t_op t) OP_INSTALL = true /\ installs t f /\ ~ removes t f) \/
  (has_op (t_op t) OP_UPGRADE = true /\ installs t f /\ removes t f) \/
  (has_op (t_op t) OP_REMOVE = true /\ removes t f /\ ~ installs t f).
Definition op_for (p : pkg) : Z := match oldpkg p with Some _ => OP_UPGRADE | None => OP_INSTALL end.
Definition affects_pkg (t : trigger) (n : cstr) : Prop :=
  wants t n = true /\
  ((exists p, p ∈ add /\ name p = n /\ has_op (t_op t) (op_for p) = true) \/
   (exists p, p ∈ remove /\ name p = n /\ has_op (t_op t) OP_REMOVE = true /\ n ∉ name <$> add)).
Definition affects (t : trigger) (n : cstr) : Prop :=
  if decide (t_type t = Some TYPE_PACKAGE) then affects_pkg t n else affects_path t n.

(** What matching one trigger yields. *)
Definition match_result (P : cstr -> Prop) (needs : bool) (ms : list cstr) (r : option (bool * list cstr)) : Prop :=
  exists b extra, r = Some (b, ms ++ extra) /\ (b = true <-> exists n, P n) /\
    if needs then forall n, n ∈ extra <-> P n else extra = [].

Lemma nonempty_spec {A} (l : list A) : nonempty l = true <-> exists x, x ∈ l.
Proof. destruct l as [|x l]; simpl; [split; [done|by intros [? ?%elem_of_nil]]|]. split; [|done]. intros _. exists x. by left. Qed.

Lemma match_file_spec needs ms t : valued t -> match_result (affects_path t) needs ms (trigger_match_file fnmatch noextract oldpkg add remove needs ms t).
Proof.
  intros Hv. unfold trigger_match_file.
  rewrite (select_filter (fun n => if Conflict.fnmatch_patterns fnmatch noextract n =? 0 then Some false else target_match fnmatch t n) (fun n => negb (Conflict.fnmatch_patterns fnmatch noextract n =? 0) && wants t n)).
  2: { intros x. cbv beta. destruct (_ =? 0); [done|]. by rewrite target_match_wants. }
  rewrite !(select_filter (target_match fnmatch t) (wants t)) by (intros x; by apply target_match_wants). cbn [mbind option_bind].
  set (i := KList.list_msort strcmp (List.filter _ (names_in add))). set (j := KList.list_msort strcmp (_ ++ _)).
  pose proof (match_walk_spec (length i) i j (Nat.le_refl _) (KList.list_msort_sorted _ _) (KList.list_msort_sorted _ _)) as Hw.
  destruct (match_walk (length i) i j) as [[a u] b].
  assert (forall x, x ∈ i <-> installs t x) as Hi.
  { intros x. unfold i, installs. rewrite elem_of_sort, list_elem_of_In, List.filter_In, <- list_elem_of_In, andb_true_iff, negb_true_iff, Z.eqb_neq. done. }
  assert (forall x, x ∈ j <-> removes t x) as Hj.
  { intros x. unfold j, removes. rewrite elem_of_sort, elem_of_app, !list_elem_of_In, !List.filter_In, <- !list_elem_of_In. naive_solver. }
  set (on := fun (bit : Z) (l : list cstr) => has_op (t_op t) bit && nonempty l). set (save := fun (bit : Z) (l : list cstr) => if on bit l then l else []).
  assert (forall bit l x, x ∈ save bit l <-> has_op (t_op t) bit = true /\ x ∈ l) as Hsave.
  { intros bit l x. unfold save, on. destruct (has_op (t_op t) bit); simpl; [|set_solver]. destruct l; set_solver. }
  assert (forall x, x ∈ save OP_INSTALL a ++ save OP_UPGRADE u ++ save OP_REMOVE b <-> affects_path t x) as Hx.
  { intros x. rewrite !elem_of_app, !Hsave. destruct (Hw x) as (-> & -> & ->). rewrite Hi, Hj. unfold affects_path. tauto. }
  assert (forall bit l, on bit l = true <-> exists x, x ∈ save bit l) as Hon.
  { intros bit l. setoid_rewrite Hsave. unfold on. rewrite andb_true_iff, nonempty_spec. naive_solver. }
  assert (on OP_INSTALL a || on OP_UPGRADE u || on OP_REMOVE b = true <-> exists x, affects_path t x) as Hb.
  { setoid_rewrite <- Hx. rewrite !orb_true_iff, !Hon. setoid_rewrite elem_of_app. setoid_rewrite elem_of_app. naive_solver. }
  destruct needs; [|exists (on OP_INSTALL a || on OP_UPGRADE u || on OP_REMOVE b), []; by rewrite app_nil_r].
  eexists _, _. split; [done|]. split; [exact Hb|exact Hx].
Qed.
(** The packages of the transaction a trigger is about. *)
Definition picks (t : trigger) (p : pkg) : bool := wants t (name p) && has_op (t_op t) (op_for p).
Definition picks_removed (t : trigger) (p : pkg) : bool :=
  wants t (name p) && match KList.find Package.pkg_cmp add p with Some _ => false | None => true end.
Lemma match_add_needs t l inst upg : valued t ->
  exists i u, match_add fnmatch oldpkg true t l inst upg = Some (Some (inst ++ i, upg ++ u)) /\
    (forall n, n ∈ i ++ u <-> exists p, p ∈ l /\ name p = n /\ picks t p = true).
Proof.
  intros Hv. revert inst upg. induction l as [|p l IH]; intros inst upg; cbn [match_add].
  { exists [], []. rewrite !app_nil_r. split; [done|]. set_solver. }
  rewrite target_match_wants by done. cbn [mbind option_bind].
  assert (picks t p = false -> (exists i u, match_add fnmatch oldpkg true t l inst upg = Some (Some (inst ++ i, upg ++ u)) /\
    (forall n, n ∈ i ++ u <-> exists q, q ∈ p :: l /\ name q = n /\ picks t q = true))) as Hskip.
  { intros Hp. destruct (IH inst upg) as (i & u & -> & H). exists i, u. split; [done|]. intros n. rewrite H. split; [set_solver|].
    intros (q & [->|Hq]%elem_of_cons & ? & ?); [congruence|eauto]. }
  unfold picks, op_for in Hskip. destruct (wants t (name p)) eqn:Ew; [|by apply Hskip].
  destruct (oldpkg p) eqn:Eo; (destruct (has_op (t_op t) _) eqn:Eb; [|by apply Hskip]); clear Hskip.
  - destruct (IH inst (upg ++ [name p])) as (i & u & -> & H). exists i, (name p :: u). rewrite <- app_assoc. split; [done|].
    intros n. rewrite <- Permutation_middle, elem_of_cons, H. unfold picks, op_for. split.
    + intros [->|(q & Hq)]; [exists p; rewrite Ew, Eo, Eb; set_solver|exists q; set_solver].
    + intros (q & [->|Hq]%elem_of_cons & <- & ?); [by left|right; eauto].
  - destruct (IH (inst ++ [name p]) upg) as (i & u & -> & H). exists (name p :: i), u. rewrite <- app_assoc. split; [done|].
    intros n. cbn [app]. rewrite elem_of_cons, H. unfold picks, op_for. split.
    + intros [->|(q & Hq)]; [exists p; rewrite Ew, Eo, Eb; set_solver|exists q; set_solver].
    + intros (q & [->|Hq]%elem_of_cons & <- & ?); [by left|right; eauto].
Qed.
Lemma match_add_plain t l : valued t ->
  match_add fnmatch oldpkg false t l [] [] = Some (if existsb (picks t) l then None else Some ([], [])).
Proof.
  intros Hv. induction l as [|p l IH]; cbn [match_add existsb]; [done|]. rewrite target_match_wants by done. cbn [mbind option_bind].
  unfold picks at 1, op_for. destruct (wants t (name p)); [|exact IH]. destruct (oldpkg p); by destruct (has_op _ _).
Qed.
Lemma match_remove_needs t l acc : valued t ->
  match_remove fnmatch add true t l acc = Some (Some (acc ++ (name <$> List.filter (picks_removed t) l))).
Proof.
  intros Hv. revert acc. induction l as [|p l IH]; intros acc; cbn [match_remove List.filter]; [by rewrite app_nil_r|].
  rewrite target_match_wants by done. cbn [mbind option_bind]. fold (picks_removed t p). destruct (picks_removed t p); rewrite IH; [|done].
  by rewrite <- app_assoc.
Qed.
Lemma match_remove_plain t l : valued t ->
  match_remove fnmatch add false t l [] = Some (if existsb (picks_removed t) l then None else Some []).
Proof.
  intros Hv. induction l as [|p l IH]; cbn [match_remove existsb]; [done|]. rewrite target_match_wants by done. cbn [mbind option_bind].
  fold (picks_removed t p). by destruct (picks_removed t p).
Qed.

Lemma not_found p : match KList.find Package.pkg_cmp add p with Some _ => false | None => true end = true <-> name p ∉ name <$> add.
Proof.
  unfold KList.find. destruct (find_first _ add) as [q|] eqn:E.
  - apply find_first_Some in E as [Hq E]. apply Z.eqb_eq, strcmp_eq in E. split; [done|]. intros H. exfalso. apply H. rewrite <- E. by apply list_elem_of_fmap_2.
  - split; [|done]. intros _ (q & En & Hq)%list_elem_of_fmap. rewrite find_first_None in E. specialize (E q Hq).
    unfold Package.pkg_cmp in E. rewrite En, strcmp_refl in E. done.
Qed.

Definition picks_any (t : trigger) : bool := existsb (picks t) add.
Definition drops_any (t : trigger) : bool := has_op (t_op t) OP_REMOVE && existsb (picks_removed t) remove.
Lemma picked_spec t n : affects_pkg t n <->
  (exists p, p ∈ add /\ name p = n /\ picks t p = true) \/ (has_op (t_op t) OP_REMOVE = true /\ n ∈ name <$> List.filter (picks_removed t) remove).
Proof.
  unfold affects_pkg, picks. split.
  - intros [Hw [(p & Hp & <- & Ho)|(p & Hp & <- & Ho & Hn)]]; [left; exists p; by rewrite Hw, Ho|right]. split; [done|].
    apply list_elem_of_fmap. exists p. split; [done|]. rewrite list_elem_of_In, List.filter_In, <- list_elem_of_In. split; [done|].
    unfold picks_removed. by rewrite Hw, (proj2 (not_found p)).
  - intros [(p & Hp & <- & [Hw Ho]%andb_true_iff)|[Ho (p & -> & Hp)%list_elem_of_fmap]]; [eauto 6|].
    rewrite list_elem_of_In, List.filter_In, <- list_elem_of_In in Hp. destruct Hp as [Hp [Hw Hn%not_found]%andb_true_iff]. eauto 8.
Qed.
Lemma fires_spec t : picks_any t || drops_any t = true <-> exists n, affects_pkg t n.
Proof.
  setoid_rewrite picked_spec. unfold picks_any, drops_any. rewrite orb_true_iff, andb_true_iff, !existsb_exists. setoid_rewrite <- list_elem_of_In. split.
  - intros [(p & Hp & E)|[Ho (p & Hp & E)]]; exists (name p); [left; eauto|right]. split; [done|].
    apply list_elem_of_fmap. exists p. split; [done|]. by rewrite list_elem_of_In, List.filter_In, <- list_elem_of_In.
  - intros [n [(p & Hp & _ & E)|[Ho (p & _ & Hp)%list_elem_of_fmap]]]; [left; eauto|right].
    rewrite list_elem_of_In, List.filter_In, <- list_elem_of_In in Hp. destruct Hp. eauto.
Qed.
(** Without the bits for it nothing is picked. *)
Lemma picks_needs_bit t : has_op (t_op t) OP_INSTALL || has_op (t_op t) OP_UPGRADE = false -> forall p, picks t p = false.
Proof. intros [H1 H2]%orb_false_iff p. unfold picks, op_for. destruct (oldpkg p); by rewrite ?H1, ?H2, andb_false_r. Qed.

Lemma match_pkg_spec needs ms t : valued t -> match_result (affects_pkg t) needs ms (trigger_match_pkg fnmatch oldpkg add remove needs ms t).
Proof.
  intros Hv. unfold trigger_match_pkg, match_result. destruct needs.
  - set (A := if has_op (t_op t) OP_INSTALL || has_op (t_op t) OP_UPGRADE then _ else _).
    assert (exists i u, A = Some (Some (i, u)) /\ forall n, n ∈ i ++ u <-> exists p, p ∈ add /\ name p = n /\ picks t p = true) as (i & u & -> & Hiu).
    { unfold A. destruct (_ || _) eqn:E; [destruct (match_add_needs t add [] [] Hv) as (i & u & -> & H); by exists i, u|]. exists [], []. split; [done|].
      intros n. split; [by intros ?%elem_of_nil|]. intros (p & _ & _ & Hp). by rewrite picks_needs_bit in Hp. }
    cbn [mbind option_bind]. set (B := if has_op (t_op t) OP_REMOVE then _ else _).
    assert (exists r, B = Some (Some r) /\ forall n, n ∈ r <-> has_op (t_op t) OP_REMOVE = true /\ n ∈ name <$> List.filter (picks_removed t) remove) as (r & -> & Hr).
    { unfold B. destruct (has_op (t_op t) OP_REMOVE); [rewrite match_remove_needs by done; eexists; split; [done|]|exists []; split; [done|]]; set_solver. }
    cbn [mbind option_bind]. assert (forall n, n ∈ i ++ u ++ r <-> affects_pkg t n) as Hx by (intros n; by rewrite app_assoc, elem_of_app, Hiu, Hr, picked_spec).
    eexists _, (i ++ u ++ r). split; [done|]. split; [|done]. setoid_rewrite <- Hx. rewrite <- nonempty_spec. by destruct i, u, r.
  - assert ((if has_op (t_op t) OP_INSTALL || has_op (t_op t) OP_UPGRADE then match_add fnmatch oldpkg false t add [] [] else Some (Some ([], [])))
      = Some (if picks_any t then None else Some ([], []))) as ->.
    { destruct (_ || _) eqn:E; [by apply match_add_plain|]. assert (picks_any t = false) as ->; [|done]. apply not_true_iff_false. unfold picks_any. rewrite existsb_exists. intros (p & _ & Hp). by rewrite picks_needs_bit in Hp. }
    cbn [mbind option_bind]. pose proof (fires_spec t) as Hf. destruct (picks_any t) eqn:Ep; [exists true, []; by rewrite app_nil_r|].
    assert ((if has_op (t_op t) OP_REMOVE then match_remove fnmatch add false t remove [] else Some (Some [])) = Some (if drops_any t then None else Some [])) as ->.
    { unfold drops_any. destruct (has_op _ OP_REMOVE); [by apply match_remove_plain|done]. }
    cbn [mbind option_bind]. destruct (drops_any t) eqn:Ed; [exists true, []; by rewrite app_nil_r|]. cbn [app]. exists false, []. done.
Qed.

Lemma match_result_iff (P Q : cstr -> Prop) needs ms r : (forall n, P n <-> Q n) -> match_result P needs ms r -> match_result Q needs ms r.
Proof.
  intros H (b & extra & -> & Hb & He). exists b, extra. split; [done|]. split; [rewrite Hb; naive_solver|].
  destruct needs; [|done]. intros n. by rewrite He, H.
Qed.
Lemma trigger_match_spec needs ms t : valued t -> match_result (affects t) needs ms (trigger_match fnmatch noextract oldpkg add remove needs ms t).
Proof.
  intros Hv. unfold trigger_match. case_bool_decide as E.
  - apply (match_result_iff (affects_pkg t)); [|by apply match_pkg_spec]. intros n. unfold affects. by rewrite decide_True.
  - apply (match_result_iff (affects_path t)); [|by apply match_file_spec]. intros n. unfold affects. by rewrite decide_False.
Qed.

(** A trigger of the hook matches the name. *)
Definition concerns (ts : list trigger) (n : cstr) : Prop := exists t, t ∈ ts /\ affects t n.
Lemma triggered_loop_spec needs ts ms ret : Forall valued ts ->
  exists b extra, triggered_loop fnmatch noextract oldpkg add remove needs ts ms ret = Some (b, ms ++ extra) /\
    (b = true <-> ret = true \/ exists n, concerns ts n) /\ if needs then forall n, n ∈ extra <-> concerns ts n else extra = [].
Proof.
  intros H. revert ms ret. induction H as [|t ts Ht Hts IH]; intros ms ret; cbn [triggered_loop].
  { exists ret, []. rewrite app_nil_r. split; [done|]. unfold concerns. split; [|destruct needs; [set_solver|done]].
    split; [auto|]. intros [?|(n & t & Hn & _)]; [done|set_solver]. }
  assert (forall n, concerns (t :: ts) n <-> affects t n \/ concerns ts n) as Hc.
  { intros n. unfold concerns. split; [intros (u & [->|Hu]%elem_of_cons & Ha); eauto|]. intros [Ha|(u & Hu & Ha)]; [exists t|exists u]; set_solver. }
  destruct (trigger_match_spec needs ms t Ht) as (b & extra & -> & Hb & He). cbn [mbind option_bind].
  destruct (b && negb needs) eqn:Eb.
  - apply andb_true_iff in Eb as [-> ->%negb_true_iff]. subst extra. rewrite app_nil_r. exists true, []. rewrite app_nil_r. split; [done|]. split; [|done].
    split; [|done]. intros _. right. destruct (proj1 Hb eq_refl) as [n Hn]. exists n. apply Hc. by left.
  - destruct (IH (ms ++ extra) (ret || b)) as (b' & extra' & -> & Hb' & He'). exists b', (extra ++ extra'). rewrite <- app_assoc. split; [done|]. split.
    + rewrite Hb', orb_true_iff. setoid_rewrite Hc. rewrite Hb. clear. naive_solver.
    + destruct needs; [|by subst]. intros n. by rewrite elem_of_app, Hc, He, He'.
Qed.

(** C28: a hook is triggered exactly when one of its triggers concerns a package
    or a path of the transaction, by the operation: an installed package or
    path that was not there before, an upgraded one, or one that is removed and
    not replaced, where paths excluded from extraction count as not installed.
    When the hook asks for its targets, they are exactly the names concerned;
    otherwise its list of matches does not change.  Matching always ends. *)
Theorem hook_triggered_spec h (Hv : Forall valued (h_triggers h)) :
  exists b ms, hook_triggered fnmatch noextract oldpkg add remove h = Some (b, set_matches h ms) /\
    (b = true <-> exists n, concerns (h_triggers h) n) /\
    (if h_needs_targets h then forall n, n ∈ ms <-> n ∈ h_matches h \/ concerns (h_triggers h) n else ms = h_matches h).
Proof.
  unfold hook_triggered. destruct (triggered_loop_spec (h_needs_targets h) (h_triggers h) (h_matches h) false Hv) as (b & extra & -> & Hb & He).
  cbn [mbind option_bind]. exists b, (h_matches h ++ extra). split; [done|]. split; [rewrite Hb; naive_solver|].
  destruct (h_needs_targets h); [|by subst; rewrite app_nil_r]. intros n. by rewrite elem_of_app, He.
Qed.
End Fires.

(** ** Loading and running hooks *)

Definition SUFFIX : cstr := lit ".hook".

Definition strncmp (a b : cstr) (n : nat) : Z := strcmp (take n a) (take n b).
Definition hook_cmp (h1 h2 : hook) : Z :=
  let l1 := (length (h_name h1) - length SUFFIX)%nat in
  let l2 := (length (h_name h2) - length SUFFIX)%nat in
  let ret := strncmp (h_name h1) (h_name h2) (if (l1 <=? l2)%nat then l1 else l2) in
  if (ret =? 0) && negb (l1 =? l2)%nat then (if (l1 <? l2)%nat then -1 else 1) else ret.

Definition find_hook (haystack : list hook) (needle : cstr) : option hook :=
  find_first (fun h => strcmp (h_name h) needle =? 0) haystack.

(** [_klpm_hook_feed_targets]: what is written into the buffer and the targets
    left, the first one from where the buffer ended. *)
Fixpoint feed_targets (remaining : nat) (pos : list cstr) : cstr * list cstr :=
  match pos with
  | [] => ([], [])
  | s :: pos' =>
      if (length s + 1 <=? remaining)%nat then
        let '(buf, pos'') := feed_targets (remaining - (length s + 1)) pos' in (LocalDb.line_of s ++ buf, pos'')
      else if (remaining =? 0)%nat then ([], pos)
      else (take remaining s, drop remaining s :: pos')
  end.

(** [_klpm_strlist_dedup] *)
Fixpoint strlist_dedup (l : list cstr) : list cstr :=
  match l with
  | [] => []
  | x :: l' => match strlist_dedup l' with
               | y :: r => if strcmp x y =? 0 then x :: r else x :: y :: r
               | [] => [x]
               end
  end.

(** A file of a hook directory: what [stat] says (a directory or not) and its
    contents; and the directory, as [opendir] and [readdir] see it. *)
Record hfile := HFile { hf_name : cstr; hf_stat : option bool; hf_text : option (cstr * bool) }.
Inductive hdir := NoDir | DirError | Dir (l : list hfile) (read_error : bool).

Definition PATH_MAX : nat := 4096.

(** The body of the loop over a directory: the hooks, and [ret]. *)
Definition load_file (dirlen : nat) (s : list hook * Z) (f : hfile) : option (list hook * Z) :=
  let '(hooks, ret) := s in
  let n := hf_name f in
  if is_str n "." || is_str n ".." then Some s
  else if (PATH_MAX - dirlen <=? length n)%nat then Some (hooks, -1)
  else if (length n <? length SUFFIX)%nat || negb (strcmp (drop (length n - length SUFFIX) n) SUFFIX =? 0) then Some s
  else match find_hook hooks n with
       | Some _ => Some s
       | None =>
           match hf_stat f with
           | None => Some (hooks, -1)
           | Some true => Some s
           | Some false =>
               '(r, h) ← parse_ini hook_parse_cb (hf_text f) new_hook;
               if negb (r =? 0) || negb (hook_validate h =? 0) then Some (hooks, -1)
               else Some (hooks ++ [set_name h n], ret)
           end
       end.
Fixpoint load_files (dirlen : nat) (s : list hook * Z) (l : list hfile) : option (list hook * Z) :=
  match l with
  | [] => Some s
  | f :: l => s ← load_file dirlen s f; load_files dirlen s l
  end.
Definition load_dir (s : list hook * Z) (d : cstr * hdir) : option (list hook * Z) :=
  let dirlen := length d.1 in
  if (PATH_MAX <=? dirlen)%nat then Some (s.1, -1)
  else match d.2 with
       | NoDir => Some s
       | DirError => Some (s.1, -1)
       | Dir l read_error => s ← load_files dirlen s l; Some (if read_error then (s.1, -1) else s)
       end.
Fixpoint load_dirs (s : list hook * Z) (ds : list (cstr * hdir)) : option (list hook * Z) :=
  match ds with
  | [] => Some s
  | d :: ds => s ← load_dir s d; load_dirs s ds
  end.

Section Run.
Variables (fnmatch : cstr -> cstr -> Z) (noextract : list cstr) (oldpkg : pkg -> option pkg) (add remove : list pkg).
(** [handle->hookdirs], the packages of the local database, and running a
    command with its arguments and what is fed to its standard input. *)
Variables (hookdirs : list (cstr * hdir)) (local : list pkg).
Variable run_chroot : list cstr -> option (list cstr) -> Z.

(** [_klpm_hook_run_hook]; a hook without command is never run. *)
Definition hook_input (h : hook) : option (list cstr) :=
  if h_needs_targets h then Some (strlist_dedup (KList.list_msort strcmp (h_matches h))) else None.
Definition hook_run_hook (h : hook) : option Z :=
  if forallb (fun d => match Deps.find_satisfier local d with Some _ => true | None => false end) (h_depends h)
  then cmd ← h_cmd h; Some (run_chroot cmd (hook_input h))
  else Some (-1).

(** The hooks that apply, in order. *)
Fixpoint collect (when : hook_when) (hooks : list hook) : option (list hook) :=
  match hooks with
  | [] => Some []
  | h :: hooks =>
      if bool_decide (h_when h = Some when) then
        '(b, h) ← hook_triggered fnmatch noextract oldpkg add remove h;
        r ← collect when hooks;
        Some (if b : bool then h :: r else r)
      else collect when hooks
  end.
(** The loop that runs them: [ret] and the hooks that were started. *)
Fixpoint run_hooks (when : hook_when) (hooks : list hook) (ret : Z) : option (Z * list hook) :=
  match hooks with
  | [] => Some (ret, [])
  | h :: hooks =>
      r ← hook_run_hook h;
      let ret := if negb (r =? 0) && h_abort_on_fail h then -1 else ret in
      if negb (ret =? 0) && bool_decide (when = PRE_TRANSACTION) then Some (ret, [h])
      else '(ret, ran) ← run_hooks when hooks ret; Some (ret, h :: ran)
  end.

(** [_klpm_hook_run] *)
Definition hook_run (when : hook_when) : option (Z * list hook) :=
  '(hooks, ret) ← load_dirs ([], 0) (reverse hookdirs);
  if negb (ret =? 0) && bool_decide (when = PRE_TRANSACTION) then Some (ret, [])
  else
    triggered ← collect when (KList.list_msort hook_cmp hooks);
    run_hooks when triggered ret.
End Run.

(** ** Targets on the standard input *)

(** Feeding with buffers of the sizes [ns]. *)
Fixpoint feed_all (ns : list nat) (pos : list cstr) : cstr * list cstr :=
  match ns with
  | [] => ([], pos)
  | n :: ns => let '(buf, pos) := feed_targets n pos in let '(rest, pos) := feed_all ns pos in (buf ++ rest, pos)
  end.
Lemma feed_targets_stream n pos : let '(buf, pos') := feed_targets n pos in
  buf ++ (pos' ≫= LocalDb.line_of) = pos ≫= LocalDb.line_of /\ (length buf <= n)%nat /\ (pos' <> [] -> length buf = n).
Proof.
  revert n. induction pos as [|s pos IH]; intros n; cbn [feed_targets]; [split_and!; [done|simpl; lia|done]|].
  destruct (Nat.leb_spec (length s + 1) n) as [Hle|Hgt].
  - specialize (IH (n - (length s + 1))%nat). destruct (feed_targets (n - (length s + 1)) pos) as [buf pos'].
    destruct IH as (H1 & H2 & H3). cbn [mbind list_bind]. split_and!.
    + by rewrite <- H1, app_assoc.
    + rewrite length_app, LocalDb.line_length. lia.
    + intros Hp. rewrite length_app, LocalDb.line_length, (H3 Hp). lia.
  - destruct (Nat.eqb_spec n 0) as [->|Hn]; [split_and!; [done|simpl; lia|done]|]. cbn [mbind list_bind]. split_and!.
    + unfold LocalDb.line_of. by rewrite !app_assoc, take_drop.
    + rewrite length_take. lia.
    + rewrite length_take. lia.
Qed.

(** Feeding the targets of a hook to its standard input loses and repeats
    nothing, whatever the sizes of the buffers: what has been written, followed
    by the lines of the targets left, is the text of all targets, one per line;
    a call never writes more than the buffer holds, and fills it while targets
    are left. *)
Theorem feed_targets_spec ns n pos :
  (let '(text, pos') := feed_all ns pos in text ++ (pos' ≫= LocalDb.line_of) = pos ≫= LocalDb.line_of) /\
  (let '(buf, pos') := feed_targets n pos in (length buf <= n)%nat /\ (pos' <> [] -> length buf = n)).
Proof.
  split.
  - revert pos. induction ns as [|m ns IH]; intros pos; cbn [feed_all]; [done|]. pose proof (feed_targets_stream m pos) as H.
    destruct (feed_targets m pos) as [buf p1]. destruct H as (H & _). specialize (IH p1). destruct (feed_all ns p1) as [rest p2].
    by rewrite <- app_assoc, IH.
  - pose proof (feed_targets_stream n pos) as H. destruct (feed_targets n pos) as [buf pos']. tauto.
Qed.

(** ** The order of the hooks *)

(** The name of a hook without the suffix. *)
Definition stem (h : hook) : cstr := take (length (h_name h) - length SUFFIX) (h_name h).
Lemma strcmp_min a b : strcmp a b =
  let r := strcmp (take (min (length a) (length b)) a) (take (min (length a) (length b)) b) in
  if (r =? 0) && negb (length a =? length b)%nat then (if (length a <? length b)%nat then -1 else 1) else r.
Proof.
  revert b. induction a as [|x a IH]; intros [|y b]; try done. cbn [length Nat.min take strcmp]. rewrite (IH b).
  destruct (uchar x <? uchar y); [done|]. destruct (uchar y <? uchar x); done.
Qed.
Lemma hook_cmp_stem h1 h2 : hook_cmp h1 h2 = strcmp (stem h1) (stem h2).
Proof.
  rewrite strcmp_min. unfold hook_cmp, stem, strncmp. set (l1 := (length (h_name h1) - _)%nat). set (l2 := (length (h_name h2) - _)%nat).
  rewrite !length_take, !take_take. replace (min l1 (length (h_name h1))) with l1 by lia. replace (min l2 (length (h_name h2))) with l2 by lia.
  replace (if (l1 <=? l2)%nat then l1 else l2) with (min l1 l2) by (destruct (Nat.leb_spec l1 l2); lia).
  by replace (min (min l1 l2) l1) with (min l1 l2) by lia; replace (min (min l1 l2) l2) with (min l1 l2) by lia.
Qed.
#[global] Instance hook_cmp_order : CmpOrder hook_cmp.
Proof.
  destruct (cmp_order_proj stem strcmp _) as [H1 H2 H3]. split; intros *; rewrite !hook_cmp_stem; [apply H1|apply H2|apply H3].
Qed.

(** ** Which hooks are loaded *)

(** The file of a directory of path length [dirlen] defines the hook. *)
Definition loads (dirlen : nat) (f : hfile) (h : hook) : Prop :=
  is_str (hf_name f) "." || is_str (hf_name f) ".." = false /\ (length (hf_name f) < PATH_MAX - dirlen)%nat /\
  (length SUFFIX <= length (hf_name f))%nat /\ drop (length (hf_name f) - length SUFFIX) (hf_name f) = SUFFIX /\ hf_stat f = Some false /\
  exists h0, parse_ini hook_parse_cb (hf_text f) new_hook = Some (0, h0) /\ hook_validate h0 = 0 /\ h = set_name h0 (hf_name f).
Definition offers (d : cstr * hdir) (h : hook) : Prop :=
  (length d.1 < PATH_MAX)%nat /\ exists l e f, d.2 = Dir l e /\ f ∈ l /\ loads (length d.1) f h.

(** What is assumed of the files: every one is parsed without a null pointer (a
    directive without a value crashes, [valueless_directive_crashes]) and none of its
    targets is null, and a directory has each name once. *)
Definition file_ok (f : hfile) : Prop := exists r h, parse_ini hook_parse_cb (hf_text f) new_hook = Some (r, h) /\ Forall valued (h_triggers h).
Definition dir_ok (d : cstr * hdir) : Prop :=
  match d.2 with Dir l _ => Forall file_ok l /\ NoDup (hf_name <$> l) | _ => True end.

(** What makes loading fail: a path that is too long, a hook file that cannot be
    examined, parsed or is not valid and whose name is still [free], a directory that
    cannot be read. *)
Definition long_file (dirlen : nat) (f : hfile) : Prop :=
  is_str (hf_name f) "." || is_str (hf_name f) ".." = false /\ (PATH_MAX - dirlen <= length (hf_name f))%nat.
Definition bad_file (dirlen : nat) (f : hfile) : Prop :=
  is_str (hf_name f) "." || is_str (hf_name f) ".." = false /\ (length (hf_name f) < PATH_MAX - dirlen)%nat /\
  (length SUFFIX <= length (hf_name f))%nat /\ drop (length (hf_name f) - length SUFFIX) (hf_name f) = SUFFIX /\
  (hf_stat f = None \/ hf_stat f = Some false /\
     forall h, parse_ini hook_parse_cb (hf_text f) new_hook = Some (0, h) -> hook_validate h <> 0).
Definition file_trouble (dirlen : nat) (free : cstr -> Prop) (f : hfile) : Prop :=
  long_file dirlen f \/ bad_file dirlen f /\ free (hf_name f).
Definition dir_trouble (free : cstr -> Prop) (d : cstr * hdir) : Prop :=
  (PATH_MAX <= length d.1)%nat \/ d.2 = DirError \/
  exists l e, d.2 = Dir l e /\ (e = true \/ Exists (file_trouble (length d.1) free) l).

Notation hook_names l := (h_name <$> l).
Lemma find_hook_None hooks n : find_hook hooks n = None <-> n ∉ hook_names hooks.
Proof.
  unfold find_hook. rewrite find_first_None. split.
  - intros H (h & -> & Hh)%list_elem_of_fmap. specialize (H h Hh). by rewrite strcmp_refl in H.
  - intros H h Hh. apply Z.eqb_neq. intros E%strcmp_eq. apply H. rewrite <- E. by apply list_elem_of_fmap_2.
Qed.

Lemma load_file_spec dirlen s f : file_ok f -> (s.2 = 0 \/ s.2 = -1) ->
  exists new ret, load_file dirlen s f = Some (s.1 ++ new, ret) /\ (ret = 0 \/ ret = -1) /\
    (ret = -1 <-> s.2 = -1 \/ file_trouble dirlen (fun n => n ∉ hook_names s.1) f) /\
    (forall h, h ∈ new <-> loads dirlen f h /\ hf_name f ∉ hook_names s.1) /\ (length new <= 1)%nat.
Proof.
  intros (r & h & Hparse & Hv) Hret. destruct s as [hooks ret]. cbn [fst snd] in *. unfold load_file.
  set (free := fun n => n ∉ hook_names hooks).
  assert (forall ret', ret' = ret /\ ~ file_trouble dirlen free f \/ ret' = -1 /\ file_trouble dirlen free f ->
    (forall h', loads dirlen f h' -> hf_name f ∉ hook_names hooks -> False) ->
    exists new ret0, Some (hooks, ret') = Some (hooks ++ new, ret0) /\ (ret0 = 0 \/ ret0 = -1) /\
    (ret0 = -1 <-> ret = -1 \/ file_trouble dirlen free f) /\
    (forall h, h ∈ new <-> loads dirlen f h /\ hf_name f ∉ hook_names hooks) /\ (length new <= 1)%nat) as Hno.
  { intros ret' Hr Hl. exists [], ret'. rewrite app_nil_r. split_and!; [done|destruct Hr as [[-> _]|[-> _]]; auto|destruct Hr as [[-> ?]|[-> ?]]; tauto| |simpl; lia].
    intros h'. split; [by intros ?%elem_of_nil|]. intros [? ?]. by exfalso; eapply Hl. }
  destruct (is_str (hf_name f) "." || is_str (hf_name f) "..") eqn:E1; [apply Hno; [left; split; [done|]; unfold file_trouble, long_file, bad_file; intros [[? _]|[[? _] _]]; congruence|]; intros ? (H & _) _; congruence|].
  destruct (Nat.leb_spec (PATH_MAX - dirlen) (length (hf_name f))) as [E2|E2]; [apply Hno; [right; split; [done|unfold file_trouble, long_file, bad_file; by left]|]; unfold loads; intros ? (_ & ? & _); lia|].
  destruct (Nat.ltb_spec (length (hf_name f)) (length SUFFIX)) as [E3|E3]; cbn [orb].
  { apply Hno; [left; split; [done|]; unfold file_trouble, long_file, bad_file; intros [[_ ?]|[(_ & _ & ? & _) _]]; lia|]; unfold loads; intros ? (_ & _ & ? & _); lia. }
  destruct (Z.eqb_spec (strcmp (drop (length (hf_name f) - length SUFFIX) (hf_name f)) SUFFIX) 0) as [E4|E4]; cbn [negb]; rewrite strcmp_eq in E4;
    [|apply Hno; [left; split; [done|]; unfold file_trouble, long_file, bad_file; intros [[_ ?]|[(_ & _ & _ & ? & _) _]]; [lia|done]|]; unfold loads; by intros ? (_ & _ & _ & ? & _)].
  destruct (find_hook hooks (hf_name f)) eqn:E5.
  { assert (~ free (hf_name f)) as Hnf by (intros H; apply find_hook_None in H; congruence).
    apply Hno; [left; split; [done|]; unfold file_trouble, long_file, bad_file; intros [[_ ?]|[_ ?]]; [lia|done]|]. intros ? _ H. by apply Hnf. }
  apply find_hook_None in E5. destruct (hf_stat f) as [[]|] eqn:E6.
  { apply Hno; [left; split; [done|]; unfold file_trouble, long_file, bad_file; rewrite E6; intros [[_ ?]|[(_ & _ & _ & _ & [[=]|[[=] _]]) _]]; lia|]. intros ? (_ & _ & _ & _ & H & _) _; congruence. }
  2: { apply Hno; [right; split; [done|unfold file_trouble, long_file, bad_file; right; by split_and!; [..|left|]]|]; intros ? (_ & _ & _ & _ & H & _) _; congruence. }
  rewrite Hparse. cbn [mbind option_bind]. destruct (Z.eqb_spec r 0) as [->|Er]; cbn [negb orb].
  2: { apply Hno; [right; split; [done|unfold file_trouble, long_file, bad_file; right; split; [split_and!; [done..|right]|done]]; split; [done|]; intros; congruence|].
       unfold loads. intros ? (_ & _ & _ & _ & _ & h0 & ? & _). congruence. }
  destruct (Z.eqb_spec (hook_validate h) 0) as [Ev|Ev]; cbn [negb].
  2: { apply Hno; [right; split; [done|unfold file_trouble, long_file, bad_file; right; split; [split_and!; [done..|right]|done]]; split; [done|]; intros; congruence|].
       unfold loads. intros ? (_ & _ & _ & _ & _ & h0 & ? & ? & _). congruence. }
  exists [set_name h (hf_name f)], ret. split_and!; [done|done| | |done].
  - split; [by left|]. unfold file_trouble, long_file, bad_file. rewrite E6. intros [?|[[_ ?]|[(_ & _ & _ & _ & [[=]|[_ Hx]]) _]]]; [done|lia|]. by destruct (Hx h).
  - intros h'. rewrite list_elem_of_singleton. unfold loads. split.
    + intros ->. split_and!; try done. by exists h.
    + intros ((_ & _ & _ & _ & _ & h0 & ? & _ & ->) & _). congruence.
Qed.

Lemma loads_name dirlen f h : loads dirlen f h -> h_name h = hf_name f.
Proof. by intros (_ & _ & _ & _ & _ & h0 & _ & _ & ->). Qed.
Lemma names_app hooks new h : h_name h ∉ hook_names (hooks ++ new) <-> h_name h ∉ hook_names hooks /\ h_name h ∉ hook_names new.
Proof. rewrite fmap_app, elem_of_app. tauto. Qed.

(** The result of loading from a state: new hooks after the old ones, and an error
    when there was one or when [T] of the names that are taken. *)
Definition grows (P : hook -> Prop) (T : (cstr -> Prop) -> Prop) (s : list hook * Z) (r : option (list hook * Z)) : Prop :=
  exists new ret, r = Some (s.1 ++ new, ret) /\ (ret = 0 \/ ret = -1) /\ (ret = -1 <-> s.2 = -1 \/ T (fun n => n ∉ hook_names s.1)) /\
    (forall h, h ∈ new <-> P h /\ h_name h ∉ hook_names s.1) /\ (NoDup (hook_names s.1) -> NoDup (hook_names (s.1 ++ new))).

Lemma load_files_spec dirlen l s : Forall file_ok l -> NoDup (hf_name <$> l) -> (s.2 = 0 \/ s.2 = -1) ->
  grows (fun h => exists f, f ∈ l /\ loads dirlen f h) (fun free => Exists (file_trouble dirlen free) l) s (load_files dirlen s l).
Proof.
  intros Hl. revert s. induction Hl as [|f l Hf Hl IH]; intros s Hnd Hret; cbn [load_files].
  { exists [], s.2. rewrite app_nil_r. split_and!; [by destruct s|done|rewrite Exists_nil; tauto| |done].
    intros h. split; [by intros ?%elem_of_nil|]. by intros [(f & ?%elem_of_nil & _) _]. }
  apply NoDup_cons in Hnd as [Hfl Hnd]. destruct (load_file_spec dirlen s f Hf Hret) as (new & ret & -> & Hr & Ht & Hnew & Hlen). cbn [mbind option_bind].
  destruct (IH (s.1 ++ new, ret) Hnd Hr) as (new' & ret' & -> & Hr' & Ht' & Hnew' & Hnd'). cbn [fst snd] in *.
  assert (forall n, n ∈ hook_names new -> n = hf_name f) as Hnn
    by (intros n (h & -> & Hh)%list_elem_of_fmap; apply Hnew in Hh as [Hld _]; by apply loads_name in Hld).
  exists (new ++ new'), ret'. rewrite app_assoc. split_and!; [done|done| | |].
  - rewrite Ht', Ht, Exists_cons. rewrite !Exists_exists. split.
    + intros [[?|?]|(g & Hg & [?|[Hb Hn]])]; [auto..| |]; right; right; exists g; (split; [done|]); [by left|right]. split; [done|]. set_solver.
    + intros [?|[?|(g & Hg & [?|[Hb Hn]])]]; [auto..| |]; right; exists g; (split; [done|]); [by left|right]. split; [done|].
      rewrite fmap_app, elem_of_app. intros [?|Hin%Hnn]; [done|]. apply Hfl. rewrite <- Hin. by apply list_elem_of_fmap_2.
  - intros h. rewrite elem_of_app, Hnew, Hnew', names_app. split.
    + intros [[Hld Hn]|[(g & Hg & Hld) [Hn _]]]; [|split; [exists g; set_solver|done]].
      split; [exists f; set_solver|]. by rewrite (loads_name _ _ _ Hld).
    + intros [(g & [->|Hg]%elem_of_cons & Hld) Hn]; [left; by rewrite <- (loads_name _ _ _ Hld)|right].
      split; [eauto|]. split; [done|]. intros Hin%Hnn. apply loads_name in Hld. apply Hfl. rewrite <- Hin, Hld. by apply list_elem_of_fmap_2.
  - intros Hn. apply Hnd'. rewrite fmap_app. apply NoDup_app. split_and!; [done| |destruct new as [|? [|]]; [constructor|apply NoDup_singleton|simpl in Hlen; lia]].
    intros n Hn1 (h & -> & Hh)%list_elem_of_fmap. apply Hnew in Hh as [Hld Hn2]. by rewrite <- (loads_name _ _ _ Hld) in Hn2.
Qed.

Lemma load_dir_spec d s : dir_ok d -> (s.2 = 0 \/ s.2 = -1) -> grows (offers d) (fun free => dir_trouble free d) s (load_dir s d).
Proof.
  intros Hd Hret. unfold load_dir. set (free := fun n => n ∉ hook_names s.1).
  assert (forall ret, ret = s.2 /\ ~ dir_trouble free d \/ ret = -1 /\ dir_trouble free d -> (forall h, ~ offers d h) ->
    grows (offers d) (fun free => dir_trouble free d) s (Some (s.1, ret))) as Hno.
  { intros ret Hr Hn. exists [], ret. rewrite app_nil_r. split_and!; [done|destruct Hr as [[-> _]|[-> _]]; auto|fold free; destruct Hr as [[-> ?]|[-> ?]]; tauto| |done]. set_solver. }
  unfold dir_trouble in *.
  destruct (Nat.leb_spec PATH_MAX (length d.1)) as [Hp|Hp]; [apply Hno; [by right; split; [|left]|]; intros h [? _]; lia|].
  unfold dir_ok in Hd. unfold offers in *. destruct (d.2) as [| |l e] eqn:El.
  - replace s with (s.1, s.2) at 2 by by destruct s. apply Hno; [left; split; [done|]; intros [?|[[=]|(? & ? & [=] & _)]]; lia|]. naive_solver.
  - apply Hno; [right; split; [done|by right; left]|]. naive_solver.
  - destruct Hd as [Hf Hnd]. destruct (load_files_spec (length d.1) l s Hf Hnd Hret) as (new & ret & -> & Hr & Ht & Hnew & Hnd'). cbn [mbind option_bind].
    exists new, (if e then -1 else ret). split_and!; [by destruct e|destruct e; auto| | |done].
    + fold free in Ht |- *. destruct e; [split; [intros _; right; right; right; by exists l, true; split; [|left]|done]|]. rewrite Ht. split.
      * intros [?|?]; [by left|right; right; right]. exists l, false. split; [done|by right].
      * intros [?|[?|[[=]|(l' & e' & [= <- <-] & [[=]|?])]]]; [by left|lia|by right].
    + intros h. rewrite Hnew. split; [intros [(f & Hfl & Hld) ?]; eauto 8|]. intros [(_ & l' & e' & f & [= <- <-] & Hfl & Hld) ?]. eauto.
Qed.

(** Offered by one of the directories, and by none before it. *)
Definition first_offer (ds : list (cstr * hdir)) (h : hook) : Prop :=
  exists l1 d l2, ds = l1 ++ d :: l2 /\ offers d h /\ forall d' h', d' ∈ l1 -> offers d' h' -> h_name h' <> h_name h.
Lemma first_offer_cons d ds h : first_offer (d :: ds) h <-> offers d h \/ first_offer ds h /\ forall h', offers d h' -> h_name h' <> h_name h.
Proof.
  split.
  - intros ([|d0 l1] & d1 & l2 & [= -> E] & Ho & Hn); [by left|right].
    split; [exists l1, d1, l2; split_and!; [done|done|]; intros d' h' Hd'; apply Hn; by right|]. intros h'. apply Hn. by left.
  - intros [Ho|[(l1 & d1 & l2 & -> & Ho & Hn) Hd]]; [exists [], d, ds; split_and!; [done|done|by intros ? ? ?%elem_of_nil]|].
    exists (d :: l1), d1, l2. split_and!; [done|done|]. intros d' h' [->|H]%elem_of_cons; eauto.
Qed.
(** Loading from the directories, in this order, fails: in one of them there is a
    trouble that concerns no name a directory before it has offered a hook for. *)
Definition trouble (free : cstr -> Prop) (ds : list (cstr * hdir)) : Prop :=
  exists l1 d l2, ds = l1 ++ d :: l2 /\
    dir_trouble (fun n => free n /\ forall d' h', d' ∈ l1 -> offers d' h' -> h_name h' <> n) d.
Lemma dir_trouble_mono (free free' : cstr -> Prop) d : (forall n, free n -> free' n) -> dir_trouble free d -> dir_trouble free' d.
Proof.
  intros Hm [?|[?|(l & e & E & H)]]; [by left|by right; left|right; right]. exists l, e. split; [done|]. destruct H as [?|H]; [by left|right].
  eapply Exists_impl; [exact H|]. intros f [?|[? ?]]; [by left|right; auto].
Qed.
Lemma trouble_cons free d ds : trouble free (d :: ds) <-> dir_trouble free d \/ trouble (fun n => free n /\ forall h', offers d h' -> h_name h' <> n) ds.
Proof.
  split.
  - intros ([|d0 l1] & d1 & l2 & [= <- E] & Ht); [left; eapply dir_trouble_mono; [|exact Ht]; by intros n [? _]|right].
    exists l1, d1, l2. split; [done|]. eapply dir_trouble_mono; [|exact Ht]. intros n [? Hn]. split_and!; [done|intros h'; apply Hn; by left|].
    intros d' h' Hd'. apply Hn. by right.
  - intros [Ht|(l1 & d1 & l2 & -> & Ht)].
    + exists [], d, ds. split; [done|]. eapply dir_trouble_mono; [|exact Ht]. intros n ?. split; [done|]. by intros ? ? ?%elem_of_nil.
    + exists (d :: l1), d1, l2. split; [done|]. eapply dir_trouble_mono; [|exact Ht]. intros n [[? Hn1] Hn2]. split; [done|].
      intros d' h' [->|Hin]%elem_of_cons; eauto.
Qed.
Lemma trouble_ext (free free' : cstr -> Prop) ds : (forall n, free n <-> free' n) -> trouble free ds -> trouble free' ds.
Proof.
  intros Hm (l1 & d & l2 & E & Ht). exists l1, d, l2. split; [done|]. eapply dir_trouble_mono; [|exact Ht]. intros n [? ?]. split; [by apply Hm|done].
Qed.

Lemma load_dirs_spec ds s : Forall dir_ok ds -> (s.2 = 0 \/ s.2 = -1) -> grows (first_offer ds) (fun free => trouble free ds) s (load_dirs s ds).
Proof.
  intros Hds. revert s. induction Hds as [|d ds Hd Hds IH]; intros s Hret; cbn [load_dirs].
  { exists [], s.2. rewrite app_nil_r. split_and!; [by destruct s|done| | |done].
    - split; [by left|]. intros [?|(l1 & ? & ? & E & _)]; [done|by destruct l1].
    - intros h. split; [by intros ?%elem_of_nil|]. intros [(l1 & ? & ? & E & _) _]. by destruct l1. }
  destruct (load_dir_spec d s Hd Hret) as (new & ret & -> & Hr & Ht & Hnew & Hnd). cbn [mbind option_bind].
  destruct (IH (s.1 ++ new, ret) Hr) as (new' & ret' & -> & Hr' & Ht' & Hnew' & Hnd'). cbn [fst snd] in *.
  assert (forall n, n ∉ hook_names (s.1 ++ new) <-> n ∉ hook_names s.1 /\ forall h', offers d h' -> h_name h' <> n) as Hfree.
  { intros n. rewrite fmap_app, elem_of_app. split.
    - intros Hn. split; [tauto|]. intros h' Ho <-. apply Hn. right. apply list_elem_of_fmap_2, Hnew. split; [done|tauto].
    - intros [Hn Ho] [?|(h & -> & [? _]%Hnew)%list_elem_of_fmap]; [done|]. by apply (Ho h). }
  exists (new ++ new'), ret'. rewrite app_assoc. split_and!; [done|done| | |tauto].
  - rewrite Ht', Ht, trouble_cons. split.
    + intros [[?|?]|H]; [auto..|]. right; right. eapply trouble_ext; [|exact H]. exact Hfree.
    + intros [?|[?|H]]; [auto..|]. right. eapply trouble_ext; [|exact H]. intros n. by rewrite Hfree.
  - intros h. rewrite elem_of_app, Hnew, Hnew', first_offer_cons, Hfree. split.
    + intros [[Ho Hn]|[Hfo [Hn1 Hn2]]]; [by split; [left|]|]. by split; [right; split|].
    + intros [[Ho|[Hfo Hd']] Hn]; [by left|by right; split_and!].
Qed.

(** ** Parsing a hook file *)

(** Every directive has a value, except for the two flags. *)
Definition with_value (ev : event) : Prop :=
  match ev_key ev with Some k => is_str k "AbortOnFail" || is_str k "NeedsTargets" = true \/ is_Some (ev_value ev) | None => True end.

Definition hook_sane (section : option cstr) (h : hook) : Prop :=
  Forall valued (h_triggers h) /\ h_matches h = [] /\ (section = Some (lit "Trigger") -> h_triggers h <> []).

Lemma is_str_eq s l : is_str s l = true <-> s = lit l.
Proof. unfold is_str. by rewrite Z.eqb_eq, strcmp_eq. Qed.
Lemma is_str_other s l l' : is_str s l = true -> lit l <> lit l' -> is_str s l' = false.
Proof. intros H%is_str_eq Hne. subst. apply not_true_iff_false. by rewrite is_str_eq. Qed.

Lemma trigger_option_sane k v t : valued t -> is_Some v -> exists r t', trigger_option k v t = Some (r, t') /\ valued t'.
Proof.
  intros Ht [x ->]. unfold trigger_option. cbn [mbind option_bind].
  repeat match goal with |- context [if ?b then _ else _] => destruct b end; eexists _, _; (split; [done|]); try exact Ht.
  unfold valued in *. cbn [t_targets]. apply Forall_app. split; [done|]. by repeat constructor.
Qed.
Lemma trigger_section_sane h k v section : hook_sane (Some (lit "Trigger")) h -> is_Some v ->
  exists r h', update_last h (trigger_option k v) = Some (r, h') /\ hook_sane section h'.
Proof.
  intros (Hv & Hm & Hne) Hs. specialize (Hne eq_refl). unfold update_last. destruct (last (h_triggers h)) as [t|] eqn:E; [|by apply last_None in E].
  assert (valued t) as Ht by (rewrite Forall_forall in Hv; apply Hv; apply last_Some in E as [l ->]; set_solver). cbn [mbind option_bind].
  destruct (trigger_option_sane k v t Ht Hs) as (r & t' & -> & Ht'). cbn [mbind option_bind]. eexists _, _. split; [done|].
  split; [|split; [done|]]; cbn [h_triggers set_triggers]; [|by destruct (take _ _)]. apply Forall_app. split; [by apply Forall_take|by repeat constructor].
Qed.
Lemma action_option_sane h k v section : hook_sane section h ->
  is_str k "AbortOnFail" || is_str k "NeedsTargets" = true \/ is_Some v ->
  exists r h', action_option k v h = Some (r, h') /\ hook_sane section h'.
Proof.
  intros Hh Hk. unfold action_option.
  destruct (is_str k "When") eqn:E1; [|destruct (is_str k "Description"); [by eexists _, _|destruct (is_str k "Depends"); [by eexists _, _|
    destruct (is_str k "AbortOnFail"); [by eexists _, _|destruct (is_str k "NeedsTargets"); [by eexists _, _|destruct (is_str k "Exec"); [|by eexists _, _]]]]]].
  - destruct Hk as [H|[x ->]]; [by rewrite !(is_str_other _ _ _ E1) in H by done|]. cbn [mbind option_bind]. destruct (is_str x _); [by eexists _, _|destruct (is_str x _); by eexists _, _].
  - destruct Hk as [|[x ->]]; [done|]. cbn [mbind option_bind]. unfold Util.wordsplit.
    destruct (Util.wordsplit_loop_total (length (span isspace x).2) (span isspace x).2) as [[ws|] E]; [done|rewrite E..]; cbn [mbind option_bind]; by eexists _, _.
Qed.

Lemma parse_lines_sane lines section h : hook_sane section h -> Forall with_value (events section lines) ->
  exists r h', run hook_parse_cb (events section lines) h = Some (r, h') /\ Forall valued (h_triggers h') /\ h_matches h' = [].
Proof.
  revert section h. induction lines as [|line lines IH]; intros section h Hh Hev; cbn [events run] in *; [destruct Hh as (? & ? & _); by eexists _, _|].
  assert (forall r h1 section', hook_sane section' h1 -> Forall with_value (events section' lines) ->
    exists r' h', (if r =? 0 then run hook_parse_cb (events section' lines) h1 else Some (r, h1)) = Some (r', h') /\ Forall valued (h_triggers h') /\ h_matches h' = []) as Hgo.
  { intros r h1 section' H1 H2. destruct (r =? 0); [by apply IH|]. destruct H1 as (? & ? & _). by eexists _, _. }
  destruct (classify line) as [|n|k v]; [by apply IH| |]; inversion Hev as [|? ? Hv Hev']; subst; cbn [run hook_parse_cb ev_section ev_key ev_value].
  - destruct Hh as (Hv1 & Hm & Hs). destruct (is_str n "Trigger") eqn:Et; cbn [mbind option_bind].
    + apply Hgo; [|done]. split; [|split; [done|intros _; cbn [h_triggers set_triggers]; by destruct (h_triggers h)]].
      cbn [h_triggers set_triggers]. apply Forall_app. split; [done|]. by repeat constructor.
    + assert (hook_sane (Some n) h) as Hsn by (split_and!; [done|done|]; intros [= ->]; by rewrite (proj2 (is_str_eq _ "Trigger")) in Et).
      destruct (is_str n "Action"); cbn [mbind option_bind]; by apply Hgo.
  - destruct section as [sec|]; cbn [hook_parse_cb ev_section ev_key ev_value mbind option_bind]; [|by apply (Hgo 1)].
    unfold with_value in Hv. cbn [ev_key ev_value] in Hv. destruct (is_str sec "Trigger") eqn:Et.
    + apply is_str_eq in Et as ->. destruct v as [v|].
      * destruct (trigger_section_sane h k (Some v) (Some (lit "Trigger")) Hh) as (r & h1 & -> & H1); [done|]. cbn [mbind option_bind]. by apply Hgo.
      * destruct Hv as [Hf|[? ?]]; [|done]. unfold update_last. destruct (last (h_triggers h)) as [t|] eqn:El; [|apply last_None in El; destruct Hh as (_ & _ & Hne); by destruct (Hne eq_refl)].
        cbn [mbind option_bind]. unfold trigger_option. apply orb_true_iff in Hf.
        assert (is_str k "Operation" = false /\ is_str k "Type" = false /\ is_str k "Target" = false) as (-> & -> & ->) by (destruct Hf as [Hf|Hf]; split_and!; by eapply is_str_other).
        cbn [mbind option_bind]. apply last_Some in El as [ts El]. rewrite El, length_app. cbn [length]. replace (length ts + 1 - 1)%nat with (length ts) by lia. rewrite take_app_length.
        apply (Hgo 1); [|done]. rewrite <- El. replace (set_triggers h (h_triggers h)) with h by by destruct h. done.
    + destruct (is_str sec "Action"); [|cbn [mbind option_bind]; by apply Hgo].
      destruct (action_option_sane h k v (Some sec) Hh Hv) as (r & h1 & -> & H1). cbn [mbind option_bind]. by apply Hgo.
Qed.

(** A hook file in which every directive has a value is parsed, and gives
    triggers without null targets. *)
Lemma hook_file_ok text fails : Forall with_value (events None (file_lines (S (length text)) (LocalDb.Stream text fails false))) ->
  exists r h, parse_ini hook_parse_cb (Some (text, fails)) new_hook = Some (r, h) /\ Forall valued (h_triggers h) /\ h_matches h = [].
Proof. intros H. unfold parse_ini. rewrite ini_loop_run by (simpl; lia). apply parse_lines_sane; [by split|done]. Qed.

(** A directive without an equals sign crashes the parser: the callback
    compares its NULL value. *)
Theorem valueless_directive_crashes :
  parse_ini hook_parse_cb (Some (print [(lit "Trigger", [(lit "Operation", None)])], false)) new_hook = None.
Proof. vm_compute. reflexivity. Qed.

(** ** Running *)

Section RunSpec.
Context (fnmatch : cstr -> cstr -> Z) (noextract : list cstr) (oldpkg : pkg -> option pkg) (add remove : list pkg).
Context (hookdirs : list (cstr * hdir)) (local : list pkg) (run_chroot : list cstr -> option (list cstr) -> Z).

Lemma StronglySorted_sublist {A} (R : relation A) l k : sublist l k -> StronglySorted R k -> StronglySorted R l.
Proof.
  induction 1 as [|x l k Hs IH|x l k Hs IH]; [done|..]; inversion 1; subst; [|by apply IH]. constructor; [by apply IH|].
  rewrite Forall_forall in *. intros y Hy. apply sublist_subseteq in Hs. auto.
Qed.

(** The hook is to be run now. *)
Definition applies (when : hook_when) (h : hook) : Prop :=
  h_when h = Some when /\ exists n, concerns fnmatch noextract oldpkg add remove (h_triggers h) n.
(** A hook as it was loaded, and with its targets. *)
Definition with_targets (h h' : hook) : Prop :=
  exists ms, h' = set_matches h ms /\
    (h_needs_targets h = true -> forall n, n ∈ ms <-> n ∈ h_matches h \/ concerns fnmatch noextract oldpkg add remove (h_triggers h) n).

Lemma collect_spec when hooks : Forall (fun h => Forall valued (h_triggers h)) hooks ->
  exists hs l, collect fnmatch noextract oldpkg add remove when hooks = Some l /\ sublist hs hooks /\ Forall2 with_targets hs l /\
    forall h, h ∈ hs <-> h ∈ hooks /\ applies when h.
Proof.
  induction 1 as [|h hooks Hv Hhs IH]; cbn [collect]; [exists [], []; split_and!; [done|constructor|constructor|set_solver]|].
  destruct IH as (hs & l & Hc & Hsub & Hf & Hm). rewrite Hc.
  assert (~ applies when h -> exists hs l', Some l = Some l' /\ sublist hs (h :: hooks) /\ Forall2 with_targets hs l' /\
    forall h', h' ∈ hs <-> h' ∈ h :: hooks /\ applies when h') as Hskip.
  { intros Hn. exists hs, l. split_and!; [done|by apply sublist_cons|done|]. intros h'. rewrite Hm, elem_of_cons. split; [tauto|]. intros [[->|?] ?]; tauto. }
  case_bool_decide as Ew; [|apply Hskip; by intros [? _]].
  destruct (triggered_loop_spec fnmatch noextract oldpkg add remove (h_needs_targets h) (h_triggers h) (h_matches h) false Hv) as (b & extra & Et & Hb & He).
  unfold hook_triggered. rewrite Et. cbn [mbind option_bind]. destruct b; [|apply Hskip; intros [_ Hx]; pose proof (proj2 Hb (or_intror Hx)); done].
  exists (h :: hs), (set_matches h (h_matches h ++ extra) :: l). split_and!; [done|by apply sublist_skip| |].
  - constructor; [|done]. eexists. split; [done|]. intros Hn n. rewrite Hn in He. by rewrite elem_of_app, He.
  - assert (applies when h) as Ha by (split; [done|]; by destruct (proj1 Hb eq_refl)). intros h'. rewrite !elem_of_cons, Hm. split; [|tauto]. intros [->|?]; tauto.
Qed.

(** The hook fails and asks to abort. *)
Definition aborts (h : hook) : bool := bool_decide (hook_run_hook local run_chroot h <> Some 0) && h_abort_on_fail h.
Lemma run_hooks_spec when hooks ret : Forall (fun h => is_Some (h_cmd h)) hooks -> (when = PRE_TRANSACTION -> ret = 0) -> (ret = 0 \/ ret = -1) ->
  exists ret' ran, run_hooks local run_chroot when hooks ret = Some (ret', ran) /\
    (ret' = 0 <-> ret = 0 /\ Forall (fun h => aborts h = false) hooks) /\ (ret' = 0 \/ ret' = -1) /\
    ((ran = hooks /\ (when = PRE_TRANSACTION -> ret' = 0)) \/
     (when = PRE_TRANSACTION /\ exists l h l', hooks = l ++ h :: l' /\ ran = l ++ [h] /\ aborts h = true /\ Forall (fun h => aborts h = false) l)).
Proof.
  intros Hc. revert ret. induction Hc as [|h hooks Hh Hhs IH]; intros ret Hpre Hr; cbn [run_hooks].
  { exists ret, []. split_and!; [done| |done|left; by split]. split; [|tauto]. intros ->. split; [done|constructor]. }
  assert (exists r, hook_run_hook local run_chroot h = Some r) as [r Er].
  { unfold hook_run_hook. destruct (forallb _ _); [|eauto]. destruct Hh as [cmd ->]. by eexists. }
  assert (negb (r =? 0) && h_abort_on_fail h = aborts h) as Ea.
  { unfold aborts. rewrite Er. f_equal. apply eq_true_iff_eq. rewrite negb_true_iff, Z.eqb_neq, bool_decide_eq_true. split; [congruence|]. intros H ->. by apply H. }
  rewrite Er. cbn [mbind option_bind]. rewrite Ea. destruct (aborts h) eqn:Eab.
  - change (negb (-1 =? 0)) with true. cbn [andb]. case_bool_decide as Ew.
    + exists (-1), [h]. split_and!; [done| |by right|]. { split; [done|]. intros [_ H]. inversion H. congruence. }
      right. split; [done|]. exists [], h, hooks. by split_and!.
    + destruct (IH (-1) ltac:(done) ltac:(by right)) as (ret' & ran & -> & Hz & Hr' & Hcase). cbn [mbind option_bind]. exists ret', (h :: ran).
      split_and!; [done| |done|]. { rewrite Hz. split; [by intros [? _]|]. intros [_ H]. inversion H. congruence. }
      destruct Hcase as [[-> _]|[? _]]; [|done]. left. by split.
  - assert (negb (ret =? 0) && bool_decide (when = PRE_TRANSACTION) = false) as ->.
    { case_bool_decide as Ew; [|by rewrite andb_false_r]. by rewrite (Hpre Ew). }
    destruct (IH ret Hpre Hr) as (ret' & ran & -> & Hz & Hr' & Hcase). cbn [mbind option_bind]. exists ret', (h :: ran).
    split_and!; [done| |done|]. { rewrite Hz, Forall_cons. tauto. }
    destruct Hcase as [[-> ?]|(Ew & l & x & l' & -> & -> & Hx & Hl)]; [by left|right]. split; [done|]. exists (h :: l), x, l'. split_and!; [done..|]. by constructor.
Qed.

Lemma loaded_cmd d h : offers d h -> h_triggers h <> [] -> is_Some (h_cmd h).
Proof.
  intros (_ & l & e & f & _ & _ & _ & _ & _ & _ & _ & h0 & _ & Hv & ->). cbn [h_triggers h_cmd set_name]. unfold hook_validate in Hv.
  destruct (h_triggers h0); [done|]. destruct (existsb _ _); [done|]. cbn [orb] in Hv. case_bool_decide as E; [done|]. intros _. by destruct (h_cmd h0); [|exfalso; apply E].
Qed.
Lemma loaded_valued d h : dir_ok d -> offers d h -> Forall valued (h_triggers h).
Proof.
  intros Hd (_ & l & e & f & El & Hf & _ & _ & _ & _ & _ & h0 & Ep & _ & ->). unfold dir_ok in Hd. rewrite El in Hd. destruct Hd as [Hd _].
  rewrite Forall_forall in Hd. destruct (Hd f Hf) as (r & h & E & Hv). rewrite Ep in E. by injection E as _ <-.
Qed.

(** C26: running the hooks ends, when no file of a hook directory has a directive
    without a value (those crash the parser) and each directory has each name once.  Of several
    files of the same name the one in the last hook directory that offers a valid hook
    is used, and only that one.  There is an error when a hook directory cannot be read or a
    path is too long, or when a hook file whose name no later directory offers a hook for
    cannot be examined, parsed or validated: then no pre-transaction hook is run and the
    result is -1.  Otherwise, and always after the transaction, the hooks that apply
    are run in the order of their names, each with its targets, all of them, except
    that a failing pre-transaction hook with AbortOnFail is the last one; the result is
    0 exactly if no hook with AbortOnFail failed and there was no such error. *)
Theorem hook_run_spec when (Hd : Forall dir_ok hookdirs) :
  let failed := trouble (fun _ => True) (reverse hookdirs) in
  exists hooks ret ran, NoDup (h_name <$> hooks) /\ (forall h, h ∈ hooks <-> first_offer (reverse hookdirs) h) /\
    hook_run fnmatch noextract oldpkg add remove hookdirs local run_chroot when = Some (ret, ran) /\ (ret = 0 \/ ret = -1) /\
    (failed -> when = PRE_TRANSACTION -> ret = -1 /\ ran = []) /\
    (~ failed \/ when = POST_TRANSACTION ->
      exists hs l, StronglySorted (cmp_le hook_cmp) hs /\ (forall h, h ∈ hs <-> h ∈ hooks /\ applies when h) /\ Forall2 with_targets hs l /\
        (ret = 0 <-> ~ failed /\ Forall (fun h => aborts h = false) l) /\
        (ran = l \/ (when = PRE_TRANSACTION /\ exists a h b, l = a ++ h :: b /\ ran = a ++ [h] /\ aborts h = true))).
Proof.
  intros failed. assert (Forall dir_ok (reverse hookdirs)) as Hd' by by rewrite Forall_reverse.
  destruct (load_dirs_spec (reverse hookdirs) ([], 0) Hd' ltac:(by left)) as (hooks & err & El & Herr & Hfail & Hm & Hnd). cbn [fst snd app] in *.
  assert (err = -1 <-> failed) as Hfail'.
  { rewrite Hfail. split; [intros [[=]|H]|intros H; right]; (eapply trouble_ext; [|exact H]); intros n; pose proof (not_elem_of_nil n); tauto. }
  assert (err = 0 <-> ~ failed) as Hfail0 by (rewrite <- Hfail'; destruct Herr; lia). clear Hfail.
  exists hooks. unfold hook_run. rewrite El. cbn [mbind option_bind].
  assert (forall h, h ∈ hooks <-> first_offer (reverse hookdirs) h) as Hm' by (intros h; rewrite Hm; split; [tauto|]; split; [done|by apply not_elem_of_nil]).
  assert (forall h, h ∈ hooks -> exists d, d ∈ hookdirs /\ offers d h) as Hoff.
  { intros h (l1 & d & l2 & E & Ho & _)%Hm'. exists d. split; [|done]. apply elem_of_reverse. rewrite E. set_solver. }
  setoid_rewrite <- Hfail0. setoid_rewrite <- Hfail'.
  destruct (negb (err =? 0) && bool_decide (when = PRE_TRANSACTION)) eqn:Estop.
  { apply andb_true_iff in Estop as [Ee Ew%bool_decide_eq_true_1]. apply negb_true_iff, Z.eqb_neq in Ee. subst when. exists err, []. destruct Herr as [-> | ->]; [done|].
    split_and!; [by apply Hnd; constructor|done|done|by right|done|]. by intros [?|?]. }
  destruct (collect_spec when (KList.list_msort hook_cmp hooks)) as (hs & l & -> & Hsub & Hf & Happ).
  { apply Forall_forall. intros h Hh. rewrite (KList.list_msort_perm hook_cmp hooks) in Hh. destruct (Hoff h Hh) as (d & Hdm & Ho). rewrite Forall_forall in Hd. exact (loaded_valued d h (Hd d Hdm) Ho). }
  assert (forall h, h ∈ hs <-> h ∈ hooks /\ applies when h) as Happ' by (intros h; rewrite Happ; by rewrite (KList.list_msort_perm hook_cmp hooks)).
  assert (Forall (fun h => is_Some (h_cmd h)) l) as Hcmd.
  { apply Forall_forall. intros h' Hh'. apply list_elem_of_lookup in Hh' as [i Hi]. destruct (Forall2_lookup_r _ _ _ _ _ Hf Hi) as (h & Hhi & ms & -> & _).
    cbn [h_cmd set_matches]. apply list_elem_of_lookup_2, Happ' in Hhi as [Hh (_ & n & t & Ht & _)]. destruct (Hoff h Hh) as (d & _ & Ho).
    apply (loaded_cmd d h Ho). intros E. rewrite E in Ht. by apply elem_of_nil in Ht. }
  cbn [mbind option_bind]. destruct (run_hooks_spec when l err Hcmd) as (ret & ran & -> & Hz & Hr & Hcase); [|tauto|].
  { intros ->. rewrite bool_decide_eq_true_2, andb_true_r in Estop by done. by apply negb_false_iff, Z.eqb_eq in Estop. }
  exists ret, ran. split_and!; [by apply Hnd; constructor|done|done|done| |].
  - intros He ->. rewrite bool_decide_eq_true_2, andb_true_r in Estop by done. apply negb_false_iff, Z.eqb_eq in Estop. congruence.
  - intros _. exists hs, l. split_and!; [|done|done|done|].
    + eapply StronglySorted_sublist; [exact Hsub|]. apply (KList.list_msort_sorted hook_cmp hooks).
    + destruct Hcase as [[-> _]|(Ew & a & h & b & E1 & E2 & Ha & _)]; [by left|right]. split; [done|]. by exists a, h, b.
Qed.
End RunSpec.

(** ** Witnesses *)

Definition ex_fnmatch (p s : cstr) : Z := strcmp p s.
Definition ex_new : pkg := mkpkg 1 (lit "foo") (lit "2-1").
Definition ex_old (p : pkg) : option pkg := Some (mkpkg 2 (lit "foo") (lit "1-1")).
Definition ex_hook : hook :=
  Hook (lit "a.hook") None [Trigger OP_UPGRADE (Some TYPE_PACKAGE) [Some (lit "foo")]] [] (Some [lit "/bin/true"]) [] (Some PRE_TRANSACTION) false true.
Lemma hook_triggered_witness :
  exists b ms, hook_triggered ex_fnmatch [] ex_old [ex_new] [] ex_hook = Some (b, set_matches ex_hook ms) /\ b = true /\ lit "foo" ∈ ms.
Proof.
  destruct (hook_triggered_spec ex_fnmatch [] ex_old [ex_new] [] ex_hook ltac:(by_decide)) as (b & ms & E & Hb & Hms). exists b, ms.
  assert (concerns ex_fnmatch [] ex_old [ex_new] [] (h_triggers ex_hook) (lit "foo")) as Hc.
  { exists (Trigger OP_UPGRADE (Some TYPE_PACKAGE) [Some (lit "foo")]). split; [by left|]. split; [reflexivity|]. left. exists ex_new. split_and!; [by left|reflexivity|reflexivity]. }
  split_and!; [exact E|apply Hb; by exists (lit "foo")|]. apply Hms. by right.
Defined.

Definition ex_text (abort : bool) : cstr :=
  print [(lit "Trigger", [(lit "Operation", Some (lit "Upgrade")); (lit "Type", Some (lit "Package")); (lit "Target", Some (lit "foo"))]);
         (lit "Action", [(lit "When", Some (lit "PreTransaction")); (lit "Exec", Some (lit "/bin/false"))] ++
            (if abort then [(lit "AbortOnFail", None)] else []))].
Definition ex_file (n : string) (abort : bool) : hfile := HFile (lit n) (Some false) (Some (ex_text abort, false)).
Definition ex_dirs : list (cstr * hdir) :=
  [(lit "/usr/hooks/", Dir [ex_file "b.hook" false; ex_file "a.hook" false] false); (lit "/etc/hooks/", Dir [ex_file "a.hook" true] false)].
Definition ex_parsed (abort : bool) : Z * hook := default (1, new_hook) (parse_ini hook_parse_cb (Some (ex_text abort, false)) new_hook).
Lemma ex_file_ok n abort : file_ok (ex_file n abort).
Proof. exists (ex_parsed abort).1, (ex_parsed abort).2. split; [by destruct abort; vm_compute|]. destruct abort; by_decide. Qed.
Lemma hook_run_witness :
  exists ret ran, hook_run ex_fnmatch [] ex_old [ex_new] [] ex_dirs [] (fun _ _ => 1) PRE_TRANSACTION = Some (ret, ran) /\
    ret = -1 /\ h_name <$> ran = [lit "a.hook"].
Proof.
  destruct (hook_run_spec ex_fnmatch [] ex_old [ex_new] [] ex_dirs [] (fun _ _ => 1) PRE_TRANSACTION) as (hooks & ret & ran & _ & _ & E & _).
  - repeat constructor; try apply ex_file_ok; by_decide.
  - exists ret, ran. split; [exact E|].
    assert ((fun x : Z * list hook => (x.1, h_name <$> x.2)) <$> hook_run ex_fnmatch [] ex_old [ex_new] [] ex_dirs [] (fun _ _ => 1) PRE_TRANSACTION
      = Some (-1, [lit "a.hook"])) as Ec by (vm_compute; reflexivity).
    rewrite E in Ec. injection Ec as -> ->. by split.
Defined.

End Hook.
