(* ===== verification/DiskSpace.v ===== *)
(** * Disk space ([diskspace.c])

    Before a transaction is carried out the library works out, for every mount
    point, how many blocks the files of the transaction take there after each
    package, and refuses the transaction when the largest of these numbers and
    a cushion do not fit.  The mount points are kept in a list whose order
    decides which of them a path belongs to; block counts are 64-bit.  A signed
    overflow, a division by a block size of zero and a read before the start of
    a string are [None]. *)

From S2P Require Import Prelude CStr KList Package Conflict.
Local Open Scope Z_scope.

Module DiskSpace.

(** ** Data *)

(** The fields of [struct statvfs] the code reads. *)
Record fsstat := FsStat { f_bsize : Z; f_blocks : Z; f_bavail : Z; f_flag : Z }.
#[global] Instance fsstat_eq_dec : EqDecision fsstat.
Proof. solve_decision. Defined.

Definition ST_RDONLY : Z := 1.
Definition USED_REMOVE : Z := 1.
Definition USED_INSTALL : Z := 2.
Inductive mount_fsinfo := MOUNT_FSINFO_UNLOADED | MOUNT_FSINFO_LOADED | MOUNT_FSINFO_FAIL.
#[global] Instance mount_fsinfo_eq_dec : EqDecision mount_fsinfo.
Proof. solve_decision. Defined.

(** [klpm_mountpoint_t]; [mount_dir_len] is the length of [mount_dir]. *)
Record mountpoint := MountPoint {
  mount_dir : cstr; blocks_needed : Z; max_blocks_needed : Z; used : Z; read_only : bool;
  fsinfo_loaded : mount_fsinfo; fsp : fsstat }.
#[global] Instance mountpoint_eq_dec : EqDecision mountpoint.
Proof. solve_decision. Defined.

(** The result of a check.  Without mount points it is -1 with the error code
    left as it was; otherwise a failure sets [KUZPKG_ERR_DISK_SPACE]. *)
Inductive verdict := SPACE_OK | NO_MOUNT_POINTS | ERR_DISK_SPACE.
#[global] Instance verdict_eq_dec : EqDecision verdict.
Proof. solve_decision. Defined.

(** <sys/stat.h> *)
Definition S_ISDIR (mode : Z) : bool := Z.land mode 61440 =? 16384.
Definition S_ISLNK (mode : Z) : bool := Z.land mode 61440 =? 40960.

(** A result of type [blkcnt_t] that is computed with signed operands, and one
    that is converted from an unsigned type. *)
Definition s64_range (z : Z) : bool := (- 2 ^ 63 <=? z) && (z <? 2 ^ 63).
Definition blkcnt (z : Z) : option Z := if s64_range z then Some z else None.
Definition s64 (z : Z) : Z := if u64 z <? 2 ^ 63 then u64 z else u64 z - 2 ^ 64.

(** ** Mount points *)

(** [mount_point_cmp] *)
Definition mount_point_cmp (mp1 mp2 : mountpoint) : Z := - strcmp (mount_dir mp1) (mount_dir mp2).

(** A zeroed mount point with its directory. *)
Definition new_mount_point (dir : cstr) : mountpoint :=
  MountPoint dir 0 0 0 false MOUNT_FSINFO_UNLOADED (FsStat 0 0 0 0).

(** [mount_point_list] on Linux: [None] when the table cannot be opened, and
    otherwise the entries of [getmntent], some without a directory. *)
Definition mount_point_list (mounted : option (list (option cstr))) : list mountpoint :=
  match mounted with
  | None => []
  | Some l => KList.list_msort mount_point_cmp (new_mount_point <$> omap id l)
  end.

(** [match_mount_point]: the position of the mount point in the list. *)
Fixpoint match_mount_point (mount_points : list mountpoint) (real_path : cstr) : option (option nat) :=
  match mount_points with
  | [] => Some None
  | data :: mps =>
      let next := option_map (option_map S) (match_mount_point mps real_path) in
      if strncmp_eq (mount_dir data) real_path (length (mount_dir data)) then
        match last (mount_dir data) with
        | None => None
        | Some c =>
            if decide (c = "/"%char) then Some (Some 0%nat)
            else if (length (mount_dir data) <=? length real_path)%nat then
              match real_path !! length (mount_dir data) with
              | None => Some (Some 0%nat)
              | Some c => if decide (c = "/"%char) then Some (Some 0%nat) else next
              end
            else next
        end
      else next
  end.

Section Check.
(** <sys/statvfs.h>; <sys/stat.h>: mode and size of what is at a path. *)
Variables (statvfs : cstr -> option fsstat) (lstat : cstr -> option (Z * Z)).
(** [handle->root], [handle->dbpath] and the local package cache. *)
Variables (root dbpath : cstr).
Context {C : Type} `{!PkgCache C} (db_local : C).

(** [mount_point_load_fsinfo] *)
Definition load_fsinfo (mp : mountpoint) : Z * mountpoint :=
  match statvfs (mount_dir mp) with
  | None => (-1, MountPoint (mount_dir mp) (blocks_needed mp) (max_blocks_needed mp) (used mp) (read_only mp)
                   MOUNT_FSINFO_FAIL (fsp mp))
  | Some st => (0, MountPoint (mount_dir mp) (blocks_needed mp) (max_blocks_needed mp) (used mp)
                     (negb (Z.land (f_flag st) ST_RDONLY =? 0)) MOUNT_FSINFO_LOADED st)
  end.

(** [snprintf(path, PATH_MAX, "%s%s", handle->root, filename)] *)
Definition path_of (filename : cstr) : cstr := take 4095 (root ++ filename).

(** [(size + f_bsize - 1) / f_bsize], the addition and division in [unsigned long]. *)
Definition blocks_for (size f_bsize : Z) : option Z :=
  if f_bsize =? 0 then None else Some (s64 (u64 (size + f_bsize - 1) / f_bsize)).

Inductive direction := Remove | Install.
(** [mp->blocks_needed -= remove_size; mp->used |= USED_REMOVE], and its
    counterpart for a file to install. *)
Definition book (dir : direction) (mp : mountpoint) (size : Z) : option mountpoint :=
  blocks ← blocks_for size (f_bsize (fsp mp));
  needed ← blkcnt (match dir with Remove => blocks_needed mp - blocks | Install => blocks_needed mp + blocks end);
  Some (MountPoint (mount_dir mp) needed (max_blocks_needed mp)
          (Z.lor (used mp) (match dir with Remove => USED_REMOVE | Install => USED_INSTALL end))
          (read_only mp) (fsinfo_loaded mp) (fsp mp)).

(** What both loops do with a file of a known path and size: find its mount
    point, load the information of the file system, book the blocks. *)
Definition account (dir : direction) (mps : list mountpoint) (path : cstr) (size : Z) : option (list mountpoint) :=
  found ← match_mount_point mps path;
  match found with
  | None => Some mps
  | Some i =>
      mp ← mps !! i;
      match fsinfo_loaded mp with
      | MOUNT_FSINFO_FAIL => Some mps
      | MOUNT_FSINFO_LOADED => mp ← book dir mp size; Some (<[i := mp]> mps)
      | MOUNT_FSINFO_UNLOADED =>
          let '(r, mp) := load_fsinfo mp in
          if r <? 0 then Some (<[i := mp]> mps)
          else mp ← book dir mp size; Some (<[i := mp]> mps)
      end
  end.

(** [calculate_removed_size] *)
Fixpoint calculate_removed_size (mps : list mountpoint) (l : list file) : option (list mountpoint) :=
  match l with
  | [] => Some mps
  | f :: l =>
      let path := path_of (f_name f) in
      match lstat (Conflict.strip_slashes (length path) path) with
      | None => calculate_removed_size mps l
      | Some (st_mode, st_size) =>
          if S_ISDIR st_mode || S_ISLNK st_mode then calculate_removed_size mps l
          else mps ← account Remove mps path st_size; calculate_removed_size mps l
      end
  end.

(** [calculate_installed_size] *)
Fixpoint calculate_installed_size (mps : list mountpoint) (l : list file) : option (list mountpoint) :=
  match l with
  | [] => Some mps
  | f :: l =>
      if S_ISDIR (f_mode f) || S_ISLNK (f_mode f) then calculate_installed_size mps l
      else
        let filename := if decide (head (f_name f) = Some "."%char) then dbpath else f_name f in
        mps ← account Install mps (path_of filename) (f_size f); calculate_installed_size mps l
  end.

(** [check_mountpoint]; [true] is the error result 1. *)
Definition cushion (st : fsstat) : option Z :=
  if f_bsize st =? 0 then None
  else let fivepc := u64 (f_blocks st / 20 + 1) in
       let twentymb := u64 (20971520 / f_bsize st + 1) in
       Some (if fivepc <? twentymb then fivepc else twentymb).
Definition check_mountpoint (mp : mountpoint) : option bool :=
  cush ← cushion (fsp mp);
  let needed := s64 (u64 (max_blocks_needed mp + cush)) in
  Some ((0 <=? needed) && (f_bavail (fsp mp) <? u64 needed)).

(** [for(i = mount_points; i; i = i->next)] after each package. *)
Definition raise_max (mp : mountpoint) : mountpoint :=
  MountPoint (mount_dir mp) (blocks_needed mp)
    (if max_blocks_needed mp <? blocks_needed mp then blocks_needed mp else max_blocks_needed mp)
    (used mp) (read_only mp) (fsinfo_loaded mp) (fsp mp).

(** The loops over [trans->remove] and [trans->add]. *)
Fixpoint remove_loop (mps : list mountpoint) (l : list pkg) : option (list mountpoint) :=
  match l with
  | [] => Some mps
  | p :: l => mps ← calculate_removed_size mps (files p); remove_loop mps l
  end.
Fixpoint add_loop (mps : list mountpoint) (l : list pkg) : option (list mountpoint) :=
  match l with
  | [] => Some mps
  | p :: l =>
      mps ← match pc_find db_local (name p) with
            | Some local_pkg => calculate_removed_size mps (files local_pkg)
            | None => Some mps
            end;
      mps ← calculate_installed_size mps (files p);
      add_loop (raise_max <$> mps) l
  end.

(** The last loop: [true] when some mount point is an error. *)
Fixpoint verify_loop (mps : list mountpoint) (error : bool) : option bool :=
  match mps with
  | [] => Some error
  | data :: mps =>
      if negb (used data =? 0) && read_only data then verify_loop mps true
      else if negb (Z.land (used data) USED_INSTALL =? 0) then
        full ← check_mountpoint data; verify_loop mps (error || full)
      else verify_loop mps error
  end.

(** [_klpm_check_diskspace] *)
Definition check_diskspace (mounted : option (list (option cstr))) (add remove : list pkg) : option verdict :=
  match mount_point_list mounted with
  | [] => Some NO_MOUNT_POINTS
  | mps =>
      root_mp ← match_mount_point mps root;
      match root_mp with
      | None => Some ERR_DISK_SPACE
      | Some _ =>
          mps ← remove_loop mps remove;
          mps ← add_loop mps add;
          error ← verify_loop mps false;
          Some (if (error : bool) then ERR_DISK_SPACE else SPACE_OK)
      end
  end.

(** The sum of [_klpm_check_downloadspace] over the files. *)
Fixpoint download_blocks (max_blocks f_bsize : Z) (file_sizes : list Z) : option Z :=
  match file_sizes with
  | [] => Some max_blocks
  | size :: l =>
      if f_bsize =? 0 then None
      else download_blocks (s64 (u64 (max_blocks + u64 (size + f_bsize + 1) / f_bsize))) f_bsize l
  end.

(** [_klpm_check_downloadspace]; [cachedir] is resolved by [realpath]. *)
Definition check_downloadspace (realpath : cstr -> option cstr) (mounted : option (list (option cstr)))
    (cachedir : cstr) (file_sizes : list Z) : option verdict :=
  let cachedir := default cachedir (realpath cachedir) in
  match mount_point_list mounted with
  | [] => Some NO_MOUNT_POINTS
  | mps =>
      found ← match_mount_point mps cachedir;
      match found ≫= fun i => mps !! i with
      | None => Some ERR_DISK_SPACE
      | Some mp =>
          let '(r, mp) := if decide (fsinfo_loaded mp = MOUNT_FSINFO_UNLOADED) then load_fsinfo mp else (0, mp) in
          if negb (r =? 0) then Some ERR_DISK_SPACE
          else
            blocks ← download_blocks (max_blocks_needed mp) (f_bsize (fsp mp)) file_sizes;
            full ← check_mountpoint (MountPoint (mount_dir mp) (blocks_needed mp) blocks (used mp) (read_only mp)
                                       (fsinfo_loaded mp) (fsp mp));
            Some (if (full : bool) then ERR_DISK_SPACE else SPACE_OK)
      end
  end.

End Check.


(** ** Which mount point a path belongs to *)

(** The directory tree below [dir] holds [path]. *)
Definition covers (dir path : cstr) : bool :=
  is_prefix dir path
  && (bool_decide (last dir = Some "/"%char) || bool_decide (length path = length dir)
      || bool_decide (path !! length dir = Some "/"%char)).

(** [path] belongs to [d]: the longest of [dirs] that covers it. *)
Definition on (dirs : list cstr) (d path : cstr) : bool :=
  covers d path && forallb (fun d' => negb (covers d' path) || (length d' <=? length d)%nat) dirs.

Definition sorted_dirs (dirs : list cstr) : Prop := StronglySorted (fun a b => strcmp b a <= 0) dirs.
Definition place (dirs : list cstr) (path : cstr) : option (option nat) :=
  match_mount_point (new_mount_point <$> dirs) path.

Lemma strncmp_eq_prefix a b : strncmp_eq a b (length a) = is_prefix a b.
Proof.
  unfold strncmp_eq. rewrite take_ge by done.
  apply eq_bool_prop_intro. rewrite bool_decide_spec, !Is_true_true, is_prefix_spec. split.
  - intros E. exists (drop (length a) b). by rewrite E at 1; rewrite take_drop.
  - intros [r ->]. by rewrite take_app_length.
Qed.

Lemma match_mount_point_dirs mps path : match_mount_point mps path = place (mount_dir <$> mps) path.
Proof.
  unfold place. induction mps as [|m mps IH]; [done|]. simpl. by rewrite IH.
Qed.

Lemma match_cons m mps path :
  mount_dir m <> [] ->
  match_mount_point (m :: mps) path =
  if covers (mount_dir m) path then Some (Some 0%nat)
  else option_map (option_map S) (match_mount_point mps path).
Proof.
  intros Hne. simpl. rewrite strncmp_eq_prefix. unfold covers.
  destruct (is_prefix _ _) eqn:Hp; [|done]. simpl.
  destruct (last (mount_dir m)) as [c|] eqn:El; [|by apply last_None in El].
  apply is_prefix_spec in Hp as [r ->]. rewrite length_app.
  destruct (decide (c = "/"%char)) as [->|Hc]; [done|].
  rewrite (bool_decide_eq_false_2 (Some c = _)) by congruence. simpl.
  rewrite (proj2 (Nat.leb_le _ _)) by lia.
  rewrite lookup_app_r by done. rewrite Nat.sub_diag.
  destruct r as [|x r]; simpl.
  - by rewrite bool_decide_eq_true_2 by lia.
  - rewrite bool_decide_eq_false_2 by lia. simpl.
    destruct (decide (x = "/"%char)) as [->|]; [done|]. by rewrite bool_decide_eq_false_2 by congruence.
Qed.

Lemma place_cons d dirs path :
  d <> [] -> place (d :: dirs) path = if covers d path then Some (Some 0%nat) else option_map (option_map S) (place dirs path).
Proof. apply (match_cons (new_mount_point d)). Qed.

(** Of two prefixes of a path the longer is greater. *)
Lemma strcmp_app a r : r <> [] -> strcmp a (a ++ r) < 0.
Proof.
  intros Hr. induction a as [|x a IH]; simpl; [by destruct r|].
  destruct (Z.ltb_spec (uchar x) (uchar x)); [lia|done].
Qed.
Lemma covers_longer d d' path :
  covers d path = true -> covers d' path = true -> strcmp d' d <= 0 -> (length d' <= length d)%nat.
Proof.
  unfold covers. intros [[r ->]%is_prefix_spec _]%andb_true_iff [[r' E]%is_prefix_spec _]%andb_true_iff Hle.
  destruct (Nat.le_gt_cases (length d') (length d)) as [|Hlt]; [done|exfalso].
  assert (d' = d ++ drop (length d) d') as Ed.
  { apply (f_equal (take (length d))) in E. rewrite take_app_length in E.
    rewrite take_app_le in E by lia. rewrite E at 1. by rewrite take_drop. }
  assert (drop (length d) d' <> []) as Hne.
  { intros E0. apply (f_equal length) in E0. rewrite length_drop in E0. simpl in E0. lia. }
  pose proof (strcmp_app d _ Hne) as Hs. rewrite <- Ed in Hs. rewrite (strcmp_opp d) in Hle. lia.
Qed.

Lemma on_spec dirs d path :
  on dirs d path = true <->
  covers d path = true /\ (forall d', d' ∈ dirs -> covers d' path = true -> (length d' <= length d)%nat).
Proof.
  unfold on. rewrite andb_true_iff, forallb_forall. setoid_rewrite <- list_elem_of_In.
  split; intros [H1 H2]; (split; [done|]); intros d' Hd.
  - intros Hc. specialize (H2 d' Hd). rewrite Hc in H2. simpl in H2. by apply Nat.leb_le.
  - destruct (covers d' path) eqn:Hc; [|done]. simpl. apply Nat.leb_le. by apply H2.
Qed.

(** The path's mount point is found, it is the deepest one, and the first of
    those with its directory. *)
Lemma place_spec dirs path :
  sorted_dirs dirs -> [] ∉ dirs ->
  (place dirs path = Some None /\ forall d, d ∈ dirs -> covers d path = false) \/
  (exists i d, place dirs path = Some (Some i) /\ dirs !! i = Some d /\ on dirs d path = true /\
     forall j, (j < i)%nat -> dirs !! j <> Some d).
Proof.
  induction 1 as [|d dirs Hs IH Hd]; intros Hne; [left; split; [done|]; intros ? []%elem_of_nil|].
  apply not_elem_of_cons in Hne as [Hd0 Hne]. specialize (IH Hne).
  rewrite place_cons by done. destruct (covers d path) eqn:Hc.
  - right. exists 0%nat, d. split_and!; [done|done| |lia].
    apply on_spec. split; [done|]. intros d' [-> |Hin]%elem_of_cons Hc'; [done|].
    rewrite Forall_forall in Hd. by apply (covers_longer d d' path Hc Hc'), Hd.
  - destruct IH as [[-> H]|(i & d' & -> & Hi & Ho & Hf)]; simpl.
    + left. split; [done|]. intros d' [-> |Hin]%elem_of_cons; auto.
    + right. exists (S i), d'. split_and!; [done|done| |].
      * apply on_spec in Ho as [Ho1 Ho2]. apply on_spec. split; [done|].
        intros d'' [-> |Hin]%elem_of_cons; [congruence|auto].
      * intros [|j] Hj; simpl; [|apply Hf; lia]. intros [= ->].
        apply on_spec in Ho as [Ho1 _]. congruence.
Qed.

#[global] Instance mount_point_cmp_order : CmpOrder mount_point_cmp.
Proof.
  split; unfold mount_point_cmp; intros.
  - by rewrite strcmp_refl.
  - rewrite (strcmp_opp (mount_dir x)). lia.
  - rewrite <- !strcmp_opp in *. by apply (strcmp_trans _ (mount_dir y)).
Qed.

Lemma sorted_mount_points mounted : sorted_dirs (mount_dir <$> mount_point_list mounted).
Proof.
  destruct mounted as [l|]; [|constructor]. unfold mount_point_list, sorted_dirs.
  pose proof (KList.list_msort_sorted mount_point_cmp (new_mount_point <$> omap id l)) as Hs.
  induction Hs as [|m mps Hs IH Hm]; simpl; constructor; [done|].
  apply Forall_fmap. eapply Forall_impl; [exact Hm|]. intros m' Hle. unfold cmp_le, mount_point_cmp in Hle. simpl.
  by rewrite strcmp_opp.
Qed.


(** ** Accounting *)

(** The whole blocks a file takes, and what the files of [cs] (path and size)
    selected by [sel] take together. *)
Definition ceil_div (size bsize : Z) : Z := (size + bsize - 1) / bsize.
Definition tally (sel : cstr -> bool) (bsize : Z) (cs : list (cstr * Z)) : Z :=
  foldr (fun c acc => (if sel c.1 then ceil_div c.2 bsize else 0) + acc) 0 cs.
Definition total (cs : list (cstr * Z)) : Z := foldr (fun c acc => c.2 + acc) 0 cs.
Definition sizes_ok (cs : list (cstr * Z)) : Prop := Forall (fun c => 0 <= c.2) cs.

Lemma tally_app sel b cs cs' : tally sel b (cs ++ cs') = tally sel b cs + tally sel b cs'.
Proof. induction cs as [|c cs IH]; simpl; [done|]. rewrite IH. lia. Qed.
Lemma total_app cs cs' : total (cs ++ cs') = total cs + total cs'.
Proof. induction cs as [|c cs IH]; simpl; [done|]. rewrite IH. lia. Qed.
Lemma total_nonneg cs : sizes_ok cs -> 0 <= total cs.
Proof. induction 1; simpl; lia. Qed.
Lemma tally_ext sel sel' b cs : (forall c, c ∈ cs -> sel c.1 = sel' c.1) -> tally sel b cs = tally sel' b cs.
Proof.
  induction cs as [|c cs IH]; intros H; simpl; [done|].
  rewrite IH, (H c); [done|left|]. intros c' Hc'. apply H. by right.
Qed.

Lemma ceil_div_range size b : 0 <= size -> 0 < b -> 0 <= ceil_div size b <= size.
Proof.
  intros Hs Hb. unfold ceil_div. split; [apply Z.div_pos; lia|].
  destruct (decide (size = 0)) as [->|]; [rewrite Z.div_small; lia|].
  apply Z.div_le_upper_bound; [done|]. nia.
Qed.

Lemma s64_small z : 0 <= z < 2 ^ 63 -> s64 z = z.
Proof.
  intros H. unfold s64. rewrite u64_small by lia. by rewrite (proj2 (Z.ltb_lt _ _)) by lia.
Qed.

Lemma blocks_for_ok size b : 0 <= size < 2 ^ 62 -> 0 < b < 2 ^ 63 -> blocks_for size b = Some (ceil_div size b).
Proof.
  intros Hs Hb. unfold blocks_for. rewrite (proj2 (Z.eqb_neq b 0)) by lia.
  rewrite u64_small by lia. pose proof (ceil_div_range size b) as Hr. unfold ceil_div in *.
  by rewrite s64_small by lia.
Qed.

Section Accounting.
Variables (statvfs : cstr -> option fsstat) (dirs : list cstr).
(** What <sys/statvfs.h> promises of a file system. *)
Definition stat_ok : Prop := forall d st, statvfs d = Some st ->
  0 < f_bsize st < 2 ^ 63 /\ 0 <= f_blocks st < 2 ^ 64 /\ 0 <= f_bavail st < 2 ^ 64.
Definition writable (st : fsstat) : bool := Z.land (f_flag st) ST_RDONLY =? 0.

Definition at_ (i : nat) (path : cstr) : bool := bool_decide (place dirs path = Some (Some i)).
Definition fs_at (i : nat) : option fsstat := d ← dirs !! i; statvfs d.
Definition share (i : nat) (cs : list (cstr * Z)) : Z :=
  match fs_at i with Some st => tally (at_ i) (f_bsize st) cs | None => 0 end.
Definition hit (i : nat) (cs : list (cstr * Z)) : bool :=
  match fs_at i with Some _ => existsb (fun c => at_ i c.1) cs | None => false end.

(** The cached information of a mount point is that of its file system, and
    nothing is booked on one without. *)
Definition info_ok (mp : mountpoint) : Prop :=
  match fsinfo_loaded mp with
  | MOUNT_FSINFO_UNLOADED => used mp = 0
  | MOUNT_FSINFO_LOADED => statvfs (mount_dir mp) = Some (fsp mp) /\ read_only mp = negb (writable (fsp mp))
  | MOUNT_FSINFO_FAIL => statvfs (mount_dir mp) = None /\ used mp = 0
  end.
Definition within (b : Z) (mp : mountpoint) : Prop :=
  Z.abs (blocks_needed mp) <= b /\ 0 <= max_blocks_needed mp <= b.
Definition sane (b : Z) (mps : list mountpoint) : Prop :=
  mount_dir <$> mps = dirs /\ Forall (fun mp => info_ok mp /\ within b mp) mps.

Definition bits (r i : bool) : Z := Z.lor (if r then USED_REMOVE else 0) (if i then USED_INSTALL else 0).
(** The bookings between two states, mount point by mount point. *)
Definition moved (d : nat -> Z) (r s : nat -> bool) (mps mps' : list mountpoint) : Prop :=
  forall i mp, mps !! i = Some mp -> exists mp', mps' !! i = Some mp' /\
    blocks_needed mp' = blocks_needed mp + d i /\ max_blocks_needed mp' = max_blocks_needed mp /\
    used mp' = Z.lor (used mp) (bits (r i) (s i)).

Lemma bits_or r s r' s' : Z.lor (bits r s) (bits r' s') = bits (r || r') (s || s').
Proof. by destruct r, s, r', s'. Qed.
Lemma bits_app u r s r' s' : Z.lor (Z.lor u (bits r s)) (bits r' s') = Z.lor u (bits (r || r') (s || s')).
Proof. by rewrite <- Z.lor_assoc, bits_or. Qed.

Lemma moved_id mps : moved (fun _ => 0) (fun _ => false) (fun _ => false) mps mps.
Proof. intros i mp H. exists mp. split_and!; [done|lia|done|]. by rewrite Z.lor_0_r. Qed.

Lemma moved_trans d r s d' r' s' m1 m2 m3 :
  moved d r s m1 m2 -> moved d' r' s' m2 m3 ->
  moved (fun i => d i + d' i) (fun i => r i || r' i) (fun i => s i || s' i) m1 m3.
Proof.
  intros H1 H2 i mp Hi. destruct (H1 i mp Hi) as (mp1 & E1 & B1 & M1 & U1).
  destruct (H2 i mp1 E1) as (mp2 & E2 & B2 & M2 & U2). exists mp2.
  split_and!; [done|lia|congruence|]. rewrite U2, U1. apply bits_app.
Qed.

Lemma moved_ext d r s d' r' s' m m' :
  (forall i, d i = d' i) -> (forall i, r i = r' i) -> (forall i, s i = s' i) -> moved d r s m m' -> moved d' r' s' m m'.
Proof. intros Ed Er Es H i mp Hi. rewrite <- Ed, <- Er, <- Es. by apply H. Qed.

(** Replacing one mount point. *)
Lemma moved_insert d r s mps i mp mp' :
  mps !! i = Some mp ->
  (forall j, j <> i -> d j = 0 /\ r j = false /\ s j = false) ->
  blocks_needed mp' = blocks_needed mp + d i -> max_blocks_needed mp' = max_blocks_needed mp ->
  used mp' = Z.lor (used mp) (bits (r i) (s i)) ->
  moved d r s mps (<[i := mp']> mps).
Proof.
  intros Hi Ho Hb Hm Hu j m Hj. destruct (decide (i = j)) as [<- |Hne].
  - rewrite Hi in Hj. injection Hj as <-. exists mp'. split; [|done].
    apply list_lookup_insert_eq. by eapply lookup_lt_Some.
  - destruct (Ho j) as (-> & -> & ->); [congruence|]. rewrite list_lookup_insert_ne by done.
    exists m. split_and!; [done|lia|done|]. by rewrite Z.lor_0_r.
Qed.

Lemma sane_insert b b' mps i mp mp' :
  b <= b' -> sane b mps -> mps !! i = Some mp -> mount_dir mp' = mount_dir mp -> info_ok mp' -> within b' mp' ->
  sane b' (<[i := mp']> mps).
Proof.
  intros Hb [Hd Hf] Hi Ed Hok Hw. split.
  - rewrite list_fmap_insert, Ed, Hd. apply list_insert_id. by rewrite <- Hd, list_lookup_fmap, Hi.
  - apply Forall_insert; [|done]. eapply Forall_impl; [exact Hf|]. intros m [? [? ?]]. split; [done|]. unfold within. lia.
Qed.
Lemma sane_mono b b' mps : b <= b' -> sane b mps -> sane b' mps.
Proof.
  intros Hb [Hd Hf]. split; [done|]. eapply Forall_impl; [exact Hf|]. intros m [? [? ?]]. split; [done|]. unfold within. lia.
Qed.

Definition sgn (dir : direction) : Z := match dir with Remove => -1 | Install => 1 end.
Definition is_remove (dir : direction) : bool := match dir with Remove => true | Install => false end.

Lemma book_ok dir b mp st size :
  fsp mp = st -> 0 < f_bsize st < 2 ^ 63 -> 0 <= size -> b + size < 2 ^ 62 -> within b mp ->
  exists mp', book dir mp size = Some mp' /\ mount_dir mp' = mount_dir mp /\ within (b + size) mp' /\
    blocks_needed mp' = blocks_needed mp + sgn dir * ceil_div size (f_bsize st) /\
    max_blocks_needed mp' = max_blocks_needed mp /\
    used mp' = Z.lor (used mp) (bits (is_remove dir) (negb (is_remove dir))) /\
    fsinfo_loaded mp' = fsinfo_loaded mp /\ fsp mp' = st /\ read_only mp' = read_only mp.
Proof.
  intros Ef Hb Hs Hlt [Hw1 Hw2]. unfold book. rewrite Ef, blocks_for_ok by lia. simpl.
  pose proof (ceil_div_range size (f_bsize st)) as Hr.
  assert (forall z, Z.abs z < 2 ^ 62 -> blkcnt z = Some z) as Hc.
  { intros z Hz. unfold blkcnt, s64_range. rewrite (proj2 (Z.leb_le _ _)), (proj2 (Z.ltb_lt _ _)) by lia. done. }
  destruct dir; rewrite Hc by lia; simpl; eexists; (split; [reflexivity|]); unfold within; simpl; split_and!; try done; lia.
Qed.

Hypotheses (Hsorted : sorted_dirs dirs) (Hne : [] ∉ dirs) (Hstat : stat_ok).

Lemma sane_lookup b mps i d :
  sane b mps -> dirs !! i = Some d ->
  exists mp, mps !! i = Some mp /\ mount_dir mp = d /\ info_ok mp /\ within b mp.
Proof.
  intros [Hd Hf] Hi. rewrite <- Hd, list_lookup_fmap, fmap_Some in Hi. destruct Hi as (mp & Hi & ->).
  exists mp. rewrite Forall_lookup in Hf. specialize (Hf i mp Hi). tauto.
Qed.

Lemma at_other path i j : place dirs path = Some (Some i) -> j <> i -> at_ j path = false.
Proof. intros E Hj. unfold at_. rewrite E. apply bool_decide_eq_false_2. congruence. Qed.

(** The files of [cs] are booked in direction [dir]. *)
Definition booked (dir : direction) (cs : list (cstr * Z)) (mps mps' : list mountpoint) : Prop :=
  moved (fun i => sgn dir * share i cs) (fun i => is_remove dir && hit i cs)
    (fun i => negb (is_remove dir) && hit i cs) mps mps'.

Lemma untouched i path size :
  fs_at i = None \/ at_ i path = false -> share i [(path, size)] = 0 /\ hit i [(path, size)] = false.
Proof.
  intros H. unfold share, hit. destruct (fs_at i); [|done]. destruct H as [H|H]; [done|]. simpl. by rewrite H.
Qed.

Lemma booked_none dir path size mps :
  (forall i, at_ i path = false) -> booked dir [(path, size)] mps mps.
Proof.
  intros H. eapply moved_ext; [| | |apply moved_id]; intros i; destruct (untouched i path size) as [E1 E2]; auto;
    rewrite ?E1, ?E2; by destruct dir.
Qed.

Section OneFile.
Context (dir : direction) (b : Z) (mps : list mountpoint) (path : cstr) (size : Z) (i : nat) (mp : mountpoint).
Hypotheses (Hs : sane b mps) (Hsz : 0 <= size) (Hlt : b + size < 2 ^ 62).
Hypotheses (E : place dirs path = Some (Some i)) (Hm : mps !! i = Some mp).

Lemma found_at : fs_at i = statvfs (mount_dir mp).
Proof. unfold fs_at. destruct Hs as [<- _]. by rewrite list_lookup_fmap, Hm. Qed.

Lemma found_within : info_ok mp /\ within b mp.
Proof. destruct Hs as [_ Hf]. rewrite Forall_lookup in Hf. by apply (Hf i). Qed.

Lemma found_others j : j <> i ->
  sgn dir * share j [(path, size)] = 0 /\ is_remove dir && hit j [(path, size)] = false /\
  negb (is_remove dir) && hit j [(path, size)] = false.
Proof.
  intros Hj. destruct (untouched j path size) as [-> ->]; [right; by eapply at_other|]. by rewrite !andb_false_r, Z.mul_0_r.
Qed.

Lemma booked_fail mp' :
  statvfs (mount_dir mp) = None -> mount_dir mp' = mount_dir mp -> info_ok mp' ->
  blocks_needed mp' = blocks_needed mp -> max_blocks_needed mp' = max_blocks_needed mp -> used mp' = used mp ->
  sane (b + size) (<[i := mp']> mps) /\ booked dir [(path, size)] mps (<[i := mp']> mps).
Proof.
  intros En E1 E2 E3 E4 E5. destruct (untouched i path size) as [Z1 Z2]; [left; by rewrite found_at|].
  destruct found_within as [_ Hw]. split.
  - eapply sane_insert; [|done..|]; [lia|]. destruct Hw. unfold within. rewrite E3, E4. lia.
  - eapply moved_insert; [done|apply found_others|rewrite Z1; lia|done|].
    rewrite Z2, !andb_false_r, E5. by rewrite Z.lor_0_r.
Qed.

Lemma booked_load mp0 st :
  statvfs (mount_dir mp) = Some st -> mount_dir mp0 = mount_dir mp -> fsp mp0 = st ->
  fsinfo_loaded mp0 = MOUNT_FSINFO_LOADED -> read_only mp0 = negb (writable st) ->
  blocks_needed mp0 = blocks_needed mp -> max_blocks_needed mp0 = max_blocks_needed mp -> used mp0 = used mp ->
  exists mps', (m ← book dir mp0 size; Some (<[i := m]> mps)) = Some mps' /\ sane (b + size) mps' /\
    booked dir [(path, size)] mps mps'.
Proof.
  intros Est E1 E2 E3 E4 E5 E6 E7. destruct (Hstat _ _ Est) as [Hbs _]. destruct found_within as [_ Hw].
  destruct (book_ok dir b mp0 st size E2 Hbs Hsz Hlt) as (mp' & -> & D1 & D2 & D3 & D4 & D5 & D6 & D7 & D8).
  { destruct Hw. unfold within. rewrite E5, E6. lia. }
  assert (share i [(path, size)] = ceil_div size (f_bsize st) /\ hit i [(path, size)] = true) as [Z1 Z2].
  { unfold share, hit. rewrite found_at, Est. simpl. unfold at_. rewrite E, bool_decide_eq_true_2 by done. split; [lia|done]. }
  simpl. eexists. split; [reflexivity|]. split.
  - apply (sane_insert b (b + size) mps i mp mp'); [lia|done|done|congruence| |done].
    unfold info_ok. rewrite D6, E3, D1, E1, D7, D8. done.
  - eapply moved_insert; [done|apply found_others|rewrite Z1, D3; lia|congruence|].
    rewrite Z2, !andb_true_r. congruence.
Qed.
End OneFile.

(** Booking one file. *)
Lemma account_ok dir b mps path size :
  sane b mps -> 0 <= size -> b + size < 2 ^ 62 ->
  exists mps', account statvfs dir mps path size = Some mps' /\ sane (b + size) mps' /\ booked dir [(path, size)] mps mps'.
Proof.
  intros Hs Hsz Hlt. pose proof Hs as [Hd _]. unfold account. rewrite match_mount_point_dirs, Hd.
  destruct (place_spec dirs path Hsorted Hne) as [[E _]|(i & d & E & Hi & _ & _)]; rewrite E; simpl.
  { exists mps. split_and!; [done|by apply (sane_mono b); [lia|]|]. apply booked_none.
    intros i. unfold at_. rewrite E. by apply bool_decide_eq_false_2. }
  destruct (sane_lookup b mps i d Hs Hi) as (mp & Hm & Ed & Hok & _). rewrite Hm. simpl.
  pose proof Hok as Hok0. unfold info_ok in Hok. destruct (fsinfo_loaded mp) eqn:El.
  - unfold load_fsinfo. destruct (statvfs (mount_dir mp)) as [st|] eqn:Est; simpl.
    + eapply booked_load; done.
    + eexists. split; [reflexivity|]. eapply booked_fail; done.
  - destruct Hok as [Est Ero]. eapply booked_load; done.
  - destruct Hok as [Est Eu]. exists mps. split; [done|].
    pose proof (booked_fail dir b mps path size i mp Hs Hsz E Hm mp Est) as H. rewrite (list_insert_id mps i mp Hm) in H. by apply H.
Qed.

(** *** The files of a list *)

Fixpoint charge_all (dir : direction) (mps : list mountpoint) (cs : list (cstr * Z)) : option (list mountpoint) :=
  match cs with
  | [] => Some mps
  | c :: cs => mps ← account statvfs dir mps c.1 c.2; charge_all dir mps cs
  end.

Lemma charge_all_app dir mps cs cs' :
  charge_all dir mps (cs ++ cs') = mps ← charge_all dir mps cs; charge_all dir mps cs'.
Proof.
  revert mps. induction cs as [|c cs IH]; intros mps; simpl; [done|].
  destruct (account _ _ _ _ _); simpl; [apply IH|done].
Qed.

Lemma share_app i cs cs' : share i (cs ++ cs') = share i cs + share i cs'.
Proof. unfold share. destruct (fs_at i); [apply tally_app|done]. Qed.
Lemma hit_app i cs cs' : hit i (cs ++ cs') = hit i cs || hit i cs'.
Proof. unfold hit. destruct (fs_at i); [apply existsb_app|done]. Qed.

Lemma booked_app dir cs cs' m1 m2 m3 : booked dir cs m1 m2 -> booked dir cs' m2 m3 -> booked dir (cs ++ cs') m1 m3.
Proof.
  intros H1 H2. eapply moved_ext; [| | |exact (moved_trans _ _ _ _ _ _ _ _ _ H1 H2)]; intros i; simpl;
    rewrite ?share_app, ?hit_app; [lia| |]; by rewrite andb_orb_distrib_r.
Qed.

Lemma booked_nil dir mps : booked dir [] mps mps.
Proof.
  eapply moved_ext; [| | |apply moved_id]; intros i; unfold share, hit; destruct (fs_at i); simpl;
    rewrite ?andb_false_r, ?Z.mul_0_r; done.
Qed.

Lemma charge_all_ok dir cs : forall b mps,
  sane b mps -> sizes_ok cs -> b + total cs < 2 ^ 62 ->
  exists mps', charge_all dir mps cs = Some mps' /\ sane (b + total cs) mps' /\ booked dir cs mps mps'.
Proof.
  induction cs as [|[path size] cs IH]; intros b mps Hs Hsz Hlt; simpl in *.
  { exists mps. rewrite Z.add_0_r. split_and!; [done|done|apply booked_nil]. }
  apply Forall_cons in Hsz as [Hsz Hszs]. simpl in Hsz. pose proof (total_nonneg cs Hszs).
  destruct (account_ok dir b mps path size Hs Hsz) as (m1 & -> & H1 & H2); [lia|]. simpl.
  destruct (IH (b + size) m1 H1 Hszs) as (m2 & -> & H3 & H4); [lia|].
  exists m2. rewrite Z.add_assoc. split_and!; [done|done|]. exact (booked_app dir [_] cs _ _ _ H2 H4).
Qed.

(** *** The packages of a transaction *)

Section Packages.
Variables (lstat : cstr -> option (Z * Z)) (root dbpath : cstr).
Context {C : Type} `{!PkgCache C} (db_local : C).

(** What is booked for the files of a package that goes away, as they are on
    disk, and for those of a package that comes. *)
Definition removed (p : pkg) : list (cstr * Z) :=
  omap (fun f => let path := path_of root (f_name f) in
    match lstat (Conflict.strip_slashes (length path) path) with
    | Some (mode, size) => if S_ISDIR mode || S_ISLNK mode then None else Some (path, size)
    | None => None
    end) (files p).
Definition installed (p : pkg) : list (cstr * Z) :=
  omap (fun f => if S_ISDIR (f_mode f) || S_ISLNK (f_mode f) then None
    else Some (path_of root (if decide (head (f_name f) = Some "."%char) then dbpath else f_name f), f_size f)) (files p).
Definition replaced (p : pkg) : list (cstr * Z) :=
  match pc_find db_local (name p) with Some old => removed old | None => [] end.

Lemma calculate_removed_charges mps p :
  calculate_removed_size statvfs lstat root mps (files p) = charge_all Remove mps (removed p).
Proof.
  unfold removed. revert mps. induction (files p) as [|f l IH]; intros mps; simpl; [done|].
  destruct (lstat _) as [[mode size]|]; [|apply IH]. destruct (_ || _); [apply IH|]. simpl.
  destruct (account _ _ _ _ _); simpl; [apply IH|done].
Qed.
Lemma calculate_installed_charges mps p :
  calculate_installed_size statvfs root dbpath mps (files p) = charge_all Install mps (installed p).
Proof.
  unfold installed. revert mps. induction (files p) as [|f l IH]; intros mps; simpl; [done|].
  destruct (_ || _); [apply IH|]. simpl. destruct (account _ _ _ _ _); simpl; [apply IH|done].
Qed.
Lemma remove_loop_charges mps l :
  remove_loop statvfs lstat root mps l = charge_all Remove mps (flat_map removed l).
Proof.
  revert mps. induction l as [|p l IH]; intros mps; simpl; [done|].
  rewrite calculate_removed_charges, charge_all_app. destruct (charge_all _ _ _); simpl; [apply IH|done].
Qed.

Variable remove : list pkg.
(** The blocks needed on mount point [i] once the packages [pre] are in. *)
Definition net (i : nat) (pre : list pkg) : Z :=
  share i (flat_map installed pre) - share i (flat_map removed remove) - share i (flat_map replaced pre).
Definition charged (pre : list pkg) : Z :=
  total (flat_map removed remove) + total (flat_map replaced pre) + total (flat_map installed pre).

(** The books after the packages [pre]. *)
Definition books (pre : list pkg) (mps : list mountpoint) : Prop :=
  sane (charged pre) mps /\
  forall i mp, mps !! i = Some mp ->
    blocks_needed mp = net i pre /\
    used mp = bits (hit i (flat_map removed remove) || hit i (flat_map replaced pre)) (hit i (flat_map installed pre)) /\
    (forall x, max_blocks_needed mp <= x <-> 0 <= x /\ forall l, l <> [] -> l `prefix_of` pre -> net i l <= x).

Lemma prefix_snoc l pre (p : pkg) : l `prefix_of` pre ++ [p] <-> l `prefix_of` pre \/ l = pre ++ [p].
Proof.
  split.
  - intros [k E]. destruct k as [|x k _] using rev_ind; [right; by rewrite app_nil_r in E|left].
    rewrite app_assoc in E. apply app_inj_tail in E as [-> _]. by eexists.
  - intros [[k ->]| ->]; [|done]. rewrite <- app_assoc. by eexists.
Qed.

Lemma raise_max_ok b mps : sane b mps -> sane b (raise_max <$> mps).
Proof.
  intros [Hd Hf]. split.
  - rewrite <- Hd, <- list_fmap_compose. by apply list_fmap_ext.
  - apply Forall_fmap. eapply Forall_impl; [exact Hf|]. intros mp [Hi [H1 H2]]. split; [exact Hi|].
    unfold within. simpl. split; [done|]. destruct (Z.ltb_spec (max_blocks_needed mp) (blocks_needed mp)); lia.
Qed.

(** What the loop over [trans->add] does for one package. *)
Lemma package_ok b mps p :
  sane b mps -> sizes_ok (replaced p) -> sizes_ok (installed p) -> b + total (replaced p) + total (installed p) < 2 ^ 62 ->
  exists m1 m2, (match pc_find db_local (name p) with
                 | Some local_pkg => calculate_removed_size statvfs lstat root mps (files local_pkg)
                 | None => Some mps
                 end) = Some m1 /\
    calculate_installed_size statvfs root dbpath m1 (files p) = Some m2 /\
    sane (b + total (replaced p) + total (installed p)) m2 /\
    booked Remove (replaced p) mps m1 /\ booked Install (installed p) m1 m2.
Proof.
  intros Hs H1 H2 Hlt. pose proof (total_nonneg _ H2).
  destruct (charge_all_ok Remove (replaced p) b mps Hs H1) as (m1 & E1 & S1 & B1); [lia|].
  destruct (charge_all_ok Install (installed p) _ m1 S1 H2) as (m2 & E2 & S2 & B2); [lia|].
  exists m1, m2. rewrite calculate_installed_charges. split_and!; try done.
  rewrite <- E1. unfold replaced. destruct (pc_find _ _); [apply calculate_removed_charges|done].
Qed.

Lemma books_step pre p mps m1 m2 :
  books pre mps -> booked Remove (replaced p) mps m1 -> booked Install (installed p) m1 m2 ->
  sane (charged (pre ++ [p])) m2 -> books (pre ++ [p]) (raise_max <$> m2).
Proof.
  intros [Hs H] B1 B2 Hs2. split; [by apply raise_max_ok|].
  intros i mp. rewrite list_lookup_fmap, fmap_Some. intros (mp2 & E2 & ->).
  destruct (lookup_lt_is_Some_2 mps i) as [mp0 E0].
  { destruct Hs as [Hd _], Hs2 as [Hd2 _]. rewrite <- (length_fmap mount_dir), Hd, <- Hd2, length_fmap. by eapply lookup_lt_Some. }
  destruct (B1 i mp0 E0) as (mp1 & E1 & N1 & M1 & U1). destruct (B2 i mp1 E1) as (mp2' & E2' & N2 & M2 & U2).
  rewrite E2 in E2'. injection E2' as <-. destruct (H i mp0 E0) as (N0 & U0 & M0). simpl in *.
  assert (blocks_needed mp2 = net i (pre ++ [p])) as En.
  { rewrite N2, N1, N0. unfold net. rewrite !flat_map_app, !share_app. simpl. rewrite !app_nil_r. lia. }
  split_and!; [done| |].
  - rewrite U2, U1, U0, !flat_map_app, !hit_app. simpl. rewrite !app_nil_r, bits_app, bits_or, !orb_false_r, orb_false_l. by rewrite orb_assoc.
  - intros x. rewrite En, M2, M1. transitivity (max_blocks_needed mp0 <= x /\ net i (pre ++ [p]) <= x).
    { destruct (Z.ltb_spec (max_blocks_needed mp0) (net i (pre ++ [p]))); lia. }
    rewrite M0. setoid_rewrite prefix_snoc. split.
    + intros [[Hx Hl] Hn]. split; [done|]. intros l Hne' [Hp| ->]; auto.
    + intros [Hx Hl]. split; [split; [done|]; intros; apply Hl; auto|]. apply Hl; [|by right]. intros [_ [=]]%app_eq_nil.
Qed.

Lemma charged_snoc pre p : charged (pre ++ [p]) = charged pre + total (replaced p) + total (installed p).
Proof. unfold charged. rewrite !flat_map_app, !total_app. simpl. rewrite !app_nil_r. lia. Qed.

Lemma charged_mono pre l :
  sizes_ok (flat_map replaced l) -> sizes_ok (flat_map installed l) -> charged pre <= charged (pre ++ l).
Proof.
  intros H1%total_nonneg H2%total_nonneg. unfold charged. rewrite !flat_map_app, !total_app. lia.
Qed.

Lemma add_loop_ok l : forall pre mps,
  books pre mps -> sizes_ok (flat_map replaced l) -> sizes_ok (flat_map installed l) -> charged (pre ++ l) < 2 ^ 62 ->
  exists mps', add_loop statvfs lstat root dbpath db_local mps l = Some mps' /\ books (pre ++ l) mps'.
Proof.
  induction l as [|p l IH]; intros pre mps Hb H1 H2 Hlt; simpl.
  { exists mps. by rewrite app_nil_r. }
  simpl in H1, H2. apply Forall_app in H1 as [H1 H1'], H2 as [H2 H2'].
  rewrite (cons_middle p pre l), app_assoc in Hlt |- *.
  pose proof (charged_mono (pre ++ [p]) l H1' H2') as Hm. pose proof (charged_snoc pre p) as Ec.
  destruct (package_ok (charged pre) mps p (proj1 Hb) H1 H2) as (m1 & m2 & -> & E2 & S2 & B1 & B2); [lia|].
  simpl. rewrite E2. simpl. apply IH; [|done..]. eapply books_step; [done|done|done|]. by rewrite Ec.
Qed.

(** After the loop over [trans->remove]. *)
Lemma remove_loop_ok :
  sizes_ok (flat_map removed remove) -> total (flat_map removed remove) < 2 ^ 62 ->
  exists mps, remove_loop statvfs lstat root (new_mount_point <$> dirs) remove = Some mps /\ books [] mps.
Proof.
  intros Hsz Hlt. rewrite remove_loop_charges.
  assert (sane 0 (new_mount_point <$> dirs)) as H0.
  { split; [rewrite <- list_fmap_compose; apply list_fmap_id|]. apply Forall_fmap, Forall_forall. intros d _. done. }
  destruct (charge_all_ok Remove _ 0 _ H0 Hsz) as (mps & E & Hs & Hb); [lia|].
  exists mps. split; [done|]. split.
  { unfold charged. simpl. by rewrite !Z.add_0_r, <- (Z.add_0_l (total _)). }
  intros i mp Hi. destruct (lookup_lt_is_Some_2 (new_mount_point <$> dirs) i) as [m0 E0].
  { destruct Hs as [Hd _]. rewrite length_fmap, <- Hd, length_fmap. by eapply lookup_lt_Some. }
  destruct (Hb i m0 E0) as (mp' & E' & N & M & U). rewrite Hi in E'. injection E' as <-.
  rewrite list_lookup_fmap, fmap_Some in E0. destruct E0 as (d & _ & ->). simpl in *.
  assert (forall j, share j [] = 0 /\ hit j [] = false) as Hnil by (intros j; unfold share, hit; by destruct (fs_at j)).
  destruct (Hnil i) as [Z1 Z2]. rewrite N, M, U. unfold net. simpl. rewrite Z1, Z2, orb_false_r.
  split_and!; [lia|done|]. intros x. split; [|tauto]. intros Hx. split; [done|]. intros l Hl [k Hk].
  by destruct l.
Qed.
End Packages.

(** *** The last loop *)

Definition cushion_of (st : fsstat) : Z := Z.min (f_blocks st / 20 + 1) (20971520 / f_bsize st + 1).

Lemma cushion_ok st :
  0 < f_bsize st < 2 ^ 63 -> 0 <= f_blocks st < 2 ^ 64 -> cushion st = Some (cushion_of st) /\ 0 < cushion_of st <= 20971521.
Proof.
  intros Hb Hf. unfold cushion, cushion_of. rewrite (proj2 (Z.eqb_neq _ 0)) by lia.
  assert (0 <= f_blocks st / 20 <= f_blocks st) by (split; [apply Z.div_pos|apply Z.div_le_upper_bound]; lia).
  assert (f_blocks st / 20 < 2 ^ 63) by (apply Z.div_lt_upper_bound; lia).
  assert (0 <= 20971520 / f_bsize st <= 20971520) by (split; [apply Z.div_pos|apply Z.div_le_upper_bound]; nia).
  rewrite !u64_small by lia. split; [|lia]. f_equal.
  destruct (Z.ltb_spec (f_blocks st / 20 + 1) (20971520 / f_bsize st + 1)); lia.
Qed.

Lemma check_mountpoint_ok mp st :
  statvfs (mount_dir mp) = Some st -> fsp mp = st -> 0 <= max_blocks_needed mp < 2 ^ 62 ->
  check_mountpoint mp = Some (f_bavail st <? max_blocks_needed mp + cushion_of st).
Proof.
  intros Es Ef Hm. destruct (Hstat _ _ Es) as (Hb & Hf & Ha). destruct (cushion_ok st Hb Hf) as [Ec Hc].
  unfold check_mountpoint. rewrite Ef, Ec. simpl. rewrite (u64_small (_ + _)), s64_small, u64_small by lia.
  by rewrite (proj2 (Z.leb_le 0 _)) by lia.
Qed.

Definition bad (mp : mountpoint) : bool :=
  if negb (used mp =? 0) && read_only mp then true
  else if negb (Z.land (used mp) USED_INSTALL =? 0) then f_bavail (fsp mp) <? max_blocks_needed mp + cushion_of (fsp mp)
  else false.

Lemma used_loaded mp : info_ok mp -> used mp <> 0 ->
  fsinfo_loaded mp = MOUNT_FSINFO_LOADED /\ statvfs (mount_dir mp) = Some (fsp mp) /\ read_only mp = negb (writable (fsp mp)).
Proof. unfold info_ok. destruct (fsinfo_loaded mp); tauto. Qed.

Lemma verify_loop_ok b mps e :
  b < 2 ^ 62 -> Forall (fun mp => info_ok mp /\ within b mp) mps -> verify_loop mps e = Some (e || existsb bad mps).
Proof.
  intros Hb Hf. revert e. induction Hf as [|mp mps [Hi [_ Hw]] Hf IH]; intros e; simpl; [by rewrite orb_false_r|].
  unfold bad at 1. destruct (negb (used mp =? 0) && read_only mp) eqn:E1; [rewrite IH; by destruct e|].
  destruct (negb (Z.land (used mp) USED_INSTALL =? 0)) eqn:E2; [|apply IH].
  apply negb_true_iff, Z.eqb_neq in E2.
  destruct (used_loaded mp Hi) as (_ & Es & _); [intros E0; by rewrite E0 in E2|].
  rewrite (check_mountpoint_ok mp (fsp mp)) by (done || lia). simpl. rewrite IH. by rewrite orb_assoc.
Qed.

(** *** From positions to directories *)

Definition blocks_on (d : cstr) (cs : list (cstr * Z)) : Z :=
  match statvfs d with Some st => tally (on dirs d) (f_bsize st) cs | None => 0 end.
Definition touched (d : cstr) (cs : list (cstr * Z)) : bool :=
  match statvfs d with Some _ => existsb (fun c => on dirs d c.1) cs | None => false end.
Definition first_at (i : nat) (d : cstr) : Prop := dirs !! i = Some d /\ forall j, (j < i)%nat -> dirs !! j <> Some d.

Lemma on_inj d d' path : d ∈ dirs -> d' ∈ dirs -> on dirs d path = true -> on dirs d' path = true -> d = d'.
Proof.
  intros Hd Hd' [H1 H2]%on_spec [H3 H4]%on_spec.
  assert (length d = length d') as El by (apply Nat.le_antisymm; eauto).
  unfold covers in H1, H3. bool_hyps.
  match goal with H : is_prefix d _ = true, H' : is_prefix d' _ = true |- _ =>
    apply is_prefix_spec in H as [r ->]; apply is_prefix_spec in H' as [r' E] end.
  by apply app_inj_1 in E as [? _].
Qed.

Lemma first_unique i j d : first_at i d -> first_at j d -> i = j.
Proof.
  intros [Hi Hfi] [Hj Hfj]. destruct (Nat.lt_trichotomy i j) as [H|[H|H]]; [by apply Hfj in H|done|by apply Hfi in H].
Qed.

Lemma at_first i d path : first_at i d -> at_ i path = on dirs d path.
Proof.
  intros [Hi Hf]. unfold at_. assert (d ∈ dirs) as Hd by by eapply list_elem_of_lookup_2.
  destruct (place_spec dirs path Hsorted Hne) as [[E Hc]|(i' & d' & E & Hi' & Ho & Hf')]; rewrite E.
  - rewrite bool_decide_eq_false_2 by done. unfold on. by rewrite (Hc d).
  - assert (d' ∈ dirs) as Hd' by by eapply list_elem_of_lookup_2. apply eq_bool_prop_intro. rewrite bool_decide_spec, Is_true_true. split.
    + intros [= ->]. rewrite Hi in Hi'. by injection Hi' as <-.
    + intros Hod. pose proof (on_inj d d' path Hd Hd' Hod Ho) as <-.
      do 2 f_equal. by apply (first_unique _ _ d).
Qed.

Lemma at_later i d path : dirs !! i = Some d -> ~ first_at i d -> at_ i path = false.
Proof.
  intros Hi Hn. unfold at_. apply bool_decide_eq_false_2. intros E.
  destruct (place_spec dirs path Hsorted Hne) as [[E' _]|(i' & d' & E' & Hi' & _ & Hf)]; [congruence|].
  rewrite E in E'. injection E' as <-. rewrite Hi in Hi'. injection Hi' as <-. by apply Hn.
Qed.

Lemma existsb_ext_in {A} (f g : A -> bool) l : (forall x, f x = g x) -> existsb f l = existsb g l.
Proof. intros H. induction l as [|x l IH]; simpl; [done|]. by rewrite H, IH. Qed.

Lemma share_first i d cs : first_at i d -> share i cs = blocks_on d cs /\ hit i cs = touched d cs.
Proof.
  intros Hf. unfold share, hit, fs_at, blocks_on, touched. rewrite (proj1 Hf). simpl.
  destruct (statvfs d) as [st|]; [|done]. split; [apply tally_ext|apply existsb_ext_in]; intros; by apply at_first.
Qed.
Lemma hit_later i d cs : dirs !! i = Some d -> ~ first_at i d -> hit i cs = false.
Proof.
  intros Hi Hn. unfold hit. destruct (fs_at i); [|done].
  rewrite (existsb_ext_in _ (fun _ => false)); [|intros; by eapply at_later]. by induction cs.
Qed.

Lemma first_exists d : d ∈ dirs -> exists i, first_at i d.
Proof.
  intros [i Hi]%list_elem_of_lookup. revert Hi. induction i as [i IH] using lt_wf_ind. intros Hi.
  destruct (decide (Exists (fun j => dirs !! j = Some d) (seq 0 i))) as [H|H].
  - apply Exists_exists in H as (j & Hj & E). apply elem_of_seq in Hj. apply (IH j); [lia|done].
  - exists i. split; [done|]. intros j Hj E. apply H, Exists_exists. exists j. split; [apply elem_of_seq; lia|done].
Qed.

(** ** What a transaction needs *)

Section Fits.
Variables (lstat : cstr -> option (Z * Z)) (root dbpath : cstr).
Context {C : Type} `{!PkgCache C} (db_local : C) (add remove : list pkg).

(** The blocks the transaction takes on [d] when the packages [pre] are in and
    everything to remove is gone. *)
Definition net_on (d : cstr) (pre : list pkg) : Z :=
  blocks_on d (flat_map (installed root dbpath) pre) - blocks_on d (flat_map (removed lstat root) remove)
  - blocks_on d (flat_map (replaced lstat root db_local) pre).

(** The file system at [d] can take the transaction: it is writable when the
    transaction changes it, and when files come in then after every package
    there is room for what is there and a cushion. *)
Definition fits (d : cstr) : Prop :=
  match statvfs d with
  | None => True
  | Some st =>
      (touched d (flat_map (removed lstat root) remove) || touched d (flat_map (replaced lstat root db_local) add)
       || touched d (flat_map (installed root dbpath) add) = true -> writable st = true) /\
      (touched d (flat_map (installed root dbpath) add) = true ->
       cushion_of st <= f_bavail st /\
       forall pre, pre `prefix_of` add -> net_on d pre + cushion_of st <= f_bavail st)
  end.

Hypothesis Hsizes : sizes_ok (flat_map (removed lstat root) remove).

Lemma tally_nonneg sel b cs : 0 < b -> sizes_ok cs -> 0 <= tally sel b cs.
Proof.
  intros Hb. induction 1 as [|c cs Hc _ IH]; simpl; [lia|].
  pose proof (ceil_div_range c.2 b Hc Hb). destruct (sel c.1); lia.
Qed.

Lemma used_bits r s : (bits r s =? 0) = negb (r || s) /\ (Z.land (bits r s) USED_INSTALL =? 0) = negb s.
Proof. by destruct r, s. Qed.

Lemma bad_first mps i mp d :
  books lstat root dbpath db_local remove add mps -> mps !! i = Some mp -> first_at i d -> bad mp = false <-> fits d.
Proof.
  intros [Hs Hb] Hm Hf. destruct (Hb i mp Hm) as (_ & U & M).
  destruct (sane_lookup _ mps i d Hs (proj1 Hf)) as (mp' & Hm' & Ed & Hi & _). rewrite Hm in Hm'. injection Hm' as <-.
  destruct (share_first i d (flat_map (removed lstat root) remove) Hf) as [S1 T1].
  destruct (share_first i d (flat_map (replaced lstat root db_local) add) Hf) as [_ T2].
  destruct (share_first i d (flat_map (installed root dbpath) add) Hf) as [_ T3].
  assert (forall l, net lstat root dbpath db_local remove i l = net_on d l) as En.
  { intros l. unfold net, net_on. rewrite S1.
    destruct (share_first i d (flat_map (installed root dbpath) l) Hf) as [-> _].
    destruct (share_first i d (flat_map (replaced lstat root db_local) l) Hf) as [-> _]. done. }
  rewrite T1, T2, T3 in U. unfold bad, fits. rewrite U.
  destruct (used_bits (touched d (flat_map (removed lstat root) remove) || touched d (flat_map (replaced lstat root db_local) add))
    (touched d (flat_map (installed root dbpath) add))) as [-> ->]. rewrite !negb_involutive.
  destruct (statvfs d) as [st|] eqn:Est; [|unfold touched; by rewrite Est].
  set (t := touched d (flat_map (installed root dbpath) add)) in *.
  set (r := touched d (flat_map (removed lstat root) remove) || touched d (flat_map (replaced lstat root db_local) add)) in *.
  destruct (r || t) eqn:Ert; simpl.
  2:{ apply orb_false_iff in Ert as [_ ->]. split; [|done]. intros _. split; discriminate. }
  destruct (used_loaded mp Hi) as (_ & Es & Er).
  { rewrite U. destruct (used_bits r t) as [E _]. apply Z.eqb_neq. by rewrite E, Ert. }
  rewrite Ed, Est in Es. injection Es as Efs. rewrite <- Efs in *. rewrite Er.
  destruct (writable st); simpl; [|by split; [|intros [H _]; specialize (H eq_refl)]].
  destruct t; [|by split; [intros _; split; [|discriminate]|]].
  rewrite Z.ltb_ge. specialize (M (f_bavail st - cushion_of st)).
  destruct (Hstat _ _ Est) as (Hbs & Hfb & _).
  assert (net_on d [] <= 0) as H0.
  { unfold net_on, blocks_on. rewrite Est. simpl. pose proof (tally_nonneg (on dirs d) (f_bsize st) _ (proj1 Hbs) Hsizes). lia. }
  split.
  - intros H. split; [done|]. intros _. destruct (proj1 M ltac:(lia)) as [Hc Hp]. split; [lia|].
    intros [|p pre] Hpre; [lia|]. specialize (Hp (p :: pre) ltac:(done) Hpre). rewrite En in Hp. lia.
  - intros [_ H]. destruct (H eq_refl) as [Hc Hp]. assert (max_blocks_needed mp <= f_bavail st - cushion_of st); [|lia].
    apply M. split; [lia|]. intros l _ Hl. rewrite En. specialize (Hp l Hl). lia.
Qed.

Lemma bad_later mps i mp d :
  books lstat root dbpath db_local remove add mps -> mps !! i = Some mp -> dirs !! i = Some d -> ~ first_at i d -> bad mp = false.
Proof.
  intros [_ Hb] Hm Hi Hn. destruct (Hb i mp Hm) as (_ & U & _). unfold bad. rewrite U, !(hit_later i d) by done. done.
Qed.

Lemma all_fit mps :
  books lstat root dbpath db_local remove add mps -> existsb bad mps = false <-> (forall d, d ∈ dirs -> fits d).
Proof.
  intros Hb. pose proof (proj1 (proj1 Hb)) as Hd. split.
  - intros He d [i Hf]%first_exists. destruct (sane_lookup _ mps i d (proj1 Hb) (proj1 Hf)) as (mp & Hm & _).
    apply (bad_first mps i mp d Hb Hm Hf). destruct (bad mp) eqn:E; [|done]. exfalso.
    assert (existsb bad mps = true); [|congruence]. apply existsb_exists. exists mp. split; [|done].
    apply list_elem_of_In. by eapply list_elem_of_lookup_2.
  - intros Hf. destruct (existsb bad mps) eqn:E; [exfalso|done]. apply existsb_exists in E as (mp & Hin & Ebad).
    apply list_elem_of_In, list_elem_of_lookup in Hin as [i Hm].
    assert (dirs !! i = Some (mount_dir mp)) as Hi by (rewrite <- Hd, list_lookup_fmap, Hm; done).
    assert (bad mp = false); [|congruence]. destruct (first_exists (mount_dir mp)) as [j Hj]; [by eapply list_elem_of_lookup_2|].
    destruct (decide (i = j)) as [->|Hne'].
    + apply (bad_first mps j mp (mount_dir mp) Hb Hm Hj), Hf. by eapply list_elem_of_lookup_2.
    + apply (bad_later mps i mp (mount_dir mp) Hb Hm Hi). intros Hfi. apply Hne'. by eapply first_unique.
Qed.
End Fits.
End Accounting.


Lemma on_perm dirs dirs' d path : dirs ≡ₚ dirs' -> on dirs d path = on dirs' d path.
Proof.
  intros Hp. apply eq_bool_prop_intro. rewrite !Is_true_true, !on_spec. by setoid_rewrite Hp.
Qed.

Lemma fits_perm statvfs dirs dirs' lstat root dbpath `{!PkgCache C} (db_local : C) add remove d :
  dirs ≡ₚ dirs' ->
  fits statvfs dirs lstat root dbpath db_local add remove d <-> fits statvfs dirs' lstat root dbpath db_local add remove d.
Proof.
  intros Hp.
  assert (forall cs, blocks_on statvfs dirs d cs = blocks_on statvfs dirs' d cs) as Eb.
  { intros cs. unfold blocks_on. destruct (statvfs d); [|done]. apply tally_ext. intros c _. by apply on_perm. }
  assert (forall cs, touched statvfs dirs d cs = touched statvfs dirs' d cs) as Et.
  { intros cs. unfold touched. destruct (statvfs d); [|done]. apply existsb_ext_in. intros c. by apply on_perm. }
  unfold fits, net_on. destruct (statvfs d); [|done]. rewrite !Et. by setoid_rewrite Eb.
Qed.

Lemma mount_point_list_dirs l :
  exists dirs, mount_point_list (Some l) = new_mount_point <$> dirs /\ dirs ≡ₚ omap id l /\ sorted_dirs dirs.
Proof.
  exists (mount_dir <$> mount_point_list (Some l)).
  assert (mount_point_list (Some l) ≡ₚ new_mount_point <$> omap id l) as Hp by (apply KList.list_msort_perm; apply _).
  split_and!; [|rewrite Hp, <- list_fmap_compose; apply reflexive_eq, list_fmap_id|apply sorted_mount_points].
  rewrite <- list_fmap_compose. symmetry. rewrite <- (list_fmap_id (mount_point_list (Some l))) at 2.
  apply list_fmap_ext. intros i mp Hi. apply list_elem_of_lookup_2 in Hi. rewrite Hp in Hi.
  apply list_elem_of_fmap in Hi as (d & -> & _). done.
Qed.

Lemma check_sorted statvfs lstat root dbpath `{!PkgCache C} (db_local : C) mounted dirs add remove
    (Hml : mount_point_list mounted = new_mount_point <$> dirs) (Hs : sorted_dirs dirs)
    (Hne : [] ∉ dirs) (Hstat : stat_ok statvfs)
    (H1 : sizes_ok (flat_map (removed lstat root) remove))
    (H2 : sizes_ok (flat_map (replaced lstat root db_local) add))
    (H3 : sizes_ok (flat_map (installed root dbpath) add))
    (Hlt : charged lstat root dbpath db_local remove add < 2 ^ 62) :
  exists v, check_diskspace statvfs lstat root dbpath db_local mounted add remove = Some v /\
    (v = SPACE_OK <->
     (exists d, d ∈ dirs /\ covers d root = true) /\
     (forall d, d ∈ dirs -> fits statvfs dirs lstat root dbpath db_local add remove d)) /\
    (v = NO_MOUNT_POINTS <-> dirs = []).
Proof.
  unfold check_diskspace. rewrite Hml. destruct dirs as [|d0 ds].
  { exists NO_MOUNT_POINTS. split; [done|]. split; [|done]. split; [done|]. intros [(d & []%elem_of_nil & _) _]. }
  rewrite fmap_cons. cbv iota. rewrite <- fmap_cons. remember (d0 :: ds) as dirs eqn:Ed. change (match_mount_point (new_mount_point <$> dirs) root) with (place dirs root).
  destruct (place_spec dirs root Hs Hne) as [[-> Hc]|(i & d & -> & Hi & [Hc _]%on_spec & _)]; simpl.
  { exists ERR_DISK_SPACE. split; [done|]. split; [|by subst]. split; [done|].
    intros [(d & Hd & Hcov) _]. by rewrite Hc in Hcov. }
  pose proof (total_nonneg _ H2) as T2. pose proof (total_nonneg _ H3) as T3.
  destruct (remove_loop_ok statvfs dirs Hs Hne Hstat lstat root dbpath db_local remove H1) as (m1 & -> & B1).
  { unfold charged in Hlt. lia. }
  destruct (add_loop_ok statvfs dirs Hs Hne Hstat lstat root dbpath db_local remove add [] m1 B1 H2 H3 Hlt) as (m2 & E2 & B2).
  simpl in *. rewrite E2. simpl.
  rewrite (verify_loop_ok statvfs Hstat _ m2 false Hlt (proj2 (proj1 B2))). simpl.
  pose proof (all_fit statvfs dirs Hs Hne Hstat lstat root dbpath db_local add remove H1 m2 B2) as Hall.
  eexists. split; [reflexivity|]. split; [|by subst dirs; destruct (existsb _ _)].
  rewrite <- Hall. destruct (existsb bad m2); split; try done.
  - intros [_ [=]].
  - intros _. split; [|done]. exists d. split; [by eapply list_elem_of_lookup_2|done].
Qed.

(** C16: the disk space check.  For a mount table without empty directory names,
    sane file system data and a transaction of less than 2^62 bytes the check
    ends without overflow.  It succeeds exactly if the root belongs to a mount
    point and for every mount point [d]: the file system there is writable if the
    transaction changes it, and if files are installed there then after every
    package of the installation order the blocks of the files installed so far,
    less those removed or replaced so far, and the cushion of five percent or 20
    MiB fit into the blocks available.  A file counts for the longest mount
    directory that contains it, rounded up to whole blocks. *)
Theorem check_diskspace_spec statvfs lstat root dbpath `{!PkgCache C} (db_local : C) mounts add remove
    (Hne : [] ∉ omap id mounts) (Hstat : stat_ok statvfs)
    (H1 : sizes_ok (flat_map (removed lstat root) remove))
    (H2 : sizes_ok (flat_map (replaced lstat root db_local) add))
    (H3 : sizes_ok (flat_map (installed root dbpath) add))
    (Hlt : charged lstat root dbpath db_local remove add < 2 ^ 62) :
  exists v, check_diskspace statvfs lstat root dbpath db_local (Some mounts) add remove = Some v /\
    (v = SPACE_OK <->
     (exists d, d ∈ omap id mounts /\ covers d root = true) /\
     (forall d, d ∈ omap id mounts -> fits statvfs (omap id mounts) lstat root dbpath db_local add remove d)) /\
    (v = NO_MOUNT_POINTS <-> omap id mounts = []).
Proof.
  destruct (mount_point_list_dirs mounts) as (dirs & E & Hp & Hs).
  destruct (check_sorted statvfs lstat root dbpath db_local (Some mounts) dirs add remove) as (v & Ev & Hok & Hno);
    [done|done|by rewrite Hp|done..|]. exists v. split; [done|]. rewrite Hok, Hno. split; split.
  - intros [(d & Hd & Hc) Hf]. split; [exists d; by rewrite <- Hp|]. intros d' Hd'. rewrite <- Hp in Hd'.
    by apply (fits_perm _ dirs _ _ _ _ _ _ _ _ Hp), Hf.
  - intros [(d & Hd & Hc) Hf]. split; [exists d; by rewrite Hp|]. intros d' Hd'. rewrite Hp in Hd'.
    by apply (fits_perm _ dirs _ _ _ _ _ _ _ _ Hp), Hf.
  - intros ->. by apply Permutation_nil_l in Hp.
  - intros H. rewrite H in Hp. by apply Permutation_nil_r in Hp.
Qed.


(** An upgrade of one package on a system with two file systems. *)
Definition ex_statvfs (d : cstr) : option fsstat :=
  if decide (d = lit "/") then Some (FsStat 4096 100000 50000 0)
  else if decide (d = lit "/usr") then Some (FsStat 1024 10000 600 0) else None.
Definition ex_lstat (path : cstr) : option (Z * Z) :=
  if decide (path = lit "/usr/lib/a") then Some (33188, 100000) else None.
Definition ex_old : pkg := with_files (mkpkg 1 (lit "a") (lit "1")) [File (lit "usr/") 0 16877; File (lit "usr/lib/a") 9 33188].
Definition ex_new : pkg := with_files (mkpkg 2 (lit "a") (lit "2")) [File (lit "usr/") 0 16877; File (lit "usr/lib/a") 150000 33188].
Lemma ex_local_hashed : Forall pkg_hashed [ex_old].
Proof. by_decide. Qed.
Definition ex_local : pkglist := PkgList [ex_old] ex_local_hashed.
Definition ex_mounts : list (option cstr) := [Some (lit "/"); None; Some (lit "/usr"); Some (lit "/proc")].

Example ex_check :
  check_diskspace ex_statvfs ex_lstat (lit "/") (lit "/var/lib/kuzpkg/") ex_local (Some ex_mounts) [ex_new] [] = Some SPACE_OK.
Proof. vm_compute. reflexivity. Qed.

Lemma check_diskspace_witness :
  lit "/usr" ∈ omap id ex_mounts /\
    fits ex_statvfs (omap id ex_mounts) ex_lstat (lit "/") (lit "/var/lib/kuzpkg/") ex_local [ex_new] [] (lit "/usr").
Proof.
  split; [by_decide|].
  destruct (check_diskspace_spec ex_statvfs ex_lstat (lit "/") (lit "/var/lib/kuzpkg/") ex_local ex_mounts [ex_new] [])
    as (v & E & Hok & _); [by_decide| |by_decide..|vm_compute; reflexivity|].
  - intros d st. unfold ex_statvfs. repeat case_decide; intros [= <-]; simpl; lia.
  - rewrite ex_check in E. injection E as <-. apply Hok; [done|by_decide].
Defined.

(** ** Downloads *)

Definition download_size (b size : Z) : Z := (size + b + 1) / b.

Lemma download_size_range b size : 0 <= size -> 1 < b -> ceil_div size b <= download_size b size <= ceil_div size b + 1.
Proof.
  intros Hs Hb. unfold ceil_div, download_size. split.
  - apply Z.div_le_mono; lia.
  - replace ((size + b - 1) / b + 1) with ((size + b - 1 + 1 * b) / b) by (rewrite Z.div_add; lia).
    apply Z.div_le_mono; lia.
Qed.

Lemma download_blocks_ok b sizes : forall m,
  1 < b < 2 ^ 62 -> Forall (fun z => 0 <= z < 2 ^ 62) sizes -> 0 <= m -> m + foldr (fun z acc => z + 1 + acc) 0 sizes < 2 ^ 62 ->
  download_blocks m b sizes = Some (m + foldr (fun z acc => download_size b z + acc) 0 sizes).
Proof.
  induction sizes as [|z sizes IH]; intros m Hb Hf Hm Hlt; simpl; [by rewrite Z.add_0_r|].
  apply Forall_cons in Hf as [Hz Hf]. rewrite (proj2 (Z.eqb_neq b 0)) by lia. rewrite (u64_small (z + b + 1)) by lia.
  change ((z + b + 1) / b) with (download_size b z). simpl in Hlt.
  assert (0 <= foldr (fun z acc => z + 1 + acc) 0 sizes) by (clear -Hf; induction Hf; simpl; lia).
  pose proof (download_size_range b z (proj1 Hz) (proj1 Hb)). pose proof (ceil_div_range z b (proj1 Hz) ltac:(lia)).
  rewrite u64_small, s64_small, IH by (done || lia). f_equal. lia.
Qed.

(** The downloads fit when the check succeeds: whole blocks for every file and
    the cushion are available on the mount point of the cache directory. *)
Theorem check_downloadspace_safe statvfs realpath mounts cachedir sizes
    (Hne : [] ∉ omap id mounts) (Hstat : stat_ok statvfs)
    (Hb : forall d st, statvfs d = Some st -> 1 < f_bsize st < 2 ^ 62)
    (Hf : Forall (fun z => 0 <= z < 2 ^ 62) sizes) (Hlt : foldr (fun z acc => z + 1 + acc) 0 sizes < 2 ^ 62)
    (H : check_downloadspace statvfs realpath (Some mounts) cachedir sizes = Some SPACE_OK) :
  exists d st, d ∈ omap id mounts /\ on (omap id mounts) d (default cachedir (realpath cachedir)) = true /\
    statvfs d = Some st /\
    foldr (fun z acc => ceil_div z (f_bsize st) + acc) 0 sizes + cushion_of st <= f_bavail st.
Proof.
  destruct (mount_point_list_dirs mounts) as (dirs & E & Hp & Hs). unfold check_downloadspace in H. rewrite E in H.
  set (path := default cachedir (realpath cachedir)) in *.
  destruct dirs as [|d0 ds]; [done|]. rewrite fmap_cons in H. cbv iota in H. rewrite <- fmap_cons in H.
  remember (d0 :: ds) as dirs eqn:Ed. change (match_mount_point (new_mount_point <$> dirs) path) with (place dirs path) in H.
  rewrite <- Hp in Hne. destruct (place_spec dirs path Hs Hne) as [[Ep _]|(i & d & Ep & Hi & Ho & _)]; rewrite Ep in H; [done|].
  assert ((new_mount_point <$> dirs) !! i = Some (new_mount_point d)) as Em by (rewrite list_lookup_fmap, Hi; done).
  cbn [mbind option_bind] in H. rewrite Em in H. simpl in H.
  unfold load_fsinfo in H. simpl in H. destruct (statvfs d) as [st|] eqn:Est; simpl in H; [|done].
  rewrite download_blocks_ok in H by (done || eauto || lia). simpl in H.
  exists d, st. rewrite <- (on_perm dirs _ d path Hp). split_and!; [rewrite <- Hp; by eapply list_elem_of_lookup_2|done|done|].
  set (m := foldr (fun z acc => download_size (f_bsize st) z + acc) 0 sizes) in *.
  assert (foldr (fun z acc => ceil_div z (f_bsize st) + acc) 0 sizes <= m /\ 0 <= m <= foldr (fun z acc => z + 1 + acc) 0 sizes) as [Hm1 Hm2].
  { subst m. clear -Hf Est Hb. induction Hf as [|z l Hz _ IH]; simpl; [lia|].
    pose proof (download_size_range (f_bsize st) z (proj1 Hz) (proj1 (Hb d st Est))).
    pose proof (ceil_div_range z (f_bsize st) (proj1 Hz) ltac:(pose proof (Hb d st Est); lia)). lia. }
  set (mp := MountPoint _ _ _ _ _ _ _) in H.
  pose proof (check_mountpoint_ok statvfs Hstat mp st) as Hck. rewrite Hck in H; [|exact Est|reflexivity|simpl; lia].
  change (max_blocks_needed mp) with (0 + m) in H. destruct (Z.ltb_spec (f_bavail st) (0 + m + cushion_of st)); [done|lia].
Qed.

(** ** Two deviations *)

(** The comment says that each size is rounded up to whole blocks; a file that
    fills its blocks is counted with one more. *)
Theorem download_overcounts b k : 1 < b -> download_size b (k * b) = ceil_div (k * b) b + 1.
Proof.
  intros Hb. unfold download_size, ceil_div.
  replace (k * b + b + 1) with (1 + (k + 1) * b) by lia. replace (k * b + b - 1) with (b - 1 + k * b) by lia.
  rewrite !Z.div_add, !Z.div_small by lia. lia.
Qed.

(** The files of a package whose name starts with a dot stand for the database
    entry, but their path is the root followed by the absolute path of the
    database.  With root "/" no mount point but the root's covers it. *)
Theorem database_entry_misplaced c r dbpath :
  c <> "/"%char -> covers ("/"%char :: c :: r) (path_of (lit "/") ("/"%char :: dbpath)) = false.
Proof.
  intros Hc. unfold covers, path_of. simpl. by rewrite (bool_decide_eq_false_2 (c = _)).
Qed.

End DiskSpace.
