(* ===== verification/KeyId.v ===== *)
(** * Key IDs of OpenPGP signatures ([signing.c])

    [klpm_extract_keyid] walks through the packets of a detached signature and
    collects the issuer key IDs of their subpackets.  The signature comes from a
    file or a repository and is not trusted.  The model keeps the widths of the
    C expressions: positions are [size_t], lengths of four octets are computed
    in [int].  A read outside the array and a loop that has not ended are values
    of the result. *)

From S2P Require Import Prelude CStr Util.
Local Open Scope Z_scope.

Module KeyId.

(** [Fail]: the function returns -1; [Oob i]: it reads [sig[i]] outside the
    array. *)
Inductive res (A : Type) := Val (x : A) | Fail | Oob (i : Z) | NoFuel.
#[global] Arguments Val {A} x.
#[global] Arguments Fail {A}.
#[global] Arguments Oob {A} i.
#[global] Arguments NoFuel {A}.

Definition bind {A B} (r : res A) (k : A -> res B) : res B :=
  match r with Val x => k x | Fail => Fail | Oob i => Oob i | NoFuel => NoFuel end.
Declare Scope keyid_scope.
Notation "x <- m ; k" := (bind m (fun x => k)) (at level 100, m at next level, k at level 200, right associativity) : keyid_scope.
Local Open Scope keyid_scope.

(** Conversions to [int] and from [int] to [size_t]. *)
Definition s32 (z : Z) : Z := let m := z mod 2 ^ 32 in if m <? 2 ^ 31 then m else m - 2 ^ 32.
Definition size_of_int (z : Z) : Z := u64 z.

Section Parse.
Variable sig : cstr.
Definition len : Z := Z.of_nat (length sig).
Definition rd (i : Z) : res Z :=
  if i <? 0 then Oob i
  else match sig !! Z.to_nat i with Some c => Val (uchar c) | None => Oob i end.

(** [length_check]: [true] is the result 0. *)
Definition length_check (position a : Z) : bool := negb ((a =? 0) || (len <? position) || (len - position <=? a)).
Definition guard (b : bool) : res () := if b then Val () else Fail.

(** [(sig[p] << 8) | sig[p + 1]] *)
Definition be16 (p : Z) : res Z := a <- rd p; b <- rd (u64 (p + 1)); Val (Z.lor (Z.shiftl a 8) b).
(** [((sig[p] - 192) << 8) + sig[p + 1] + 192] *)
Definition two_octets (p : Z) : res Z := a <- rd p; b <- rd (u64 (p + 1)); Val (size_of_int (Z.shiftl (a - 192) 8 + b + 192)).
(** [(sig[p + 1] << 24) | (sig[p + 2] << 16) | (sig[p + 3] << 8) | sig[p + 4]] *)
Definition four_octets (p : Z) : res Z :=
  a <- rd (u64 (p + 1)); b <- rd (u64 (p + 2)); c <- rd (u64 (p + 3)); d <- rd (u64 (p + 4));
  Val (size_of_int (s32 (Z.lor (Z.lor (Z.lor (Z.shiftl a 24) (Z.shiftl b 16)) (Z.shiftl c 8)) d))).

(** [snprintf(&key[i * 2], 3, "%02X", sig[spos + i + 1])] for the eight octets. *)
Definition hex_upper (n : Z) : ascii := ascii_of_nat (Z.to_nat (if n <? 10 then 48 + n else 55 + n)).
Definition hex_octet (b : Z) : cstr := [hex_upper (b / 16); hex_upper (b mod 16)].
Fixpoint read_key (n : nat) (spos i : Z) : res cstr :=
  match n with
  | O => Val []
  | S n => b <- rd (u64 (spos + i + 1)); k <- read_key n spos (i + 1); Val (hex_octet b ++ k)
  end.

(** [parse_subpacket]; the fuel bounds the number of subpackets. *)
Fixpoint parse_subpacket (fuel : nat) (stop spos : Z) (keys : list cstr) : res (list cstr) :=
  match fuel with
  | O => NoFuel
  | S fuel =>
      if negb (spos <? stop) then Val keys
      else
        first <- rd spos;
        x <- (if first <? 192 then Val (first, u64 (spos + 1))
              else if first <? 255 then
                _ <- guard (length_check spos 2); l <- two_octets spos; Val (l, u64 (spos + 2))
              else
                _ <- guard (length_check spos 5); l <- four_octets spos; Val (l, u64 (spos + 5)));
        let '(slen, spos) := x in
        type <- rd spos;
        if type =? 16 then
          _ <- guard (length_check spos 8); key <- read_key 8 spos 0; Val (keys ++ [key])
        else
          _ <- guard (length_check spos slen); parse_subpacket fuel stop (u64 (spos + slen)) keys
  end.

(** The packet header: the length of the body and the position behind it. *)
Definition packet_header (pos : Z) : res (Z * Z) :=
  tag <- rd pos;
  if Z.land tag 128 =? 0 then Fail
  else if negb (Z.land tag 64 =? 0) then
    _ <- guard (length_check pos 1);
    let pos := u64 (pos + 1) in
    l <- rd pos;
    if l <? 192 then _ <- guard (length_check pos 1); blen <- rd pos; Val (blen, u64 (pos + 1))
    else if l <? 224 then _ <- guard (length_check pos 2); blen <- two_octets pos; Val (blen, u64 (pos + 2))
    else if l =? 255 then _ <- guard (length_check pos 5); blen <- four_octets pos; Val (blen, u64 (pos + 5))
    else Fail
  else
    let kind := Z.land tag 3 in
    if kind =? 0 then _ <- guard (length_check pos 2); blen <- rd (u64 (pos + 1)); Val (blen, u64 (pos + 2))
    else if kind =? 1 then _ <- guard (length_check pos 3); blen <- be16 (u64 (pos + 1)); Val (blen, u64 (pos + 3))
    else if kind =? 2 then _ <- guard (length_check pos 5); blen <- four_octets pos; Val (blen, u64 (pos + 5))
    else Fail.

(** The body of a signature packet: the position of the next packet. *)
Definition packet_body (fuel : nat) (blen pos : Z) (keys : list cstr) : res (Z * list cstr) :=
  _ <- guard (length_check pos 2);
  version <- rd pos;
  if negb (version =? 4) then Fail
  else
    type <- rd (u64 (pos + 1));
    if negb (type =? 0) then Fail
    else
      let pos := u64 (pos + 4) in
      _ <- guard (length_check pos 2);
      hlen <- be16 pos;
      _ <- guard (length_check pos (hlen + 2));
      let pos := u64 (pos + 2) in
      keys <- parse_subpacket fuel (u64 (pos + hlen)) pos keys;
      let pos := u64 (pos + hlen) in
      ulen <- be16 pos;
      _ <- guard (length_check pos (ulen + 2));
      let pos := u64 (pos + 2) in
      keys <- parse_subpacket fuel (u64 (pos + ulen)) pos keys;
      Val (u64 (pos + u64 (blen - hlen - 8)), keys).

(** [klpm_extract_keyid]; [sub] bounds the subpackets of one area. *)
Fixpoint packets (fuel sub : nat) (pos : Z) (keys : list cstr) : res (list cstr) :=
  match fuel with
  | O => NoFuel
  | S fuel =>
      if negb (pos <? len) then Val keys
      else
        h <- packet_header pos;
        b <- packet_body sub h.1 h.2 keys;
        packets fuel sub b.1 b.2
  end.
End Parse.
Definition extract_keyid (fuel : nat) (sig : cstr) : res (list cstr) := packets sig fuel (S (length sig)) 0 [].


Lemma read_key_S sig n spos i :
  read_key sig (S n) spos i = (b <- rd sig (u64 (spos + i + 1)); k <- read_key sig n spos (i + 1); Val (hex_octet b ++ k)).
Proof. done. Qed.
#[local] Arguments read_key : simpl never.

(** ** Outcomes

    [wp O N P r]: a value of [r] satisfies [P], a read outside the array satisfies
    [O], and [r] runs out of fuel only if [N]. *)
Definition wp {A} (O : Z -> Prop) (N : Prop) (P : A -> Prop) (r : res A) : Prop :=
  match r with Val x => P x | Fail => True | Oob i => O i | NoFuel => N end.

Lemma wp_bind {A B} O N (P : B -> Prop) (r : res A) k : wp O N (fun x => wp O N P (k x)) r -> wp O N P (bind r k).
Proof. by destruct r. Qed.
Lemma wp_mono {A} (O O' : Z -> Prop) (N N' : Prop) (P P' : A -> Prop) r :
  (forall i, O i -> O' i) -> (N -> N') -> (forall x, P x -> P' x) -> wp O N P r -> wp O' N' P' r.
Proof. destruct r; simpl; auto. Qed.
Lemma wp_cons {A} O N (P P' : A -> Prop) r : (forall x, P x -> P' x) -> wp O N P r -> wp O N P' r.
Proof. by apply wp_mono. Qed.
Lemma wp_guard O N b P : (b = true -> P ()) -> wp O N P (guard b).
Proof. destruct b; simpl; auto. Qed.

(** Case analysis along the binds of a parser. *)
Ltac step := apply wp_bind.

Definition never (_ : Z) : Prop := False.

Section Bounds.
Variable sig : cstr.
Notation len := (len sig).
Hypothesis Hlen : Z.of_nat (length sig) < 2 ^ 62.

Lemma length_check_true p a : 0 <= a -> length_check sig p a = true -> 0 < a /\ p + a < len.
Proof. unfold length_check. intros Ha H. bool_hyps. lia. Qed.

Lemma rd_ok O N i : 0 <= i < len -> wp O N (fun b => 0 <= b < 256) (rd sig i).
Proof.
  intros [H1 H2]. unfold rd. rewrite (proj2 (Z.ltb_ge i 0)) by done. unfold KeyId.len in H2.
  destruct (lookup_lt_is_Some_2 sig (Z.to_nat i)) as [c ->]; [lia|]. simpl. apply uchar_range.
Qed.

Lemma rd_at i c : sig !! Z.to_nat i = Some c -> 0 <= i -> rd sig i = Val (uchar c).
Proof. intros E H. unfold rd. by rewrite (proj2 (Z.ltb_ge i 0)), E. Qed.
Lemma rd_here i : 0 <= i < len -> exists c, sig !! Z.to_nat i = Some c /\ rd sig i = Val (uchar c).
Proof.
  intros H. destruct (lookup_lt_is_Some_2 sig (Z.to_nat i)) as [c E]; [unfold KeyId.len in H; lia|].
  exists c. split; [done|]. apply rd_at; [done|lia].
Qed.

Lemma lor_bound n a b : 0 <= n -> 0 <= a < 2 ^ n -> 0 <= b < 2 ^ n -> 0 <= Z.lor a b < 2 ^ n.
Proof.
  intros Hn Ha Hb. destruct (decide (a = 0)) as [->|]; [by rewrite Z.lor_0_l|].
  destruct (decide (b = 0)) as [->|]; [by rewrite Z.lor_0_r|].
  assert (0 <= Z.lor a b) as H0 by (apply Z.lor_nonneg; lia). split; [done|].
  assert (Z.lor a b <> 0) by (intros [-> _]%Z.lor_eq_0_iff; lia).
  apply Z.log2_lt_pow2; [lia|]. rewrite Z.log2_lor by lia. apply Z.max_lub_lt; apply Z.log2_lt_pow2; lia.
Qed.
Lemma shl_bound a k n : 0 <= a < 2 ^ n -> 0 <= k -> 0 <= n -> 0 <= Z.shiftl a k < 2 ^ (n + k).
Proof. intros Ha Hk Hn. rewrite Z.shiftl_mul_pow2, Z.pow_add_r by lia. pose proof (Z.pow_pos_nonneg 2 k). nia. Qed.

Lemma be16_range a b : 0 <= a < 256 -> 0 <= b < 256 -> 0 <= Z.lor (Z.shiftl a 8) b < 65536.
Proof.
  intros Ha Hb. apply (lor_bound 16); [done| |lia]. apply (shl_bound a 8 8); lia.
Qed.
Lemma be32_range a b c d n : 24 <= n <= 32 -> 0 <= a < 2 ^ (n - 24) -> 0 <= b < 256 -> 0 <= c < 256 -> 0 <= d < 256 ->
  0 <= Z.lor (Z.lor (Z.lor (Z.shiftl a 24) (Z.shiftl b 16)) (Z.shiftl c 8)) d < 2 ^ n.
Proof.
  intros Hn Ha Hb Hc Hd. assert (2 ^ 24 <= 2 ^ n) by (apply Z.pow_le_mono_r; lia).
  pose proof (shl_bound b 16 8 Hb). pose proof (shl_bound c 8 8 Hc). simpl in *.
  assert (0 <= Z.shiftl a 24 < 2 ^ n) by (replace n with (n - 24 + 24) by lia; apply shl_bound; lia).
  repeat apply lor_bound; lia.
Qed.

Lemma be16_ok O N p : 0 <= p -> p + 1 < len -> wp O N (fun l => 0 <= l < 65536) (be16 sig p).
Proof.
  intros H1 H2. unfold be16. step. eapply wp_cons; [|apply rd_ok; unfold KeyId.len in *; lia].
  intros a Ha. simpl. step. rewrite u64_small by (unfold KeyId.len in *; lia).
  eapply wp_cons; [|apply rd_ok; lia]. intros b Hb. simpl. by apply be16_range.
Qed.

Lemma two_octets_ok O N p a : rd sig p = Val a -> 192 <= a < 256 -> 0 <= p -> p + 1 < len ->
  wp O N (fun l => 0 <= l < 65536) (two_octets sig p).
Proof.
  intros E Ha H1 H2. unfold two_octets. rewrite E. cbn [bind]. step. rewrite u64_small by (unfold KeyId.len in *; lia).
  eapply wp_cons; [|apply rd_ok; lia]. intros b Hb. cbn beta in *. cbn [wp]. unfold size_of_int.
  rewrite Z.shiftl_mul_pow2 by lia. change (2 ^ 8) with 256. rewrite u64_small by lia. lia.
Qed.

Lemma four_octets_ok O N p : 0 <= p -> p + 4 < len -> wp O N (fun l => 0 <= l < 2 ^ 64) (four_octets sig p).
Proof.
  intros H1 H2. unfold four_octets. rewrite !u64_small by (unfold KeyId.len in *; lia).
  do 4 (step; eapply wp_cons; [|apply rd_ok; lia]; intros ? ?; simpl). apply Z.mod_pos_bound. lia.
Qed.

Lemma read_key_ok O N n : forall spos i, 0 <= spos -> 0 <= i -> spos + i + Z.of_nat n < len ->
  wp O N (fun _ => True) (read_key sig n spos i).
Proof.
  induction n as [|n IH]; intros spos i H1 H2 H3; [done|]. rewrite read_key_S. step.
  rewrite u64_small by (unfold KeyId.len in *; lia). eapply wp_cons; [|apply rd_ok; lia].
  intros b _. simpl. step. eapply wp_cons; [|apply IH; lia]. done.
Qed.

(** Follow the next read or test of a parser. *)
Ltac read_with L := step; eapply wp_cons; [|apply L; unfold KeyId.len in *; lia]; intros ? ?; cbn beta in *; simpl.
Ltac check_length := step; apply wp_guard; intros [? ?]%length_check_true; [|lia]; simpl.

(** An area of subpackets that ends before the array does is read within it. *)
Lemma parse_subpacket_ok fuel : forall stop spos keys,
  0 <= spos -> stop < len -> stop - spos < Z.of_nat fuel -> (0 < fuel)%nat ->
  wp never False (fun _ => True) (parse_subpacket sig fuel stop spos keys).
Proof.
  induction fuel as [|fuel IH]; intros stop spos keys H1 H2 Hf Hpos; [lia|]. simpl.
  destruct (Z.ltb_spec spos stop) as [Hlt|]; simpl; [|done].
  destruct (rd_here spos) as (c & _ & Ec); [lia|]. pose proof (uchar_range c) as Hc. rewrite Ec. cbn [bind]. step.
  apply (wp_cons _ _ (fun x => 0 <= x.1 /\ spos < x.2 /\ x.2 < len)).
  - intros [slen spos'] (Hs & Hp1 & Hp2). simpl in *. read_with rd_ok. destruct (_ =? 16).
    + check_length. read_with read_key_ok. done.
    + check_length. rewrite u64_small by (unfold KeyId.len in *; lia). apply IH; lia.
  - destruct (Z.ltb_spec (uchar c) 192); simpl; [rewrite u64_small by (unfold KeyId.len in *; lia); lia|].
    destruct (uchar c <? 255).
    + check_length. read_with (two_octets_ok never False spos (uchar c) Ec). rewrite u64_small by (unfold KeyId.len in *; lia). lia.
    + check_length. read_with four_octets_ok. rewrite u64_small by (unfold KeyId.len in *; lia). lia.
Qed.

Lemma packet_header_ok pos : 0 <= pos < len ->
  wp never False (fun h => 0 <= h.1 < 2 ^ 64 /\ pos < h.2 < len) (packet_header sig pos).
Proof.
  intros Hp. unfold packet_header. destruct (rd_here pos Hp) as (c & Ec & ->). cbn [bind].
  destruct (Z.eqb_spec (Z.land (uchar c) 128) 0) as [|H80]; [done|].
  destruct (Z.eqb_spec (Z.land (uchar c) 64) 0) as [H40|H40]; cbn [negb].
  - destruct (Z.eqb_spec (Z.land (uchar c) 3) 0); [|destruct (Z.eqb_spec (Z.land (uchar c) 3) 1); [|destruct (Z.eqb_spec (Z.land (uchar c) 3) 2) as [H2|]; [|done]]];
      check_length; rewrite !u64_small by (unfold KeyId.len in *; lia).
    + read_with rd_ok. lia.
    + read_with be16_ok. lia.
    + read_with four_octets_ok. lia.
  - check_length. rewrite !(u64_small (pos + 1)) by (unfold KeyId.len in *; lia).
    destruct (rd_here (pos + 1)) as (d & Ed & ->); [lia|]. cbn [bind].
    destruct (Z.ltb_spec (uchar d) 192); [|destruct (uchar d <? 224); [|destruct (Z.eqb_spec (uchar d) 255); [|done]]]; check_length;
      rewrite ?u64_small by (unfold KeyId.len in *; lia).
    + pose proof (uchar_range d). lia.
    + pose proof (uchar_range d). step. eapply wp_cons; [|apply (two_octets_ok _ _ (pos + 1) (uchar d)); [apply rd_at; [done|lia]|lia..]].
      intros l ?. cbn beta in *. simpl. lia.
    + read_with four_octets_ok. lia.
Qed.

(** The body is followed by the next packet; only the length of the unhashed
    area can be read past the end, and by one octet only. *)
Lemma packet_body_ok fuel blen pos keys :
  0 <= blen < 2 ^ 64 -> 0 <= pos < len -> len < Z.of_nat fuel ->
  wp (fun i => i = len) False (fun b => b.1 = u64 (pos + blen)) (packet_body sig fuel blen pos keys).
Proof.
  intros Hb Hp Hf. unfold packet_body. check_length. read_with rd_ok. destruct (negb _); [done|].
  rewrite (u64_small (pos + 1)), (u64_small (pos + 4)) by (unfold KeyId.len in *; lia). read_with rd_ok. destruct (negb _); [done|].
  check_length. step. eapply wp_cons; [|apply be16_ok; lia]. intros hlen Hh. cbn beta in *. check_length.
  rewrite !(u64_small (pos + 4 + 2)) by (unfold KeyId.len in *; lia). rewrite !(u64_small (pos + 4 + 2 + hlen)) by (unfold KeyId.len in *; lia).
  step. eapply (wp_mono never _ False _ (fun _ => True)); [done|done| |apply parse_subpacket_ok; lia]. intros keys1 _.
  step. eapply (wp_mono (fun i => i = len) _ False _ (fun l => 0 <= l < 65536)); [done|done| |].
  { intros ulen Hu. cbn beta in *. check_length. rewrite !(u64_small (pos + 4 + 2 + hlen + 2)) by (unfold KeyId.len in *; lia).
    rewrite (u64_small (_ + ulen)) by (unfold KeyId.len in *; lia).
    step. eapply (wp_mono never _ False _ (fun _ => True)); [done|done| |apply parse_subpacket_ok; lia]. intros keys2 _. simpl.
    unfold u64. rewrite Z.add_mod_idemp_r by lia. f_equal. lia. }
  unfold be16. step. eapply wp_cons; [|apply rd_ok; lia]. intros a Ha. cbn beta in *. step.
  rewrite u64_small by (unfold KeyId.len in *; lia).
  destruct (decide (pos + 4 + 2 + hlen + 1 = len)) as [E|].
  - rewrite E. unfold rd. rewrite (proj2 (Z.ltb_ge _ 0)) by lia. rewrite lookup_ge_None_2 by (unfold KeyId.len; lia). done.
  - eapply wp_cons; [|apply rd_ok; lia]. intros b' Hb'. by apply be16_range.
Qed.

(** The positions at which the walk looks for a packet. *)
Inductive at_packet : Z -> Prop :=
  | at_start : at_packet 0
  | at_next pos blen p1 keys next keys' :
      at_packet pos -> pos < len -> packet_header sig pos = Val (blen, p1) ->
      packet_body sig (S (length sig)) blen p1 keys = Val (next, keys') -> at_packet next.
(** None of the packets it comes to has a length of four octets with the highest bit
    set, which as an [int] is negative and moves the position backwards. *)
Definition lengths_ok : Prop :=
  forall pos blen p1, at_packet pos -> pos < len -> packet_header sig pos = Val (blen, p1) -> blen < 2 ^ 31.

Lemma packets_ok fuel : forall pos keys, 0 <= pos < 2 ^ 64 ->
  wp (fun i => i = len) (~ (lengths_ok /\ at_packet pos /\ len - pos < Z.of_nat fuel /\ (0 < fuel)%nat)) (fun _ => True)
    (packets sig fuel (S (length sig)) pos keys).
Proof.
  induction fuel as [|fuel IH]; intros pos keys Hp; [simpl; lia|]. simpl.
  destruct (Z.ltb_spec pos len) as [Hlt|]; simpl; [|done].
  pose proof (packet_header_ok pos ltac:(lia)) as Hh. destruct (packet_header sig pos) as [[blen p1]| | |] eqn:Eh; try done.
  destruct Hh as (Hb & Hp1). cbn [bind fst snd] in *.
  pose proof (packet_body_ok (S (length sig)) blen p1 keys Hb ltac:(lia) ltac:(unfold KeyId.len; lia)) as Hbody.
  destruct (packet_body sig (S (length sig)) blen p1 keys) as [[p2 k]| | |] eqn:Eb; try done. cbn [bind fst snd wp] in *. subst p2.
  assert (0 <= u64 (p1 + blen) < 2 ^ 64) as Hr by (apply Z.mod_pos_bound; lia).
  eapply (wp_mono (fun i => i = len)); [done| |done|apply (IH (u64 (p1 + blen)) k Hr)].
  intros Hn (Hsh & Hat & Hf & _). apply Hn. pose proof (Hsh pos blen p1 Hat Hlt Eh). split_and!; [done|by eapply at_next|..];
    rewrite ?u64_small by (unfold KeyId.len in *; lia); lia.
Qed.
End Bounds.

(** C17: the octets read.  Whatever a signature of less than 2^62 octets contains,
    [klpm_extract_keyid] reads no octet outside the array but possibly the one right
    behind its end; and if none of the packets it comes to has a four-octet length
    with the highest bit set, its loops end (after at most as many packets as there
    are octets). *)
Theorem extract_keyid_bounds sig (Hlen : Z.of_nat (length sig) < 2 ^ 62) :
  (forall fuel i, extract_keyid fuel sig = Oob i -> i = Z.of_nat (length sig)) /\
  (lengths_ok sig -> extract_keyid (S (length sig)) sig <> NoFuel).
Proof.
  split.
  - intros fuel i E. pose proof (packets_ok sig Hlen fuel 0 []) as H.
    unfold extract_keyid in E. rewrite E in H. by apply H.
  - intros Hs E. pose proof (packets_ok sig Hlen (S (length sig)) 0 []) as H.
    unfold extract_keyid in E. rewrite E in H. apply H; [lia|]. unfold len. split_and!; [done|constructor|lia|lia].
Qed.

(** ** Reference encoding of signatures (RFC 4880, section 5.2) *)

Definition octet (n : Z) : ascii := ascii_of_nat (Z.to_nat n).
Definition enc16 (n : Z) : cstr := [octet (n / 256); octet (n mod 256)].
Definition enc32 (n : Z) : cstr := [octet (n / 2 ^ 24); octet (n / 2 ^ 16 mod 256); octet (n / 2 ^ 8 mod 256); octet (n mod 256)].
(** Lengths of one, two and five octets; [lim] is the first that needs five. *)
Definition enc_length (lim n : Z) : cstr :=
  if n <? 192 then [octet n]
  else if n <? lim then [octet ((n - 192) / 256 + 192); octet ((n - 192) mod 256)]
  else octet 255 :: enc32 n.

(** A subpacket: its type and data. *)
Notation subpacket := (Z * cstr)%type.
Definition enc_subpacket (sp : subpacket) : cstr :=
  enc_length 16320 (Z.of_nat (length sp.2) + 1) ++ octet sp.1 :: sp.2.
Definition enc_area (l : list subpacket) : cstr :=
  let a := flat_map enc_subpacket l in enc16 (Z.of_nat (length a)) ++ a.

Inductive header := NewFormat | OldFormat1 | OldFormat2 | OldFormat4.
Record packet := Packet {
  p_header : header; p_algorithms : ascii * ascii; p_hashed : list subpacket; p_unhashed : list subpacket; p_rest : cstr }.
Definition enc_body (p : packet) : cstr :=
  [octet 4; octet 0; (p_algorithms p).1; (p_algorithms p).2] ++ enc_area (p_hashed p) ++ enc_area (p_unhashed p) ++ p_rest p.
Definition enc_header (h : header) (n : Z) : cstr :=
  match h with
  | NewFormat => octet 194 :: enc_length 8384 n
  | OldFormat1 => [octet 136; octet n]
  | OldFormat2 => octet 137 :: enc16 n
  | OldFormat4 => octet 138 :: enc32 n
  end.
Definition enc_packet (p : packet) : cstr := enc_header (p_header p) (Z.of_nat (length (enc_body p))) ++ enc_body p.

(** The key ID of the first issuer subpacket of an area. *)
Definition key_of (data : cstr) : cstr := flat_map (fun c => hex_octet (uchar c)) (take 8 data).
Definition issuer (l : list subpacket) : list cstr :=
  match List.find (fun sp => sp.1 =? 16) l with Some sp => [key_of sp.2] | None => [] end.
Definition issuers (p : packet) : list cstr := issuer (p_hashed p) ++ issuer (p_unhashed p).

Definition subpacket_ok (sp : subpacket) : Prop := 0 <= sp.1 < 256 /\ (sp.1 = 16 -> (8 <= length sp.2)%nat).
Definition area_ok (l : list subpacket) : Prop :=
  Forall subpacket_ok l /\ Z.of_nat (length (flat_map enc_subpacket l)) < 65536.
Definition header_fits (h : header) (n : Z) : Prop :=
  match h with NewFormat => n < 2 ^ 31 | OldFormat1 => n < 256 | OldFormat2 => n < 65536 | OldFormat4 => n < 2 ^ 31 end.
Definition packet_ok (p : packet) : Prop :=
  area_ok (p_hashed p) /\ area_ok (p_unhashed p) /\ p_rest p <> [] /\
  header_fits (p_header p) (Z.of_nat (length (enc_body p))).

Lemma uchar_octet n : 0 <= n < 256 -> uchar (octet n) = n.
Proof. intros H. unfold uchar, octet. rewrite nat_ascii_embedding by lia. lia. Qed.

Lemma lor_add a b k : 0 <= k -> 0 <= b < 2 ^ k -> Z.lor (Z.shiftl a k) b = a * 2 ^ k + b.
Proof.
  intros Hk Hb. rewrite <- Z.shiftl_mul_pow2 by done.
  assert (Z.land (Z.shiftl a k) b = 0) as H0.
  { apply Z.bits_inj'. intros n Hn. rewrite Z.land_spec, Z.bits_0. destruct (Z.lt_ge_cases n k).
    - by rewrite Z.shiftl_spec_low.
    - destruct (decide (b = 0)) as [->|]; [by rewrite Z.bits_0, andb_false_r|].
      rewrite (Z.bits_above_log2 b n), andb_false_r; [done|lia|]. apply Z.log2_lt_pow2; [lia|].
      apply Z.lt_le_trans with (2 ^ k); [lia|]. apply Z.pow_le_mono_r; lia. }
  rewrite Z.add_nocarry_lxor by done. by rewrite Z.lxor_lor.
Qed.


Lemma enc_subpacket_length sp : (2 <= length (enc_subpacket sp))%nat.
Proof.
  unfold enc_subpacket. rewrite length_app. simpl.
  assert (1 <= length (enc_length 16320 (Z.of_nat (length sp.2) + 1)))%nat; [|lia]. unfold enc_length.
  destruct (_ <? 192); [simpl; lia|]. destruct (_ <? 16320); simpl; lia.
Qed.

Lemma length_flat_subpackets l : (length l <= length (flat_map enc_subpacket l))%nat.
Proof. induction l as [|sp l IH]; simpl; [lia|]. rewrite length_app. pose proof (enc_subpacket_length sp). lia. Qed.

Lemma enc_body_length p : length (enc_body p) =
  (8 + length (flat_map enc_subpacket (p_hashed p)) + length (flat_map enc_subpacket (p_unhashed p)) + length (p_rest p))%nat.
Proof. unfold enc_body, enc_area. rewrite !length_app. simpl. lia. Qed.

Section RoundTrip.
Variable sig : cstr.
Hypothesis Hlen : Z.of_nat (length sig) < 2 ^ 62.

(** The octets from position [pos] on are [s]. *)
Definition here (pos : Z) (s : cstr) : Prop := 0 <= pos /\ drop (Z.to_nat pos) sig = s.

Lemma here_len pos s : here pos s -> s <> [] -> pos + Z.of_nat (length s) = len sig.
Proof.
  intros [H0 <-] Hs. rewrite length_drop. unfold len.
  destruct (decide (Z.to_nat pos < length sig)%nat); [lia|]. exfalso. apply Hs, drop_ge. lia.
Qed.
Lemma here_app pos a s : here pos (a ++ s) -> here (pos + Z.of_nat (length a)) s.
Proof.
  intros [H0 E]. split; [lia|]. rewrite Z2Nat.inj_add, Nat2Z.id by lia. rewrite <- drop_drop, E. apply drop_app_length.
Qed.
Lemma here_cons pos c s : here pos (c :: s) -> rd sig pos = Val (uchar c) /\ here (pos + 1) s /\ u64 (pos + 1) = pos + 1.
Proof.
  intros H. pose proof (here_len pos _ H ltac:(done)) as El. simpl in El. pose proof H as [H0 E]. split_and!.
  - apply rd_at; [|done]. rewrite <- (Nat.add_0_r (Z.to_nat pos)), <- lookup_drop, E. done.
  - exact (here_app pos [c] s H).
  - unfold len in El. apply u64_small. lia.
Qed.
Lemma here_rd pos c s i : here pos s -> s !! i = Some c -> rd sig (pos + Z.of_nat i) = Val (uchar c) /\ u64 (pos + Z.of_nat i) = pos + Z.of_nat i.
Proof.
  intros H Hi. pose proof (lookup_lt_Some _ _ _ Hi) as Hl. rewrite <- (take_drop_middle s i c Hi) in H. apply here_app in H.
  rewrite length_take_le in H by lia. pose proof (here_len _ _ H ltac:(done)).
  pose proof (proj1 H). apply here_cons in H as (? & _ & _). split; [done|]. unfold len in *. apply u64_small. simpl in *. lia.
Qed.
Lemma here_check pos s a : here pos s -> 0 < a < Z.of_nat (length s) -> length_check sig pos a = true.
Proof.
  intros H Ha. assert (s <> []) by (intros ->; simpl in *; lia). pose proof (here_len pos s H ltac:(done)).
  unfold length_check. rewrite (proj2 (Z.eqb_neq a 0)), (proj2 (Z.ltb_ge _ _)), (proj2 (Z.leb_gt _ _)) by lia. done.
Qed.

Lemma be16_here pos n s : 0 <= n < 65536 -> here pos (enc16 n ++ s) -> be16 sig pos = Val n.
Proof.
  intros Hn H. unfold be16. destruct (here_cons _ _ _ H) as (-> & H1 & ->). destruct (here_cons _ _ _ H1) as (-> & _ & _). simpl.
  pose proof (Z.div_mod n 256). pose proof (Z.mod_pos_bound n 256).
  assert (n / 256 < 256) by (apply Z.div_lt_upper_bound; lia). assert (0 <= n / 256) by (apply Z.div_pos; lia).
  rewrite !uchar_octet by lia. rewrite lor_add by lia. f_equal. lia.
Qed.
Lemma two_octets_here pos n s : 192 <= n < 16320 ->
  here pos ([octet ((n - 192) / 256 + 192); octet ((n - 192) mod 256)] ++ s) -> two_octets sig pos = Val n.
Proof.
  intros Hn H. unfold two_octets. destruct (here_cons _ _ _ H) as (-> & H1 & ->). destruct (here_cons _ _ _ H1) as (-> & _ & _). simpl.
  pose proof (Z.div_mod (n - 192) 256). pose proof (Z.mod_pos_bound (n - 192) 256).
  assert ((n - 192) / 256 < 64) by (apply Z.div_lt_upper_bound; lia). assert (0 <= (n - 192) / 256) by (apply Z.div_pos; lia).
  rewrite !uchar_octet by lia. rewrite Z.shiftl_mul_pow2 by lia. unfold size_of_int. rewrite u64_small by lia. f_equal. lia.
Qed.
Lemma enc32_value n : 0 <= n < 2 ^ 31 ->
  Z.lor (Z.lor (Z.lor (Z.shiftl (n / 2 ^ 24) 24) (Z.shiftl (n / 2 ^ 16 mod 256) 16)) (Z.shiftl (n / 2 ^ 8 mod 256) 8)) (n mod 256) = n.
Proof.
  intros Hn. pose proof (Z.mod_pos_bound n 256). pose proof (Z.mod_pos_bound (n / 2 ^ 8) 256). pose proof (Z.mod_pos_bound (n / 2 ^ 16) 256).
  rewrite (Z.shiftl_mul_pow2 (n / 2 ^ 16 mod 256)), lor_add by lia.
  replace (n / 2 ^ 24 * 2 ^ 24 + n / 2 ^ 16 mod 256 * 2 ^ 16) with (Z.shiftl (n / 2 ^ 16) 16).
  2:{ rewrite Z.shiftl_mul_pow2 by lia. change (2 ^ 24) with (2 ^ 16 * 256). rewrite <- Z.div_div by lia. pose proof (Z.div_mod (n / 2 ^ 16) 256). lia. }
  rewrite (Z.shiftl_mul_pow2 (n / 2 ^ 8 mod 256)), lor_add by lia.
  replace (n / 2 ^ 16 * 2 ^ 16 + n / 2 ^ 8 mod 256 * 2 ^ 8) with (Z.shiftl (n / 2 ^ 8) 8).
  2:{ rewrite Z.shiftl_mul_pow2 by lia. change (2 ^ 16) with (2 ^ 8 * 256). rewrite <- Z.div_div by lia. pose proof (Z.div_mod (n / 2 ^ 8) 256). lia. }
  rewrite lor_add by lia. change (2 ^ 8) with 256. pose proof (Z.div_mod n 256). lia.
Qed.
Lemma four_octets_here pos n c s : 0 <= n < 2 ^ 31 -> here pos (c :: enc32 n ++ s) -> four_octets sig pos = Val n.
Proof.
  intros Hn H. unfold four_octets.
  destruct (here_rd pos (octet (n / 2 ^ 24)) _ 1 H) as [E1 U1]; [done|]. destruct (here_rd pos (octet (n / 2 ^ 16 mod 256)) _ 2 H) as [E2 U2]; [done|].
  destruct (here_rd pos (octet (n / 2 ^ 8 mod 256)) _ 3 H) as [E3 U3]; [done|]. destruct (here_rd pos (octet (n mod 256)) _ 4 H) as [E4 U4]; [done|].
  change (Z.of_nat 1) with 1 in *. change (Z.of_nat 2) with 2 in *. change (Z.of_nat 3) with 3 in *. change (Z.of_nat 4) with 4 in *.
  rewrite U1, E1, U2, E2, U3, E3, U4, E4. cbn [bind].
  pose proof (Z.mod_pos_bound n 256). pose proof (Z.mod_pos_bound (n / 2 ^ 8) 256). pose proof (Z.mod_pos_bound (n / 2 ^ 16) 256).
  assert (n / 2 ^ 24 < 128) by (apply Z.div_lt_upper_bound; lia). assert (0 <= n / 2 ^ 24) by (apply Z.div_pos; lia).
  rewrite !uchar_octet by lia. rewrite enc32_value by done. unfold size_of_int, s32. rewrite Z.mod_small by lia.
  rewrite (proj2 (Z.ltb_lt n _)) by lia. by rewrite u64_small by lia.
Qed.

(** One subpacket length, as [parse_subpacket] reads it. *)
Lemma sub_length_here pos n s : 0 < n < 2 ^ 31 -> n < Z.of_nat (length s) -> here pos (enc_length 16320 n ++ s) ->
  exists first, rd sig pos = Val first /\
  (if first <? 192 then Val (first, u64 (pos + 1))
   else if first <? 255 then _ <- guard (length_check sig pos 2); l <- two_octets sig pos; Val (l, u64 (pos + 2))
   else _ <- guard (length_check sig pos 5); l <- four_octets sig pos; Val (l, u64 (pos + 5)))
  = Val (n, pos + Z.of_nat (length (enc_length 16320 n))) /\ here (pos + Z.of_nat (length (enc_length 16320 n))) s.
Proof.
  intros Hn Hs H. pose proof (here_app _ _ _ H) as Hnext.
  pose proof (here_len _ _ H ltac:(intros E; apply (f_equal length) in E; rewrite length_app in E; simpl in E; lia)) as El.
  rewrite length_app in El. pose proof (proj1 H) as H0. unfold len in El. unfold enc_length in *.
  destruct (Z.ltb_spec n 192); [|destruct (Z.ltb_spec n 16320)]; (eexists; split; [apply (here_cons _ _ _ H)|]); (split; [|exact Hnext]).
  - rewrite uchar_octet, (proj2 (Z.ltb_lt _ _)) by lia. simpl in *. by rewrite u64_small by lia.
  - assert (0 <= (n - 192) / 256 < 63) by (split; [apply Z.div_pos|apply Z.div_lt_upper_bound]; lia).
    rewrite uchar_octet, (proj2 (Z.ltb_ge _ 192)), (proj2 (Z.ltb_lt _ 255)) by lia.
    rewrite (here_check _ _ 2 H) by (simpl; lia). rewrite (two_octets_here _ n s) by (done || lia).
    simpl in *. by rewrite u64_small by lia.
  - rewrite uchar_octet by lia. simpl (255 <? _). cbv iota.
    rewrite (here_check _ _ 5 H) by (simpl; lia). rewrite (four_octets_here _ n (octet 255) s) by (done || lia).
    simpl in *. by rewrite u64_small by lia.
Qed.

Lemma read_key_here data : forall n pos i s, here (pos + i + 1) (data ++ s) -> 0 <= i -> 0 <= pos -> n = length data ->
  read_key sig n pos i = Val (flat_map (fun c => hex_octet (uchar c)) data).
Proof.
  induction data as [|c data IH]; intros n pos i s H Hi Hp ->; [done|]. cbn [length]. rewrite read_key_S.
  pose proof (here_len _ _ H ltac:(done)) as El. unfold len in El. rewrite u64_small by (simpl in *; lia).
  destruct (here_cons _ _ _ H) as (-> & H1 & _). cbn [bind]. rewrite (IH (length data) pos (i + 1) s); [done| |lia|done|done].
  by replace (pos + (i + 1) + 1) with (pos + i + 1 + 1) by lia.
Qed.

Lemma parse_subpacket_here l : forall fuel stop pos keys s,
  here pos (flat_map enc_subpacket l ++ s) -> s <> [] -> stop = pos + Z.of_nat (length (flat_map enc_subpacket l)) ->
  (length l < fuel)%nat -> Forall subpacket_ok l -> Z.of_nat (length (flat_map enc_subpacket l)) < 65536 ->
  parse_subpacket sig fuel stop pos keys = Val (keys ++ issuer l).
Proof.
  induction l as [|[ty data] l IH]; intros fuel stop pos keys s H Hs -> Hf Hok Hsz; (destruct fuel as [|fuel]; [simpl in Hf; lia|]).
  { simpl. rewrite (proj2 (Z.ltb_ge _ _)) by lia. simpl. by rewrite app_nil_r. }
  apply Forall_cons in Hok as [[Hty Hiss] Hok]. simpl in Hty, Hiss. cbn [flat_map] in H, Hsz |- *. rewrite length_app in Hsz |- *.
  pose proof (enc_subpacket_length (ty, data)) as H2. cbn [parse_subpacket]. rewrite (proj2 (Z.ltb_lt pos _)) by lia. cbn [negb].
  rewrite <- app_assoc in H. unfold enc_subpacket at 1 in H. cbn [fst snd] in H. rewrite <- app_assoc in H.
  set (n := Z.of_nat (length data) + 1) in *. pose proof (length_app (enc_length 16320 n) (octet ty :: data)) as E2.
  change (enc_length 16320 n ++ octet ty :: data) with (enc_subpacket (ty, data)) in E2. simpl in E2.
  assert (0 < length s)%nat by (destruct s; simpl; [done|lia]).
  destruct (sub_length_here pos n ((octet ty :: data) ++ flat_map enc_subpacket l ++ s)) as (first & -> & E & H1);
    [lia|rewrite !length_app; simpl; lia|done|]. cbn [bind]. rewrite E. cbn [bind].
  set (p1 := pos + Z.of_nat (length (enc_length 16320 n))) in *. pose proof (proj1 H1) as Hp1.
  destruct (here_cons _ _ _ H1) as (-> & Hd & _). cbn [bind]. rewrite uchar_octet by done. unfold issuer. cbn [List.find fst].
  destruct (Z.eqb_spec ty 16) as [->|Hne].
  - specialize (Hiss eq_refl). rewrite (here_check _ _ 8 H1) by (rewrite !length_app; simpl; lia). cbn [bind guard].
    rewrite (read_key_here (take 8 data) 8 p1 0 (drop 8 data ++ flat_map enc_subpacket l ++ s)); [done| |lia|done|by rewrite length_take_le].
    rewrite Z.add_0_r, app_assoc, take_drop. exact Hd.
  - rewrite (here_check _ _ n H1) by (rewrite !length_app; simpl; lia). cbn [bind guard].
    apply here_app in H1 as H3. simpl in H3. replace (Z.of_nat (S (length data))) with n in H3 by lia.
    pose proof (here_len _ _ H3) as El. unfold len in El. rewrite !length_app in El.
    rewrite u64_small.
    2:{ assert (flat_map enc_subpacket l ++ s <> []) as Hnn by (intros [_ ->]%app_eq_nil; done). specialize (El Hnn). lia. }
    rewrite (IH fuel _ (p1 + n) keys s); [done|done|done|lia|simpl in Hf; lia|done|lia].
Qed.

Lemma area_here l fuel pos keys s :
  here pos (enc_area l ++ s) -> s <> [] -> area_ok l -> (length sig < fuel)%nat ->
  be16 sig pos = Val (Z.of_nat (length (flat_map enc_subpacket l))) /\
  length_check sig pos (Z.of_nat (length (flat_map enc_subpacket l)) + 2) = true /\ u64 (pos + 2) = pos + 2 /\
  u64 (pos + 2 + Z.of_nat (length (flat_map enc_subpacket l))) = pos + 2 + Z.of_nat (length (flat_map enc_subpacket l)) /\
  parse_subpacket sig fuel (pos + 2 + Z.of_nat (length (flat_map enc_subpacket l))) (pos + 2) keys = Val (keys ++ issuer l) /\
  here (pos + 2 + Z.of_nat (length (flat_map enc_subpacket l))) s.
Proof.
  intros H Hs [Hok Hsz] Hf. unfold enc_area in H. rewrite <- app_assoc in H. pose proof (here_app _ _ _ H) as H2.
  change (Z.of_nat (length (enc16 _))) with 2 in H2. pose proof (here_app _ _ _ H2) as H3.
  pose proof (here_len _ _ H3 Hs) as El. unfold len in El. pose proof (proj1 H). pose proof (length_flat_subpackets l).
  assert (0 < length s)%nat by (destruct s; simpl; [done|lia]).
  split_and!; [eapply be16_here; [|exact H]; lia| |apply u64_small; lia|apply u64_small; lia| |done].
  - eapply here_check; [exact H|]. rewrite !length_app. simpl. lia.
  - eapply parse_subpacket_here; [exact H2|done|done|lia|done|done].
Qed.

Lemma header_here h n pos s :
  header_fits h n -> 8 <= n -> here pos (enc_header h n ++ s) -> Z.of_nat (length s) >= n ->
  packet_header sig pos = Val (n, pos + Z.of_nat (length (enc_header h n))).
Proof.
  intros Hf Hn H Hs. pose proof (here_len _ _ H ltac:(by destruct h)) as El. rewrite length_app in El. unfold len in El.
  pose proof (proj1 H) as H0. unfold packet_header. destruct h; cbn [enc_header] in *;
    destruct (here_cons _ _ _ H) as (-> & H1 & U1); cbn [bind]; rewrite uchar_octet by lia; cbn in Hf.
  - change (Z.land 194 128 =? 0) with false. change (Z.land 194 64 =? 0) with false. cbn [negb]. rewrite !U1.
    unfold enc_length in *.
    destruct (Z.ltb_spec n 192) as [Hn1|Hn1]; [|destruct (Z.ltb_spec n 8384) as [Hn2|Hn2]]; simpl length in *;
      (rewrite (here_check _ _ 1 H) by (simpl; lia)); cbn [guard bind].
    + destruct (here_cons _ _ _ H1) as (E1 & _ & _). rewrite !E1. cbn [bind]. rewrite uchar_octet, (proj2 (Z.ltb_lt n _)) by lia.
      rewrite (here_check _ _ 1 H1) by (simpl; lia). cbn [guard bind]. rewrite u64_small by lia. do 2 f_equal. lia.
    + destruct (here_cons _ _ _ H1) as (E1 & _ & _). rewrite E1. cbn [bind].
      assert (0 <= (n - 192) / 256 < 32) by (split; [apply Z.div_pos|apply Z.div_lt_upper_bound]; lia).
      rewrite uchar_octet, (proj2 (Z.ltb_ge _ 192)), (proj2 (Z.ltb_lt _ 224)) by lia.
      rewrite (here_check _ _ 2 H1) by (simpl; lia). cbn [guard bind].
      rewrite (two_octets_here _ n s) by (done || lia). cbn [bind]. rewrite u64_small by lia. do 2 f_equal. lia.
    + destruct (here_cons _ _ _ H1) as (E1 & _ & _). rewrite E1. cbn [bind]. rewrite uchar_octet by lia. cbn [Z.ltb Z.eqb].
      change (255 <? 192) with false. change (255 <? 224) with false. change (255 =? 255) with true. cbv iota.
      rewrite (here_check _ _ 5 H1) by (simpl; lia). cbn [guard bind].
      rewrite (four_octets_here _ n (octet 255) s) by (done || lia). cbn [bind]. rewrite u64_small by lia. do 2 f_equal. lia.
  - change (Z.land 136 128 =? 0) with false. change (Z.land 136 64 =? 0) with true. change (Z.land 136 3 =? 0) with true. cbn [negb].
    simpl length in *. rewrite (here_check _ _ 2 H) by (simpl; lia). cbn [guard bind]. rewrite U1.
    destruct (here_cons _ _ _ H1) as (-> & _ & _). cbn [bind]. rewrite uchar_octet, u64_small by lia. done.
  - change (Z.land 137 128 =? 0) with false. change (Z.land 137 64 =? 0) with true. change (Z.land 137 3 =? 0) with false.
    change (Z.land 137 3 =? 1) with true. cbn [negb].
    simpl length in *. rewrite (here_check _ _ 3 H) by (simpl; lia). cbn [guard bind]. rewrite U1.
    rewrite (be16_here _ n s) by (done || lia). cbn [bind]. rewrite u64_small by lia. done.
  - change (Z.land 138 128 =? 0) with false. change (Z.land 138 64 =? 0) with true. change (Z.land 138 3 =? 0) with false.
    change (Z.land 138 3 =? 1) with false. change (Z.land 138 3 =? 2) with true. cbn [negb].
    simpl length in *. rewrite (here_check _ _ 5 H) by (simpl; lia). cbn [guard bind].
    rewrite (four_octets_here _ n (octet 138) s) by (done || lia). cbn [bind]. rewrite u64_small by lia. done.
Qed.

Lemma body_here p fuel pos keys s :
  packet_ok p -> here pos (enc_body p ++ s) -> (length sig < fuel)%nat ->
  packet_body sig fuel (Z.of_nat (length (enc_body p))) pos keys = Val (pos + Z.of_nat (length (enc_body p)), keys ++ issuers p).
Proof.
  intros (Ha & Hu & Hr & _) H Hf. pose proof H as H0. unfold enc_body in H. rewrite <- !app_assoc in H.
  destruct (area_here (p_hashed p) fuel (pos + 4) keys (enc_area (p_unhashed p) ++ p_rest p ++ s)) as (E1 & C1 & U1 & V1 & P1 & H1);
    [exact (here_app _ _ _ H)|by intros [_ [? _]%app_eq_nil]%app_eq_nil|done|done|].
  set (hlen := Z.of_nat (length (flat_map enc_subpacket (p_hashed p)))) in *.
  destruct (area_here (p_unhashed p) fuel (pos + 4 + 2 + hlen) (keys ++ issuer (p_hashed p)) (p_rest p ++ s)) as (E2 & C2 & U2 & V2 & P2 & H2);
    [exact H1|by intros [? _]%app_eq_nil|done|done|].
  set (ulen := Z.of_nat (length (flat_map enc_subpacket (p_unhashed p)))) in *.
  assert (p_rest p ++ s <> []) as Hns by (by intros [? _]%app_eq_nil). pose proof (here_len _ _ H2 Hns) as El. rewrite length_app in El. unfold len in El.
  pose proof (proj1 H). unfold packet_body. rewrite (here_check _ _ 2 H0) by (rewrite length_app, enc_body_length; lia).
  cbn [guard bind]. destruct (here_cons _ _ _ H) as (-> & H5 & ->). cbn [bind]. rewrite uchar_octet by lia. cbn [negb Z.eqb].
  destruct (here_cons _ _ _ H5) as (-> & _ & _). cbn [bind]. rewrite uchar_octet by lia. change (4 =? 4) with true. change (0 =? 0) with true. cbn [negb].
  rewrite (u64_small (pos + 4)) by lia.
  assert (length_check sig (pos + 4) 2 = true) as ->.
  { revert C1. unfold length_check. rewrite !negb_true_iff, !orb_false_iff, !Z.eqb_neq, !Z.ltb_ge, !Z.leb_gt. lia. }
  cbn [guard bind]. rewrite E1. cbn [bind]. rewrite C1. cbn [guard bind]. rewrite U1, V1, P1. cbn [bind].
  rewrite E2. cbn [bind]. rewrite C2. cbn [guard bind]. rewrite U2, V2, P2. cbn [bind].
  unfold issuers. rewrite <- app_assoc. do 2 f_equal.
  unfold u64. rewrite Z.add_mod_idemp_r by lia. pose proof (enc_body_length p). rewrite Z.mod_small; lia.
Qed.

Lemma packets_here ps : forall fuel pos keys,
  Forall packet_ok ps -> here pos (flat_map enc_packet ps) -> pos <= len sig -> (length ps < fuel)%nat ->
  packets sig fuel (S (length sig)) pos keys = Val (keys ++ flat_map issuers ps).
Proof.
  induction ps as [|p ps IH]; intros fuel pos keys Hok H Hp Hf; (destruct fuel as [|fuel]; [simpl in Hf; lia|]); cbn [packets flat_map].
  - rewrite app_nil_r. rewrite (proj2 (Z.ltb_ge pos (len sig))); [done|]. destruct H as [H0 E].
    apply (f_equal length) in E. rewrite length_drop in E. simpl in E. unfold len in *. lia.
  - apply Forall_cons in Hok as [Hpk Hok]. cbn [flat_map] in H. unfold enc_packet in H. rewrite <- !app_assoc in H.
    pose proof (enc_body_length p) as Eb. assert (enc_header (p_header p) (Z.of_nat (length (enc_body p))) <> []) as Hne by (by destruct (p_header p)).
    pose proof (here_app _ _ _ H) as H1. pose proof (here_app _ _ _ H1) as H2.
    assert (enc_body p ++ flat_map enc_packet ps <> []) as Hnb by (intros [E _]%app_eq_nil; rewrite E in Eb; simpl in Eb; lia).
    pose proof (here_len _ _ H1 Hnb) as El. rewrite length_app in El.
    assert (0 < length (enc_header (p_header p) (Z.of_nat (length (enc_body p)))))%nat by (destruct (enc_header _ _); simpl; [done|lia]).
    rewrite (proj2 (Z.ltb_lt pos _)) by lia. cbn [negb].
    rewrite (header_here (p_header p) (Z.of_nat (length (enc_body p))) pos (enc_body p ++ flat_map enc_packet ps));
      [|apply Hpk|lia|done|rewrite length_app; lia]. cbn [bind fst snd].
    rewrite (body_here p _ _ keys (flat_map enc_packet ps)) by (done || lia). cbn [bind fst snd].
    rewrite IH; [by rewrite app_assoc|done|done|lia|simpl in Hf; lia].
Qed.
End RoundTrip.

Lemma enc_packets_length ps : (length ps <= length (flat_map enc_packet ps))%nat.
Proof.
  induction ps as [|p ps IH]; simpl; [lia|]. rewrite length_app.
  assert (8 <= length (enc_packet p))%nat; [|lia]. unfold enc_packet. rewrite length_app, enc_body_length. lia.
Qed.

(** C32: a signature built of version 4 packets with well-formed subpacket areas,
    in the old or the new packet format and with lengths of one, two or five
    octets, is read back: the result is the issuer key IDs in upper-case
    hexadecimal, for each packet the first of the hashed area and the first of
    the unhashed area, in order. *)
Theorem extract_keyid_roundtrip ps (Hok : Forall packet_ok ps)
    (Hlen : Z.of_nat (length (flat_map enc_packet ps)) < 2 ^ 62) :
  extract_keyid (S (length (flat_map enc_packet ps))) (flat_map enc_packet ps) = Val (flat_map issuers ps).
Proof.
  unfold extract_keyid. rewrite (packets_here _ Hlen ps); [done|done|done|unfold len; lia|].
  pose proof (enc_packets_length ps). lia.
Qed.

Definition ex_packet : packet :=
  Packet NewFormat (octet 1, octet 8) [(33, lit "fingerprint")] [(2, lit "time"); (16, lit "KEYIDKEY")] (lit "mpi").

Lemma ex_packet_ok : packet_ok ex_packet.
Proof.
  split_and!; [split; [|vm_compute; reflexivity]..|done|vm_compute; reflexivity];
    repeat constructor; simpl; (lia || (intros _; lia) || done).
Qed.

Lemma extract_keyid_roundtrip_witness :
  extract_keyid (S (length (flat_map enc_packet [ex_packet; ex_packet]))) (flat_map enc_packet [ex_packet; ex_packet])
  = Val (flat_map issuers [ex_packet; ex_packet]) /\ issuers ex_packet = [lit "4B455949444B4559"].
Proof.
  split; [|vm_compute; reflexivity]. apply (extract_keyid_roundtrip [ex_packet; ex_packet]).
  - constructor; [apply ex_packet_ok|constructor; [apply ex_packet_ok|constructor]].
  - vm_compute. reflexivity.
Defined.

(** ** Two defects *)

(** A signature that ends after the first octet of the length of the unhashed
    area: the second one is read behind the array. *)
Definition truncated : cstr := octet <$> [194; 7; 4; 0; 1; 8; 0; 0; 0].
(** A packet whose last octets look like a long length but are not read as one. *)
Definition tricky : cstr := octet <$> [194; 14; 4; 0; 1; 8; 0; 0; 0; 0; 255; 200; 1; 1; 1; 1].
Lemma tricky_lengths : lengths_ok tricky.
Proof.
  assert (forall pos, at_packet tricky pos -> pos = 0 \/ pos = 16) as Hat.
  { induction 1 as [|pos blen p1 keys next keys' _ IH Hlt Eh Eb]; [by left|]. destruct IH as [->| ->]; [|vm_compute in Hlt; discriminate Hlt].
    vm_compute in Eh. injection Eh as <- <-. vm_compute in Eb. injection Eb as <- _. by right. }
  intros pos blen p1 Hp Hlt Eh. destruct (Hat pos Hp) as [->| ->]; [|vm_compute in Hlt; discriminate Hlt].
  vm_compute in Eh. by injection Eh as <- _.
Qed.
Lemma extract_keyid_bounds_witness :
  extract_keyid 2 truncated = Oob 9 /\ 9 = Z.of_nat (length truncated) /\ extract_keyid (S (length tricky)) tricky <> NoFuel.
Proof.
  split; [vm_compute; reflexivity|]. split.
  - apply (proj1 (extract_keyid_bounds truncated ltac:(vm_compute; reflexivity)) 2%nat). vm_compute. reflexivity.
  - apply (proj2 (extract_keyid_bounds tricky ltac:(vm_compute; reflexivity))). exact tricky_lengths.
Defined.
Theorem unhashed_length_overread : extract_keyid 2 truncated = Oob (Z.of_nat (length truncated)).
Proof. vm_compute. reflexivity. Qed.

(** A packet length whose highest bit is set is negative as an [int]; this one
    leads back to the start of its own packet, and the loop does not end. *)
Definition cyclic : cstr := octet <$> [194; 255; 255; 255; 255; 250; 4; 0; 1; 8; 0; 0; 0; 0; 0].
Theorem negative_length_loops fuel : extract_keyid fuel cyclic = NoFuel.
Proof.
  unfold extract_keyid. generalize (@nil cstr) as keys. induction fuel as [|fuel IH]; intros keys; [done|].
  cbn [packets]. change (0 <? len cyclic) with true. cbn [negb].
  replace (packet_header cyclic 0) with (Val (2 ^ 64 - 6, 6)) by (vm_compute; reflexivity). cbn [bind fst snd].
  replace (packet_body cyclic (S (length cyclic)) (2 ^ 64 - 6) 6 keys) with (Val (0, keys)) by (vm_compute; reflexivity).
  apply IH.
Qed.

End KeyId.
