(* ===== verification/Archive.v ===== *)
(** * Reading lines from archives ([_klpm_archive_fgets] of util.c)

    libarchive hands out the data of an entry in blocks of its choice;
    [_klpm_archive_fgets] puts lines together from them in a buffer that grows.
    The blocks and return codes of [archive_read_data_block] that are still to
    come are part of the state.  A write outside the line buffer is a value of
    the result. *)

From S2P Require Import Prelude CStr Util LocalDb.
Local Open Scope Z_scope.

Module Archive.
Notation NL := LocalDb.NL.
Notation NUL := LocalDb.NUL.

(** <archive.h>, <errno.h> *)
Definition ARCHIVE_EOF : Z := 1.
Definition ARCHIVE_OK : Z := 0.
Definition ERANGE : Z := 34.

(** [struct archive_read_buffer]: [line_size] is [None] while [line] is NULL;
    [block] is the part of the block from [block_offset] on.  [blocks] are the
    results of the next calls of [archive_read_data_block]; after them it
    reports the end of the entry. *)
Record buffer := Buffer {
  line_size : option Z; max_line_size : Z; block : cstr; block_size : Z; ret : Z; blocks : list (Z * cstr) }.
(** [struct archive_read_buffer buf = {0}; buf.max_line_size = max] *)
Definition start (max : Z) (blocks : list (Z * cstr)) : buffer := Buffer None max [] 0 0 blocks.

(** The result of a call: [ARCHIVE_OK] with the line, another code after
    [cleanup], a write outside the buffer, or running out of fuel. *)
Inductive outcome (B : Type) := Line (l : cstr) (b : B) | Stop (r : Z) (b : B) | Overflow | NoFuel.
#[global] Arguments Line {B}.
#[global] Arguments Stop {B}.
#[global] Arguments Overflow {B}.
#[global] Arguments NoFuel {B}.

(** [cleanup]: the buffer is set to zero. *)
Definition cleanup (b : buffer) (r : Z) : outcome buffer := Stop r (Buffer None 0 [] 0 0 (blocks b)).

(** [archive_read_data_block] *)
Definition read_data_block (b : buffer) : buffer :=
  match blocks b with
  | [] => Buffer (line_size b) (max_line_size b) [] 0 ARCHIVE_EOF []
  | (r, data) :: bs => Buffer (line_size b) (max_line_size b) data (Z.of_nat (length data)) r bs
  end.

(** The two calls of [memchr] for the end of the line. *)
Definition find_eol (data : cstr) : option nat :=
  match memchr data NL (length data) with Some i => Some i | None => memchr data NUL (length data) end.

(** Allocation of the line buffer; [acc] is what is in it, [new] what comes. *)
Definition reserve (b : buffer) (acc : cstr) (new : Z) : option Z :=
  match line_size b with
  | None => Some (block_size b + 1)
  | Some size =>
      let needed := Z.of_nat (length acc) + new + 1 in
      if max_line_size b <? needed then None else Some (if size <? needed then needed else size)
  end.
Definition with_line (b : buffer) (size : Z) (data : cstr) : buffer :=
  Buffer (Some size) (max_line_size b) data (block_size b) (ret b) (blocks b).

(** One round of the loop after a block is there: the line is complete, it goes
    on with more data, or it is given up. *)
Definition scan (b : buffer) (acc : cstr) : outcome buffer + cstr * buffer :=
  let eol := find_eol (block b) in
  let new := Z.of_nat (match eol with Some i => i | None => length (block b) end) in
  match reserve b acc new with
  | None => inl (cleanup b (- ERANGE))
  | Some size =>
      match eol with
      | Some i =>
          if size <? Z.of_nat (length acc) + new + 1 then inl Overflow
          else inl (Line (acc ++ take i (block b)) (with_line b size (drop (S i) (block b))))
      | None =>
          if size <? Z.of_nat (length acc) + new then inl Overflow
          else if new =? 0 then
            if size <? Z.of_nat (length acc) + 1 then inl Overflow else inl (Line acc (with_line b size []))
          else inr (acc ++ block b, with_line b size [])
      end
  end.

(** [_klpm_archive_fgets] *)
Fixpoint fgets_loop (fuel : nat) (acc : cstr) (b : buffer) : outcome buffer :=
  match fuel with
  | O => NoFuel
  | S fuel =>
      let go b := match scan b acc with inl o => o | inr (acc, b) => fgets_loop fuel acc b end in
      match block b with
      | [] =>
          if ret b =? ARCHIVE_EOF then cleanup b ARCHIVE_EOF
          else let b := read_data_block b in
               if ret b <? ARCHIVE_OK then cleanup b (ret b) else go b
      | _ => go b
      end
  end.
Definition archive_fgets (b : buffer) : outcome buffer := fgets_loop (3 + length (blocks b)) [] b.

(** ** Sources of lines

    What the parsers of package and database files need: a source of lines. *)
Class LineSource (T : Type) := next_line : T -> outcome T.
#[global] Instance archive_source : LineSource buffer := archive_fgets.
(** The lines of a text, and then the end. *)
#[global] Instance lines_source : LineSource (list cstr) :=
  fun ls => match ls with [] => Stop ARCHIVE_EOF [] | l :: ls => Line l ls end.

(** Where the line last read is kept: its buffer is allocated anew exactly when
    it grows. *)
Class LinePtr (T : Type) := line_alloc : T -> option Z.
#[global] Instance archive_ptr : LinePtr buffer := line_size.
#[global] Instance lines_ptr : LinePtr (list cstr) := fun _ => None.

(** [_klpm_strip_newline] on a line with its length, which may hold NUL bytes. *)
Definition strip_line (l : cstr) : cstr * nat :=
  if decide (head l = Some NUL) then ([], 0%nat) else strip_newline l (length l).

(** The source delivers these lines and then ends. *)
Inductive delivers {T} `{!LineSource T} : T -> list cstr -> Prop :=
  | delivers_nil s s' : next_line s = Stop ARCHIVE_EOF s' -> delivers s []
  | delivers_cons s s' l ls : next_line s = Line l s' -> delivers s' ls -> delivers s (l :: ls).

(** ** The lines of a text *)

Fixpoint split_nl (s : cstr) : list cstr :=
  match s with
  | [] => [[]]
  | c :: s =>
      if decide (c = NL) then [] :: split_nl s
      else match split_nl s with [] => [[c]] | l :: ls => (c :: l) :: ls end
  end.


Lemma split_nl_app u v : NL ∉ u -> split_nl (u ++ NL :: v) = u :: split_nl v.
Proof.
  induction u as [|c u IH]; intros Hu; cbn [app split_nl]; [done|].
  apply not_elem_of_cons in Hu as [Hc Hu]. rewrite decide_False by congruence. by rewrite IH.
Qed.
Lemma split_nl_last u : NL ∉ u -> split_nl u = [u].
Proof.
  induction u as [|c u IH]; intros Hu; cbn [split_nl]; [done|].
  apply not_elem_of_cons in Hu as [Hc Hu]. rewrite decide_False by congruence. by rewrite IH.
Qed.

Lemma strip_line_none s : NL ∉ s -> NUL ∉ s -> strip_line s = (s, length s).
Proof.
  intros H H0. unfold strip_line, strip_newline. destruct s as [|c s]; [done|].
  rewrite decide_False by (intros [= ->]; apply H0; left). cbn [length Nat.eqb].
  assert (strip_newline_len (c :: s) (S (length s)) = S (length s)) as ->.
  { cbn [strip_newline_len]. rewrite decide_False; [done|]. intros E. apply H. by eapply list_elem_of_lookup_2. }
  by rewrite take_ge by done.
Qed.

Section Reading.
Variable max : Z.

Definition pending (b : buffer) : cstr := block b ++ concat (snd <$> blocks b).
(** More data is to come, or the end has been seen. *)
Record reading (b : buffer) : Prop := {
  r_max : max_line_size b = max;
  r_blocks : Forall (fun x => x.1 = ARCHIVE_OK /\ x.2 <> []) (blocks b);
  r_ret : ret b = ARCHIVE_OK;
  r_nul : NUL ∉ pending b
}.
Definition finished (b : buffer) : Prop := block b = [] /\ ret b = ARCHIVE_EOF.

Lemma find_eol_app u v : NL ∉ u -> find_eol (u ++ NL :: v) = Some (length u).
Proof. intros Hu. unfold find_eol. rewrite memchr_app; [done|done|]. rewrite length_app. simpl. lia. Qed.
Lemma find_eol_none s : NL ∉ s -> NUL ∉ s -> find_eol s = None.
Proof.
  intros H1 H2. unfold find_eol. rewrite (proj2 (memchr_None s NL (length s))) by (by rewrite take_ge).
  apply memchr_None. by rewrite take_ge.
Qed.

(** The room there is for what comes. *)
Lemma reserve_ok b acc new :
  max_line_size b = max -> (line_size b = None -> acc = [] /\ new <= block_size b) ->
  0 <= new -> Z.of_nat (length acc) + new + 1 <= max ->
  exists size, reserve b acc new = Some size /\ Z.of_nat (length acc) + new + 1 <= size.
Proof.
  intros Hm Hn H0 Hle. unfold reserve. destruct (line_size b) as [size|].
  - rewrite Hm, (proj2 (Z.ltb_ge _ _)) by done. eexists. split; [reflexivity|].
    destruct (Z.ltb_spec size (Z.of_nat (length acc) + new + 1)); lia.
  - destruct (Hn eq_refl) as [-> ?]. eexists. split; [reflexivity|]. simpl. lia.
Qed.

Lemma scan_eol b acc u v :
  max_line_size b = max -> (line_size b = None -> acc = [] /\ Z.of_nat (length (block b)) <= block_size b) ->
  block b = u ++ NL :: v -> NL ∉ u -> Z.of_nat (length (acc ++ u)) + 1 <= max ->
  exists size, scan b acc = inl (Line (acc ++ u) (with_line b size v)).
Proof.
  intros Hm Hn Eb Hu Hle. unfold scan. rewrite Eb, find_eol_app by done. rewrite length_app in Hle.
  destruct (reserve_ok b acc (Z.of_nat (length u))) as (size & -> & Hs); [done| |lia|lia|].
  { intros E. destruct (Hn E) as [-> Hb]. split; [done|]. rewrite Eb, length_app in Hb. simpl in Hb. lia. }
  rewrite (proj2 (Z.ltb_ge _ _)) by lia. exists size. rewrite take_app_length. do 3 f_equal.
  replace (S (length u)) with (length (u ++ [NL])) by (rewrite length_app; simpl; lia).
  replace (u ++ NL :: v) with ((u ++ [NL]) ++ v) by (by rewrite <- app_assoc). apply drop_app_length.
Qed.
Lemma scan_more b acc :
  max_line_size b = max -> (line_size b = None -> acc = [] /\ Z.of_nat (length (block b)) <= block_size b) ->
  NL ∉ block b -> NUL ∉ block b -> block b <> [] -> Z.of_nat (length (acc ++ block b)) + 1 <= max ->
  exists size, scan b acc = inr (acc ++ block b, with_line b size []).
Proof.
  intros Hm Hn Hnl Hnul Hne Hle. unfold scan. rewrite find_eol_none by done. rewrite length_app in Hle.
  destruct (reserve_ok b acc (Z.of_nat (length (block b)))) as (size & -> & Hs); [done| |lia|lia|].
  { intros E. by destruct (Hn E). }
  rewrite (proj2 (Z.ltb_ge _ _)) by lia. rewrite (proj2 (Z.eqb_neq _ 0)); [by exists size|]. destruct (block b); simpl; [done|lia].
Qed.
Lemma scan_end b acc :
  max_line_size b = max -> (line_size b = None -> acc = [] /\ 0 <= block_size b) ->
  block b = [] -> Z.of_nat (length acc) + 1 <= max ->
  exists size, scan b acc = inl (Line acc (with_line b size [])).
Proof.
  intros Hm Hn Eb Hle. unfold scan. rewrite Eb. change (find_eol []) with (@None nat). cbv iota.
  change (Z.of_nat (length (@nil ascii))) with 0.
  destruct (reserve_ok b acc 0) as (size & -> & Hs); [done| |lia|lia|].
  { intros E. destruct (Hn E). by split. }
  simpl. rewrite !(proj2 (Z.ltb_ge _ _)) by lia. by exists size.
Qed.

Lemma pending_with_line b size v : pending (with_line b size v) = v ++ concat (snd <$> blocks b).
Proof. done. Qed.

(** What a call gives: the text up to the next newline, or to the end. *)
Definition good (acc text : cstr) (out : outcome buffer) : Prop :=
  (forall u v, text = u ++ NL :: v -> NL ∉ u -> Z.of_nat (length (acc ++ u)) + 1 <= max ->
     exists b', out = Line (acc ++ u) b' /\ reading b' /\ pending b' = v /\ line_size b' <> None) /\
  (NL ∉ text -> Z.of_nat (length (acc ++ text)) + 1 <= max -> exists b', out = Line (acc ++ text) b' /\ finished b').

Lemma split_unique (u v u' v' : cstr) : NL ∉ u -> NL ∉ u' -> u ++ NL :: v = u' ++ NL :: v' -> u = u' /\ v = v'.
Proof.
  intros Hu Hu' E. pose proof (f_equal split_nl E) as Es. rewrite !split_nl_app in Es by done. injection Es as <- _.
  apply app_inv_head in E. by injection E as <-.
Qed.
Lemma split_later (a r u v : cstr) : NL ∉ a -> a ++ r = u ++ NL :: v -> exists u', u = a ++ u' /\ r = u' ++ NL :: v.
Proof.
  revert u. induction a as [|c a IH]; intros u Ha E; [by exists u|]. apply not_elem_of_cons in Ha as [Hc Ha].
  destruct u as [|c' u]; [by injection E as -> _|]. injection E as -> E. destruct (IH u Ha E) as (u' & -> & ->). by exists u'.
Qed.

Lemma reading_with_line b size v : reading b -> (exists w, block b = w ++ v) -> reading (with_line b size v).
Proof.
  intros [H1 H2 H3 H4] [w Ew]. split; [done|done|done|]. unfold pending in *. rewrite Ew in H4. cbn [block blocks with_line] in *.
  intros Hin. apply H4. rewrite <- app_assoc. by apply elem_of_app; right.
Qed.

Lemma block_ok b acc (rec : cstr -> buffer -> outcome buffer) :
  reading b -> block b <> [] -> (line_size b = None -> acc = [] /\ Z.of_nat (length (block b)) <= block_size b) ->
  (forall size, good (acc ++ block b) (concat (snd <$> blocks b)) (rec (acc ++ block b) (with_line b size []))) ->
  good acc (pending b) (match scan b acc with inl o => o | inr (acc, b) => rec acc b end).
Proof.
  intros Hr Hne Hn Hrec. destruct (decide (NL ∈ block b)) as [Hin|Hout].
  - apply list_elem_of_split_l in Hin as (u & v & Eb & Hu). unfold pending. rewrite Eb, <- app_assoc. cbn [app]. split.
    + intros u' v' E Hu' Hle. destruct (split_unique _ _ _ _ Hu Hu' E) as [<- <-].
      destruct (scan_eol b acc u v) as [size ->]; [apply Hr|done|done|done|done|]. eexists. split; [reflexivity|].
      split_and!; [|done|done]. apply reading_with_line; [done|]. exists (u ++ [NL]). by rewrite <- app_assoc.
    + intros H. exfalso. apply H. apply elem_of_app. right. by left.
  - assert (NUL ∉ block b) as Hnul by (intros H; apply (r_nul b Hr); unfold pending; apply elem_of_app; by left).
    unfold pending. split.
    + intros u v E Hu Hle. destruct (split_later _ _ _ _ Hout E) as (u' & -> & E').
      rewrite app_assoc in Hle. destruct (scan_more b acc) as [size ->];
        [apply Hr|done|done|done|done|rewrite length_app in Hle; lia|].
      rewrite app_assoc. destruct (Hrec size) as [H _]. apply H; [done| |done].
      intros Hin. apply Hu, elem_of_app. by right.
    + intros H Hle. rewrite app_assoc in Hle |- *. destruct (scan_more b acc) as [size ->];
        [apply Hr|done|done|done|done|rewrite length_app in Hle; lia|].
      destruct (Hrec size) as [_ H']. apply H'; [|done]. intros Hin. apply H, elem_of_app. by right.
Qed.

Lemma fgets_loop_ok fuel : forall acc b,
  reading b -> (length (blocks b) + (match block b with [] => 0 | _ => 1 end) < fuel)%nat ->
  (line_size b = None -> acc = [] /\ Z.of_nat (length (block b)) <= block_size b) ->
  good acc (pending b) (fgets_loop fuel acc b).
Proof.
  induction fuel as [|fuel IH]; intros acc b Hr Hf Hn; [lia|]. cbn [fgets_loop].
  destruct (block b) as [|c data] eqn:Eb.
  2:{ apply (block_ok b acc (fgets_loop fuel)); [done|by rewrite Eb|by rewrite Eb|]. intros size.
      apply (IH _ (with_line b size [])); [|cbn [blocks block with_line]; lia|done].
      apply reading_with_line; [done|]. exists (block b). by rewrite app_nil_r. }
  pose proof (r_ret b Hr) as Hret. rewrite Hret. change (ARCHIVE_OK =? ARCHIVE_EOF) with false. cbv iota.
  pose proof (r_blocks b Hr) as Hbl. pose proof (r_max b Hr) as Hmx. pose proof (r_nul b Hr) as Hnul.
  unfold pending, read_data_block in *. rewrite Eb in *. destruct (blocks b) as [|[r data] bs] eqn:Ebs.
  - cbn. split; [by intros [|? ?] v E|]. intros _ Hle. rewrite app_nil_r in *.
    destruct (scan_end (Buffer (line_size b) (max_line_size b) [] 0 ARCHIVE_EOF []) acc) as [size ->];
      [done|intros E; by destruct (Hn E)|done|done|]. eexists. split; [reflexivity|]. by split.
  - apply Forall_cons in Hbl as [[Hr0 Hd] Hbl]. cbn [fst snd] in Hr0, Hd. subst r. cbn [ret].
    change (ARCHIVE_OK <? ARCHIVE_OK) with false. cbv iota.
    set (b1 := Buffer (line_size b) (max_line_size b) data (Z.of_nat (length data)) ARCHIVE_OK bs).
    change (concat (snd <$> (ARCHIVE_OK, data) :: bs)) with (pending b1) in *. cbn [app] in *.
    assert (reading b1) as Hr1 by (by split).
    apply (block_ok b1 acc (fgets_loop fuel)); [done|done|intros E; destruct (Hn E); split; [done|cbn; lia]|].
    intros size. apply (IH _ (with_line b1 size [])); [|cbn in *; lia|done].
    apply reading_with_line; [done|]. exists data. by rewrite app_nil_r.
Qed.

Lemma finished_delivers b : finished b -> delivers b [].
Proof.
  intros [Eb Er]. econstructor. unfold next_line, archive_source, archive_fgets. cbn [fgets_loop Nat.add].
  rewrite Eb, Er. reflexivity.
Qed.

Lemma reading_delivers n : forall b, (length (pending b) < n)%nat ->
  reading b -> (line_size b = None -> Z.of_nat (length (block b)) <= block_size b) ->
  Forall (fun l => Z.of_nat (length l) + 1 <= max) (split_nl (pending b)) -> delivers b (split_nl (pending b)).
Proof.
  induction n as [|n IH]; intros b Hlt Hr Hn Hf; [lia|].
  destruct (fgets_loop_ok (3 + length (blocks b)) [] b Hr) as [H1 H2]; [destruct (block b); lia|auto|].
  destruct (decide (NL ∈ pending b)) as [Hin|Hout].
  - apply list_elem_of_split_l in Hin as (u & v & E & Hu). rewrite E, split_nl_app in Hf |- * by done.
    apply Forall_cons in Hf as [Hl Hf]. destruct (H1 u v E Hu Hl) as (b' & Eb & Hr' & <- & Hs).
    econstructor; [exact Eb|]. apply IH; [rewrite E, length_app in Hlt; simpl in Hlt; lia|done|done|done].
  - rewrite split_nl_last in Hf |- * by done. apply Forall_cons in Hf as [Hl _].
    destruct (H2 Hout Hl) as (b' & Eb & Hfin). econstructor; [exact Eb|]. by apply finished_delivers.
Qed.
End Reading.

Lemma start_delivers max blocks :
  Forall (fun x => x.1 = ARCHIVE_OK /\ x.2 <> []) blocks -> NUL ∉ concat (snd <$> blocks) ->
  Forall (fun l => Z.of_nat (length l) + 1 <= max) (split_nl (concat (snd <$> blocks))) ->
  delivers (start max blocks) (split_nl (concat (snd <$> blocks))).
Proof.
  intros Hb Hnul Hf. apply (reading_delivers max (S (length (concat (snd <$> blocks)))) (start max blocks)); [apply Nat.lt_succ_diag_r| |done|done]. by split.
Qed.

(** ** Any data

    Whatever libarchive delivers, a call returns and writes within its buffer,
    and there are only finitely many lines. *)
Definition buffer_ok (b : buffer) : Prop := line_size b = None -> Z.of_nat (length (block b)) <= block_size b.
Definition measure (b : buffer) : nat :=
  length (block b) + length (concat (snd <$> blocks b)) + length (blocks b) + (if ret b =? ARCHIVE_EOF then 0 else 1).

Definition safe (m : nat) (out : outcome buffer) : Prop :=
  match out with Line _ b => buffer_ok b /\ (measure b < m)%nat | Stop _ _ => True | Overflow | NoFuel => False end.

Lemma find_eol_lt data i : find_eol data = Some i -> (i < length data)%nat.
Proof.
  unfold find_eol. destruct (memchr data NL (length data)) as [j|] eqn:E; [intros [= <-]|clear E; intros E];
    by apply memchr_Some in E as [? _].
Qed.

Lemma scan_safe b acc :
  buffer_ok b -> (line_size b = None -> acc = []) ->
  match scan b acc with
  | inl (Line _ b') => buffer_ok b' /\ exists w, block b' = w /\ ret b' = ret b /\ blocks b' = blocks b /\
      (w = [] /\ block b = [] \/ (length w < length (block b))%nat)
  | inl (Stop _ _) => True
  | inl _ => False
  | inr (_, b') => exists size, b' = with_line b size [] /\ block b <> []
  end.
Proof.
  intros Hb Hn. unfold scan. set (new := Z.of_nat (match find_eol (block b) with Some i => i | None => length (block b) end)).
  assert (0 <= new <= Z.of_nat (length (block b))) as Hnew.
  { subst new. destruct (find_eol (block b)) as [i|] eqn:E; [apply find_eol_lt in E|]; lia. }
  destruct (reserve b acc new) as [size|] eqn:Er; [|done].
  assert (Z.of_nat (length acc) + new + 1 <= size) as Hs.
  { unfold reserve in Er. destruct (line_size b) as [sz|] eqn:El.
    - destruct (_ <? _); [done|]. injection Er as <-. destruct (Z.ltb_spec sz (Z.of_nat (length acc) + new + 1)); lia.
    - injection Er as <-. rewrite (Hn eq_refl). specialize (Hb El). simpl. lia. }
  destruct (find_eol (block b)) as [i|] eqn:E.
  - rewrite (proj2 (Z.ltb_ge _ _)) by lia. apply find_eol_lt in E. split; [done|]. eexists. split_and!; [done|done|done|].
    right. cbn [block with_line]. rewrite length_drop. lia.
  - rewrite (proj2 (Z.ltb_ge _ _)) by lia. destruct (Z.eqb_spec new 0) as [E0|E0].
    + rewrite (proj2 (Z.ltb_ge _ _)) by lia. split; [done|]. exists []. split_and!; [done|done|done|]. left. split; [done|].
      subst new. destruct (block b); [done|simpl in E0; lia].
    + exists size. split; [done|]. subst new. destruct (block b); [done|done].
Qed.

Lemma go_safe b acc m (rec : cstr -> buffer -> outcome buffer) :
  buffer_ok b -> (line_size b = None -> acc = []) -> (measure b <= m)%nat -> (block b = [] -> (measure b < m)%nat) ->
  (forall acc size, block b <> [] -> safe m (rec acc (with_line b size []))) ->
  safe m (match scan b acc with inl o => o | inr (acc, b) => rec acc b end).
Proof.
  intros Hb Hn Hm Hm0 Hrec. pose proof (scan_safe b acc Hb Hn) as Hs. destruct (scan b acc) as [[l b'|r b'| |]|[acc' b']]; try done.
  - destruct Hs as (Hok & w & Ew & Er & Ebl & Hw). split; [done|]. unfold measure in *. rewrite Ew, Er, Ebl.
    destruct Hw as [[-> E]|Hw]; [|lia]. specialize (Hm0 E). rewrite E in Hm0. simpl in *. lia.
  - destruct Hs as (size & -> & Hne). by apply Hrec.
Qed.

Lemma fgets_loop_safe fuel : forall acc b m,
  buffer_ok b -> (line_size b = None -> acc = []) -> (measure b <= m)%nat ->
  (length (blocks b) + (match block b with [] => 0 | _ => 1 end) < fuel)%nat -> safe m (fgets_loop fuel acc b).
Proof.
  induction fuel as [|fuel IH]; intros acc b m Hb Hn Hm Hf; [lia|]. cbn [fgets_loop].
  assert (forall b, (length (blocks b) < fuel)%nat -> (measure b <= m)%nat ->
    forall acc size, block b <> [] -> safe m (fgets_loop fuel acc (with_line b size []))) as Hrec.
  { intros b0 Hf0 Hm0 acc0 size Hne. apply IH; [done|done| |cbn [blocks block with_line]; lia].
    unfold measure in *. cbn [blocks block with_line ret] in *. simpl length. lia. }
  destruct (block b) as [|c data] eqn:Eb.
  2:{ apply go_safe; [done|done|done|congruence|]. apply Hrec; [lia|done]. }
  destruct (Z.eqb_spec (ret b) ARCHIVE_EOF) as [|Hret]; [done|]. unfold read_data_block.
  destruct (blocks b) as [|[r data] bs] eqn:Ebs; cbn [ret].
  - change (ARCHIVE_EOF <? ARCHIVE_OK) with false. cbv iota.
    assert ((measure (Buffer (line_size b) (max_line_size b) [] 0 ARCHIVE_EOF []) < m)%nat).
    { unfold measure in *. rewrite Eb, Ebs, (proj2 (Z.eqb_neq _ _) Hret) in Hm. cbn in *. lia. }
    apply go_safe; [by intros _|done|lia|done|done].
  - destruct (r <? ARCHIVE_OK); [done|].
    assert ((measure (Buffer (line_size b) (max_line_size b) data (Z.of_nat (length data)) r bs) < m)%nat) as Hlt.
    { unfold measure in *. rewrite Eb, Ebs, (proj2 (Z.eqb_neq _ _) Hret) in Hm. cbn [blocks block ret fmap list_fmap snd concat length] in *.
      rewrite length_app in Hm. destruct (r =? ARCHIVE_EOF); lia. }
    apply go_safe; [by intros _|done|lia|done|]. apply Hrec; [cbn in *; lia|lia].
Qed.

(** Each line uses up some of the measure. *)
Lemma archive_fgets_safe b : buffer_ok b -> safe (measure b) (archive_fgets b).
Proof. intros Hb. apply fgets_loop_safe; [done|done|lia|]. destruct (block b); lia. Qed.

(** ** The line buffer stays where it is

    The first call allocates the line buffer for a line of the size of the first
    block; it is moved when a longer line comes. *)
Definition no_long (m : nat) (text : cstr) : Prop := forall u v w, text = u ++ v ++ w -> NL ∉ v -> (length v <= m)%nat.
Lemma no_long_suffix m u text : no_long m (u ++ text) -> no_long m text.
Proof. intros H u' v w -> Hv. apply (H (u ++ u') v w); [by rewrite <- app_assoc|done]. Qed.
Lemma no_long_prefix m u v text : no_long m text -> text = u ++ v -> NL ∉ u -> (length u <= m)%nat.
Proof. intros H -> Hu. by apply (H [] u v). Qed.
Lemma segments_no_long m text : Forall (fun l => (length l <= m)%nat) (split_nl text) -> no_long m text.
Proof.
  intros H u. revert text H. induction u as [|c u IH]; intros text H v w -> Hv.
  - cbn [app] in H. destruct (decide (NL ∈ w)) as [Hin|Hw].
    + apply list_elem_of_split_l in Hin as (w1 & w2 & -> & Hw1). rewrite app_assoc, split_nl_app in H by set_solver.
      apply Forall_cons in H as [H _]. rewrite length_app in H. lia.
    + rewrite split_nl_last in H by set_solver. apply Forall_cons in H as [H _]. rewrite length_app in H. lia.
  - refine (IH _ _ v w eq_refl Hv). cbn [app split_nl] in H. destruct (decide (c = NL)); [by apply Forall_cons in H as [_ H]|].
    destruct (split_nl (u ++ v ++ w)) as [|l ls]; [done|]. apply Forall_cons in H as [H1 H2]. apply Forall_cons. simpl in H1. split; [lia|done].
Qed.

Definition sized (m : nat) (b : buffer) : Prop :=
  line_size b = Some (Z.of_nat m + 1) \/ line_size b = None /\ block_size b = Z.of_nat m.
Lemma find_eol_nl data i : find_eol data = Some i -> NL ∉ take i data.
Proof.
  unfold find_eol. destruct (memchr data NL (length data)) as [j|] eqn:E.
  - intros [= <-]. by eapply memchr_first.
  - intros H%memchr_Some. destruct H as (Hi & _). apply memchr_None in E. rewrite take_ge in E by done.
    rewrite <- (take_drop i data) in E. set_solver.
Qed.

Lemma scan_sized m b acc : sized m b -> (line_size b = None -> acc = []) -> NL ∉ acc -> no_long m (acc ++ pending b) ->
  match scan b acc with
  | inl (Line _ b') => line_size b' = Some (Z.of_nat m + 1) /\ no_long m (pending b')
  | inl _ => True
  | inr (acc', b') => line_size b' = Some (Z.of_nat m + 1) /\ NL ∉ acc' /\ no_long m (acc' ++ pending b')
  end.
Proof.
  intros Hz Hacc Hn Hl. unfold scan. set (i := match find_eol (block b) with Some i => i | None => length (block b) end).
  assert (NL ∉ take i (block b)) as Hi.
  { subst i. destruct (find_eol (block b)) as [i|] eqn:E; [by eapply find_eol_nl|]. unfold find_eol in E.
    destruct (memchr (block b) NL (length (block b))) eqn:E1; [done|]. by apply memchr_None in E1. }
  assert (i <= length (block b))%nat as Hle by (subst i; destruct (find_eol (block b)) eqn:E; [apply find_eol_lt in E|]; lia).
  assert (length acc + i <= m)%nat as Hm.
  { pose proof (no_long_prefix m (acc ++ take i (block b)) (drop i (block b) ++ concat (snd <$> blocks b)) _ Hl) as H.
    rewrite length_app, length_take in H. rewrite Nat.min_l in H by done. apply H; [|set_solver].
    unfold pending. rewrite <- !app_assoc. f_equal. by rewrite app_assoc, take_drop. }
  assert (reserve b acc (Z.of_nat i) = Some (Z.of_nat m + 1) \/ reserve b acc (Z.of_nat i) = None) as [Er|Er].
  { unfold reserve. destruct Hz as [->|[-> ->]]; [|by left]. destruct (_ <? _); [by right|]. left.
    by rewrite (proj2 (Z.ltb_ge _ _)) by lia. }
  2:{ by rewrite Er. }
  rewrite Er. destruct (find_eol (block b)) as [j|] eqn:E.
  - destruct (_ <? _); [done|]. split; [done|]. unfold pending in *. cbn [block with_line blocks].
    apply (no_long_suffix m (acc ++ take (S j) (block b))). rewrite <- app_assoc, (app_assoc (take _ _)), take_drop. done.
  - destruct (_ <? _); [done|]. destruct (_ =? _).
    + destruct (_ <? _); [done|]. split; [done|]. unfold pending in *. cbn [block with_line blocks app].
      apply (no_long_suffix m (acc ++ block b)). by rewrite <- app_assoc.
    + split; [done|]. subst i. rewrite take_ge in Hi by done. split; [set_solver|].
      unfold pending in *. cbn [block with_line blocks app]. by rewrite <- app_assoc.
Qed.

(** Before the first call, and between calls. *)
Definition settled (m : nat) (b : buffer) : Prop :=
  no_long m (pending b) /\
  (line_size b = Some (Z.of_nat m + 1) \/
   line_size b = None /\ block b = [] /\ m = match blocks b with [] => O | x :: _ => length x.2 end).
Lemma fgets_loop_settled m fuel : forall acc b l b', NL ∉ acc -> no_long m (acc ++ pending b) ->
  (line_size b = Some (Z.of_nat m + 1) \/ acc = [] /\ settled m b) -> fgets_loop fuel acc b = Line l b' ->
  line_size b' = Some (Z.of_nat m + 1) /\ no_long m (pending b').
Proof.
  induction fuel as [|fuel IH]; intros acc b l b' Hacc Hl Hs; [done|]. cbn [fgets_loop].
  assert (forall c, sized m c -> (line_size c = None -> acc = []) -> no_long m (acc ++ pending c) ->
    match scan c acc with inl o => o | inr (acc, b) => fgets_loop fuel acc b end = Line l b' ->
    line_size b' = Some (Z.of_nat m + 1) /\ no_long m (pending b')) as Hgo.
  { intros c Hz Hc Hlc E. pose proof (scan_sized m c acc Hz Hc Hacc Hlc) as H. destruct (scan c acc) as [o|[acc' c']].
    - by subst o.
    - destruct H as (H1 & H2 & H3). by eapply (IH acc' c'); [| |left|]. }
  destruct (block b) as [|x data] eqn:Eb.
  - destruct (ret b =? ARCHIVE_EOF); [done|]. destruct (ret (read_data_block b) <? ARCHIVE_OK); [done|]. apply Hgo.
    + unfold sized, read_data_block. destruct Hs as [Hs|(-> & _ & [Hs|(Hs & _ & Em)])]; destruct (blocks b) as [|[r d] bs]; simpl in *; subst; auto.
    + intros E. destruct Hs as [Hs|[-> _]]; [|done]. unfold read_data_block in E. destruct (blocks b) as [|[]]; simpl in E; congruence.
    + unfold pending, read_data_block in *. rewrite Eb in Hl. by destruct (blocks b) as [|[r d] bs].
  - assert (line_size b = Some (Z.of_nat m + 1)) as E by (destruct Hs as [|(_ & _ & [|(_ & ? & _)])]; congruence).
    apply Hgo; [by left|congruence|done].
Qed.
Lemma fgets_settled m b l b' : settled m b -> archive_fgets b = Line l b' -> settled m b' /\ line_size b' = Some (Z.of_nat m + 1).
Proof.
  intros Hs E. destruct (fgets_loop_settled m _ [] b l b' (not_elem_of_nil _) (proj1 Hs) (or_intror (conj eq_refl Hs)) E) as [H1 H2].
  split; [|done]. split; [done|by left].
Qed.

(** The source delivers these lines into a buffer that stays in place. *)
Inductive steady {T} `{!LineSource T} `{!LinePtr T} (a : option Z) : T -> list cstr -> Prop :=
  | steady_nil s s' : next_line s = Stop ARCHIVE_EOF s' -> steady a s []
  | steady_cons s s' l ls : next_line s = Line l s' -> line_alloc s' = a -> steady a s' ls -> steady a s (l :: ls).
Lemma delivers_steady m b ls : delivers b ls -> settled m b -> steady (Some (Z.of_nat m + 1)) b ls.
Proof.
  induction 1 as [b b' E|b b' l ls E _ IH]; intros Hs; [by econstructor|].
  destruct (fgets_settled m b l b' Hs E) as [Hs' Ha]. econstructor; [exact E|exact Ha|by apply IH].
Qed.

Lemma lines_deliver (ls : list cstr) : delivers ls ls.
Proof. induction ls as [|l ls IH]; [by econstructor|]. by econstructor. Qed.

(** C31: [_klpm_archive_fgets] delivers the lines of an entry, whatever blocks
    libarchive cuts its data into: for data without NUL bytes and lines shorter
    than the limit, successive calls return the pieces of the data between
    newlines one after the other and then the end of the entry; no call writes
    outside the line buffer or fails to return. *)
Theorem archive_fgets_lines max blocks
    (Hb : Forall (fun x => x.1 = ARCHIVE_OK /\ x.2 <> []) blocks) (Hnul : NUL ∉ concat (snd <$> blocks))
    (Hf : Forall (fun l => Z.of_nat (length l) < max) (split_nl (concat (snd <$> blocks)))) :
  delivers (start max blocks) (split_nl (concat (snd <$> blocks))).
Proof. apply start_delivers; [done|done|]. eapply Forall_impl; [exact Hf|]. intros l Hl. cbn beta in *. lia. Qed.

Lemma archive_fgets_lines_witness :
  delivers (start 512 [(ARCHIVE_OK, lit "pkgna"); (ARCHIVE_OK, lit "me = a" ++ [NL] ++ lit "pk"); (ARCHIVE_OK, lit "gver = 1" ++ [NL])])
    [lit "pkgname = a"; lit "pkgver = 1"; []].
Proof.
  apply (archive_fgets_lines 512 [(ARCHIVE_OK, lit "pkgna"); (ARCHIVE_OK, lit "me = a" ++ [NL] ++ lit "pk"); (ARCHIVE_OK, lit "gver = 1" ++ [NL])]);
    by_decide.
Defined.

End Archive.
