(* ===== verification/PkgFile.v ===== *)
(** * Package files ([be_package.c])

    A package is an archive: its first members are the description
    [.PKGINFO], a list of its files [.MTREE] and scripts; the others are the files to
    install.  [parse_descfile] reads the description line by line,
    [_klpm_pkg_load_internal] walks over the members and builds the package
    object.  The members and the codes libarchive returns are data of the
    model; the parser of the mtree format (libarchive) is a parameter. *)

From S2P Require Import Prelude CStr Util KList Package Deps FileList LocalDb Archive.
Local Open Scope Z_scope.

Module PkgFile.
Import Archive.

(** The fields of a package object the loader fills; [n_alloc] is the number of
    elements allocated for [n_files]. *)
Record newpkg := NewPkg {
  n_name : option cstr; n_hash : Z; n_version : option cstr; n_info : LocalDb.info;
  n_backup : list backup; n_scriptlet : bool; n_files : list file; n_alloc : nat }.
#[global] Instance newpkg_eq_dec : EqDecision newpkg.
Proof. solve_decision. Defined.
(** [_klpm_pkg_new] *)
Definition pkg_new : newpkg := NewPkg None 0 None LocalDb.fresh_info [] false [] 0.

Definition set_name (v : cstr) (p : newpkg) : newpkg :=
  NewPkg (Some v) (hash_sdbm v) (n_version p) (n_info p) (n_backup p) (n_scriptlet p) (n_files p) (n_alloc p).
Definition set_version (v : cstr) (p : newpkg) : newpkg :=
  NewPkg (n_name p) (n_hash p) (Some v) (n_info p) (n_backup p) (n_scriptlet p) (n_files p) (n_alloc p).
Definition on_info (f : LocalDb.info -> LocalDb.info) (p : newpkg) : newpkg :=
  NewPkg (n_name p) (n_hash p) (n_version p) (f (n_info p)) (n_backup p) (n_scriptlet p) (n_files p) (n_alloc p).
Definition add_backup (b : backup) (p : newpkg) : newpkg :=
  NewPkg (n_name p) (n_hash p) (n_version p) (n_info p) (n_backup p ++ [b]) (n_scriptlet p) (n_files p) (n_alloc p).
Definition set_scriptlet (p : newpkg) : newpkg :=
  NewPkg (n_name p) (n_hash p) (n_version p) (n_info p) (n_backup p) true (n_files p) (n_alloc p).
Definition set_files (fs : list file) (alloc : nat) (p : newpkg) : newpkg :=
  NewPkg (n_name p) (n_hash p) (n_version p) (n_info p) (n_backup p) (n_scriptlet p) fs alloc.

(** ** The description *)

Inductive field :=
  | F_NAME | F_BASE | F_VERSION | F_BASEVER | F_DESC | F_GROUP | F_URL | F_LICENSE | F_BUILDDATE | F_PACKAGER
  | F_ARCH | F_SIZE | F_DEPEND | F_OPTDEPEND | F_MAKEDEPEND | F_CHECKDEPEND | F_CONFLICT | F_REPLACES
  | F_PROVIDES | F_BACKUP | F_XDATA | F_UNKNOWN.
Definition fields : list (string * field) :=
  [("pkgname", F_NAME); ("pkgbase", F_BASE); ("pkgver", F_VERSION); ("basever", F_BASEVER); ("pkgdesc", F_DESC);
   ("group", F_GROUP); ("url", F_URL); ("license", F_LICENSE); ("builddate", F_BUILDDATE); ("packager", F_PACKAGER);
   ("arch", F_ARCH); ("size", F_SIZE); ("depend", F_DEPEND); ("optdepend", F_OPTDEPEND);
   ("makedepend", F_MAKEDEPEND); ("checkdepend", F_CHECKDEPEND); ("conflict", F_CONFLICT);
   ("replaces", F_REPLACES); ("provides", F_PROVIDES); ("backup", F_BACKUP); ("xdata", F_XDATA)].
Definition field_of (key : cstr) : field :=
  match find_first (fun e => strcmp key (lit e.1) =? 0) fields with Some (_, f) => f | None => F_UNKNOWN end.

(** The chain of [strcmp]s on the key; [None] is [return -1]. *)
Definition store_field (f : field) (value : cstr) (p : newpkg) : option newpkg :=
  let dep := Deps.dep_from_string value in
  match f with
  | F_NAME => Some (set_name value p)
  | F_VERSION => Some (set_version value p)
  | F_BASEVER | F_UNKNOWN => Some p
  | F_BASE => Some (on_info (LocalDb.set_base (Some value)) p)
  | F_DESC => Some (on_info (LocalDb.set_desc (Some value)) p)
  | F_GROUP => Some (on_info (fun i => LocalDb.set_groups (LocalDb.i_groups i ++ [value]) i) p)
  | F_URL => Some (on_info (LocalDb.set_url (Some value)) p)
  | F_LICENSE => Some (on_info (fun i => LocalDb.set_licenses (LocalDb.i_licenses i ++ [value]) i) p)
  | F_BUILDDATE => Some (on_info (LocalDb.set_builddate (Util.parsedate value)) p)
  | F_PACKAGER => Some (on_info (LocalDb.set_packager (Some value)) p)
  | F_ARCH => Some (on_info (LocalDb.set_arch (Some value)) p)
  | F_SIZE => Some (on_info (LocalDb.set_isize (Util.strtoofft value)) p)
  | F_DEPEND => Some (on_info (fun i => LocalDb.set_depends (LocalDb.i_depends i ++ [dep]) i) p)
  | F_OPTDEPEND => Some (on_info (fun i => LocalDb.set_optdepends (LocalDb.i_optdepends i ++ [dep]) i) p)
  | F_MAKEDEPEND => Some (on_info (fun i => LocalDb.set_makedepends (LocalDb.i_makedepends i ++ [dep]) i) p)
  | F_CHECKDEPEND => Some (on_info (fun i => LocalDb.set_checkdepends (LocalDb.i_checkdepends i ++ [dep]) i) p)
  | F_CONFLICT => Some (on_info (fun i => LocalDb.set_conflicts (LocalDb.i_conflicts i ++ [dep]) i) p)
  | F_REPLACES => Some (on_info (fun i => LocalDb.set_replaces (LocalDb.i_replaces i ++ [dep]) i) p)
  | F_PROVIDES => Some (on_info (fun i => LocalDb.set_provides (LocalDb.i_provides i ++ [dep]) i) p)
  | F_BACKUP => Some (add_backup (Backup value None) p)
  | F_XDATA =>
      pd ← Package.pkg_parse_xdata (Some value);
      Some (on_info (fun i => LocalDb.set_xdata (LocalDb.i_xdata i ++ [pd]) i) p)
  end.

(** One line of the description.  The line is cut at its first NUL where the
    code treats it as a string. *)
Definition parse_line (line : cstr) (p : newpkg) : option newpkg :=
  let '(line, len) := strip_line line in
  if (len =? 0)%nat || bool_decide (head line = Some "#"%char) then Some p
  else
    match memchr line " "%char len with
    | None => Some p
    | Some i =>
        if (len <? i + 2)%nat || negb (is_prefix (lit " = ") (drop i line)) then Some p
        else store_field (field_of (Util.before NUL (take i line))) (Util.before NUL (drop (i + 3) line)) p
    end.

(** Reading stopped: at the end, with an error, or it could not go on. *)
Inductive parsed := Parsed (p : newpkg) | ParseError | Stuck.

Section Desc.
Context {T : Type} `{!LineSource T}.
(** [parse_descfile] *)
Fixpoint parse_descfile (fuel : nat) (s : T) (p : newpkg) : parsed :=
  match fuel with
  | O => Stuck
  | S fuel =>
      match next_line s with
      | Line l s => match parse_line l p with Some p => parse_descfile fuel s p | None => ParseError end
      | Stop r _ => if r =? ARCHIVE_EOF then Parsed p else ParseError
      | Overflow | NoFuel => Stuck
      end
  end.
End Desc.

(** ** The members of the archive *)

(** An archive member: [archive_entry_pathname], [archive_entry_filetype] is a
    directory, size and mode, the blocks of its data, and whether skipping them
    fails. *)
Record entry := Entry {
  e_path : option cstr; e_isdir : bool; e_size : Z; e_mode : Z; e_data : list (Z * cstr); e_skip_fails : bool }.

(** [handle_simple_path]: [Some] when the path has been handled. *)
Definition handle_simple_path (p : newpkg) (path : cstr) : option newpkg :=
  if strcmp path (lit ".INSTALL") =? 0 then Some (set_scriptlet p)
  else if decide (head path = Some "."%char) then Some p
  else None.

(** [_klpm_greedy_grow] on an array, in elements: the capacity the caller
    remembers and the elements allocated; [None] when doubling is not enough. *)
Definition greedy_grow (cap alloc required : nat) : option (nat * nat) :=
  if (required <=? cap)%nat then Some (cap, alloc)
  else let newsize := if (cap =? 0)%nat then required else (cap * 2)%nat in
       if (newsize <? required)%nat then None else Some (newsize, newsize).

(** [add_entry_to_files_list]: the list, the elements allocated and the
    remembered capacity.  [prev] is the byte in front of the path, if there is
    one: [path[pathlen - 1]] of an empty path. *)
Inductive added := Added (fs : list file) (alloc cap : nat) | NotAdded | AddCrash.
Definition add_entry (fs : list file) (alloc cap : nat) (e : entry) (prev : option ascii) (path : cstr) : added :=
  match greedy_grow cap alloc (length fs + 1) with
  | None => NotAdded
  | Some (cap, alloc) =>
      match (if e_isdir e then c ← match last path with Some c => Some c | None => prev end; Some (if decide (c = "/"%char) then path else path ++ lit "/") else Some path) with
      | None => AddCrash
      | Some name =>
          if (alloc <=? length fs)%nat then AddCrash else Added (fs ++ [File name (e_size e) (e_mode e)]) alloc cap
      end
  end.

(** All data of a member, [archive_read_data] called until it returns 0. *)
Definition read_data (e : entry) : option cstr :=
  if existsb (fun b => b.1 <? ARCHIVE_OK) (e_data e) then None else Some (concat (snd <$> e_data e)).

(** Errors of [_klpm_pkg_load_internal]; the first leaves the code as it was. *)
Inductive load_error := ERR_UNCHANGED | ERR_WRONG_ARGS | ERR_PKG_NOT_FOUND | ERR_BADPERMS | ERR_PKG_OPEN | ERR_PKG_INVALID | ERR_LIBARCHIVE.
Inductive open_error := ENOENT | EACCES | OTHER_ERROR.

Section Load.
(** [archive_read_open_memory] and [archive_read_next_header] on mtree data: the
    members and the code after them; <fnmatch.h>. *)
Variables (mtree_parse : cstr -> option (list entry * Z)) (fnmatch : cstr -> cstr -> Z).

(** The loop of [build_filelist_from_mtree]. *)
Inductive mtree := Listed (p : newpkg) (fs : list file) (alloc : nat) | Unlisted (p : newpkg) | MtreeCrash.
Fixpoint mtree_loop (es : list entry) (p : newpkg) (fs : list file) (alloc cap : nat) : mtree :=
  match es with
  | [] => Listed p fs alloc
  | e :: es =>
      match e_path e with
      | None => MtreeCrash
      | Some path =>
          let '(prev, path) := if is_prefix (lit "./") path then (Some "/"%char, drop 2 path) else (None, path) in
          match handle_simple_path p path with
          | Some p => mtree_loop es p fs alloc cap
          | None =>
              match add_entry fs alloc cap e prev path with
              | Added fs alloc cap => mtree_loop es p fs alloc cap
              | NotAdded => Unlisted p
              | AddCrash => MtreeCrash
              end
          end
      end
  end.
(** [build_filelist_from_mtree]: success, and the package; [None] is undefined
    behaviour.  What the loop did to the package stays when reading fails. *)
Definition build_filelist_from_mtree (p : newpkg) (e : entry) : option (bool * newpkg) :=
  match read_data e with
  | None => Some (false, p)
  | Some data =>
      match mtree_parse data with
      | None => Some (false, p)
      | Some (es, r) =>
          match mtree_loop es p [] 0 0 with
          | MtreeCrash => None
          | Unlisted p => Some (false, p)
          | Listed p fs alloc =>
              if (r =? ARCHIVE_EOF) || (r =? ARCHIVE_OK) then Some (true, set_files fs alloc p) else Some (false, p)
          end
      end
  end.

(** The checks after the description was parsed. *)
Definition desc_valid (p : newpkg) : bool :=
  match n_name p, n_version p with
  | Some (_ :: _), Some ((_ :: _) as v) => match strchr v "-"%char with Some _ => true | None => false end
  | _, _ => false
  end.

(** The loop of [_klpm_pkg_load_internal]; [cap] is [files_size], and [r] the
    code of [archive_read_next_header] after the last member. *)
Inductive walk := Walked (p : newpkg) (config : bool) | WalkError (e : load_error) | Crash.
Fixpoint load_loop (full : bool) (es : list entry) (r : Z) (p : newpkg) (cap : nat) (config hit_mtree : bool) : walk :=
  match es with
  | [] => if (r =? ARCHIVE_EOF) || (r =? ARCHIVE_OK) then Walked p config else WalkError ERR_LIBARCHIVE
  | e :: es =>
      match e_path e with
      | None => Crash
      | Some name =>
          if strcmp name (lit ".PKGINFO") =? 0 then
            match parse_descfile (S (S (length (concat (snd <$> e_data e)) + length (e_data e)))) (start 524288 (e_data e)) p with
            | Parsed p => if desc_valid p then load_loop full es r p cap true hit_mtree else WalkError ERR_PKG_INVALID
            | ParseError => WalkError ERR_PKG_INVALID
            | Stuck => Crash
            end
          else if full && (strcmp name (lit ".MTREE") =? 0) then
            match build_filelist_from_mtree p e with
            | Some (hit, p) => load_loop full es r p cap config hit
            | None => Crash
            end
          else
            match handle_simple_path p name with
            | Some p => load_loop full es r p cap config hit_mtree
            | None =>
                match (if full && negb hit_mtree then add_entry (n_files p) (n_alloc p) cap e None name
                       else Added (n_files p) (n_alloc p) cap) with
                | AddCrash => Crash
                | NotAdded => WalkError ERR_UNCHANGED
                | Added fs alloc cap =>
                    let p := set_files fs alloc p in
                    if e_skip_fails e then WalkError ERR_LIBARCHIVE
                    else if (negb full || hit_mtree) && config then Walked p config
                    else load_loop full es r p cap config hit_mtree
                end
            end
      end
  end.

(** The package object handed out; [id] is its address. *)
Definition INFRQ_BASE : Z := 1.
Definition finish (id : positive) (pkgfile : cstr) (st_size : Z) (full : bool) (p : newpkg) : pkg :=
  let i := n_info p in
  {| pkg_id := id; name_hash := n_hash p; filename := Some pkgfile; base := LocalDb.i_base i;
     name := default [] (n_name p); version := default [] (n_version p);
     desc := LocalDb.i_desc i; url := LocalDb.i_url i; packager := LocalDb.i_packager i; sha256sum := None; base64_sig := None;
     arch := LocalDb.i_arch i; builddate := LocalDb.i_builddate i; installdate := 0; size := st_size;
     isize := LocalDb.i_isize i; download_size := 0; licenses := LocalDb.i_licenses i;
     replaces := LocalDb.i_replaces i; groups := LocalDb.i_groups i; backups := n_backup p;
     depends := LocalDb.i_depends i; optdepends := LocalDb.i_optdepends i; checkdepends := LocalDb.i_checkdepends i;
     makedepends := LocalDb.i_makedepends i; conflicts := LocalDb.i_conflicts i; provides := LocalDb.i_provides i;
     files := if full then FileList.sort (n_files p) else n_files p; origin := FROM_FILE; origin_db := None;
     origin_file := Some pkgfile; reason := REASON_EXPLICIT; scriptlet := n_scriptlet p;
     pkg_xdata := LocalDb.i_xdata i;
     infolevel := Z.lor (Z.lor (Z.lor INFRQ_BASE LocalDb.INFRQ_DESC) LocalDb.INFRQ_SCRIPTLET) (if full then LocalDb.INFRQ_FILES else 0);
     validation := LocalDb.VALIDATION_NONE |}.

Inductive loaded := Loaded (p : pkg) | LoadFailed (e : load_error) | LoadCrash.
(** [_klpm_pkg_load_internal]: [archive] is the result of [_klpm_open_archive],
    with the size of the file, its members and the code after them. *)
Definition pkg_load_internal (id : positive) (pkgfile : cstr) (archive : open_error + Z * list entry * Z) (full : bool) : loaded :=
  match pkgfile, archive with
  | [], _ => LoadFailed ERR_WRONG_ARGS
  | _, inl ENOENT => LoadFailed ERR_PKG_NOT_FOUND
  | _, inl EACCES => LoadFailed ERR_BADPERMS
  | _, inl OTHER_ERROR => LoadFailed ERR_PKG_OPEN
  | _, inr (st_size, es, r) =>
      match load_loop full es r pkg_new 0 false false with
      | Crash => LoadCrash
      | WalkError e => LoadFailed e
      | Walked p false => LoadFailed ERR_PKG_INVALID
      | Walked p true =>
          match Package.pkg_check_meta fnmatch (n_name p) (n_version p) with
          | [] => Loaded (finish id pkgfile st_size full p)
          | _ => LoadFailed ERR_PKG_INVALID
          end
      end
  end.
End Load.


(** ** Reading a description *)

Lemma parse_descfile_total fuel : forall (b : buffer) p,
  buffer_ok b -> (measure b < fuel)%nat -> parse_descfile fuel b p <> Stuck.
Proof.
  induction fuel as [|fuel IH]; intros b p Hb Hf; [lia|]. cbn [parse_descfile].
  pose proof (archive_fgets_safe b Hb) as Hs. unfold next_line, archive_source.
  destruct (archive_fgets b) as [l b'|r b'| |]; simpl in Hs; [|by destruct (_ =? _)|done|done].
  destruct Hs as [Hb' Hm]. destruct (parse_line l p); [|done]. apply IH; [done|lia].
Qed.

Fixpoint parse_lines (ls : list cstr) (p : newpkg) : option newpkg :=
  match ls with [] => Some p | l :: ls => p ← parse_line l p; parse_lines ls p end.
Lemma parse_lines_app ls ls' p : parse_lines (ls ++ ls') p = p ← parse_lines ls p; parse_lines ls' p.
Proof. revert p. induction ls as [|l ls IH]; intros p; simpl; [done|]. destruct (parse_line l p); simpl; [apply IH|done]. Qed.

Lemma parse_descfile_delivers {T} `{!LineSource T} (s : T) ls : delivers s ls ->
  forall fuel p, (length ls < fuel)%nat ->
  parse_descfile fuel s p = match parse_lines ls p with Some p => Parsed p | None => ParseError end.
Proof.
  induction 1 as [s s' E|s s' l ls E H IH]; intros fuel p Hf; (destruct fuel as [|fuel]; [simpl in Hf; lia|]); cbn [parse_descfile]; rewrite E.
  - done.
  - simpl in *. destruct (parse_line l p); [|done]. simpl. apply IH. lia.
Qed.

(** *** The reference form of a description *)

Definition info_line (key : string) (value : cstr) : cstr := lit key ++ lit " = " ++ value.
Definition opt_line (key : string) (v : option cstr) : list cstr := match v with Some v => [info_line key v] | None => [] end.
Definition num_line (key : string) (z : Z) : list cstr := if z =? 0 then [] else [info_line key (Util.print_d z)].
Definition dep_lines (key : string) (ds : list depend) : list cstr := (fun d => info_line key (Deps.dep_compute_string d)) <$> ds.
Definition pkginfo (p : newpkg) : list cstr :=
  let i := n_info p in
  opt_line "pkgname" (n_name p) ++ opt_line "pkgbase" (LocalDb.i_base i) ++ opt_line "pkgver" (n_version p) ++
  opt_line "pkgdesc" (LocalDb.i_desc i) ++ opt_line "url" (LocalDb.i_url i) ++
  num_line "builddate" (LocalDb.i_builddate i) ++ opt_line "packager" (LocalDb.i_packager i) ++
  num_line "size" (LocalDb.i_isize i) ++ opt_line "arch" (LocalDb.i_arch i) ++
  (info_line "license" <$> LocalDb.i_licenses i) ++ dep_lines "replaces" (LocalDb.i_replaces i) ++
  (info_line "group" <$> LocalDb.i_groups i) ++ dep_lines "conflict" (LocalDb.i_conflicts i) ++
  dep_lines "provides" (LocalDb.i_provides i) ++ ((fun b => info_line "backup" (b_name b)) <$> n_backup p) ++
  dep_lines "depend" (LocalDb.i_depends i) ++ dep_lines "optdepend" (LocalDb.i_optdepends i) ++
  dep_lines "makedepend" (LocalDb.i_makedepends i) ++ dep_lines "checkdepend" (LocalDb.i_checkdepends i) ++
  ((fun x => info_line "xdata" (LocalDb.xdata_line x)) <$> LocalDb.i_xdata i).
Definition pkginfo_text (p : newpkg) : cstr := pkginfo p ≫= LocalDb.line_of.

(** What a line can hold. *)
Definition value_ok (v : cstr) : Prop := NL ∉ v /\ NUL ∉ v.
#[global] Instance value_ok_dec v : Decision (value_ok v).
Proof. unfold value_ok. apply _. Defined.
Definition dep_ok (d : depend) : Prop := Deps.dep_printable d /\ value_ok (Deps.dep_compute_string d).
Definition xdata_ok (x : xdata) : Prop := "="%char ∉ x_name x /\ value_ok (LocalDb.xdata_line x).
(** A package a description can express. *)
Record describable (p : newpkg) : Prop := {
  ok_name : exists n, n_name p = Some n /\ value_ok n /\ n_hash p = hash_sdbm n;
  ok_version : exists v, n_version p = Some v /\ value_ok v;
  ok_strings : forall v, v ∈ [LocalDb.i_base (n_info p); LocalDb.i_desc (n_info p); LocalDb.i_url (n_info p);
                             LocalDb.i_packager (n_info p); LocalDb.i_arch (n_info p)] ->
                 match v with Some v => value_ok v | None => True end;
  ok_lists : Forall value_ok (LocalDb.i_licenses (n_info p) ++ LocalDb.i_groups (n_info p));
  ok_builddate : LocalDb.int64 (LocalDb.i_builddate (n_info p));
  ok_isize : 0 <= LocalDb.i_isize (n_info p) <= Util.LLONG_MAX;
  ok_deps : Forall dep_ok (LocalDb.i_replaces (n_info p) ++ LocalDb.i_conflicts (n_info p) ++ LocalDb.i_provides (n_info p) ++
              LocalDb.i_depends (n_info p) ++ LocalDb.i_optdepends (n_info p) ++ LocalDb.i_makedepends (n_info p) ++
              LocalDb.i_checkdepends (n_info p));
  ok_backup : Forall (fun b => value_ok (b_name b) /\ b_hash b = None) (n_backup p);
  ok_xdata : Forall xdata_ok (LocalDb.i_xdata (n_info p));
  ok_rest : LocalDb.i_installdate (n_info p) = 0 /\ LocalDb.i_reason (n_info p) = REASON_EXPLICIT /\
            LocalDb.i_validation (n_info p) = 0 /\ n_scriptlet p = false /\ n_files p = [] /\ n_alloc p = 0%nat
}.

(** A key without spaces and a value. *)
Lemma parse_info_line key v p : " "%char ∉ lit key -> head (lit key) <> Some "#"%char -> lit key <> [] -> value_ok (lit key) -> value_ok v ->
  parse_line (info_line key v) p = store_field (field_of (lit key)) v p.
Proof.
  intros Hsp Hh Hne [Hk1 Hk2] [Hv1 Hv2]. unfold parse_line, info_line.
  rewrite strip_line_none by (rewrite !not_elem_of_app; split_and!; [done|by_decide|done]).
  destruct (lit key) as [|c k] eqn:Ek; [done|]. rewrite <- Ek in *. assert (length (lit key) <> 0)%nat by (rewrite Ek; done).
  assert (head (lit key ++ lit " = " ++ v) = head (lit key)) as -> by (by rewrite Ek).
  rewrite bool_decide_eq_false_2 by done. rewrite (proj2 (Nat.eqb_neq _ 0)) by (rewrite length_app; lia). cbn [orb].
  change (lit " = " ++ v) with (" "%char :: lit "= " ++ v). rewrite memchr_app; [|done|rewrite length_app; simpl; lia].
  rewrite length_app. cbn [length]. rewrite (proj2 (Nat.ltb_ge _ _)) by (rewrite length_app; simpl; lia). rewrite drop_app_length.
  change (" "%char :: lit "= " ++ v) with (lit " = " ++ v).
  rewrite (proj2 (is_prefix_spec (lit " = ") (lit " = " ++ v))) by (by exists v). cbn [negb orb].
  rewrite take_app_length. rewrite <- drop_drop, drop_app_length.
  change (drop 3 (lit " = " ++ v)) with v. by rewrite !LocalDb.before_absent.
Qed.


(** *** Lines and what they store *)

Definition stores (ls : list cstr) (f : newpkg -> newpkg) : Prop := forall p, parse_lines ls p = Some (f p).
Lemma stores_app ls ls' f g : stores ls f -> stores ls' g -> stores (ls ++ ls') (fun p => g (f p)).
Proof. intros H1 H2 p. rewrite parse_lines_app, H1. simpl. apply H2. Qed.
Lemma stores_ext ls f g : (forall p, f p = g p) -> stores ls f -> stores ls g.
Proof. intros E H p. by rewrite H, E. Qed.

(** A key of the table. *)
Definition key_ok (key : string) : Prop :=
  " "%char ∉ lit key /\ head (lit key) <> Some "#"%char /\ lit key <> [] /\ value_ok (lit key).
#[global] Instance key_ok_dec key : Decision (key_ok key).
Proof. unfold key_ok. apply _. Defined.
Lemma stores_line key v f : key_ok key -> value_ok v -> (forall p, store_field (field_of (lit key)) v p = Some (f p)) ->
  stores [info_line key v] f.
Proof. intros (H1 & H2 & H3 & H4) Hv E p. simpl. rewrite parse_info_line by done. by rewrite E. Qed.

Definition or_old {A} (v old : option A) : option A := match v with Some _ => v | None => old end.
Lemma stores_opt key v (set : option cstr -> LocalDb.info -> LocalDb.info) get : key_ok key ->
  match v with Some v => value_ok v | None => True end ->
  (forall x p, store_field (field_of (lit key)) x p = Some (on_info (set (Some x)) p)) ->
  (forall i, set (get i) i = i) -> stores (opt_line key v) (on_info (fun i => set (or_old v (get i)) i)).
Proof.
  intros Hk Hv Hs Hg. destruct v as [v|]; simpl; [by apply stores_line|]. intros p. simpl.
  unfold on_info. rewrite Hg. by destruct p.
Qed.
Lemma stores_num {A} key z (read : cstr -> A) (set : A -> LocalDb.info -> LocalDb.info) get : key_ok key -> - 2 ^ 64 < z < 2 ^ 64 ->
  (forall x p, store_field (field_of (lit key)) x p = Some (on_info (set (read x)) p)) ->
  (forall i, set (get i) i = i) ->
  stores (num_line key z) (on_info (fun i => set (if z =? 0 then get i else read (Util.print_d z)) i)).
Proof.
  intros Hk Hz Hs Hg. unfold num_line. destruct (z =? 0).
  - intros p. simpl. unfold on_info. rewrite Hg. by destruct p.
  - apply stores_line; [done| |done]. destruct (LocalDb.print_d_text z Hz) as (? & ? & _). by split.
Qed.

Lemma stores_map {A} key (vs : list A) (line : A -> cstr) (f : A -> newpkg -> newpkg) : key_ok key -> Forall (fun a => value_ok (line a)) vs ->
  (forall a p, a ∈ vs -> store_field (field_of (lit key)) (line a) p = Some (f a p)) ->
  stores ((fun a => info_line key (line a)) <$> vs) (fun p => fold_left (fun p a => f a p) vs p).
Proof.
  intros Hk Hv. induction Hv as [|a vs Ha Hv IH]; intros Hs; [done|]. intros p. rewrite fmap_cons.
  change (info_line key (line a) :: ?l) with ([info_line key (line a)] ++ l). rewrite parse_lines_app.
  rewrite (stores_line key (line a) (f a)); [|done|done|intros; apply Hs; left]. simpl. apply IH. intros; apply Hs. by right.
Qed.

(** Fields that collect values. *)
Lemma stores_list {A B} key (vs : list A) (line : A -> cstr) (read : A -> B) (set : list B -> LocalDb.info -> LocalDb.info) get : key_ok key ->
  Forall (fun a => value_ok (line a)) vs ->
  (forall a p, a ∈ vs -> store_field (field_of (lit key)) (line a) p = Some (on_info (fun i => set (get i ++ [read a]) i) p)) ->
  (forall i, set (get i) i = i) -> (forall l i, get (set l i) = l) -> (forall l l' i, set l (set l' i) = set l i) ->
  stores ((fun a => info_line key (line a)) <$> vs) (on_info (fun i => set (get i ++ (read <$> vs)) i)).
Proof.
  intros Hk Hv Hs Hg Hgs Hss. eapply stores_ext; [|apply (stores_map key vs line (fun a => on_info (fun i => set (get i ++ [read a]) i)) Hk Hv Hs)].
  clear Hs Hv. induction vs as [|a vs IH]; intros p; cbn [fold_left fmap list_fmap].
  - unfold on_info. rewrite app_nil_r, Hg. by destruct p.
  - rewrite IH. unfold on_info. cbn [n_info n_name n_hash n_version n_backup n_scriptlet n_files n_alloc]. f_equal.
    rewrite Hgs, Hss, <- app_assoc. done.
Qed.

Lemma stores_deps key ds (set : list depend -> LocalDb.info -> LocalDb.info) get : key_ok key -> Forall dep_ok ds ->
  (forall x p, store_field (field_of (lit key)) x p = Some (on_info (fun i => set (get i ++ [Deps.dep_from_string x]) i) p)) ->
  (forall i, set (get i) i = i) -> (forall l i, get (set l i) = l) -> (forall l l' i, set l (set l' i) = set l i) ->
  stores (dep_lines key ds) (on_info (fun i => set (get i ++ ds) i)).
Proof.
  intros Hk Hd Hs Hg Hgs Hss. unfold dep_lines.
  eapply stores_ext; [|apply (stores_list key ds Deps.dep_compute_string id set get); try done].
  - intros q. unfold on_info. by rewrite list_fmap_id.
  - eapply Forall_impl; [exact Hd|]. by intros d [_ ?].
  - intros d p Hin. rewrite Hs. rewrite Forall_forall in Hd. by rewrite (Deps.dep_read_back d) by apply (Hd d Hin).
Qed.


Ltac opt_field set get Hp := eapply stores_app;
  [apply (stores_opt _ _ set get); [by_decide|apply (ok_strings _ Hp); rewrite !elem_of_cons; tauto|done|by intros []]|].
Ltac dep_field set get := eapply stores_app;
  [apply (stores_deps _ _ set get); [by_decide|done|done|by intros []|by intros ? []|by intros ? ? []]|].

Lemma add_backups bs : forall q, Forall (fun b => b_hash b = None) bs ->
  fold_left (fun q b => add_backup (Backup (b_name b) None) q) bs q =
  NewPkg (n_name q) (n_hash q) (n_version q) (n_info q) (n_backup q ++ bs) (n_scriptlet q) (n_files q) (n_alloc q).
Proof.
  induction bs as [|b bs IH]; intros q Hb; cbn [fold_left]; [rewrite app_nil_r; by destruct q|].
  apply Forall_cons in Hb as [Hb Hbs]. rewrite IH by done. cbn. rewrite <- app_assoc. destruct b. cbn in *. by subst.
Qed.

Lemma pkginfo_stores p : describable p -> parse_lines (pkginfo p) pkg_new = Some p.
Proof.
  intros Hp. destruct (ok_name p Hp) as (n & En & Hn & Eh). destruct (ok_version p Hp) as (v & Ev & Hv).
  pose proof (ok_deps p Hp) as Hd. rewrite !Forall_app in Hd. destruct Hd as (D1 & D2 & D3 & D4 & D5 & D6 & D7).
  pose proof (ok_lists p Hp) as Hl. rewrite Forall_app in Hl. destruct Hl as [L1 L2].
  pose proof (ok_builddate p Hp) as Hbd. pose proof (ok_isize p Hp) as His.
  assert (exists F, stores (pkginfo p) F /\ F pkg_new = p) as (F & HF & E); [|by rewrite HF, E].
  eexists. split.
  - unfold pkginfo. rewrite En, Ev.
    eapply stores_app; [apply (stores_line _ _ (set_name n)); [by_decide|done|done]|].
    opt_field LocalDb.set_base LocalDb.i_base Hp.
    eapply stores_app; [apply (stores_line _ _ (set_version v)); [by_decide|done|done]|].
    opt_field LocalDb.set_desc LocalDb.i_desc Hp. opt_field LocalDb.set_url LocalDb.i_url Hp.
    eapply stores_app; [apply (stores_num _ _ Util.parsedate LocalDb.set_builddate LocalDb.i_builddate);
      [by_decide|unfold LocalDb.int64, Util.LLONG_MIN, Util.LLONG_MAX in Hbd; lia|done|by intros []]|].
    opt_field LocalDb.set_packager LocalDb.i_packager Hp.
    eapply stores_app; [apply (stores_num _ _ Util.strtoofft LocalDb.set_isize LocalDb.i_isize);
      [by_decide|unfold Util.LLONG_MAX in His; lia|done|by intros []]|].
    opt_field LocalDb.set_arch LocalDb.i_arch Hp.
    eapply stores_app; [apply (stores_list _ _ id id LocalDb.set_licenses LocalDb.i_licenses); [by_decide|done|done|by intros []|by intros ? []|by intros ? ? []]|].
    dep_field LocalDb.set_replaces LocalDb.i_replaces.
    eapply stores_app; [apply (stores_list _ _ id id LocalDb.set_groups LocalDb.i_groups); [by_decide|done|done|by intros []|by intros ? []|by intros ? ? []]|].
    dep_field LocalDb.set_conflicts LocalDb.i_conflicts. dep_field LocalDb.set_provides LocalDb.i_provides.
    eapply stores_app; [apply (stores_map _ _ b_name (fun b => add_backup (Backup (b_name b) None)));
      [by_decide|eapply Forall_impl; [exact (ok_backup p Hp)|by intros b [? _]]|done]|].
    dep_field LocalDb.set_depends LocalDb.i_depends. dep_field LocalDb.set_optdepends LocalDb.i_optdepends.
    dep_field LocalDb.set_makedepends LocalDb.i_makedepends. dep_field LocalDb.set_checkdepends LocalDb.i_checkdepends.
    apply (stores_list _ _ LocalDb.xdata_line id LocalDb.set_xdata LocalDb.i_xdata);
      [by_decide|eapply Forall_impl; [exact (ok_xdata p Hp)|by intros x [_ ?]]| |by intros []|by intros ? []|by intros ? ? []].
    intros x q Hx. pose proof (ok_xdata p Hp) as HX. rewrite Forall_forall in HX. destruct (HX x Hx) as [Hx1 _].
    change (field_of (lit "xdata")) with F_XDATA. cbn [store_field]. by rewrite LocalDb.parse_xdata_line.
  - pose proof (ok_rest p Hp) as (R1 & R2 & R3 & R4 & R5 & R6).
    assert (Forall (fun b => b_hash b = None) (n_backup p)) as Hb by (eapply Forall_impl; [exact (ok_backup p Hp)|by intros b [_ ?]]).
    cbv beta. rewrite add_backups by done. rewrite !list_fmap_id.
    destruct p as [nm h vs [] bk sc fs al]. cbn in *. subst.
    assert ((if i_builddate =? 0 then 0 else Util.parsedate (Util.print_d i_builddate)) = i_builddate) as ->
      by (destruct (Z.eqb_spec i_builddate 0); [done|by rewrite Util.parsedate_print]).
    assert ((if i_isize =? 0 then 0 else Util.strtoofft (Util.print_d i_isize)) = i_isize) as ->
      by (destruct (Z.eqb_spec i_isize 0); [done|by rewrite Util.strtoofft_print]).
    assert (forall v : option cstr, or_old v None = v) as Hor by (by intros []). by rewrite !Hor.
Qed.


(** *** Through the archive *)

Lemma split_lines ls : Forall (fun l => NL ∉ l) ls -> split_nl (ls ≫= LocalDb.line_of) = ls ++ [[]].
Proof.
  induction 1 as [|l ls Hl _ IH]; [done|]. rewrite bind_cons. unfold LocalDb.line_of at 1. rewrite <- app_assoc. cbn [app].
  rewrite split_nl_app by done. by rewrite IH.
Qed.

(** Any partition of a text into blocks. *)
Definition cut_of (text : cstr) (blocks : list (Z * cstr)) : Prop :=
  Forall (fun x => x.1 = ARCHIVE_OK /\ x.2 <> []) blocks /\ concat (snd <$> blocks) = text.
Definition lines_ok (max : Z) (ls : list cstr) : Prop := Forall (fun l => value_ok l /\ Z.of_nat (length l) < max) ls.

Lemma cut_delivers max ls blocks : 0 < max -> lines_ok max ls -> cut_of (ls ≫= LocalDb.line_of) blocks -> delivers (start max blocks) (ls ++ [[]]).
Proof.
  intros Hmax Hls [Hb Ec].
  assert (split_nl (concat (snd <$> blocks)) = ls ++ [[]]) as Es.
  { rewrite Ec. apply split_lines. eapply Forall_impl; [exact Hls|]. by intros l [[? _] _]. }
  rewrite <- Es. apply start_delivers; [done| |].
  - rewrite Ec. clear -Hls. induction Hls as [|l ls [[_ Hl] _] _ IH]; [by intros ?%elem_of_nil|]. rewrite bind_cons. unfold LocalDb.line_of at 1.
    rewrite <- app_assoc, !not_elem_of_app. split_and!; [done|by_decide|done].
  - rewrite Es. apply Forall_app. split; [|repeat constructor; simpl; lia]. eapply Forall_impl; [exact Hls|]. intros l [_ ?]. cbn beta. lia.
Qed.

Lemma lines_le_bytes ls : (length ls <= length (ls ≫= LocalDb.line_of))%nat.
Proof. induction ls as [|l ls IH]; [done|]. rewrite bind_cons. unfold LocalDb.line_of at 1. rewrite !length_app. simpl in *. lia. Qed.

Lemma desc_read_back p blocks :
  describable p -> lines_ok 524288 (pkginfo p) -> cut_of (pkginfo_text p) blocks ->
  parse_descfile (S (S (length (concat (snd <$> blocks)) + length blocks))) (start 524288 blocks) pkg_new = Parsed p.
Proof.
  intros Hp Hls Hc. pose proof (cut_delivers 524288 (pkginfo p) blocks ltac:(lia) Hls Hc) as Hd.
  rewrite (parse_descfile_delivers _ _ Hd).
  - rewrite parse_lines_app, pkginfo_stores by done. done.
  - destruct Hc as [_ ->]. rewrite length_app. simpl. pose proof (lines_le_bytes (pkginfo p)). unfold pkginfo_text. lia.
Qed.

(** *** The members *)

(** An ordinary member, and the file it stands for. *)
Definition ordinary (e : entry) : Prop :=
  (exists c path, e_path e = Some (c :: path) /\ c <> "."%char) /\ e_skip_fails e = false.
Definition member_file (e : entry) : file :=
  let path := default [] (e_path e) in
  File (if e_isdir e && negb (bool_decide (last path = Some "/"%char)) then path ++ lit "/" else path) (e_size e) (e_mode e).

Lemma greedy_grow_ok alloc n : (n <= alloc)%nat ->
  exists alloc', greedy_grow alloc alloc (n + 1) = Some (alloc', alloc') /\ (n < alloc')%nat.
Proof.
  intros Hle. unfold greedy_grow. destruct (Nat.leb_spec (n + 1) alloc) as [H|H]; [exists alloc; split; [done|lia]|].
  destruct (Nat.eqb_spec alloc 0) as [->|H0].
  - exists (n + 1)%nat. rewrite (proj2 (Nat.ltb_ge _ _)) by lia. split; [done|lia].
  - exists (alloc * 2)%nat. rewrite (proj2 (Nat.ltb_ge _ _)) by lia. split; [done|lia].
Qed.
Lemma add_entry_ok fs alloc e prev path : (length fs <= alloc)%nat -> e_path e = Some path -> path <> [] ->
  exists alloc', add_entry fs alloc alloc e prev path = Added (fs ++ [member_file e]) alloc' alloc' /\ (length fs < alloc')%nat.
Proof.
  intros Hle Ep Hne. destruct (greedy_grow_ok alloc (length fs) Hle) as (alloc' & Eg & Hlt).
  exists alloc'. split; [|done]. unfold add_entry. rewrite Eg. unfold member_file. rewrite Ep. cbn [default].
  assert ((if e_isdir e then c ← match last path with Some c => Some c | None => prev end; Some (if decide (c = "/"%char) then path else path ++ lit "/") else Some path) =
    Some (if e_isdir e && negb (bool_decide (last path = Some "/"%char)) then path ++ lit "/" else path)) as ->.
  { destruct (e_isdir e); [|done]. destruct (last path) as [c|] eqn:El; [|by apply last_None in El]. simpl.
    destruct (decide (c = "/"%char)) as [->|Hc]; [done|]. rewrite bool_decide_eq_false_2; [done|]. congruence. }
  by rewrite (proj2 (Nat.leb_gt _ _)) by lia.
Qed.

Section LoadSpec.
Variables (mtree_parse : cstr -> option (list entry * Z)) (fnmatch : cstr -> cstr -> Z).

Lemma ordinary_path e : ordinary e -> exists path, e_path e = Some path /\ path <> [] /\
  strcmp path (lit ".PKGINFO") =? 0 = false /\ strcmp path (lit ".MTREE") =? 0 = false /\ forall p, handle_simple_path p path = None.
Proof.
  intros [(c & path & E & Hc) _]. exists (c :: path). assert (forall s, strcmp (c :: path) ("."%char :: s) =? 0 = false) as Hs.
  { intros s. apply Z.eqb_neq. intros H%strcmp_eq. congruence. }
  split_and!; [done|done|apply Hs|apply Hs|]. intros p. unfold handle_simple_path.
  rewrite (Hs (lit "INSTALL") : strcmp (c :: path) (lit ".INSTALL") =? 0 = false). rewrite decide_False; [done|]. simpl. congruence.
Qed.

Lemma load_members es : forall p alloc,
  Forall ordinary es -> n_alloc p = alloc -> (length (n_files p) <= alloc)%nat ->
  exists alloc', load_loop mtree_parse true es ARCHIVE_EOF p alloc true false = Walked (set_files (n_files p ++ (member_file <$> es)) alloc' p) true.
Proof.
  induction es as [|e es IH]; intros p alloc Ho Ha Hle; cbn [load_loop].
  { exists alloc. cbn. rewrite app_nil_r. rewrite <- Ha. by destruct p. }
  apply Forall_cons in Ho as [He Ho]. destruct (ordinary_path e He) as (path & Ep & Hne & Hp1 & Hp2 & Hsp).
  rewrite Ep, Hp1, Hp2. cbn [andb negb]. rewrite Hsp, Ha.
  destruct (add_entry_ok (n_files p) alloc e None path Hle Ep Hne) as (a1 & -> & Hlt). rewrite (proj2 He). cbn [andb orb].
  destruct (IH (set_files (n_files p ++ [member_file e]) a1 p) a1) as (a2 & ->); [done|done|cbn; rewrite length_app; simpl; lia|].
  exists a2. rewrite fmap_cons. cbn. by rewrite <- app_assoc.
Qed.

(** The members of a package: its description, perhaps a script, its files. *)
Definition info_entry (blocks : list (Z * cstr)) : entry := Entry (Some (lit ".PKGINFO")) false 0 0 blocks false.
Definition install_entry : entry := Entry (Some (lit ".INSTALL")) false 0 0 [] false.

Lemma load_package p blocks (install : bool) es id pkgfile st_size :
  describable p -> desc_valid p = true -> Package.pkg_check_meta fnmatch (n_name p) (n_version p) = [] ->
  lines_ok 524288 (pkginfo p) -> cut_of (pkginfo_text p) blocks -> Forall ordinary es -> pkgfile <> [] ->
  pkg_load_internal mtree_parse fnmatch id pkgfile
    (inr (st_size, info_entry blocks :: (if install then [install_entry] else []) ++ es, ARCHIVE_EOF)) true =
  Loaded (finish id pkgfile st_size true (set_files (member_file <$> es) 0 (if install then set_scriptlet p else p))).
Proof.
  intros Hp Hv Hm Hls Hc Hes Hpf. unfold pkg_load_internal. destruct pkgfile as [|c pf]; [done|].
  cbn [load_loop info_entry e_path e_data]. change (strcmp (lit ".PKGINFO") (lit ".PKGINFO") =? 0) with true. cbv iota.
  rewrite (desc_read_back p blocks) by done. rewrite Hv. pose proof (ok_rest p Hp) as (_ & _ & _ & _ & R5 & R6).
  destruct install; cbn [app load_loop install_entry e_path].
  - change (strcmp (lit ".INSTALL") (lit ".PKGINFO") =? 0) with false. change (strcmp (lit ".INSTALL") (lit ".MTREE") =? 0) with false.
    cbn [andb]. unfold handle_simple_path. change (strcmp (lit ".INSTALL") (lit ".INSTALL") =? 0) with true. cbv iota.
    destruct (load_members es (set_scriptlet p) 0 Hes R6) as (a & ->); [cbn; rewrite R5; simpl; lia|].
    cbn [n_name n_version set_files set_scriptlet n_files]. rewrite Hm, R5. done.
  - destruct (load_members es p 0 Hes R6) as (a & ->); [rewrite R5; simpl; lia|]. cbn [n_name n_version set_files]. rewrite Hm, R5. done.
Qed.
(** ** What a loaded package is *)

(** The hashes of the object under construction. *)
Definition all_deps (i : LocalDb.info) : list depend :=
  LocalDb.i_depends i ++ LocalDb.i_optdepends i ++ LocalDb.i_checkdepends i ++ LocalDb.i_makedepends i ++
  LocalDb.i_conflicts i ++ LocalDb.i_replaces i ++ LocalDb.i_provides i.
Record consistent (p : newpkg) : Prop := {
  c_name : forall n, n_name p = Some n -> n_hash p = hash_sdbm n;
  c_deps : Forall dep_hashed (all_deps (n_info p)) }.

Lemma parsed_dep_hashed v : dep_hashed (Deps.dep_from_string v).
Proof. unfold dep_hashed, Deps.dep_from_string. by repeat case_match. Qed.

Lemma store_field_consistent f v p q : consistent p -> store_field f v p = Some q -> consistent q.
Proof.
  intros [H1 H2]. pose proof (parsed_dep_hashed v) as Hv. unfold all_deps in H2. rewrite !Forall_app in H2.
  destruct f; cbn [store_field]; try (destruct (Package.pkg_parse_xdata _); cbn [mbind option_bind]; [|done]); intros [= <-];
    (split; [try done; cbn; congruence|unfold all_deps; cbn; rewrite !Forall_app, ?Forall_singleton; tauto]).
Qed.
Lemma parse_line_consistent l p q : consistent p -> parse_line l p = Some q -> consistent q.
Proof.
  intros H. unfold parse_line. destruct (strip_line l) as [l' n].
  repeat case_match; intros E; simplify_eq; try done. by eapply store_field_consistent.
Qed.
Lemma parse_descfile_consistent fuel : forall (b : buffer) p q, consistent p -> parse_descfile fuel b p = Parsed q -> consistent q.
Proof.
  induction fuel as [|fuel IH]; intros b p q Hp; cbn [parse_descfile]; [done|].
  destruct (next_line b) as [l b'|r b'| |]; [|destruct (r =? ARCHIVE_EOF); congruence|done|done].
  destruct (parse_line l p) as [p'|] eqn:E; [|done]. eauto using parse_line_consistent.
Qed.

(** What the members other than the description change. *)
Definition same_meta (p q : newpkg) : Prop :=
  n_name q = n_name p /\ n_hash q = n_hash p /\ n_version q = n_version p /\ n_info q = n_info p.
#[local] Instance same_meta_po : PreOrder same_meta.
Proof. split; [by intros p|]. unfold same_meta. intros p q r. intuition congruence. Qed.
Lemma same_meta_consistent p q : same_meta p q -> consistent p -> consistent q.
Proof. intros (E1 & E2 & E3 & E4) [H1 H2]. split; [by rewrite E1, E2|by rewrite E4]. Qed.
Lemma same_meta_valid p q : same_meta p q -> desc_valid q = desc_valid p.
Proof. intros (E1 & E2 & E3 & E4). unfold desc_valid. by rewrite E1, E3. Qed.
Lemma simple_path_meta p path q : handle_simple_path p path = Some q -> same_meta p q.
Proof. unfold handle_simple_path. repeat case_match; intros [= <-]; done. Qed.
Lemma mtree_loop_meta es : forall p fs alloc cap,
  match mtree_loop es p fs alloc cap with Listed q _ _ | Unlisted q => same_meta p q | MtreeCrash => True end.
Proof.
  induction es as [|e es IH]; intros p fs alloc cap; cbn [mtree_loop]; [done|].
  destruct (e_path e); [|done]. destruct (if is_prefix _ _ then _ else _) as [prev path]. destruct (handle_simple_path p path) as [q|] eqn:E.
  - pose proof (simple_path_meta _ _ _ E) as Hq. specialize (IH q fs alloc cap). destruct (mtree_loop es q fs alloc cap); [by etrans..|done].
  - destruct (add_entry fs alloc cap e prev path); [apply IH|done|done].
Qed.
Lemma mtree_meta p e hit q : build_filelist_from_mtree mtree_parse p e = Some (hit, q) -> same_meta p q.
Proof.
  unfold build_filelist_from_mtree. destruct (read_data e) as [data|]; [|by intros [= <- <-]].
  destruct (mtree_parse data) as [[es r]|]; [|by intros [= <- <-]]. pose proof (mtree_loop_meta es p [] 0 0) as H.
  destruct (mtree_loop es p [] 0 0) as [p' fs alloc|p'|]; [|by intros [= <- <-]|done].
  destruct (_ || _); by intros [= <- <-].
Qed.

Lemma load_loop_consistent full es r : forall p cap config hit q c,
  consistent p -> (config = true -> desc_valid p = true) ->
  load_loop mtree_parse full es r p cap config hit = Walked q c -> consistent q /\ (c = true -> desc_valid q = true).
Proof.
  induction es as [|e es IH]; intros p cap config hit q c Hp Hc; cbn [load_loop]; [destruct (_ || _); [by intros [= <- <-]|done]|].
  destruct (e_path e) as [path|]; [|done]. destruct (strcmp path (lit ".PKGINFO") =? 0).
  { destruct (parse_descfile _ _ p) as [p'| |] eqn:E; [|done|done]. destruct (desc_valid p') eqn:Ev; [|done].
    apply parse_descfile_consistent in E; [|done]. by apply IH. }
  destruct (full && (strcmp path (lit ".MTREE") =? 0)).
  { destruct (build_filelist_from_mtree mtree_parse p e) as [[h p']|] eqn:E; [|done]. apply mtree_meta in E.
    apply IH; [by eapply same_meta_consistent|by rewrite (same_meta_valid p)]. }
  destruct (handle_simple_path p path) as [p'|] eqn:E.
  { apply simple_path_meta in E. apply IH; [by eapply same_meta_consistent|by rewrite (same_meta_valid p)]. }
  destruct (if full && negb hit then _ else _) as [fs alloc cap'| |]; [|done|done]. destruct (e_skip_fails e); [done|].
  assert (same_meta p (set_files fs alloc p)) as Es by done.
  destruct (_ && config); [intros [= <- <-]; split; [by eapply same_meta_consistent|by rewrite (same_meta_valid p)]|].
  apply IH; [by eapply same_meta_consistent|by rewrite (same_meta_valid p)].
Qed.

(** The metadata of a package the rest of the library may rely on: the name is
    not empty and does not begin with a hyphen or a dot, the version has exactly
    one hyphen and no slash, and both fit into the name of a directory. *)
Definition meta_ok (p : pkg) : Prop :=
  (exists c n, name p = c :: n /\ c <> "-"%char /\ c <> "."%char) /\
  (exists v r, version p = v ++ "-"%char :: r /\ "-"%char ∉ v /\ "-"%char ∉ r) /\
  "/"%char ∉ version p /\ (length (name p) + length (version p) + 1 <= Package.NAME_MAX)%nat.
Lemma desc_meta_ok p id pkgfile st_size full : desc_valid p = true ->
  Package.pkg_check_meta fnmatch (n_name p) (n_version p) = [] -> meta_ok (finish id pkgfile st_size full p).
Proof.
  unfold desc_valid, Package.pkg_check_meta, meta_ok. cbn [name version finish].
  destruct (n_name p) as [[|c n]|]; try done. destruct (n_version p) as [[|d v]|]; try done. cbn [default].
  destruct (strchr (d :: v) "-") as [t|] eqn:Et; [|done]. intros _ Hm.
  apply app_nil in Hm as [H1 Hm]. apply app_nil in Hm as [_ Hm]. apply app_nil in Hm as [H2 Hm]. apply app_nil in Hm as [H3 H4].
  apply strchr_split in Et as (u & w & E & -> & Hu). cbn [tail] in H2.
  split_and!.
  - exists c, n. split; [done|]. destruct (bool_decide (c = "-"%char)) eqn:B1; [done|]. destruct (bool_decide (c = "."%char)) eqn:B2; [done|].
    by apply bool_decide_eq_false in B1, B2.
  - exists u, w. split_and!; [done|done|]. destruct (strchr w "-") eqn:B; [done|]. by apply strchr_None.
  - destruct (strchr (d :: v) "/") eqn:B; [done|]. by apply strchr_None.
  - unfold Datatypes.id. destruct (Nat.ltb_spec Package.NAME_MAX (length (c :: n) + length (d :: v) + 1)); [done|lia].
Qed.

Lemma load_wellformed id pkgfile archive full p
    (H : pkg_load_internal mtree_parse fnmatch id pkgfile archive full = Loaded p) :
  pkg_hashed p /\
  Forall dep_hashed (depends p ++ optdepends p ++ checkdepends p ++ makedepends p ++ conflicts p ++ replaces p ++ provides p) /\
  Package.pkg_check_meta fnmatch (Some (name p)) (Some (version p)) = [] /\ meta_ok p /\
  ("/"%char ∉ name p -> Util.splitname (name p ++ "-"%char :: version p) = Some (Some (name p, version p, name_hash p))) /\
  (full = true -> StronglySorted (cmp_le FileList.files_cmp) (files p)).
Proof.
  unfold pkg_load_internal in H. destruct pkgfile as [|c pf]; [done|]. destruct archive as [[]|[[st_size es] r]]; try done.
  destruct (load_loop _ _ _ _ _ _ _ _) as [q conf| |] eqn:E; [|done|done].
  apply load_loop_consistent in E as [[Hn Hd] Hv]; [|by split; [|apply Forall_nil]|done].
  destruct conf; [|done]. destruct (Package.pkg_check_meta _ _ _) eqn:Em; [|done]. injection H as <-. specialize (Hv eq_refl).
  assert (pkg_hashed (finish id (c :: pf) st_size full q)) as Hh.
  { unfold pkg_hashed. cbn. unfold desc_valid in Hv. destruct (n_name q) as [n|]; [|done]. by apply Hn. }
  pose proof (desc_meta_ok q id (c :: pf) st_size full Hv Em) as Hm.
  split_and!; [done|exact Hd| |done| |].
  - unfold desc_valid in Hv. cbn [name version finish]. destruct (n_name q) as [n|]; [|done]. destruct (n_version q) as [v|]; [exact Em|by destruct n].
  - destruct Hm as ((x & n & En & _) & (v & r' & Ev & Hv1 & Hv2) & Hs & _). intros Hns. rewrite Hh, Ev.
    pose proof (Util.splitname_roundtrip (name (finish id (c :: pf) st_size full q)) v r' []) as Hsp. rewrite !app_nil_r in Hsp.
    apply Hsp; [by rewrite En| |done|done|done]. rewrite Ev in Hs. set_solver.
  - intros ->. cbn. apply FileList.sort_spec.
Qed.
(** C15: A package [_klpm_pkg_load_internal] hands out is well formed whatever the
    archive holds: its name hash and the hashes of all its dependencies are those
    of the names; it passed [_klpm_pkg_check_meta], so its name is not empty and does
    not begin with a hyphen or a dot, its version has exactly one hyphen and no slash,
    and both fit into the name of a directory (the rule on the characters of a name is
    not among what the check enforces); when the name has no slash, the directory
    "name-version" of the local database is read back by [_klpm_splitname] as the same
    package; and the list of files of a full load is sorted, as the conflict check
    needs it. *)
Theorem pkg_load_wellformed id pkgfile archive full p
    (H : pkg_load_internal mtree_parse fnmatch id pkgfile archive full = Loaded p) :
  pkg_hashed p /\
  Forall dep_hashed (depends p ++ optdepends p ++ checkdepends p ++ makedepends p ++ conflicts p ++ replaces p ++ provides p) /\
  Package.pkg_check_meta fnmatch (Some (name p)) (Some (version p)) = [] /\ meta_ok p /\
  ("/"%char ∉ name p -> Util.splitname (name p ++ "-"%char :: version p) = Some (Some (name p, version p, name_hash p))) /\
  (full = true -> StronglySorted (cmp_le FileList.files_cmp) (files p)).
Proof. by eapply load_wellformed. Qed.
(** ** Memory safety *)

(** libarchive hands out a name for every member, not empty for a directory. *)
Definition named (e : entry) : Prop := exists path, e_path e = Some path /\ (e_isdir e = true -> path <> []).
Definition is_mtree (e : entry) : bool := bool_decide (e_path e = Some (lit ".MTREE")).

Lemma add_entry_safe fs alloc e prev path : (length fs <= alloc)%nat -> (e_isdir e = true -> path = [] -> prev <> None) ->
  exists fs' alloc', add_entry fs alloc alloc e prev path = Added fs' alloc' alloc' /\ (length fs' <= alloc')%nat.
Proof.
  intros Hle Hd. destruct (greedy_grow_ok alloc (length fs) Hle) as (alloc' & Eg & Hlt). unfold add_entry. rewrite Eg.
  assert (exists n, (if e_isdir e then c ← match last path with Some c => Some c | None => prev end; Some (if decide (c = "/"%char) then path else path ++ lit "/") else Some path) = Some n) as (n & ->).
  { destruct (e_isdir e); [|eauto]. destruct (last path) eqn:El; simpl; [eauto|]. apply last_None in El. destruct prev; simpl; [eauto|by destruct Hd]. }
  rewrite (proj2 (Nat.leb_gt _ _)) by lia. do 2 eexists. split; [done|]. rewrite length_app. simpl. lia.
Qed.

Lemma mtree_loop_safe es : forall p fs alloc, Forall named es -> (length fs <= alloc)%nat -> mtree_loop es p fs alloc alloc <> MtreeCrash.
Proof.
  induction es as [|e es IH]; intros p fs alloc He Hle; cbn [mtree_loop]; [done|].
  apply Forall_cons in He as [(path & Ep & Hd) He]. rewrite Ep.
  destruct (if is_prefix _ path then _ else _) as [prev path'] eqn:Es. destruct (handle_simple_path p path'); [by apply IH|].
  destruct (add_entry_safe fs alloc e prev path' Hle) as (fs' & alloc' & -> & Hle'); [|by apply IH].
  intros Hdir ->. destruct (is_prefix (lit "./") path); simplify_eq; [done|by destruct Hd].
Qed.

(** The description cannot stop the loader. *)
Lemma desc_not_stuck blocks p :
  parse_descfile (S (S (length (concat (snd <$> blocks)) + length blocks))) (start 524288 blocks) p <> Stuck.
Proof.
  apply parse_descfile_total; [done|]. unfold measure, start. cbn. lia.
Qed.

(** While the list of the archive is used, the remembered capacity is that of
    the array; after a successful [.MTREE] the archive's list is not used, and no
    other one comes. *)
Definition room (hit : bool) (cap : nat) (es : list entry) (p : newpkg) : Prop :=
  if hit then Forall (fun e => is_mtree e = false) es
  else n_alloc p = cap /\ (length (n_files p) <= cap)%nat /\ (length (filter (fun e => is_mtree e = true) es) <= 1)%nat.
Lemma room_files hit cap es p q : n_files q = n_files p -> n_alloc q = n_alloc p -> room hit cap es p -> room hit cap es q.
Proof. unfold room. by intros -> ->. Qed.
Lemma room_tail hit cap e es p : room hit cap (e :: es) p -> room hit cap es p.
Proof.
  unfold room. destruct hit; [by intros [_ ?]%Forall_cons|]. intros (? & ? & Hc). split_and!; [done|done|].
  rewrite filter_cons in Hc. case_decide; simpl in Hc; lia.
Qed.
Lemma simple_path_files p path q : handle_simple_path p path = Some q -> n_files q = n_files p /\ n_alloc q = n_alloc p.
Proof. unfold handle_simple_path. repeat case_match; intros [= <-]; done. Qed.
(** The other fields do not matter for the memory of the list. *)
Lemma mtree_files p e hit q : build_filelist_from_mtree mtree_parse p e = Some (hit, q) ->
  hit = false -> n_files q = n_files p /\ n_alloc q = n_alloc p.
Proof.
  unfold build_filelist_from_mtree. intros H ->. destruct (read_data e) as [data|]; [|by simplify_eq].
  destruct (mtree_parse data) as [[es r]|]; [|by simplify_eq]. 
  assert (forall es p fs alloc cap, match mtree_loop es p fs alloc cap with Listed q _ _ | Unlisted q => n_files q = n_files p /\ n_alloc q = n_alloc p | MtreeCrash => True end) as Hl.
  { clear. induction es as [|e es IH]; intros p fs alloc cap; cbn [mtree_loop]; [done|].
    destruct (e_path e); [|done]. destruct (if is_prefix _ _ then _ else _) as [prev path]. destruct (handle_simple_path p path) as [q|] eqn:E.
    - apply simple_path_files in E as [<- <-]. apply IH.
    - destruct (add_entry fs alloc cap e prev path); [apply IH|done|done]. }
  specialize (Hl es p [] 0%nat 0%nat). destruct (mtree_loop es p [] 0 0) as [p' fs alloc|p'|]; [|by simplify_eq|done].
  destruct (_ || _); by simplify_eq.
Qed.
Lemma field_files v f p q : store_field f v p = Some q -> n_files q = n_files p /\ n_alloc q = n_alloc p.
Proof. destruct f; cbn [store_field]; try (destruct (Package.pkg_parse_xdata _); cbn [mbind option_bind]; [|done]); by intros [= <-]. Qed.
Lemma desc_files fuel : forall (b : buffer) p q, parse_descfile fuel b p = Parsed q -> n_files q = n_files p /\ n_alloc q = n_alloc p.
Proof.
  induction fuel as [|fuel IH]; intros b p q; cbn [parse_descfile]; [done|].
  destruct (next_line b) as [l b'|r b'| |]; [|destruct (r =? ARCHIVE_EOF); [by intros [= <-]|done]|done|done].
  destruct (parse_line l p) as [p'|] eqn:E; [|done]. intros H. apply IH in H as [-> ->].
  unfold parse_line in E. destruct (strip_line l) as [l' n]. repeat case_match; simplify_eq; try done. by eapply field_files.
Qed.

Section Safe.
Hypothesis mtree_named : forall data es r, mtree_parse data = Some (es, r) -> Forall named es.
Lemma mtree_safe p e : build_filelist_from_mtree mtree_parse p e <> None.
Proof.
  unfold build_filelist_from_mtree. destruct (read_data e) as [data|]; [|done]. destruct (mtree_parse data) as [[es r]|] eqn:E; [|done].
  pose proof (mtree_loop_safe es p [] 0 (mtree_named _ _ _ E) ltac:(simpl; lia)) as H. destruct (mtree_loop es p [] 0 0); [by destruct (_ || _)|done|done].
Qed.

Lemma load_loop_safe full es r : forall p cap config hit, Forall named es -> room hit cap es p ->
  load_loop mtree_parse full es r p cap config hit <> Crash.
Proof.
  induction es as [|e es IH]; intros p cap config hit He Hr; cbn [load_loop]; [by destruct (_ || _)|].
  apply Forall_cons in He as [(path & Ep & Hd) He]. pose proof (room_tail _ _ _ _ _ Hr) as Hr'. rewrite Ep.
  destruct (strcmp path (lit ".PKGINFO") =? 0).
  { pose proof (desc_not_stuck (e_data e) p) as Hs. destruct (parse_descfile _ _ p) as [p'| |] eqn:E; [|done|done].
    apply desc_files in E as [E1 E2]. destruct (desc_valid p'); [|done]. apply IH; [done|by eapply room_files]. }
  destruct (full && (strcmp path (lit ".MTREE") =? 0)) eqn:Em.
  { apply andb_true_iff in Em as [_ Em%Z.eqb_eq%strcmp_eq]. assert (is_mtree e = true) as Hm by (apply bool_decide_eq_true; by rewrite Ep, Em).
    pose proof (mtree_safe p e) as Hs. destruct (build_filelist_from_mtree mtree_parse p e) as [[h p']|] eqn:E; [|done].
    destruct hit; [by apply Forall_cons in Hr as [Hr _]; rewrite Hm in Hr|]. apply IH; [done|]. destruct h.
    - destruct Hr as (_ & _ & Hc). rewrite filter_cons, decide_True in Hc by done. simpl in Hc. apply Forall_forall. intros x Hx.
      destruct (is_mtree x) eqn:Ex; [|done]. assert (x ∈ filter (fun e => is_mtree e = true) es) as Hin by (by apply list_elem_of_filter).
      apply list_elem_of_In in Hin. destruct (filter (fun e => is_mtree e = true) es); simpl in *; [done|lia].
    - apply mtree_files in E as [E1 E2]; [|done]. by eapply room_files. }
  destruct (handle_simple_path p path) as [p'|] eqn:E.
  { apply simple_path_files in E as [E1 E2]. apply IH; [done|by eapply room_files]. }
  destruct (full && negb hit) eqn:Ef.
  - apply andb_true_iff in Ef as [-> Eh%negb_true_iff]. subst hit. destruct Hr' as (Ha & Hle & Hc). rewrite Ha.
    destruct (add_entry_safe (n_files p) cap e None path Hle) as (fs & alloc & -> & Hle'); [by intros Hdir ->; destruct Hd|].
    destruct (e_skip_fails e); [done|]. destruct (_ && config); [done|]. by apply IH.
  - destruct (e_skip_fails e); [done|]. destruct (_ && config); [done|]. apply IH; [done|]. by eapply room_files; [| |exact Hr'].
Qed.

(** C14: Loading never leaves defined behaviour, whatever the description, the
    data blocks and the list of files hold and wherever reading fails: when the
    archive library gives every member of the archive and every entry of the mtree
    data a pathname, not empty for a directory (a NULL one is not tested for), and the
    package has at most one [.MTREE] member, [_klpm_pkg_load_internal] returns a package or an error; no string is
    read out of bounds, the array of files is never overrun and reading the
    description ends. *)
Theorem pkg_load_safe id pkgfile archive full
    (Hn : match archive with inr (_, es, _) => Forall named es /\ (length (filter (fun e => is_mtree e = true) es) <= 1)%nat | inl _ => True end) :
  pkg_load_internal mtree_parse fnmatch id pkgfile archive full <> LoadCrash.
Proof.
  unfold pkg_load_internal. destruct pkgfile as [|c pf]; [done|]. destruct archive as [[]|[[st_size es] r]]; try done. destruct Hn as [He Hm].
  pose proof (load_loop_safe full es r pkg_new 0 false false He) as Hs. destruct (load_loop _ _ _ _ _ _ _ _) as [q []| |]; try done.
  - by destruct (Package.pkg_check_meta _ _ _).
  - by destruct Hs.
Qed.
End Safe.

(** C29: Loading a package reads back what its archive was made from: for every
    package that a [.PKGINFO] can express, an archive with that description (in
    any partition into blocks), perhaps an install script, and any ordinary
    members, loads as the package with exactly those fields, files (directories
    with a slash at the end, sorted) and script flag. *)
Theorem pkg_load_roundtrip p blocks (install : bool) es id pkgfile st_size
    (Hp : describable p) (Hv : desc_valid p = true) (Hm : Package.pkg_check_meta fnmatch (n_name p) (n_version p) = [])
    (Hl : lines_ok 524288 (pkginfo p)) (Hc : cut_of (pkginfo_text p) blocks) (He : Forall ordinary es) (Hf : pkgfile <> []) :
  pkg_load_internal mtree_parse fnmatch id pkgfile
    (inr (st_size, info_entry blocks :: (if install then [install_entry] else []) ++ es, ARCHIVE_EOF)) true =
  Loaded (finish id pkgfile st_size true (set_files (member_file <$> es) 0 (if install then set_scriptlet p else p))).
Proof. by apply load_package. Qed.
End LoadSpec.

(** ** Examples *)

Definition ex_fnmatch (pattern string : cstr) : Z := 1.
Definition ex_file (path : string) (dir : bool) : entry := Entry (Some (lit path)) dir 10 420 [] false.
(** A parser of lists that knows one list. *)
Definition ex_mtree (data : cstr) : option (list entry * Z) :=
  if decide (data = lit "list") then Some ([ex_file "./.INSTALL" false; ex_file "./usr" true], ARCHIVE_EOF) else None.
Definition ex_mtree_entry (data : string) : entry := Entry (Some (lit ".MTREE")) false 4 420 [(ARCHIVE_OK, lit data)] false.
Definition ex_new : newpkg :=
  on_info (fun i => LocalDb.set_depends [Deps.dep_from_string (lit "bar>=2"); Deps.dep_from_string (lit "baz: for x")] (LocalDb.set_isize 4096 i))
    (set_version (lit "1.0-1") (set_name (lit "foo") pkg_new)).
Definition ex_blocks : list (Z * cstr) := [(ARCHIVE_OK, take 20 (pkginfo_text ex_new)); (ARCHIVE_OK, drop 20 (pkginfo_text ex_new))].
Definition ex_members : list entry := [ex_file "usr/" true; ex_file "usr/bin" true; ex_file "etc/foo" false].

Lemma ex_describable : describable ex_new.
Proof.
  split.
  - exists (lit "foo"). split_and!; by_decide.
  - exists (lit "1.0-1"). split; by_decide.
  - intros v. rewrite !elem_of_cons, elem_of_nil. intros H. by repeat destruct H as [->|H].
  - by_decide.
  - by_decide.
  - by_decide.
  - repeat (apply Forall_cons; split); [split; [|by_decide].. |apply Forall_nil]; unfold Deps.dep_printable.
    all: by_decide.
  - apply Forall_nil; done.
  - apply Forall_nil; done.
  - done.
Qed.
Lemma pkg_load_roundtrip_witness :
  pkg_load_internal ex_mtree ex_fnmatch 5 (lit "foo.pkg") (inr (999, info_entry ex_blocks :: [install_entry] ++ ex_members, ARCHIVE_EOF)) true =
  Loaded (finish 5 (lit "foo.pkg") 999 true (set_files (member_file <$> ex_members) 0 (set_scriptlet ex_new))).
Proof.
  apply (pkg_load_roundtrip ex_mtree ex_fnmatch ex_new ex_blocks true ex_members 5 (lit "foo.pkg") 999); try done.
  - exact ex_describable.
  - repeat (apply Forall_cons; split); [split; [by_decide|vm_compute; done]..|by apply Forall_nil].
  - split; [|vm_compute; done]. repeat (apply Forall_cons; split); [split; [done|vm_compute; done]..|by apply Forall_nil].
  - repeat (apply Forall_cons; split); [split; [do 2 eexists; split; done|done]..|by apply Forall_nil].
Defined.

Definition ex_loaded : pkg := finish 5 (lit "foo.pkg") 999 true (set_files (member_file <$> ex_members) 0 (set_scriptlet ex_new)).
Lemma pkg_load_wellformed_witness :
  pkg_load_internal ex_mtree ex_fnmatch 5 (lit "foo.pkg") (inr (999, info_entry ex_blocks :: [install_entry] ++ ex_members, ARCHIVE_EOF)) true = Loaded ex_loaded /\
  Util.splitname (lit "foo-1.0-1") = Some (Some (lit "foo", lit "1.0-1", name_hash ex_loaded)) /\
  StronglySorted (cmp_le FileList.files_cmp) (files ex_loaded).
Proof.
  split; [vm_compute; reflexivity|].
  destruct (pkg_load_wellformed ex_mtree ex_fnmatch 5 (lit "foo.pkg") (inr (999, info_entry ex_blocks :: [install_entry] ++ ex_members, ARCHIVE_EOF)) true ex_loaded)
    as (_ & _ & _ & _ & H1 & H2); [vm_compute; reflexivity|]. split; [|by apply H2]. apply H1. by_decide.
Defined.

Lemma ex_mtree_named data es r : ex_mtree data = Some (es, r) -> Forall named es.
Proof.
  unfold ex_mtree. destruct (decide _); [|done]. intros [= <- _]. repeat (apply Forall_cons; split); [eexists; split; [done|done]..|by apply Forall_nil].
Qed.
(** An archive with a list of files that cannot be read, then files. *)
Lemma pkg_load_safe_witness :
  pkg_load_internal ex_mtree ex_fnmatch 5 (lit "foo.pkg") (inr (999, info_entry ex_blocks :: ex_mtree_entry "bad" :: ex_members, ARCHIVE_EOF)) true <> LoadCrash /\
  pkg_load_internal ex_mtree ex_fnmatch 5 (lit "foo.pkg") (inr (999, info_entry ex_blocks :: ex_mtree_entry "bad" :: ex_members, ARCHIVE_EOF)) true =
  Loaded (finish 5 (lit "foo.pkg") 999 true (set_files (member_file <$> ex_members) 0 ex_new)).
Proof.
  split; [|vm_compute; reflexivity]. apply (pkg_load_safe ex_mtree ex_fnmatch ex_mtree_named). cbv beta iota. split; [|vm_compute; lia].
  repeat (apply Forall_cons; split); [eexists; split; [done|done]..|by apply Forall_nil].
Defined.

(** With a second [.MTREE] member the loader overruns the array of files: the
    first one replaced the array, but [files_size] still tells the size of the
    old one, and after the second one has failed the members are added again. *)
Theorem second_mtree_overruns :
  pkg_load_internal ex_mtree ex_fnmatch 5 (lit "foo.pkg")
    (inr (999, [ex_file "a" false; ex_file "b" false; ex_mtree_entry "list"; ex_mtree_entry "bad"; ex_file "c" false; info_entry ex_blocks], ARCHIVE_EOF)) true = LoadCrash.
Proof. vm_compute. reflexivity. Qed.
End PkgFile.
