(* ===== verification/SyncDb.v ===== *)
(** * Sync databases ([src/lib/libkuzpkg/be_sync.c])

    A sync database is an archive with a directory per package that holds its
    description.  [sync_db_populate] reads the entries in their order: each one
    is attributed to a package of the cache by its name, which is made when it is
    the first, and the description fills the package's fields.  The packages
    are in the cache while their fields are filled: the fields are kept in a
    store by the address of the package.  libarchive, the signature check and
    <fnmatch.h> are parameters. *)

From S2P Require Import Prelude CStr Util KList Package PkgHash Deps FileList Db LocalDb Populate DiskSpace Archive PkgFile.
Local Open Scope Z_scope.

Module SyncDb.
Import Archive.

(** ** Package objects *)

(** The fields [sync_db_read] fills. *)
Record fields := Fields {
  s_filename : option cstr; s_size : Z; s_sha256sum : option cstr; s_base64_sig : option cstr;
  s_info : LocalDb.info; s_files : list file }.
#[global] Instance fields_eq_dec : EqDecision fields.
Proof. solve_decision. Defined.
Definition no_fields : fields := Fields None 0 None None LocalDb.fresh_info [].
Definition set_filename (v : cstr) (f : fields) : fields :=
  Fields (Some v) (s_size f) (s_sha256sum f) (s_base64_sig f) (s_info f) (s_files f).
Definition set_size (v : Z) (f : fields) : fields :=
  Fields (s_filename f) v (s_sha256sum f) (s_base64_sig f) (s_info f) (s_files f).
Definition set_sha256sum (v : cstr) (f : fields) : fields :=
  Fields (s_filename f) (s_size f) (Some v) (s_base64_sig f) (s_info f) (s_files f).
Definition set_base64_sig (v : cstr) (f : fields) : fields :=
  Fields (s_filename f) (s_size f) (s_sha256sum f) (Some v) (s_info f) (s_files f).
Definition on_info (g : LocalDb.info -> LocalDb.info) (f : fields) : fields :=
  Fields (s_filename f) (s_size f) (s_sha256sum f) (s_base64_sig f) (g (s_info f)) (s_files f).
Definition set_files (v : list file) (f : fields) : fields :=
  Fields (s_filename f) (s_size f) (s_sha256sum f) (s_base64_sig f) (s_info f) v.

(** The package of the cache with its fields. *)
Definition sync_pkg (db : cstr) (a : positive) (n v : cstr) (h : Z) (f : fields) : pkg :=
  let i := s_info f in {|
  pkg_id := a; name_hash := h; filename := s_filename f; base := LocalDb.i_base i; name := n; version := v;
  desc := LocalDb.i_desc i; url := LocalDb.i_url i; packager := LocalDb.i_packager i; sha256sum := s_sha256sum f;
  base64_sig := s_base64_sig f; arch := LocalDb.i_arch i; builddate := LocalDb.i_builddate i; installdate := 0;
  size := s_size f; isize := LocalDb.i_isize i; download_size := 0; licenses := LocalDb.i_licenses i;
  replaces := LocalDb.i_replaces i; groups := LocalDb.i_groups i; backups := []; depends := LocalDb.i_depends i;
  optdepends := LocalDb.i_optdepends i; checkdepends := LocalDb.i_checkdepends i; makedepends := LocalDb.i_makedepends i;
  conflicts := LocalDb.i_conflicts i; provides := LocalDb.i_provides i; files := s_files f; origin := FROM_SYNCDB;
  origin_db := Some db; origin_file := None; reason := REASON_EXPLICIT; scriptlet := false;
  pkg_xdata := LocalDb.i_xdata i; infolevel := 0; validation := 0 |}.
(** [_sync_get_validation] *)
Definition sync_get_validation (p : pkg) : Z :=
  if negb (validation p =? 0) then validation p
  else
    let v := if sha256sum p then LocalDb.VALIDATION_SHA256SUM else 0 in
    let v := if base64_sig p then Z.lor v LocalDb.VALIDATION_SIGNATURE else v in
    if v =? 0 then LocalDb.VALIDATION_NONE else v.

(** ** Descriptions *)

Inductive key :=
  | K_NAME | K_VERSION | K_FILENAME | K_BASE | K_DESC | K_GROUPS | K_URL | K_LICENSE | K_ARCH | K_BUILDDATE | K_PACKAGER
  | K_CSIZE | K_ISIZE | K_MD5SUM | K_SHA256SUM | K_PGPSIG | K_REPLACES | K_DEPENDS | K_OPTDEPENDS | K_MAKEDEPENDS
  | K_CHECKDEPENDS | K_CONFLICTS | K_PROVIDES | K_FILES | K_DATA | K_UNKNOWN.
Definition keys : list (string * key) :=
  [("%NAME%", K_NAME); ("%VERSION%", K_VERSION); ("%FILENAME%", K_FILENAME); ("%BASE%", K_BASE); ("%DESC%", K_DESC);
   ("%GROUPS%", K_GROUPS); ("%URL%", K_URL); ("%LICENSE%", K_LICENSE); ("%ARCH%", K_ARCH); ("%BUILDDATE%", K_BUILDDATE);
   ("%PACKAGER%", K_PACKAGER); ("%CSIZE%", K_CSIZE); ("%ISIZE%", K_ISIZE); ("%MD5SUM%", K_MD5SUM);
   ("%SHA256SUM%", K_SHA256SUM); ("%PGPSIG%", K_PGPSIG); ("%REPLACES%", K_REPLACES); ("%DEPENDS%", K_DEPENDS);
   ("%OPTDEPENDS%", K_OPTDEPENDS); ("%MAKEDEPENDS%", K_MAKEDEPENDS); ("%CHECKDEPENDS%", K_CHECKDEPENDS);
   ("%CONFLICTS%", K_CONFLICTS); ("%PROVIDES%", K_PROVIDES); ("%FILES%", K_FILES); ("%DATA%", K_DATA)].
Definition key_of (line : cstr) : key :=
  match find_first (fun e => strcmp line (lit e.1) =? 0) keys with Some (_, k) => k | None => K_UNKNOWN end.

Definition PATH_MAX : Z := 4096.
(** [_klpm_validate_filename] *)
Definition validate_filename (f : cstr) : bool :=
  if decide (head f = Some "."%char) then false
  else match memchr f "/"%char (length f) with
       | Some _ => false
       | None => Z.of_nat (length f) <=? PATH_MAX
       end.

(** What reading gives: a value and the rest of the source, [-1] with the value
    so far, the use of a line buffer that has been freed, or no end. *)
Inductive res (T A : Type) := Ok (a : A) (s : T) | Err (a : A) | Dangling | NoFuel.
#[global] Arguments Ok {T A}.
#[global] Arguments Err {T A}.
#[global] Arguments Dangling {T A}.
#[global] Arguments NoFuel {T A}.

Section Desc.
Context {T : Type} `{!LineSource T} `{!LinePtr T}.

(** A line read by [_klpm_archive_fgets] and stripped, as a string and with the
    length [_klpm_strip_newline] returns. *)
Definition get_line (s : T) : res T (cstr * nat) :=
  match next_line s with
  | Line l s => let '(l, n) := strip_line l in Ok (Util.before NUL l, n) s
  | Stop r _ => Err ([], 0%nat)
  | Overflow | Archive.NoFuel => NoFuel
  end.
(** The lines up to an empty one, as [READ_AND_STORE_ALL] reads them and, with
    [line] given, [READ_AND_SPLITDEP], which reads each line through a pointer
    taken when the line buffer was [line]. *)
Fixpoint get_lines (fuel : nat) (line : option (option Z)) (s : T) : res T (list cstr) :=
  match fuel with
  | O => NoFuel
  | S fuel =>
      match get_line s with
      | Ok (l, n) s =>
          if (n =? 0)%nat then Ok [] s
          else if negb (match line with Some a => bool_decide (line_alloc s = a) | None => true end) then Dangling
          else match get_lines fuel line s with
               | Ok ls s => Ok (l :: ls) s
               | Err ls => Err (l :: ls)
               | Dangling => Dangling
               | NoFuel => NoFuel
               end
      | Err _ => Err []
      | Dangling => Dangling
      | NoFuel => NoFuel
      end
  end.

(** [READ_NEXT] *)
Definition read_next (f : fields) (s : T) (k : cstr -> fields) : res T fields :=
  match get_line s with Ok (l, _) s => Ok (k l) s | Err _ => Err f | Dangling => Dangling | NoFuel => NoFuel end.
(** [READ_AND_STORE_ALL] and [READ_AND_SPLITDEP] into a field. *)
Definition read_list (fuel : nat) (line : option (option Z)) (s : T) (k : list cstr -> fields) : res T fields :=
  match get_lines fuel line s with Ok ls s => Ok (k ls) s | Err ls => Err (k ls) | Dangling => Dangling | NoFuel => NoFuel end.
Definition split_deps (fuel : nat) (f : fields) (s : T) (get : LocalDb.info -> list depend)
    (set : list depend -> LocalDb.info -> LocalDb.info) : res T fields :=
  read_list fuel (Some (line_alloc s)) s (fun ls => on_info (fun i => set (get i ++ (Deps.dep_from_string <$> ls)) i) f).
Fixpoint add_xdata (ls : list cstr) (f : fields) : fields * bool :=
  match ls with
  | [] => (f, true)
  | l :: ls =>
      match Package.pkg_parse_xdata (Some l) with
      | Some pd => add_xdata ls (on_info (fun i => LocalDb.set_xdata (LocalDb.i_xdata i ++ [pd]) i) f)
      | None => (f, false)
      end
  end.

(** The branches of [sync_db_read] for a key; [s] is the source after it. *)
Definition read_key (k : key) (fuel : nat) (f : fields) (s : T) : res T fields :=
  let store set := read_next f s (fun l => on_info (set (Some l)) f) in
  match k with
  | K_NAME | K_VERSION | K_MD5SUM => read_next f s (fun _ => f)
  | K_FILENAME =>
      match read_next f s (fun l => set_filename l f) with
      | Ok f s => if validate_filename (default [] (s_filename f)) then Ok f s else Err f
      | r => r
      end
  | K_BASE => store LocalDb.set_base
  | K_DESC => store LocalDb.set_desc
  | K_URL => store LocalDb.set_url
  | K_ARCH => store LocalDb.set_arch
  | K_PACKAGER => store LocalDb.set_packager
  | K_GROUPS => read_list fuel None s (fun ls => on_info (fun i => LocalDb.set_groups (LocalDb.i_groups i ++ ls) i) f)
  | K_LICENSE => read_list fuel None s (fun ls => on_info (fun i => LocalDb.set_licenses (LocalDb.i_licenses i ++ ls) i) f)
  | K_BUILDDATE => read_next f s (fun l => on_info (LocalDb.set_builddate (Util.parsedate l)) f)
  | K_CSIZE => read_next f s (fun l => set_size (Util.strtoofft l) f)
  | K_ISIZE => read_next f s (fun l => on_info (LocalDb.set_isize (Util.strtoofft l)) f)
  | K_SHA256SUM => read_next f s (fun l => set_sha256sum l f)
  | K_PGPSIG => read_next f s (fun l => set_base64_sig l f)
  | K_REPLACES => split_deps fuel f s LocalDb.i_replaces LocalDb.set_replaces
  | K_DEPENDS => split_deps fuel f s LocalDb.i_depends LocalDb.set_depends
  | K_OPTDEPENDS => split_deps fuel f s LocalDb.i_optdepends LocalDb.set_optdepends
  | K_MAKEDEPENDS => split_deps fuel f s LocalDb.i_makedepends LocalDb.set_makedepends
  | K_CHECKDEPENDS => split_deps fuel f s LocalDb.i_checkdepends LocalDb.set_checkdepends
  | K_CONFLICTS => split_deps fuel f s LocalDb.i_conflicts LocalDb.set_conflicts
  | K_PROVIDES => split_deps fuel f s LocalDb.i_provides LocalDb.set_provides
  | K_FILES =>
      match get_lines fuel None s with
      | Ok ls s => Ok (set_files (FileList.sort ((fun l => File l 0 0) <$> ls)) f) s
      | Err _ => Err f
      | Dangling => Dangling
      | NoFuel => NoFuel
      end
  | K_DATA =>
      match get_lines fuel None s with
      | Ok ls s => let '(f, good) := add_xdata ls f in if good then Ok f s else Err f
      | Err _ => Err f
      | Dangling => Dangling
      | NoFuel => NoFuel
      end
  | K_UNKNOWN => match get_lines fuel None s with Ok _ s => Ok f s | Err _ => Err f | Dangling => Dangling | NoFuel => NoFuel end
  end.

(** The loop of [sync_db_read]: the fields, and whether it ended well. *)
Inductive parsed := Parsed (f : fields) (ok : bool) | FreedLine | Stuck.
Fixpoint read_desc (fuel : nat) (f : fields) (s : T) : parsed :=
  match fuel with
  | O => Stuck
  | S fuel =>
      match next_line s with
      | Line l s =>
          let '(l, n) := strip_line l in
          if (n =? 0)%nat then read_desc fuel f s
          else match read_key (key_of (Util.before NUL l)) fuel f s with
               | Ok f s => read_desc fuel f s
               | Err f => Parsed f false
               | Dangling => FreedLine
               | NoFuel => Stuck
               end
      | Stop r _ => Parsed f (r =? ARCHIVE_EOF)
      | Overflow | Archive.NoFuel => Stuck
      end
  end.
End Desc.

(** ** Entries *)

Section Sync.
(** <fnmatch.h>; the name of the database. *)
Variables (fnmatch : cstr -> cstr -> Z) (treename : cstr).

(** The cache, the fields of its packages, the next address and [likely_pkg]. *)
Record state := State { s_cache : PkgHash.pkghash; s_store : gmap positive fields; s_next : positive; s_likely : option pkg }.

(** [load_pkg_for_entry]: [None] for an access out of bounds or an endless
    probe, then the package or NULL, and the state. *)
Definition load_pkg_for_entry (st : state) (entryname : cstr) : option (option pkg * state) :=
  split ← Util.splitname entryname;
  match split with
  | None => Some (None, st)
  | Some (n, v, h) =>
      found ← match s_likely st with
              | Some p => if (h =? name_hash p) && (strcmp (name p) n =? 0) then Some (Some p) else PkgHash.pkghash_find (s_cache st) n
              | None => PkgHash.pkghash_find (s_cache st) n
              end;
      match found with
      | Some p => Some (Some p, st)
      | None =>
          let a := s_next st in
          let p := sync_pkg treename a n v h no_fields in
          match Package.pkg_check_meta fnmatch (Some n) (Some v) with
          | [] =>
              r ← PkgHash.pkghash_add_pkg (s_cache st) p false (Some (Pos.succ a));
              match r with
              | PkgHash.Added c => Some (Some p, State c (<[a := no_fields]> (s_store st)) (Pos.succ (Pos.succ a)) (s_likely st))
              | PkgHash.AddFailed c => Some (None, State c (s_store st) (Pos.succ (Pos.succ a)) (s_likely st))
              end
          | _ => Some (None, State (s_cache st) (s_store st) (Pos.succ (Pos.succ a)) (s_likely st))
          end
      end
  end.

Definition entry_fuel (blocks : list (Z * cstr)) : nat := S (S (length (concat (snd <$> blocks)) + length blocks)).
Inductive outcome := Read (ok : bool) (st : state) | FreedLineRead | Undefined.
(** [sync_db_read] *)
Definition sync_db_read (st : state) (e : PkgFile.entry) : outcome :=
  match PkgFile.e_path e with
  | None => Read false st
  | Some entryname =>
      match load_pkg_for_entry st entryname with
      | None => Undefined
      | Some (None, st) => Read false st
      | Some (Some p, st) =>
          match Util.strrchr entryname "/"%char with
          | None => Read true st
          | Some (_, fname) =>
              if (strcmp fname (lit "desc") =? 0) || (strcmp fname (lit "depends") =? 0) || (strcmp fname (lit "files") =? 0) then
                match read_desc (entry_fuel (PkgFile.e_data e)) (default no_fields (s_store st !! pkg_id p))
                        (start 524288 (PkgFile.e_data e)) with
                | Parsed f ok => Read ok (State (s_cache st) (<[pkg_id p := f]> (s_store st)) (s_next st) (if ok then Some p else s_likely st))
                | FreedLine => FreedLineRead
                | Stuck => Undefined
                end
              else Read true st
          end
      end
  end.

(** [ARCHIVE_COMPRESSION_*] *)
Definition per_package (filter_code : Z) : Z :=
  if filter_code =? 0 then 3015
  else if (filter_code =? 1) || (filter_code =? 3) then 464
  else if filter_code =? 2 then 394
  else if (filter_code =? 5) || (filter_code =? 6) then 400
  else if filter_code =? 7 then 3015 * 4 / 3
  else 500.
Definition estimate_package_count (st_size filter_code : Z) : Z := st_size / per_package filter_code + 1.

(** The loop of [sync_db_populate]; [ok] is [ret == 0]. *)
Fixpoint populate_loop (es : list PkgFile.entry) (ok : bool) (st : state) : outcome :=
  match es with
  | [] => Read ok st
  | e :: es =>
      if DiskSpace.S_ISDIR (PkgFile.e_mode e) then populate_loop es ok st
      else match sync_db_read st e with
           | Read ok' st => populate_loop es (ok && ok') st
           | r => r
           end
  end.

Inductive error := ERR_DB_INVALID | ERR_DB_NOT_FOUND | ERR_DB_PATH | ERR_DB_OPEN | ERR_MEMORY | ERR_LIBARCHIVE.
(** What [_klpm_open_archive] gives: size and filter of the file, its entries and
    the code after them. *)
Record archive := Archive_ { a_size : Z; a_filter : Z; a_entries : list PkgFile.entry; a_ret : Z }.
(** The result: the status, and the cache with the fields, or an error; or
    undefined behaviour. *)
Inductive populated := Populated (status : Z) (st : state) | NotPopulated (status : Z) (e : error) | Crash.
Definition sort_cache (st : state) : state :=
  State (Populate.sort_list (s_cache st)) (s_store st) (s_next st) (s_likely st).
(** [sync_db_populate]; [path] is whether [_klpm_db_path] gives one, [files_db]
    whether [dbext] is ".files", [base] the first free address. *)
Definition sync_db_populate (path files_db : bool) (a : option archive) (base : positive) (status : Z) : populated :=
  if Db.has status Db.DB_STATUS_INVALID then NotPopulated status ERR_DB_INVALID
  else if Db.has status Db.DB_STATUS_MISSING then NotPopulated status ERR_DB_NOT_FOUND
  else if negb path then NotPopulated status ERR_DB_PATH
  else
    match a with
    | None => NotPopulated (Populate.invalid_now status) ERR_DB_OPEN
    | Some a =>
        let est := estimate_package_count (a_size a) (a_filter a) in
        let est := if files_db then est / 4 else est in
        match PkgHash.pkghash_create est with
        | None => NotPopulated status ERR_MEMORY
        | Some h =>
            match populate_loop (a_entries a) true (State h ∅ base None) with
            | Read ok st =>
                if negb ok then NotPopulated (Db.clear_flag (Populate.invalid_now status) Db.DB_STATUS_PKGCACHE) ERR_DB_INVALID
                else if negb (a_ret a =? ARCHIVE_EOF) then NotPopulated (Db.clear_flag status Db.DB_STATUS_PKGCACHE) ERR_LIBARCHIVE
                else Populated status (match PkgHash.hlist (s_cache st) with [] => st | _ => sort_cache st end)
            | _ => Crash
            end
        end
    end.

(** The cache as the rest of the library sees it: the packages with their
    fields. *)
Definition fill (st : state) (p : pkg) : pkg :=
  sync_pkg treename (pkg_id p) (name p) (version p) (name_hash p) (default no_fields (s_store st !! pkg_id p)).
Definition map_node (g : pkg -> pkg) (n : PkgHash.node) : PkgHash.node := (n.1, g n.2).
Definition map_pkgs (g : pkg -> pkg) (h : PkgHash.pkghash) : PkgHash.pkghash :=
  PkgHash.PkgHash (map_node g <$> PkgHash.hash_table h) (map_node g <$> PkgHash.hlist h) (PkgHash.buckets h) (PkgHash.entries h) (PkgHash.limit h).
Definition materialize (st : state) : PkgHash.pkghash := map_pkgs (fill st) (s_cache st).
End Sync.

(** [sync_db_validate]: the result, the status, and whether it asked; the
    attempts are the results of [_klpm_check_pgp_helper] and, when that fails,
    of [_klpm_process_siglist]; [siglevel] that of [klpm_db_get_siglevel]. *)
Definition SIG_DATABASE : Z := 2 ^ 10.
Fixpoint check_loop (attempts : list (Z * Z)) : option Z :=
  match attempts with
  | [] => None
  | (ret, retry) :: attempts =>
      if ret =? 0 then Some ret else if retry =? 0 then Some ret else check_loop attempts
  end.
Inductive validity := Validity (ret status : Z) (err : bool).
Definition sync_db_validate (path absent : bool) (siglevel : Z) (attempts : list (Z * Z)) (status : Z) : option validity :=
  if Db.has status Db.DB_STATUS_VALID || Db.has status Db.DB_STATUS_MISSING then Some (Validity 0 status false)
  else if Db.has status Db.DB_STATUS_INVALID then Some (Validity (-1) status true)
  else if negb path then Some (Validity (-1) status true)
  else if absent then Some (Validity 0 (Populate.valid_now (Populate.missing_now status)) false)
  else
    let status := Populate.exists_now status in
    if Db.has siglevel SIG_DATABASE then
      ret ← check_loop attempts;
      if ret =? 0 then Some (Validity 0 (Populate.valid_now status) false)
      else Some (Validity 1 (Populate.invalid_now status) true)
    else Some (Validity 0 (Populate.valid_now status) false).

(** ** Reading from a list of lines

    A source that delivers lines into a buffer that stays in place is read
    like the list of the lines. *)
Section Simulation.
Context {T : Type} `{!LineSource T} `{!LinePtr T} (a : option Z).

Definition sim {A} (r : res T A) (r' : res (list cstr) A) : Prop :=
  match r, r' with
  | Ok x s, Ok y ls => x = y /\ steady a s ls /\ line_alloc s = a
  | Err x, Err y => x = y
  | Dangling, Dangling | NoFuel, NoFuel => True
  | _, _ => False
  end.
Lemma sim_map {A B} (r : res T A) r' (k : A -> B) (e : A -> B) : sim r r' ->
  sim match r with Ok x s => Ok (k x) s | Err x => Err (e x) | Dangling => Dangling | NoFuel => NoFuel end
      match r' with Ok x s => Ok (k x) s | Err x => Err (e x) | Dangling => Dangling | NoFuel => NoFuel end.
Proof. unfold sim. destruct r, r'; try done; [intros (-> & ?); done|by intros ->]. Qed.

Lemma get_line_sim (s : T) ls : steady a s ls -> sim (get_line s) (get_line ls).
Proof.
  intros H. unfold get_line. inversion H as [s0 s' E|s0 s' l ls' E Ha Hs]; subst; rewrite E; [done|].
  cbn [next_line lines_source]. by destruct (strip_line l).
Qed.
Lemma get_lines_sim fuel (line : bool) : forall (s : T) ls, steady a s ls ->
  sim (get_lines fuel (if line then Some a else None) s) (get_lines fuel (if line then Some None else None) ls).
Proof.
  induction fuel as [|fuel IH]; intros s ls H; cbn [get_lines]; [done|]. pose proof (get_line_sim s ls H) as Hl.
  destruct (get_line s) as [[l n] s1|x| |], (get_line ls) as [[l' n'] ls1|y| |]; try done.
  destruct Hl as ([= -> ->] & Hs & Ha). destruct (n' =? 0)%nat; [done|].
  specialize (IH s1 ls1 Hs). destruct line; cbv iota in *; [rewrite Ha, !bool_decide_eq_true_2 by done|]; cbn [negb];
    (destruct (get_lines fuel _ s1), (get_lines fuel _ ls1); try done; simpl in *; [by destruct IH as (-> & ? & ?)|congruence]).
Qed.

Lemma read_next_sim (s : T) ls f k : steady a s ls -> sim (read_next f s k) (read_next f ls k).
Proof.
  intros H. apply get_line_sim in H. unfold read_next.
  destruct (get_line s) as [[]| | |], (get_line ls) as [[]| | |]; try done. simpl in *. destruct H as ([= -> ->] & ? & ?). done.
Qed.
Lemma read_list_sim fuel (line : bool) (s : T) ls k : steady a s ls ->
  sim (read_list fuel (if line then Some a else None) s k) (read_list fuel (if line then Some None else None) ls k).
Proof. intros H. apply sim_map. by apply get_lines_sim. Qed.

Lemma read_key_sim k fuel f (s : T) ls : steady a s ls -> line_alloc s = a -> sim (read_key k fuel f s) (read_key k fuel f ls).
Proof.
  intros Hs Ha. pose proof (get_lines_sim fuel false s ls Hs) as Hg.
  assert (forall get set, sim (split_deps fuel f s get set) (split_deps fuel f ls get set)) as Hd
    by (intros get set; unfold split_deps; rewrite Ha; by apply (read_list_sim fuel true)).
  destruct k; cbn [read_key]; first [by apply read_next_sim|by apply Hd|by apply (read_list_sim fuel false)|idtac].
  - pose proof (read_next_sim s ls f (fun l => set_filename l f) Hs) as Hr.
    destruct (read_next f s _), (read_next f ls _); try done. simpl in Hr. destruct Hr as (-> & ? & ?). by destruct (validate_filename _).
  - simpl in Hg. destruct (get_lines fuel None s), (get_lines fuel None ls); try done. simpl in *. by destruct Hg as (-> & ? & ?).
  - simpl in Hg. destruct (get_lines fuel None s) as [x| | |], (get_lines fuel None ls); try done. simpl in *. destruct Hg as (-> & ? & ?).
    by destruct (add_xdata _ f) as [? []].
Qed.
Lemma read_desc_sim fuel : forall f (s : T) ls, steady a s ls -> read_desc fuel f s = read_desc fuel f ls.
Proof.
  induction fuel as [|fuel IH]; intros f s ls H; cbn [read_desc]; [done|].
  destruct H as [s s' E|s s' l ls' E Ha Hs]; rewrite E; [done|]. cbn [next_line lines_source].
  destruct (strip_line l) as [l' n]. destruct (n =? 0)%nat; [by apply IH|].
  pose proof (read_key_sim (key_of (Util.before NUL l')) fuel f s' ls' Hs Ha) as Hk.
  destruct (read_key _ fuel f s'), (read_key _ fuel f ls'); try done; simpl in Hk; [destruct Hk as (-> & ? & ?); by apply IH|by subst].
Qed.
End Simulation.

(** ** Any data *)

Section Any.
Context (m : nat).
Notation home := (Some (Z.of_nat m + 1)).
(** The source goes on with less to come, its line buffer where it was. *)
Definition good (b : buffer) : Prop := buffer_ok b /\ settled m b.
Definition fine {A} (k : nat) (r : res buffer A) : Prop :=
  match r with Ok _ b => good b /\ line_alloc b = home /\ (measure b < k)%nat | Err _ => True | Dangling | NoFuel => False end.
Lemma fine_mono {A} k k' (r : res buffer A) : fine k r -> (k <= k')%nat -> fine k' r.
Proof. destruct r; simpl; [|done..]. intros (? & ? & ?) ?. split_and!; [done|done|lia]. Qed.

Lemma get_line_fine b : good b -> fine (measure b) (get_line b).
Proof.
  intros [Hb Hs]. unfold get_line. pose proof (archive_fgets_safe b Hb) as H. unfold next_line, archive_source.
  destruct (archive_fgets b) as [l b'|r b'| |] eqn:E; simpl in H; [|done|done|done].
  destruct H as [Hb' Hm]. destruct (fgets_settled m b l b' Hs E) as [Hs' Ha]. by destruct (strip_line l).
Qed.
Lemma get_lines_fine fuel (line : bool) : forall b, good b -> (measure b < fuel)%nat ->
  fine (measure b) (get_lines fuel (if line then Some home else None) b).
Proof.
  induction fuel as [|fuel IH]; intros b Hb Hf; cbn [get_lines]; [lia|]. pose proof (get_line_fine b Hb) as Hl.
  destruct (get_line b) as [[l n] b'|x| |]; try done. destruct Hl as (Hb' & Ha & Hm). destruct (n =? 0)%nat; [done|].
  specialize (IH b' Hb'). assert (fine (measure b) (get_lines fuel (if line then Some home else None) b')) as IH' by (eapply fine_mono; [apply IH|]; lia).
  destruct line; [rewrite bool_decide_eq_true_2 by done|]; cbn [negb]; by destruct (get_lines fuel _ b').
Qed.
Lemma fine_map {A B} k (r : res buffer A) (f e : A -> B) : fine k r ->
  fine k match r with Ok x s => Ok (f x) s | Err x => Err (e x) | Dangling => Dangling | NoFuel => NoFuel end.
Proof. by destruct r. Qed.
Lemma read_next_fine b f k : good b -> fine (measure b) (read_next f b k).
Proof. intros H. apply get_line_fine in H. unfold read_next. by destruct (get_line b) as [[]| | |]. Qed.

Lemma read_key_fine k fuel f b : good b -> line_alloc b = home -> (measure b < fuel)%nat -> fine (measure b) (read_key k fuel f b).
Proof.
  intros Hb Ha Hf. pose proof (get_lines_fine fuel false b Hb Hf) as Hg.
  assert (forall get set, fine (measure b) (split_deps fuel f b get set)) as Hd.
  { intros get set. unfold split_deps, read_list. rewrite Ha. apply fine_map. by apply (get_lines_fine fuel true). }
  destruct k; cbn [read_key]; first [by apply read_next_fine|by apply Hd|by apply fine_map|idtac].
  - pose proof (read_next_fine b f (fun l => set_filename l f) Hb) as Hr. destruct (read_next f b _); try done. by destruct (validate_filename _).
  - simpl in Hg. destruct (get_lines fuel None b) as [ls b'| | |]; try done. by destruct (add_xdata ls f) as [? []].
Qed.
Lemma read_desc_fine fuel : forall f b, good b -> (measure b < fuel)%nat -> exists f' ok, read_desc fuel f b = Parsed f' ok.
Proof.
  induction fuel as [|fuel IH]; intros f b [Hb Hs] Hf; cbn [read_desc]; [lia|].
  pose proof (archive_fgets_safe b Hb) as H. unfold next_line, archive_source.
  destruct (archive_fgets b) as [l b'|r b'| |] eqn:E; simpl in H; [|by eauto|done|done].
  destruct H as [Hb' Hm]. destruct (fgets_settled m b l b' Hs E) as [Hs' Ha]. assert (good b') as Hg by done.
  destruct (strip_line l) as [l' n]. destruct (n =? 0)%nat; [apply IH; [done|lia]|].
  pose proof (read_key_fine (key_of (Util.before NUL l')) fuel f b' Hg Ha ltac:(lia)) as Hk.
  destruct (read_key _ fuel f b') as [f' b2|f'| |]; try done; [|eauto]. destruct Hk as (Hg2 & _ & Hm2). apply IH; [done|lia].
Qed.
End Any.

(** ** What repo-add writes *)

Notation value_ok := PkgFile.value_ok.
Definition item (v : cstr) : Prop := value_ok v /\ v <> [].
#[global] Instance item_dec v : Decision (item v).
Proof. unfold item. apply _. Defined.

(** [format_entry] of the script repo-add: nothing when the first value is
    empty. *)
Definition format_entry (field : string) (values : list cstr) : list cstr :=
  match values with (_ :: _) :: _ => lit field :: values ++ [[]] | _ => [] end.
Definition opt_value (v : option cstr) : list cstr := match v with Some v => [v] | None => [] end.
Definition format_deps (field : string) (ds : list depend) : list cstr := format_entry field (Deps.dep_compute_string <$> ds).
Definition repo_desc (n v : cstr) (f : fields) : list cstr :=
  let i := s_info f in
  format_entry "%FILENAME%" (opt_value (s_filename f)) ++ format_entry "%NAME%" [n] ++
  format_entry "%BASE%" (opt_value (LocalDb.i_base i)) ++ format_entry "%VERSION%" [v] ++
  format_entry "%DESC%" (opt_value (LocalDb.i_desc i)) ++ format_entry "%GROUPS%" (LocalDb.i_groups i) ++
  format_entry "%CSIZE%" [Util.print_d (s_size f)] ++ format_entry "%ISIZE%" [Util.print_d (LocalDb.i_isize i)] ++
  format_entry "%SHA256SUM%" (opt_value (s_sha256sum f)) ++ format_entry "%PGPSIG%" (opt_value (s_base64_sig f)) ++
  format_entry "%URL%" (opt_value (LocalDb.i_url i)) ++ format_entry "%LICENSE%" (LocalDb.i_licenses i) ++
  format_entry "%ARCH%" (opt_value (LocalDb.i_arch i)) ++ format_entry "%BUILDDATE%" [Util.print_d (LocalDb.i_builddate i)] ++
  format_entry "%PACKAGER%" (opt_value (LocalDb.i_packager i)) ++ format_deps "%REPLACES%" (LocalDb.i_replaces i) ++
  format_deps "%CONFLICTS%" (LocalDb.i_conflicts i) ++ format_deps "%PROVIDES%" (LocalDb.i_provides i) ++
  format_deps "%DEPENDS%" (LocalDb.i_depends i) ++ format_deps "%OPTDEPENDS%" (LocalDb.i_optdepends i) ++
  format_deps "%MAKEDEPENDS%" (LocalDb.i_makedepends i) ++ format_deps "%CHECKDEPENDS%" (LocalDb.i_checkdepends i).
(** The files entry: no empty line at its end. *)
Definition repo_files (f : fields) : list cstr := lit "%FILES%" :: (f_name <$> s_files f).

(** A package a database can describe. *)
Definition dep_ok (d : depend) : Prop := Deps.dep_printable d /\ item (Deps.dep_compute_string d).
Record publishable (f : fields) : Prop := {
  p_filename : exists n, s_filename f = Some n /\ item n /\ validate_filename n = true;
  p_strings : forall v, v ∈ [s_sha256sum f; s_base64_sig f; LocalDb.i_base (s_info f); LocalDb.i_desc (s_info f); LocalDb.i_url (s_info f);
                            LocalDb.i_packager (s_info f); LocalDb.i_arch (s_info f)] ->
                match v with Some v => item v | None => True end;
  p_lists : Forall item (LocalDb.i_licenses (s_info f) ++ LocalDb.i_groups (s_info f));
  p_size : 0 <= s_size f <= Util.LLONG_MAX;
  p_isize : 0 <= LocalDb.i_isize (s_info f) <= Util.LLONG_MAX;
  p_builddate : LocalDb.int64 (LocalDb.i_builddate (s_info f));
  p_deps : Forall dep_ok (LocalDb.i_replaces (s_info f) ++ LocalDb.i_conflicts (s_info f) ++ LocalDb.i_provides (s_info f) ++
             LocalDb.i_depends (s_info f) ++ LocalDb.i_optdepends (s_info f) ++ LocalDb.i_makedepends (s_info f) ++
             LocalDb.i_checkdepends (s_info f));
  p_files : Forall (fun x => item (f_name x) /\ f_size x = 0 /\ f_mode x = 0) (s_files f) /\ FileList.presorted (s_files f) = true;
  p_rest : LocalDb.i_installdate (s_info f) = 0 /\ LocalDb.i_reason (s_info f) = REASON_EXPLICIT /\
           LocalDb.i_validation (s_info f) = 0 /\ LocalDb.i_xdata (s_info f) = []
}.

(** *** Sections *)

(** Reading these lines changes the fields this way. *)
Definition reads (ls : list cstr) (g : fields -> fields) : Prop :=
  forall rest f fuel, (length (ls ++ rest) < fuel)%nat ->
  exists fuel', (length rest < fuel')%nat /\ read_desc fuel f (ls ++ rest) = read_desc fuel' (g f) rest.
Lemma reads_nil g : (forall f, g f = f) -> reads [] g.
Proof. intros H rest f fuel Hf. exists fuel. by rewrite H. Qed.
Lemma sync_reads_app ls ls' g g' : reads ls g -> reads ls' g' -> reads (ls ++ ls') (fun f => g' (g f)).
Proof.
  intros H1 H2 rest f fuel Hf. rewrite <- app_assoc in *. destruct (H1 (ls' ++ rest) f fuel Hf) as (fuel1 & Hf1 & ->).
  by apply H2.
Qed.

Lemma get_line_text l (s : list cstr) : value_ok l -> get_line (l :: s) = Ok (l, length l) s.
Proof. intros [H1 H2]. unfold get_line. cbn [next_line lines_source]. rewrite strip_line_none by done. by rewrite LocalDb.before_absent. Qed.
Lemma read_desc_key k (s : list cstr) fuel f : item (lit k) ->
  read_desc (S fuel) f (lit k :: s) =
  match read_key (key_of (lit k)) fuel f s with Ok f s => read_desc fuel f s | Err f => Parsed f false | Dangling => FreedLine | NoFuel => Stuck end.
Proof.
  intros [[H1 H2] H3]. cbn [read_desc next_line lines_source]. rewrite strip_line_none by done. rewrite LocalDb.before_absent by done.
  by rewrite (proj2 (Nat.eqb_neq _ _)) by (by destruct (lit k)).
Qed.
Lemma read_desc_blank (s : list cstr) fuel f : read_desc (S fuel) f ([] :: s) = read_desc fuel f s.
Proof. done. Qed.

Lemma get_lines_items (line : option (option Z)) ls rest : Forall item ls -> default None line = None ->
  forall fuel, (length ls < fuel)%nat -> get_lines fuel line (ls ++ [] :: rest) = Ok ls rest.
Proof.
  intros Hls Hl. induction Hls as [|l ls [Ht Hne] _ IH]; intros fuel Hf; (destruct fuel as [|fuel]; [simpl in Hf; lia|]); cbn [app get_lines].
  - by rewrite get_line_text by (split; apply not_elem_of_nil).
  - rewrite get_line_text by done. rewrite (proj2 (Nat.eqb_neq _ _)) by (by destruct l). simpl in Hf. rewrite IH by lia.
    destruct line as [[z|]|]; [done|..]; done.
Qed.

Lemma sync_reads_value k v g : item (lit k) ->
  (forall f (s : list cstr) fuel, read_key (key_of (lit k)) fuel f (v :: s) = Ok (g f) s) -> reads [lit k; v; []] g.
Proof.
  intros Hk H rest f fuel Hf. destruct fuel as [|[|fuel]]; [simpl in Hf; lia..|]. exists fuel. split; [simpl in Hf; lia|].
  cbn [app]. rewrite read_desc_key by done. rewrite H. apply read_desc_blank.
Qed.
Lemma reads_items k ls g : item (lit k) ->
  (forall f (s : list cstr) fuel, (length ls < fuel)%nat -> read_key (key_of (lit k)) fuel f (ls ++ [] :: s) = Ok (g f) s) ->
  reads (lit k :: ls ++ [[]]) g.
Proof.
  intros Hk H rest f fuel Hf. destruct fuel as [|fuel]; [simpl in Hf; lia|]. cbn [app]. rewrite <- app_assoc. cbn [app].
  rewrite length_app in Hf. cbn [length] in Hf. rewrite length_app in Hf. cbn [length] in Hf.
  exists fuel. split; [lia|]. rewrite read_desc_key by done. by rewrite H by lia.
Qed.

(** The forms of the fields. *)
Definition or_old {A} (v old : option A) : option A := match v with Some _ => v | None => old end.
Lemma sync_reads_opt k v (set : cstr -> fields -> fields) : item (lit k) -> match v with Some v => item v | None => True end ->
  (forall f x (s : list cstr) fuel, value_ok x -> v = Some x -> read_key (key_of (lit k)) fuel f (x :: s) = Ok (set x f) s) ->
  reads (format_entry k (opt_value v)) (fun f => match v with Some x => set x f | None => f end).
Proof.
  intros Hk Hv H. destruct v as [[|c v]|]; [by destruct Hv|..|by apply reads_nil]. destruct Hv as [Ht _].
  apply sync_reads_value; [done|]. intros. by apply H.
Qed.
Lemma reads_one k v g : item (lit k) -> item v ->
  (forall f (s : list cstr) fuel, read_key (key_of (lit k)) fuel f (v :: s) = Ok (g f) s) -> reads (format_entry k [v]) g.
Proof. intros Hk [_ Hv] H. destruct v as [|c v]; [done|]. by apply sync_reads_value. Qed.
Lemma reads_many k vs g : item (lit k) -> Forall item vs -> (vs = [] -> forall f, g f = f) ->
  (forall f (s : list cstr) fuel, (length vs < fuel)%nat -> read_key (key_of (lit k)) fuel f (vs ++ [] :: s) = Ok (g f) s) ->
  reads (format_entry k vs) g.
Proof.
  intros Hk Hv H0 H. destruct vs as [|v vs]; [by apply reads_nil, H0|]. pose proof (Forall_inv Hv) as [_ Hne].
  destruct v as [|c v]; [done|]. by apply (reads_items k ((c :: v) :: vs)).
Qed.

Lemma sync_reads_deps k ds (set : list depend -> LocalDb.info -> LocalDb.info) get : item (lit k) -> Forall dep_ok ds ->
  (forall i, set (get i) i = i) ->
  (forall f (s : list cstr) fuel, read_key (key_of (lit k)) fuel f s = split_deps fuel f s get set) ->
  reads (format_deps k ds) (on_info (fun i => set (get i ++ ds) i)).
Proof.
  intros Hk Hd Hg H. assert (Forall item (Deps.dep_compute_string <$> ds)) as Hi.
  { apply Forall_fmap. eapply Forall_impl; [exact Hd|]. by intros d [_ ?]. }
  assert (Deps.dep_from_string <$> (Deps.dep_compute_string <$> ds) = ds) as Eds.
  { rewrite <- list_fmap_compose. rewrite <- (list_fmap_id ds) at 2. apply list_fmap_ext. intros j d Hj.
    apply Deps.dep_read_back. rewrite Forall_forall in Hd. by eapply Hd, list_elem_of_lookup_2. }
  apply reads_many; [done|done| |].
  - intros E f. apply fmap_nil_inv in E. subst ds. unfold on_info. rewrite app_nil_r, Hg. by destruct f.
  - intros f s fuel Hf. rewrite H. unfold split_deps, read_list. rewrite get_lines_items; [|done|done|done]. by rewrite Eds.
Qed.

Ltac compute_key := match goal with |- context [key_of ?l] => let k := eval vm_compute in (key_of l) in change (key_of l) with k end; cbn [read_key].
Ltac opt_field set Hp :=
  eapply sync_reads_app; [apply (sync_reads_opt _ _ set); [by_decide|apply (p_strings _ Hp); rewrite !elem_of_cons; tauto|
    intros f0 x s0 fuel0 Hx0 _; compute_key; unfold read_next; by rewrite get_line_text by done]|].
Ltac one_field g :=
  eapply sync_reads_app; [apply (reads_one _ _ g); [by_decide| |intros f0 s0 fuel0; compute_key; unfold read_next; rewrite get_line_text; [by rewrite ?Util.strtoofft_print, ?Util.parsedate_print by done|]]|].
Ltac many_field g :=
  eapply sync_reads_app; [apply (reads_many _ _ g); [by_decide|done| |intros f0 s0 fuel0 Hf0; compute_key; unfold read_list; by rewrite get_lines_items by done]|].
Ltac dep_field set get := apply (sync_reads_deps _ _ set get); [by_decide|done|by intros []|done].

Lemma print_item z : - 2 ^ 64 < z < 2 ^ 64 -> item (Util.print_d z).
Proof.
  intros Hz. destruct (LocalDb.print_d_text z Hz) as (H1 & H2 & H3). split; [by split|]. unfold Util.print_d. destruct (Z.ltb_spec z 0); [done|].
  apply Util.print_u_spec. lia.
Qed.

Lemma repo_desc_reads n v f : item n -> item v -> publishable f ->
  exists g, reads (repo_desc n v f) g /\ g no_fields = Fields (s_filename f) (s_size f) (s_sha256sum f) (s_base64_sig f) (s_info f) [].
Proof.
  intros Hn Hv Hp. destruct (p_filename f Hp) as (fn & Efn & Hfn & Hval).
  pose proof (p_deps f Hp) as Hd. rewrite !Forall_app in Hd. destruct Hd as (D1 & D2 & D3 & D4 & D5 & D6 & D7).
  pose proof (p_lists f Hp) as Hl. rewrite Forall_app in Hl. destruct Hl as [L1 L2].
  pose proof (p_size f Hp) as Hs. pose proof (p_isize f Hp) as His. pose proof (p_builddate f Hp) as Hb. unfold LocalDb.int64 in Hb.
  assert (item (Util.print_d (s_size f))) as Ps by (apply print_item; unfold Util.LLONG_MAX in *; lia).
  assert (item (Util.print_d (LocalDb.i_isize (s_info f)))) as Pi by (apply print_item; unfold Util.LLONG_MAX in *; lia).
  assert (item (Util.print_d (LocalDb.i_builddate (s_info f)))) as Pb by (apply print_item; unfold Util.LLONG_MAX, Util.LLONG_MIN in *; lia).
  eexists. split.
  - unfold repo_desc. rewrite Efn.
    eapply sync_reads_app; [apply (reads_one _ _ (set_filename fn)); [by_decide|done|intros f0 s0 fuel0; compute_key; unfold read_next; rewrite get_line_text by apply Hfn; cbn; by rewrite Hval]|].
    one_field (fun x : fields => x); [done|apply Hn|].
    opt_field (fun x => on_info (LocalDb.set_base (Some x))) Hp. one_field (fun x : fields => x); [done|apply Hv|].
    opt_field (fun x => on_info (LocalDb.set_desc (Some x))) Hp.
    many_field (on_info (fun i => LocalDb.set_groups (LocalDb.i_groups i ++ LocalDb.i_groups (s_info f)) i));
      [intros -> f0; unfold on_info; rewrite app_nil_r; by destruct f0 as [? ? ? ? [] ?]|].
    one_field (set_size (s_size f)); [done|apply Ps|]. one_field (on_info (LocalDb.set_isize (LocalDb.i_isize (s_info f)))); [done|apply Pi|].
    opt_field set_sha256sum Hp. opt_field set_base64_sig Hp.
    opt_field (fun x => on_info (LocalDb.set_url (Some x))) Hp.
    many_field (on_info (fun i => LocalDb.set_licenses (LocalDb.i_licenses i ++ LocalDb.i_licenses (s_info f)) i));
      [intros -> f0; unfold on_info; rewrite app_nil_r; by destruct f0 as [? ? ? ? [] ?]|].
    opt_field (fun x => on_info (LocalDb.set_arch (Some x))) Hp.
    one_field (on_info (LocalDb.set_builddate (LocalDb.i_builddate (s_info f)))); [done|apply Pb|].
    opt_field (fun x => on_info (LocalDb.set_packager (Some x))) Hp.
    eapply sync_reads_app; [dep_field LocalDb.set_replaces LocalDb.i_replaces|]. eapply sync_reads_app; [dep_field LocalDb.set_conflicts LocalDb.i_conflicts|].
    eapply sync_reads_app; [dep_field LocalDb.set_provides LocalDb.i_provides|]. eapply sync_reads_app; [dep_field LocalDb.set_depends LocalDb.i_depends|].
    eapply sync_reads_app; [dep_field LocalDb.set_optdepends LocalDb.i_optdepends|]. eapply sync_reads_app; [dep_field LocalDb.set_makedepends LocalDb.i_makedepends|].
    dep_field LocalDb.set_checkdepends LocalDb.i_checkdepends.
  - pose proof (p_rest f Hp) as (R1 & R2 & R3 & R4). destruct f as [fn' sz sha sig [] fs]. cbn in *. subst. repeat case_match; done.
Qed.

(** *** Entries *)

(** The lines of an entry in blocks, the first of which is not shorter than any
    line. *)
Definition first_size (blocks : list (Z * cstr)) : nat := match blocks with [] => O | x :: _ => length x.2 end.
Definition in_blocks (ls : list cstr) (blocks : list (Z * cstr)) : Prop :=
  PkgFile.cut_of (ls ≫= LocalDb.line_of) blocks /\ PkgFile.lines_ok 524288 ls /\ Forall (fun l => (length l <= first_size blocks)%nat) ls.

Lemma start_settled max blocks : no_long (first_size blocks) (concat (snd <$> blocks)) -> settled (first_size blocks) (start max blocks).
Proof. intros H. split; [done|]. right. split_and!; [done|done|]. by destruct blocks. Qed.
Lemma in_blocks_steady ls blocks : in_blocks ls blocks ->
  steady (Some (Z.of_nat (first_size blocks) + 1)) (start 524288 blocks) (ls ++ [[]]).
Proof.
  intros (Hc & Hl & Hs). apply delivers_steady; [by apply PkgFile.cut_delivers|]. apply start_settled. destruct Hc as [_ ->].
  apply segments_no_long. rewrite PkgFile.split_lines by (eapply Forall_impl; [exact Hl|]; by intros l [[? _] _]).
  apply Forall_app. split; [done|]. apply Forall_singleton. simpl. lia.
Qed.
Lemma entry_reads ls blocks g f : in_blocks ls blocks -> reads (ls ++ [[]]) g ->
  read_desc (entry_fuel blocks) f (start 524288 blocks) = Parsed (g f) true.
Proof.
  intros Hb Hr. rewrite (read_desc_sim _ _ _ _ _ (in_blocks_steady ls blocks Hb)).
  destruct (Hr [] f (entry_fuel blocks)) as (fuel & Hf & E).
  - rewrite app_nil_r, length_app. destruct Hb as ([_ Ec] & _). unfold entry_fuel. rewrite Ec. pose proof (PkgFile.lines_le_bytes ls). simpl. lia.
  - rewrite app_nil_r in E. rewrite E. destruct fuel as [|fuel]; [simpl in Hf; lia|]. done.
Qed.
Lemma reads_blank : reads [[]] (fun f => f).
Proof.
  intros rest f fuel Hf. destruct fuel as [|fuel]; [simpl in Hf; lia|]. exists fuel. split; [simpl in Hf; lia|]. apply read_desc_blank.
Qed.
Lemma repo_files_reads f : publishable f -> reads (repo_files f ++ [[]]) (set_files (s_files f)).
Proof.
  intros Hp. destruct (p_files f Hp) as [Hf Hs]. unfold repo_files. cbn [app]. apply reads_items; [by_decide|].
  intros f0 s0 fuel Hl. compute_key. rewrite get_lines_items; [|apply Forall_fmap; eapply Forall_impl; [exact Hf|]; by intros x [? _]|done|done].
  do 2 f_equal. rewrite <- list_fmap_compose. assert ((fun l => File l 0 0) ∘ f_name <$> s_files f = s_files f) as ->.
  { rewrite <- (list_fmap_id (s_files f)) at 2. apply list_fmap_ext. intros j x Hx. rewrite Forall_forall in Hf.
    destruct (Hf x) as (_ & E1 & E2); [by eapply list_elem_of_lookup_2|]. destruct x. simpl in *. by subst. }
  unfold FileList.sort. by rewrite Hs.
Qed.

(** ** The cache under construction *)

Section Cache.
Context (fnmatch : cstr -> cstr -> Z) (treename : cstr).

Record st_ok (st : state) : Prop := {
  so_wf : PkgHash.wf (s_cache st);
  so_fresh : Forall (fun n => (n.1 < s_next st)%positive /\ (pkg_id n.2 < s_next st)%positive) (PkgHash.hlist (s_cache st));
  so_names : NoDup (PkgHash.names_of (s_cache st));
  so_ids : NoDup (pkg_id <$> PkgHash.pkgs_of (s_cache st));
  so_likely : forall p, s_likely st = Some p -> p ∈ PkgHash.pkgs_of (s_cache st)
}.

Lemma so_fresh_node st a : st_ok st -> a ∈ (PkgHash.hlist (s_cache st)).*1 -> (a < s_next st)%positive.
Proof.
  intros Ho. rewrite list_elem_of_fmap. intros (n & -> & Hn). pose proof (so_fresh _ Ho) as Hf. rewrite Forall_forall in Hf. by apply Hf.
Qed.
Lemma so_fresh_pkg st p : st_ok st -> p ∈ PkgHash.pkgs_of (s_cache st) -> (pkg_id p < s_next st)%positive.
Proof.
  intros Ho. unfold PkgHash.pkgs_of. rewrite list_elem_of_fmap. intros (n & -> & Hn). pose proof (so_fresh _ Ho) as Hf. rewrite Forall_forall in Hf.
  by apply Hf.
Qed.

(** A package that is new in the cache. *)
Definition fresh_pkg (st : state) (n v : cstr) : pkg := sync_pkg treename (s_next st) n v (hash_sdbm n) no_fields.
Definition added_to (st : state) (n v : cstr) (c : PkgHash.pkghash) : state :=
  State c (<[s_next st := no_fields]> (s_store st)) (Pos.succ (Pos.succ (s_next st))) (s_likely st).
Lemma added_ok st n v c : st_ok st -> n ∉ PkgHash.names_of (s_cache st) -> PkgHash.wf c ->
  PkgHash.hlist c = PkgHash.hlist (s_cache st) ++ [(Pos.succ (s_next st), fresh_pkg st n v)] -> st_ok (added_to st n v c).
Proof.
  intros Ho Hn Hw Ec. pose proof Ho as [_ Hf Hnm Hid Hl].
  assert (PkgHash.pkgs_of c = PkgHash.pkgs_of (s_cache st) ++ [fresh_pkg st n v]) as Ep by (unfold PkgHash.pkgs_of; by rewrite Ec, fmap_app).
  split; cbn [s_cache added_to s_next s_likely]; [done|..].
  - rewrite Ec. apply Forall_app. split; [|apply Forall_singleton; simpl; lia]. eapply Forall_impl; [exact Hf|]. intros x Hx. cbn beta in *. lia.
  - unfold PkgHash.names_of in *. rewrite Ep, fmap_app. apply NoDup_app. split_and!; [done| |repeat constructor; by intros ?%elem_of_nil].
    intros x Hx ->%list_elem_of_singleton. by apply Hn.
  - rewrite Ep, fmap_app. apply NoDup_app. split_and!; [done| |repeat constructor; by intros ?%elem_of_nil].
    intros x Hx ->%list_elem_of_singleton. apply list_elem_of_fmap in Hx as (p & E & Hp). pose proof (so_fresh_pkg st p Ho Hp). simpl in *. lia.
  - intros p E. rewrite Ep. apply elem_of_app. left. by apply Hl.
Qed.

(** [load_pkg_for_entry] for a name that is in the cache, and for a new one. *)
Lemma load_known st e n v h p : st_ok st -> Util.splitname e = Some (Some (n, v, h)) ->
  p ∈ PkgHash.pkgs_of (s_cache st) -> name p = n -> load_pkg_for_entry fnmatch treename st e = Some (Some p, st).
Proof.
  intros Ho Es Hp Hn. unfold load_pkg_for_entry. rewrite Es. cbn [mbind option_bind].
  assert (PkgHash.pkghash_find (s_cache st) n = Some (Some p)) as Ef by (rewrite <- Hn; apply PkgHash.find_present; [apply Ho|apply Ho|done]).
  rewrite Ef. destruct (s_likely st) as [q|] eqn:El; [|done]. destruct (_ && _) eqn:Eq; [|done]. cbn [mbind option_bind].
  apply andb_true_iff in Eq as [_ Eq%Z.eqb_eq%strcmp_eq]. pose proof (so_likely _ Ho q El) as Hq.
  pose proof (PkgHash.find_present (s_cache st) q (so_wf _ Ho) (so_names _ Ho) Hq) as Ef'. rewrite Eq, Ef in Ef'. by injection Ef' as ->.
Qed.
Lemma likely_absent st n : st_ok st -> n ∉ PkgHash.names_of (s_cache st) -> forall h,
  match s_likely st with
  | Some p => if (h =? name_hash p) && (strcmp (name p) n =? 0) then Some (Some p) else PkgHash.pkghash_find (s_cache st) n
  | None => PkgHash.pkghash_find (s_cache st) n
  end = Some None.
Proof.
  intros Ho Hn h. rewrite (PkgHash.find_absent (s_cache st) n (so_wf _ Ho) Hn). destruct (s_likely st) as [q|] eqn:El; [|done].
  destruct (_ && _) eqn:Eq; [|done]. apply andb_true_iff in Eq as [_ Eq%Z.eqb_eq%strcmp_eq]. destruct Hn. rewrite <- Eq.
  apply list_elem_of_fmap_2. by apply (so_likely _ Ho).
Qed.
Lemma load_new st e n v : st_ok st -> Util.splitname e = Some (Some (n, v, hash_sdbm n)) -> n ∉ PkgHash.names_of (s_cache st) ->
  exists r st', load_pkg_for_entry fnmatch treename st e = Some (r, st') /\ st_ok st' /\
  ((exists c, Package.pkg_check_meta fnmatch (Some n) (Some v) = [] /\ r = Some (fresh_pkg st n v) /\ st' = added_to st n v c /\
     PkgHash.hlist c = PkgHash.hlist (s_cache st) ++ [(Pos.succ (s_next st), fresh_pkg st n v)]) \/
   r = None /\ PkgHash.hlist (s_cache st') = PkgHash.hlist (s_cache st) /\
     (Package.pkg_check_meta fnmatch (Some n) (Some v) <> [] \/ 300000 < PkgHash.entries (s_cache st))).
Proof.
  intros Ho Es Hn. unfold load_pkg_for_entry. rewrite Es. cbn [mbind option_bind]. rewrite (likely_absent st n Ho Hn). cbn [mbind option_bind].
  assert (forall c, PkgHash.wf c -> PkgHash.hlist c = PkgHash.hlist (s_cache st) -> st_ok (State c (s_store st) (Pos.succ (Pos.succ (s_next st))) (s_likely st))) as Hsame.
  { intros c Hw Ec. pose proof Ho as [_ Hf Hnm Hid Hl]. unfold PkgHash.names_of, PkgHash.pkgs_of in *. split; cbn [s_cache s_next s_likely]; unfold PkgHash.names_of, PkgHash.pkgs_of;
      rewrite ?Ec; [done| |done|done|done]. eapply Forall_impl; [exact Hf|]. intros x Hx. cbn beta in *. lia. }
  destruct (Package.pkg_check_meta fnmatch (Some n) (Some v)) as [|x xs] eqn:Em.
  2:{ do 2 eexists. split; [reflexivity|]. split; [apply Hsame; [apply Ho|done]|]. right. split_and!; [done|done|by left]. }
  destruct (PkgHash.add_nodes (s_cache st) (fresh_pkg st n v) (Pos.succ (s_next st)) (so_wf _ Ho)) as (r & E & Hr); [done| |].
  { intros Hin%(so_fresh_node st); [lia|done]. }
  unfold fresh_pkg in E. rewrite E. cbn [mbind option_bind]. destruct r as [c|c].
  - destruct Hr as (Hw & Ec & Hbig). do 2 eexists. split; [reflexivity|]. split; [by apply Hsame|]. right. split_and!; [done|done|by right].
  - destruct Hr as (Hw & Ec). do 2 eexists. split; [reflexivity|]. split; [by eapply (added_ok st n v c)|]. left. exists c. done.
Qed.

(** *** Reading one entry *)

(** What [sync_db_read] needs of an entry: a name that can be split, and a line
    buffer that does not move. *)
Definition entry_ok (e : PkgFile.entry) : Prop :=
  match PkgFile.e_path e with Some path => Util.splitname path <> None | None => True end /\
  no_long (first_size (PkgFile.e_data e)) (concat (snd <$> PkgFile.e_data e)).

Lemma load_ok st e : st_ok st -> Util.splitname e <> None ->
  exists r st', load_pkg_for_entry fnmatch treename st e = Some (r, st') /\ st_ok st' /\
    match r with Some p => p ∈ PkgHash.pkgs_of (s_cache st') | None => True end.
Proof.
  intros Ho Hs. destruct (Util.splitname e) as [[[[n v] h]|]|] eqn:Es; [| |done].
  - destruct (PkgHash.find_correct (s_cache st) n (so_wf _ Ho)) as ([p|] & _ & Hp).
    + destruct Hp as [Hp Hn]. exists (Some p), st. split; [by eapply load_known|done].
    + pose proof (Populate.splitname_hash _ _ _ _ Es) as ->. destruct (load_new st e n v Ho Es Hp) as (r & st' & -> & Ho' & Hr).
      exists r, st'. split_and!; [done|done|]. destruct Hr as [(c & _ & -> & -> & Ec)|(-> & _)]; [|done].
      cbn [s_cache added_to]. unfold PkgHash.pkgs_of. rewrite Ec, fmap_app. apply elem_of_app. right. by apply list_elem_of_singleton.
  - exists None, st. unfold load_pkg_for_entry. by rewrite Es.
Qed.

Lemma read_entry_ok st e : st_ok st -> entry_ok e -> exists ok st', sync_db_read fnmatch treename st e = Read ok st' /\ st_ok st'.
Proof.
  intros Ho [Hp Hd]. unfold sync_db_read. destruct (PkgFile.e_path e) as [path|]; [|eauto].
  destruct (load_ok st path Ho Hp) as (r & st' & -> & Ho' & Hr). destruct r as [p|]; [|eauto].
  destruct (Util.strrchr path "/"%char) as [[? fname]|]; [|eauto]. destruct (_ || _); [|eauto].
  destruct (read_desc_fine (first_size (PkgFile.e_data e)) (entry_fuel (PkgFile.e_data e)) (default no_fields (s_store st' !! pkg_id p))
    (start 524288 (PkgFile.e_data e))) as (f' & ok & ->).
  - split; [done|by apply start_settled].
  - unfold measure, entry_fuel. cbn. lia.
  - do 2 eexists. split; [reflexivity|]. destruct Ho' as [H1 H2 H3 H4 H5]. split; cbn [s_cache s_next s_likely]; try done.
    intros q. destruct ok; [by intros [= <-]|apply H5].
Qed.
Lemma populate_loop_ok es : forall ok st, Forall entry_ok es -> st_ok st ->
  exists ok' st', populate_loop fnmatch treename es ok st = Read ok' st' /\ st_ok st'.
Proof.
  induction es as [|e es IH]; intros ok st He Ho; cbn [populate_loop]; [eauto|]. apply Forall_cons in He as [He Hes].
  destruct (DiskSpace.S_ISDIR (PkgFile.e_mode e)); [by apply IH|]. destruct (read_entry_ok st e Ho He) as (ok1 & st1 & -> & Ho1). by apply IH.
Qed.

(** An entry that cannot be read: it has no name or one that is not that of a
    package, or it is a description whose text is refused whatever was read before. *)
Definition is_description (fname : cstr) : bool :=
  (strcmp fname (lit "desc") =? 0) || (strcmp fname (lit "depends") =? 0) || (strcmp fname (lit "files") =? 0).
Definition refused (blocks : list (Z * cstr)) : Prop :=
  forall f, exists f', read_desc (entry_fuel blocks) f (start 524288 blocks) = Parsed f' false.
Definition unreadable (e : PkgFile.entry) : Prop :=
  DiskSpace.S_ISDIR (PkgFile.e_mode e) = false /\
  match PkgFile.e_path e with
  | None => True
  | Some path => Util.splitname path = Some None \/
      exists dir fname, Util.strrchr path "/"%char = Some (dir, fname) /\ is_description fname = true /\ refused (PkgFile.e_data e)
  end.

Lemma read_unreadable st e : st_ok st -> entry_ok e -> unreadable e -> exists st', sync_db_read fnmatch treename st e = Read false st'.
Proof.
  intros Ho [Hp _] [_ Hu]. unfold sync_db_read. destruct (PkgFile.e_path e) as [path|]; [|eauto].
  destruct Hu as [Es|(dir & fname & Er & Ed & Hd)]; [unfold load_pkg_for_entry; rewrite Es; cbn; eauto|].
  destruct (load_ok st path Ho Hp) as (r & st' & -> & _ & _). destruct r as [p|]; [|eauto].
  rewrite Er. fold (is_description fname). rewrite Ed. destruct (Hd (default no_fields (s_store st' !! pkg_id p))) as [f' ->]. eauto.
Qed.
Lemma populate_loop_unreadable es : forall ok st, Forall entry_ok es -> st_ok st -> ok = false \/ Exists unreadable es ->
  exists st', populate_loop fnmatch treename es ok st = Read false st'.
Proof.
  induction es as [|e es IH]; intros ok st He Ho Hu; cbn [populate_loop].
  - destruct Hu as [->|Hu%Exists_nil]; [eauto|done].
  - apply Forall_cons in He as [He Hes]. rewrite Exists_cons in Hu. destruct (DiskSpace.S_ISDIR (PkgFile.e_mode e)) eqn:Ed.
    { apply IH; [done..|]. destruct Hu as [?|[[Hd _]|?]]; [by left|congruence|by right]. }
    destruct (read_entry_ok st e Ho He) as (ok1 & st1 & E & Ho1). rewrite E. apply IH; [done..|].
    destruct Hu as [->|[Hu|?]]; [by left| |by right]. destruct (read_unreadable st e Ho He Hu) as [st2 E2]. rewrite E in E2. injection E2 as -> _.
    left. apply andb_false_r.
Qed.

(** *** A published package *)

Record pub := Pub { b_name : cstr; b_version : cstr; b_fields : fields; b_desc : list (Z * cstr); b_files : option (list (Z * cstr)) }.
Definition pub_dir (b : pub) : cstr := b_name b ++ "-"%char :: b_version b.
Definition S_IFDIR : Z := 16384.
Definition S_IFREG : Z := 32768.
(** Its members of the archive: the directory, the description and, in a files
    database, the files. *)
Definition members (b : pub) : list PkgFile.entry :=
  PkgFile.Entry (Some (pub_dir b ++ lit "/")) true 0 S_IFDIR [] false ::
  PkgFile.Entry (Some (pub_dir b ++ lit "/desc")) false 0 S_IFREG (b_desc b) false ::
  match b_files b with Some blocks => [PkgFile.Entry (Some (pub_dir b ++ lit "/files")) false 0 S_IFREG blocks false] | None => [] end.
Record pub_ok (b : pub) : Prop := {
  bo_name : item (b_name b) /\ "/"%char ∉ b_name b;
  bo_version : exists v r, b_version b = v ++ "-"%char :: r /\ "-"%char ∉ v /\ "-"%char ∉ r /\ "/"%char ∉ v ++ r /\ value_ok (b_version b);
  bo_meta : Package.pkg_check_meta fnmatch (Some (b_name b)) (Some (b_version b)) = [];
  bo_fields : publishable (b_fields b);
  bo_desc : in_blocks (repo_desc (b_name b) (b_version b) (b_fields b)) (b_desc b);
  bo_files : match b_files b with Some blocks => in_blocks (repo_files (b_fields b)) blocks | None => s_files (b_fields b) = [] end
}.

Lemma pub_split b file : pub_ok b -> "/"%char ∉ lit file ->
  Util.splitname (pub_dir b ++ "/"%char :: lit file) = Some (Some (b_name b, b_version b, hash_sdbm (b_name b))) /\
  Util.strrchr (pub_dir b ++ "/"%char :: lit file) "/"%char = Some (pub_dir b, lit file).
Proof.
  intros Hb Hf. destruct (bo_name b Hb) as [[_ Hne] Hns]. destruct (bo_version b Hb) as (v & r & Ev & Hv & Hr & Hs & _). split.
  - pose proof (Util.splitname_roundtrip (b_name b) v r ("/"%char :: lit file) Hne) as H. unfold pub_dir. rewrite Ev.
    rewrite <- !app_assoc. cbn [app]. rewrite <- app_assoc. cbn [app]. apply H; [set_solver|done|done|done].
  - by apply Util.strrchr_Some.
Qed.

(** The packages of the cache and their fields. *)
Definition shell (p : pkg) (b : pub) : Prop :=
  p = sync_pkg treename (pkg_id p) (b_name b) (b_version b) (hash_sdbm (b_name b)) no_fields.
Record holds (st : state) (ps : list pub) : Prop := {
  h_ok : st_ok st;
  h_pkgs : Forall2 (fun p b => shell p b /\ s_store st !! pkg_id p = Some (b_fields b)) (PkgHash.pkgs_of (s_cache st)) ps
}.
Lemma shell_names (R : pkg -> pub -> Prop) l ps : (forall p b, R p b -> shell p b) -> Forall2 R l ps -> name <$> l = b_name <$> ps.
Proof. intros H. induction 1 as [|p b l ps Hp _ IH]; [done|]. cbn [fmap list_fmap]. rewrite IH. f_equal. by rewrite (H _ _ Hp). Qed.
Lemma holds_names st ps : holds st ps -> PkgHash.names_of (s_cache st) = b_name <$> ps.
Proof. intros [_ H]. unfold PkgHash.names_of. eapply shell_names; [|exact H]. by intros p b [? _]. Qed.

(** A desc or files entry read into a package of the cache. *)
Definition filled (st : state) (p : pkg) (f : fields) : state :=
  State (s_cache st) (<[pkg_id p := f]> (s_store st)) (s_next st) (Some p).
Lemma filled_ok st p f : st_ok st -> p ∈ PkgHash.pkgs_of (s_cache st) -> st_ok (filled st p f).
Proof. intros [H1 H2 H3 H4 H5] Hp. split; cbn [s_cache s_next s_likely filled]; try done. by intros q [= <-]. Qed.
Lemma read_file st st' b file blocks p f g ls :
  pub_ok b -> lit file ∈ [lit "desc"; lit "files"] -> in_blocks ls blocks -> reads (ls ++ [[]]) g ->
  load_pkg_for_entry fnmatch treename st (pub_dir b ++ "/"%char :: lit file) = Some (Some p, st') -> s_store st' !! pkg_id p = Some f ->
  sync_db_read fnmatch treename st (PkgFile.Entry (Some (pub_dir b ++ "/"%char :: lit file)) false 0 S_IFREG blocks false) =
  Read true (filled st' p (g f)).
Proof.
  intros Hb Hfile Hbl Hr El Ef. unfold sync_db_read. cbn [PkgFile.e_path PkgFile.e_data].
  assert ("/"%char ∉ lit file) as Hns by (rewrite !elem_of_cons, elem_of_nil in Hfile; destruct Hfile as [->|[->|[]]]; by_decide).
  rewrite El. destruct (pub_split b file Hb Hns) as [_ ->].
  assert ((strcmp (lit file) (lit "desc") =? 0) || (strcmp (lit file) (lit "depends") =? 0) || (strcmp (lit file) (lit "files") =? 0) = true) as ->
    by (rewrite !elem_of_cons, elem_of_nil in Hfile; destruct Hfile as [->|[->|[]]]; done).
  rewrite Ef. cbn [default]. by rewrite (entry_reads ls blocks g).
Qed.

Definition without_files (f : fields) : fields := Fields (s_filename f) (s_size f) (s_sha256sum f) (s_base64_sig f) (s_info f) [].
(** The package at its place in the cache, with its fields so far. *)
Lemma filled_holds st ps b p f : holds st ps -> shell p b -> pkg_id p = s_next st -> forall c,
  st_ok (added_to st (b_name b) (b_version b) c) -> PkgHash.pkgs_of c = PkgHash.pkgs_of (s_cache st) ++ [p] ->
  b_fields b = f -> holds (filled (added_to st (b_name b) (b_version b) c) p f) (ps ++ [b]).
Proof.
  intros [Ho H] Hsh Hid c Hok Ec <-. split.
  - apply filled_ok; [done|]. cbn [s_cache added_to]. rewrite Ec. apply elem_of_app. right. by apply list_elem_of_singleton.
  - cbn [s_cache filled added_to s_store]. rewrite Ec. apply Forall2_app.
    + apply Forall2_lookup. intros j. rewrite Forall2_lookup in H. specialize (H j).
      destruct (PkgHash.pkgs_of (s_cache st) !! j) as [q|] eqn:Eq; inversion H as [? b' [Hqs Hqf] E1 E2|]; [|constructor].
      constructor. split; [done|]. pose proof (so_fresh_pkg st q Ho (list_elem_of_lookup_2 _ _ _ Eq)). rewrite !lookup_insert_ne by lia. done.
    + constructor; [|constructor]. split; [done|]. by rewrite lookup_insert_eq.
Qed.

Lemma publish_step st ps b es ok : holds st ps -> b_name b ∉ b_name <$> ps -> pub_ok b -> Z.of_nat (length ps) <= 300000 ->
  exists st', populate_loop fnmatch treename (members b ++ es) ok st = populate_loop fnmatch treename es ok st' /\ holds st' (ps ++ [b]).
Proof.
  intros Hh Hn Hb Hlen. pose proof Hh as [Ho Hps]. rewrite <- (holds_names st ps Hh) in Hn.
  destruct (pub_split b "desc" Hb) as [Es _]; [by_decide|].
  destruct (load_new st _ _ _ Ho Es Hn) as (r & st1 & El & Hok1 & [(c & _ & -> & -> & Ec)|(_ & _ & [Hm|Hbig])]).
  2:{ by rewrite (bo_meta b Hb) in Hm. }
  2:{ rewrite (PkgHash.wf_entries _ (so_wf _ Ho)) in Hbig. apply Forall2_length in Hps. unfold PkgHash.pkgs_of in Hps. rewrite length_fmap in Hps. lia. }
  set (p := fresh_pkg st (b_name b) (b_version b)) in *. set (st1 := added_to st (b_name b) (b_version b) c) in *.
  assert (PkgHash.pkgs_of c = PkgHash.pkgs_of (s_cache st) ++ [p]) as Ep by (unfold PkgHash.pkgs_of; by rewrite Ec, fmap_app).
  assert (p ∈ PkgHash.pkgs_of (s_cache st1)) as Hp by (cbn; rewrite Ep; apply elem_of_app; right; by apply list_elem_of_singleton).
  destruct (bo_version b Hb) as (v & r & Ev & _ & _ & _ & Hvt).
  destruct (repo_desc_reads (b_name b) (b_version b) (b_fields b)) as (g & Hg & Eg); [apply Hb|split; [done|by rewrite Ev; destruct v]|apply Hb|].
  change (g no_fields = without_files (b_fields b)) in Eg.
  assert (forall es, populate_loop fnmatch treename (PkgFile.Entry (Some (pub_dir b ++ lit "/")) true 0 S_IFDIR [] false ::
      PkgFile.Entry (Some (pub_dir b ++ lit "/desc")) false 0 S_IFREG (b_desc b) false :: es) ok st =
    populate_loop fnmatch treename es ok (filled st1 p (without_files (b_fields b)))) as Hdesc.
  { intros es'. cbn [populate_loop PkgFile.e_mode]. change (DiskSpace.S_ISDIR S_IFDIR) with true. change (DiskSpace.S_ISDIR S_IFREG) with false. cbv iota.
    change (lit "/desc") with ("/"%char :: lit "desc"). rewrite (read_file st st1 b "desc" (b_desc b) p no_fields _ _ Hb ltac:(by_decide) (bo_desc b Hb) (sync_reads_app _ _ _ _ Hg reads_blank) El);
      [|cbn; by rewrite lookup_insert_eq]. by rewrite Eg, andb_true_r. }
  unfold members. pose proof (bo_files b Hb) as Hbf. destruct (b_files b) as [blocks|]; cbn [app]; rewrite Hdesc.
  - assert (st_ok (filled st1 p (without_files (b_fields b)))) as Hok2 by (by apply filled_ok).
    destruct (pub_split b "files" Hb) as [Es2 _]; [by_decide|].
    pose proof (load_known _ _ _ _ _ p Hok2 Es2 Hp eq_refl) as El2.
    cbn [populate_loop PkgFile.e_mode]. change (DiskSpace.S_ISDIR S_IFREG) with false. cbv iota. change (lit "/files") with ("/"%char :: lit "files").
    rewrite (read_file _ _ b "files" blocks p (without_files (b_fields b)) _ _ Hb ltac:(by_decide) Hbf (repo_files_reads _ (bo_fields b Hb)) El2);
      [|cbn; by rewrite lookup_insert_eq].
    eexists. split; [by rewrite andb_true_r|].
    assert (set_files (s_files (b_fields b)) (without_files (b_fields b)) = b_fields b) as -> by (by destruct (b_fields b)).
    assert (filled (filled st1 p (without_files (b_fields b))) p (b_fields b) = filled st1 p (b_fields b)) as -> by (unfold filled; cbn; by rewrite insert_insert_eq).
    by eapply filled_holds.
  - eexists. split; [reflexivity|]. eapply filled_holds; try done. unfold without_files. rewrite <- Hbf. by destruct (b_fields b).
Qed.

Lemma publish_all bs : forall st ps, holds st ps -> NoDup (b_name <$> (ps ++ bs)) -> Forall pub_ok bs -> Z.of_nat (length (ps ++ bs)) <= 300000 ->
  exists st', populate_loop fnmatch treename (bs ≫= members) true st = Read true st' /\ holds st' (ps ++ bs).
Proof.
  induction bs as [|b bs IH]; intros st ps Hh Hn Hb Hlen; [exists st; rewrite app_nil_r; done|]. rewrite bind_cons.
  apply Forall_cons in Hb as [Hb Hbs]. rewrite length_app in Hlen. cbn [length] in Hlen.
  destruct (publish_step st ps b (bs ≫= members) true Hh) as (st1 & -> & Hh1); [|done|lia|].
  { rewrite fmap_app, NoDup_app in Hn. destruct Hn as (_ & H & _). intros Hin. apply (H _ Hin). left. }
  replace (ps ++ b :: bs) with ((ps ++ [b]) ++ bs) in * by (by rewrite <- app_assoc).
  apply IH; [done|done|done|]. rewrite !length_app. simpl. lia.
Qed.

(** ** The whole database *)

Lemma map_wf g h : (forall p, name (g p) = name p /\ name_hash (g p) = name_hash p) -> PkgHash.wf h ->
  PkgHash.wf (map_pkgs g h) /\ PkgHash.pkgs_of (map_pkgs g h) = g <$> PkgHash.pkgs_of h.
Proof.
  intros Hg [W1 W2 [T1 T2] W4 W5 W6 W7 W8].
  assert (PkgHash.pkgs_of (map_pkgs g h) = g <$> PkgHash.pkgs_of h) as Ep by (unfold PkgHash.pkgs_of; cbn; by rewrite <- !list_fmap_compose).
  split; [|done]. split; cbn [PkgHash.buckets PkgHash.limit PkgHash.entries PkgHash.hash_table PkgHash.hlist map_pkgs]; try done.
  - split; intros p n; rewrite lookup_fmap; destruct (PkgHash.hash_table h !! p) as [m|] eqn:E; try done; intros [= <-]; [by eapply T1|].
    intros k Hk. unfold PkgHash.home, PkgHash.node_pkg in *. cbn in Hk |- *. rewrite (proj2 (Hg m.2)) in Hk |- *. rewrite lookup_fmap.
    destruct (T2 _ _ E k Hk) as [x Hx]. unfold PkgHash.home, PkgHash.node_pkg in Hx. rewrite Hx. by eexists.
  - unfold PkgHash.values in *. rewrite map_to_list_fmap, <- list_fmap_compose. rewrite <- W4, <- list_fmap_compose. apply reflexive_eq.
    apply list_fmap_ext. by intros ? [].
  - by rewrite length_fmap.
  - by rewrite <- list_fmap_compose.
  - rewrite Ep. apply Forall_fmap. eapply Forall_impl; [exact W8|]. intros p Hp. unfold pkg_hashed in *. cbn. by rewrite (proj1 (Hg p)), (proj2 (Hg p)).
Qed.
Lemma fill_names st p : name (fill treename st p) = name p /\ name_hash (fill treename st p) = name_hash p.
Proof. done. Qed.

Lemma start_ok h base : PkgHash.wf h -> PkgHash.hlist h = [] -> st_ok (State h ∅ base None).
Proof.
  intros Hw Hn. split; cbn [s_cache s_next s_likely]; unfold PkgHash.names_of, PkgHash.pkgs_of; rewrite ?Hn; [done|done|constructor|constructor|done].
Qed.
Lemma sort_ok st : st_ok st -> let st' := match PkgHash.hlist (s_cache st) with [] => st | _ => sort_cache st end in
  PkgHash.wf (s_cache st') /\ PkgHash.pkgs_of (s_cache st') ≡ₚ PkgHash.pkgs_of (s_cache st) /\
  StronglySorted (cmp_le Package.pkg_cmp) (PkgHash.pkgs_of (s_cache st')) /\ s_store st' = s_store st.
Proof.
  intros Ho st'. destruct (Populate.sort_list_wf _ (so_wf _ Ho)) as (H1 & H2 & H3). subst st'.
  destruct (PkgHash.hlist (s_cache st)) eqn:E; cbn [s_cache sort_cache s_store]; [|done].
  split_and!; [apply Ho|done| |done]. unfold PkgHash.pkgs_of. rewrite E. constructor.
Qed.
Lemma estimate_pos a : 0 <= a_size a -> 0 <= estimate_package_count (a_size a) (a_filter a).
Proof.
  intros H. unfold estimate_package_count. assert (0 < per_package (a_filter a)) by (unfold per_package; repeat case_match; done).
  pose proof (Z.div_pos (a_size a) (per_package (a_filter a))). lia.
Qed.

Lemma populate_safe path files_db a base status
    (Ha : match a with Some a => Forall entry_ok (a_entries a) /\ 0 <= a_size a | None => True end) :
  match sync_db_populate fnmatch treename path files_db a base status with
  | Populated s st => s = status /\ PkgHash.wf (materialize treename st) /\ NoDup (PkgHash.names_of (materialize treename st)) /\
      StronglySorted (cmp_le Package.pkg_cmp) (PkgHash.pkgs_of (s_cache st)) /\
      exists a', a = Some a' /\ a_ret a' = ARCHIVE_EOF /\ ~ Exists unreadable (a_entries a')
  | NotPopulated s e =>
      (e = ERR_DB_INVALID -> Db.has s Db.DB_STATUS_INVALID = true) /\
      forall a', a = Some a' -> Exists unreadable (a_entries a') ->
        e = ERR_DB_INVALID \/ Db.has status Db.DB_STATUS_MISSING = true \/ path = false \/ e = ERR_MEMORY
  | Crash => False
  end.
Proof.
  unfold sync_db_populate. destruct (Db.has status Db.DB_STATUS_INVALID) eqn:Ei; [split; [done|auto]|].
  destruct (Db.has status Db.DB_STATUS_MISSING); [split; [done|auto]|]. destruct path; [|split; [done|auto]]. cbn [negb]. destruct a as [a|]; [|done]. destruct Ha as [He Hs]. set (est := if files_db then _ else _).
  assert (0 <= est) as Hest by (pose proof (estimate_pos a Hs); subst est; destruct files_db; [apply Z.div_pos|]; lia).
  pose proof (PkgHash.create_spec est Hest) as Hc. destruct (PkgHash.pkghash_create est) as [h|]; [|split; [done|auto]]. destruct Hc as (Hw & Hn & _).
  pose proof (start_ok h base Hw Hn) as Hst.
  pose proof (populate_loop_unreadable (a_entries a) true (State h ∅ base None) He Hst) as Hun.
  destruct (populate_loop_ok (a_entries a) true (State h ∅ base None) He Hst) as (ok & st & E & Ho). rewrite E in *.
  destruct ok; cbn [negb]; [|split; [|auto]; intros _; unfold Populate.invalid_now; change Db.DB_STATUS_INVALID with (2 ^ 1); change Db.DB_STATUS_PKGCACHE with (2 ^ 11);
    change Db.DB_STATUS_VALID with (2 ^ 0); by rewrite Db.has_clear, Db.has_set by done].
  assert (~ Exists unreadable (a_entries a)) as Hnu by (intros Hex; destruct Hun as [st' [=]]; by right).
  destruct (Z.eqb_spec (a_ret a) ARCHIVE_EOF) as [Er|]; cbn [negb]; [|split; [done|by intros ? [= <-]]].
  destruct (sort_ok st Ho) as (Hw' & Hp & Hsort & _). set (st' := match PkgHash.hlist (s_cache st) with [] => st | _ => _ end) in *.
  destruct (map_wf (fill treename st') (s_cache st') (fill_names st') Hw') as [Hm Em]. split_and!; [done|done| |done|by exists a].
  unfold PkgHash.names_of. unfold materialize. rewrite Em, <- list_fmap_compose. change (name ∘ fill treename st') with name. rewrite Hp. apply Ho.
Qed.

(** C30: Loading a sync database is safe when the name of every entry is that of a
    package or ends the search of [_klpm_splitname] within the string, and no line of
    an entry is longer than the entry's first block of data (a longer one can make the
    code read a freed buffer: [dependency_line_freed]): [sync_db_populate] ends without
    undefined behaviour.  It gives a well-formed cache, sorted and with every name
    once, or fails without one.  When an entry cannot be read (it has no name, or not
    that of a package, or its description is refused) it fails: with the error for an
    invalid database, which is marked as such, unless the database was known to be
    missing, has no path, or the table could not be allocated. *)
Theorem sync_populate_safe path files_db a base status
    (Ha : match a with Some a => Forall entry_ok (a_entries a) /\ 0 <= a_size a | None => True end) :
  match sync_db_populate fnmatch treename path files_db a base status with
  | Populated s st => s = status /\ PkgHash.wf (materialize treename st) /\ NoDup (PkgHash.names_of (materialize treename st)) /\
      StronglySorted (cmp_le Package.pkg_cmp) (PkgHash.pkgs_of (s_cache st)) /\
      exists a', a = Some a' /\ a_ret a' = ARCHIVE_EOF /\ ~ Exists unreadable (a_entries a')
  | NotPopulated s e =>
      (e = ERR_DB_INVALID -> Db.has s Db.DB_STATUS_INVALID = true) /\
      forall a', a = Some a' -> Exists unreadable (a_entries a') ->
        e = ERR_DB_INVALID \/ Db.has status Db.DB_STATUS_MISSING = true \/ path = false \/ e = ERR_MEMORY
  | Crash => False
  end.
Proof. by apply populate_safe. Qed.

(** The archive of a repository. *)
Record repository (files_db : bool) (a : archive) (bs : list pub) : Prop := {
  ra_entries : a_entries a = bs ≫= members;
  ra_ret : a_ret a = ARCHIVE_EOF;
  ra_size : 0 <= a_size a;
  ra_names : NoDup (b_name <$> bs);
  ra_pubs : Forall pub_ok bs;
  ra_count : Z.of_nat (length bs) <= 300000;
  ra_table : PkgHash.initial_size (let est := estimate_package_count (a_size a) (a_filter a) in if files_db then est / 4 else est) < 976369
}.
Definition published (p : pkg) (b : pub) : Prop :=
  p = sync_pkg treename (pkg_id p) (b_name b) (b_version b) (hash_sdbm (b_name b)) (b_fields b).

Lemma fill_sorted st l : StronglySorted (cmp_le Package.pkg_cmp) l -> StronglySorted (cmp_le Package.pkg_cmp) (fill treename st <$> l).
Proof.
  induction 1 as [|p l _ IH Hp]; [constructor|]. cbn [fmap list_fmap]. constructor; [done|]. apply Forall_fmap. eapply Forall_impl; [exact Hp|]. done.
Qed.
Lemma populate_published files_db a bs base status : repository files_db a bs ->
  Db.has status Db.DB_STATUS_INVALID = false -> Db.has status Db.DB_STATUS_MISSING = false ->
  exists st, sync_db_populate fnmatch treename true files_db (Some a) base status = Populated status st /\
    let h := materialize treename st in
    PkgHash.wf h /\ NoDup (PkgHash.names_of h) /\ StronglySorted (cmp_le Package.pkg_cmp) (PkgHash.pkgs_of h) /\
    exists l, l ≡ₚ bs /\ Forall2 published (PkgHash.pkgs_of h) l.
Proof.
  intros [Re Rr Rs Rn Rp Rc Rt] Hi Hm. unfold sync_db_populate. rewrite Hi, Hm. cbn [negb]. set (est := if files_db then _ else _) in *.
  assert (0 <= est) as Hest by (pose proof (estimate_pos a Rs); subst est; destruct files_db; [apply Z.div_pos|]; lia).
  pose proof (PkgHash.create_spec est Hest) as Hc.
  destruct (PkgHash.pkghash_create est) as [h|]; [|rewrite Forall_forall in Hc; specialize (Hc 976369 ltac:(by_decide)); cbn beta zeta in Rt; lia].
  destruct Hc as (Hw & Hn & _).
  destruct (publish_all bs (State h ∅ base None) []) as (st & Est & Hh); [|done|done|done|].
  { split; [by apply start_ok|]. cbn [s_cache]. unfold PkgHash.pkgs_of. rewrite Hn. constructor. }
  rewrite Re, Est, Rr. cbn [negb app] in *. change (ARCHIVE_EOF =? ARCHIVE_EOF) with true. cbn [negb]. eexists. split; [reflexivity|].
  destruct Hh as [Ho Hps]. destruct (sort_ok st Ho) as (Hw' & Hp & Hsort & Est'). set (st' := match PkgHash.hlist (s_cache st) with [] => st | _ => _ end) in *.
  destruct (map_wf (fill treename st') (s_cache st') (fill_names st') Hw') as [Hm' Em]. cbn zeta. unfold materialize. unfold PkgHash.names_of. rewrite Em.
  split_and!; [done| |by apply fill_sorted|].
  - rewrite <- list_fmap_compose. change (name ∘ fill treename st') with name. rewrite Hp. apply Ho.
  - destruct (Permutation_Forall2 (symmetry Hp) Hps) as (l & Hl & HF). exists l. split; [done|]. apply Forall2_fmap_l.
    eapply Forall2_impl; [exact HF|]. intros p b [Hsh Hf]. change (published (fill treename st' p) b).
    unfold published, fill. rewrite Est', Hf. cbn [default pkg_id sync_pkg]. by rewrite Hsh.
Qed.

(** *** The backend *)

Definition sync_populate (files_db : bool) (a : archive) (base : positive) (x : Db.db) : bool * Db.db :=
  match sync_db_populate fnmatch treename true files_db (Some a) base (Db.status x) with
  | Populated s st => (true, Db.set_status (Db.set_pkgcache x (Some (materialize treename st))) s)
  | NotPopulated s e =>
      let x' := Db.set_status x s in
      (false, match e with
              | ERR_LIBARCHIVE => Db.free_groupcache x'
              | ERR_DB_INVALID => if Db.has (Db.status x) Db.DB_STATUS_INVALID then x' else Db.free_groupcache x'
              | _ => x'
              end)
  | Crash => (false, x)
  end.
Definition sync_validate (siglevel : Z) (attempts : list (Z * Z)) (s : Z) : Z :=
  match sync_db_validate true false siglevel attempts s with Some (Validity _ s' _) => s' | None => s end.

Lemma sync_validate_ok siglevel attempts s : Db.sound (Db.vbits_of s) ->
  Db.keeps_caches s (sync_validate siglevel attempts s) /\ Db.sound (Db.vbits_of (sync_validate siglevel attempts s)).
Proof.
  intros Hs. unfold sync_validate, sync_db_validate. destruct (Db.has s Db.DB_STATUS_VALID || Db.has s Db.DB_STATUS_MISSING); [done|].
  destruct (Db.has s Db.DB_STATUS_INVALID); [done|]. cbn [negb].
  destruct (Populate.keeps_now s) as (Ke & _). destruct (Populate.keeps_now (Populate.exists_now s)) as (_ & _ & Kv & Ki).
  assert (Db.sound (Db.vbits_of (Populate.valid_now (Populate.exists_now s)))) as Sv.
  { unfold Db.sound, Db.vbits_of; cbn [Db.b_valid Db.b_invalid Db.b_missing]. pose proof (Populate.verdict_valid (Populate.exists_now s)) as [= -> ->].
    by rewrite Populate.valid_missing, Populate.exists_not_missing. }
  assert (Db.sound (Db.vbits_of (Populate.invalid_now (Populate.exists_now s)))) as Si.
  { unfold Db.sound, Db.vbits_of; cbn [Db.b_valid Db.b_invalid Db.b_missing]. pose proof (Populate.verdict_invalid (Populate.exists_now s)) as [= -> _]. done. }
  destruct (Db.has siglevel SIG_DATABASE); [|split; [by eapply Populate.keeps_trans|done]].
  destruct (check_loop attempts) as [r|]; cbn [mbind option_bind]; [|done]. destruct (r =? 0); (split; [by eapply Populate.keeps_trans|done]).
Qed.

(** A repository as it is published is always loaded. *)
#[global] Instance sync_backend files_db a bs base siglevel attempts : repository files_db a bs ->
  Db.Backend False (sync_populate files_db a base) (sync_validate siglevel attempts).
Proof.
  intros Hr. split; [apply sync_validate_ok|]. intros x Hv Hs _ _. left. destruct (Hs Hv) as [Hi Hm]. cbn in Hi, Hm.
  destruct (populate_published files_db a bs base (Db.status x) Hr Hi Hm) as (st & E & Hw & _).
  exists (materialize treename st), (Db.status x). unfold sync_populate. by rewrite E.
Qed.

(** Any archive whose entries can be read without undefined behaviour is loaded or
    leaves the database without a cache. *)
Lemma populate_status path files_db a base status s e : sync_db_populate fnmatch treename path files_db a base status = NotPopulated s e ->
  exists s0, (s0 = status \/ s0 = Populate.invalid_now status) /\ (s = s0 \/ s = Db.clear_flag s0 Db.DB_STATUS_PKGCACHE).
Proof. unfold sync_db_populate. repeat case_match; intros [= <- _]; eauto. Qed.
Lemma status_failed status s s0 : Db.sound (Db.vbits_of status) -> Db.has status Db.DB_STATUS_PKGCACHE = false ->
  s0 = status \/ s0 = Populate.invalid_now status -> s = s0 \/ s = Db.clear_flag s0 Db.DB_STATUS_PKGCACHE ->
  Db.has s Db.DB_STATUS_PKGCACHE = false /\ Db.has s Db.DB_STATUS_GRPCACHE = Db.has status Db.DB_STATUS_GRPCACHE /\ Db.sound (Db.vbits_of s).
Proof.
  intros Hs Hp Hs0 Es. destruct (Populate.keeps_now status) as (_ & _ & _ & Ki1 & Ki2).
  assert (Db.has s0 Db.DB_STATUS_PKGCACHE = false /\ Db.has s0 Db.DB_STATUS_GRPCACHE = Db.has status Db.DB_STATUS_GRPCACHE /\ Db.sound (Db.vbits_of s0)) as (H1 & H2 & H3).
  { destruct Hs0 as [->| ->]; [done|]. split_and!; [congruence|done|]. unfold Db.sound, Db.vbits_of; cbn [Db.b_valid].
    pose proof (Populate.verdict_invalid status) as [= -> _]. done. }
  destruct Es as [->| ->]; [done|]. destruct (Db.bits_moves s0) as (_ & _ & _ & _ & B5 & B6 & _). destruct (Db.vbits_moves s0) as (_ & _ & V & _).
  rewrite B5, B6, V. done.
Qed.
#[global] Instance sync_backend_any files_db a base siglevel attempts : Forall entry_ok (a_entries a) -> 0 <= a_size a ->
  Db.Backend True (sync_populate files_db a base) (sync_validate siglevel attempts).
Proof.
  intros He Hsz. split; [apply sync_validate_ok|]. intros x Hv Hs Hl Hc.
  pose proof (populate_safe true files_db (Some a) base (Db.status x) (conj He Hsz)) as H. unfold sync_populate.
  destruct (sync_db_populate fnmatch treename true files_db (Some a) base (Db.status x)) as [s st|s e|] eqn:E; [| |done].
  - destruct H as (-> & Hw & _). left. by exists (materialize treename st), (Db.status x).
  - right. split; [done|]. eexists. split; [reflexivity|]. destruct (populate_status _ _ _ _ _ _ _ E) as (s0 & Hs0 & Es).
    destruct (status_failed (Db.status x) s s0 Hs Hl Hs0 Es) as (F1 & F2 & F3).
    assert (Db.failed_load x (Db.set_status x s)) as Hx
      by (split; [exact F1|intros h Eh; simpl in Eh; congruence|left; split; [exact F2|done]|exact F3]).
    assert (Db.failed_load x (Db.free_groupcache (Db.set_status x s))) as Hy.
    { unfold Db.free_groupcache. fold (Db.grouped (Db.set_status x s)). destruct (Db.grouped (Db.set_status x s)); [|done].
      destruct (Db.bits_moves s) as (_ & _ & _ & _ & _ & _ & B7 & B8). destruct (Db.vbits_moves s) as (_ & _ & _ & V). cbn [negb].
      split; [unfold Db.loaded; simpl; by rewrite B8|intros h Eh; simpl in Eh; congruence|right; split; [exact B7|done]|simpl; by rewrite V]. }
    destruct e; try done. by destruct (Db.has (Db.status x) Db.DB_STATUS_INVALID).
Qed.

(** The database as [_klpm_db_register_sync] leaves it. *)
Definition db_register_sync (siglevel : Z) (attempts : list (Z * Z)) : Db.db :=
  let x := Db.db_new treename false in Db.set_status x (sync_validate siglevel attempts (Db.status x)).
(** The signature of the database is not asked for or passes in the end. *)
Definition accepted (siglevel : Z) (attempts : list (Z * Z)) : bool :=
  negb (Db.has siglevel SIG_DATABASE) || bool_decide (check_loop attempts = Some 0).

Lemma register_status siglevel attempts : check_loop attempts <> None ->
  db_register_sync siglevel attempts = Db.set_status (Db.db_new treename false) (if accepted siglevel attempts then 5 else 6).
Proof.
  intros Hc. unfold db_register_sync, sync_validate, sync_db_validate, accepted. cbn [Db.status Db.db_new negb orb].
  destruct (Db.has siglevel SIG_DATABASE); [|done]. cbn [negb orb]. destruct (check_loop attempts) as [r|]; [|done]. cbn [mbind option_bind].
  destruct (Z.eqb_spec r 0) as [->|Hr]; [by rewrite bool_decide_eq_true_2|]. rewrite bool_decide_eq_false_2 by congruence. done.
Qed.

(** C7: The packages a sync database offers are those its repository published, when
    the archive holds what repo-add writes for packages of distinct names and no line
    of an entry is longer than the first block of data libarchive delivers for it (the
    line buffer then moves, and a dependency line is read from the freed one:
    [dependency_line_freed]).  When the signature check of the database ends with
    acceptance, the package list is sorted by name and holds each published package
    once with every field of its description, and a lookup by name finds exactly
    those; the caches satisfy the invariant of [Db].  When the check ends with a
    refusal, the database offers no package. *)
Theorem sync_cache_refines_archive files_db a bs base siglevel attempts
    (Hr : repository files_db a bs) (Hend : check_loop attempts <> None) :
  let populate := sync_populate files_db a base in let x0 := db_register_sync siglevel attempts in
  if accepted siglevel attempts then
    exists l x, Db.db_get_pkgcache populate x0 Db.OK = (l, x, Db.OK) /\ Db.db_ok False x /\
      StronglySorted (cmp_le Package.pkg_cmp) l /\ (exists l', l' ≡ₚ bs /\ Forall2 published l l') /\
      forall n, exists r, Db.db_get_pkgfromcache populate x n Db.OK = Some (r, x, Db.OK) /\
        match r with
        | Some p => exists b, b ∈ bs /\ b_name b = n /\ published p b
        | None => n ∉ b_name <$> bs
        end
  else Db.db_get_pkgcache populate x0 Db.OK = ([], x0, Db.DB_INVALID) /\
       forall n, Db.db_get_pkgfromcache populate x0 n Db.OK = Some (None, x0, Db.DB_INVALID).
Proof.
  intros populate x0. subst x0. rewrite (register_status siglevel attempts Hend) in *. pose proof (sync_backend files_db a bs base siglevel attempts Hr) as HB.
  destruct (accepted siglevel attempts) eqn:Eacc; [|done].
  destruct (populate_published files_db a bs base 5 Hr) as (st & E & Hw & Hnd & Hsort & l' & Hl' & HF); [done|done|]. set (h := materialize treename st) in *.
  set (x1 := Db.set_status (Db.db_new treename false) 5) in *. set (x2 := Db.set_status (Db.set_pkgcache x1 (Some h)) 2053).
  assert (Db.db_get_pkgcache_hash populate x1 Db.OK = (Some h, x2, Db.OK)) as Eh.
  { unfold Db.db_get_pkgcache_hash. change (negb (Db.has (Db.status x1) Db.DB_STATUS_VALID)) with false.
    change (negb (Db.has (Db.status x1) Db.DB_STATUS_PKGCACHE)) with true. cbn iota. unfold Db.load_pkgcache, populate, sync_populate.
    change (Db.db_free_pkgcache x1) with x1. change (Db.status x1) with 5. by rewrite E. }
  assert (Db.db_get_pkgcache populate x1 Db.OK = (PkgHash.pkgs_of h, x2, Db.OK)) as El by (unfold Db.db_get_pkgcache; by rewrite Eh).
  exists (PkgHash.pkgs_of h), x2. split_and!; [done| |done|by exists l'|].
  - apply (Db.reachable_ok False populate (sync_validate siglevel attempts) treename false).
    eapply rtc_l; [apply Db.step_validate|]. eapply rtc_once. change (Db.set_status _ _) with (db_register_sync siglevel attempts).
    rewrite register_status, Eacc by done. by eapply Db.step_get_pkgcache.
  - intros n. destruct (PkgHash.find_correct h n Hw) as (r & Ef & Hfound). exists r. split.
    { unfold Db.db_get_pkgfromcache. change (Db.db_get_pkgcache_hash populate x2 Db.OK) with (Some h, x2, Db.OK). cbn iota. by rewrite Ef. }
    assert (name <$> PkgHash.pkgs_of h = b_name <$> l') as Enm.
    { clear -HF. induction HF as [|p b l l' Hp _ IH]; [done|]. cbn [fmap list_fmap]. rewrite IH. f_equal. unfold published in Hp. by rewrite Hp. }
    destruct r as [p|].
    + destruct Hfound as [Hin Hn]. apply list_elem_of_lookup in Hin as (j & Hj). destruct (Forall2_lookup_l _ _ _ _ _ HF Hj) as (b & Hb & Hp).
      exists b. split_and!; [rewrite <- Hl'; by eapply list_elem_of_lookup_2|unfold published in Hp; rewrite Hp in Hn; done|done].
    + rewrite <- Hl', <- Enm. exact Hfound.
Qed.

End Cache.
(** ** Examples *)

Definition ex_fnmatch (pattern string : cstr) : Z := 1.
Definition ex_fields : fields :=
  Fields (Some (lit "foo-1.0-1.pkg")) 1234 (Some (lit "ab12")) None
    (LocalDb.set_depends [Deps.dep_from_string (lit "bar>=2"); Deps.dep_from_string (lit "baz")] (LocalDb.set_isize 4096 LocalDb.fresh_info))
    [File (lit "usr/") 0 0; File (lit "usr/bin/") 0 0].
(** One block per entry. *)
Definition one_block (ls : list cstr) : list (Z * cstr) := [(ARCHIVE_OK, ls ≫= LocalDb.line_of)].
Definition ex_pub : pub :=
  Pub (lit "foo") (lit "1.0-1") ex_fields (one_block (repo_desc (lit "foo") (lit "1.0-1") ex_fields)) (Some (one_block (repo_files ex_fields))).
Definition ex_archive : archive := Archive_ 5000 1 ([ex_pub] ≫= members) ARCHIVE_EOF.

Lemma ex_publishable : publishable ex_fields.
Proof.
  split.
  - eexists. split; [reflexivity|]. split; by_decide.
  - intros v. rewrite !elem_of_cons, elem_of_nil. intros H. repeat destruct H as [->|H]; first [done|by_decide].
  - by_decide.
  - by_decide.
  - by_decide.
  - by_decide.
  - repeat (apply Forall_cons; split); [split; by_decide..|]. apply Forall_nil. done.
  - split; [repeat constructor; by_decide|done].
  - done.
Qed.
Lemma ex_in_blocks ls : (ls ≫= LocalDb.line_of) <> [] -> PkgFile.lines_ok 524288 ls -> in_blocks ls (one_block ls).
Proof.
  intros Hne Hl. split_and!; [|done|].
  - split; [by repeat constructor|]. cbn. by rewrite app_nil_r.
  - apply Forall_forall. intros l Hin. cbn [first_size one_block snd]. clear -Hin. induction ls as [|x ls IH]; [by apply elem_of_nil in Hin|].
    rewrite bind_cons. unfold LocalDb.line_of at 1. rewrite !length_app. apply elem_of_cons in Hin as [->|Hin]; [lia|]. specialize (IH Hin). lia.
Qed.
Lemma ex_repository : repository ex_fnmatch true ex_archive [ex_pub].
Proof.
  split; [done|done|done|repeat constructor; by intros ?%elem_of_nil| |done|done]. apply Forall_singleton. split.
  - split; by_decide.
  - exists (lit "1.0"), (lit "1"). split_and!; [done|by_decide..].
  - done.
  - apply ex_publishable.
  - apply ex_in_blocks; [done|]. repeat (apply Forall_cons; split); [split; [by_decide|vm_compute; done]..|by apply Forall_nil].
  - apply ex_in_blocks; [done|]. repeat (apply Forall_cons; split); [split; [by_decide|vm_compute; done]..|by apply Forall_nil].
Qed.
(** The signature check fails once, a key is imported, and it passes. *)
Lemma sync_cache_witness :
  exists l x, Db.db_get_pkgcache (sync_populate ex_fnmatch (lit "core") true ex_archive 1) (db_register_sync (lit "core") SIG_DATABASE [(1, 1); (0, 0)]) Db.OK = (l, x, Db.OK) /\
    Db.db_ok False x /\ l = [sync_pkg (lit "core") 1 (lit "foo") (lit "1.0-1") (hash_sdbm (lit "foo")) ex_fields].
Proof.
  pose proof (sync_cache_refines_archive ex_fnmatch (lit "core") true ex_archive [ex_pub] 1 SIG_DATABASE [(1, 1); (0, 0)] ex_repository) as H.
  destruct H as (l & x & E & Hok & _); [done|]. exists l, x. split; [exact E|]. split; [exact Hok|]. vm_compute in E. injection E as <- _. vm_compute. reflexivity.
Defined.

Definition ex_entry (path : string) (blocks : list (Z * cstr)) : PkgFile.entry := PkgFile.Entry (Some (lit path)) false 0 S_IFREG blocks false.
Definition ex_bad : archive := Archive_ 5000 1 [ex_entry "foo-1.0-1/desc" [(ARCHIVE_OK, lit "%DATA%" ++ [NL] ++ lit "x" ++ [NL; NL])]] ARCHIVE_EOF.
(** A description that cannot be read. *)
Lemma ex_unreadable : Exists unreadable (a_entries ex_bad).
Proof.
  apply Exists_cons_hd. split; [done|]. right. exists (lit "foo-1.0-1"), (lit "desc"). split_and!; [done..|].
  intros [? ? ? ? [] ?]. eexists. vm_compute. reflexivity.
Qed.
Lemma sync_populate_safe_witness :
  exists s, sync_db_populate ex_fnmatch (lit "core") true false (Some ex_bad) 1 5 = NotPopulated s ERR_DB_INVALID /\ Db.has s Db.DB_STATUS_INVALID = true.
Proof.
  pose proof (sync_populate_safe ex_fnmatch (lit "core") true false (Some ex_bad) 1 5) as H.
  destruct (sync_db_populate ex_fnmatch (lit "core") true false (Some ex_bad) 1 5) as [s st|s e|] eqn:E; [vm_compute in E; discriminate E| |vm_compute in E; discriminate E].
  destruct H as [Hi Hu].
  { split; [|done]. apply Forall_singleton. split; [done|]. apply segments_no_long. by_decide. }
  destruct (Hu ex_bad eq_refl ex_unreadable) as [->|[Hm|[Hp| ->]]]; [exists s; split; [reflexivity|by apply Hi]|vm_compute in Hm; discriminate Hm|discriminate Hp|].
  vm_compute in E. discriminate E.
Defined.

(** [READ_AND_SPLITDEP] parses dependencies through a pointer into the line
    buffer taken before the line was read; when the line makes the buffer grow,
    the pointer is that of the freed buffer. *)
Theorem dependency_line_freed :
  sync_db_populate ex_fnmatch (lit "core") true false
    (Some (Archive_ 5000 1 [ex_entry "foo-1.0-1/desc" [(ARCHIVE_OK, lit "%DEPENDS%" ++ [NL]); (ARCHIVE_OK, lit "libsomething>=1.0" ++ [NL; NL])]] ARCHIVE_EOF))
    1 5 = Crash /\
  sync_db_read ex_fnmatch (lit "core") (State (default PkgHash.ex_hash (PkgHash.pkghash_create 10)) ∅ 1 None)
    (ex_entry "foo-1.0-1/desc" [(ARCHIVE_OK, lit "%DEPENDS%" ++ [NL]); (ARCHIVE_OK, lit "libsomething>=1.0" ++ [NL; NL])]) = FreedLineRead.
Proof. split; vm_compute; reflexivity. Qed.

(** A file outside of a directory is passed over with a warning, but a package
    made from its name is left in the cache, without a file name. *)
Theorem stray_file_is_a_package :
  exists st, sync_db_populate ex_fnmatch (lit "core") true false (Some (Archive_ 5000 1 [ex_entry "notes-1-2" []] ARCHIVE_EOF)) 1 5 = Populated 5 st /\
    (fun p => (name p, version p, filename p)) <$> PkgHash.pkgs_of (materialize (lit "core") st) = [(lit "notes", lit "1-2", None)].
Proof. eexists. split; vm_compute; reflexivity. Qed.

(** "filename must be between 3 and PATH_MAX characters": there is no lower
    bound. *)
Theorem empty_filename_accepted : validate_filename [] = true /\ validate_filename (lit "x") = true.
Proof. done. Qed.

End SyncDb.
