(* ===== verification/Signing.v ===== *)
(** * Signatures ([src/lib/libkuzpkg/signing.c], [base64.c])

    Decoding of the signatures of a database, the result of checking a signature
    and the decision whether it is accepted.  GPGME is a parameter: what it
    reports for the signatures of a file.  Bytes are integers from 0 to 255. *)

From S2P Require Import Prelude CStr Util KeyId.
Local Open Scope Z_scope.

Module Signing.

(** ** base64 *)

Definition base64_dec_map : list Z :=
  [127; 127; 127; 127; 127; 127; 127; 127; 127; 127;
   127; 127; 127; 127; 127; 127; 127; 127; 127; 127;
   127; 127; 127; 127; 127; 127; 127; 127; 127; 127;
   127; 127; 127; 127; 127; 127; 127; 127; 127; 127;
   127; 127; 127;  62; 127; 127; 127;  63;  52;  53;
    54;  55;  56;  57;  58;  59;  60;  61; 127; 127;
   127;  64; 127; 127; 127;   0;   1;   2;   3;   4;
     5;   6;   7;   8;   9;  10;  11;  12;  13;  14;
    15;  16;  17;  18;  19;  20;  21;  22;  23;  24;
    25; 127; 127; 127; 127; 127; 127;  26;  27;  28;
    29;  30;  31;  32;  33;  34;  35;  36;  37;  38;
    39;  40;  41;  42;  43;  44;  45;  46;  47;  48;
    49;  50;  51; 127; 127; 127; 127; 127].
(** [base64_dec_map[c]]; the callers test [c] first. *)
Definition dec (c : Z) : Z := nth (Z.to_nat c) base64_dec_map 127.

Definition CR : Z := 13.
Definition LF : Z := 10.
Definition PAD : Z := 61.
Definition u32 (z : Z) : Z := z mod 2 ^ 32.

(** The first loop: the number of digits, [None] for an invalid character. *)
Fixpoint count_digits (src : list Z) (j n : Z) : option Z :=
  match src with
  | [] => Some n
  | c :: rest =>
      if (c =? CR) && bool_decide (head rest = Some LF) then count_digits rest j n
      else if c =? LF then count_digits rest j n
      else
        let j := if c =? PAD then u32 (j + 1) else j in
        if (c =? PAD) && (2 <? j) then None
        else if (127 <? c) || (dec c =? 127) then None
        else if (dec c <? 64) && negb (j =? 0) then None
        else count_digits rest j (n + 1)
  end.

(** [*p++ = b] in a destination of [cap] bytes. *)
Definition put (cap : Z) (b : Z) (out : list Z) : option (list Z) :=
  if Z.of_nat (length out) <? cap then Some (out ++ [b mod 256]) else None.
(** The second loop; [None] is a write outside the destination. *)
Fixpoint decode_loop (cap : Z) (src : list Z) (j n x : Z) (out : list Z) : option (list Z) :=
  match src with
  | [] => Some out
  | c :: src =>
      if (c =? CR) || (c =? LF) then decode_loop cap src j n x out
      else
        let j := if dec c =? 64 then u32 (j - 1) else j in
        let x := u32 (Z.lor (Z.shiftl x 6) (Z.land (dec c) 63)) in
        if n + 1 =? 4 then
          out ← (if 0 <? j then put cap (Z.shiftr x 16) out else Some out);
          out ← (if 1 <? j then put cap (Z.shiftr x 8) out else Some out);
          out ← (if 2 <? j then put cap x out else Some out);
          decode_loop cap src j 0 x out
        else decode_loop cap src j (n + 1) x out
  end.

(** [base64_decode] with a destination of [dlen] bytes: its bytes, or 0 without
    having touched [*dlen] and the destination, or an error. *)
Inductive decoded := Decoded (out : list Z) | Untouched | InvalidCharacter | BufferTooSmall | Overrun.
Definition base64_decode (dlen : Z) (src : list Z) : decoded :=
  match count_digits src 0 0 with
  | None => InvalidCharacter
  | Some n =>
      if n =? 0 then Untouched
      else if dlen <? Z.shiftr (n * 6 + 7) 3 then BufferTooSmall
      else match decode_loop dlen src 3 0 0 [] with Some out => Decoded out | None => Overrun end
  end.

(** [klpm_decode_signature]: the data, data of this length that was never
    written, an error, or a write out of bounds. *)
Inductive sigdata := SigData (data : list Z) | SigUninitialised (len : Z) | SigInvalid | SigOverrun.
Definition decode_signature (base64_data : cstr) : sigdata :=
  let destlen := Z.of_nat (length base64_data) * 3 / 4 in
  match base64_decode destlen (uchar <$> base64_data) with
  | Decoded out => SigData out
  | Untouched => SigUninitialised destlen
  | InvalidCharacter | BufferTooSmall => SigInvalid
  | Overrun => SigOverrun
  end.

(** ** The result of a check *)

Inductive sigstatus := SIG_VALID | SIG_KEY_EXPIRED | SIG_SIG_EXPIRED | SIG_KEY_UNKNOWN | SIG_KEY_DISABLED | SIG_INVALID.
Inductive sigvalidity := VALIDITY_FULL | VALIDITY_MARGINAL | VALIDITY_NEVER | VALIDITY_UNKNOWN.
#[global] Instance sigstatus_eq_dec : EqDecision sigstatus.
Proof. solve_decision. Defined.
#[global] Instance sigvalidity_eq_dec : EqDecision sigvalidity.
Proof. solve_decision. Defined.

(** What GPGME reports of a signature: the code of its status, its validity and
    its key. *)
Inductive gpg_status := GPG_NO_ERROR | GPG_KEY_EXPIRED | GPG_SIG_EXPIRED | GPG_NO_PUBKEY | GPG_BAD_SIGNATURE | GPG_OTHER.
Inductive gpg_validity := GPG_UNKNOWN | GPG_UNDEFINED | GPG_NEVER | GPG_MARGINAL | GPG_FULL | GPG_ULTIMATE.
(** [gpgme_get_key]: no such key, another error, or a key with its first user
    id, if any. *)
Inductive gpg_key := NoKey | KeyError | Key (fpr : cstr) (uid : option cstr) (disabled : bool).
Record gpgsig := GpgSig { g_fpr : cstr; g_status : gpg_status; g_validity : gpg_validity; g_key : gpg_key }.

Record sigresult := SigResult { r_uid : option cstr; r_fingerprint : option cstr; r_status : sigstatus; r_validity : sigvalidity }.
#[global] Instance sigresult_eq_dec : EqDecision sigresult.
Proof. solve_decision. Defined.

(** The body of the loop over the signatures; [None] when the key lookup fails. *)
Definition sig_result (g : gpgsig) : option sigresult :=
  let status := match g_status g with
                | GPG_NO_ERROR => SIG_VALID
                | GPG_KEY_EXPIRED => SIG_KEY_EXPIRED
                | GPG_SIG_EXPIRED => SIG_SIG_EXPIRED
                | GPG_NO_PUBKEY => SIG_KEY_UNKNOWN
                | GPG_BAD_SIGNATURE | GPG_OTHER => SIG_INVALID
                end in
  let validity := match g_validity g with
                  | GPG_ULTIMATE | GPG_FULL => VALIDITY_FULL
                  | GPG_MARGINAL => VALIDITY_MARGINAL
                  | GPG_NEVER => VALIDITY_NEVER
                  | GPG_UNKNOWN | GPG_UNDEFINED => VALIDITY_UNKNOWN
                  end in
  match g_key g with
  | KeyError => None
  | NoKey => Some (SigResult None (Some (g_fpr g)) status validity)
  | Key fpr None disabled => Some (SigResult None None status validity)
  | Key fpr (Some uid) disabled => Some (SigResult (Some uid) (Some fpr) (if disabled then SIG_KEY_DISABLED else status) validity)
  end.

(** The loop: the results, and whether it came to the end; after a failure the
    other elements of the array keep their zeros. *)
Definition no_result : sigresult := SigResult None None SIG_VALID VALIDITY_FULL.
Fixpoint sig_results (gs : list gpgsig) : list sigresult * bool :=
  match gs with
  | [] => ([], true)
  | g :: gs =>
      match sig_result g with
      | Some r => let '(rs, ok) := sig_results gs in (r :: rs, ok)
      | None => (replicate (S (length gs)) no_result, false)
      end
  end.

(** [SIG_OK] is an error number left as it was. *)
Inductive sig_errno := SIG_OK | ERR_NOT_A_FILE | ERR_SIG_MISSING | ERR_SIG_INVALID | ERR_GPGME.
#[global] Instance sig_errno_eq_dec : EqDecision sig_errno.
Proof. solve_decision. Defined.
(** The data a signature is checked with: that of the database, or the file
    next to the package. *)
Inductive sigsource := FromData (data : list Z) | FromFile (path : cstr).
(** [_klpm_sigpath] *)
Definition sigpath (path : cstr) : cstr := path ++ lit ".sig".

Section Check.
(** [access(path, R_OK)] succeeds; the error of [init_gpgme], if any; what GPGME
    reports of a file with a signature, [None] being an error; and the content of
    fresh memory. *)
Variables (readable : cstr -> bool) (init_gpgme : option sig_errno) (gpgme_verify : cstr -> sigsource -> option (list gpgsig))
  (fresh_memory : Z -> list Z).

(** The signature data; [SigOverrun] does not happen (see below). *)
Definition sig_source (path : cstr) (base64_sig : option cstr) : option sigsource :=
  match base64_sig with
  | Some b =>
      match decode_signature b with
      | SigData d => Some (FromData d)
      | SigUninitialised n => Some (FromData (fresh_memory n))
      | SigInvalid | SigOverrun => None
      end
  | None => Some (FromFile (sigpath path))
  end.
(** [_klpm_gpgme_checksig]: the result, [pm_errno] and the results.  The
    allocations succeed. *)
Definition gpgme_checksig (path : cstr) (base64_sig : option cstr) : Z * sig_errno * list sigresult :=
  if negb (readable path) then (-1, ERR_NOT_A_FILE, [])
  else if match base64_sig with None => negb (readable (sigpath path)) | Some _ => false end then (-1, ERR_SIG_MISSING, [])
  else
    match init_gpgme with
    | Some e => (-1, e, [])
    | None =>
        match sig_source path base64_sig with
        | None => (-1, ERR_SIG_INVALID, [])
        | Some src =>
            match gpgme_verify path src with
            | None => (-1, ERR_GPGME, [])
            | Some [] => (-1, ERR_SIG_MISSING, [])
            | Some sigs => let '(rs, ok) := sig_results sigs in if ok then (0, SIG_OK, rs) else (-1, ERR_GPGME, rs)
            end
        end
    end.

(** A signature the loop of [_klpm_check_pgp_helper] lets pass. *)
Definition sig_accepted (marginal unknown : bool) (r : sigresult) : bool :=
  match r_status r with
  | SIG_VALID | SIG_KEY_EXPIRED =>
      match r_validity r with
      | VALIDITY_FULL => true
      | VALIDITY_MARGINAL => marginal
      | VALIDITY_UNKNOWN => unknown
      | VALIDITY_NEVER => false
      end
  | _ => false
  end.
(** [_klpm_check_pgp_helper] *)
Definition check_pgp_helper (path : cstr) (base64_sig : option cstr) (optional marginal unknown : bool) : Z * sig_errno * list sigresult :=
  let '(ret, e, rs) := gpgme_checksig path base64_sig in
  if negb (ret =? 0) && bool_decide (e = ERR_SIG_MISSING) then (if optional then 0 else ret, if optional then SIG_OK else e, rs)
  else if negb (ret =? 0) then (ret, e, rs)
  else (if forallb (sig_accepted marginal unknown) rs then 0 else -1, e, rs).
End Check.

(** ** Keys *)

(** [email_from_uid] *)
Definition email_from_uid (uid : option cstr) : option cstr :=
  match uid with
  | None => None
  | Some uid =>
      match Util.strrchr uid "<"%char with
      | None => None
      | Some (_, start) =>
          match Util.strrchr start ">"%char with
          | None => None
          | Some (email, _) => Some email
          end
      end
  end.

Section Siglist.
(** The keyring: whether it has a key, and importing one. *)
Context {K : Type} (key_in_keychain : K -> cstr -> Z * K) (key_import : K -> option cstr -> option cstr -> Z * K).
(** [_klpm_process_siglist]: whether to retry, and the keyring. *)
Fixpoint process_siglist (k : K) (rs : list sigresult) (retry : Z) : Z * K :=
  match rs with
  | [] => (retry, k)
  | r :: rs =>
      let import k := let '(i, k) := key_import k (r_uid r) (r_fingerprint r) in process_siglist k rs (if i =? 0 then 1 else retry) in
      match r_status r with
      | SIG_KEY_EXPIRED => import k
      | SIG_KEY_UNKNOWN =>
          let '(known, k) := match r_fingerprint r with Some f => key_in_keychain k f | None => (0, k) end in
          if known =? 1 then process_siglist k rs retry else import k
      | _ => process_siglist k rs retry
      end
  end.
End Siglist.

(** ** Decoding is within bounds *)

Definition is_digit (c : Z) : bool := negb ((c =? CR) || (c =? LF)).
Definition digits (src : list Z) : Z := Z.of_nat (length (List.filter is_digit src)).
Lemma digits_cons c src : digits (c :: src) = (if is_digit c then 1 else 0) + digits src.
Proof. unfold digits. simpl. destruct (is_digit c); simpl; lia. Qed.
Lemma digits_pos src : 0 <= digits src.
Proof. unfold digits. lia. Qed.

Lemma count_digits_spec src : forall j n m, count_digits src j n = Some m -> m = n + digits src.
Proof.
  induction src as [|c src IH]; intros j n m; cbn [count_digits]; [intros [= <-]; unfold digits; simpl; lia|].
  rewrite digits_cons. unfold is_digit. destruct (Z.eqb_spec c CR) as [->|Hc].
  - cbn [andb orb negb]. destruct (bool_decide (head src = Some LF)); [intros H%IH; lia|]. done.
  - cbn [andb orb]. destruct (Z.eqb_spec c LF) as [->|Hl]; [intros H%IH; cbn; lia|]. cbn [negb].
    destruct (_ && _); [done|]. destruct (_ || _); [done|]. destruct (_ && _); [done|]. intros H%IH. lia.
Qed.

Lemma put_ok cap b out : Z.of_nat (length out) < cap -> put cap b out = Some (out ++ [b mod 256]).
Proof. intros H. unfold put. by rewrite (proj2 (Z.ltb_lt _ _)). Qed.
(** At most three bytes for four digits. *)
Lemma decode_loop_safe cap src : forall j n x out, 0 <= n < 4 -> Z.of_nat (length out) + 3 * ((n + digits src) / 4) <= cap ->
  exists out', decode_loop cap src j n x out = Some out' /\ Z.of_nat (length out') <= cap.
Proof.
  induction src as [|c src IH]; intros j n x out Hn Hcap; cbn [decode_loop].
  { exists out. split; [done|]. unfold digits in Hcap. simpl in Hcap. pose proof (Z.div_pos (n + 0) 4). lia. }
  rewrite digits_cons in Hcap. unfold is_digit in Hcap. pose proof (digits_pos src).
  destruct ((c =? CR) || (c =? LF)); cbn [negb] in Hcap; [by apply IH|].
  set (j' := if dec c =? 64 then _ else _). set (x' := u32 _). destruct (Z.eqb_spec (n + 1) 4) as [E|E].
  - assert ((n + (1 + digits src)) / 4 = 1 + (0 + digits src) / 4) as Ed.
    { replace (n + (1 + digits src)) with (0 + digits src + 1 * 4) by lia. rewrite Z_div_plus_full by lia. lia. }
    rewrite Ed in Hcap. pose proof (Z.div_pos (0 + digits src) 4).
    assert (forall (t : bool) b o, Z.of_nat (length o) < cap -> exists o', (if t then put cap b o else Some o) = Some o' /\ Z.of_nat (length o') <= Z.of_nat (length o) + 1) as Hput.
    { intros t b o Ho. destruct t; [rewrite put_ok by done|]; eexists; (split; [reflexivity|]); rewrite ?length_app; simpl; lia. }
    destruct (Hput (0 <? j') (Z.shiftr x' 16) out) as (o1 & -> & H1); [lia|]. cbn [mbind option_bind].
    destruct (Hput (1 <? j') (Z.shiftr x' 8) o1) as (o2 & -> & H2); [lia|]. cbn [mbind option_bind].
    destruct (Hput (2 <? j') x' o2) as (o3 & -> & H3); [lia|]. cbn [mbind option_bind]. apply IH; lia.
  - apply IH; [lia|]. replace (n + 1 + digits src) with (n + (1 + digits src)) by lia. done.
Qed.
Lemma base64_decode_safe dlen src : match base64_decode dlen src with Decoded out => Z.of_nat (length out) <= dlen | Overrun => False | _ => True end.
Proof.
  unfold base64_decode. destruct (count_digits src 0 0) as [n|] eqn:E; [|done]. apply count_digits_spec in E. destruct (n =? 0); [done|].
  destruct (Z.ltb_spec dlen (Z.shiftr (n * 6 + 7) 3)) as [|Hd]; [done|]. rewrite Z.shiftr_div_pow2 in Hd by done. change (2 ^ 3) with 8 in Hd.
  destruct (decode_loop_safe dlen src 3 0 0 []) as (out & -> & Hl); [done| |done].
  pose proof (digits_pos src). simpl length. rewrite E in Hd. change (0 + digits src) with (digits src) in *. pose proof (Z.mul_div_le (digits src) 4).
  assert (3 * (digits src / 4) <= (digits src * 6 + 7) / 8) by (apply Z.div_le_lower_bound; lia). lia.
Qed.

(** ** Decoding what was encoded *)

Definition base64_enc_map : cstr := lit "ABCDEFGHIJKLMNOPQRSTUVWXYZabcdefghijklmnopqrstuvwxyz0123456789+/".
Definition enc (s : Z) : ascii := nth (Z.to_nat s) base64_enc_map "="%char.
(** The encoding (the function [base64_encode], which the source keeps as a
    reference and does not compile). *)
Fixpoint base64_encode (bs : list Z) : cstr :=
  match bs with
  | a :: b :: c :: bs => [enc (a / 4); enc (a mod 4 * 16 + b / 16); enc (b mod 16 * 4 + c / 64); enc (c mod 64)] ++ base64_encode bs
  | [a; b] => [enc (a / 4); enc (a mod 4 * 16 + b / 16); enc (b mod 16 * 4); "="%char]
  | [a] => [enc (a / 4); enc (a mod 4 * 16); "="%char; "="%char]
  | [] => []
  end.
Definition byte (b : Z) : Prop := 0 <= b < 256.

(** The digits, by evaluation. *)
Definition digit_ok (s : Z) : bool :=
  let c := uchar (enc s) in (dec c =? s) && is_digit c && negb (c =? PAD) && (c <=? 127).
Lemma digits_ok : forallb digit_ok (seqZ 0 64) = true.
Proof. vm_compute. reflexivity. Qed.
Lemma enc_spec s : 0 <= s < 64 -> dec (uchar (enc s)) = s /\ is_digit (uchar (enc s)) = true /\ uchar (enc s) <> PAD /\ uchar (enc s) <= 127.
Proof.
  intros Hs. pose proof digits_ok as H. rewrite forallb_forall in H. specialize (H s). unfold digit_ok in H. rewrite !andb_true_iff in H.
  destruct H as (((H1 & H2) & H3) & H4); [apply list_elem_of_In, elem_of_seqZ; lia|].
  apply Z.eqb_eq in H1. apply negb_true_iff, Z.eqb_neq in H3. apply Z.leb_le in H4. done.
Qed.

Lemma shift_in x s : 0 <= s < 64 -> u32 (Z.lor (Z.shiftl x 6) (Z.land s 63)) = (x * 64 + s) mod 2 ^ 32.
Proof.
  intros Hs. change 63 with (Z.ones 6). rewrite Z.land_ones by lia. rewrite Z.mod_small by (change (2 ^ 6) with 64; lia).
  rewrite KeyId.lor_add by (change (2 ^ 6) with 64; lia). done.
Qed.
(** What four digits leave in the accumulator. *)
Definition acc4 (x s1 s2 s3 s4 : Z) : Z := ((((x * 64 + s1) mod 2 ^ 32 * 64 + s2) mod 2 ^ 32 * 64 + s3) mod 2 ^ 32 * 64 + s4) mod 2 ^ 32.
Lemma acc4_low x s1 s2 s3 s4 : exists k, acc4 x s1 s2 s3 s4 = k * 2 ^ 24 + (s1 * 2 ^ 18 + s2 * 2 ^ 12 + s3 * 2 ^ 6 + s4).
Proof.
  assert (forall a, exists k, a mod 2 ^ 32 = a + k * 2 ^ 32) as Hm.
  { intros a. exists (- (a / 2 ^ 32)). pose proof (Z.div_mod a (2 ^ 32)). lia. }
  unfold acc4. destruct (Hm (x * 64 + s1)) as [k1 ->]. destruct (Hm ((x * 64 + s1 + k1 * 2 ^ 32) * 64 + s2)) as [k2 ->].
  destruct (Hm (((x * 64 + s1 + k1 * 2 ^ 32) * 64 + s2 + k2 * 2 ^ 32) * 64 + s3)) as [k3 ->].
  destruct (Hm ((((x * 64 + s1 + k1 * 2 ^ 32) * 64 + s2 + k2 * 2 ^ 32) * 64 + s3 + k3 * 2 ^ 32) * 64 + s4)) as [k4 ->].
  exists (x + k1 * 2 ^ 26 + k2 * 2 ^ 20 + k3 * 2 ^ 14 + k4 * 2 ^ 8). lia.
Qed.
Lemma acc4_bytes x s1 s2 s3 s4 : 0 <= s1 < 64 -> 0 <= s2 < 64 -> 0 <= s3 < 64 -> 0 <= s4 < 64 ->
  Z.shiftr (acc4 x s1 s2 s3 s4) 16 mod 256 = s1 * 4 + s2 / 16 /\
  Z.shiftr (acc4 x s1 s2 s3 s4) 8 mod 256 = s2 mod 16 * 16 + s3 / 4 /\ acc4 x s1 s2 s3 s4 mod 256 = s3 mod 4 * 64 + s4.
Proof.
  intros. destruct (acc4_low x s1 s2 s3 s4) as [k ->]. rewrite !Z.shiftr_div_pow2 by lia.
  change (2 ^ 24) with 16777216. change (2 ^ 18) with 262144. change (2 ^ 12) with 4096. change (2 ^ 6) with 64. change (2 ^ 16) with 65536. change (2 ^ 8) with 256.
  pose proof (Z.div_mod s2 16). pose proof (Z.mod_pos_bound s2 16). pose proof (Z.div_mod s3 4). pose proof (Z.mod_pos_bound s3 4).
  set (q2 := s2 / 16) in *. set (r2 := s2 mod 16) in *. set (q3 := s3 / 4) in *. set (r3 := s3 mod 4) in *.
  split_and!.
  - assert ((k * 16777216 + (s1 * 262144 + s2 * 4096 + s3 * 64 + s4)) / 65536 = k * 256 + (s1 * 4 + q2)) as ->.
    { symmetry. apply Z.div_unique_pos with (r2 * 4096 + s3 * 64 + s4); lia. }
    rewrite Z.add_comm, Z_mod_plus_full. apply Z.mod_small. lia.
  - assert ((k * 16777216 + (s1 * 262144 + s2 * 4096 + s3 * 64 + s4)) / 256 = (k * 256 + s1 * 4 + q2) * 256 + (r2 * 16 + q3)) as ->.
    { symmetry. apply Z.div_unique_pos with (r3 * 64 + s4); lia. }
    rewrite Z.add_comm, Z_mod_plus_full. apply Z.mod_small. lia.
  - symmetry. apply Z.mod_unique_pos with (k * 65536 + s1 * 1024 + s2 * 16 + q3); lia.
Qed.

Lemma uchar_pad : uchar "="%char = PAD.
Proof. done. Qed.
(** Consuming a digit that does not complete a group. *)
Lemma digit_step cap s src j n x out : 0 <= s < 64 -> n <> 3 ->
  decode_loop cap (uchar (enc s) :: src) j n x out = decode_loop cap src j (n + 1) ((x * 64 + s) mod 2 ^ 32) out.
Proof.
  intros Hs Hn. destruct (enc_spec s Hs) as (E1 & E2 & _). cbn [decode_loop]. unfold is_digit in E2. apply negb_true_iff in E2. rewrite E2.
  rewrite E1, (proj2 (Z.eqb_neq s 64)), shift_in by lia. by rewrite (proj2 (Z.eqb_neq (n + 1) 4)) by lia.
Qed.
Lemma group_step cap s1 s2 s3 s4 src x out : 0 <= s1 < 64 -> 0 <= s2 < 64 -> 0 <= s3 < 64 -> 0 <= s4 < 64 -> Z.of_nat (length out) + 3 <= cap ->
  exists x', decode_loop cap ((uchar <$> [enc s1; enc s2; enc s3; enc s4]) ++ src) 3 0 x out =
    decode_loop cap src 3 0 x' (out ++ [s1 * 4 + s2 / 16; s2 mod 16 * 16 + s3 / 4; s3 mod 4 * 64 + s4]).
Proof.
  intros H1 H2 H3 H4 Hc. exists (acc4 x s1 s2 s3 s4). destruct (acc4_bytes x s1 s2 s3 s4 H1 H2 H3 H4) as (B1 & B2 & B3).
  cbn [fmap list_fmap app]. rewrite !digit_step by lia. change (0 + 1 + 1 + 1) with 3. cbn [decode_loop].
  destruct (enc_spec s4 H4) as (E1 & E2 & _). unfold is_digit in E2. apply negb_true_iff in E2. rewrite E2, E1, (proj2 (Z.eqb_neq s4 64)), shift_in by lia.
  change (3 + 1 =? 4) with true. cbv iota. change (0 <? 3) with true. change (1 <? 3) with true. change (2 <? 3) with true. cbv iota.
  fold (acc4 x s1 s2 s3 s4). rewrite put_ok by lia. cbn [mbind option_bind]. rewrite put_ok by (rewrite length_app; simpl; lia). cbn [mbind option_bind].
  rewrite put_ok by (rewrite !length_app; simpl; lia). cbn [mbind option_bind]. rewrite B1, B2, B3. by rewrite <- !app_assoc.
Qed.

Lemma tail_two cap s1 s2 x out : 0 <= s1 < 64 -> 0 <= s2 < 64 -> Z.of_nat (length out) + 1 <= cap ->
  decode_loop cap (uchar <$> [enc s1; enc s2; "="%char; "="%char]) 3 0 x out = Some (out ++ [s1 * 4 + s2 / 16]).
Proof.
  intros H1 H2 Hc. destruct (acc4_bytes x s1 s2 0 0 H1 H2) as (B1 & _); [lia..|]. cbn [fmap list_fmap]. rewrite !uchar_pad, !digit_step by lia.
  cbn [decode_loop]. change ((PAD =? CR) || (PAD =? LF)) with false. change (dec PAD =? 64) with true. change (dec PAD) with 64. cbv iota.
  change (Z.land 64 63) with (Z.land 0 63). rewrite !shift_in by lia. change (0 + 1 + 1 + 1 =? 4) with false. change (0 + 1 + 1 + 1 + 1 =? 4) with true. cbv iota.
  change (u32 (u32 (3 - 1) - 1)) with 1. change (0 <? 1) with true. change (1 <? 1) with false. change (2 <? 1) with false. cbv iota.
  fold (acc4 x s1 s2 0 0). rewrite put_ok by lia. cbn [mbind option_bind]. by rewrite B1.
Qed.
Lemma tail_three cap s1 s2 s3 x out : 0 <= s1 < 64 -> 0 <= s2 < 64 -> 0 <= s3 < 64 -> Z.of_nat (length out) + 2 <= cap ->
  decode_loop cap (uchar <$> [enc s1; enc s2; enc s3; "="%char]) 3 0 x out = Some (out ++ [s1 * 4 + s2 / 16; s2 mod 16 * 16 + s3 / 4]).
Proof.
  intros H1 H2 H3 Hc. destruct (acc4_bytes x s1 s2 s3 0 H1 H2 H3) as (B1 & B2 & _); [lia|]. cbn [fmap list_fmap]. rewrite !uchar_pad, !digit_step by lia.
  cbn [decode_loop]. change ((PAD =? CR) || (PAD =? LF)) with false. change (dec PAD =? 64) with true. change (dec PAD) with 64. cbv iota.
  change (Z.land 64 63) with (Z.land 0 63). rewrite !shift_in by lia. change (0 + 1 + 1 + 1 + 1 =? 4) with true. cbv iota.
  change (u32 (3 - 1)) with 2. change (0 <? 2) with true. change (1 <? 2) with true. change (2 <? 2) with false. cbv iota.
  fold (acc4 x s1 s2 s3 0). rewrite put_ok by lia. cbn [mbind option_bind]. rewrite put_ok by (rewrite length_app; simpl; lia). cbn [mbind option_bind].
  rewrite B1, B2. by rewrite <- app_assoc.
Qed.

(** The sextets of bytes, and back. *)
Lemma sextets a b c : byte a -> byte b -> byte c ->
  (0 <= a / 4 < 64 /\ 0 <= a mod 4 * 16 + b / 16 < 64 /\ 0 <= b mod 16 * 4 + c / 64 < 64 /\ 0 <= c mod 64 < 64) /\
  a / 4 * 4 + (a mod 4 * 16 + b / 16) / 16 = a /\ (a mod 4 * 16 + b / 16) mod 16 * 16 + (b mod 16 * 4 + c / 64) / 4 = b /\
  (b mod 16 * 4 + c / 64) mod 4 * 64 + c mod 64 = c.
Proof.
  unfold byte. intros Ha Hb Hc. pose proof (Z.div_mod a 4). pose proof (Z.mod_pos_bound a 4). pose proof (Z.div_mod b 16). pose proof (Z.mod_pos_bound b 16).
  pose proof (Z.div_mod c 64). pose proof (Z.mod_pos_bound c 64).
  assert (0 <= a / 4 < 64 /\ 0 <= b / 16 < 16 /\ 0 <= c / 64 < 4) as (? & ? & ?).
  { split_and!; first [apply Z.div_pos; lia|apply Z.div_lt_upper_bound; lia]. }
  assert ((a mod 4 * 16 + b / 16) / 16 = a mod 4) as -> by (symmetry; apply Z.div_unique_pos with (b / 16); lia).
  assert ((a mod 4 * 16 + b / 16) mod 16 = b / 16) as -> by (symmetry; apply Z.mod_unique_pos with (a mod 4); lia).
  assert ((b mod 16 * 4 + c / 64) / 4 = b mod 16) as -> by (symmetry; apply Z.div_unique_pos with (c / 64); lia).
  assert ((b mod 16 * 4 + c / 64) mod 4 = c / 64) as -> by (symmetry; apply Z.mod_unique_pos with (b mod 16); lia). lia.
Qed.
(** Induction in groups of three. *)
Lemma triple_ind (P : list Z -> Prop) : P [] -> (forall a, P [a]) -> (forall a b, P [a; b]) -> (forall a b c bs, P bs -> P (a :: b :: c :: bs)) -> forall bs, P bs.
Proof.
  intros H0 H1 H2 H3. fix IH 1. intros [|a [|b [|c bs]]]; [done|done|done|]. apply H3, IH.
Qed.

Lemma decode_encode cap bs : Forall byte bs -> forall x out, Z.of_nat (length out) + Z.of_nat (length bs) <= cap ->
  decode_loop cap (uchar <$> base64_encode bs) 3 0 x out = Some (out ++ bs).
Proof.
  induction bs as [|a|a b|a b c bs IH] using triple_ind; intros Hb x out Hc.
  - by rewrite app_nil_r.
  - apply Forall_inv in Hb. destruct (sextets a 0 0 Hb) as ((S1 & S2 & _) & E1 & _); [done|done|]. cbn [base64_encode].
    change (0 / 16) with 0 in *. rewrite Z.add_0_r in *. rewrite tail_two by (simpl in Hc; lia). by rewrite E1.
  - apply Forall_cons in Hb as [Ha Hb%Forall_inv]. destruct (sextets a b 0 Ha Hb) as ((S1 & S2 & S3 & _) & E1 & E2 & _); [done|]. cbn [base64_encode].
    change (0 / 64) with 0 in *. rewrite Z.add_0_r in *. rewrite tail_three by (simpl in Hc; lia). by rewrite E1, E2.
  - apply Forall_cons in Hb as [Ha Hb]. apply Forall_cons in Hb as [Hb Hcs]. apply Forall_cons in Hcs as [Hc' Hbs].
    destruct (sextets a b c Ha Hb Hc') as ((S1 & S2 & S3 & S4) & E1 & E2 & E3). cbn [base64_encode]. rewrite fmap_app. cbn [length] in Hc.
    destruct (group_step cap (a / 4) (a mod 4 * 16 + b / 16) (b mod 16 * 4 + c / 64) (c mod 64) (uchar <$> base64_encode bs) x out S1 S2 S3 S4) as (x' & ->); [lia|].
    rewrite E1, E2, E3, IH; [by rewrite <- app_assoc|done|]. rewrite length_app. simpl. lia.
Qed.

Lemma count_digit s src n : 0 <= s < 64 -> count_digits (uchar (enc s) :: src) 0 n = count_digits src 0 (n + 1).
Proof.
  intros Hs. destruct (enc_spec s Hs) as (E1 & E2 & E3 & E4). unfold is_digit in E2. apply negb_true_iff, orb_false_iff in E2 as [E5 E6].
  cbn [count_digits]. rewrite E5, E6. cbn [andb]. rewrite (proj2 (Z.eqb_neq _ _) E3). cbn [andb]. rewrite E1, (proj2 (Z.ltb_ge _ _)) by lia.
  rewrite (proj2 (Z.eqb_neq s 127)) by lia. cbn [orb]. by rewrite andb_false_r.
Qed.
Lemma count_encode bs : Forall byte bs -> forall n, count_digits (uchar <$> base64_encode bs) 0 n = Some (n + Z.of_nat (length (base64_encode bs))).
Proof.
  induction bs as [|a|a b|a b c bs IH] using triple_ind; intros Hb n.
  - simpl. f_equal. lia.
  - apply Forall_inv in Hb. destruct (sextets a 0 0 Hb) as ((S1 & S2 & _) & _); [done|done|]. cbn [base64_encode fmap list_fmap].
    change (0 / 16) with 0 in *. rewrite Z.add_0_r in *. rewrite !count_digit by lia. rewrite !uchar_pad. simpl. f_equal. lia.
  - apply Forall_cons in Hb as [Ha Hb%Forall_inv]. destruct (sextets a b 0 Ha Hb) as ((S1 & S2 & S3 & _) & _); [done|]. cbn [base64_encode fmap list_fmap].
    change (0 / 64) with 0 in *. rewrite Z.add_0_r in *. rewrite !count_digit by lia. rewrite !uchar_pad. simpl. f_equal. lia.
  - apply Forall_cons in Hb as [Ha Hb]. apply Forall_cons in Hb as [Hb Hcs]. apply Forall_cons in Hcs as [Hc' Hbs].
    destruct (sextets a b c Ha Hb Hc') as ((S1 & S2 & S3 & S4) & _). cbn [base64_encode fmap list_fmap app]. rewrite !count_digit by lia.
    change (list_fmap ascii Z uchar (base64_encode bs)) with (uchar <$> base64_encode bs). rewrite IH by done. f_equal. cbn [length]. lia.
Qed.
Lemma encode_length bs : exists k, Z.of_nat (length (base64_encode bs)) = 4 * k /\ Z.of_nat (length bs) <= 3 * k /\ 0 <= k.
Proof.
  induction bs as [|a|a b|a b c bs (k & E & Hk & H0)] using triple_ind; [exists 0|exists 1|exists 1|exists (k + 1)]; cbn [base64_encode app length]; lia.
Qed.

(** C33: Signatures of a database survive the transport: [klpm_decode_signature]
    gives back exactly the bytes that were encoded, for any non-empty signature,
    and on any other text it fails or gives at most three bytes for four
    characters; it never writes outside the memory it allocates. *)
Theorem decode_signature_spec :
  (forall bs, Forall byte bs -> bs <> [] -> decode_signature (base64_encode bs) = SigData bs) /\
  (forall text, match decode_signature text with
                | SigData data => Z.of_nat (length data) <= Z.of_nat (length text) * 3 / 4
                | SigOverrun => False
                | SigUninitialised _ | SigInvalid => True
                end).
Proof.
  split.
  - intros bs Hb Hne. unfold decode_signature, base64_decode. rewrite count_encode by done. destruct (encode_length bs) as (k & E & Hk & H0). rewrite E.
    assert (k <> 0) by (destruct bs; [done|simpl in Hk; lia]). rewrite (proj2 (Z.eqb_neq _ _)) by lia.
    replace (4 * k * 3 / 4) with (3 * k) by (apply Z.div_unique_exact; lia). rewrite Z.shiftr_div_pow2 by lia. change (2 ^ 3) with 8.
    replace (((0 + 4 * k) * 6 + 7) / 8) with (3 * k) by (apply Z.div_unique_pos with 7; lia). rewrite (proj2 (Z.ltb_ge _ _)) by lia.
    by rewrite decode_encode by (simpl; lia || done).
  - intros text. unfold decode_signature. pose proof (base64_decode_safe (Z.of_nat (length text) * 3 / 4) (uchar <$> text)) as H.
    by destruct (base64_decode _ _).
Qed.
(** A text of line breaks is decoded as a signature that was never written. *)
Theorem newlines_uninitialised : decode_signature [ascii_of_nat 10; ascii_of_nat 10] = SigUninitialised 1.
Proof. reflexivity. Qed.

End Signing.
