(* ===== verification/Validate.v ===== *)
(** * Validating and loading the packages of a transaction
      ([be_package.c], [sync.c], [package.c], [util.c])

    [_klpm_pkg_validate_internal] decides whether a package file may be used,
    [klpm_pkg_load] loads a file the user names, and [_klpm_sync_load] downloads,
    validates and loads the targets of a transaction and compares them with
    their database entries.  What the operating system, GPGME and libarchive
    give is a record; the keyring is a state with its operations. *)

From S2P Require Import Prelude CStr Util KList Package Deps Db LocalDb KeyId PkgFile Signing.
Local Open Scope Z_scope.

Module Validate.
Import Signing.

(** [KUZPKG_SIG_*] *)
Definition SIG_PACKAGE : Z := 2 ^ 0.
Definition SIG_PACKAGE_OPTIONAL : Z := 2 ^ 1.
Definition SIG_PACKAGE_MARGINAL_OK : Z := 2 ^ 2.
Definition SIG_PACKAGE_UNKNOWN_OK : Z := 2 ^ 3.
Notation has := Db.has.

Inductive access_error := A_ENOENT | A_EACCES | A_OTHER.
(** What lies outside: [access(path, R_OK)]; GPGME; [klpm_compute_sha256sum];
    [_klpm_filecache_find]; the content of a signature file, as [read_sigfile] and
    as [_klpm_read_file] read it; [_klpm_open_archive] with the members of a
    package file; the parser of mtree data; <fnmatch.h>; the address the object
    loaded from a file gets. *)
Record world := World {
  w_access : cstr -> option access_error;
  w_init_gpgme : option sig_errno;
  w_verify : cstr -> sigsource -> option (list gpgsig);
  w_fresh_memory : Z -> list Z;
  w_sha256 : cstr -> option cstr;
  w_filecache_find : option cstr -> option cstr;
  w_sigfile : cstr -> option cstr;
  w_archive : cstr -> PkgFile.open_error + Z * list PkgFile.entry * Z;
  w_mtree : cstr -> option (list PkgFile.entry * Z);
  w_fnmatch : cstr -> cstr -> Z;
  w_address : cstr -> positive
}.

(** [E_TARGETS]: some targets cannot be used; [pm_errno] is that of one of them,
    or [KUZPKG_ERR_PKG_INVALID]. *)
Inductive error :=
  | E_WRONG_ARGS | E_PKG_NOT_FOUND | E_BADPERMS | E_PKG_OPEN | E_PKG_INVALID_CHECKSUM | E_PKG_MISSING_SIG | E_PKG_INVALID_SIG
  | E_TARGETS | E_PKG_INVALID_NAME | E_SERVER_NONE | E_KEYS | E_SIGFILE | E_LOAD (e : PkgFile.load_error) | E_DOWNLOAD.

Section Validation.
Variable W : world.
Definition readable (path : cstr) : bool := match w_access W path with None => true | Some _ => false end.
(** [_klpm_test_checksum] with a sha256 sum. *)
Definition test_checksum (filepath expected : cstr) : Z :=
  match w_sha256 W filepath with None => -1 | Some computed => if strcmp expected computed =? 0 then 0 else 1 end.
Definition helper (path : cstr) (base64_sig : option cstr) (level : Z) : Z * sig_errno * list sigresult :=
  check_pgp_helper readable (w_init_gpgme W) (w_verify W) (w_fresh_memory W) path base64_sig
    (has level SIG_PACKAGE_OPTIONAL) (has level SIG_PACKAGE_MARGINAL_OK) (has level SIG_PACKAGE_UNKNOWN_OK).

(** [_klpm_pkg_validate_internal] with [*validation == 0]: the validation and
    the signatures, or the error. *)
Inductive verdict := Valid (validation : Z) (rs : list sigresult) | Invalid (e : error) (rs : list sigresult).
Definition pkg_validate_internal (pkgfile : cstr) (syncpkg : option pkg) (level : Z) : verdict :=
  match pkgfile, w_access W pkgfile with
  | [], _ => Invalid E_WRONG_ARGS []
  | _, Some A_ENOENT => Invalid E_PKG_NOT_FOUND []
  | _, Some A_EACCES => Invalid E_BADPERMS []
  | _, Some A_OTHER => Invalid E_PKG_OPEN []
  | _, None =>
      let sig := syncpkg ≫= base64_sig in
      let has_sig := has level SIG_PACKAGE && match sig with Some _ => true | None => readable (sigpath pkgfile) end in
      let skip := has_sig && match sig with Some _ => true | None => false end in
      match (match syncpkg ≫= sha256sum with
             | Some sum => if skip then Some 0
                           else if test_checksum pkgfile sum =? 0 then Some LocalDb.VALIDATION_SHA256SUM else None
             | None => Some 0
             end) with
      | None => Invalid E_PKG_INVALID_CHECKSUM []
      | Some v =>
          let done v rs := Valid (if v =? 0 then LocalDb.VALIDATION_NONE else v) rs in
          if negb (has level SIG_PACKAGE) then done v []
          else if negb has_sig && negb (has level SIG_PACKAGE_OPTIONAL) then Invalid E_PKG_MISSING_SIG []
          else
            let '(ret, _, rs) := helper pkgfile sig level in
            if negb (ret =? 0) then Invalid E_PKG_INVALID_SIG rs
            else done (if has_sig then Z.lor v LocalDb.VALIDATION_SIGNATURE else v) rs
      end
  end.

(** Loading a file in full, or in part. *)
Definition load_internal (path : cstr) (full : bool) : PkgFile.loaded :=
  PkgFile.pkg_load_internal (w_mtree W) (w_fnmatch W) (w_address W path) path (w_archive W path) full.
End Validation.

(** ** Packages of a database *)

Definition with_validation (v : Z) (p : pkg) : pkg := {|
  pkg_id := pkg_id p; name_hash := name_hash p; filename := filename p; base := base p; name := name p; version := version p;
  desc := desc p; url := url p; packager := packager p; sha256sum := sha256sum p; base64_sig := base64_sig p; arch := arch p;
  builddate := builddate p; installdate := installdate p; size := size p; isize := isize p; download_size := download_size p;
  licenses := licenses p; replaces := replaces p; groups := groups p; backups := backups p; depends := depends p;
  optdepends := optdepends p; checkdepends := checkdepends p; makedepends := makedepends p; conflicts := conflicts p;
  provides := provides p; files := files p; origin := origin p; origin_db := origin_db p; origin_file := origin_file p;
  reason := reason p; scriptlet := scriptlet p; pkg_xdata := pkg_xdata p; infolevel := infolevel p; validation := v |}.
Definition with_reason (r : pkgreason) (p : pkg) : pkg := {|
  pkg_id := pkg_id p; name_hash := name_hash p; filename := filename p; base := base p; name := name p; version := version p;
  desc := desc p; url := url p; packager := packager p; sha256sum := sha256sum p; base64_sig := base64_sig p; arch := arch p;
  builddate := builddate p; installdate := installdate p; size := size p; isize := isize p; download_size := download_size p;
  licenses := licenses p; replaces := replaces p; groups := groups p; backups := backups p; depends := depends p;
  optdepends := optdepends p; checkdepends := checkdepends p; makedepends := makedepends p; conflicts := conflicts p;
  provides := provides p; files := files p; origin := origin p; origin_db := origin_db p; origin_file := origin_file p;
  reason := r; scriptlet := scriptlet p; pkg_xdata := pkg_xdata p; infolevel := infolevel p; validation := validation p |}.
(** The end of [download_files]: [infolevel &= ~INFRQ_DSIZE; download_size = 0] *)
Definition INFRQ_DSIZE : Z := 2 ^ 4.
Definition no_download (p : pkg) : pkg := {|
  pkg_id := pkg_id p; name_hash := name_hash p; filename := filename p; base := base p; name := name p; version := version p;
  desc := desc p; url := url p; packager := packager p; sha256sum := sha256sum p; base64_sig := base64_sig p; arch := arch p;
  builddate := builddate p; installdate := installdate p; size := size p; isize := isize p; download_size := 0;
  licenses := licenses p; replaces := replaces p; groups := groups p; backups := backups p; depends := depends p;
  optdepends := optdepends p; checkdepends := checkdepends p; makedepends := makedepends p; conflicts := conflicts p;
  provides := provides p; files := files p; origin := origin p; origin_db := origin_db p; origin_file := origin_file p;
  reason := reason p; scriptlet := scriptlet p; pkg_xdata := pkg_xdata p; infolevel := Db.clear_flag (infolevel p) INFRQ_DSIZE;
  validation := validation p |}.

(** [dep_not_equal] *)
Definition dep_not_equal (left right : depend) : Z :=
  if negb (dep_name_hash left =? dep_name_hash right) || negb (strcmp (dep_name left) (dep_name right) =? 0)
     || negb (bool_decide (dep_mod left = dep_mod right))
     || match dep_version left, dep_version right with
        | None, None => false
        | Some v, Some w => negb (strcmp v w =? 0)
        | _, _ => true
        end
  then 1 else 0.
(** [check_pkg_field_matches_db], its allocation succeeding *)
Definition field_matches {A} (cmp : A -> A -> Z) (left right : list A) : bool := KList.cmp_unsorted cmp true left right =? 1.
(** [check_pkg_matches_db]: [true] is the result 0. *)
Definition check_pkg_matches_db (spkg pkgfile : pkg) : bool :=
  (strcmp (name spkg) (name pkgfile) =? 0) && (strcmp (version spkg) (version pkgfile) =? 0) && (isize spkg =? isize pkgfile) &&
  field_matches dep_not_equal (depends spkg) (depends pkgfile) && field_matches dep_not_equal (conflicts spkg) (conflicts pkgfile) &&
  field_matches dep_not_equal (replaces spkg) (replaces pkgfile) && field_matches dep_not_equal (provides spkg) (provides pkgfile) &&
  field_matches strcmp (groups spkg) (groups pkgfile).

Section Targets.
(** [klpm_db_get_siglevel] of a database by its name. *)
Variable db_siglevel : option cstr -> Z.
Definition siglevel (p : pkg) : Z := db_siglevel (origin_db p).

Definition from_file (p : pkg) : bool := bool_decide (origin p = FROM_FILE).
Section Files.
Variable W : world.
(** The loop of [check_validity]: the targets with their validation, and the
    failures; [None] when a file is not in the cache. *)
Definition failure : Type := pkg * cstr * error * list sigresult.
Fixpoint check_loop (targets : list pkg) : option (list pkg * list failure) :=
  match targets with
  | [] => Some ([], [])
  | p :: targets =>
      if from_file p then '(ps, es) ← check_loop targets; Some (p :: ps, es)
      else
        match w_filecache_find W (filename p) with
        | None => None
        | Some path =>
            match pkg_validate_internal W path (Some p) (siglevel p) with
            | Valid v _ => '(ps, es) ← check_loop targets; Some (with_validation v p :: ps, es)
            | Invalid e rs => '(ps, es) ← check_loop targets; Some (p :: ps, (p, path, e, rs) :: es)
            end
        end
  end.
(** [check_validity]: the targets, or the error and the failures that are
    reported. *)
Definition check_validity (targets : list pkg) : list pkg + error * list failure :=
  match check_loop targets with
  | None => inr (E_PKG_NOT_FOUND, [])
  | Some (ps, []) => inl ps
  | Some (_, es) => inr (E_TARGETS, es)
  end.

(** The loop of [load_packages]: the targets, and the files of those that could
    not be used; [Missing] when a file is not in the cache.  (The pointer to the
    replaced package, kept by address, moves to the loaded one.) *)
Inductive loading := Loading (ps : list pkg) (bad : list cstr) | Missing | Crashed.
Definition and_then (r : loading) (f : list pkg -> list cstr -> loading) : loading :=
  match r with Loading ps bad => f ps bad | r => r end.
Fixpoint load_loop (targets : list pkg) : loading :=
  match targets with
  | [] => Loading [] []
  | p :: targets =>
      if from_file p then and_then (load_loop targets) (fun ps bad => Loading (p :: ps) bad)
      else
        match w_filecache_find W (filename p) with
        | None => Missing
        | Some path =>
            match load_internal W path true with
            | PkgFile.LoadCrash => Crashed
            | PkgFile.Loaded q =>
                if check_pkg_matches_db p q then
                  and_then (load_loop targets) (fun ps bad => Loading (with_validation (validation p) (with_reason (reason p) q) :: ps) bad)
                else and_then (load_loop targets) (fun ps bad => Loading (p :: ps) (path :: bad))
            | PkgFile.LoadFailed _ => and_then (load_loop targets) (fun ps bad => Loading (p :: ps) (path :: bad))
            end
        end
  end.
End Files.

(** [find_dl_candidates]; [servers] is whether the database of a package has
    one. *)
Variable servers : pkg -> bool.
Definition cached (W : world) (f : cstr) : bool := match w_filecache_find W (Some f) with Some _ => true | None => false end.
Fixpoint find_dl_candidates (W : world) (targets : list pkg) : list pkg + error :=
  match targets with
  | [] => inl []
  | p :: targets =>
      if from_file p then find_dl_candidates W targets
      else if negb (servers p) then inr E_SERVER_NONE
      else
        match filename p with
        | None => inr E_PKG_INVALID_NAME
        | Some f =>
            let need := negb (download_size p =? 0) || negb (cached W f) in
            let need := if negb need && has (siglevel p) SIG_PACKAGE then negb (cached W (sigpath f)) else need in
            match find_dl_candidates W targets with
            | inl ps => inl (if need then p :: ps else ps)
            | inr e => inr e
            end
        end
  end.

(** ** The keyring *)

(** [_klpm_key_in_keychain] and [_klpm_key_import] change what GPGME knows;
    [sig_fuel] bounds the packets of a signature. *)
Variables (key_in_keychain : world -> cstr -> Z * world) (key_import : world -> option cstr -> option cstr -> Z * world) (sig_fuel : nat).

(** [klpm_pkg_get_sig] *)
Definition octets (d : list Z) : cstr := (fun z => ascii_of_nat (Z.to_nat z)) <$> d.
Definition get_sig (W : world) (p : pkg) : option cstr :=
  match base64_sig p with
  | Some b => match decode_signature b with
              | SigData d => Some (octets d)
              | SigUninitialised n => Some (octets (w_fresh_memory W n))
              | SigInvalid | SigOverrun => None
              end
  | None =>
      path ← w_filecache_find W (filename p);
      if readable W (sigpath path) then w_sigfile W (sigpath path) else None
  end.
(** The loop of [check_keyring] over the keys of a signature: those that are not
    there, with the packager; [None] is the copy of a missing packager. *)
Fixpoint missing_keys (W : world) (keys : list cstr) (packager : option cstr) (errors : list (cstr * cstr)) : option (world * list (cstr * cstr)) :=
  match keys with
  | [] => Some (W, errors)
  | key :: keys =>
      if existsb (fun e => strcmp e.2 key =? 0) errors then missing_keys W keys packager errors
      else
        let '(r, W) := key_in_keychain W key in
        if r =? 0 then uid ← packager; missing_keys W keys packager (errors ++ [(uid, key)])
        else missing_keys W keys packager errors
  end.
Fixpoint keyring_loop (W : world) (targets : list pkg) (errors : list (cstr * cstr)) : option (world * list (cstr * cstr)) :=
  match targets with
  | [] => Some (W, errors)
  | p :: targets =>
      if from_file p || negb (has (siglevel p) SIG_PACKAGE) then keyring_loop W targets errors
      else
        match get_sig W p with
        | None => keyring_loop W targets errors
        | Some sig =>
            match KeyId.extract_keyid sig_fuel sig with
            | KeyId.Val keys => '(W, errors) ← missing_keys W keys (packager p) errors; keyring_loop W targets errors
            | KeyId.Fail => keyring_loop W targets errors
            | KeyId.Oob _ | KeyId.NoFuel => None
            end
        end
  end.
Fixpoint import_all (W : world) (errors : list (cstr * cstr)) (fail : bool) : world * bool :=
  match errors with
  | [] => (W, fail)
  | (uid, key) :: errors => let '(r, W) := key_import W (Some uid) (Some key) in import_all W errors (fail || (r =? -1))
  end.
(** [check_keyring]: whether it returns 0; [None] is undefined behaviour. *)
Definition check_keyring (W : world) (targets : list pkg) : option (bool * world) :=
  '(W, errors) ← keyring_loop W targets [];
  let '(W, fail) := import_all W errors false in Some (negb fail, W).

(** ** Loading *)

(** [download_files]: the download directory, [_klpm_check_downloadspace] on the
    sizes when space is checked, and [_klpm_download], which may change what is in
    the cache also when it fails. *)
Variables (download_dir : bool) (checkspace : option (list Z -> bool)) (download : list pkg -> world -> Z * world).
Definition download_files (W : world) (targets : list pkg) : Z * world :=
  if negb download_dir then (-1, W)
  else
    match find_dl_candidates W targets with
    | inr _ => (-1, W)
    | inl [] => (0, W)
    | inl fs =>
        if match checkspace with Some ok => ok (download_size <$> fs) | None => true end then download fs W else (-1, W)
    end.

(** [_klpm_sync_load]: the targets after it and the world; with
    [DOWNLOADONLY] they are not loaded. *)
Inductive result := Done (targets : list pkg) (W : world) | Failed (e : error) | Undefined.
Definition sync_load (downloadonly : bool) (W : world) (targets : list pkg) : result :=
  let '(r, W) := download_files W targets in
  let targets := no_download <$> targets in
  if r =? -1 then Failed E_DOWNLOAD
  else
    match check_keyring W targets with
    | None => Undefined
    | Some (false, _) => Failed E_KEYS
    | Some (true, W) =>
        match check_validity W targets with
        | inr (e, _) => Failed e
        | inl targets =>
            if downloadonly then Done targets W
            else
              match load_loop W targets with
              | Crashed => Undefined
              | Missing => Failed E_PKG_NOT_FOUND
              | Loading targets [] => Done targets W
              | Loading _ _ => Failed E_TARGETS
              end
        end
    end.

(** ** Files the user names *)

(** The loop of [klpm_pkg_load] over the keys of the signature: the world and
    whether an import failed; [None] is undefined behaviour. *)
Fixpoint import_keys (W : world) (filename : cstr) (full : bool) (keys : list cstr) (fail : bool) : option (world * bool) :=
  match keys with
  | [] => Some (W, fail)
  | key :: keys =>
      let '(r, W) := key_in_keychain W key in
      if r =? 0 then
        match load_internal W filename full with
        | PkgFile.LoadCrash => None
        | _ => let '(i, W) := key_import W None (Some key) in import_keys W filename full keys (fail || (i =? -1))
        end
      else import_keys W filename full keys fail
  end.
(** [klpm_pkg_load] *)
Inductive single := Single (p : pkg) (W : world) | SingleFailed (e : error) | SingleUndefined.
Definition pkg_load (W : world) (filename : cstr) (full : bool) (level : Z) : single :=
  match (if readable W (sigpath filename) && has level SIG_PACKAGE then
           match w_sigfile W (sigpath filename) with
           | None => Some (inr E_SIGFILE)
           | Some sig =>
               match KeyId.extract_keyid sig_fuel sig with
               | KeyId.Val keys => r ← import_keys W filename full keys false; let '(W, fail) := r : world * bool in Some (if fail then inr E_KEYS else inl W)
               | KeyId.Fail => Some (inl W)
               | KeyId.Oob _ | KeyId.NoFuel => None
               end
           end
         else Some (inl W)) with
  | None => SingleUndefined
  | Some (inr e) => SingleFailed e
  | Some (inl W) =>
      match pkg_validate_internal W filename None level with
      | Invalid e _ => SingleFailed e
      | Valid v _ =>
          match load_internal W filename full with
          | PkgFile.Loaded p => Single (with_validation v p) W
          | PkgFile.LoadFailed e => SingleFailed (E_LOAD e)
          | PkgFile.LoadCrash => SingleUndefined
          end
      end
  end.
End Targets.

(** ** The policy *)

Section Policy.
Context (W : world).
Notation checksig := (gpgme_checksig (readable W) (w_init_gpgme W) (w_verify W) (w_fresh_memory W)).

(** A signature that is good enough for a level. *)
Definition trusted (level : Z) (r : sigresult) : Prop :=
  (r_status r = SIG_VALID \/ r_status r = SIG_KEY_EXPIRED) /\
  (r_validity r = VALIDITY_FULL \/ r_validity r = VALIDITY_MARGINAL /\ has level SIG_PACKAGE_MARGINAL_OK = true \/
   r_validity r = VALIDITY_UNKNOWN /\ has level SIG_PACKAGE_UNKNOWN_OK = true).
Definition signed (level : Z) (path : cstr) (sig : option cstr) : Prop :=
  exists rs, checksig path sig = (0, SIG_OK, rs) /\ rs <> [] /\ Forall (trusted level) rs.
Definition unsigned (path : cstr) (sig : option cstr) : Prop := exists rs, checksig path sig = (-1, ERR_SIG_MISSING, rs).
(** What a package file must satisfy to be used. *)
Record verified (level : Z) (syncpkg : option pkg) (path : cstr) : Prop := {
  v_readable : path <> [] /\ readable W path = true;
  v_signature : has level SIG_PACKAGE = true ->
    signed level path (syncpkg ≫= base64_sig) \/
    has level SIG_PACKAGE_OPTIONAL = true /\ unsigned path (syncpkg ≫= base64_sig);
  v_checksum sum : syncpkg ≫= sha256sum = Some sum ->
    w_sha256 W path = Some sum \/ has level SIG_PACKAGE = true /\ is_Some (syncpkg ≫= base64_sig)
}.

Lemma sig_accepted_spec level r :
  sig_accepted (has level SIG_PACKAGE_MARGINAL_OK) (has level SIG_PACKAGE_UNKNOWN_OK) r = true <-> trusted level r.
Proof.
  unfold sig_accepted, trusted. destruct (r_status r), (r_validity r), (has level SIG_PACKAGE_MARGINAL_OK), (has level SIG_PACKAGE_UNKNOWN_OK);
    intuition congruence.
Qed.
Lemma checksig_zero path sig ret e rs : checksig path sig = (ret, e, rs) ->
  ret = 0 /\ e = SIG_OK /\ rs <> [] \/ ret = -1.
Proof.
  unfold gpgme_checksig. destruct (negb _); [intros [= <- <- <-]; auto|]. destruct (match sig with Some _ => _ | None => _ end); [intros [= <- <- <-]; auto|].
  destruct (w_init_gpgme W); [intros [= <- <- <-]; auto|]. destruct (sig_source _ _ _); [|intros [= <- <- <-]; auto].
  destruct (w_verify W path _) as [[|g gs]|]; [intros [= <- <- <-]; auto| |intros [= <- <- <-]; auto].
  cbn [sig_results]. destruct (sig_result g); [destruct (sig_results gs) as [rs' []]|]; intros [= <- <- <-]; auto.
Qed.
Lemma helper_zero path sig level e rs : helper W path sig level = (0, e, rs) ->
  signed level path sig \/ has level SIG_PACKAGE_OPTIONAL = true /\ unsigned path sig.
Proof.
  unfold helper, check_pgp_helper, signed, unsigned. destruct (checksig path sig) as [[ret e0] rs0] eqn:E.
  apply checksig_zero in E as Hc. destruct Hc as [(-> & -> & Hne)| ->]; cbn [negb Z.eqb andb].
  - destruct (forallb _ rs0) eqn:Ef; [|done]. intros _. left. exists rs0. split_and!; [done|done|]. apply Forall_forall. intros r Hr.
    rewrite forallb_forall in Ef. apply sig_accepted_spec, Ef. by apply list_elem_of_In.
  - change (-1 =? 0) with false. cbn [negb andb]. destruct (bool_decide (e0 = ERR_SIG_MISSING)) eqn:Em; [|done].
    apply bool_decide_eq_true in Em. subst e0. destruct (has level SIG_PACKAGE_OPTIONAL); [|done]. intros _. right. eauto.
Qed.

Lemma valid_verified path syncpkg level v rs : pkg_validate_internal W path syncpkg level = Valid v rs -> verified level syncpkg path.
Proof.
  unfold pkg_validate_internal. destruct path as [|c path]; [done|]. destruct (w_access W (c :: path)) as [[]|] eqn:Ea; try done.
  set (pf := c :: path) in *. set (sig := syncpkg ≫= base64_sig).
  assert (pf <> [] /\ readable W pf = true) as Hread by (unfold readable; by rewrite Ea).
  set (has_sig := has level SIG_PACKAGE && _). set (skip := has_sig && _).
  destruct (match syncpkg ≫= sha256sum with Some _ => _ | None => _ end) as [v0|] eqn:Es; [|done]. intros H.
  assert (forall sum, syncpkg ≫= sha256sum = Some sum -> w_sha256 W pf = Some sum \/ has level SIG_PACKAGE = true /\ is_Some sig) as Hsum.
  { intros sum E. rewrite E in Es. destruct skip eqn:Ek.
    - right. unfold skip in Ek. destruct sig as [x|]; [|by rewrite andb_false_r in Ek]. unfold has_sig in Ek.
      destruct (has level SIG_PACKAGE); [|done]. split; [done|by eexists].
    - left. destruct (Z.eqb_spec (test_checksum W pf sum) 0) as [Et|]; [|done]. unfold test_checksum in Et.
      destruct (w_sha256 W pf) as [h|]; [|done]. destruct (Z.eqb_spec (strcmp sum h) 0) as [->%strcmp_eq|]; done. }
  split; [done| |done]. intros Hp. rewrite Hp in H. cbn [negb] in H. destruct (negb has_sig && _); [done|].
  destruct (helper W pf sig level) as [[ret e] rs'] eqn:Eh. destruct (Z.eqb_spec ret 0) as [->|]; [|done]. by eapply helper_zero.
Qed.
End Policy.

(** The fields of the file agree with those of the database entry. *)
Definition dep_key (d : depend) : Z * cstr * depmod * option cstr := (dep_name_hash d, dep_name d, dep_mod d, dep_version d).
#[global] Instance dep_not_equal_key : CmpKey dep_not_equal dep_key.
Proof.
  intros x y. unfold dep_not_equal, dep_key. destruct (Z.eqb_spec (dep_name_hash x) (dep_name_hash y)), (Z.eqb_spec (strcmp (dep_name x) (dep_name y)) 0) as [E%strcmp_eq|E];
    cbn [negb orb]; try (split; [done|intros [= ? ? ? ?]; try congruence; destruct E; congruence || (apply strcmp_eq; congruence)]).
  - destruct (decide (dep_mod x = dep_mod y)) as [Em|Em]; [rewrite bool_decide_eq_true_2 by done|rewrite bool_decide_eq_false_2 by done]; cbn [negb orb]; [|split; [done|congruence]].
    destruct (dep_version x) as [v|], (dep_version y) as [w|]; [|split; [done|congruence]..|split; [intros _; congruence|done]].
    destruct (Z.eqb_spec (strcmp v w) 0) as [Ev%strcmp_eq|Ev]; cbn [negb]; split; [intros _; congruence|done|done|intros [= ? ? ? ->]]. destruct Ev. by apply strcmp_eq.
Qed.
Record matches (spkg p : pkg) : Prop := {
  m_ids : name p = name spkg /\ version p = version spkg /\ isize p = isize spkg;
  m_depends : dep_key <$> depends spkg ≡ₚ dep_key <$> depends p;
  m_conflicts : dep_key <$> conflicts spkg ≡ₚ dep_key <$> conflicts p;
  m_replaces : dep_key <$> replaces spkg ≡ₚ dep_key <$> replaces p;
  m_provides : dep_key <$> provides spkg ≡ₚ dep_key <$> provides p;
  m_groups : groups spkg ≡ₚ groups p
}.
Lemma field_matches_spec {A K} (cmp : A -> A -> Z) (key : A -> K) `{!CmpKey cmp key} l r : field_matches cmp l r = true <-> key <$> l ≡ₚ key <$> r.
Proof. unfold field_matches. rewrite Z.eqb_eq. destruct (KList.cmp_unsorted_cases cmp key l r) as [[-> ?]|[-> ?]]; split; done. Qed.
Lemma matches_spec spkg p : check_pkg_matches_db spkg p = true <-> matches spkg p.
Proof.
  unfold check_pkg_matches_db. rewrite !andb_true_iff, !Z.eqb_eq, !strcmp_eq, !(field_matches_spec dep_not_equal dep_key), (field_matches_spec strcmp (fun s => s)), !list_fmap_id.
  split; [intros (((((((? & ?) & ?) & ?) & ?) & ?) & ?) & ?); by split|]. intros [(? & ? & ?) ? ? ? ? ?]. by split_and!.
Qed.

(** ** Loading the targets *)

(** How a target of the transaction becomes the package that is installed. *)
Definition loaded_from (db_siglevel : option cstr -> Z) (W : world) (t p : pkg) : Prop :=
  if from_file t then p = no_download t
  else exists path q v, w_filecache_find W (filename t) = Some path /\ verified W (db_siglevel (origin_db t)) (Some t) path /\
         load_internal W path true = PkgFile.Loaded q /\ matches t q /\ p = with_validation v (with_reason (reason t) q) /\
         pkg_hashed p /\ PkgFile.meta_ok p.

Section Loading.
Context (db_siglevel : option cstr -> Z) (W : world).

(** What validation leaves of a target. *)
Definition validated (t p : pkg) : Prop :=
  if from_file t then p = t
  else exists path v, w_filecache_find W (filename t) = Some path /\ verified W (db_siglevel (origin_db t)) (Some t) path /\ p = with_validation v t.
Lemma check_loop_spec ts : forall ps, check_loop db_siglevel W ts = Some (ps, []) -> Forall2 validated ts ps.
Proof.
  induction ts as [|t ts IH]; intros ps; cbn [check_loop]; [intros [= <-]; constructor|]. destruct (from_file t) eqn:Ef.
  { destruct (check_loop db_siglevel W ts) as [[ps' es]|]; [|done]. cbn [mbind option_bind]. intros [= <- ->]. constructor; [unfold validated; by rewrite Ef|by apply IH]. }
  destruct (w_filecache_find W (filename t)) as [path|] eqn:Ep; [|done].
  destruct (pkg_validate_internal W path (Some t) (siglevel db_siglevel t)) as [v rs|e rs] eqn:Ev;
    (destruct (check_loop db_siglevel W ts) as [[ps' es]|]; [|done]); cbn [mbind option_bind]; [intros [= <- ->]|done].
  constructor; [|by apply IH]. unfold validated. rewrite Ef. exists path, v. split_and!; [done|by eapply valid_verified|done].
Qed.

Definition placed (t p : pkg) : Prop :=
  if from_file t then p = t
  else exists path q, w_filecache_find W (filename t) = Some path /\ load_internal W path true = PkgFile.Loaded q /\
         matches t q /\ p = with_validation (validation t) (with_reason (reason t) q).
Lemma load_loop_spec ts : forall ps, load_loop W ts = Loading ps [] -> Forall2 placed ts ps.
Proof.
  induction ts as [|t ts IH]; intros ps; cbn [load_loop]; [intros [= <-]; constructor|]. destruct (from_file t) eqn:Ef.
  { destruct (load_loop W ts) as [ps' bad| |]; cbn [and_then]; try done. intros [= <- ->]. constructor; [unfold placed; by rewrite Ef|by apply IH]. }
  destruct (w_filecache_find W (filename t)) as [path|] eqn:Ep; [|done]. destruct (load_internal W path true) as [q|e|] eqn:El; [| |done].
  - destruct (check_pkg_matches_db t q) eqn:Em; (destruct (load_loop W ts) as [ps' bad| |]; cbn [and_then]; try done). intros [= <- ->].
    constructor; [|by apply IH]. unfold placed. rewrite Ef. exists path, q. split_and!; [done|done|by apply matches_spec|done].
  - by destruct (load_loop W ts).
Qed.

Lemma validated_placed t p r : validated (no_download t) p -> placed p r -> loaded_from db_siglevel W t r.
Proof.
  unfold validated, placed, loaded_from. change (from_file (no_download t)) with (from_file t). destruct (from_file t) eqn:Ef.
  { intros ->. change (from_file (no_download t)) with (from_file t). by rewrite Ef. }
  intros (path & v & Ep & Hv & ->). change (from_file (with_validation v (no_download t))) with (from_file t). rewrite Ef.
  intros (path' & q & Ep' & El & Hm & ->). change (filename (with_validation v (no_download t))) with (filename (no_download t)) in Ep'. rewrite Ep in Ep'.
  injection Ep' as <-. exists path, q, v. destruct (PkgFile.load_wellformed (w_mtree W) (w_fnmatch W) _ _ _ _ _ El) as (Hh & _ & _ & Hmeta & _).
  split_and!; [done| |done| |done|done|done].
  - destruct Hv as [V1 V2 V3]. by split.
  - by destruct Hm.
Qed.
End Loading.

(** C6: when [_klpm_sync_load] returns 0, every target from a repository stands for a
    readable file of the cache that passed the checks the level of its database asks
    for.  If the level asks for signatures, all the file's signatures are trusted at
    that level, or there is none and they are optional.  The file has the checksum of
    the entry, unless the level asks for signatures and the entry carries signature
    data, which then take its place (so where signatures are optional, signature data
    that hold no signature leave the file unchecked: [empty_signature_skips_checksum]).
    When not only downloading, the target has been replaced by the content of this
    file, which agrees with the entry in name, version, installed size, dependencies,
    conflicts, replacements, provisions and groups and passed the checks on metadata;
    when only downloading, only its record of the validation changed.  Targets that
    were loaded from files before are kept. *)
Theorem sync_load_verified db_siglevel servers key_in_keychain key_import sig_fuel download_dir checkspace download downloadonly W0 targets ps W
    (H : sync_load db_siglevel servers key_in_keychain key_import sig_fuel download_dir checkspace download downloadonly W0 targets = Done ps W) :
  if downloadonly then Forall2 (validated db_siglevel W) (no_download <$> targets) ps
  else Forall2 (loaded_from db_siglevel W) targets ps.
Proof.
  unfold sync_load in H. destruct (download_files _ _ _ _ _ W0 targets) as [r W1]. destruct (r =? -1); [done|].
  destruct (check_keyring _ _ _ _ W1 _) as [[[] W2]|]; try done. unfold check_validity in H.
  destruct (check_loop db_siglevel W2 (no_download <$> targets)) as [[ps1 [|e es]]|] eqn:Ec; try done. apply check_loop_spec in Ec.
  destruct downloadonly; [by injection H as <- <-|].
  destruct (load_loop W2 ps1) as [ps2 [|b bad]| |] eqn:El; try done. injection H as <- <-. apply load_loop_spec in El.
  clear -Ec El. revert ps1 ps2 Ec El. induction targets as [|t ts IH]; intros ps1 ps2 Ec El.
  - apply Forall2_nil_inv_l in Ec as ->. apply Forall2_nil_inv_l in El as ->. constructor.
  - apply Forall2_cons_inv_l in Ec as (p & ps1' & Hp & Ec & ->). apply Forall2_cons_inv_l in El as (q & ps2' & Hq & El & ->).
    constructor; [by eapply validated_placed|by eapply IH].
Qed.

(** A file the user names is held to the level given, too. *)
Theorem pkg_load_verified key_in_keychain key_import sig_fuel W0 filename full level p W
    (H : pkg_load key_in_keychain key_import sig_fuel W0 filename full level = Single p W) :
  verified W level None filename /\ exists q v, load_internal W filename full = PkgFile.Loaded q /\ p = with_validation v q.
Proof.
  unfold pkg_load in H. destruct (if _ && _ then _ else _) as [[W1|e]|]; try done.
  destruct (pkg_validate_internal W1 filename None level) as [v rs|] eqn:Ev; [|done]. destruct (load_internal W1 filename full) as [q| |] eqn:El; try done.
  injection H as <- <-. split; [by eapply valid_verified|eauto].
Qed.

(** ** Examples *)

Definition ex_path : cstr := lit "/cache/foo.pkg".
Definition ex_entry (sum : string) (sig packager : option cstr) : pkg := {|
  pkg_id := 7; name_hash := hash_sdbm (lit "foo"); filename := Some (lit "foo.pkg"); base := None; name := lit "foo"; version := lit "1.0-1";
  desc := None; url := None; packager := packager; sha256sum := Some (lit sum); base64_sig := sig; arch := None; builddate := 0;
  installdate := 0; size := 999; isize := 4096; download_size := 0; licenses := []; replaces := []; groups := []; backups := [];
  depends := [Deps.dep_from_string (lit "baz"); Deps.dep_from_string (lit "bar>=2")]; optdepends := []; checkdepends := []; makedepends := [];
  conflicts := []; provides := []; files := []; origin := FROM_SYNCDB; origin_db := Some (lit "core"); origin_file := None;
  reason := REASON_DEPEND; scriptlet := false; pkg_xdata := []; infolevel := 0; validation := 0 |}.
Definition ex_archive : PkgFile.open_error + Z * list PkgFile.entry * Z :=
  inr (999, PkgFile.info_entry PkgFile.ex_blocks :: PkgFile.ex_members, 1).
Definition ex_world (sigs : list gpgsig) (sigfile : option cstr) : world :=
  World (fun _ => None) None (fun _ _ => Some sigs) (fun _ => []) (fun _ => Some (lit "abc"))
    (fun f => match f with Some f => Some (lit "/cache/" ++ f) | None => None end) (fun _ => sigfile)
    (fun path => if decide (path = ex_path) then ex_archive else inl PkgFile.ENOENT) PkgFile.ex_mtree PkgFile.ex_fnmatch (fun _ => 9%positive).
Definition ex_sig : gpgsig := GpgSig (lit "FPR") GPG_NO_ERROR GPG_FULL (Key (lit "FPR") (Some (lit "dev <dev@x>")) false).
Definition ex_known (W : world) (key : cstr) : Z * world := (1, W).
Definition ex_unknown (W : world) (key : cstr) : Z * world := (0, W).
Definition ex_import (W : world) (uid fpr : option cstr) : Z * world := (0, W).
Definition ex_load (level : Z) (W : world) (p : pkg) : result :=
  sync_load (fun _ => level) (fun _ => true) ex_known ex_import 5 true None (fun _ W => (0, W)) false W [p].

(** An entry with a signature, at a level that requires it, and one without, at a
    level where it is optional: its checksum is compared. *)
Lemma sync_load_witness :
  (exists p W, ex_load SIG_PACKAGE (ex_world [ex_sig] None) (ex_entry "abc" (Some (lit "AQID")) None) = Done [p] W /\
    signed W SIG_PACKAGE ex_path (Some (lit "AQID")) /\ name p = lit "foo" /\ validation p = LocalDb.VALIDATION_SIGNATURE) /\
  exists p W, ex_load (SIG_PACKAGE + SIG_PACKAGE_OPTIONAL) (ex_world [] None) (ex_entry "abc" None None) = Done [p] W /\
    w_sha256 W ex_path = Some (lit "abc") /\ name p = lit "foo" /\ reason p = REASON_DEPEND.
Proof.
  split; eexists _, _; (split; [vm_compute; reflexivity|]); (split; [|split; vm_compute; reflexivity]).
  - pose proof (sync_load_verified (fun _ => SIG_PACKAGE) (fun _ => true) ex_known ex_import 5 true None (fun _ W => (0, W)) false (ex_world [ex_sig] None)
      [ex_entry "abc" (Some (lit "AQID")) None] _ _ ltac:(vm_compute; reflexivity)) as H.
    apply Forall2_cons in H as [H _]. unfold loaded_from in H. change (from_file _) with false in H.
    destruct H as (path & q & v & Ep & [_ Hv _] & _). injection Ep as <-. destruct (Hv eq_refl) as [Hs|[? _]]; [exact Hs|done].
  - pose proof (sync_load_verified (fun _ => SIG_PACKAGE + SIG_PACKAGE_OPTIONAL) (fun _ => true) ex_known ex_import 5 true None (fun _ W => (0, W)) false (ex_world [] None)
      [ex_entry "abc" None None] _ _ ltac:(vm_compute; reflexivity)) as H.
    apply Forall2_cons in H as [H _]. unfold loaded_from in H. change (from_file _) with false in H.
    destruct H as (path & q & v & Ep & [_ _ Hv] & _). injection Ep as <-. destruct (Hv _ eq_refl) as [Hs|[_ [? [=]]]]; exact Hs.
Defined.

Lemma pkg_load_witness :
  exists p W, pkg_load ex_known ex_import 5 (ex_world [ex_sig] (Some (lit "x"))) ex_path true SIG_PACKAGE = Single p W /\ verified W SIG_PACKAGE None ex_path.
Proof.
  eexists _, _. split; [vm_compute; reflexivity|].
  apply (pkg_load_verified ex_known ex_import 5 (ex_world [ex_sig] (Some (lit "x"))) ex_path true SIG_PACKAGE _ _ ltac:(vm_compute; reflexivity)).
Defined.

(** Where signatures are optional, an entry whose signature data hold no
    signature makes both checks pass: the checksum is skipped because there is a
    signature, and the signature is missing but optional.  The package counts as
    validated by a signature. *)
Theorem empty_signature_skips_checksum :
  pkg_validate_internal (ex_world [] None) ex_path (Some (ex_entry "wrong" (Some (lit "AQID")) None)) (SIG_PACKAGE + SIG_PACKAGE_OPTIONAL) =
  Valid LocalDb.VALIDATION_SIGNATURE [] /\
  test_checksum (ex_world [] None) ex_path (lit "wrong") <> 0.
Proof. split; vm_compute; done. Qed.

End Validate.
