(* ===== verification/Dload.v ===== *)
(** * Downloads ([dload.c])

    [curl_download_internal] keeps several transfers of libcurl going at once,
    moves a failed transfer to the next server, blocks servers with too many
    errors, and fetches signatures after their files; [_klpm_download] runs it in
    a sandbox or hands the files to an external program and moves the results to
    the cache.  libcurl is an environment: it decides in each round of the loop
    what happens to the transfers that are running.  The files are a map from
    names to contents. *)

From S2P Require Import Prelude CStr Util KList Package.
Local Open Scope Z_scope.

Module Dload.

(** ** Payloads *)

(** [struct dload_payload]; [y_id] is its address, [y_localf] whether the
    temporary file is open. *)
Record payload := Payload {
  y_id : positive; y_remote_name : cstr; y_tempfile_name : cstr; y_destfile_name : option cstr;
  y_fileurl : option cstr; y_filepath : option cstr; y_cache_servers : list cstr; y_servers : list cstr;
  y_respcode : Z; y_mtime_existing_file : Z; y_initial_size : Z; y_max_size : Z;
  y_force : bool; y_allow_resume : bool; y_errors_ok : bool; y_unlink_on_fail : bool;
  y_download_signature : bool; y_signature_optional : bool; y_signature : bool; y_request_errors_ok : bool;
  y_localf : bool }.

#[global] Instance payload_eq_dec : EqDecision payload.
Proof. solve_decision. Defined.

Definition set_fileurl (u : cstr) (p : payload) : payload :=
  Payload (y_id p) (y_remote_name p) (y_tempfile_name p) (y_destfile_name p) (Some u) (y_filepath p) (y_cache_servers p) (y_servers p)
    (y_respcode p) (y_mtime_existing_file p) (y_initial_size p) (y_max_size p) (y_force p) (y_allow_resume p) (y_errors_ok p)
    (y_unlink_on_fail p) (y_download_signature p) (y_signature_optional p) (y_signature p) (y_request_errors_ok p) (y_localf p).
Definition set_servers (cs ss : list cstr) (ok : bool) (p : payload) : payload :=
  Payload (y_id p) (y_remote_name p) (y_tempfile_name p) (y_destfile_name p) (y_fileurl p) (y_filepath p) cs ss
    (y_respcode p) (y_mtime_existing_file p) (y_initial_size p) (y_max_size p) (y_force p) (y_allow_resume p) (y_errors_ok p)
    (y_unlink_on_fail p) (y_download_signature p) (y_signature_optional p) (y_signature p) ok (y_localf p).
Definition set_respcode (r : Z) (p : payload) : payload :=
  Payload (y_id p) (y_remote_name p) (y_tempfile_name p) (y_destfile_name p) (y_fileurl p) (y_filepath p) (y_cache_servers p) (y_servers p)
    r (y_mtime_existing_file p) (y_initial_size p) (y_max_size p) (y_force p) (y_allow_resume p) (y_errors_ok p)
    (y_unlink_on_fail p) (y_download_signature p) (y_signature_optional p) (y_signature p) (y_request_errors_ok p) (y_localf p).
Definition set_mtime (t : Z) (p : payload) : payload :=
  Payload (y_id p) (y_remote_name p) (y_tempfile_name p) (y_destfile_name p) (y_fileurl p) (y_filepath p) (y_cache_servers p) (y_servers p)
    (y_respcode p) t (y_initial_size p) (y_max_size p) (y_force p) (y_allow_resume p) (y_errors_ok p)
    (y_unlink_on_fail p) (y_download_signature p) (y_signature_optional p) (y_signature p) (y_request_errors_ok p) (y_localf p).
Definition set_initial_size (z : Z) (p : payload) : payload :=
  Payload (y_id p) (y_remote_name p) (y_tempfile_name p) (y_destfile_name p) (y_fileurl p) (y_filepath p) (y_cache_servers p) (y_servers p)
    (y_respcode p) (y_mtime_existing_file p) z (y_max_size p) (y_force p) (y_allow_resume p) (y_errors_ok p)
    (y_unlink_on_fail p) (y_download_signature p) (y_signature_optional p) (y_signature p) (y_request_errors_ok p) (y_localf p).
Definition set_unlink_on_fail (p : payload) : payload :=
  Payload (y_id p) (y_remote_name p) (y_tempfile_name p) (y_destfile_name p) (y_fileurl p) (y_filepath p) (y_cache_servers p) (y_servers p)
    (y_respcode p) (y_mtime_existing_file p) (y_initial_size p) (y_max_size p) (y_force p) (y_allow_resume p) (y_errors_ok p)
    true (y_download_signature p) (y_signature_optional p) (y_signature p) (y_request_errors_ok p) (y_localf p).
Definition set_localf (p : payload) : payload :=
  Payload (y_id p) (y_remote_name p) (y_tempfile_name p) (y_destfile_name p) (y_fileurl p) (y_filepath p) (y_cache_servers p) (y_servers p)
    (y_respcode p) (y_mtime_existing_file p) (y_initial_size p) (y_max_size p) (y_force p) (y_allow_resume p) (y_errors_ok p)
    (y_unlink_on_fail p) (y_download_signature p) (y_signature_optional p) (y_signature p) (y_request_errors_ok p) true.

(** ** Servers and their errors *)

(** [curl_gethost] with a buffer of [buf_len] bytes; [None] is the result 1.
    The loop looks for the last '@' behind the first character of the host. *)
Definition curl_gethost (url : cstr) (buf_len : nat) : option cstr :=
  let host :=
    if strncmp_eq url (lit "file://") 7 then Some (lit "disk")
    else
      i ← strstr url (lit "//");
      let host := (span (fun c => negb (bool_decide (c = "/"%char))) (drop (i + 2) url)).1 in
      Some (match host with
            | [] => []
            | c :: rest => match Util.strrchr rest "@"%char with Some (_, b) => b | None => host end
            end) in
  h ← host; if (buf_len - 1 <? length h)%nat then None else Some h.
Definition HOSTNAME_SIZE : nat := 256.
Definition server_error_limit : Z := 3.

(** [handle->server_errors] *)
Definition errors := list (cstr * Z).
Fixpoint count_of (es : errors) (hostname : cstr) : option Z :=
  match es with
  | [] => None
  | (h, n) :: es => if strcmp hostname h =? 0 then Some n else count_of es hostname
  end.
Fixpoint set_count (es : errors) (hostname : cstr) (n : Z) : errors :=
  match es with
  | [] => []
  | (h, m) :: es => if strcmp hostname h =? 0 then (h, n) :: es else (h, m) :: set_count es hostname n
  end.
(** [find_server_errors]: the host and its count, which is created; [None] for
    an address without a host. *)
Definition find_server_errors (es : errors) (server : cstr) : option (cstr * Z) * errors :=
  match curl_gethost server HOSTNAME_SIZE with
  | None => (None, es)
  | Some h =>
      match count_of es h with
      | Some n => (Some (h, n), es)
      | None => (Some (h, 0), es ++ [(h, 0)])
      end
  end.
Definition should_skip_server (es : errors) (server : cstr) : bool * errors :=
  let '(r, es) := find_server_errors es server in
  (match r with Some (_, n) => (n <? 0) || (server_error_limit <=? n) | None => false end, es).
Definition should_skip_cache_server (es : errors) (server : cstr) : bool * errors :=
  let '(r, es) := find_server_errors es server in
  (match r with Some (_, n) => n <? 0 | None => false end, es).
Definition server_soft_error (es : errors) (server : cstr) : errors :=
  let '(r, es) := find_server_errors es server in
  match r with
  | Some (h, n) => let '(skip, es) := should_skip_server es server in if skip then es else set_count es h (n + 1)
  | None => es
  end.
Definition server_hard_error (es : errors) (server : cstr) : errors :=
  let '(r, es) := find_server_errors es server in
  match r with Some (h, n) => if n =? -1 then es else set_count es h (-1) | None => es end.

(** The loops of [payload_next_server]: the servers from the first that is not
    skipped. *)
Fixpoint skip_servers (skip : errors -> cstr -> bool * errors) (es : errors) (l : list cstr) : list cstr * errors :=
  match l with
  | [] => ([], es)
  | s :: l' => let '(b, es) := skip es s in if b then skip_servers skip es l' else (l, es)
  end.
Definition payload_next_server (es : errors) (p : payload) : option cstr * errors * payload :=
  let '(cs, es) := skip_servers should_skip_cache_server es (y_cache_servers p) in
  match cs with
  | server :: cs => (Some server, es, set_servers cs (y_servers p) true p)
  | [] =>
      let '(ss, es) := skip_servers should_skip_server es (y_servers p) in
      match ss with
      | server :: ss => (Some server, es, set_servers [] ss (y_errors_ok p) p)
      | [] => (None, es, set_servers [] [] (y_request_errors_ok p) p)
      end
  end.

(** ** The state of a download *)

(** [s_running] are the transfers in the multi handle of libcurl; [s_next] is the
    address of the next payload for a signature.  The last three record what
    happened: the results the download callback is told, the addresses requested,
    and the payloads whose temporary file was complete at the start. *)
Record st := St {
  s_errors : errors; s_interrupted : bool; s_disk : gmap cstr cstr; s_running : list payload; s_next : positive;
  s_results : list (payload * Z); s_asked : list (positive * cstr); s_complete : list payload }.
Definition set_errors (es : errors) (s : st) : st :=
  St es (s_interrupted s) (s_disk s) (s_running s) (s_next s) (s_results s) (s_asked s) (s_complete s).
Definition interrupt (s : st) : st :=
  St (s_errors s) true (s_disk s) (s_running s) (s_next s) (s_results s) (s_asked s) (s_complete s).
Definition set_disk (d : gmap cstr cstr) (s : st) : st :=
  St (s_errors s) (s_interrupted s) d (s_running s) (s_next s) (s_results s) (s_asked s) (s_complete s).
Definition set_running (l : list payload) (s : st) : st :=
  St (s_errors s) (s_interrupted s) (s_disk s) l (s_next s) (s_results s) (s_asked s) (s_complete s).
Definition ask (p : payload) (url : cstr) (s : st) : st :=
  St (s_errors s) (s_interrupted s) (s_disk s) (s_running s) (s_next s) (s_results s) (s_asked s ++ [(y_id p, url)]) (s_complete s).
Definition tell (p : payload) (ret : Z) (s : st) : st :=
  St (s_errors s) (s_interrupted s) (s_disk s) (s_running s) (s_next s) (s_results s ++ [(p, ret)]) (s_asked s) (s_complete s).
Definition note_complete (p : payload) (s : st) : st :=
  St (s_errors s) (s_interrupted s) (s_disk s) (s_running s) (s_next s) (s_results s) (s_asked s) (s_complete s ++ [p]).
Definition new_address (s : st) : st :=
  St (s_errors s) (s_interrupted s) (s_disk s) (s_running s) (Pos.succ (s_next s)) (s_results s) (s_asked s) (s_complete s).

Definition find_running (s : st) (id : positive) : option payload := List.find (fun p => bool_decide (y_id p = id)) (s_running s).
Definition update_running (s : st) (p : payload) : st :=
  set_running ((fun q => if decide (y_id q = y_id p) then p else q) <$> s_running s) s.
Definition stop_running (s : st) (id : positive) : st := set_running (List.filter (fun q => negb (bool_decide (y_id q = id))) (s_running s)) s.
Definition size_of (content : cstr) : Z := Z.of_nat (length content).
(** [ftruncate] to [n] bytes, which can also extend *)
Definition truncate (content : cstr) (n : Z) : cstr := take (Z.to_nat n) content ++ replicate (Z.to_nat n - length content) "000"%char.

Section Download.
(** Whether [fopen] of a file for writing, [ftruncate] and [rename] succeed, the
    extension of database files, and [handle->parallel_downloads]. *)
Variables (fopen_ok : cstr -> bool) (ftruncate_ok : cstr -> bool) (rename_ok : cstr -> cstr -> bool) (dbext : cstr) (max_streams : Z).

(** What [curl_set_handle_opts] decides: to append to the temporary file. *)
Definition curl_set_handle_opts (s : st) (p : payload) : bool * payload :=
  if negb (y_force p) && negb (y_mtime_existing_file p =? 0) then (false, p)
  else
    match s_disk s !! y_tempfile_name p with
    | Some content => if y_allow_resume p then (true, set_initial_size (size_of content) p) else (false, p)
    | None => (false, p)
    end.

(** The address a payload is fetched from first; [None] when there is none. *)
Definition first_url (s : st) (p : payload) : option (cstr * payload) * st :=
  match y_fileurl p with
  | Some url =>
      match y_servers p, y_filepath p with
      | [], None => (Some (url, set_servers (y_cache_servers p) [] (y_errors_ok p) p), s)
      | _, _ => (None, s)
      end
  | None =>
      let '(server, es, p) := payload_next_server (s_errors s) p in
      let s := set_errors es s in
      match server, y_filepath p with
      | Some server, Some path => let url := server ++ lit "/" ++ path in (Some (url, set_fileurl url p), s)
      | _, _ => (None, s)
      end
  end.

(** [curl_add_payload]: whether the result is 0. *)
Definition curl_add_payload (s : st) (p : payload) : bool * st :=
  match first_url s p with
  | (None, s) => (false, s)
  | (Some (url, p), s) =>
      match curl_gethost url HOSTNAME_SIZE with
      | None => (false, s)
      | Some _ =>
          let '(append, p) := curl_set_handle_opts s p in
          if (y_max_size p =? y_initial_size p) && negb (y_max_size p =? 0) then (true, note_complete p s)
          else
            let start s p := (true, ask p url (set_running (s_running s ++ [p]) s)) in
            if y_localf p then start s p
            else if negb (fopen_ok (y_tempfile_name p)) then (false, s)
            else
              let content := if append then default [] (s_disk s !! y_tempfile_name p) else [] in
              start (set_disk (<[y_tempfile_name p := content]> (s_disk s)) s) (set_localf p)
      end
  end.

(** [curl_retry_next_server]: whether the result is 0; the transfer is added to
    the multi handle again. *)
Definition curl_retry_next_server (s : st) (p : payload) : bool * st * payload :=
  let '(server, es, p) := payload_next_server (s_errors s) p in
  let s := set_errors es s in
  match server with
  | None => (false, s, p)
  | Some server =>
      let url := server ++ lit "/" ++ default [] (y_filepath p) in
      let p := set_fileurl url p in
      let again s p := (true, ask p url (update_running s p), p) in
      match (if y_allow_resume p then s_disk s !! y_tempfile_name p else None) with
      | Some content => again s (set_initial_size (size_of content) p)
      | None =>
          if negb (ftruncate_ok (y_tempfile_name p)) then (false, s, p)
          else again (set_disk (<[y_tempfile_name p := []]> (s_disk s)) s) p
      end
  end.

(** ** What libcurl reports *)

Inductive curlcode := CURLE_OK | CURLE_ABORTED_BY_CALLBACK | CURLE_COULDNT_RESOLVE_HOST | CURLE_OTHER.
(** A finished transfer, with the information [curl_easy_getinfo] gives. *)
Record report := Report {
  r_id : positive; r_result : curlcode; r_remote_size : Z; r_bytes_dl : Z; r_timecond : bool; r_effective_url : cstr }.
(** What happens during [curl_multi_perform]: headers, data, progress. *)
Inductive transfer := Header (id : positive) (respcode : Z) | Data (id : positive) (data : cstr) | Progress (id : positive) (dltotal dlnow : Z).

(** [dload_progress_cb]: the result; 1 makes libcurl abort the transfer. *)
Definition dload_progress_cb (s : st) (p : payload) (dltotal dlnow : Z) : Z * st :=
  if 300 <=? y_respcode p then (0, s)
  else if s_interrupted s then (1, s)
  else if (dlnow <? 0) || (dltotal <=? 0) || (dltotal <? dlnow) then (0, s)
  else if negb (y_max_size p =? 0) && (y_max_size p <? y_initial_size p + dlnow) then (1, interrupt s)
  else (0, s).
(** [dload_parseheader_cb], the data libcurl writes, and progress. *)
Definition on_transfer (s : st) (t : transfer) : st :=
  match t with
  | Header id respcode => match find_running s id with Some p => update_running s (set_respcode respcode p) | None => s end
  | Data id data =>
      match find_running s id with
      | Some p => set_disk (<[y_tempfile_name p := default [] (s_disk s !! y_tempfile_name p) ++ data]> (s_disk s)) s
      | None => s
      end
  | Progress id dltotal dlnow => match find_running s id with Some p => (dload_progress_cb s p dltotal dlnow).2 | None => s end
  end.

(** The end of [curl_check_finished_download], after [cleanup:]. *)
Definition finished (s : st) (p : payload) (ret : Z) : Z * st :=
  let '(ret, s) :=
    match y_destfile_name p with
    | Some dest =>
        if ret =? 0 then
          match s_disk s !! y_tempfile_name p with
          | Some content =>
              if rename_ok (y_tempfile_name p) dest then (ret, set_disk (<[dest := content]> (delete (y_tempfile_name p) (s_disk s))) s) else (-1, s)
          | None => (-1, s)
          end
        else (ret, s)
    | None => (ret, s)
    end in
  let s := if ((ret =? -1) || s_interrupted s) && y_unlink_on_fail p then set_disk (delete (y_tempfile_name p) (s_disk s)) s else s in
  (if (ret =? -1) && y_errors_ok p then -2 else ret, tell p ret (stop_running s (y_id p))).

(** [get_filename], and the address of a signature. *)
Definition get_filename (url : cstr) : cstr := match Util.strrchr url "/"%char with Some (_, b) => b | None => url end.
Definition signature_url (p : payload) (effective_url : cstr) : cstr :=
  let file := get_filename effective_url in
  let file := match Util.strrchr file "?"%char with Some (a, _) => a | None => file end in
  (match strstr file dbext, strstr file (lit ".pkg") with
   | None, None => default [] (y_fileurl p)
   | _, _ => effective_url
   end) ++ lit ".sig".
Definition signature_payload (s : st) (p : payload) (effective_url : cstr) : payload :=
  let realname := match y_destfile_name p with Some d => d | None => y_tempfile_name p end in
  Payload (s_next s) (y_remote_name p ++ lit ".sig") (realname ++ lit ".sig.part") (Some (realname ++ lit ".sig"))
    (Some (signature_url p effective_url)) None [] [] 0 0 0 16384 (y_force p) false (y_signature_optional p) (y_unlink_on_fail p)
    false false true false false.

(** [curl_check_finished_download]: the result, the state, and what is added to
    the number of active downloads. *)
Definition curl_check_finished_download (s : st) (r : report) : Z * st * Z :=
  match find_running s (r_id r) with
  | None => (1, s, 0)
  | Some p =>
      let url := default [] (y_fileurl p) in
      let retry s p (on_failure : payload -> payload) :=
        let '(ok, s, p) := curl_retry_next_server s p in
        if ok then (2, s, 1) else let '(ret, s) := finished s (on_failure p) (-1) in (ret, s, 0) in
      match r_result r with
      | CURLE_OK =>
          if 400 <=? y_respcode p then
            let s := if y_request_errors_ok p then s else set_errors (server_soft_error (s_errors s) url) s in
            let content := default [] (s_disk s !! y_tempfile_name p) in
            if negb (size_of content =? y_initial_size p) then
              if negb (ftruncate_ok (y_tempfile_name p)) then (-1, stop_running s (y_id p), 0)
              else retry (set_disk (<[y_tempfile_name p := truncate content (y_initial_size p)]> (s_disk s)) s) p set_unlink_on_fail
            else retry s p set_unlink_on_fail
          else
            let '(s, n) :=
              if negb (y_signature p) && y_download_signature p then
                let '(_, s) := curl_add_payload (new_address s) (signature_payload s p (r_effective_url r)) in (s, 1)
              else (s, 0) in
            let '(ret, s) :=
              if r_timecond r && (r_bytes_dl r =? 0) then finished (set_disk (delete (y_tempfile_name p) (s_disk s)) s) p 1
              else if negb (r_remote_size r =? -1) && negb (r_bytes_dl r =? -1) && negb (r_bytes_dl r =? r_remote_size r) then finished s p (-1)
              else finished s p 0 in
            (ret, s, n)
      | CURLE_ABORTED_BY_CALLBACK =>
          let '(s, p) := if s_interrupted s then (set_errors (server_soft_error (s_errors s) url) s, set_unlink_on_fail p) else (s, p) in
          let '(ret, s) := finished s p (-1) in (ret, s, 0)
      | CURLE_COULDNT_RESOLVE_HOST => retry (set_errors (server_hard_error (s_errors s) url) s) p (fun p => p)
      | CURLE_OTHER =>
          let s := if y_request_errors_ok p then s else set_errors (server_soft_error (s_errors s) url) s in
          retry s p (fun p => if size_of (default [] (s_disk s !! y_tempfile_name p)) =? 0 then set_unlink_on_fail p else p)
      end
  end.

(** ** The loop *)

Record mst := Mst { m_st : st; m_waiting : list payload; m_active : Z; m_err : bool; m_updated : bool }.
(** One round of libcurl: [curl_multi_perform] and [curl_multi_wait] with what
    they do, and the messages [curl_multi_info_read] gives. *)
Inductive round := PerformOk (wait_ok : bool) (ts : list transfer) (rs : list report) | PerformError (rs : list report).

(** The loop that starts downloads. *)
Fixpoint start_downloads (s : st) (active : Z) (waiting : list payload) : st * Z * list payload * bool :=
  match waiting with
  | [] => (s, active, [], false)
  | p :: rest =>
      if active <? max_streams then
        let '(ok, s) := curl_add_payload s p in
        if ok then start_downloads s (active + 1) rest else (s, active + 1, [], true)
      else (s, active, waiting, false)
  end.
Definition fill (m : mst) : mst :=
  let '(s, active, waiting, failed) := start_downloads (m_st m) (m_active m) (m_waiting m) in
  Mst s waiting active (m_err m || failed) (m_updated m).
(** The loop over the messages. *)
Fixpoint read_messages (m : mst) (rs : list report) : mst :=
  match rs with
  | [] => m
  | r :: rs =>
      let '(ret, s, n) := curl_check_finished_download (m_st m) r in
      read_messages
        (if ret =? -1 then Mst s [] (m_active m + n) true (m_updated m)
         else Mst s (m_waiting m) (m_active m + n) (m_err m) (m_updated m || (ret =? 0))) rs
  end.
(** The number of transfers that go on: those without a message. *)
Definition still_running (s : st) (rs : list report) : Z :=
  Z.of_nat (length (List.filter (fun p => negb (bool_decide (y_id p ∈ r_id <$> rs))) (s_running s))).
Definition perform (m : mst) (r : round) : mst :=
  match r with
  | PerformOk wait_ok ts rs =>
      let s := foldl on_transfer (m_st m) ts in
      read_messages (Mst s (if wait_ok then m_waiting m else []) (still_running s rs) (m_err m || negb wait_ok) (m_updated m)) rs
  | PerformError rs => read_messages (Mst (m_st m) [] (m_active m) true (m_updated m)) rs
  end.

(** The loop of [curl_download_internal]; [env k] is what libcurl does in round
    [k]. *)
Fixpoint download_loop (fuel : nat) (env : nat -> mst -> round) (k : nat) (m : mst) : option mst :=
  if (0 <? m_active m) || negb (bool_decide (m_waiting m = [])) then
    match fuel with
    | O => None
    | S fuel => let m := fill m in download_loop fuel env (S k) (perform m (env k m))
    end
  else Some m.
(** [compare_dload_payload_sizes] *)
Definition compare_dload_payload_sizes (left right : payload) : Z :=
  let diff := y_max_size right - y_max_size left in if diff <? 0 then -1 else if 0 <? diff then 1 else 0.
Definition first_state (s : st) (payloads : list payload) : mst := Mst s (KList.list_msort compare_dload_payload_sizes payloads) 0 false false.
Definition result_of (m : mst) : Z := if m_err m then -1 else if m_updated m then 0 else 1.
(** [curl_download_internal] *)
Definition curl_download_internal (fuel : nat) (env : nat -> mst -> round) (s : st) (payloads : list payload) : option (Z * st) :=
  m ← download_loop fuel env 0 (first_state s payloads); Some (result_of m, m_st m).

End Download.

(** ** Files *)

Section Files.
(** [utimes] times of files, whether [chown] and [chmod] of a downloaded file and
    [rename] succeed, and the result of [chown] to the sandbox user. *)
Variables (mtime_of : cstr -> Z) (perms_ok : cstr -> bool) (rename_ok : cstr -> cstr -> bool) (chown : cstr -> Z).

(** [_klpm_get_fullpath] *)
Definition get_fullpath (path filename suffix : cstr) : cstr := path ++ filename ++ suffix.
(** [rename] of a file. *)
Definition move (d : gmap cstr cstr) (src dest : cstr) : option (gmap cstr cstr) :=
  content ← d !! src; if rename_ok src dest then Some (<[dest := content]> (delete src d)) else None.
(** [finalize_download_file] *)
Definition finalize_download_file (d : gmap cstr cstr) (filename : cstr) : Z * gmap cstr cstr :=
  match d !! filename with
  | None => (-1, d)
  | Some [] => (1, delete filename d)
  | Some _ => (if perms_ok filename then 0 else -1, d)
  end.
Definition move_file (d : gmap cstr cstr) (filepath directory : cstr) : Z * gmap cstr cstr :=
  let '(ret, d) := finalize_download_file d filepath in
  if negb (ret =? 0) then (ret, d)
  else match move d filepath (get_fullpath directory (Util.mbasename filepath) []) with Some d => (0, d) | None => (-1, d) end.

(** [finalize_download_locations] *)
Definition finalize_one (localpath : cstr) (d : gmap cstr cstr) (p : payload) : bool * gmap cstr cstr :=
  let there f := match d !! f with Some _ => true | None => false end in
  let filename := match y_destfile_name p with
                  | Some dest => if there dest then Some dest else if there (y_tempfile_name p) then Some (y_tempfile_name p) else None
                  | None => if there (y_tempfile_name p) then Some (y_tempfile_name p) else None
                  end in
  let '(ok, d) := match filename with
                  | Some f => let '(ret, d) := move_file d f localpath in (negb ((ret =? -1) && (y_mtime_existing_file p =? 0)), d)
                  | None => (true, d)
                  end in
  if y_download_signature p then
    let name := match y_destfile_name p with Some dest => dest | None => y_tempfile_name p end in
    let '(ret, d) := move_file d (get_fullpath [] name (lit ".sig")) localpath in
    (ok, if ret =? -1 then (move_file d (get_fullpath [] name (lit ".sig.part")) localpath).2 else d)
  else (ok, d).
Fixpoint finalize_download_locations (localpath : cstr) (d : gmap cstr cstr) (ps : list payload) : bool * gmap cstr cstr :=
  match ps with
  | [] => (true, d)
  | p :: ps =>
      let '(ok, d) := finalize_one localpath d p in
      let '(ok', d) := finalize_download_locations localpath d ps in (ok && ok', d)
  end.

(** [prepare_resumable_downloads]: the payloads and the files.  The loop is left
    where [ASSERT(chown(...), return)] finds the result 0. *)
Fixpoint prepare_resumable_downloads (sandbox : bool) (localpath : cstr) (d : gmap cstr cstr) (ps : list payload) : list payload * gmap cstr cstr :=
  match ps with
  | [] => ([], d)
  | p :: ps' =>
      let p := match y_destfile_name p with
               | Some dest =>
                   let dest := get_fullpath localpath (Util.mbasename dest) [] in
                   match d !! dest with Some (_ :: _) => set_mtime (mtime_of dest) p | _ => p end
               | None => p
               end in
      let go d := let '(ps, d) := prepare_resumable_downloads sandbox localpath d ps' in (p :: ps, d) in
      if negb sandbox then go d
      else
        let src := get_fullpath localpath (Util.mbasename (y_tempfile_name p)) [] in
        match d !! src with
        | None | Some [] => go d
        | Some _ =>
            match move d src (y_tempfile_name p) with
            | None => go d
            | Some d => if chown (y_tempfile_name p) =? 0 then (p :: ps', d) else go d
            end
        end
  end.

(** ** [_klpm_download] *)

(** How the child process of [curl_download_internal_sandboxed] fares; [Exits] is
    its exit after a download, [Refused] one before it. *)
Inductive child := ForkFails | WaitFails | Killed | Refused | Exits.
(** [curl_download_internal_sandboxed]: what the child changes in memory is lost. *)
Definition sandboxed (c : child) (s : st) (inner : Z * st) : Z * st :=
  match c with
  | ForkFails => (-1, s)
  | WaitFails | Killed => (-1, set_disk (s_disk inner.2) s)
  | Refused => (-1, s)
  | Exits => (if inner.1 =? 0 then 0 else if inner.1 =? 1 then 1 else -1, set_disk (s_disk inner.2) s)
  end.

(** The external program ([handle->fetchcb]): what it returns for an address. *)
Variable fetchcb : gmap cstr cstr -> cstr -> bool -> Z * gmap cstr cstr.
Fixpoint try_servers (d : gmap cstr cstr) (p : payload) (path : cstr) (l : list cstr) : Z * option cstr * gmap cstr cstr :=
  match l with
  | [] => (-1, None, d)
  | server :: l =>
      let '(ret, d) := fetchcb d (server ++ lit "/" ++ path) (y_force p) in
      if ret =? -1 then try_servers d p path l else (ret, Some server, d)
  end.
Definition fetch_payload (d : gmap cstr cstr) (p : payload) : Z * gmap cstr cstr :=
  let '(ret, url, d) :=
    match y_fileurl p with
    | Some url => let '(ret, d) := fetchcb d url (y_force p) in (ret, url, d)
    | None =>
        let path := default [] (y_filepath p) in
        let '(ret, server, d) := try_servers d p path (y_cache_servers p ++ y_servers p) in
        (ret, match server with Some s => s ++ lit "/" ++ path | None => [] end, d)
    end in
  if negb (ret =? -1) && y_download_signature p then
    let '(retsig, d) := fetchcb d (url ++ lit ".sig") (y_force p) in
    (if y_signature_optional p then ret else retsig, d)
  else (ret, d).
Fixpoint fetch_loop (d : gmap cstr cstr) (ps : list payload) (updated : bool) : Z * gmap cstr cstr :=
  match ps with
  | [] => (if updated then 0 else 1, d)
  | p :: ps =>
      let '(ret, d) := fetch_payload d p in
      if (ret =? -1) && negb (y_errors_ok p) then (-1, d) else fetch_loop d ps (updated || (ret =? 0))
  end.

(** [_klpm_download]; [inner] is [curl_download_internal] on the prepared
    payloads.  An error of the external program returns at once. *)
Definition klpm_download (external : bool) (sandbox : option child) (inner : st -> list payload -> option (Z * st)) (remove_dir : gmap cstr cstr -> gmap cstr cstr)
    (localpath : cstr) (s : st) (ps : list payload) : option (Z * st) :=
  let is_sandbox := match sandbox with Some _ => true | None => false end in
  let '(ps, d) := prepare_resumable_downloads is_sandbox localpath (s_disk s) ps in
  let s := set_disk d s in
  let finish r :=
    let '(ret, s) := r : Z * st in
    if is_sandbox then
      let '(ok, d) := finalize_download_locations localpath (s_disk s) ps in
      (if negb ok && (ret =? 0) then -1 else ret, set_disk (remove_dir d) s)
    else (ret, s) in
  if external then
    let '(ret, d) := fetch_loop (s_disk s) ps false in
    Some (if ret =? -1 then (-1, set_disk d s) else finish (ret, set_disk d s))
  else
    r ← inner s ps;
    Some (finish (match sandbox with Some c => sandboxed c s r | None => r end)).
End Files.

(** ** Files given by their addresses *)

Section Fetch.
(** [_klpm_filecache_find]; whether the remote file level asks for signatures and
    whether they are optional; the directory; the name [create_tempfile] finds, if
    it can create a file; [_klpm_download]. *)
Variables (filecache_find : gmap cstr cstr -> cstr -> option cstr) (want_sig sig_optional : bool) (temporary_cachedir : cstr)
  (create_tempfile : positive -> option cstr) (download : st -> list payload -> option (Z * st)).

Definition url_basename (url : cstr) : option cstr :=
  match Util.strrchr url "/"%char with Some (_, []) | None => None | Some (_, b) => Some b end.
(** The file in the cache, when its signature is there, too. *)
Definition cached_file (d : gmap cstr cstr) (url : cstr) : option cstr :=
  b ← url_basename url; path ← filecache_find d b;
  if want_sig then match filecache_find d (get_fullpath [] b (lit ".sig")) with Some _ => Some path | None => None end else Some path.
Definition url_payload (id : positive) (url : cstr) : option payload :=
  let remote_name := get_filename url in
  let make remote temp dest resume open :=
    Payload id remote temp dest (Some url) None [] [] 0 0 0 0 false resume false (negb resume) want_sig sig_optional false false open in
  if match Util.strrchr url "/"%char, strstr remote_name (lit ".pkg") with Some _, Some _ => true | _, _ => false end then
    let dest := get_fullpath temporary_cachedir remote_name [] in
    Some (make remote_name (get_fullpath temporary_cachedir remote_name (lit ".part")) (Some dest) true false)
  else
    randpath ← create_tempfile id; Some (make (Util.mbasename randpath) randpath None false true).
(** The first loop of [klpm_fetch_pkgurl]: the paths found and the payloads. *)
Fixpoint plan_urls (d : gmap cstr cstr) (id : positive) (urls : list cstr) : option (list cstr * list payload) :=
  match urls with
  | [] => Some ([], [])
  | url :: urls =>
      match cached_file d url with
      | Some path => '(fetched, ps) ← plan_urls d id urls; Some (path :: fetched, ps)
      | None => p ← url_payload id url; '(fetched, ps) ← plan_urls d (Pos.succ id) urls; Some (fetched, p :: ps)
      end
  end.
(** The second loop: where the downloaded files are. *)
Fixpoint locate (d : gmap cstr cstr) (ps : list payload) : option (list cstr) :=
  match ps with
  | [] => Some []
  | p :: ps =>
      path ← filecache_find d (Util.mbasename (match y_destfile_name p with Some f => f | None => y_tempfile_name p end));
      paths ← locate d ps; Some (path :: paths)
  end.
(** [klpm_fetch_pkgurl]: the paths, or [None] for -1. *)
Definition fetch_pkgurl (s : st) (urls : list cstr) : option (list cstr * st) :=
  '(fetched, ps) ← plan_urls (s_disk s) (s_next s) urls;
  match ps with
  | [] => Some (fetched, s)
  | _ =>
      '(ret, s) ← download s ps;
      if ret =? -1 then None else paths ← locate (s_disk s) ps; Some (fetched ++ paths, s)
  end.

(** On success there is one path for every address, from the cache. *)
Lemma plan_urls_spec d urls : forall id fetched ps, plan_urls d id urls = Some (fetched, ps) ->
  (length fetched + length ps = length urls)%nat /\ Forall (fun f => exists b, filecache_find d b = Some f) fetched.
Proof.
  induction urls as [|url urls IH]; intros id fetched ps; cbn [plan_urls]; [intros [= <- <-]; auto|]. destruct (cached_file d url) as [path|] eqn:Ec.
  - destruct (plan_urls d id urls) as [[f p]|] eqn:E; [|done]. cbn. intros [= <- <-]. destruct (IH _ _ _ E) as [Hl Hf]. split; [cbn; lia|]. constructor; [|done].
    revert Ec. unfold cached_file. destruct (url_basename url) as [b|]; [|done]. cbn [mbind option_bind]. destruct (filecache_find d b) as [q|] eqn:Ef; [|done]. cbn [mbind option_bind].
    destruct want_sig; [destruct (filecache_find d (get_fullpath [] b (lit ".sig"))); [|done]|]; intros [= <-]; eauto.
  - destruct (url_payload id url); [|done]. cbn. destruct (plan_urls d (Pos.succ id) urls) as [[f p']|] eqn:E; [|done]. cbn. intros [= <- <-].
    destruct (IH _ _ _ E) as [Hl Hf]. split; [cbn; lia|done].
Qed.
Lemma locate_spec d ps : forall paths, locate d ps = Some paths -> length paths = length ps /\ Forall (fun f => exists b, filecache_find d b = Some f) paths.
Proof.
  induction ps as [|p ps IH]; intros paths; cbn [locate]; [intros [= <-]; auto|]. destruct (filecache_find d _) as [path|] eqn:Ef; [|done]. cbn.
  destruct (locate d ps) as [l|]; [|done]. cbn. intros [= <-]. destruct (IH _ eq_refl) as [Hl Hf]. split; [cbn; lia|]. constructor; [eauto|done].
Qed.
Theorem fetch_pkgurl_spec s urls fetched s' : fetch_pkgurl s urls = Some (fetched, s') ->
  length fetched = length urls /\ Forall (fun f => exists d b, filecache_find d b = Some f) fetched.
Proof.
  unfold fetch_pkgurl. destruct (plan_urls (s_disk s) (s_next s) urls) as [[f ps]|] eqn:E; [|done]. cbn. destruct (plan_urls_spec _ _ _ _ _ E) as [Hl Hf].
  assert (Forall (fun f => exists d b, filecache_find d b = Some f) f) as Hf' by (eapply Forall_impl; [exact Hf|]; intros x [b Hb]; eauto).
  destruct ps as [|p ps]; [intros [= <- <-]; split; [cbn in Hl; lia|done]|]. destruct (download s (p :: ps)) as [[ret s2]|]; [|done]. cbn [mbind option_bind].
  destruct (ret =? -1); [done|]. destruct (locate (s_disk s2) (p :: ps)) as [paths|] eqn:El; [|done]. cbn [mbind option_bind]. intros [= <- <-].
  destruct (locate_spec _ _ _ El) as [Hl2 Hf2]. rewrite length_app. split; [lia|]. apply Forall_app. split; [done|]. eapply Forall_impl; [exact Hf2|]. intros x [b Hb]; eauto.
Qed.
End Fetch.

(** ** Payloads and servers *)

(** What a payload keeps while it is fetched. *)
Record same_file (p q : payload) : Prop := {
  sf_id : y_id q = y_id p; sf_temp : y_tempfile_name q = y_tempfile_name p; sf_dest : y_destfile_name q = y_destfile_name p;
  sf_errors_ok : y_errors_ok q = y_errors_ok p; sf_sig : y_signature q = y_signature p; sf_dlsig : y_download_signature q = y_download_signature p }.
Definition left_over (p : payload) : nat := length (y_cache_servers p) + length (y_servers p).
#[global] Instance same_file_refl : Reflexive same_file.
Proof. by split. Qed.
#[global] Instance same_file_trans : Transitive same_file.
Proof. intros ? ? ? [] []. split; congruence. Qed.

Lemma skip_servers_spec skip es l l' es' : skip_servers skip es l = (l', es') -> exists u, l = u ++ l'.
Proof.
  revert es. induction l as [|s l IH]; intros es; cbn [skip_servers]; [intros [= <- <-]; by exists []|]. destruct (skip es s) as [[] es1].
  - intros (u & ->)%IH. by exists (s :: u).
  - intros [= <- <-]. by exists [].
Qed.
Lemma next_server_spec es p server es' p' : payload_next_server es p = (server, es', p') ->
  same_file p p' /\ match server with Some _ => (left_over p' < left_over p)%nat | None => left_over p' = 0%nat end.
Proof.
  unfold payload_next_server, left_over. destruct (skip_servers _ _ (y_cache_servers p)) as [cs es1] eqn:E1. apply skip_servers_spec in E1 as (u & E1).
  destruct cs as [|c cs].
  - destruct (skip_servers _ _ (y_servers p)) as [ss es2] eqn:E2. apply skip_servers_spec in E2 as (v & E2).
    destruct ss as [|x ss]; intros [= <- <- <-]; (split; [by split|]); cbn; [done|]. rewrite E2, length_app. cbn. lia.
  - intros [= <- <- <-]. split; [by split|]. rewrite E1. cbn. rewrite length_app. cbn. lia.
Qed.

Section Loop.
Context (fopen_ok : cstr -> bool) (ftruncate_ok : cstr -> bool) (rename_ok : cstr -> cstr -> bool) (dbext : cstr) (max_streams : Z).
Notation add := (curl_add_payload fopen_ok).
Notation check := (curl_check_finished_download fopen_ok ftruncate_ok rename_ok dbext).

(** Names of temporary files end in ".part". *)
Definition is_part (f : cstr) : bool := bool_decide (drop (length f - 5) f = lit ".part").
Definition names_ok (p : payload) : Prop := is_part (y_tempfile_name p) = true /\ forall d, y_destfile_name p = Some d -> is_part d = false.
(** Files that are not temporary stay. *)
Definition keeps (d d' : gmap cstr cstr) : Prop := forall f, is_part f = false -> is_Some (d !! f) -> is_Some (d' !! f).
#[local] Instance keeps_refl : Reflexive keeps.
Proof. by intros d f. Qed.
#[local] Instance keeps_trans : Transitive keeps.
Proof. intros d1 d2 d3 H1 H2 f Hf Hd. by apply H2, H1. Qed.
Lemma keeps_insert d d' f x : keeps d d' -> keeps d (<[f := x]> d').
Proof. intros H g Hg Hd. destruct (decide (f = g)) as [->|]; [rewrite lookup_insert_eq; eauto|rewrite lookup_insert_ne by done; by apply H]. Qed.
Lemma keeps_delete d d' f : is_part f = true -> keeps d d' -> keeps d (delete f d').
Proof. intros Hp H g Hg Hd. rewrite lookup_delete_ne by congruence. by apply H. Qed.
Lemma is_part_app f : is_part (f ++ lit ".part") = true.
Proof.
  unfold is_part. rewrite length_app. replace (length f + length (lit ".part") - 5)%nat with (length f) by (cbn; lia).
  rewrite drop_app_length. by apply bool_decide_eq_true.
Qed.
Lemma is_part_sig f : is_part (f ++ lit ".sig") = false.
Proof.
  unfold is_part. apply bool_decide_eq_false. intros H. assert (last (f ++ lit ".sig") = Some "g"%char) as Hg by (by rewrite last_app).
  rewrite <- (take_drop (length (f ++ lit ".sig") - 5) (f ++ lit ".sig")), H, last_app in Hg. done.
Qed.

(** What an operation on a state leaves: files, and the records. *)
Record grows (s s' : st) : Prop := {
  g_disk : keeps (s_disk s) (s_disk s'); g_next : (s_next s <= s_next s')%positive;
  g_results : s_results s' = s_results s; g_complete : exists l, s_complete s' = s_complete s ++ l }.
#[local] Instance grows_refl : Reflexive grows.
Proof. split; [done|lia|done|exists []; by rewrite app_nil_r]. Qed.
#[local] Instance grows_trans : Transitive grows.
Proof. intros s1 s2 s3 [? ? ? [l1 ?]] [? ? ? [l2 ?]]. split; [by etrans|lia|congruence|]. exists (l1 ++ l2). rewrite app_assoc. congruence. Qed.

(** Starting a transfer. *)
Lemma first_url_spec s p r s' : first_url s p = (r, s') ->
  (exists es, s' = set_errors es s) /\ match r with Some (_, q) => same_file p q /\ (left_over q <= left_over p)%nat | None => True end.
Proof.
  unfold first_url. destruct (y_fileurl p) as [u|].
  - assert (s = set_errors (s_errors s) s) as Hs by (by destruct s).
    destruct (y_servers p) eqn:Es, (y_filepath p); intros [= <- <-]; (split; [eauto|]); try done. split; [by split|]. unfold left_over. cbn. lia.
  - destruct (payload_next_server (s_errors s) p) as [[server es] q] eqn:E. apply next_server_spec in E as [Hf Hl].
    destruct server as [server|]; [destruct (y_filepath q)|]; intros [= <- <-]; (split; [eauto|]); try done.
    split; [etrans; [exact Hf|by split]|]. unfold left_over in *. cbn. lia.
Qed.
Lemma add_spec s p b s' : names_ok p -> add s p = (b, s') ->
  grows s s' /\ s_next s' = s_next s /\
  (s_running s' = s_running s /\ s_asked s' = s_asked s /\ (b = true -> exists q, same_file p q /\ q ∈ s_complete s') \/
   b = true /\ exists q url, same_file p q /\ (left_over q <= left_over p)%nat /\ s_running s' = s_running s ++ [q] /\ s_asked s' = s_asked s ++ [(y_id p, url)]).
Proof.
  intros [Hpart Hdest]. unfold curl_add_payload. destruct (first_url s p) as [r s1] eqn:E. apply first_url_spec in E as [[es ->] Hr].
  assert (grows s (set_errors es s)) as Hg by (split; [done|cbn; lia|done|exists []; by rewrite app_nil_r]).
  destruct r as [[url q]|]; [|intros [= <- <-]; split_and!; [done|done|by left]]. destruct (curl_gethost url HOSTNAME_SIZE); [|intros [= <- <-]; split_and!; [done|done|by left]].
  destruct (curl_set_handle_opts (set_errors es s) q) as [append q'] eqn:Eo.
  assert (same_file p q' /\ (left_over q' <= left_over p)%nat) as [Hf Hl].
  { revert Eo. unfold curl_set_handle_opts. destruct Hr as [Hf Hl]. destruct (negb (y_force q) && _); [intros [= <- <-]; auto|].
    destruct (s_disk _ !! _); [destruct (y_allow_resume q)|]; intros [= <- <-]; auto. split; [etrans; [exact Hf|by split]|done]. }
  destruct (_ && _).
  { intros [= <- <-]. split_and!; [|done|left; split_and!; try done; intros _; exists q'; split; [done|cbn; apply elem_of_app; right; by apply list_elem_of_singleton]].
    split; [done|cbn; lia|done|by eexists]. }
  destruct (y_localf q').
  { intros [= <- <-]. split_and!; [split; [done|cbn; lia|done|exists []; by rewrite app_nil_r]|done|].
    right. split; [done|]. exists q', url. cbn. by rewrite (sf_id _ _ Hf). }
  destruct (fopen_ok _); intros [= <- <-]; [|split_and!; [done|done|by left]]. split_and!; [split; [by apply keeps_insert|cbn; lia|done|exists []; by rewrite app_nil_r]|done|].
  right. split; [done|]. exists (set_localf q'), url. split; [etrans; [exact Hf|by split]|]. cbn. by rewrite (sf_id _ _ Hf).
Qed.

(** A transfer that is moved to the next server. *)
Lemma retry_spec s p b s' p' : names_ok p -> curl_retry_next_server ftruncate_ok s p = (b, s', p') ->
  grows s s' /\ s_next s' = s_next s /\ same_file p p' /\ (exists l, s_asked s' = s_asked s ++ ((y_id p,.) <$> l)) /\
  if b then s_running s' = s_running (update_running s p') /\ (left_over p' < left_over p)%nat
  else s_running s' = s_running s /\ (left_over p' <= left_over p)%nat.
Proof.
  intros [Hpart Hdest]. unfold curl_retry_next_server. destruct (payload_next_server (s_errors s) p) as [[server es] q] eqn:E. apply next_server_spec in E as [Hf Hl].
  assert (grows s (set_errors es s)) as Hg by (split; [done|cbn; lia|done|exists []; by rewrite app_nil_r]).
  destruct server as [server|]; [|intros [= <- <- <-]; split_and!; [done|done|done|exists []; by rewrite app_nil_r|done|lia]].
  cbn [set_fileurl y_allow_resume y_tempfile_name]. set (url := server ++ _).
  assert (same_file p (set_fileurl url q)) as Hf1 by (etrans; [exact Hf|by split]).
  assert (exists l, s_asked s ++ [(y_id q, url)] = s_asked s ++ ((y_id p,.) <$> l)) as Ha by (exists [url]; cbn; by rewrite (sf_id _ _ Hf)).
  destruct (if y_allow_resume q then _ else None) as [content|].
  - intros [= <- <- <-]. split_and!; [destruct Hg; by split|done|etrans; [exact Hf1|by split]|done|done|done].
  - destruct (ftruncate_ok _); intros [= <- <- <-]; split_and!; try done.
    + split; [by apply keeps_insert|cbn; lia|done|exists []; by rewrite app_nil_r].
    + exists []. by rewrite app_nil_r.
    + unfold left_over in *. cbn. lia.
Qed.
(** The end of a transfer. *)
Lemma finished_spec s p ret0 ret s' : names_ok p -> ret0 = -1 \/ ret0 = 0 \/ ret0 = 1 -> finished rename_ok s p ret0 = (ret, s') ->
  keeps (s_disk s) (s_disk s') /\ s_next s' = s_next s /\ s_asked s' = s_asked s /\ s_complete s' = s_complete s /\
  s_running s' = s_running (stop_running s (y_id p)) /\
  exists ret1, s_results s' = s_results s ++ [(p, ret1)] /\ (ret1 = 0 \/ ret1 = 1 \/ ret1 = -1) /\
    ret = (if (ret1 =? -1) && y_errors_ok p then -2 else ret1) /\ (ret1 = 0 -> forall d, y_destfile_name p = Some d -> is_Some (s_disk s' !! d)).
Proof.
  intros [Hpart Hdest] Hret. unfold finished.
  destruct (match y_destfile_name p with Some _ => _ | None => _ end) as [ret1 s1] eqn:E.
  assert ((ret1 = 0 \/ ret1 = 1 \/ ret1 = -1) /\ keeps (s_disk s) (s_disk s1) /\ s_next s1 = s_next s /\ s_asked s1 = s_asked s /\ s_complete s1 = s_complete s /\
          s_running s1 = s_running s /\ s_results s1 = s_results s /\ (ret1 = 0 -> forall d, y_destfile_name p = Some d -> is_Some (s_disk s1 !! d))) as (Hr1 & Hk & ? & ? & ? & Hrun & Hres & Hd).
  { revert E. destruct (y_destfile_name p) as [dest|]; [|intros [= <- <-]; split_and!; try done; intuition lia]. destruct (Z.eqb_spec ret0 0) as [->|Hn0].
    2: intros [= <- <-]; split_and!; try done; intuition lia.
    destruct (s_disk s !! y_tempfile_name p) as [content|]; [destruct (rename_ok _ _)|]; intros [= <- <-]; split_and!; try done; auto; try (by intros; lia).
    - by apply keeps_insert, keeps_delete.
    - intros _ d [= <-]. cbn. rewrite lookup_insert_eq. by eexists. }
  set (s2 := if _ && _ then _ else s1).
  assert (keeps (s_disk s1) (s_disk s2) /\ s_next s2 = s_next s1 /\ s_asked s2 = s_asked s1 /\ s_complete s2 = s_complete s1 /\ s_running s2 = s_running s1 /\ s_results s2 = s_results s1) as (Hk2 & ? & ? & ? & Hrun2 & Hres2).
  { unfold s2. destruct (_ && _); split_and!; try done. by apply keeps_delete. }
  intros [= <- <-]. cbn [tell stop_running set_running s_disk s_next s_asked s_complete s_running s_results]. split_and!; [by etrans|congruence..|].
  exists ret1. split_and!; [congruence|done|done|]. intros Hz d Hp. apply Hk2; [by apply Hdest|by apply Hd].
Qed.

(** What a message of libcurl leads to: another request, or the end of the
    transfer, perhaps with the request of a signature. *)
Record retried (s : st) (p : payload) (ret : Z) (s' : st) (n : Z) : Prop := {
  rt_ret : ret = 2; rt_n : n = 1; rt_next : s_next s' = s_next s; rt_results : s_results s' = s_results s;
  rt_running : exists p', same_file p p' /\ (left_over p' < left_over p)%nat /\ s_running s' = s_running (update_running s p');
  rt_asked : exists l, s_asked s' = s_asked s ++ ((y_id p,.) <$> l) }.
Record ended (s : st) (p : payload) (ret : Z) (s' : st) (n : Z) : Prop := {
  en_n : 0 <= n;
  en_running : exists sigs, s_running s' = List.filter (fun q => negb (bool_decide (y_id q = y_id p))) (s_running s ++ sigs) /\ Z.of_nat (length sigs) <= n /\ (length sigs <= 1)%nat /\
    Forall (fun q => y_id q = s_next s /\ (s_next s < s_next s')%positive /\ left_over q = 0%nat /\ y_signature q = true /\ names_ok q) sigs /\
    (sigs = [] \/ y_signature p = false /\ y_download_signature p = true) /\
    exists l l', s_asked s' = s_asked s ++ ((y_id p,.) <$> l) ++ l' /\ Forall (fun a => a.1 ∈ y_id <$> sigs) l';
  en_results : (ret = -1 /\ s_results s' = s_results s) \/
    exists p' ret1, same_file p p' /\ s_results s' = s_results s ++ [(p', ret1)] /\ (ret1 = 0 \/ ret1 = 1 \/ ret1 = -1) /\
      ret = (if (ret1 =? -1) && y_errors_ok p then -2 else ret1) /\ (ret1 = 0 -> forall d, y_destfile_name p = Some d -> is_Some (s_disk s' !! d)) }.
Definition outcome (s : st) (p : payload) (x : Z * st * Z) : Prop :=
  let '(ret, s', n) := x in
  keeps (s_disk s) (s_disk s') /\ (s_next s <= s_next s')%positive /\ (exists l, s_complete s' = s_complete s ++ l) /\
  (retried s p ret s' n \/ ended s p ret s' n).

Lemma names_ok_same p q : same_file p q -> names_ok p -> names_ok q.
Proof. intros [_ Ht Hd _ _ _] [H1 H2]. unfold names_ok. by rewrite Ht, Hd. Qed.

(** A finished transfer without a signature. *)
Lemma finished_outcome s s0 p p' ret0 ret s' l : names_ok p -> same_file p p' -> ret0 = -1 \/ ret0 = 0 \/ ret0 = 1 ->
  finished rename_ok s p' ret0 = (ret, s') -> grows s0 s -> s_running s = s_running s0 -> s_asked s = s_asked s0 ++ ((y_id p,.) <$> l) -> outcome s0 p (ret, s', 0).
Proof.
  intros Hn Hf Hr E [G1 G2 G3 [l1 G4]] Hrun Hask. destruct (finished_spec _ _ _ _ _ (names_ok_same _ _ Hf Hn) Hr E) as (Hk & Hnx & Ha & Hc & Hru & ret1 & Hres & Hr1 & Hret & Hd).
  split_and!; [by etrans|rewrite Hnx; lia|exists l1; congruence|right]. split; [lia| |].
  - exists []. rewrite app_nil_r, Hru. unfold stop_running, set_running. cbn [s_running]. rewrite Hrun, (sf_id _ _ Hf). split_and!; [done|done|cbn; lia|done|by left|].
    exists l, []. split; [by rewrite app_nil_r, Ha|done].
  - right. exists p', ret1. rewrite Hres, G3, <- (sf_errors_ok _ _ Hf). split_and!; [done|done|done|done|]. by rewrite <- (sf_dest _ _ Hf).
Qed.
Lemma retry_outcome s s0 p b s1 p1 g x : names_ok p -> grows s0 s -> s_running s = s_running s0 -> s_asked s = s_asked s0 -> s_next s = s_next s0 -> (forall q, same_file q (g q)) ->
  curl_retry_next_server ftruncate_ok s p = (b, s1, p1) ->
  (if b then (2, s1, 1) else let '(ret, s') := finished rename_ok s1 (g p1) (-1) in (ret, s', 0)) = x -> outcome s0 p x.
Proof.
  intros Hn Hg Hrun Hask Hnext Hgive E. destruct (retry_spec _ _ _ _ _ Hn E) as (Hg1 & Hnx & Hf & (l & Ha) & Hb).
  assert (grows s0 s1) as Hgs by (by etrans). destruct b.
  - intros <-. destruct Hb as [Hb1 Hb2], Hgs as [? ? ? ?]. split_and!; [done|done|done|left]. split; [done|done|congruence|done| |].
    + exists p1. split_and!; [done|done|]. rewrite Hb1. unfold update_running, set_running. cbn. by rewrite Hrun.
    + exists l. by rewrite Ha, Hask.
  - destruct Hb as [Hb1 Hb2]. destruct (finished rename_ok s1 (g p1) (-1)) as [ret s'] eqn:Ef. intros <-.
    eapply finished_outcome; [done|etrans; [exact Hf|apply Hgive]|by left|exact Ef|done|congruence|]. by rewrite Ha, Hask.
Qed.

Lemma signature_names s p url : names_ok (signature_payload dbext s p url).
Proof.
  split; [|intros d [= <-]; apply is_part_sig]. cbn [signature_payload y_tempfile_name].
  change (lit ".sig.part") with (lit ".sig" ++ lit ".part"). rewrite app_assoc. apply is_part_app.
Qed.
(** A transfer that ended without an error. *)
Lemma success_outcome s p r x : names_ok p ->
  (let '(s, n) :=
     if negb (y_signature p) && y_download_signature p then
       let '(_, s) := add (new_address s) (signature_payload dbext s p (r_effective_url r)) in (s, 1)
     else (s, 0) in
   let '(ret, s) :=
     if r_timecond r && (r_bytes_dl r =? 0) then finished rename_ok (set_disk (delete (y_tempfile_name p) (s_disk s)) s) p 1
     else if negb (r_remote_size r =? -1) && negb (r_bytes_dl r =? -1) && negb (r_bytes_dl r =? r_remote_size r) then finished rename_ok s p (-1)
     else finished rename_ok s p 0 in
   (ret, s, n)) = x -> outcome s p x.
Proof.
  intros Hn. destruct (if negb (y_signature p) && _ then _ else _) as [s1 n] eqn:E1.
  assert (keeps (s_disk s) (s_disk s1) /\ (s_next s <= s_next s1)%positive /\ (exists l, s_complete s1 = s_complete s ++ l) /\ s_results s1 = s_results s /\ 0 <= n /\
    exists sigs, s_running s1 = s_running s ++ sigs /\ Z.of_nat (length sigs) <= n /\ (length sigs <= 1)%nat /\
      Forall (fun q => y_id q = s_next s /\ (s_next s < s_next s1)%positive /\ left_over q = 0%nat /\ y_signature q = true /\ names_ok q) sigs /\
      (sigs = [] \/ y_signature p = false /\ y_download_signature p = true) /\
      exists l', s_asked s1 = s_asked s ++ l' /\ Forall (fun a => a.1 ∈ y_id <$> sigs) l') as (Hk & Hnx & (lc & Hc) & Hres & Hn0 & sigs & Hrun & Hlen & Hle & Hsig & Hflags & l' & Ha & Hl').
  { revert E1. destruct (negb (y_signature p) && y_download_signature p) eqn:Eb.
    2: intros [= <- <-]; split_and!; [done|lia|exists []; by rewrite app_nil_r|done|lia|exists []; rewrite app_nil_r; split_and!; [done|done|cbn; lia|done|by left|exists []; by rewrite app_nil_r]].
    destruct (add (new_address s) _) as [b s2] eqn:Ea. intros [= <- <-]. pose proof (signature_names s p (r_effective_url r)) as Hsn.
    destruct (add_spec _ _ _ _ Hsn Ea) as ([G1 G2 G3 G4] & Hnx & Hcase). cbn in G1, G2, G3, G4, Hnx. split_and!; [done|lia|done|done|lia|].
    destruct Hcase as [(Hr & Hask & _)|(_ & q & url & Hf & Hl & Hr & Hask)].
    - exists []. rewrite app_nil_r. split_and!; [done|done|cbn; lia|done|by left|]. exists []. by rewrite app_nil_r.
    - exists [q]. split_and!; [done|done|cbn; lia| |right; by destruct (y_signature p), (y_download_signature p)|].
      + constructor; [|done]. rewrite (sf_id _ _ Hf), (sf_sig _ _ Hf). split_and!; [done|rewrite Hnx; lia|unfold left_over in *; cbn in *; lia|done|by eapply names_ok_same].
      + exists [(s_next s, url)]. split; [exact Hask|]. constructor; [|done]. cbn. rewrite (sf_id _ _ Hf). by apply list_elem_of_singleton. }
  clear E1. set (fin := if r_timecond r && _ then _ else _).
  assert (exists s2 ret0, fin = finished rename_ok s2 p ret0 /\ (ret0 = -1 \/ ret0 = 0 \/ ret0 = 1) /\ keeps (s_disk s1) (s_disk s2) /\ s_next s2 = s_next s1 /\
            s_complete s2 = s_complete s1 /\ s_results s2 = s_results s1 /\ s_running s2 = s_running s1 /\ s_asked s2 = s_asked s1) as (s2 & ret0 & -> & Hr0 & Hk2 & Hnx2 & Hc2 & Hres2 & Hrun2 & Ha2).
  { unfold fin. destruct (_ && (r_bytes_dl r =? 0)); [|destruct (_ && _ && _)].
    - eexists _, _. split; [reflexivity|]. split_and!; [auto| |done..]. apply keeps_delete; [apply Hn|done].
    - eexists _, _. split; [reflexivity|]. by split_and!; auto.
    - eexists _, _. split; [reflexivity|]. by split_and!; auto. }
  destruct (finished rename_ok s2 p ret0) as [ret s3] eqn:Ef. intros <-.
  destruct (finished_spec _ _ _ _ _ Hn Hr0 Ef) as (Hk3 & Hnx3 & Ha3 & Hc3 & Hru3 & ret1 & Hres3 & Hr1 & Hret & Hd).
  split_and!; [by etrans; [|etrans]|rewrite Hnx3, Hnx2; lia|exists lc; congruence|right]. split; [done| |].
  - exists sigs. rewrite Hru3. unfold stop_running, set_running. cbn [s_running]. rewrite Hrun2, Hrun, Hnx3, Hnx2. split_and!; [done|done|done|done|done|].
    exists [], l'. split; [cbn; congruence|done].
  - right. exists p, ret1. rewrite Hres3, Hres2, Hres. by split_and!.
Qed.
Lemma check_outcome s r p : find_running s (r_id r) = Some p -> names_ok p -> outcome s p (check s r).
Proof.
  intros Hfind Hn. unfold curl_check_finished_download. rewrite Hfind. cbv zeta.
  assert (forall es, grows s (set_errors es s)) as Hg by (intros es; split; [done|cbn; lia|done|exists []; by rewrite app_nil_r]).
  destruct (r_result r).
  - destruct (400 <=? y_respcode p); [|by eapply success_outcome].
    set (s1 := if y_request_errors_ok p then s else _).
    assert (grows s s1 /\ s_running s1 = s_running s /\ s_asked s1 = s_asked s /\ s_next s1 = s_next s) as (G & ? & ? & ?) by (unfold s1; destruct (y_request_errors_ok p); by split_and!).
    destruct (negb (size_of _ =? _)).
    + destruct (ftruncate_ok _); cbn [negb].
      * set (s2 := set_disk _ s1). destruct (curl_retry_next_server _ s2 p) as [[b s3] p3] eqn:E. eapply (retry_outcome s2 s _ _ _ _ set_unlink_on_fail); [done| |done..|by split|exact E|reflexivity].
        etrans; [exact G|]. split; [by apply keeps_insert|cbn; lia|done|exists []; by rewrite app_nil_r].
      * destruct G as [G1 G2 G3 G4]. split_and!; [done|done|done|right]. split; [lia| |by left].
        exists []. rewrite app_nil_r. unfold stop_running, set_running. cbn. split_and!; [congruence|lia|lia|done|by left|]. exists [], []. by rewrite app_nil_r.
    + destruct (curl_retry_next_server _ s1 p) as [[b s3] p3] eqn:E. eapply (retry_outcome s1 s _ _ _ _ set_unlink_on_fail); [done|done|done..|by split|exact E|reflexivity].
  - set (x := if s_interrupted s then _ else _). destruct x as [s1 p1] eqn:E1.
    assert (grows s s1 /\ s_running s1 = s_running s /\ s_asked s1 = s_asked s /\ same_file p p1) as (G & ? & ? & ?).
    { revert E1. unfold x. destruct (s_interrupted s); intros [= <- <-]; by split_and!. }
    destruct (finished rename_ok s1 p1 (-1)) as [ret s'] eqn:Ef. eapply (finished_outcome _ s p p1 _ _ _ []); [done|done|by left|exact Ef|done|done|]. by rewrite app_nil_r.
  - set (s1 := set_errors _ s). destruct (curl_retry_next_server _ s1 p) as [[b s3] p3] eqn:E. eapply (retry_outcome s1 s _ _ _ _ (fun p => p)); [done|apply Hg|done..|by split|exact E|reflexivity].
  - set (s1 := if y_request_errors_ok p then s else _).
    assert (grows s s1 /\ s_running s1 = s_running s /\ s_asked s1 = s_asked s /\ s_next s1 = s_next s) as (G & ? & ? & ?) by (unfold s1; destruct (y_request_errors_ok p); by split_and!).
    destruct (curl_retry_next_server _ s1 p) as [[b s3] p3] eqn:E.
    eapply (retry_outcome s1 s _ _ _ _ (fun p => if size_of (default [] (s_disk s1 !! y_tempfile_name p)) =? 0 then set_unlink_on_fail p else p)); [done|done|done..| |exact E|reflexivity].
    intros q. destruct (_ =? 0); by split.
Qed.

(** ** The transfers that are running *)

Definition ids (l : list payload) : list positive := y_id <$> l.
Record ok (s : st) : Prop := {
  ok_nodup : NoDup (ids (s_running s)); ok_fresh : Forall (fun p => (y_id p < s_next s)%positive) (s_running s); ok_names : Forall names_ok (s_running s) }.

Lemma find_running_None s id : find_running s id = None -> id ∉ ids (s_running s).
Proof.
  unfold find_running, ids. intros H Hin. apply list_elem_of_fmap in Hin as (q & -> & Hq). apply list_elem_of_In in Hq. apply (List.find_none _ _ H) in Hq.
  apply bool_decide_eq_false in Hq. done.
Qed.
Lemma find_running_Some s id p : NoDup (ids (s_running s)) -> find_running s id = Some p -> y_id p = id /\
  exists l1 l2, s_running s = l1 ++ p :: l2 /\ id ∉ ids l1 /\ id ∉ ids l2.
Proof.
  unfold find_running, ids. intros Hnd H. apply List.find_some in H as [Hin He%bool_decide_eq_true]. subst id. split; [done|].
  apply list_elem_of_In, list_elem_of_split in Hin as (l1 & l2 & E). exists l1, l2. split; [done|]. rewrite E, fmap_app, fmap_cons in Hnd.
  apply NoDup_app in Hnd as (_ & H1 & [H2 _]%NoDup_cons). split; [|done]. intros Hx. apply (H1 _ Hx). by left.
Qed.
Lemma other_ids l id (f : payload -> payload) : id ∉ ids l -> (forall q, y_id q <> id -> f q = q) -> f <$> l = l.
Proof. intros Hn Hf. induction l as [|q l IH]; [done|]. cbn in *. apply not_elem_of_cons in Hn as [Hq Hl]. rewrite Hf by done. f_equal. by apply IH. Qed.
Lemma other_filter l id : id ∉ ids l -> List.filter (fun q => negb (bool_decide (y_id q = id))) l = l.
Proof.
  induction l as [|q l IH]; [done|]. cbn. intros [Hq Hl]%not_elem_of_cons. rewrite bool_decide_eq_false_2 by done. cbn. by rewrite IH.
Qed.
Lemma update_split s l1 p l2 p' : s_running s = l1 ++ p :: l2 -> y_id p' = y_id p -> y_id p ∉ ids l1 -> y_id p ∉ ids l2 ->
  s_running (update_running s p') = l1 ++ p' :: l2.
Proof.
  intros E Hid H1 H2. unfold update_running, set_running. cbn [s_running]. rewrite E, fmap_app, fmap_cons, decide_True by done.
  rewrite (other_ids l1 (y_id p)), (other_ids l2 (y_id p)); [done|done| |done|]; intros q Hq; rewrite decide_False; congruence.
Qed.
Lemma remove_split s l1 p l2 sigs : s_running s = l1 ++ p :: l2 -> y_id p ∉ ids l1 -> y_id p ∉ ids l2 -> y_id p ∉ ids sigs ->
  List.filter (fun q => negb (bool_decide (y_id q = y_id p))) (s_running s ++ sigs) = l1 ++ l2 ++ sigs.
Proof.
  intros -> H1 H2 H3. rewrite <- app_assoc, List.filter_app. cbn [app List.filter]. rewrite bool_decide_eq_true_2 by done. cbn [negb].
  rewrite List.filter_app, !other_filter by done. done.
Qed.

(** The running transfers after a message. *)
Lemma check_running s r p ret s' n : ok s -> find_running s (r_id r) = Some p -> check s r = (ret, s', n) ->
  exists l1 l2 new, s_running s = l1 ++ p :: l2 /\ s_running s' ≡ₚ l1 ++ l2 ++ new /\ ok s' /\ outcome s p (ret, s', n) /\ y_id p = r_id r /\ y_id p ∉ ids l1 /\ y_id p ∉ ids l2 /\
    Z.of_nat (length new) <= n /\ (forall q, q ∈ new -> y_id q = y_id p \/ y_id q = s_next s) /\
    (new = [] \/ (exists q, new = [q] /\ same_file p q /\ (left_over q < left_over p)%nat) \/
     (exists q, new = [q] /\ left_over q = 0%nat /\ y_signature q = true /\ y_signature p = false /\ y_download_signature p = true)).
Proof.
  intros [Hnd Hfr Hna] Hf E. destruct (find_running_Some _ _ _ Hnd Hf) as (Hid & l1 & l2 & Hl & H1 & H2). rewrite <- Hid in H1, H2.
  assert (names_ok p) as Hn by (eapply (proj1 (Forall_forall _ _) Hna); rewrite Hl; apply elem_of_app; right; by left).
  pose proof (check_outcome _ _ _ Hf Hn) as Ho. rewrite E in Ho. pose proof Ho as (Hk & Hnx & Hc & Hcase).
  rewrite Hl in Hnd, Hfr, Hna. unfold ids in Hnd. rewrite fmap_app, fmap_cons in Hnd.
  assert (forall l, l = l1 ++ l2 -> NoDup (ids l) /\ Forall (fun q => (y_id q < s_next s')%positive) l /\ Forall names_ok l /\ y_id p ∉ ids l) as Hrest.
  { intros l ->. apply NoDup_app in Hnd as (N1 & N2 & [N3 N4]%NoDup_cons). apply Forall_app in Hfr as [F1 F2]. apply Forall_app in Hna as [G1 G2].
    apply Forall_cons in F2 as [_ F2]. apply Forall_cons in G2 as [_ G2]. split_and!.
    - unfold ids. rewrite fmap_app. apply NoDup_app. split_and!; [done| |done]. intros x Hx Hx2. apply (N2 x Hx). by right.
    - apply Forall_app. split; [eapply Forall_impl; [exact F1|]|eapply Forall_impl; [exact F2|]]; cbn beta; intros q Hq; lia.
    - by apply Forall_app.
    - unfold ids. rewrite fmap_app. intros [|]%elem_of_app; [by apply H1|by apply H2]. }
  assert ((y_id p < s_next s)%positive) as Hp by (apply Forall_app in Hfr as [_ [? _]%Forall_cons]; done).
  destruct Hcase as [[_ -> Hnx' _ (p' & Hs & Hlo & Hr) _]|[Hn0 (sigs & Hr & Hlen & Hle & Hsig & Hflag & _) _]].
  - exists l1, l2, [p']. rewrite (update_split s l1 p l2 p') in Hr by (done || apply Hs).
    assert (s_running s' ≡ₚ l1 ++ l2 ++ [p']) as Hperm by (rewrite Hr; solve_Permutation).
    split_and!; [done|done| |done|done|done|done|done|intros q ->%list_elem_of_singleton; left; apply Hs|right; left; by eexists].
    destruct (Hrest (l1 ++ l2) eq_refl) as (R1 & R2 & R3 & R4). rewrite app_assoc in Hperm.
    split; unfold ids; rewrite Hperm; [rewrite fmap_app; apply NoDup_app; split_and!; [done| |apply NoDup_singleton]|apply Forall_app; split; [done|]|apply Forall_app; split; [done|]].
    + intros x Hx ->%list_elem_of_singleton. rewrite (sf_id _ _ Hs) in Hx. done.
    + constructor; [|done]. rewrite (sf_id _ _ Hs), Hnx'. done.
    + constructor; [|done]. by eapply names_ok_same.
  - assert (y_id p ∉ ids sigs) as Hps.
    { intros (q & Hq & Hin)%list_elem_of_fmap. rewrite Forall_forall in Hsig. apply Hsig in Hin as [Hx _]. lia. }
    rewrite (remove_split s l1 p l2 sigs) in Hr by done. exists l1, l2, sigs. destruct (Hrest (l1 ++ l2) eq_refl) as (R1 & R2 & R3 & R4).
    split_and!; [done|by rewrite Hr| |done|done|done|done|done|intros q Hq; right; rewrite Forall_forall in Hsig; by apply Hsig|].
    + rewrite app_assoc in Hr. split; rewrite Hr.
      * unfold ids. rewrite fmap_app. apply NoDup_app. split_and!; [done| |].
        -- intros x (q & -> & Hq)%list_elem_of_fmap (q' & Hqq & Hq')%list_elem_of_fmap. rewrite Forall_forall in Hsig. apply Hsig in Hq' as [Hx _].
           assert (Forall (fun q => (y_id q < s_next s)%positive) (l1 ++ l2)) as Ho2 by (apply Forall_app in Hfr as [? [_ ?]%Forall_cons]; by apply Forall_app).
           rewrite Forall_forall in Ho2. apply Ho2 in Hq. lia.
        -- destruct sigs as [|q [|]]; [constructor|apply NoDup_singleton|cbn in Hle; lia].
      * apply Forall_app. split; [done|]. eapply Forall_impl; [exact Hsig|]. intros q (? & ? & _). lia.
      * apply Forall_app. split; [done|]. eapply Forall_impl; [exact Hsig|]. by intros q (_ & _ & _ & _ & ?).
    + destruct sigs as [|q [|]]; [by left| |cbn in Hle; lia]. right. right. exists q. apply Forall_cons in Hsig as [(? & ? & ? & ? & ?) _].
      destruct Hflag as [|[? ?]]; [done|]. by split_and!.
Qed.

(** ** The invariant of the loop *)

(** The requests a payload can still lead to. *)
Definition weight (p : payload) : nat := 1 + left_over p + (if negb (y_signature p) && y_download_signature p then 2 else 0).
Definition total (l : list payload) : nat := sum_list_with weight l.
Definition work (m : mst) : nat := total (s_running (m_st m)) + sum_list_with (fun p => S (weight p)) (m_waiting m).
Lemma total_weight_app l l' : total (l ++ l') = (total l + total l')%nat.
Proof. unfold total. induction l as [|x l IH]; cbn; [done|]. rewrite IH. lia. Qed.
Lemma total_perm l l' : l ≡ₚ l' -> total l = total l'.
Proof. unfold total. induction 1; cbn; lia. Qed.

(** A download that is over, well or with an error that was allowed. *)
Definition settled (p : payload) (ret : Z) : Prop := ret = 0 \/ ret = 1 \/ ret = -1 /\ y_errors_ok p = true.
Definition done_with (s : st) (p : payload) : Prop :=
  exists q, same_file p q /\ (q ∈ s_complete s \/ exists ret, (q, ret) ∈ s_results s /\ settled q ret).
(** [rs] are the messages that are still to be read. *)
Record inv (P : list payload) (rs : list report) (m : mst) : Prop := {
  iv_ok : ok (m_st m);
  iv_names : Forall names_ok (m_waiting m);
  iv_fresh : Forall (fun p => (y_id p < s_next (m_st m))%positive /\ y_id p ∉ ids (s_running (m_st m))) (m_waiting m);
  iv_nodup : NoDup (ids (m_waiting m));
  iv_count : still_running (m_st m) rs <= m_active m;
  iv_asked a : a ∈ s_asked (m_st m) ->
    m_err m = true \/ a.1 ∈ ids (s_running (m_st m)) \/ exists q ret, (q, ret) ∈ s_results (m_st m) /\ y_id q = a.1 /\ settled q ret;
  iv_disk q d : (q, 0) ∈ s_results (m_st m) -> y_destfile_name q = Some d -> is_part d = false /\ is_Some (s_disk (m_st m) !! d);
  iv_done p : p ∈ P -> m_err m = true \/ (exists q, same_file p q /\ (q ∈ m_waiting m \/ q ∈ s_running (m_st m))) \/ done_with (m_st m) p }.

Lemma check_unknown s r : find_running s (r_id r) = None -> check s r = (1, s, 0).
Proof. intros H. unfold curl_check_finished_download. by rewrite H. Qed.
Lemma still_cons s r rs : still_running s (r :: rs) = Z.of_nat (length (List.filter (fun p => negb (bool_decide (y_id p = r_id r)) && negb (bool_decide (y_id p ∈ r_id <$> rs))) (s_running s))).
Proof.
  unfold still_running. do 2 f_equal. apply List.filter_ext. intros p. cbn. destruct (decide (y_id p = r_id r)) as [E|E].
  - rewrite bool_decide_eq_true_2 by (rewrite E; by left). by rewrite bool_decide_eq_true_2.
  - rewrite (bool_decide_eq_false_2 (y_id p = r_id r)) by done. cbn. f_equal. apply bool_decide_ext. rewrite elem_of_cons. intuition.
Qed.
Lemma still_perm (f : payload -> bool) l l' : l ≡ₚ l' -> length (List.filter f l) = length (List.filter f l').
Proof. induction 1; cbn; repeat case_match; cbn; congruence. Qed.
Lemma still_check s s' r rs l1 p l2 new : s_running s = l1 ++ p :: l2 -> s_running s' ≡ₚ l1 ++ l2 ++ new -> y_id p = r_id r -> y_id p ∉ ids l1 -> y_id p ∉ ids l2 ->
  still_running s' rs <= still_running s (r :: rs) + Z.of_nat (length new).
Proof.
  intros E E' Hid H1 H2. rewrite still_cons. unfold still_running. set (f := fun p => negb (bool_decide (y_id p ∈ r_id <$> rs))).
  set (g := fun p : payload => negb (bool_decide (y_id p = r_id r)) && _). rewrite (still_perm f _ _ E'), E, !List.filter_app, !length_app. cbn [List.filter]. replace (g p) with false by (unfold g; by rewrite bool_decide_eq_true_2).
  assert (forall l, y_id p ∉ ids l -> List.filter g l = List.filter f l) as Hl.
  { induction l as [|q l IH]; [done|]. cbn. intros [Hq Hl]%not_elem_of_cons. unfold g at 1. rewrite (bool_decide_eq_false_2 (y_id q = r_id r)) by congruence. cbn. fold (f q). by rewrite IH. }
  rewrite (Hl l1), (Hl l2) by done. pose proof (List.filter_length_le f new) as Hle. lia.
Qed.

Definition after_message (m : mst) (x : Z * st * Z) : mst :=
  let '(ret, s, n) := x in
  if ret =? -1 then Mst s [] (m_active m + n) true (m_updated m) else Mst s (m_waiting m) (m_active m + n) (m_err m) (m_updated m || (ret =? 0)).
Lemma read_cons m r rs : read_messages fopen_ok ftruncate_ok rename_ok dbext m (r :: rs) =
  read_messages fopen_ok ftruncate_ok rename_ok dbext (after_message m (check (m_st m) r)) rs.
Proof. cbn [read_messages]. unfold after_message. by destruct (check (m_st m) r) as [[ret s] n]. Qed.
Lemma weight_new p q : same_file p q -> (left_over q < left_over p)%nat -> (weight q < weight p)%nat.
Proof. intros [_ _ _ _ E1 E2] H. unfold weight. rewrite E1, E2. lia. Qed.

(** The results after a message. *)
Lemma outcome_results s p ret s' n : outcome s p (ret, s', n) ->
  s_results s' = s_results s /\ (ret = 2 \/ ret = -1) \/
  exists q ret1, same_file p q /\ s_results s' = s_results s ++ [(q, ret1)] /\ (ret = -1 \/ settled q ret1) /\
    (ret1 = 0 -> forall d, y_destfile_name p = Some d -> is_Some (s_disk s' !! d)).
Proof.
  intros (_ & _ & _ & [[-> _ _ ? _ _]|[_ _ [[-> ?]|(q & ret1 & Hs & Hr & Hc & -> & Hd)]]]); [auto|auto|]. right. exists q, ret1. split_and!; try done.
  unfold settled. rewrite (sf_errors_ok _ _ Hs). destruct Hc as [-> | [-> | ->]]; cbn; auto. destruct (y_errors_ok p); auto.
Qed.
Lemma outcome_asked s p ret s' n a : outcome s p (ret, s', n) -> ok s -> p ∈ s_running s -> a ∈ s_asked s' -> a ∈ s_asked s \/ a.1 = y_id p \/ a.1 ∈ ids (s_running s').
Proof.
  intros (_ & _ & _ & Hc) [Hnd Hfr Hna] Hp. destruct Hc as [[_ _ _ _ _ (l & ->)]|[_ (sigs & Hrun & _ & _ & Hsig & _ & l & l' & -> & Hl') _]].
  - intros [?|(u & -> & _)%list_elem_of_fmap]%elem_of_app; auto.
  - intros [?|[(u & -> & _)%list_elem_of_fmap|Ha]%elem_of_app]%elem_of_app; auto. right. right. rewrite Forall_forall in Hl'. rewrite Forall_forall in Hsig. rewrite Forall_forall in Hfr.
    apply Hl' in Ha as (q & Hq1 & Hq)%list_elem_of_fmap. rewrite Hq1. unfold ids. apply list_elem_of_fmap. exists q. split; [done|]. rewrite Hrun. apply list_elem_of_In, List.filter_In.
    split; [apply list_elem_of_In, elem_of_app; by right|]. rewrite bool_decide_eq_false_2; [done|]. apply Hsig in Hq as [Hq _]. apply Hfr in Hp. lia.
Qed.

Lemma outcome_fate s p ret s' n : outcome s p (ret, s', n) -> p ∈ s_running s ->
  ret = -1 \/ (exists q, same_file p q /\ q ∈ s_running s') \/ exists q ret1, same_file p q /\ (q, ret1) ∈ s_results s' /\ settled q ret1.
Proof.
  intros Ho Hp. destruct (outcome_results _ _ _ _ _ Ho) as [[_ [-> | ->]]|(q & r1 & Hs & -> & [-> | Hset] & _)]; [|auto|auto|].
  - destruct Ho as (_ & _ & _ & [[_ _ _ _ (p' & Hs & _ & Hrun) _]|[_ _ [[? _]|(q & ret1 & _ & _ & Hc & Hr & _)]]]); [|done|].
    + right. left. exists p'. split; [done|]. rewrite Hrun. unfold update_running, set_running. cbn [s_running]. apply list_elem_of_fmap. exists p.
      split; [|done]. rewrite decide_True; [done|]. by rewrite (sf_id _ _ Hs).
    + destruct (_ && _); lia.
  - right. right. exists q, r1. split_and!; [done| |done]. apply elem_of_app. right. by left.
Qed.
Lemma outcome_others s s' l1 p l2 new q : s_running s = l1 ++ p :: l2 -> s_running s' ≡ₚ l1 ++ l2 ++ new -> q ∈ s_running s -> q <> p -> q ∈ s_running s'.
Proof.
  intros -> ->. intros [?|[-> | ?]%elem_of_cons]%elem_of_app; rewrite ?elem_of_app; auto; done.
Qed.

Lemma message_inv P r rs m : inv P (r :: rs) m ->
  let m' := after_message m (check (m_st m) r) in
  inv P rs m' /\ (r_id r ∉ ids (s_running (m_st m)) /\ m_st m' = m_st m /\ m_active m' = m_active m /\ m_waiting m' = m_waiting m \/ (work m' < work m)%nat).
Proof.
  intros [I1 I2 I3 I4 I5 I6 I7 I8]. destruct (find_running (m_st m) (r_id r)) as [p|] eqn:Ef.
  2: { rewrite (check_unknown _ _ Ef). apply find_running_None in Ef. cbn [after_message Z.eqb m_st m_active m_waiting]. rewrite Z.add_0_r.
       split; [|by left]. split; try done. cbn. etrans; [|exact I5]. rewrite still_cons. unfold still_running. apply inj_le, Nat.eq_le_incl. f_equal. apply List.filter_ext_in.
       intros q Hq. rewrite (bool_decide_eq_false_2 (y_id q = r_id r)); [done|]. intros Heq. apply Ef. unfold ids. apply list_elem_of_fmap. exists q. split; [done|]. by apply list_elem_of_In. }
  destruct (check (m_st m) r) as [[ret s'] n] eqn:E. destruct (check_running _ _ _ _ _ _ I1 Ef E) as (l1 & l2 & new & Hl & Hl' & Hok & Ho & Hid & H1 & H2 & Hn & Hnew & Hcase).
  set (s := m_st m) in *. assert (p ∈ s_running s) as Hp by (rewrite Hl; apply elem_of_app; right; by left).
  pose proof (outcome_results _ _ _ _ _ Ho) as Hres. pose proof (fun a => outcome_asked _ _ _ _ _ a Ho I1 Hp) as Hask. pose proof Ho as Hout. destruct Ho as (Hk & Hnx & (lc & Hc) & _).
  assert (m_st (after_message m (ret, s', n)) = s' /\ m_active (after_message m (ret, s', n)) = m_active m + n /\
          (ret = -1 /\ m_waiting (after_message m (ret, s', n)) = [] /\ m_err (after_message m (ret, s', n)) = true \/
           ret <> -1 /\ m_waiting (after_message m (ret, s', n)) = m_waiting m /\ m_err (after_message m (ret, s', n)) = m_err m)) as (Es & Ea & Ew).
  { unfold after_message. destruct (Z.eqb_spec ret (-1)); cbn; split_and!; auto. }
  set (m' := after_message m (ret, s', n)) in *.
  assert (m_err m = true -> m_err m' = true) as Herr by (destruct Ew as [(_ & _ & ->)|(_ & _ & ->)]; done).
  assert (forall x, x ∈ s_results s -> x ∈ s_results s') as Hmore by (intros x Hx; destruct Hres as [[-> _]|(? & ? & _ & -> & _)]; [done|apply elem_of_app; by left]).
  assert (forall x, x ∈ s_running s -> m_err m' = true \/ (exists q, same_file x q /\ q ∈ s_running s') \/ exists q r1, same_file x q /\ (q, r1) ∈ s_results s' /\ settled q r1) as Hfate.
  { intros x Hx. destruct (decide (x = p)) as [->|Nx]; [|right; left; exists x; split; [done|by eapply outcome_others]].
    destruct (outcome_fate _ _ _ _ _ Hout Hp) as [->|?]; [|by auto]. left. by destruct Ew as [(_ & _ & ->)|(? & _)]. }
  split.
  - split; rewrite ?Es, ?Ea.
    + done.
    + destruct Ew as [(_ & -> & _)|(_ & -> & _)]; [constructor|done].
    + destruct Ew as [(_ & -> & _)|(_ & -> & _)]; [constructor|]. eapply Forall_impl; [exact I3|]. cbn beta. intros q [Hq1 Hq2]. split; [lia|]. unfold ids. rewrite Hl'.
      intros (x & Hx & Hin)%list_elem_of_fmap. rewrite app_assoc in Hin. apply elem_of_app in Hin as [Hin|[Hy|Hy]%Hnew]; [| |lia].
      * apply Hq2. rewrite Hx, Hl. unfold ids. apply list_elem_of_fmap. exists x. split; [done|]. apply elem_of_app in Hin as [?|?]; apply elem_of_app; [by left|right; by right].
      * apply Hq2. rewrite Hx, Hy. unfold ids. apply list_elem_of_fmap. by exists p.
    + destruct Ew as [(_ & -> & _)|(_ & -> & _)]; [constructor|done].
    + pose proof (still_check s s' r rs l1 p l2 new Hl Hl' Hid H1 H2). lia.
    + assert (forall x, x ∈ s_running s -> m_err m' = true \/ y_id x ∈ ids (s_running s') \/ exists q ret, (q, ret) ∈ s_results s' /\ y_id q = y_id x /\ settled q ret) as Hrun.
      { intros x Hx. destruct (Hfate x Hx) as [?|[(q & Hs & Hq)|(q & r1 & Hs & Hq & Hset)]]; [auto| |].
        - right. left. unfold ids. apply list_elem_of_fmap. exists q. by rewrite (sf_id _ _ Hs).
        - right. right. exists q, r1. split_and!; [done|apply Hs|done]. }
      intros a [Ha|[Ha|Ha]]%Hask; [|rewrite Ha; by apply Hrun|by auto].
      apply I6 in Ha as [He|[(x & -> & Hx)%list_elem_of_fmap|(q & rr & Hq & Hqi & Hqs)]]; [left; by apply Herr|by apply Hrun|].
      right. right. exists q, rr. split_and!; [by apply Hmore|done|done].
    + intros q d Hq Hd. destruct Hres as [[Hr _]|(q' & r1 & Hs & Hr & _ & Hdisk)]; rewrite Hr in Hq.
      * destruct (I7 q d Hq Hd) as [? ?]. split; [done|by apply Hk].
      * apply elem_of_app in Hq as [Hq|[= <- <-]%list_elem_of_singleton]; [destruct (I7 q d Hq Hd) as [? ?]; split; [done|by apply Hk]|].
        rewrite (sf_dest _ _ Hs) in Hd. split; [|by apply Hdisk]. destruct I1 as [_ _ Hna]. rewrite Forall_forall in Hna. by apply (Hna p Hp).
    + intros x Hx. destruct (I8 x Hx) as [He|[(q & Hs & [Hq|Hq])|(q & Hs & [Hq|(rr & Hq & Hset)])]].
      * left. by apply Herr.
      * destruct Ew as [(_ & _ & ->)|(_ & -> & _)]; [by left|]. right. left. exists q. auto.
      * destruct (Hfate q Hq) as [?|[(q2 & Hs2 & Hq2)|(q2 & r1 & Hs2 & Hq2 & Hset)]]; [auto| |].
        -- right. left. exists q2. split; [by etrans|auto].
        -- right. right. exists q2. split; [by etrans|]. right. by exists r1.
      * right. right. exists q. split; [done|]. left. rewrite Hc. apply elem_of_app. by left.
      * right. right. exists q. split; [done|]. right. exists rr. split; [by apply Hmore|done].
  - right. unfold work. rewrite Es.
    assert (total (s_running s') < total (s_running s))%nat as Ht.
    { rewrite Hl, (total_perm _ _ Hl'), !total_weight_app. change (total (p :: l2)) with (weight p + total l2)%nat.
      assert (total new < weight p)%nat; [|lia]. destruct Hcase as [-> | [(q & -> & Hs & Hlt)|(q & -> & Hq1 & Hq2 & Hq3 & Hq4)]]; cbv [total sum_list_with].
      - unfold weight. lia.
      - pose proof (weight_new _ _ Hs Hlt). lia.
      - unfold weight. rewrite Hq1, Hq2, Hq3, Hq4. cbn. lia. }
    change (m_st m) with s. destruct Ew as [(_ & -> & _)|(_ & -> & _)]; cbn [sum_list_with]; lia.
Qed.

Lemma read_inv P rs : forall m, inv P rs m ->
  let m' := read_messages fopen_ok ftruncate_ok rename_ok dbext m rs in
  inv P [] m' /\ ((forall r, r ∈ rs -> r_id r ∉ ids (s_running (m_st m))) /\ m_st m' = m_st m /\ m_active m' = m_active m /\ m_waiting m' = m_waiting m \/ (work m' < work m)%nat).
Proof.
  induction rs as [|r rs IH]; intros m Hinv; [split; [done|left; split_and!; try done; by intros r Hr%elem_of_nil]|].
  rewrite read_cons. destruct (message_inv _ _ _ _ Hinv) as [Hi Hc]. set (m1 := after_message m _) in *. destruct (IH m1 Hi) as [Hi2 Hc2]. split; [done|].
  destruct Hc as [(Hr & Es & Ea & Ew)|Hc]; [|right; destruct Hc2 as [(_ & Es & Ea & Ew)|?]; [|lia]; unfold work in *; rewrite Es, Ew; lia].
  destruct Hc2 as [(Hrs & Es2 & Ea2 & Ew2)|Hc2]; [|right; unfold work in *; rewrite Es, Ew in Hc2; lia].
  left. rewrite Es2, Es, Ea2, Ea, Ew2, Ew. split_and!; try done. intros x [->|Hx]%elem_of_cons; [done|]. rewrite Es in Hrs. by apply Hrs.
Qed.

(** Starting downloads. *)
Lemma done_with_grows s s' p : grows s s' -> done_with s p -> done_with s' p.
Proof. intros [_ _ Hr [l Hc]] (q & Hs & Hq). exists q. split; [done|]. rewrite Hr, Hc. destruct Hq; [left; apply elem_of_app; by left|auto]. Qed.
Lemma still_nil s : still_running s [] = Z.of_nat (length (s_running s)).
Proof.
  unfold still_running. f_equal. induction (s_running s) as [|p l IH]; [done|]. cbn [List.filter].
  rewrite bool_decide_eq_false_2 by (cbn; apply not_elem_of_nil). cbn [negb length]. by rewrite IH.
Qed.
Lemma add_inv P m p rest : inv P [] m -> m_waiting m = p :: rest ->
  let '(b, s') := add (m_st m) p in
  let m' := Mst s' (if b then rest else []) (m_active m + 1) (m_err m || negb b) (m_updated m) in
  inv P [] m' /\ (work m' < work m)%nat.
Proof.
  intros [I1 I2 I3 I4 I5 I6 I7 I8] Ew. rewrite Ew in I2, I3, I4. apply Forall_cons in I2 as [N1 N2]. apply Forall_cons in I3 as [[F1 F2] F3]. apply NoDup_cons in I4 as [D1 D2].
  destruct (add (m_st m) p) as [b s'] eqn:E. destruct (add_spec _ _ _ _ N1 E) as (Hg & Hnx & Hcase). cbv zeta. set (s := m_st m) in *.
  assert (exists new, s_running s' = s_running s ++ new /\ (length new <= 1)%nat /\ (total new <= weight p)%nat /\ (forall q, q ∈ new -> same_file p q) /\
    (forall a, a ∈ s_asked s' -> a ∈ s_asked s \/ a.1 ∈ ids new) /\ (b = true -> (exists q, same_file p q /\ (q ∈ new \/ q ∈ s_complete s')))) as (new & Hrun & Hlen & Htot & Hnew & Hask & Hb).
  { destruct Hcase as [(Hr & Ha & Hq)|(-> & q & url & Hs & Hlo & Hr & Ha)].
    - exists []. rewrite app_nil_r. split_and!; [done|cbn; lia|cbn; lia|by intros q ?%elem_of_nil|rewrite Ha; auto|]. intros Hb. destruct (Hq Hb) as (q & ? & ?). eauto.
    - exists [q]. split_and!; [done|done| |by intros x ->%list_elem_of_singleton| |].
      + cbv [total sum_list_with]. pose proof (sf_sig _ _ Hs) as H1. pose proof (sf_dlsig _ _ Hs) as H2. unfold weight. rewrite H1, H2. lia.
      + rewrite Ha. intros a [?| ->%list_elem_of_singleton]%elem_of_app; [auto|]. right. cbn. rewrite (sf_id _ _ Hs). by left.
      + intros _. exists q. split; [done|]. left. by left. }
  assert (Forall (fun q => y_id q = y_id p) new) as Hid by (apply Forall_forall; intros q Hq; apply (sf_id _ _ (Hnew q Hq))).
  split; [split; cbn [m_st m_waiting m_active m_err]|].
  - destruct I1 as [O1 O2 O3]. split; rewrite Hrun.
    + unfold ids. rewrite fmap_app. apply NoDup_app. split_and!; [done| |destruct new as [|? [|]]; [constructor|apply NoDup_singleton|cbn in Hlen; lia]].
      intros x Hx (q & -> & Hq)%list_elem_of_fmap. rewrite Forall_forall in Hid. apply F2. by rewrite <- (Hid q Hq).
    + apply Forall_app. rewrite Hnx. split; [done|]. eapply Forall_impl; [exact Hid|]. cbn beta. intros q ->. done.
    + apply Forall_app. split; [done|]. apply Forall_forall. intros q Hq. eapply names_ok_same; [by apply Hnew|done].
  - destruct b; [done|constructor].
  - destruct b; [|constructor]. rewrite Hnx. apply Forall_forall. intros q Hq. rewrite Forall_forall in F3. destruct (F3 q Hq) as [Hq1 Hq2]. split; [done|]. rewrite Hrun.
    unfold ids. rewrite fmap_app. intros [?|(x & Hx & Hin)%list_elem_of_fmap]%elem_of_app; [done|]. apply D1. rewrite Forall_forall in Hid. rewrite <- (Hid x Hin), <- Hx.
    unfold ids. apply list_elem_of_fmap. by exists q.
  - destruct b; [done|constructor].
  - rewrite still_nil in *. rewrite Hrun, length_app. lia.
  - intros a Ha. destruct Hg as [_ _ Hres _]. rewrite Hres, Hrun. unfold ids. rewrite fmap_app. destruct (Hask a Ha) as [Ho|Hn].
    + destruct (I6 a Ho) as [->|[?|?]]; [by left|right; left; apply elem_of_app; by left|right; by right].
    + right. left. apply elem_of_app. by right.
  - intros q d Hq Hd. destruct Hg as [Hk _ Hres _]. rewrite Hres in Hq. destruct (I7 q d Hq Hd) as [? ?]. split; [done|by apply Hk].
  - intros x Hx. destruct (I8 x Hx) as [->|[(q & Hs & [Hq|Hq])|Hd]]; [by left| | |right; right; by eapply done_with_grows].
    + rewrite Ew in Hq. destruct b; [|left; by rewrite orb_true_r]. apply elem_of_cons in Hq as [->|Hq]; [|right; left; eauto].
      destruct (Hb eq_refl) as (q' & Hs' & [Hq|Hq]); [right; left; exists q'; split; [by etrans|right; rewrite Hrun; apply elem_of_app; by right]|].
      right. right. exists q'. split; [by etrans|auto].
    + right. left. exists q. split; [done|]. right. rewrite Hrun. apply elem_of_app. by left.
  - unfold work. cbn [m_st m_waiting]. rewrite Hrun, total_weight_app, Ew. change (m_st m) with s.
    change (sum_list_with (fun p => S (weight p)) (p :: rest)) with (S (weight p) + sum_list_with (fun p => S (weight p)) rest)%nat. destruct b; cbn [sum_list_with]; lia.
Qed.
Lemma fill_inv P m : inv P [] m -> let m' := fill fopen_ok max_streams m in
  inv P [] m' /\ (m' = m /\ (m_waiting m = [] \/ max_streams <= m_active m) \/ (work m' < work m)%nat).
Proof.
  cbv zeta. remember (m_waiting m) as w eqn:Ew. revert m Ew. induction w as [|p rest IH]; intros m Ew Hinv.
  - unfold fill. rewrite <- Ew. cbn [start_downloads]. rewrite orb_false_r.
    assert (Mst (m_st m) [] (m_active m) (m_err m) (m_updated m) = m) as -> by (destruct m; cbn in *; congruence). auto.
  - unfold fill. rewrite <- Ew. cbn [start_downloads]. destruct (Z.ltb_spec (m_active m) max_streams) as [Hlt|Hge].
    2: { rewrite orb_false_r. assert (Mst (m_st m) (p :: rest) (m_active m) (m_err m) (m_updated m) = m) as -> by (destruct m; cbn in *; congruence). auto. }
    pose proof (add_inv P m p rest Hinv (eq_sym Ew)) as Ha. destruct (add (m_st m) p) as [b s'] eqn:E. destruct b; cbv zeta in Ha; destruct Ha as [Ha Hw].
    + rewrite orb_false_r in Ha, Hw. specialize (IH (Mst s' rest (m_active m + 1) (m_err m) (m_updated m)) eq_refl Ha). unfold fill in IH. cbn [m_st m_active m_waiting m_err m_updated] in IH.
      destruct (start_downloads fopen_ok max_streams s' (m_active m + 1) rest) as [[[s2 a2] w2] f2]. destruct IH as [IH1 IH2]. split; [done|]. right.
      destruct IH2 as [[-> _]|?]; [done|lia].
    + split; [done|by right].
Qed.

(** What happens during the transfers. *)
Record steady (s s' : st) : Prop := {
  sd_running : Forall2 (fun p q => same_file p q /\ left_over q = left_over p) (s_running s) (s_running s');
  sd_disk : keeps (s_disk s) (s_disk s'); sd_next : s_next s' = s_next s; sd_results : s_results s' = s_results s;
  sd_asked : s_asked s' = s_asked s; sd_complete : s_complete s' = s_complete s }.
Lemma steady_refl s : steady s s.
Proof. split; try done. apply Forall_Forall2_diag, Forall_forall. by intros. Qed.
Lemma steady_trans s1 s2 s3 : steady s1 s2 -> steady s2 s3 -> steady s1 s3.
Proof.
  intros [A1 A2 A3 A4 A5 A6] [B1 B2 B3 B4 B5 B6]. split; try congruence; [|by etrans]. eapply Forall2_trans; [|exact A1|exact B1].
  intros x y z [? ?] [? ?]. split; [by etrans|congruence].
Qed.
Lemma steady_ids s s' : steady s s' -> ids (s_running s') = ids (s_running s) /\ total (s_running s') = total (s_running s).
Proof.
  intros [H _ _ _ _ _]. induction H as [|p q l l' [Hs Hl] H IH]; [done|]. destruct IH as [IH1 IH2]. split.
  - unfold ids in *. cbn. by rewrite IH1, (sf_id _ _ Hs).
  - unfold total in *. cbn [sum_list_with]. rewrite IH2. f_equal. pose proof (sf_sig _ _ Hs) as H1. pose proof (sf_dlsig _ _ Hs) as H2. unfold weight. by rewrite H1, H2, Hl.
Qed.
Lemma steady_ok s s' : steady s s' -> ok s -> ok s'.
Proof.
  intros H [O1 O2 O3]. destruct (steady_ids _ _ H) as [Hi _]. destruct H as [Hr _ Hn _ _ _]. split.
  - by rewrite Hi.
  - rewrite Hn. clear -Hr O2. induction Hr as [|p q l l' [Hs _] Hr IH]; [done|]. apply Forall_cons in O2 as [? ?]. constructor; [by rewrite (sf_id _ _ Hs)|by apply IH].
  - clear -Hr O3. induction Hr as [|p q l l' [Hs _] Hr IH]; [done|]. apply Forall_cons in O3 as [? ?]. constructor; [by eapply names_ok_same|by apply IH].
Qed.
Lemma steady_transfer s t : ok s -> steady s (on_transfer s t).
Proof.
  intros [Hnd _ _]. destruct t as [id r|id data|id dt dn]; cbn [on_transfer]; (destruct (find_running s id) as [p|] eqn:Ef; [|apply steady_refl]).
  - destruct (find_running_Some _ _ _ Hnd Ef) as (Hid & l1 & l2 & Hl & H1 & H2). subst id. split; try done.
    rewrite (update_split s l1 p l2) by done. rewrite Hl. apply Forall2_app; [apply Forall_Forall2_diag, Forall_forall; by intros|].
    constructor; [split; [by split|done]|apply Forall_Forall2_diag, Forall_forall; by intros].
  - destruct (steady_refl s). split; try done. by apply keeps_insert.
  - unfold dload_progress_cb. destruct (steady_refl s). repeat case_match; by split.
Qed.
Lemma steady_transfers ts : forall s, ok s -> steady s (foldl on_transfer s ts).
Proof.
  induction ts as [|t ts IH]; intros s Hok; [apply steady_refl|]. cbn. pose proof (steady_transfer s t Hok) as H1.
  eapply steady_trans; [exact H1|]. apply IH. by eapply steady_ok.
Qed.
Lemma steady_inv P m s' rs w a e u : inv P [] m -> steady (m_st m) s' -> still_running s' rs <= a ->
  (w = m_waiting m /\ e = m_err m \/ w = [] /\ e = true) -> inv P rs (Mst s' w a e u).
Proof.
  intros [I1 I2 I3 I4 I5 I6 I7 I8] Hst Ha Hw. destruct (steady_ids _ _ Hst) as [Hi _]. pose proof (steady_ok _ _ Hst I1) as Hok. destruct Hst as [Hr Hk Hn Hres Hask Hc].
  split; cbn [m_st m_waiting m_active m_err].
  - done.
  - by destruct Hw as [[-> _]|[-> _]].
  - destruct Hw as [[-> _]|[-> _]]; [|constructor]. by rewrite Hn, Hi.
  - destruct Hw as [[-> _]|[-> _]]; [done|constructor].
  - done.
  - intros x. rewrite Hask, Hi, Hres. destruct Hw as [[_ ->]|[_ ->]]; [apply I6|auto].
  - intros q d. rewrite Hres. intros Hq Hd. destruct (I7 q d Hq Hd). split; [done|by apply Hk].
  - intros p Hp. destruct Hw as [[-> ->]|[_ ->]]; [|by left]. destruct (I8 p Hp) as [?|[(q & Hs & [Hq|Hq])|(q & Hs & Hq)]]; [by left|right; left; eauto| |].
    + right. left. apply list_elem_of_lookup in Hq as [i Hi2]. destruct (Forall2_lookup_l _ _ _ _ _ Hr Hi2) as (q' & Hq' & Hs' & _).
      exists q'. split; [by etrans|]. right. by eapply list_elem_of_lookup_2.
    + right. right. exists q. split; [done|]. by rewrite Hres, Hc.
Qed.

(** ** One round *)

Notation step m r := (perform fopen_ok ftruncate_ok rename_ok dbext (fill fopen_ok max_streams m) r).
(** The number of active downloads can be too high until libcurl sets it. *)
Definition phantom (m : mst) : nat := if bool_decide (s_running (m_st m) = []) && (0 <? m_active m) then 1 else 0.
Definition measure (m : mst) : nat := 2 * work m + phantom m.
Definition goes_on (m : mst) : bool := (0 <? m_active m) || negb (bool_decide (m_waiting m = [])).
(** A round in which libcurl works and, when transfers are running, one of them
    comes to an end. *)
Definition productive (m : mst) (r : round) : Prop :=
  match r with
  | PerformOk _ _ rs => s_running (m_st m) = [] \/ exists rep, rep ∈ rs /\ r_id rep ∈ ids (s_running (m_st m))
  | PerformError _ => False
  end.
Lemma phantom_le m : (phantom m <= 1)%nat.
Proof. unfold phantom. destruct (_ && _); lia. Qed.

Lemma perform_inv P m r : inv P [] m ->
  let m' := perform fopen_ok ftruncate_ok rename_ok dbext m r in
  inv P [] m' /\ ((work m' < work m)%nat \/
    (work m' <= work m)%nat /\ ids (s_running (m_st m')) = ids (s_running (m_st m)) /\
    match r with
    | PerformOk _ _ rs => (forall rep, rep ∈ rs -> r_id rep ∉ ids (s_running (m_st m))) /\ m_active m' = Z.of_nat (length (s_running (m_st m)))
    | PerformError _ => m_active m' = m_active m
    end).
Proof.
  intros Hinv. destruct r as [wait_ok ts rs|rs]; cbn [perform]; cbv zeta.
  - pose proof (steady_transfers ts (m_st m) (iv_ok _ _ _ Hinv)) as Hst. set (s := foldl on_transfer (m_st m) ts) in *.
    set (m1 := Mst s _ _ _ _). assert (inv P rs m1) as Hi.
    { unfold m1. apply (steady_inv P m); [done|done|lia|]. destruct wait_ok; [left; by rewrite orb_false_r|right; split; [done|apply orb_true_r]]. }
    destruct (steady_ids _ _ Hst) as [Hids Htot].
    assert (work m1 <= work m)%nat as Hw. { unfold work, m1. cbn [m_st m_waiting]. rewrite Htot. destruct wait_ok; cbn [sum_list_with]; lia. }
    destruct (read_inv P rs m1 Hi) as [Hi2 Hc]. split; [done|]. destruct Hc as [(Hrs & Es & Ea & Ew)|Hc]; [|left; lia]. right. unfold work in *. rewrite Es, Ea, Ew. split_and!; [done|done| |].
    + intros rep Hrep. rewrite <- Hids. by apply Hrs.
    + unfold m1. cbn [m_active]. replace (length (s_running (m_st m))) with (length (s_running s)) by (symmetry; by eapply Forall2_length, sd_running).
      cbn [m1 m_st] in Hrs. rewrite <- still_nil. unfold still_running. do 2 f_equal. apply List.filter_ext_in. intros q Hq. f_equal.
      rewrite !bool_decide_eq_false_2; [done|cbn; apply not_elem_of_nil|]. intros (rep & E & Hrep)%list_elem_of_fmap. apply (Hrs rep Hrep). rewrite <- E. unfold ids.
      apply list_elem_of_fmap. exists q. split; [done|]. by apply list_elem_of_In.
  - set (m1 := Mst (m_st m) [] _ _ _). assert (inv P rs m1) as Hi.
    { unfold m1. apply (steady_inv P m); [done|apply steady_refl| |by right]. etrans; [|apply (iv_count _ _ _ Hinv)]. rewrite still_nil. unfold still_running. apply inj_le, List.filter_length_le. }
    assert (work m1 <= work m)%nat as Hw by (unfold work, m1; cbn [m_st m_waiting sum_list_with]; lia).
    destruct (read_inv P rs m1 Hi) as [Hi2 Hc]. split; [done|]. destruct Hc as [(Hrs & Es & Ea & Ew)|Hc]; [|left; lia]. right. unfold work in *. by rewrite Es, Ea, Ew.
Qed.
Lemma step_measure P m r : inv P [] m -> goes_on m = true -> 1 <= max_streams ->
  inv P [] (step m r) /\ (measure (step m r) <= measure m)%nat /\ (productive (fill fopen_ok max_streams m) r -> (measure (step m r) < measure m)%nat).
Proof.
  intros Hinv Hgo Hmax. destruct (fill_inv P m Hinv) as [Hi Hf]. remember (fill fopen_ok max_streams m) as m1 eqn:Em1. destruct (perform_inv P m1 r Hi) as [Hi2 Hp].
  remember (perform fopen_ok ftruncate_ok rename_ok dbext m1 r) as m2 eqn:Em2. split; [done|]. unfold measure. pose proof (phantom_le m) as B1. pose proof (phantom_le m2) as B2.
  destruct Hp as [Hp|(Hle & Hids & Hr)].
  { assert (work m2 < work m)%nat by (destruct Hf as [[-> _]|?]; lia). lia. }
  destruct Hf as [[Hm Hw]|Hf]; [|lia]. rewrite Hm in *. clear Hm Em1 Em2 m1.
  assert (s_running (m_st m2) = [] <-> s_running (m_st m) = []) as Hnil.
  { unfold ids in Hids. split; intros E; rewrite E in Hids; cbn in Hids; [symmetry in Hids|]; by apply fmap_nil_inv in Hids. }
  destruct (decide (s_running (m_st m) = [])) as [Erun|Nrun].
  - assert (0 < m_active m) as Hact.
    { destruct Hw as [Hw|Hw]; [|lia]. unfold goes_on in Hgo. rewrite Hw in Hgo. rewrite (bool_decide_eq_true_2 ([] = [])) in Hgo by done. cbn in Hgo. rewrite orb_false_r in Hgo. lia. }
    assert (phantom m = 1%nat) as P1 by (unfold phantom; rewrite bool_decide_eq_true_2 by done; cbn; by rewrite (proj2 (Z.ltb_lt _ _))).
    destruct r as [wait_ok ts rs|rs]; [|cbn [productive]; lia]. destruct Hr as [_ Ha]. rewrite Erun in Ha.
    assert (phantom m2 = 0%nat) as P2 by (unfold phantom; rewrite Ha; cbn; by rewrite andb_false_r). lia.
  - assert (phantom m2 = 0%nat /\ phantom m = 0%nat) as [P1 P2] by (unfold phantom; rewrite !bool_decide_eq_false_2 by naive_solver; done).
    split; [lia|]. destruct r as [wait_ok ts rs|rs]; [|done]. intros [?|(rep & Hrep & Hin)]; [done|]. destruct Hr as [Hr _]. by destruct (Hr rep Hrep).
Qed.

(** ** The whole loop *)

#[local] Instance compare_order : CmpOrder compare_dload_payload_sizes.
Proof.
  split; unfold compare_dload_payload_sizes; cbv zeta; intros; repeat match goal with |- context [?a <? ?b] => destruct (Z.ltb_spec a b) | H : context [?a <? ?b] |- _ => destruct (Z.ltb_spec a b) end; lia.
Qed.

Lemma loop_inv P env fuel : 1 <= max_streams -> forall k m m', inv P [] m ->
  download_loop fopen_ok ftruncate_ok rename_ok dbext max_streams fuel env k m = Some m' -> inv P [] m' /\ goes_on m' = false.
Proof.
  intros Hmax. induction fuel as [|fuel IH]; intros k m m' Hinv; cbn [download_loop]; fold (goes_on m); destruct (goes_on m) eqn:Hgo; try done; [by intros [= <-]| |by intros [= <-]].
  apply IH. by apply (step_measure P m).
Qed.
Definition fair (env : nat -> mst -> round) : Prop := forall n, exists k, (n <= k)%nat /\ forall m, productive m (env k m).
Lemma loop_ends P env : 1 <= max_streams -> fair env -> forall n k m, (measure m < n)%nat -> inv P [] m ->
  exists fuel m', download_loop fopen_ok ftruncate_ok rename_ok dbext max_streams fuel env k m = Some m'.
Proof.
  intros Hmax Hfair. induction n as [|n IH]; intros k m Hm Hinv; [lia|]. destruct (Hfair k) as (k' & Hk & Hprod). remember (k' - k)%nat as d eqn:Ed.
  revert k m Hm Hinv Hk Ed. induction d as [|d IHd]; intros k m Hm Hinv Hk Ed.
  all: destruct (goes_on m) eqn:Hgo; [|exists 0%nat, m; cbn [download_loop]; fold (goes_on m); by rewrite Hgo].
  all: destruct (step_measure P m (env k (fill fopen_ok max_streams m)) Hinv Hgo Hmax) as (Hinv' & Hle & Hlt).
  - replace k' with k in Hprod by lia. destruct (IH (S k) _ (Nat.lt_le_trans _ _ _ (Hlt (Hprod _)) (proj1 (Nat.lt_succ_r _ _) Hm)) Hinv') as (fuel & m' & E).
    exists (S fuel), m'. cbn [download_loop]. fold (goes_on m). by rewrite Hgo.
  - destruct (IHd (S k) _ (Nat.le_lt_trans _ _ _ Hle Hm) Hinv' ltac:(lia) ltac:(lia)) as (fuel & m' & E). exists (S fuel), m'. cbn [download_loop]. fold (goes_on m). by rewrite Hgo.
Qed.

(** A download can start: nothing is running, and the payloads are different
    objects with proper names of files. *)
Record ready (s : st) (payloads : list payload) : Prop := {
  rd_running : s_running s = []; rd_asked : s_asked s = []; rd_results : s_results s = [];
  rd_nodup : NoDup (ids payloads); rd_fresh : Forall (fun p => (y_id p < s_next s)%positive) payloads; rd_names : Forall names_ok payloads }.
Lemma ready_inv s payloads : ready s payloads -> inv payloads [] (first_state s payloads).
Proof.
  intros [R1 R2 R3 R4 R5 R6]. pose proof (KList.list_msort_perm compare_dload_payload_sizes payloads) as Hp. unfold first_state.
  split; cbn [m_st m_waiting m_active m_err].
  - split; rewrite R1; [constructor|constructor|constructor].
  - by rewrite Hp.
  - rewrite Hp. eapply Forall_impl; [exact R5|]. cbn beta. intros p ?. split; [done|]. rewrite R1. apply not_elem_of_nil.
  - unfold ids. by rewrite Hp.
  - unfold still_running. rewrite R1. done.
  - intros a. rewrite R2. by intros ?%elem_of_nil.
  - intros q d. rewrite R3. by intros ?%elem_of_nil.
  - intros p Hin. right. left. exists p. split; [done|]. left. by rewrite Hp.
Qed.
Lemma stopped P m : inv P [] m -> goes_on m = false -> m_waiting m = [] /\ s_running (m_st m) = [].
Proof.
  intros [_ _ _ _ Hc _ _ _]. unfold goes_on. rewrite still_nil in Hc. intros [Ha Hw]%orb_false_iff. apply negb_false_iff, bool_decide_eq_true in Hw. split; [done|].
  apply Z.ltb_ge in Ha. destruct (s_running (m_st m)); [done|cbn in Hc; lia].
Qed.
End Loop.

(** C19: A download comes to an end.  Whatever servers and libcurl do, as long as
    rounds keep coming in which libcurl works and, when transfers are running, at
    least one of them is reported finished (with any result), the loop of
    [curl_download_internal] is left: every transfer is given up, retried on one
    of the finitely many servers left, or followed by one signature. *)
Theorem download_ends fopen_ok ftruncate_ok rename_ok dbext max_streams env s payloads
    (Hmax : 1 <= max_streams) (Hready : ready s payloads) (Hfair : fair env) :
  exists fuel r, curl_download_internal fopen_ok ftruncate_ok rename_ok dbext max_streams fuel env s payloads = Some r.
Proof.
  destruct (loop_ends fopen_ok ftruncate_ok rename_ok dbext max_streams payloads env Hmax Hfair _ 0 _ (Nat.lt_succ_diag_r _) (ready_inv s payloads Hready)) as (fuel & m & E).
  exists fuel. unfold curl_download_internal. rewrite E. by eexists.
Qed.

(** C8: A download that reports no error has delivered: every payload was fetched
    and lies under its final name, was found up to date, or failed although that
    was allowed, or its temporary file was complete at the start; and every
    request that was started, those for signatures too, has ended in one of these
    ways. *)
Theorem download_delivers fopen_ok ftruncate_ok rename_ok dbext max_streams fuel env s payloads ret s'
    (Hmax : 1 <= max_streams) (Hready : ready s payloads)
    (H : curl_download_internal fopen_ok ftruncate_ok rename_ok dbext max_streams fuel env s payloads = Some (ret, s')) (Hret : ret <> -1) :
  s_running s' = [] /\
  (forall p, p ∈ payloads -> exists q, same_file p q /\
     (q ∈ s_complete s' \/
      (exists r, (q, r) ∈ s_results s' /\
         (r = 0 /\ (forall d, y_destfile_name p = Some d -> is_Some (s_disk s' !! d)) \/ r = 1 \/ r = -1 /\ y_errors_ok p = true)))) /\
  (forall id url, (id, url) ∈ s_asked s' -> exists q r, (q, r) ∈ s_results s' /\ y_id q = id /\ settled q r).
Proof.
  unfold curl_download_internal in H. destruct (download_loop _ _ _ _ _ fuel env 0 _) as [m|] eqn:E; [|done]. cbn in H. injection H as <- <-.
  destruct (loop_inv fopen_ok ftruncate_ok rename_ok dbext max_streams payloads env fuel Hmax _ _ _ (ready_inv s payloads Hready) E) as [Hinv Hstop].
  destruct (stopped _ _ Hinv Hstop) as [Hw Hr]. assert (m_err m = false) as Herr by (unfold result_of in Hret; by destruct (m_err m)).
  destruct Hinv as [_ _ _ _ _ I6 I7 I8]. split; [done|]. split.
  - intros p Hp. destruct (I8 p Hp) as [?|[(q & _ & [Hq|Hq])|(q & Hs & Hq)]]; [congruence|rewrite Hw in Hq; by apply elem_of_nil in Hq|rewrite Hr in Hq; by apply elem_of_nil in Hq|].
    exists q. split; [done|]. destruct Hq as [?|(r & Hq & Hset)]; [by left|]. right. exists r. split; [done|]. destruct Hset as [->|[->|[-> Hx]]]; [|auto|].
    + left. split; [done|]. intros d Hd. apply (I7 q d Hq). by rewrite (sf_dest _ _ Hs).
    + right. right. by rewrite <- (sf_errors_ok _ _ Hs).
  - intros id url Ha. destruct (I6 _ Ha) as [?|[Hx|?]]; [congruence|rewrite Hr in Hx; by apply elem_of_nil in Hx|done].
Qed.

(** ** Examples *)

Definition ex_payload (id : positive) (name : string) (max : Z) (sig : bool) : payload :=
  Payload id (lit name) (lit "/tmp/" ++ lit name ++ lit ".part") (Some (lit "/tmp/" ++ lit name)) None (Some (lit name))
    [lit "http://cache"] [lit "http://user:pw@one/core"; lit "http://two/core"] 0 0 0 max false true false false sig false false false false.
Definition ex_start (disk : gmap cstr cstr) : st := St [] false disk [] 10 [] [] [].
(** A server that does not exist, one that answers 404, then success. *)
Definition ex_env (k : nat) (m : mst) : round :=
  let report result p := Report (y_id p) result (-1) 0 false [] in
  match k with
  | O => PerformOk true [] (report CURLE_COULDNT_RESOLVE_HOST <$> s_running (m_st m))
  | S O => PerformOk true ((fun p => Header (y_id p) 404) <$> s_running (m_st m)) (report CURLE_OK <$> s_running (m_st m))
  | _ => PerformOk true (((fun p => Header (y_id p) 200) <$> s_running (m_st m)) ++ ((fun p => Data (y_id p) (lit "abc")) <$> s_running (m_st m))) (report CURLE_OK <$> s_running (m_st m))
  end.
Definition ex_download (fopen_ok : cstr -> bool) (s : st) (ps : list payload) : option (Z * st) :=
  curl_download_internal fopen_ok (fun _ => true) (fun _ _ => true) (lit ".db") 2 20 ex_env s ps.
Definition ex_payloads : list payload := [ex_payload 1 "a.pkg" 3 true; ex_payload 2 "b.pkg" 9 false; ex_payload 3 "c.pkg" 5 false].

Lemma ex_ready disk : ready (ex_start disk) ex_payloads.
Proof.
  split; try done; [by_decide|repeat constructor|]. repeat apply Forall_cons_2; try apply Forall_nil_2.
  all: split; [vm_compute; reflexivity|intros d [= <-]; vm_compute; reflexivity].
Qed.
Lemma ex_fair : fair ex_env.
Proof.
  intros n. exists n. split; [done|]. intros m.
  assert (forall f, (forall p, r_id (f p) = y_id p) -> s_running (m_st m) = [] \/ exists rep, rep ∈ f <$> s_running (m_st m) /\ r_id rep ∈ ids (s_running (m_st m))) as H.
  { intros f Hf. destruct (s_running (m_st m)) as [|p l]; [by left|]. right. exists (f p). rewrite Hf. split; left. }
  destruct n as [|[|n]]; by apply H.
Qed.
Lemma download_ends_witness :
  exists fuel r, curl_download_internal (fun _ => true) (fun _ => true) (fun _ _ => true) (lit ".db") 2 fuel ex_env (ex_start ∅) ex_payloads = Some r.
Proof. apply (download_ends (fun _ => true) (fun _ => true) (fun _ _ => true) (lit ".db") 2 ex_env); [lia|apply ex_ready|apply ex_fair]. Defined.
Lemma download_delivers_witness : exists s', ex_download (fun _ => true) (ex_start ∅) ex_payloads = Some (0, s') /\ s_running s' = [] /\
  s_disk s' !! lit "/tmp/a.pkg" = Some (lit "abc") /\ s_disk s' !! lit "/tmp/a.pkg.sig" = Some (lit "abc") /\ s_errors s' = [(lit "cache", -1); (lit "one", 2); (lit "two", 0)].
Proof.
  eexists. split; [vm_compute; reflexivity|]. split; [|vm_compute; done].
  apply (download_delivers (fun _ => true) (fun _ => true) (fun _ _ => true) (lit ".db") 2 20 ex_env (ex_start ∅) ex_payloads 0); [lia|apply ex_ready|vm_compute; reflexivity|done].
Defined.

(** ** Defects *)

(** A temporary file that was complete at the start is not renamed: the download
    reports that there was nothing to do, and the file is not there. *)
Theorem complete_part_stays :
  exists s', ex_download (fun _ => true) (ex_start {[lit "/tmp/a.pkg.part" := lit "abc"]}) [ex_payload 1 "a.pkg" 3 false] = Some (1, s') /\
    s_disk s' !! lit "/tmp/a.pkg" = None /\ s_disk s' !! lit "/tmp/a.pkg.part" = Some (lit "abc").
Proof. eexists. split; [vm_compute; reflexivity|]. by vm_compute. Qed.

(** A required signature whose download cannot be started is forgotten. *)
Theorem signature_not_started :
  exists s', ex_download (fun f => negb (bool_decide (f = lit "/tmp/a.pkg.sig.part"))) (ex_start ∅) [ex_payload 1 "a.pkg" 9 true] = Some (0, s') /\
    s_disk s' !! lit "/tmp/a.pkg.sig" = None.
Proof. eexists. split; [vm_compute; reflexivity|]. by vm_compute. Qed.

(** [dload_interrupted] is never reset: after one transfer has exceeded its size,
    every other one is aborted, too. *)
Theorem interrupted_for_ever s p dltotal dlnow : s_interrupted s = true -> y_respcode p < 300 -> dload_progress_cb s p dltotal dlnow = (1, s).
Proof. intros Hi Hr. unfold dload_progress_cb. rewrite (proj2 (Z.leb_gt _ _) Hr). by rewrite Hi. Qed.

(** When [curl_multi_perform] keeps failing while transfers are running, the loop
    does not end. *)
Theorem perform_error_loops fopen_ok ftruncate_ok rename_ok dbext max fuel : forall k m, m_waiting m = [] -> 0 < m_active m ->
  download_loop fopen_ok ftruncate_ok rename_ok dbext max fuel (fun _ _ => PerformError []) k m = None.
Proof.
  induction fuel as [|fuel IH]; intros k m Hw Ha; cbn [download_loop]; rewrite (proj2 (Z.ltb_lt _ _) Ha); [done|]. cbn [orb]. unfold fill. rewrite Hw. cbn [start_downloads perform read_messages m_st m_active].
  by apply IH.
Qed.

(** [ASSERT(chown(...), return)] leaves the loop when [chown] succeeds: the second
    payload does not learn that its file exists. *)
Definition ex_cache : gmap cstr cstr := {[lit "/c/a.pkg.part" := lit "ab"; lit "/c/b.pkg" := lit "b"]}.
Definition ex_prepared (chown : Z) : list Z :=
  y_mtime_existing_file <$> (prepare_resumable_downloads (fun _ => 77) (fun _ _ => true) (fun _ => chown) true (lit "/c/") ex_cache [ex_payload 1 "a.pkg" 3 false; ex_payload 2 "b.pkg" 9 false]).1.
Theorem chown_ends_preparation : ex_prepared 0 = [0; 0] /\ ex_prepared (-1) = [0; 77].
Proof. by vm_compute. Qed.
End Dload.
