(* ===== verification/Conf.v ===== *)
(** * The configuration of the front end ([src/src/kuzpkg/conf.c])

    [parseconfig] reads the configuration file through [parse_ini] ([Ini.v]),
    follows its Include directives, fills in the defaults and merges the levels of
    signature checking.  The structure [config_t] is a record of the fields this
    code writes; [section->repo] is the position of a repository in
    [config->repos].  The files of the system, [glob], [realpath], the terminal,
    the machine's architecture and the paths the build chooses are parameters.
    [None] is undefined behaviour. *)

From coqutil Require Import Datatypes.RecordSetters.
From S2P Require Import Prelude CStr Util LocalDb Ini Db Validate SyncDb.
Import TriangleBracketNotations.
Local Open Scope Z_scope.

Module Conf.

(** ** Constants *)

Definition SIG_DATABASE_OPTIONAL : Z := 2 ^ 11.
Definition SIG_DATABASE_MARGINAL_OK : Z := 2 ^ 12.
Definition SIG_DATABASE_UNKNOWN_OK : Z := 2 ^ 13.
Definition DB_USAGE_SYNC : Z := 1.
Definition DB_USAGE_SEARCH : Z := 2.
Definition DB_USAGE_INSTALL : Z := 4.
Definition DB_USAGE_UPGRADE : Z := 8.
Definition PM_CLEAN_KEEPINST : Z := 1.
Definition PM_CLEAN_KEEPCUR : Z := 2.
Definition PM_COLOR_UNSET : Z := 0.
Definition PM_COLOR_OFF : Z := 1.
Definition PM_COLOR_ON : Z := 2.
Definition INT_MAX : Z := 2 ^ 31 - 1.
Definition SIZE_MAX : Z := 2 ^ 64 - 1.
Definition PATH_MAX : nat := 4096.

(** ** Data *)

(** [config_repo_t] *)
Record config_repo := Repo {
  r_name : cstr; r_cache_servers : list cstr; r_servers : list cstr; r_usage : Z; r_siglevel : Z; r_siglevel_mask : Z }.
(** The part of [config_t] this code writes, and [sysroot]. *)
Record config := Config {
  usesyslog : bool; chomp : bool; verbosepkglists : bool; checkspace : bool; color : Z; noprogressbar : bool;
  disable_dl_timeout : bool; disable_sandbox_filesystem : bool; disable_sandbox_syscalls : bool;
  sysroot : option cstr; rootdir : option cstr; dbpath : option cstr; logfile : option cstr; gpgdir : option cstr; sandboxuser : option cstr;
  hookdirs : list cstr; cachedirs : list cstr; architectures : list cstr; holdpkg : list cstr;
  ignorepkg : list cstr; ignoregrp : list cstr; noupgrade : list cstr; noextract : list cstr;
  siglevel : Z; siglevel_mask : Z; localfilesiglevel : Z; localfilesiglevel_mask : Z; remotefilesiglevel : Z; remotefilesiglevel_mask : Z;
  parallel_downloads : Z; cleanmethod : Z; xfercommand : option cstr; xfercommand_argv : list cstr; repos : list config_repo }.
(** [struct section_t]; of the name only whether it is there matters. *)
Record section_t := Section_t { s_name : option cstr; s_repo : option nat; s_depth : nat }.

(** [config_new], without signatures when the library lacks them. *)
Definition config_new (signatures : bool) : config :=
  Config false false false false PM_COLOR_UNSET false false false false None None None None None None [] [] [] [] [] [] [] []
    (if signatures then Z.lor Validate.SIG_PACKAGE SyncDb.SIG_DATABASE else 0) 0 (if signatures then Db.SIG_USE_DEFAULT else 0) 0
    (if signatures then Db.SIG_USE_DEFAULT else 0) 0 1 0 None [] [].

(** ** Values *)

Definition str_is (key : cstr) (s : string) : bool := bool_decide (key = lit s).

(** [parse_number]: the number, or [None] when the text is not one. *)
Definition parse_number (value : cstr) : option Z :=
  let '(val, endptr, erange) := Util.strtoll value in
  if (erange && ((val =? Util.LLONG_MAX) || (val =? Util.LLONG_MIN))) || negb (bool_decide (endptr = [])) || bool_decide (endptr = value)
  then None else Some val.

(** [strtok_r(ptr, " ", &saveptr)]: the token and what is left. *)
Definition strtok (s : cstr) : option (cstr * cstr) :=
  match (span (fun c => bool_decide (c = " "%char)) s).2 with
  | [] => None
  | s => let '(tok, rest) := span (fun c => bool_decide (c <> " "%char)) s in Some (tok, tail rest)
  end.
(** [setrepeatingoption] *)
Fixpoint tokens (fuel : nat) (s : cstr) : list cstr :=
  match fuel with
  | O => []
  | S fuel => match strtok s with Some (tok, rest) => tok :: tokens fuel rest | None => [] end
  end.
Definition setrepeatingoption (ptr : cstr) (l : list cstr) : list cstr := l ++ tokens (length ptr) ptr.

(** ** Signature levels *)

(** SLSET and SLUNSET *)
Definition SLSET (sl : Z) (lm : Z * Z) : Z * Z := (Z.lor lm.1 sl, Z.lor lm.2 sl).
Definition SLUNSET (sl : Z) (lm : Z * Z) : Z * Z := (Z.land lm.1 (Z.lnot sl), Z.lor lm.2 sl).
(** The prefix of a value: the rest, and whether packages and databases are meant. *)
Definition siglevel_prefix (original : cstr) : cstr * bool * bool :=
  if is_prefix (lit "Package") original then (drop 7 original, true, false)
  else if is_prefix (lit "Database") original then (drop 8 original, false, true)
  else (original, true, true).
(** One value; the result is whether it is valid. *)
Definition siglevel_value (lm : Z * Z) (original : cstr) : bool * (Z * Z) :=
  let '(value, package, database) := siglevel_prefix original in
  let both (f g : Z * Z -> Z * Z) := (true, (if database then g else fun x => x) ((if package then f else fun x => x) lm)) in
  let '(ok, lm) :=
    if str_is value "Never" then both (SLUNSET Validate.SIG_PACKAGE) (SLUNSET SyncDb.SIG_DATABASE)
    else if str_is value "Optional" then
      both (SLSET (Z.lor Validate.SIG_PACKAGE Validate.SIG_PACKAGE_OPTIONAL)) (SLSET (Z.lor SyncDb.SIG_DATABASE SIG_DATABASE_OPTIONAL))
    else if str_is value "Required" then
      both (fun lm => SLUNSET Validate.SIG_PACKAGE_OPTIONAL (SLSET Validate.SIG_PACKAGE lm)) (fun lm => SLUNSET SIG_DATABASE_OPTIONAL (SLSET SyncDb.SIG_DATABASE lm))
    else if str_is value "TrustedOnly" then
      both (SLUNSET (Z.lor Validate.SIG_PACKAGE_MARGINAL_OK Validate.SIG_PACKAGE_UNKNOWN_OK)) (SLUNSET (Z.lor SIG_DATABASE_MARGINAL_OK SIG_DATABASE_UNKNOWN_OK))
    else if str_is value "TrustAll" then
      both (SLSET (Z.lor Validate.SIG_PACKAGE_MARGINAL_OK Validate.SIG_PACKAGE_UNKNOWN_OK)) (SLSET (Z.lor SIG_DATABASE_MARGINAL_OK SIG_DATABASE_UNKNOWN_OK))
    else (false, lm) in
  (ok, (Z.land lm.1 (Z.lnot Db.SIG_USE_DEFAULT), lm.2)).
Fixpoint siglevel_loop (values : list cstr) (lm : Z * Z) : bool * (Z * Z) :=
  match values with
  | [] => (true, lm)
  | v :: values =>
      let '(ok, lm) := siglevel_value lm v in
      let '(ok', lm) := siglevel_loop values lm in (ok && ok', lm)
  end.
(** [process_siglevel]: the result, and the level and mask as they are stored. *)
Definition process_siglevel (signatures : bool) (values : list cstr) (storage : Z * Z) : Z * (Z * Z) :=
  let '(ok, lm) := siglevel_loop values storage in
  let ret := if negb ok || (negb signatures && Db.has lm.1 (Z.lor Validate.SIG_PACKAGE SyncDb.SIG_DATABASE)) then 1 else 0 in
  (ret, if ret =? 0 then lm else storage).
(** [merge_siglevel] *)
Definition merge_siglevel (base over mask : Z) : Z :=
  if mask =? 0 then over else Z.lor (Z.land over mask) (Z.land base (Z.lnot mask)).

(** [process_cleanmethods]: the result and the methods. *)
Fixpoint process_cleanmethods (values : list cstr) (cm : Z) : Z * Z :=
  match values with
  | [] => (0, cm)
  | v :: values =>
      if str_is v "KeepInstalled" then process_cleanmethods values (Z.lor cm PM_CLEAN_KEEPINST)
      else if str_is v "KeepCurrent" then process_cleanmethods values (Z.lor cm PM_CLEAN_KEEPCUR)
      else (1, cm)
  end.
(** [process_usage] *)
Fixpoint process_usage (values : list cstr) (usage : Z) : Z * Z :=
  match values with
  | [] => (0, usage)
  | key :: values =>
      let '(bad, usage) :=
        if str_is key "Sync" then (false, Z.lor usage DB_USAGE_SYNC)
        else if str_is key "Search" then (false, Z.lor usage DB_USAGE_SEARCH)
        else if str_is key "Install" then (false, Z.lor usage DB_USAGE_INSTALL)
        else if str_is key "Upgrade" then (false, Z.lor usage DB_USAGE_UPGRADE)
        else if str_is key "All" then (false, Z.lor usage Db.DB_USAGE_ALL)
        else (true, usage) in
      let '(ret, usage) := process_usage values usage in (if bad then 1 else ret, usage)
  end.

(** ** Paths and patterns *)

(** [prepend_dir] *)
Definition prepend_dir (dir : option cstr) (path : cstr) : cstr :=
  match dir with
  | None => path
  | Some dir =>
      let sep := if bool_decide (last dir = Some "/"%char) then [] else lit "/" in
      dir ++ sep ++ (span (fun c => bool_decide (c = "/"%char)) path).2
  end.

(** A character written to a buffer of [size] octets that holds [out] so far. *)
Definition put (size : Z) (out : cstr) (c : ascii) : option cstr :=
  if Z.of_nat (length out) <? size then Some (out ++ [c]) else None.
(** The loop of [escape_chars] that writes. *)
Fixpoint escape_loop (escape : cstr) (size : Z) (out pattern : cstr) : option cstr :=
  match pattern with
  | [] => Some out
  | c :: pattern =>
      out ← if bool_decide (c ∈ escape) then put size out "\"%char else Some out;
      out ← put size out c;
      escape_loop escape size out pattern
  end.
(** [escape_chars]: the string with its terminating NUL, which is written behind
    the last character. *)
Definition escape_chars (pattern escape : cstr) : option cstr :=
  let pattern_chars := Z.of_nat (length (filter (fun c => c ∈ escape) pattern)) in
  if pattern_chars =? 0 then Some pattern
  else
    let size := Z.of_nat (length pattern) + pattern_chars in
    out ← escape_loop escape size [] pattern;
    _ ← put size out LocalDb.NUL;
    Some out.
Definition escape_glob_pattern (pattern : cstr) : option cstr := escape_chars pattern (lit "\*?[").

(** [strreplace]: the string with its occurrences replaced, and the size of the
    buffer it is written to. *)
Fixpoint replace_loop (fuel : nat) (str needle replace : cstr) : option (cstr * Z) :=
  match fuel with
  | O => None
  | S fuel =>
      match strstr str needle with
      | None => Some (str, 0)
      | Some q =>
          '(rest, n) ← replace_loop fuel (drop (q + length needle) str) needle replace;
          Some (take q str ++ replace ++ rest, n + 1)
      end
  end.
Definition strreplace (str needle replace : cstr) : option (cstr * Z) :=
  '(new, n) ← replace_loop (S (length str)) str needle replace;
  Some (new, if n =? 0 then Z.of_nat (length str) + 1
             else u64 (Z.of_nat (length str) + 1 + n * u64 (Z.of_nat (length replace) - Z.of_nat (length needle)))).

(** [replace_server_vars] and [replace_server_list_vars]; [None] in the result is
    a mirror that cannot be used. *)
Definition replace_server_vars (c : config) (name s : cstr) : option (option cstr) :=
  match architectures c with
  | [] =>
      match strstr s (lit "$arch") with
      | Some _ => Some None
      | None => '(new, _) ← strreplace s (lit "$repo") name; Some (Some new)
      end
  | arch :: _ =>
      '(temp, _) ← strreplace s (lit "$arch") arch;
      '(new, _) ← strreplace temp (lit "$repo") name; Some (Some new)
  end.
(** The result is whether all were replaced, and the list. *)
Fixpoint replace_server_list_vars (c : config) (name : cstr) (l : list cstr) : option (bool * list cstr) :=
  match l with
  | [] => Some (true, [])
  | s :: l =>
      new ← replace_server_vars c name s;
      match new with
      | None => Some (false, s :: l)
      | Some url => '(ok, l) ← replace_server_list_vars c name l; Some (ok, url :: l)
      end
  end.

(** ** Directives *)

Section Parse.
(** [resolve_path], whether the output is a terminal, [uname], whether the library
    has signatures; [glob] and the files. *)
Variables (resolve_path : cstr -> option cstr) (tty : bool) (machine : cstr) (signatures : bool).
Variables (glob : cstr -> option (list cstr)) (file_of : cstr -> option (cstr * bool)).

(** [config_add_architecture] *)
Definition config_add_architecture (arch : cstr) (c : config) : config :=
  let arch := if str_is arch "auto" then machine else arch in
  c<|architectures := architectures c ++ [arch]|>.

(** Options without settings. *)
Definition parse_switch (key : cstr) (c : config) : config :=
  if str_is key "UseSyslog" then c<|usesyslog := true|>
  else if str_is key "ILoveCandy" then c<|chomp := true|>
  else if str_is key "VerbosePkgLists" then c<|verbosepkglists := true|>
  else if str_is key "CheckSpace" then c<|checkspace := true|>
  else if str_is key "Color" then
    if color c =? PM_COLOR_UNSET then c<|color := if tty then PM_COLOR_ON else PM_COLOR_OFF|> else c
  else if str_is key "NoProgressBar" then c<|noprogressbar := true|>
  else if str_is key "DisableDownloadTimeout" then c<|disable_dl_timeout := true|>
  else if str_is key "DisableSandbox" then c<|disable_sandbox_filesystem := true|><|disable_sandbox_syscalls := true|>
  else if str_is key "DisableSandboxFilesystem" then c<|disable_sandbox_filesystem := true|>
  else if str_is key "DisableSandboxSyscalls" then c<|disable_sandbox_syscalls := true|>
  else c.

(** A path that is not set yet. *)
Definition set_path (old : option cstr) (value : cstr) (set : cstr -> config) (c : config) : Z * config :=
  match old with
  | Some _ => (0, c)
  | None => match resolve_path value with Some path => (0, set path) | None => (1, c) end
  end.
(** Options with settings. *)
Definition parse_setting (key value : cstr) (c : config) : option (Z * config) :=
  let ok c := Some (0, c) in
  let levels storage set :=
    let '(ret, lm) := process_siglevel signatures (setrepeatingoption value []) storage in Some (ret, set lm) in
  if str_is key "NoUpgrade" then ok (c<|noupgrade := setrepeatingoption value (noupgrade c)|>)
  else if str_is key "NoExtract" then ok (c<|noextract := setrepeatingoption value (noextract c)|>)
  else if str_is key "IgnorePkg" then ok (c<|ignorepkg := setrepeatingoption value (ignorepkg c)|>)
  else if str_is key "IgnoreGroup" then ok (c<|ignoregrp := setrepeatingoption value (ignoregrp c)|>)
  else if str_is key "HoldPkg" then ok (c<|holdpkg := setrepeatingoption value (holdpkg c)|>)
  else if str_is key "CacheDir" then ok (c<|cachedirs := setrepeatingoption value (cachedirs c)|>)
  else if str_is key "HookDir" then ok (c<|hookdirs := setrepeatingoption value (hookdirs c)|>)
  else if str_is key "Architecture" then ok (foldl (fun c arch => config_add_architecture arch c) c (setrepeatingoption value []))
  else if str_is key "DBPath" then Some (set_path (dbpath c) value (fun path => c<|dbpath := Some path|>) c)
  else if str_is key "RootDir" then Some (set_path (rootdir c) value (fun path => c<|rootdir := Some path|>) c)
  else if str_is key "GPGDir" then Some (set_path (gpgdir c) value (fun path => c<|gpgdir := Some path|>) c)
  else if str_is key "LogFile" then ok (match logfile c with None => c<|logfile := Some value|> | Some _ => c end)
  else if str_is key "DownloadUser" then ok (match sandboxuser c with None => c<|sandboxuser := Some value|> | Some _ => c end)
  else if str_is key "XferCommand" then
    argv ← Util.wordsplit value;
    match argv with
    | None => Some (1, c<|xfercommand_argv := []|>)
    | Some argv => ok (c<|xfercommand_argv := argv|><|xfercommand := Some value|>)
    end
  else if str_is key "CleanMethod" then
    let '(ret, cm) := process_cleanmethods (setrepeatingoption value []) (cleanmethod c) in Some (ret, c<|cleanmethod := cm|>)
  else if str_is key "SigLevel" then
    levels (siglevel c, siglevel_mask c) (fun lm => c<|siglevel := lm.1|><|siglevel_mask := lm.2|>)
  else if str_is key "LocalFileSigLevel" then
    levels (localfilesiglevel c, localfilesiglevel_mask c) (fun lm => c<|localfilesiglevel := lm.1|><|localfilesiglevel_mask := lm.2|>)
  else if str_is key "RemoteFileSigLevel" then
    levels (remotefilesiglevel c, remotefilesiglevel_mask c) (fun lm => c<|remotefilesiglevel := lm.1|><|remotefilesiglevel_mask := lm.2|>)
  else if str_is key "ParallelDownloads" then
    match parse_number value with
    | None => Some (1, c)
    | Some number => if (number <? 1) || (INT_MAX <? number) then Some (1, c) else ok (c<|parallel_downloads := number|>)
    end
  else ok c.
(** [_parse_options] *)
Definition parse_options (key : cstr) (value : option cstr) (c : config) : option (Z * config) :=
  match value with None => Some (0, parse_switch key c) | Some value => parse_setting key value c end.

(** [_parse_repo] of one repository. *)
Definition parse_repo (key : cstr) (value : option cstr) (repo : config_repo) : Z * config_repo :=
  let check_value (f : cstr -> Z * config_repo) := match value with None => (1, repo) | Some value => f value end in
  if str_is key "CacheServer" then check_value (fun value => (0, repo<|r_cache_servers := r_cache_servers repo ++ [value]|>))
  else if str_is key "Server" then check_value (fun value => (0, repo<|r_servers := r_servers repo ++ [value]|>))
  else if str_is key "SigLevel" then
    check_value (fun value =>
      match setrepeatingoption value [] with
      | [] => (0, repo)
      | values =>
          let '(ret, lm) := process_siglevel signatures values (r_siglevel repo, r_siglevel_mask repo) in
          (ret, repo<|r_siglevel := lm.1|><|r_siglevel_mask := lm.2|>)
      end)
  else if str_is key "Usage" then
    check_value (fun value =>
      let '(ret, usage) := process_usage (setrepeatingoption value []) (r_usage repo) in (ret, repo<|r_usage := usage|>))
  else (0, repo).

Definition data : Type := config * section_t.

(** ** Includes *)

Definition config_max_recursion : nat := 10.
(** [globdir] with the flag GLOB_NOESCAPE or without it. *)
Definition globdir (dir : option cstr) (pattern : cstr) (noescape : bool) : option (option (list cstr)) :=
  match dir with
  | None => Some (glob pattern)
  | Some d =>
      escaped_dir ← escape_glob_pattern d;
      pattern ← if noescape then escape_chars pattern (lit "\") else Some pattern;
      Some (glob (prepend_dir (Some escaped_dir) pattern))
  end.
(** The loop over the files found. *)
Fixpoint include_loop (parse : cstr -> data -> option (Z * data)) (files : list cstr) (d : data) : option (Z * data) :=
  match files with
  | [] => Some (0, d)
  | f :: files => '(ret, d) ← parse f d; if ret =? 0 then include_loop parse files d else Some (ret, d)
  end.
(** [process_include] *)
Definition process_include (parse : cstr -> data -> option (Z * data)) (value : option cstr) (d : data) : option (Z * data) :=
  let '(c, section) := d in
  match value with
  | None => Some (1, d)
  | Some value =>
      if (config_max_recursion <=? s_depth section)%nat then Some (1, d)
      else
        found ← globdir (sysroot c) value false;
        '(ret, d) ← include_loop parse (default [] found) (c, section<|s_depth := S (s_depth section)|>);
        Some (ret, (d.1, d.2<|s_depth := Nat.pred (s_depth d.2)|>))
  end.

(** The start of a section. *)
Definition new_section (name : cstr) (d : data) : data :=
  let '(c, section) := d in
  if str_is name "options" then (c, Section_t (Some name) None (s_depth section))
  else (c<|repos := repos c ++ [Repo name [] [] 0 Db.SIG_USE_DEFAULT 0]|>, Section_t (Some name) (Some (length (repos c))) (s_depth section)).
(** A directive that is not Include. *)
Definition plain_directive (key : cstr) (value : option cstr) (d : data) : option (Z * data) :=
  let '(c, section) := d in
  match s_name section, s_repo section with
  | None, _ => Some (1, d)
  | Some _, None => '(ret, c) ← parse_options key value c; Some (ret, (c, section))
  | Some _, Some i =>
      repo ← repos c !! i;
      let '(ret, repo) := parse_repo key value repo in
      Some (ret, (c<|repos := <[i := repo]> (repos c)|>, section))
  end.
(** [_parse_directive], at most [fuel] files deep. *)
Fixpoint parse_directive (fuel : nat) (d : data) (ev : Ini.event) : option (Z * data) :=
  match fuel with
  | O => None
  | S fuel =>
      match Ini.ev_section ev, Ini.ev_key ev, Ini.ev_value ev with
      | None, None, None => Some (1, d)
      | Some name, None, None => Some (0, new_section name d)
      | _, None, Some _ => None
      | _, Some key, value =>
          if str_is key "Include" then process_include (fun f => Ini.parse_ini (parse_directive fuel) (file_of f)) value d
          else plain_directive key value d
      end
  end.
(** [parseconfigfile]; the depth of the files is limited. *)
Definition parseconfigfile (file : cstr) (c : config) : option (Z * config) :=
  '(ret, d) ← Ini.parse_ini (parse_directive (S config_max_recursion)) (file_of (prepend_dir (sysroot c) file)) (c, Section_t None None 0);
  Some (ret, d.1).

(** ** Defaults *)

(** ROOTDIR, DBPATH, LOGFILE, GPGDIR, CACHEDIR and HOOKDIR are chosen by the
    build. *)
Variables (ROOTDIR DBPATH LOGFILE GPGDIR CACHEDIR HOOKDIR : cstr).

(** [prepend_sysroot]; of a server only the path of a file URL changes. *)
Definition prepend_server (dir : option cstr) (url : cstr) : cstr :=
  if is_prefix (lit "file://") url then lit "file://" ++ prepend_dir dir (drop 7 url) else url.
Definition prepend_sysroot (c : config) : config :=
  match sysroot c with
  | None => c
  | Some _ =>
      let set opt := prepend_dir (sysroot c) <$> opt in
      c<|rootdir := set (rootdir c)|><|dbpath := set (dbpath c)|><|logfile := set (logfile c)|><|gpgdir := set (gpgdir c)|>
       <|cachedirs := prepend_dir (sysroot c) <$> cachedirs c|><|hookdirs := prepend_dir (sysroot c) <$> hookdirs c|>
       <|repos := (fun r => r<|r_servers := prepend_server (sysroot c) <$> r_servers r|>) <$> repos c|>
  end.

(** The root directory without its last slash; [None] for the empty name, in
    front of which the code looks for one. *)
Definition chop_root (root : cstr) : option cstr :=
  match last root with
  | None => None
  | Some e => Some (if decide (e = "/"%char) then take (length root - 1) root else root)
  end.
(** A default path below the root directory. *)
Definition below (root path : cstr) : cstr := take (PATH_MAX - 1) (root ++ lit "/" ++ tail path).
Definition default_paths (c : config) : option config :=
  match rootdir c with
  | Some root =>
      root ← chop_root root;
      Some (c<|dbpath := Some (default (below root DBPATH) (dbpath c))|><|logfile := Some (default (below root LOGFILE) (logfile c))|>)
  | None => Some (c<|rootdir := Some ROOTDIR|><|dbpath := Some (default DBPATH (dbpath c))|>)
  end.
(** The loop over the repositories: whether it succeeds, and the list. *)
Fixpoint default_repos (c : config) (l : list config_repo) : option (bool * list config_repo) :=
  match l with
  | [] => Some (true, [])
  | r :: l =>
      let r : config_repo := r<|r_usage := if r_usage r =? 0 then Db.DB_USAGE_ALL else r_usage r|>
                <|r_siglevel := merge_siglevel (siglevel c) (r_siglevel r) (r_siglevel_mask r)|> in
      '(ok, cs) ← replace_server_list_vars c (r_name r) (r_cache_servers r);
      let r := r<|r_cache_servers := cs|> in
      if negb ok then Some (false, r :: l)
      else
        '(ok, ss) ← replace_server_list_vars c (r_name r) (r_servers r);
        let r := r<|r_servers := ss|> in
        if negb ok then Some (false, r :: l)
        else '(ok, l) ← default_repos c l; Some (ok, r :: l)
  end.
(** [setdefaults] *)
Definition setdefaults (c : config) : option (Z * config) :=
  c ← default_paths c;
  let c : config := c<|logfile := Some (default LOGFILE (logfile c))|><|gpgdir := Some (default GPGDIR (gpgdir c))|>
            <|cachedirs := match cachedirs c with [] => [CACHEDIR] | l => l end|><|hookdirs := match hookdirs c with [] => [HOOKDIR] | l => l end|>
            <|cleanmethod := if cleanmethod c =? 0 then PM_CLEAN_KEEPINST else cleanmethod c|>
            <|localfilesiglevel := merge_siglevel (siglevel c) (localfilesiglevel c) (localfilesiglevel_mask c)|>
            <|remotefilesiglevel := merge_siglevel (siglevel c) (remotefilesiglevel c) (remotefilesiglevel_mask c)|> in
  '(ok, rs) ← default_repos c (repos c);
  let c : config := c<|repos := rs|> in
  if (ok : bool) then Some (0, prepend_sysroot c) else Some (-1, c).
(** [parseconfig] up to the set-up of the library. *)
Definition parseconfig (file : cstr) (c : config) : option (Z * config) :=
  '(ret, c) ← parseconfigfile file c;
  if ret =? 0 then setdefaults c else Some (ret, c).

(** ** The configuration without includes *)

(** The calls of the callback for a file. *)
Definition file_events (f : cstr) : list Ini.event :=
  match file_of f with
  | None => [Ini.Event None None None]
  | Some (text, fails) => Ini.events None (Ini.file_lines (S (length text)) (LocalDb.Stream text fails false))
  end.
(** A step of the flat configuration; [Stop] is an Include that is an error. *)
Inductive item := Do (ev : Ini.event) | Stop.
Definition is_include (ev : Ini.event) : bool := match Ini.ev_key ev with Some k => str_is k "Include" | None => false end.
(** The files an Include directive finds. *)
Definition found (sr : option cstr) (v : cstr) : list cstr := match globdir sr v false with Some f => default [] f | None => [] end.
(** The events with every Include directive replaced by the events of the files
    it finds, [n] levels deep. *)
Fixpoint expand (sr : option cstr) (n : nat) (evs : list Ini.event) : list item :=
  evs ≫= fun ev =>
    if is_include ev then
      match Ini.ev_value ev, n with
      | Some v, S n => found sr v ≫= fun f => expand sr n (file_events f)
      | _, _ => [Stop]
      end
    else [Do ev].
(** What a step does without files. *)
Definition plain_event (d : data) (ev : Ini.event) : option (Z * data) :=
  match Ini.ev_section ev, Ini.ev_key ev, Ini.ev_value ev with
  | None, None, None => Some (1, d)
  | Some name, None, None => Some (0, new_section name d)
  | _, None, Some _ => None
  | _, Some key, value => plain_directive key value d
  end.
Definition do_item (d : data) (i : item) : option (Z * data) := match i with Do ev => plain_event d ev | Stop => Some (1, d) end.
Fixpoint run_items (l : list item) (d : data) : option (Z * data) :=
  match l with
  | [] => Some (0, d)
  | i :: l => '(ret, d) ← do_item d i; if ret =? 0 then run_items l d else Some (ret, d)
  end.

(** The same data at another depth of files. *)
Definition at_depth (k : nat) (d : data) : data := (d.1, Section_t (s_name d.2) (s_repo d.2) k).
Definition moved (k : nat) (x : option (Z * data)) : option (Z * data) := (fun '(ret, d) => (ret, at_depth k d)) <$> x.

#[local] Arguments parse_options : simpl never.
#[local] Arguments parse_repo : simpl never.
Lemma plain_event_at k d ev : plain_event (at_depth k d) ev = moved k (plain_event d ev).
Proof.
  destruct d as [c [n r dp]]. unfold plain_event. destruct (Ini.ev_section ev) as [name|], (Ini.ev_key ev) as [key|], (Ini.ev_value ev) as [v|]; try done.
  all: try (unfold new_section, at_depth, moved; cbn; by destruct (str_is name "options")).
  all: unfold plain_directive; cbn; destruct n; [|done]; destruct r as [i|]; [destruct (repos c !! i) as [rp|]; [|done]; cbn; by destruct (parse_repo _ _ rp)|].
  all: match goal with |- context[parse_options ?a ?b ?c] => destruct (parse_options a b c) as [[]|] end; done.
Qed.
Lemma run_items_app a b d : run_items (a ++ b) d = '(ret, d) ← run_items a d; if ret =? 0 then run_items b d else Some (ret, d).
Proof.
  revert d. induction a as [|i a IH]; intros d; cbn [run_items app mbind option_bind Z.eqb]; [by destruct (run_items b d) as [[]|]|]. destruct (do_item d i) as [[ret d']|]; [|done]. cbn [mbind option_bind].
  destruct (ret =? 0) eqn:E; [apply IH|]. cbn [mbind option_bind]. by rewrite E.
Qed.

(** A chain of tests on the key. *)
Ltac chain H t := repeat (lazymatch type of H with (if ?b then _ else _) = _ => destruct b; [t|] end).
(** All matches in a hypothesis. *)
Ltac split_all H :=
  repeat match type of H with
    | context[if ?b then _ else _] => destruct b
    | context[match ?x with None => _ | _ => _ end] => destruct x
    | context[let '(_, _) := ?x in _] => destruct x
    | context[mbind _ ?x] => destruct x; cbn [mbind option_bind] in H
    end.

(** Steps keep [sysroot] and the position of the current repository. *)
Definition section_ok (d : data) : Prop := forall i, s_repo d.2 = Some i -> (i < length (repos d.1))%nat.
Lemma add_architectures l c : sysroot (foldl (fun c arch => config_add_architecture arch c) c l) = sysroot c /\ repos (foldl (fun c arch => config_add_architecture arch c) c l) = repos c.
Proof. revert c. induction l as [|a l IH]; intros c; [done|]. cbn [foldl]. destruct (IH (config_add_architecture a c)) as [-> ->]. done. Qed.
Lemma parse_options_frame key value c ret c' : parse_options key value c = Some (ret, c') -> sysroot c' = sysroot c /\ repos c' = repos c.
Proof.
  unfold parse_options. intros H. destruct value as [v|].
  - unfold parse_setting in H.
    chain H ltac:(first [by simplify_eq|simplify_eq; apply add_architectures|unfold set_path in H; split_all H; by simplify_eq|split_all H; by simplify_eq]).
    by simplify_eq.
  - injection H as <- <-. unfold parse_switch. repeat (case_match; [by repeat case_match|]). done.
Qed.
Lemma parse_options_total key value c : is_Some (parse_options key value c).
Proof.
  unfold parse_options, parse_setting. destruct value as [v|]; [|done]. repeat (case_match; [done|]). case_match.
  { (* XferCommand *) destruct (Util.wordsplit_loop_total _ (span isspace v).2 (Nat.le_refl _)) as [[ws|] E]; unfold Util.wordsplit; rewrite E; done. }
  repeat case_match; done.
Qed.
Lemma new_section_frame name d : sysroot (new_section name d).1 = sysroot d.1 /\ section_ok (new_section name d).
Proof.
  destruct d as [c sec]. unfold new_section. destruct (str_is name "options"); (split; [done|]); intros j; cbn; [done|].
  intros [= <-]. unfold constant. rewrite length_app. cbn. lia.
Qed.
Lemma plain_directive_frame key value d ret d' : section_ok d -> plain_directive key value d = Some (ret, d') -> sysroot d'.1 = sysroot d.1 /\ section_ok d'.
Proof.
  destruct d as [c [n r dp]]. unfold plain_directive. intros Hok. cbn [s_name s_repo]. destruct n as [n|]; [|intros [= <- <-]; by split].
  destruct r as [i|].
  - destruct (repos c !! i) as [rp|]; [|done]. cbn [mbind option_bind]. destruct (parse_repo key value rp). intros [= <- <-]. split; [done|].
    intros j Hj. cbn. unfold constant. rewrite length_insert. by apply Hok.
  - destruct (parse_options key value c) as [[r' c']|] eqn:E; [|done]. apply parse_options_frame in E as [E1 E2]. cbn [mbind option_bind].
    intros [= <- <-]. by split.
Qed.
Lemma do_item_frame d i ret d' : section_ok d -> do_item d i = Some (ret, d') -> sysroot d'.1 = sysroot d.1 /\ section_ok d'.
Proof.
  intros Hok. unfold do_item, plain_event. destruct i as [ev|]; [|by intros [= <- <-]].
  destruct (Ini.ev_section ev) as [name|], (Ini.ev_key ev) as [key|], (Ini.ev_value ev) as [v|]; try done.
  all: try (by intros [= <- <-]).
  all: try (intros [=]; subst; apply new_section_frame).
  all: by apply plain_directive_frame.
Qed.
Lemma run_items_frame l d ret d' : section_ok d -> run_items l d = Some (ret, d') -> sysroot d'.1 = sysroot d.1 /\ section_ok d'.
Proof.
  revert d. induction l as [|i l IH]; intros d Hok; cbn [run_items]; [by intros [= <- <-]|]. destruct (do_item d i) as [[r1 d1]|] eqn:E; [|done]. cbn [mbind option_bind].
  apply do_item_frame in E as [E1 Hok1]; [|done]. destruct (r1 =? 0); [|by intros [= <- <-]]. intros H. destruct (IH d1 Hok1 H) as [-> ?]. done.
Qed.

Lemma do_item_total d i : section_ok d -> (forall ev, i = Do ev -> Ini.ev_key ev = None -> Ini.ev_value ev = None) -> is_Some (do_item d i).
Proof.
  intros Hok Hev. destruct i as [ev|]; [|done]. specialize (Hev ev eq_refl). cbn [do_item]. unfold plain_event.
  destruct (Ini.ev_section ev) as [name|], (Ini.ev_key ev) as [key|], (Ini.ev_value ev) as [v|]; try done; try (by specialize (Hev eq_refl)).
  all: unfold plain_directive; destruct d as [c [n r dp]]; cbn [s_name s_repo]; destruct n; [|done]; destruct r as [i|].
  all: try (destruct (lookup_lt_is_Some_2 (repos c) i (Hok i eq_refl)) as [rp ->]; cbn [mbind option_bind]; by destruct (parse_repo _ _ rp)).
  all: match goal with |- context[parse_options ?a ?b ?c] => destruct (parse_options_total a b c) as [[] ->] end; done.
Qed.
(** Events never have a value without a key. *)
Definition keyed (ev : Ini.event) : Prop := Ini.ev_key ev = None -> Ini.ev_value ev = None.
Lemma events_keyed sec ls : Forall keyed (Ini.events sec ls).
Proof. revert sec. induction ls as [|l ls IH]; intros sec; cbn [Ini.events]; [done|]. destruct (Ini.classify l); [apply IH| |]; (constructor; [done|apply IH]). Qed.
Lemma file_events_keyed f : Forall keyed (file_events f).
Proof. unfold file_events. destruct (file_of f) as [[text fails]|]; [apply events_keyed|by repeat constructor]. Qed.
Definition item_keyed (i : item) : Prop := match i with Do ev => keyed ev | Stop => True end.
Lemma expand_keyed sr n : forall evs, Forall keyed evs -> Forall item_keyed (expand sr n evs).
Proof.
  induction n as [|n IH]; intros evs Hevs.
  all: induction Hevs as [|ev evs Hev Hevs IHe]; [done|]; cbn [expand mbind list_bind] in *; apply Forall_app; (split; [|apply IHe]).
  all: destruct (is_include ev); [|by repeat constructor]; destruct (Ini.ev_value ev) as [v|]; try (by repeat constructor).
  clear IHe. induction (found sr v) as [|f fs IHf]; [done|]. cbn [mbind list_bind]. apply Forall_app. split; [|done]. apply IH, file_events_keyed.
Qed.
Lemma run_items_total l d : section_ok d -> Forall item_keyed l -> is_Some (run_items l d).
Proof.
  intros Hok Hl. revert d Hok. induction Hl as [|i l Hi Hl IH]; intros d Hok; cbn [run_items]; [done|].
  destruct (do_item_total d i Hok) as [[ret d'] E]; [by intros ev ->|]. rewrite E. cbn [mbind option_bind]. apply do_item_frame in E as [_ Hok']; [|done].
  destruct (ret =? 0); [by apply IH|done].
Qed.

(** [parse_ini] is the run of the events of the file. *)
Lemma parse_ini_events {D} (cb : D -> Ini.event -> option (Z * D)) f d : Ini.parse_ini cb (file_of f) d = Ini.run cb (file_events f) d.
Proof.
  unfold file_events, Ini.parse_ini. destruct (file_of f) as [[text fails]|]; [apply Ini.ini_loop_run; cbn; lia|].
  cbn [Ini.run]. destruct (cb d _) as [[ret d']|]; [|done]. cbn [mbind option_bind]. destruct (ret =? 0) eqn:E; [|done]. by apply Z.eqb_eq in E as ->.
Qed.
Definition clean (sr : option cstr) : Prop := forall d, sr = Some d -> Forall (fun c => c ∉ lit "\*?[") d.
Lemma globdir_clean sr v : clean sr -> globdir sr v false = Some (glob (prepend_dir sr v)).
Proof.
  intros H. destruct sr as [d|]; [|done]. specialize (H d eq_refl). unfold globdir, escape_glob_pattern, escape_chars.
  assert (filter (fun c => c ∈ lit "\*?[") d = []) as ->; [|done]. induction H as [|c d Hc Hd IH]; [done|]. by rewrite filter_cons_False.
Qed.

Lemma parse_plain fuel d ev : is_include ev = false -> parse_directive (S fuel) d ev = plain_event d ev.
Proof.
  unfold is_include, plain_event. intros H. cbn [parse_directive]. destruct (Ini.ev_section ev), (Ini.ev_key ev); try done.
  all: by rewrite H.
Qed.
Lemma parse_include fuel d ev : is_include ev = true ->
  parse_directive (S fuel) d ev = process_include (fun f => Ini.parse_ini (parse_directive fuel) (file_of f)) (Ini.ev_value ev) d.
Proof.
  unfold is_include. intros H. cbn [parse_directive]. destruct (Ini.ev_section ev), (Ini.ev_key ev); try done.
  all: by rewrite H.
Qed.
Lemma at_depth_at k j d : at_depth k (at_depth j d) = at_depth k d.
Proof. done. Qed.

Definition expand_one (sr : option cstr) (n : nat) (ev : Ini.event) : list item :=
  if is_include ev then
    match Ini.ev_value ev, n with Some v, S n => found sr v ≫= fun f => expand sr n (file_events f) | _, _ => [Stop] end
  else [Do ev].
Lemma expand_cons sr n ev evs : expand sr n (ev :: evs) = expand_one sr n ev ++ expand sr n evs.
Proof. by destruct n. Qed.
Lemma expand_nil sr n : expand sr n [] = [].
Proof. by destruct n. Qed.
(** The files of one Include directive, given that each is its expansion. *)
Lemma include_expand sr n k :
  (forall k' evs d, (k' + n = config_max_recursion)%nat -> sysroot d.1 = sr -> section_ok d ->
     Ini.run (parse_directive (S n)) evs (at_depth k' d) = moved k' (run_items (expand sr n evs) d)) ->
  (S k + n = config_max_recursion)%nat -> forall fs d, sysroot d.1 = sr -> section_ok d ->
  include_loop (fun f => Ini.parse_ini (parse_directive (S n)) (file_of f)) fs (at_depth (S k) d) =
    moved (S k) (run_items (fs ≫= fun f => expand sr n (file_events f)) d).
Proof.
  intros IH Hk fs. induction fs as [|f fs IHf]; intros d Hd Hok; [done|]. cbn [include_loop mbind list_bind]. rewrite parse_ini_events, (IH (S k)) by (done || lia).
  rewrite run_items_app. destruct (run_items (expand sr n (file_events f)) d) as [[ret d']|] eqn:Er; [|done]. cbn [moved fmap option_fmap option_map mbind option_bind].
  destruct (run_items_frame _ _ _ _ Hok Er) as [Hs Hok']. destruct (ret =? 0); [|done]. apply IHf; [congruence|done].
Qed.
(** Parsing at depth [k] is running the expansion. *)
Lemma run_expand sr n : clean sr -> forall k evs d, (k + n = config_max_recursion)%nat -> sysroot d.1 = sr -> section_ok d ->
  Ini.run (parse_directive (S n)) evs (at_depth k d) = moved k (run_items (expand sr n evs) d).
Proof.
  intros Hsr. induction n as [|n IH]; intros k evs d Hk; revert d; (induction evs as [|ev evs IHe]; intros d Hd Hok; [by rewrite expand_nil|]).
  all: cbn [Ini.run]; rewrite expand_cons, run_items_app; unfold expand_one; destruct (is_include ev) eqn:Ei.
  all: rewrite ?(parse_plain _ _ _ Ei), ?(parse_include _ _ _ Ei).
  (* a directive *)
  2, 4: cbn [run_items do_item]; rewrite plain_event_at; destruct (plain_event d ev) as [[ret d']|] eqn:Ep; [|done]; cbn [moved fmap option_fmap option_map mbind option_bind].
  2, 3: destruct (do_item_frame d (Do ev) ret d' Hok Ep) as [Hs Hok']; destruct (ret =? 0) eqn:Er; cbn [mbind option_bind]; [apply IHe; [congruence|done]|by rewrite Er].
  - destruct (Ini.ev_value ev) as [v|]; [|done]. cbn [process_include at_depth s_depth]. by rewrite (proj2 (Nat.leb_le _ _)) by lia.
  - destruct (Ini.ev_value ev) as [v|]; [|done]. cbn [process_include at_depth fst snd s_depth]. rewrite (proj2 (Nat.leb_gt _ _)) by lia.
    rewrite Hd, globdir_clean by done. cbn [mbind option_bind]. unfold found. rewrite globdir_clean by done. set (fs := default [] _).
    change (d.1, _) with (at_depth (S k) d). rewrite (include_expand sr n) by (done || lia).
    destruct (run_items (fs ≫= _) d) as [[ret d']|] eqn:Er; [|done]. cbn [moved fmap option_fmap option_map mbind option_bind].
    change ((at_depth (S k) d').1, _) with (at_depth k d').
    destruct (run_items_frame _ _ _ _ Hok Er) as [Hs Hok']. destruct (ret =? 0); [apply IHe; [congruence|done]|done].
Qed.

(** The claims about files. *)
Lemma parseconfigfile_expand file c : clean (sysroot c) ->
  let items := expand (sysroot c) config_max_recursion (file_events (prepend_dir (sysroot c) file)) in
  exists ret d, run_items items (c, Section_t None None 0) = Some (ret, d) /\ parseconfigfile file c = Some (ret, d.1).
Proof.
  intros Hc items. destruct (run_items_total items (c, Section_t None None 0)) as [[ret d] E]; [done|apply expand_keyed, file_events_keyed|].
  exists ret, d. split; [done|]. unfold parseconfigfile. rewrite parse_ini_events. change (c, Section_t None None 0) with (at_depth 0 (c, Section_t None None 0)).
  rewrite (run_expand (sysroot c)) by done. fold items. by rewrite E.
Qed.

(** ** What the words of a signature level say *)

(** The flags of packages and, ten bits higher, of databases. *)
Definition flags : list Z := [0; 1; 2; 3; 10; 11; 12; 13].
(** Required and optional signatures, marginal and unknown trust. *)
Definition meaning : list (string * list (Z * bool)) :=
  [("Never", [(0, false)]); ("Optional", [(0, true); (1, true)]); ("Required", [(0, true); (1, false)]);
   ("TrustedOnly", [(2, false); (3, false)]); ("TrustAll", [(2, true); (3, true)])]%string.
(** What a word says about a flag, if anything. *)
Definition says (b : Z) (w : cstr) : option bool :=
  head (meaning ≫= fun vm =>
    if bool_decide (w = lit vm.1 \/ w = lit (if b <? 10 then "Package" else "Database") ++ lit vm.1)
    then omap (fun fx => if fx.1 =? b mod 10 then Some fx.2 else None) vm.2 else []).
(** The last word on a flag. *)
Definition said (b : Z) (ws : list cstr) : option bool := last (omap (says b) ws).
Definition sig_words : list cstr :=
  meaning ≫= fun vm => [lit vm.1; lit "Package" ++ lit vm.1; lit "Database" ++ lit vm.1].

Lemma said_cons b w ws : said b (w :: ws) = match said b ws with Some x => Some x | None => says b w end.
Proof.
  unfold said. cbn [omap list_omap]. destruct (says b w) as [x|]; [|by destruct (last _)].
  destruct (omap (says b) ws) as [|y l] eqn:E; [done|]. rewrite last_cons. by destruct (last (y :: l)).
Qed.

Lemma siglevel_value_word lm w lm' : siglevel_value lm w = (true, lm') -> w ∈ sig_words.
Proof.
  unfold siglevel_value. destruct (siglevel_prefix w) as [[value package] database] eqn:Ep.
  assert (w = value \/ w = lit "Package" ++ value \/ w = lit "Database" ++ value) as Hw.
  { unfold siglevel_prefix in Ep. destruct (is_prefix (lit "Package") w) eqn:E1; [apply is_prefix_spec in E1 as [r ->]; injection Ep as <- <- <-; auto|].
    destruct (is_prefix (lit "Database") w) eqn:E2; [apply is_prefix_spec in E2 as [r ->]; injection Ep as <- <- <-; auto|]. injection Ep as <- <- <-. auto. }
  intros H. assert (exists v, v ∈ meaning.*1 /\ value = lit v) as (v & Hv & ->).
  { unfold str_is in H. repeat (case_bool_decide; [eexists; split; [|eassumption]; by_decide|]). by injection H. }
  apply list_elem_of_fmap in Hv as (vm & -> & Hin). apply list_elem_of_bind. exists vm. split; [|done]. rewrite !elem_of_cons. tauto.
Qed.
(** A bit of a level after a word. *)
Ltac bits := rewrite ?Z.land_spec, ?Z.lor_spec, ?Z.lnot_spec, ?Z.land_spec, ?Z.lor_spec, ?Z.lnot_spec, ?Z.land_spec, ?Z.lor_spec, ?Z.lnot_spec by lia.
Lemma siglevel_value_flags l m w b : w ∈ sig_words -> b ∈ flags ->
  let '(ok, lm') := siglevel_value (l, m) w in
  ok = true /\ Z.testbit lm'.1 b = default (Z.testbit l b) (says b w) /\
  Z.testbit lm'.2 b = (Z.testbit m b || match says b w with Some _ => true | None => false end).
Proof.
  intros Hw Hb. unfold sig_words, flags in *. cbn [meaning mbind list_bind app fst] in Hw. 
  repeat (apply elem_of_cons in Hw as [->|Hw]); try (by apply elem_of_nil in Hw).
  all: repeat (apply elem_of_cons in Hb as [->|Hb]); try (by apply elem_of_nil in Hb).
  all: lazy -[Z.lor Z.land Z.lnot Z.testbit]; (split; [reflexivity|]); bits.
  all: repeat match goal with |- context[Z.testbit ?x ?b] => is_var x; destruct (Z.testbit x b) end; vm_compute; auto.
Qed.

(** The bit USE_DEFAULT goes away. *)
Lemma siglevel_value_default l m w : w ∈ sig_words ->
  let '(_, lm') := siglevel_value (l, m) w in Z.testbit lm'.1 30 = false /\ Z.testbit lm'.2 30 = Z.testbit m 30.
Proof.
  intros Hw. unfold sig_words in *. cbn [meaning mbind list_bind app fst] in Hw.
  repeat (apply elem_of_cons in Hw as [->|Hw]); try (by apply elem_of_nil in Hw).
  all: lazy -[Z.lor Z.land Z.lnot Z.testbit]; bits.
  all: repeat match goal with |- context[Z.testbit ?x ?b] => is_var x; destruct (Z.testbit x b) end; vm_compute; auto.
Qed.
Lemma siglevel_loop_app a b lm lm' : siglevel_loop (a ++ b) lm = (true, lm') <-> exists lm1, siglevel_loop a lm = (true, lm1) /\ siglevel_loop b lm1 = (true, lm').
Proof.
  revert lm. induction a as [|w a IH]; intros lm; cbn [siglevel_loop app].
  - split; [by exists lm|]. by intros (lm1 & [= <-] & ?).
  - destruct (siglevel_value lm w) as [ok lm1]. specialize (IH lm1). destruct (siglevel_loop (a ++ b) lm1) as [ok' lm2], (siglevel_loop a lm1) as [oka lma]. split.
    + intros [= [-> ->]%andb_true_iff ->]. destruct (proj1 IH eq_refl) as (lm3 & [= -> ->] & Hb). by exists lm3.
    + intros (lm3 & [= [-> ->]%andb_true_iff ->] & Hb). assert ((ok', lm2) = (true, lm')) as [= -> ->] by (apply IH; by exists lm3). done.
Qed.
(** Of every flag the last word counts, and the mask has the flags spoken of. *)
Lemma siglevel_loop_flags ws l m l' m' b : siglevel_loop ws (l, m) = (true, (l', m')) -> b ∈ flags ->
  Z.testbit l' b = default (Z.testbit l b) (said b ws) /\ Z.testbit m' b = (Z.testbit m b || match said b ws with Some _ => true | None => false end).
Proof.
  intros H Hb. revert l m H. induction ws as [|w ws IH]; intros l m; cbn [siglevel_loop].
  - intros [= <- <-]. by rewrite orb_false_r.
  - destruct (siglevel_value (l, m) w) as [ok [l1 m1]] eqn:E. destruct (siglevel_loop ws (l1, m1)) as [ok' lm] eqn:El. intros [= [-> ->]%andb_true_iff ->].
    pose proof (siglevel_value_word _ _ _ E) as Hw. pose proof (siglevel_value_flags l m w b Hw Hb) as Hf. rewrite E in Hf. destruct Hf as (_ & H1 & H2). cbn [fst snd] in *.
    destruct (IH l1 m1 El) as [-> ->]. rewrite said_cons, H1, H2. destruct (said b ws), (says b w); cbn; by rewrite ?orb_true_r, ?orb_false_r.
Qed.
Lemma siglevel_loop_default ws l m l' m' : siglevel_loop ws (l, m) = (true, (l', m')) ->
  Z.testbit m' 30 = Z.testbit m 30 /\ Z.testbit l' 30 = match ws with [] => Z.testbit l 30 | _ => false end.
Proof.
  revert l m. induction ws as [|w ws IH]; intros l m; cbn [siglevel_loop]; [by intros [= <- <-]|].
  destruct (siglevel_value (l, m) w) as [ok [l1 m1]] eqn:E. destruct (siglevel_loop ws (l1, m1)) as [ok' lm] eqn:El. intros [= [-> ->]%andb_true_iff ->].
  pose proof (siglevel_value_default l m w (siglevel_value_word _ _ _ E)) as Hf. rewrite E in Hf. cbn [fst snd] in Hf. destruct Hf as [H1 H2].
  destruct (IH l1 m1 El) as [-> ->]. split; [done|]. by destruct ws.
Qed.
(** Every word says something. *)
Lemma siglevel_loop_spoken ws lm lm' : siglevel_loop ws lm = (true, lm') -> ws <> [] -> exists b, b ∈ flags /\ is_Some (said b ws).
Proof.
  destruct ws as [|w ws]; [done|]. cbn [siglevel_loop]. destruct (siglevel_value lm w) as [ok lm1] eqn:E. destruct (siglevel_loop ws lm1) as [ok' lm2].
  intros [= [-> ->]%andb_true_iff ->] _. apply siglevel_value_word in E.
  assert (exists b, b ∈ flags /\ is_Some (says b w)) as (b & Hb & x & Hx).
  { assert (Forall (fun w => Exists (fun b => is_Some (says b w)) flags) sig_words) as Hall by by_decide.
    rewrite Forall_forall in Hall. by apply Exists_exists, Hall. }
  exists b. split; [done|]. rewrite said_cons. destruct (said b ws); [done|]. by rewrite Hx.
Qed.

(** ** Sections *)

(** The directives before the first section, and the sections with theirs. *)
Definition directive : Type := cstr * option cstr.
Fixpoint group (evs : list Ini.event) : list directive * list (cstr * list directive) :=
  match evs with
  | [] => ([], [])
  | ev :: evs =>
      let '(lead, secs) := group evs in
      match Ini.ev_key ev with
      | Some k => ((k, Ini.ev_value ev) :: lead, secs)
      | None => ([], (default [] (Ini.ev_section ev), lead) :: secs)
      end
  end.
(** The values of a directive, and their words. *)
Definition values (key : string) (ds : list directive) : list cstr := omap (fun kv => if str_is kv.1 key then kv.2 else None) ds.
Definition words (key : string) (ds : list directive) : list cstr := values key ds ≫= fun v => tokens (length v) v.
(** The directives of the section [options], and the repositories. *)
Definition options (secs : list (cstr * list directive)) : list directive := secs ≫= fun sec => if str_is sec.1 "options" then sec.2 else [].
Definition repositories (secs : list (cstr * list directive)) : list (cstr * list directive) :=
  List.filter (fun sec => negb (str_is sec.1 "options")) secs.

Lemma values_app key a b : values key (a ++ b) = values key a ++ values key b.
Proof. apply omap_app. Qed.
Lemma words_app key a b : words key (a ++ b) = words key a ++ words key b.
Proof. unfold words. by rewrite values_app, bind_app. Qed.
Lemma words_cons key d l : words key (d :: l) = words key [d] ++ words key l.
Proof. apply (words_app key [d]). Qed.
Lemma words_one key k v : words key [(k, v)] = if str_is k key then match v with Some v => tokens (length v) v | None => [] end else [].
Proof. unfold words, values. cbn [omap list_omap fst snd]. destruct (str_is k key); [|done]. destruct v; [|done]. cbn. by rewrite app_nil_r. Qed.

Definition levels (c : config) : Z * Z := (siglevel c, siglevel_mask c).
Lemma process_siglevel_ok ws lm lm' : process_siglevel signatures ws lm = (0, lm') -> siglevel_loop ws lm = (true, lm').
Proof.
  unfold process_siglevel. destruct (siglevel_loop ws lm) as [ok lm1]. destruct ok; [|done]. cbn [negb orb]. by destruct (negb signatures && _); intros [= <-].
Qed.
(** What a directive of the section [options] does to the signature level. *)
Lemma str_is_true k s : str_is k s = true <-> k = lit s.
Proof. apply bool_decide_eq_true. Qed.
Lemma add_architectures_levels l c : levels (foldl (fun c arch => config_add_architecture arch c) c l) = levels c.
Proof. revert c. induction l as [|a l IH]; intros c; [done|]. cbn [foldl]. by rewrite IH. Qed.
Lemma parse_setting_siglevel v c : parse_setting (lit "SigLevel") v c =
  let '(ret, lm) := process_siglevel signatures (tokens (length v) v) (levels c) in Some (ret, c<|siglevel := lm.1|><|siglevel_mask := lm.2|>).
Proof. reflexivity. Qed.
Lemma parse_options_levels k v c c' : parse_options k v c = Some (0, c') -> siglevel_loop (words "SigLevel" [(k, v)]) (levels c) = (true, levels c').
Proof.
  rewrite words_one. unfold parse_options. destruct (str_is k "SigLevel") eqn:Ek.
  - apply str_is_true in Ek as ->. destruct v as [v|]; [|by intros [= <-]].
    rewrite parse_setting_siglevel. destruct (process_siglevel _ _ _) as [ret [l' m']] eqn:E. intros [= -> <-]. by apply process_siglevel_ok.
  - intros H. cbn [siglevel_loop]. f_equal. destruct v as [v|].
    + unfold parse_setting in H. rewrite Ek in H.
      chain H ltac:(first [by simplify_eq|simplify_eq; by rewrite add_architectures_levels|unfold set_path in H; split_all H; by simplify_eq|split_all H; by simplify_eq]).
      by simplify_eq.
    + injection H as <-. unfold parse_switch. repeat (case_match; [by repeat case_match|]). done.
Qed.

(** What directives do to a repository. *)
Record built (ds : list directive) (r r' : config_repo) : Prop := {
  b_name : r_name r' = r_name r;
  b_cache_servers : r_cache_servers r' = r_cache_servers r ++ values "CacheServer" ds;
  b_servers : r_servers r' = r_servers r ++ values "Server" ds;
  b_levels : siglevel_loop (words "SigLevel" ds) (r_siglevel r, r_siglevel_mask r) = (true, (r_siglevel r', r_siglevel_mask r')) }.
Lemma built_nil r : built [] r r.
Proof. by split; rewrite ?app_nil_r. Qed.
Lemma built_app a b r1 r2 r3 : built a r1 r2 -> built b r2 r3 -> built (a ++ b) r1 r3.
Proof.
  intros [H1 H2 H3 H4] [G1 G2 G3 G4]. split; [congruence|..].
  - by rewrite G2, H2, values_app, app_assoc.
  - by rewrite G3, H3, values_app, app_assoc.
  - rewrite words_app. apply siglevel_loop_app. by eexists.
Qed.
Lemma values_one key k v : values key [(k, v)] = if str_is k key then match v with Some v => [v] | None => [] end else [].
Proof. unfold values. cbn [omap list_omap fst snd]. destruct (str_is k key); [|done]. by destruct v. Qed.
Ltac keys :=
  rewrite ?words_one, ?values_one;
  repeat match goal with |- context[str_is ?a ?b] => let x := eval vm_compute in (str_is a b) in change (str_is a b) with x end;
  cbv iota; rewrite ?app_nil_r.
Lemma parse_repo_built k v r r' : parse_repo k v r = (0, r') -> built [(k, v)] r r'.
Proof.
  unfold parse_repo. intros H.
  destruct (str_is k "CacheServer") eqn:E1; [apply str_is_true in E1 as ->; destruct v as [v|]; [|done]; injection H as <-; split; keys; done|].
  destruct (str_is k "Server") eqn:E2; [apply str_is_true in E2 as ->; destruct v as [v|]; [|done]; injection H as <-; split; keys; done|].
  assert (forall l m u, values "CacheServer" [(k, v)] = [] /\ values "Server" [(k, v)] = [] /\ (siglevel_loop (words "SigLevel" [(k, v)]) (r_siglevel r, r_siglevel_mask r) = (true, (l, m)) ->
    built [(k, v)] r (r<|r_siglevel := l|><|r_siglevel_mask := m|><|r_usage := u|>))) as Hb.
  { intros l m u. assert (values "CacheServer" [(k, v)] = [] /\ values "Server" [(k, v)] = []) as [A B] by (rewrite !values_one, E1, E2; done).
    split_and!; [done..|]. intros Hl. split; rewrite ?A, ?B, ?app_nil_r; done. }
  destruct (str_is k "SigLevel") eqn:E3.
  - destruct v as [v|]; [|done]. cbv beta iota in H. rewrite words_one, E3 in Hb. change (setrepeatingoption v []) with (tokens (length v) v) in H.
    destruct (tokens (length v) v) as [|w ws] eqn:Et.
    + injection H as <-. destruct r as [n cs ss u l m]. by apply (Hb l m u).
    + destruct (process_siglevel _ _ _) as [ret [l m]] eqn:Ep. injection H as -> <-. apply process_siglevel_ok in Ep. destruct r as [n cs ss u l0 m0]. by apply (Hb l m u).
  - rewrite words_one, E3 in Hb. destruct (str_is k "Usage").
    + destruct v as [v|]; [|done]. cbv beta iota in H. destruct (process_usage _ _) as [ret u]. injection H as -> <-. destruct r as [n cs ss u0 l m]. by apply (Hb l m u).
    + injection H as <-. destruct r as [n cs ss u l m]. by apply (Hb l m u).
Qed.

(** What the directives before the next section do: to the options, or to the
    current repository. *)
Definition lead_options (d : data) (lead : list directive) : list directive := match s_repo d.2 with None => lead | Some _ => [] end.
Definition lead_repos (d : data) (lead : list directive) (rs : list config_repo) : Prop :=
  match s_repo d.2 with
  | None => rs = repos d.1
  | Some i => exists r r', repos d.1 !! i = Some r /\ built lead r r' /\ rs = <[i := r']> (repos d.1)
  end.
Definition new_repo (n : cstr) : config_repo := Repo n [] [] 0 Db.SIG_USE_DEFAULT 0.
Definition described (sec : cstr * list directive) (r : config_repo) : Prop := built sec.2 (new_repo sec.1) r.
(** The state after the events of a group. *)
Record read_as (d : data) (evs : list Ini.event) (d' : data) : Prop := {
  ra_levels : siglevel_loop (words "SigLevel" (lead_options d (group evs).1 ++ options (group evs).2)) (levels d.1) = (true, levels d'.1);
  ra_repos : exists rs rs', repos d'.1 = rs ++ rs' /\ lead_repos d (group evs).1 rs /\ Forall2 described (repositories (group evs).2) rs' }.

Lemma lead_nil d : section_ok d -> lead_repos d [] (repos d.1).
Proof.
  intros Hok. unfold lead_repos. destruct (s_repo d.2) as [i|] eqn:Es; [|done]. destruct (lookup_lt_is_Some_2 (repos d.1) i) as [r Hr]; [by apply Hok|].
  exists r, r. split_and!; [done|apply built_nil|]. by rewrite list_insert_id.
Qed.
Lemma read_header d ev evs name d' : Ini.ev_key ev = None -> Ini.ev_section ev = Some name -> section_ok d ->
  read_as (new_section name d) evs d' -> read_as d (ev :: evs) d'.
Proof.
  intros Hk Hn Hok [Hl (rs & rs' & Hr & Hlead & Hds)]. destruct d as [c sec]. destruct (group evs) as [lead secs] eqn:Eg.
  assert (group (ev :: evs) = ([], (name, lead) :: secs)) as Eg' by (cbn [group]; by rewrite Eg, Hk, Hn).
  pose proof (lead_nil (c, sec) Hok) as Hnil. cbn [fst] in Hnil.
  assert (lead_options (c, sec) [] = []) as Hlo by (unfold lead_options; by destruct (s_repo _)).
  unfold new_section in *. destruct (str_is name "options") eqn:En; cbn [fst snd] in *.
  - split; rewrite Eg'; cbn [fst snd].
    + rewrite Hlo. unfold options. cbn [mbind list_bind fst snd]. rewrite En. exact Hl.
    + exists (repos c), rs'. unfold repositories. cbn [List.filter fst]. rewrite En. cbn [lead_repos s_repo snd fst] in Hlead. by subst rs.
  - split; rewrite Eg'; cbn [fst snd].
    + rewrite Hlo. unfold options. cbn [mbind list_bind fst snd]. rewrite En. exact Hl.
    + cbn [lead_repos s_repo snd fst] in Hlead. destruct Hlead as (r & r' & Hr1 & Hb & ->). cbn in Hr1. unfold constant in *. rewrite list_lookup_middle in Hr1 by done.
      injection Hr1 as <-. exists (repos c), (r' :: rs'). unfold repositories. cbn [List.filter fst]. rewrite En. cbn [negb]. split_and!; [|done|by constructor].
      rewrite Hr. cbn. unfold constant. rewrite insert_app_r_alt, Nat.sub_diag by done. cbn. by rewrite <- app_assoc.
Qed.
Lemma read_directive d ev evs key d1 d' : Ini.ev_key ev = Some key -> section_ok d -> plain_directive key (Ini.ev_value ev) d = Some (0, d1) ->
  read_as d1 evs d' -> read_as d (ev :: evs) d'.
Proof.
  intros Hk Hok Hp [Hl (rs & rs' & Hr & Hlead & Hds)]. destruct (group evs) as [lead secs] eqn:Eg.
  assert (group (ev :: evs) = ((key, Ini.ev_value ev) :: lead, secs)) as Eg' by (cbn [group]; by rewrite Eg, Hk).
  destruct d as [c [n r dp]]. unfold plain_directive in Hp. cbn [s_name s_repo] in Hp. destruct n as [n|]; [|done].
  split; rewrite Eg'; cbn [fst snd] in *; destruct r as [i|].
  - destruct (repos c !! i) as [rp|]; [|done]. cbn [mbind option_bind] in Hp. destruct (parse_repo _ _ _). injection Hp as -> <-. exact Hl.
  - destruct (parse_options _ _ _) as [[ret c']|] eqn:E; [|done]. injection Hp as -> <-. unfold lead_options in *. cbn [s_repo snd] in *.
    cbn [app]. rewrite words_cons. apply siglevel_loop_app. exists (levels c'). split; [|done]. by apply parse_options_levels.
  - destruct (repos c !! i) as [rp|] eqn:Ei; [|done]. cbn [mbind option_bind] in Hp. destruct (parse_repo _ _ _) as [ret rp'] eqn:E. injection Hp as -> <-.
    exists rs, rs'. split_and!; [done| |done]. destruct Hlead as (r1 & r2 & H1 & H2 & ->). cbn in H1. unfold constant in *. cbn [s_repo lead_repos fst snd].
    rewrite list_lookup_insert_eq in H1 by by eapply lookup_lt_Some. injection H1 as <-. exists rp, r2. split_and!; [done| |].
    + apply (built_app [_] lead _ rp'); [by apply parse_repo_built|done].
    + cbn. unfold constant. by rewrite list_insert_insert_eq.
  - destruct (parse_options _ _ _) as [[ret c']|] eqn:E; [|done]. injection Hp as -> <-. apply parse_options_frame in E as [_ E].
    exists rs, rs'. split_and!; [done| |done]. unfold lead_repos in *. cbn [s_repo snd fst] in *. congruence.
Qed.
Lemma run_read evs : forall d d', section_ok d -> run_items (Do <$> evs) d = Some (0, d') -> read_as d evs d'.
Proof.
  induction evs as [|ev evs IH]; intros d d' Hok H.
  - injection H as <-. split; cbn [group fst snd].
    + unfold lead_options. by destruct (s_repo d.2).
    + exists (repos d.1), []. split_and!; [by rewrite app_nil_r|by apply lead_nil|constructor].
  - cbn [fmap list_fmap run_items do_item] in H. destruct (plain_event d ev) as [[ret d1]|] eqn:E; [|done]. cbn [mbind option_bind] in H.
    destruct (ret =? 0) eqn:Er; [|by simplify_eq]. apply Z.eqb_eq in Er as ->. destruct (do_item_frame d (Do ev) 0 d1 Hok E) as [_ Hok1].
    specialize (IH d1 d' Hok1 H). unfold plain_event in E. destruct (Ini.ev_key ev) as [key|] eqn:Ek.
    + apply (read_directive d ev evs key d1); [done..| |done]. by destruct (Ini.ev_section ev).
    + destruct (Ini.ev_section ev) as [name|] eqn:En, (Ini.ev_value ev); try done. apply (read_header d ev evs name); [done..|]. by assert (new_section name d = d1) as -> by congruence.
Qed.
(** A configuration starts with a section. *)
Lemma run_starts evs c dp d' : run_items (Do <$> evs) (c, Section_t None None dp) = Some (0, d') -> (group evs).1 = [].
Proof.
  destruct evs as [|ev evs]; [done|]. cbn [fmap list_fmap run_items do_item group]. unfold plain_event. intros H. destruct (group evs) as [lead secs].
  destruct (Ini.ev_key ev) as [key|]; [|done]. by destruct (Ini.ev_section ev).
Qed.
Lemma run_no_stop l : forall d d', run_items l d = Some (0, d') -> exists evs, l = Do <$> evs.
Proof.
  induction l as [|i l IH]; intros d d' H; [by exists []|]. cbn [run_items] in H. destruct (do_item d i) as [[ret d1]|] eqn:E; [|done]. cbn [mbind option_bind] in H.
  destruct (ret =? 0) eqn:Er; [|by simplify_eq]. destruct (IH _ _ H) as [evs ->]. destruct i as [ev|]; [by exists (ev :: evs)|]. cbn in E. by simplify_eq.
Qed.

(** ** Repositories after the defaults *)

(** A mirror as it is used: with its variables replaced, below [sysroot]. *)
Definition mirror (c : config) (name v url : cstr) : Prop :=
  exists u, replace_server_vars c name v = Some (Some u) /\ url = match sysroot c with Some _ => prepend_server (sysroot c) u | None => u end.
Definition cache_mirror (c : config) (name v url : cstr) : Prop := replace_server_vars c name v = Some (Some url).
Lemma replace_list c name l : forall l', replace_server_list_vars c name l = Some (true, l') -> Forall2 (fun v u => replace_server_vars c name v = Some (Some u)) l l'.
Proof.
  induction l as [|s l IH]; intros l' H; cbn in H; [injection H as <-; constructor|]. destruct (replace_server_vars c name s) as [[u|]|] eqn:E; cbn in H; try done.
  destruct (replace_server_list_vars c name l) as [[ok l1]|]; [|done]. injection H as -> <-. constructor; [done|]. by apply IH.
Qed.
(** What the defaults do to a repository. *)
Record defaulted (c : config) (r r' : config_repo) : Prop := {
  df_name : r_name r' = r_name r;
  df_level : r_siglevel r' = merge_siglevel (siglevel c) (r_siglevel r) (r_siglevel_mask r);
  df_cache : Forall2 (fun v u => replace_server_vars c (r_name r) v = Some (Some u)) (r_cache_servers r) (r_cache_servers r');
  df_servers : Forall2 (fun v u => replace_server_vars c (r_name r) v = Some (Some u)) (r_servers r) (r_servers r') }.
Lemma default_repos_spec c l : forall l', default_repos c l = Some (true, l') -> Forall2 (defaulted c) l l'.
Proof.
  induction l as [|r l IH]; intros l' H; cbn [default_repos] in H; [injection H as <-; constructor|].
  destruct r as [n cs ss u lv m]. cbn in H. unfold constant in H.
  destruct (replace_server_list_vars c n cs) as [[[] cs']|] eqn:Ec; cbn in H; [|done..].
  destruct (replace_server_list_vars c n ss) as [[[] ss']|] eqn:Es; cbn in H; [|done..].
  destruct (default_repos c l) as [[ok l1]|]; [|done]. injection H as -> <-. constructor; [|by apply IH]. split; cbn; try done; by apply replace_list.
Qed.

Lemma default_paths_frame c c' : default_paths c = Some c' -> sysroot c' = sysroot c /\ repos c' = repos c /\ architectures c' = architectures c /\ levels c' = levels c.
Proof. unfold default_paths. destruct (rootdir c) as [root|]; [destruct (chop_root root)|]; by intros [= <-]. Qed.
Lemma replace_frame c c' name v : architectures c = architectures c' -> replace_server_vars c name v = replace_server_vars c' name v.
Proof. intros H. unfold replace_server_vars. by rewrite H. Qed.
(** What [setdefaults] makes of the repositories. *)
Definition finished_repo (c : config) (r r' : config_repo) : Prop :=
  r_name r' = r_name r /\ r_siglevel r' = merge_siglevel (siglevel c) (r_siglevel r) (r_siglevel_mask r) /\
  Forall2 (cache_mirror c (r_name r)) (r_cache_servers r) (r_cache_servers r') /\ Forall2 (mirror c (r_name r)) (r_servers r) (r_servers r').
Lemma setdefaults_repos c c' : setdefaults c = Some (0, c') -> siglevel c' = siglevel c /\ Forall2 (finished_repo c') (repos c) (repos c').
Proof.
  unfold setdefaults. destruct (default_paths c) as [c1|] eqn:E; [|done]. apply default_paths_frame in E as (E1 & E2 & E3 & E4). cbn [mbind option_bind].
  assert (siglevel c1 = siglevel c) as E5 by (unfold levels in E4; congruence).
  set (c2 := c1<|logfile := _|><|gpgdir := _|><|cachedirs := _|><|hookdirs := _|><|cleanmethod := _|><|localfilesiglevel := _|><|remotefilesiglevel := _|>).
  assert (siglevel c2 = siglevel c /\ repos c2 = repos c /\ sysroot c2 = sysroot c /\ architectures c2 = architectures c) as (G1 & G2 & G3 & G4) by done. clearbody c2.
  destruct (default_repos c2 (repos c2)) as [[ok rs]|] eqn:Ed; [|done]. cbn [mbind option_bind]. destruct ok; [|done]. apply default_repos_spec in Ed.
  intros H. assert (c' = prepend_sysroot (c2<|repos := rs|>)) as -> by congruence. clear H. unfold prepend_sysroot. rewrite G2 in Ed. assert (sysroot (c2<|repos := rs|>) = sysroot c2) as -> by done. destruct (sysroot c2) as [sr|] eqn:Es; cbn; unfold constant.
  - split; [done|]. rewrite <- (list_fmap_id (repos c)). apply Forall2_fmap_2. eapply Forall2_impl; [exact Ed|]. intros r r' [D1 D2 D3 D4]. unfold finished_repo. cbn. unfold constant. split_and!; [done|done|done|].
    rewrite <- (list_fmap_id (r_servers r)). apply Forall2_fmap_2. eapply Forall2_impl; [exact D4|]. intros v u Hu. exists u. split; [exact Hu|]. unfold sysroot in *. cbn. by rewrite Es.
  - split; [done|]. eapply Forall2_impl; [exact Ed|]. intros r r' [D1 D2 D3 D4]. unfold finished_repo. cbn. split_and!; [done|done|done|].
    eapply Forall2_impl; [exact D4|]. intros v u Hu. exists u. split; [exact Hu|]. unfold sysroot in *. cbn. by rewrite Es.
Qed.

(** The level of a database, as the library sees it. *)
Lemma has_default z : Z.testbit z 30 = false -> Db.has z Db.SIG_USE_DEFAULT = false.
Proof.
  intros H. unfold Db.has. apply negb_false_iff, Z.eqb_eq, Z.bits_inj'. intros n Hn. rewrite Z.land_spec, Z.bits_0. unfold Db.SIG_USE_DEFAULT.
  rewrite Z.pow2_bits_eqb by done. destruct (30 =? n) eqn:E; [|apply andb_false_r]. apply Z.eqb_eq in E as <-. by rewrite H.
Qed.
Lemma merged_flag ws gws l m gl gm db b :
  siglevel_loop ws (Db.SIG_USE_DEFAULT, 0) = (true, (l, m)) -> siglevel_loop gws (Z.lor Validate.SIG_PACKAGE SyncDb.SIG_DATABASE, 0) = (true, (gl, gm)) ->
  b ∈ flags -> Db.siglevel db = merge_siglevel gl l m ->
  Z.testbit (Db.db_get_siglevel gl db) b = match said b ws with Some x => x | None => match said b gws with Some x => x | None => bool_decide (b = 0 \/ b = 10) end end.
Proof.
  intros Hl Hg Hb Hd. unfold Db.db_get_siglevel. rewrite Hd. destruct (siglevel_loop_flags _ _ _ _ _ b Hl Hb) as [L1 L2]. destruct (siglevel_loop_flags _ _ _ _ _ b Hg Hb) as [G1 _].
  assert (Z.testbit gl b = match said b gws with Some x => x | None => bool_decide (b = 0 \/ b = 10) end) as Hgl.
  { rewrite G1. destruct (said b gws); [done|]. cbn [default]. repeat (apply elem_of_cons in Hb as [->|Hb]; [done|]). by apply elem_of_nil in Hb. }
  rewrite <- Hgl. destruct ws as [|w ws'] eqn:Ew; [injection Hl as <- <-; done|]. rewrite <- Ew in *.
  destruct (siglevel_loop_spoken ws _ _ Hl) as (b0 & Hb0 & x0 & Hx0); [by rewrite Ew|]. destruct (siglevel_loop_flags _ _ _ _ _ b0 Hl Hb0) as [_ Hm0]. rewrite Hx0 in Hm0.
  assert (m =? 0 = false) as Hm by (apply Z.eqb_neq; intros ->; by rewrite Z.bits_0 in Hm0). unfold merge_siglevel. rewrite Hm.
  destruct (siglevel_loop_default _ _ _ _ _ Hl) as [_ L30]. rewrite Ew in L30. destruct (siglevel_loop_default _ _ _ _ _ Hg) as [_ G30].
  assert (Z.testbit gl 30 = false) as G30' by (rewrite G30; by destruct gws).
  rewrite has_default by (rewrite Z.lor_spec, !Z.land_spec, L30, G30'; done).
  rewrite Z.lor_spec, !Z.land_spec, Z.lnot_spec, L2, L1 by (clear -Hb; repeat (apply elem_of_cons in Hb as [->|Hb]; [done|]); by apply elem_of_nil in Hb).
  rewrite Z.bits_0. destruct (said b ws) as [[]|]; cbn; by rewrite ?andb_false_r, ?andb_true_r, ?orb_false_r.
Qed.

(** A file that includes itself stops the parser. *)
Definition includes (sr : option cstr) (f g : cstr) : Prop :=
  exists ev v, ev ∈ file_events f /\ is_include ev = true /\ Ini.ev_value ev = Some v /\ g ∈ found sr v.
Lemma expand_elem sr n evs ev i : ev ∈ evs -> i ∈ expand_one sr n ev -> i ∈ expand sr n evs.
Proof. intros Hin Hi. induction Hin as [ev evs|ev x evs Hin IH]; rewrite expand_cons; apply elem_of_app; auto. Qed.
Lemma expand_stop sr f n : includes sr f f -> Stop ∈ expand sr n (file_events f).
Proof.
  intros (ev & v & Hin & Hi & Hv & Hf). induction n as [|n IH]; apply (expand_elem _ _ _ ev); try done; unfold expand_one; rewrite Hi, Hv; [by left|].
  apply list_elem_of_bind. by exists f.
Qed.

(** C27: Reading the configuration ends, whatever files there are and however they
    include each other, without undefined behaviour when [sysroot] has none of the
    characters of patterns.  The result is that of reading one flat sequence of
    directives, in which every Include directive is replaced by the files it
    finds, ten levels deep at most; an Include further down is an error, so that a
    file that includes itself is never accepted. *)
Theorem config_includes file c (Hc : clean (sysroot c)) :
  let main := prepend_dir (sysroot c) file in
  exists ret d, parseconfigfile file c = Some (ret, d.1) /\
    run_items (expand (sysroot c) config_max_recursion (file_events main)) (c, Section_t None None 0) = Some (ret, d) /\
    (includes (sysroot c) main main -> ret <> 0).
Proof.
  intros main. destruct (parseconfigfile_expand file c Hc) as (ret & d & E1 & E2). exists ret, d. split_and!; [done..|]. intros Hi ->.
  destruct (run_no_stop _ _ _ E1) as [evs Eq]. pose proof (expand_stop _ _ config_max_recursion Hi) as Hs. unfold main in Hs. rewrite Eq in Hs.
  apply list_elem_of_fmap in Hs as (ev & ? & _). done.
Qed.

(** C18: The repositories of an accepted configuration are its sections other than
    [options], in order and whichever file they come from.  Each has the section's
    servers in order, with the variables replaced; and every flag of the signature
    checks the library makes for it is what the last word about that flag in the
    section's SigLevel says, or else the last word in SigLevel of the options, or
    else the default: signatures required, only trusted keys. *)
Theorem config_repositories file sr c (Hsr : clean sr)
    (H : parseconfig file ((config_new true)<|sysroot := sr|>) = Some (0, c)) :
  exists evs, expand sr config_max_recursion (file_events (prepend_dir sr file)) = Do <$> evs /\ (group evs).1 = [] /\
    let secs := (group evs).2 in
    Forall2 (fun sec r =>
        r_name r = sec.1 /\ Forall2 (cache_mirror c sec.1) (values "CacheServer" sec.2) (r_cache_servers r) /\
        Forall2 (mirror c sec.1) (values "Server" sec.2) (r_servers r) /\
        forall db b, Db.siglevel db = r_siglevel r -> b ∈ flags ->
          Z.testbit (Db.db_get_siglevel (siglevel c) db) b =
            match said b (words "SigLevel" sec.2) with
            | Some x => x
            | None => match said b (words "SigLevel" (options secs)) with Some x => x | None => bool_decide (b = 0 \/ b = 10) end
            end)
      (repositories secs) (repos c).
Proof.
  unfold parseconfig in H. set (c0 := (config_new true)<|sysroot := sr|>) in *. destruct (parseconfigfile_expand file c0 Hsr) as (ret & d & E1 & E2). change (sysroot c0) with sr in E1.
  rewrite E2 in H. cbn [mbind option_bind] in H. destruct (ret =? 0) eqn:Er; [|by simplify_eq]. apply Z.eqb_eq in Er as ->.
  destruct (run_no_stop _ _ _ E1) as [evs Eq]. rewrite Eq in E1. exists evs. split; [done|]. pose proof (run_starts _ _ _ _ E1) as Hlead. split; [done|].
  apply setdefaults_repos in H as [Hl Hrs]. apply run_read in E1 as [Hlev (rs & rs' & Hr & Hrs0 & Hds)]; [|done].
  rewrite Hlead in Hlev, Hrs0. unfold lead_repos in Hrs0. cbn [fst snd s_repo] in *. subst rs. cbn [app repos] in Hr. rewrite Hr in Hrs.
  cbn [lead_options s_repo snd app] in Hlev. cbn zeta.
  change (repos c0 ++ rs') with rs' in Hrs. unfold levels in Hlev. rewrite <- Hl in Hlev.
  clear Hr. revert Hrs. generalize (repos c). induction Hds as [|sec r secs rs' Hsec Hds IH]; intros l Hrs; inversion Hrs as [|? r' ? l' (F1 & F2 & F3 & F4) Hrs']; subst; constructor; [|by apply IH].
  destruct Hsec as [B1 B2 B3 B4]. cbn in B1, B2, B3, B4. rewrite B1, B2 in F3. rewrite B1, B3 in F4. split_and!; [congruence|done|done|].
  intros db b Hdb Hb. by apply (merged_flag _ _ (r_siglevel r) (r_siglevel_mask r) (siglevel c) (siglevel_mask d.1)); [..|congruence].
Qed.

End Parse.

(** ** The external download command *)

Section Xfer.
(** Running the command with its arguments: the status [systemvp] gives and what
    happens to the files; whether the directory can be entered and whether
    [rename] succeeds. *)
Variables (systemvp : list cstr -> gmap cstr cstr -> Z * gmap cstr cstr) (chdir_ok : cstr -> bool) (rename_ok : cstr -> cstr -> bool).

(** [get_filename], [get_destfile] and [get_tempfile] *)
Definition get_filename (url : cstr) : option cstr := snd <$> Util.strrchr url "/"%char.
Definition get_destfile (path filename : cstr) : cstr := path ++ filename.
Definition get_tempfile (path filename : cstr) : cstr := path ++ filename ++ lit ".part".
(** The arguments with the place holders filled in. *)
Definition xfer_argv (argv : list cstr) (tempfile url : cstr) : list cstr :=
  (fun val => if str_is val "%o" then tempfile else if str_is val "%u" then url else val) <$> argv.
(** [download_with_xfercommand] *)
Definition download_with_xfercommand (argv : list cstr) (d : gmap cstr cstr) (url localpath : cstr) (force : bool) : Z * gmap cstr cstr :=
  match argv, get_filename url with
  | [], _ | _, None => (-1, d)
  | _, Some filename =>
      let destfile := get_destfile localpath filename in
      let tempfile := get_tempfile localpath filename in
      let d := if force then delete destfile (delete tempfile d) else d in
      if negb (chdir_ok localpath) then (-1, d)
      else
        let '(retval, d) := systemvp (xfer_argv argv tempfile url) d in
        if negb (retval =? 0) then (-1, d)
        else if bool_decide (lit "%o" ∈ argv) then
          match d !! tempfile with
          | Some content => if rename_ok tempfile destfile then (0, <[destfile := content]> (delete tempfile d)) else (-1, d)
          | None => (-1, d)
          end
        else (0, d)
  end.
(** With the place holder for the file, a download that succeeds leaves what the
    command wrote under the final name, and no temporary file. *)
Lemma xfer_delivers argv d url localpath force d' : download_with_xfercommand argv d url localpath force = (0, d') -> lit "%o" ∈ argv ->
  exists filename, get_filename url = Some filename /\ is_Some (d' !! get_destfile localpath filename) /\ d' !! get_tempfile localpath filename = None.
Proof.
  unfold download_with_xfercommand. intros H Hin. destruct argv as [|a argv]; [done|]. destruct (get_filename url) as [f|]; [|done].
  destruct (chdir_ok localpath); [|done]. cbn [negb] in H. destruct (systemvp _ _) as [ret d1]. destruct (ret =? 0); [|done]. cbn [negb] in H.
  rewrite bool_decide_eq_true_2 in H by done. destruct (d1 !! get_tempfile localpath f) as [content|]; [|done]. destruct (rename_ok _ _); [|done]. injection H as <-.
  exists f. split; [done|]. split; [rewrite lookup_insert_eq; by eexists|]. rewrite lookup_insert_ne; [apply lookup_delete_eq|].
  unfold get_destfile, get_tempfile. intros H%app_inv_head. apply (f_equal length) in H. rewrite length_app in H. cbn in H. lia.
Qed.
End Xfer.

(** ** Buffers *)

(** The new string of [strreplace] fills its buffer exactly. *)
Lemma replace_loop_length fuel needle rep : needle <> [] -> forall str, (length str < fuel)%nat ->
  exists new n, replace_loop fuel str needle rep = Some (new, n) /\ 0 <= n /\
    Z.of_nat (length new) = Z.of_nat (length str) + n * (Z.of_nat (length rep) - Z.of_nat (length needle)).
Proof.
  intros Hn. induction fuel as [|fuel IH]; intros str Hf; [lia|]. cbn [replace_loop]. destruct (strstr str needle) as [q|] eqn:E; [|exists str, 0; split_and!; [done|lia|lia]].
  apply strstr_Some in E as (u & v & -> & <-). assert (0 < length needle)%nat by (destruct needle; [done|cbn; lia]). rewrite !length_app in *.
  destruct (IH (drop (length u + length needle) (u ++ needle ++ v))) as (new & n & -> & Hn0 & Hlen); [rewrite length_drop, !length_app; lia|]. cbn [mbind option_bind].
  eexists _, _. split; [done|]. split; [lia|]. rewrite !length_app, take_app_length. rewrite length_drop, !length_app in Hlen. lia.
Qed.
Lemma strreplace_fits str needle rep : needle <> [] -> exists new size, strreplace str needle rep = Some (new, size) /\
  (Z.of_nat (length new) + 1 < 2 ^ 64 -> size = Z.of_nat (length new) + 1).
Proof.
  intros Hn. destruct (replace_loop_length (S (length str)) needle rep Hn str) as (new & n & E & Hn0 & Hlen); [lia|]. unfold strreplace. rewrite E. cbn [mbind option_bind].
  eexists _, _. split; [done|]. intros Hs. destruct (n =? 0) eqn:E0; [apply Z.eqb_eq in E0; lia|]. unfold u64. rewrite <- Z.add_mod_idemp_r, Z.mul_mod_idemp_r, Z.add_mod_idemp_r by done.
  rewrite Z.mod_small; lia.
Qed.

(** ** Examples *)

Definition text (ls : list string) : cstr := ls ≫= fun l => LocalDb.line_of (lit l).
Definition ex_glob (p : cstr) : option (list cstr) := if str_is p "/sys/etc/d/*" then Some [lit "/sys/etc/d/core"; lit "/sys/etc/d/extra"] else Some [p].
Definition ex_file (f : cstr) : option (cstr * bool) :=
  if str_is f "/sys/etc/k.conf" then
    Some (text ["# comment"; "[options]"; "Architecture = x86_64"; "SigLevel = Required DatabaseOptional"; "Include = /etc/d/*"; "Server = file:///mnt/$repo"], false)
  else if str_is f "/sys/etc/d/core" then Some (text ["[core]"; "Server = http://one/$repo/$arch"], false)
  else if str_is f "/sys/etc/d/extra" then Some (text ["[extra]"; "SigLevel = PackageOptional PackageNever"; "Server = http://two/$repo"], false)
  else if str_is f "/sys/etc/loop" then Some (text ["Include = /etc/loop"], false)
  else None.
Definition ex_config : config := (config_new true)<|sysroot := Some (lit "/sys")|>.
Definition ex_parse (file : string) : option (Z * config) :=
  parseconfig Some true (lit "x86_64") true ex_glob ex_file (lit "/") (lit "/var/lib/kuzpkg/") (lit "/var/log/kuzpkg.log") (lit "/etc/gnupg/") (lit "/var/cache/") (lit "/etc/hooks/") (lit file) ex_config.
Lemma ex_clean : clean (sysroot ex_config).
Proof. intros d [= <-]. by_decide. Qed.
Lemma config_includes_witness :
  exists ret d, parseconfigfile Some true (lit "x86_64") true ex_glob ex_file (lit "/etc/loop") ex_config = Some (ret, d) /\ ret <> 0.
Proof.
  destruct (config_includes Some true (lit "x86_64") true ex_glob ex_file (lit "/etc/loop") ex_config ex_clean) as (ret & d & E & _ & H). exists ret, d.1. split; [exact E|].
  apply H. exists (Ini.Event None (Some (lit "Include")) (Some (lit "/etc/loop"))), (lit "/etc/loop"). split_and!; [vm_compute; left|reflexivity|reflexivity|vm_compute; left].
Defined.
Lemma config_repositories_witness :
  exists c evs, ex_parse "/etc/k.conf" = Some (0, c) /\
    expand ex_glob ex_file (Some (lit "/sys")) config_max_recursion (file_events ex_file (lit "/sys/etc/k.conf")) = Do <$> evs /\
    (r_name <$> repos c) = (repositories (group evs).2).*1 /\ (r_name <$> repos c) = [lit "core"; lit "extra"] /\
    (r_servers <$> repos c) = [[lit "http://one/core/x86_64"]; [lit "http://two/extra"; lit "file:///sys/mnt/extra"]] /\
    (r_siglevel <$> repos c) = [2 ^ 30; 2 + 2 ^ 10 + 2 ^ 11].
Proof.
  eexists. match goal with |- exists _, _ = Some (0, ?c) /\ _ =>
    pose proof (config_repositories Some true (lit "x86_64") true ex_glob ex_file (lit "/") (lit "/var/lib/kuzpkg/") (lit "/var/log/kuzpkg.log") (lit "/etc/gnupg/") (lit "/var/cache/") (lit "/etc/hooks/")
      (lit "/etc/k.conf") (Some (lit "/sys")) c ex_clean) as H end.
  destruct H as (evs & E & _ & H); [vm_compute; reflexivity|]. exists evs. split; [vm_compute; reflexivity|]. split; [exact E|].
  split; [|split_and!; vm_compute; reflexivity]. cbn zeta in H. clear E. induction H as [|sec r secs rs (Hn & _) _ IH]; [reflexivity|]. cbn. by rewrite Hn, IH.
Defined.

(** ** Defects *)

(** [escape_chars] allocates no room for the NUL: whenever a character is escaped
    it writes one octet behind its buffer. *)
Lemma escape_loop_length escape size pattern : forall out out', escape_loop escape size out pattern = Some out' ->
  length out' = (length out + length pattern + length (filter (fun c => c ∈ escape) pattern))%nat.
Proof.
  induction pattern as [|c pattern IH]; intros out out'; cbn [escape_loop]; [intros [= <-]; cbn; lia|]. unfold put. rewrite filter_cons.
  case_bool_decide; [rewrite decide_True by done|rewrite decide_False by done]; cbn [mbind option_bind].
  - destruct (_ <? size); [|done]. cbn [mbind option_bind]. destruct (_ <? size); [|done]. cbn [mbind option_bind]. intros H1%IH. rewrite H1, !length_app. cbn. lia.
  - destruct (_ <? size); [|done]. cbn [mbind option_bind]. intros H1%IH. rewrite H1, !length_app. cbn. lia.
Qed.
Theorem escape_overflow pattern escape : Exists (fun c => c ∈ escape) pattern -> escape_chars pattern escape = None.
Proof.
  intros H. unfold escape_chars. assert (0 < length (filter (fun c => c ∈ escape) pattern))%nat as Hpos.
  { destruct (filter _ pattern) as [|x l] eqn:E; [|cbn; lia]. apply Exists_exists in H as (c & Hin & Hc). assert (c ∈ filter (fun c => c ∈ escape) pattern) as Hf by by apply list_elem_of_filter.
    rewrite E in Hf. by apply elem_of_nil in Hf. }
  rewrite (proj2 (Z.eqb_neq _ _)) by lia. destruct (escape_loop _ _ _ _) as [out|] eqn:E; [|done]. apply escape_loop_length in E. cbn [mbind option_bind].
  unfold put. rewrite (proj2 (Z.ltb_ge _ _)); [done|]. rewrite E. cbn. lia.
Qed.

(** An empty root directory makes [setdefaults] look in front of it. *)
Theorem empty_root ROOTDIR DBPATH LOGFILE GPGDIR CACHEDIR HOOKDIR c : rootdir c = Some [] -> setdefaults ROOTDIR DBPATH LOGFILE GPGDIR CACHEDIR HOOKDIR c = None.
Proof. intros H. unfold setdefaults, default_paths. by rewrite H. Qed.

(** Cache servers stay outside [sysroot]. *)
Theorem cache_server_outside r c : sysroot c = Some (lit "/sys") -> repos c = [r] -> (r_cache_servers <$> repos (prepend_sysroot c)) = [r_cache_servers r].
Proof. intros H1 H2. unfold prepend_sysroot. rewrite H1. cbn. unfold constant. by rewrite H2. Qed.

End Conf.
