(* ===== verification/Apply.v ===== *)
(** * Carrying out a whole transaction

    The loops of [_klpm_sync_commit] ([src/lib/libkuzpkg/sync.c]),
    [_klpm_remove_packages] ([remove.c]) and [_klpm_upgrade_packages] ([add.c]) over
    the system of [RemoveFiles] and [Commit]: the file system, the directory of the
    local database and the package cache.  [Trans] has the same loops over the
    handle, with the steps for one package as parameters; here the steps are the
    real ones.  A signal that interrupts the transaction arrives after a number of
    steps, [limit]. *)

From S2P Require Import Prelude CStr Version KList Package FileList PkgHash Util Conflict Db LocalDb FileSys RemoveFiles AddFiles Deps Handle Trans Commit.
Local Open Scope Z_scope.

Module Apply.
Import FileSys RemoveFiles AddFiles Commit.

Section Loops.
(** [malloc] gives the address of a list node and [addr] that of a package object;
    [old] is [oldpkg] of a target. *)
Context (P : platform) (C : config) (e : Db.db_errno) (malloc addr : sys -> positive) (old : pkg -> option pkg).

(** [_klpm_remove_packages]: also the steps made, and how many are left before
    the interruption. *)
Fixpoint remove_packages (limit : nat) (s : sys) (targs : list pkg) (ret : Z) : option (Z * sys * list Trans.op * nat) :=
  match targs, limit with
  | [], _ | _, O => Some (ret, s, [], limit)
  | p :: targs, S limit =>
      '(r, s) ← remove_single_package (p_denied P) (p_unreadable P) (p_follow P) (p_lstat_dev P) (p_stat_dev P) (p_access_w P) (p_md5 P)
                  (p_regcomp P) (p_fnmatch P) (c_root C) (c_noupgrade C) (c_skip_remove C) (Db.db_get_pkgcache (p_populate P) (s_db s) e).1.1
                  (p_scriptlet P) (p_entry_left P) s (c_flags C) p None;
      '(ret, s, ops, limit) ← remove_packages limit s targs (if r =? -1 then -1 else ret);
      Some (ret, s, Trans.Removed p :: ops, limit)
  end.
(** [_klpm_upgrade_packages]: a step that fails interrupts the transaction. *)
Fixpoint upgrade_packages (limit : nat) (s : sys) (targs : list pkg) (ret : Z) : option (Z * sys * list Trans.op) :=
  match targs, limit with
  | [], _ | _, O => Some (ret, s, [])
  | p :: targs, S limit =>
      '(r, _, s, _) ← commit_single_pkg P C s p (old p) false (addr s) (Some (malloc s)) e;
      '(ret, s, ops) ← upgrade_packages (if r =? 0 then limit else O) s targs (if r =? 0 then ret else -1);
      Some (ret, s, Trans.Installed p :: ops)
  end.
(** [_klpm_sync_commit] *)
Definition sync_commit (limit : nat) (s : sys) (remove add : list pkg) : option (Z * sys * list Trans.op) :=
  '(r, s, ops1, limit) ← remove_packages limit s remove 0;
  if r =? -1 then Some (-1, s, ops1)
  else
    '(r, s, ops2) ← upgrade_packages limit s add 0;
    Some (if r =? -1 then -1 else 0, s, ops1 ++ ops2).
End Loops.

(** ** Packages that are the same to dependencies *)

Record like (p q : pkg) : Prop := {
  lk_name : name q = name p; lk_hash : name_hash q = name_hash p; lk_version : version q = version p;
  lk_depends : depends q = depends p; lk_provides : provides q = provides p }.
#[global] Instance like_refl : Reflexive like.
Proof. done. Qed.
Lemma depcmp_like p q d : like p q -> Deps.depcmp q d = Deps.depcmp p d.
Proof. intros [H1 H2 H3 _ H5]. unfold Deps.depcmp, Deps.depcmp_literal. by rewrite H1, H2, H3, H5. Qed.
(** Two systems of packages that are alike. *)
Definition alike (l l' : list pkg) : Prop := (forall q, q ∈ l' -> exists p, p ∈ l /\ like p q) /\ (forall p, p ∈ l -> exists q, q ∈ l' /\ like p q).
Lemma consistent_alike nodep assumed l l' : alike l l' -> Deps.consistent nodep assumed l -> Deps.consistent nodep assumed l'.
Proof.
  intros [H1 H2] Hc q d Hq Hd. destruct (H1 q Hq) as (p & Hp & Hl). rewrite (lk_depends _ _ Hl) in Hd.
  destruct (Hc p d Hp Hd) as [(r & Hr & Hrd)|?]; [|by right]. left. destruct (H2 r Hr) as (r' & Hr' & Hl'). exists r'. split; [done|]. by rewrite (depcmp_like r).
Qed.
Lemma Forall2_alike l l' : Forall2 like l l' -> alike l l'.
Proof.
  induction 1 as [|p q l l' Hpq _ [IH1 IH2]]; [by split; intros ? ?%elem_of_nil|].
  split; intros x [->|Hx]%elem_of_cons; try (eexists; split; [left|exact Hpq]).
  - destruct (IH1 x Hx) as (y & ? & ?). exists y. split; [by right|done].
  - destruct (IH2 x Hx) as (y & ? & ?). exists y. split; [by right|done].
Qed.
(** What is installed is like the target. *)
Lemma installed_like P C p o p' : installed_as P (labelled C p o) p' -> like p p'.
Proof. intros [bs ->]. destruct (labelled_reason C p o) as [r ->]. done. Qed.
Lemma cached_like d a p : like p (cached d a p).
Proof. by split; cbn; rewrite ?Package.list_depdup_id. Qed.
Lemma like_trans p q r : like p q -> like q r -> like p r.
Proof. intros [] []. split; congruence. Qed.
(** ** The state after some steps *)

Section Run.
Context (P : platform) (C : config) (e : Db.db_errno) (malloc addr : sys -> positive) (old : pkg -> option pkg).
Notation names l := (name <$> l).

(** The entry of an installed package in the database directory. *)
Definition on_disk (s : sys) (p : pkg) : Prop := exists d p', s_entries s !! entry_key p = Some d /\ like p p' /\
  (stores P p -> LocalDb.writable (to_lpkg p') ->
    LocalDb.local_db_read d LocalDb.INFRQ_ALL (LocalDb.LPkg (name p) (version p) LocalDb.fresh_info (LocalDb.FilesInfo [] []) false 0) =
    Some (0, LocalDb.LPkg (name p) (version p) (LocalDb.l_info (to_lpkg p')) (LocalDb.l_files (to_lpkg p')) (LocalDb.d_install d) LocalDb.LOADABLE)).
(** The entries of the database directory can be removed. *)
Definition entries_go : Prop := forall k d, p_entry_left P k d = None.
(** [R] has been removed from and [A] installed on the system [s0] with the cache
    [h0]. *)
Record after (s0 : sys) (h0 : PkgHash.pkghash) (R A : list pkg) (s : sys) (h : PkgHash.pkghash) : Prop := {
  af_db : db_ready (s_db s) h;
  af_pkgs : exists l, PkgHash.pkgs_of h ≡ₚ filter (fun q => name q ∉ names R ++ names A) (PkgHash.pkgs_of h0) ++ l /\ Forall2 like A l;
  af_in p : p ∈ A -> on_disk s p;
  af_out p : p ∈ R -> entries_go -> s_entries s !! entry_key p = None;
  af_old p o : p ∈ A -> old p = Some o -> entry_key o <> entry_key p -> entries_go -> s_entries s !! entry_key o = None;
  af_rest k : k.1 ∉ names R ++ names A -> s_entries s !! k = s_entries s0 !! k }.

Lemma after_start s h : db_ready (s_db s) h -> after s h [] [] s h.
Proof.
  intros Hr. split; [done| |by intros p ?%elem_of_nil|by intros p ?%elem_of_nil|by intros p o ?%elem_of_nil|done].
  exists []. split; [|constructor]. rewrite app_nil_r, filter_keep; [done|]. intros x _. apply not_elem_of_nil.
Qed.
Lemma on_disk_frame s s' p : s_entries s' !! entry_key p = s_entries s !! entry_key p -> on_disk s p -> on_disk s' p.
Proof. intros E (d & p' & H & Hr). exists d, p'. by rewrite E. Qed.
Lemma key_ne p q : name p <> name q -> entry_key p <> entry_key q.
Proof. unfold entry_key. congruence. Qed.

Lemma after_remove s0 h0 R s h o s1 h1 : after s0 h0 R [] s h -> removed P s h o s1 h1 -> after s0 h0 (R ++ [o]) [] s1 h1.
Proof.
  intros [H1 (l & H2 & H2') H3 H4 _ H5] [R1 R2 _ _ R5 _ _]. apply Forall2_nil_inv_l in H2' as ->. rewrite app_nil_r in H2.
  assert (forall k, k <> entry_key o -> s_entries s1 !! k = s_entries s !! k) as Hk.
  { intros k Hk. rewrite R2. unfold entries_without. destruct (s_entries s !! entry_key o) as [d|]; [|done].
    destruct (p_entry_left _ _ _); [by rewrite lookup_insert_ne|by rewrite lookup_delete_ne]. }
  split; [done| |by intros p ?%elem_of_nil| |by intros p x ?%elem_of_nil|].
  - exists []. split; [|constructor]. rewrite R5, H2, list_filter_filter, (app_nil_r (filter _ _)). apply reflexive_eq, list_filter_iff. intros q.
    rewrite !app_nil_r, fmap_app, not_elem_of_app. cbn. rewrite list_elem_of_singleton. tauto.
  - intros p Hp Hleft. destruct (decide (entry_key p = entry_key o)) as [->|Hne].
    + rewrite R2. unfold entries_without. destruct (s_entries s !! entry_key o) as [d|] eqn:Ed; [|done]. rewrite Hleft. apply lookup_delete_eq.
    + rewrite Hk by done. apply elem_of_app in Hp as [Hp|Hp%list_elem_of_singleton]; [by apply H4|congruence].
  - intros k. rewrite !app_nil_r, fmap_app, not_elem_of_app. cbn. rewrite list_elem_of_singleton. intros [Hk1 Hk2]. rewrite Hk; [by apply H5; rewrite app_nil_r|].
    intros ->. by apply Hk2.
Qed.
Lemma like_names A l : Forall2 like A l -> names l = names A.
Proof. induction 1 as [|p q A l [Hn _ _ _ _] _ IH]; [done|]. cbn. by rewrite Hn, IH. Qed.
Lemma after_install s0 h0 R A s h p s' p' h' q : after s0 h0 R A s h -> replaced P C s p (old p) h s' p' h' q ->
  name p ∉ names R -> name p ∉ names A -> (forall y x, y ∈ A ++ [p] -> old y = Some x -> name x = name y) -> after s0 h0 R (A ++ [p]) s' h'.
Proof.
  intros [H1 (l & H2 & H2') H3 H4 H6 H5] [E1 (d & E2 & E2') E3 E4 E5 (db & a & Eq) E7 _] HR HA Ho.
  pose proof (installed_like _ _ _ _ _ E1) as Hlk.
  assert (forall k, k.1 <> name p -> s_entries s' !! k = s_entries s !! k) as Hk.
  { intros k Hk. apply E3; [by intros ->|]. intros x Hx ->. apply Hk. apply (Ho p); [set_solver|done]. }
  split; [done| | | | |].
  - exists (l ++ [q]). split; [|apply Forall2_app; [done|]; constructor; [|constructor]; rewrite Eq; eapply like_trans; [exact Hlk|apply cached_like]].
    rewrite E7, H2, filter_app. rewrite (filter_keep _ l).
    + rewrite list_filter_filter, app_assoc, (Permutation_app_comm _ [q]). cbn. constructor. apply Permutation_app_tail, reflexive_eq, list_filter_iff. intros r.
      rewrite fmap_app, !not_elem_of_app. cbn. rewrite list_elem_of_singleton. tauto.
    + intros r Hr En. apply HA. rewrite <- (like_names _ _ H2'), <- En. by apply list_elem_of_fmap_2.
  - intros x [Hx| ->%list_elem_of_singleton]%elem_of_app; [|by exists d, p'].
    apply (on_disk_frame s); [|by apply H3]. apply Hk. cbn. intros Hn. apply HA. rewrite <- Hn. by apply list_elem_of_fmap_2.
  - intros x Hx Hleft. rewrite Hk; [by apply H4|]. cbn. intros Hn. apply HR. rewrite <- Hn. by apply list_elem_of_fmap_2.
  - intros x o [Hx| ->%list_elem_of_singleton]%elem_of_app Eo Hne Hleft; [|by apply E4].
    rewrite Hk; [by apply (H6 x)|]. cbn. intros Hn. apply HA. rewrite <- Hn, (Ho x o); [by apply list_elem_of_fmap_2|set_solver|done].
  - intros k. rewrite fmap_app, !not_elem_of_app. cbn. rewrite list_elem_of_singleton. intros (Hk1 & Hk2 & Hk3). rewrite Hk by done. apply H5. by apply not_elem_of_app.
Qed.

(** ** The loops *)

(** The first [n] removals, without failure. *)
Lemma remove_packages_run s0 h0 : forall R2 limit R1 s h, after s0 h0 R1 [] s h -> Forall (old_ok C) R2 ->
  exists s' h', remove_packages P C e limit s R2 0 = Some (0, s', Trans.Removed <$> take limit R2, (limit - length R2)%nat) /\
    after s0 h0 (R1 ++ take limit R2) [] s' h'.
Proof.
  induction R2 as [|p R2 IH]; intros limit R1 s h Ha Hok.
  - exists s, h. rewrite take_nil, app_nil_r. split; [|done]. cbn. by destruct limit.
  - inversion Hok as [|? ? Hp HR2]; subst. destruct limit as [|limit]; [exists s, h; cbn; by rewrite app_nil_r|]. cbn [remove_packages take length].
    destruct (remove_run P C s p e h (af_db _ _ _ _ _ _ Ha) Hp) as (s1 & h1 & -> & Hrm). cbn [mbind option_bind]. change (0 =? -1) with false. cbn iota.
    destruct (IH limit (R1 ++ [p]) s1 h1) as (s' & h' & -> & Ha'); [by eapply after_remove|done|]. cbn [mbind option_bind]. exists s', h'. split; [done|].
    by rewrite <- app_assoc in Ha'.
Qed.

(** A package that can be installed on the system with the cache [h0]. *)
Definition target_ok (h0 : PkgHash.pkghash) (p : pkg) : Prop :=
  pkg_hashed p /\ match old p with
                  | Some o => old_ok C o /\ name o = name p /\ name p ∈ PkgHash.names_of h0
                  | None => name p ∉ PkgHash.names_of h0
                  end.
(** The node is not one of the cache. *)
Definition fresh_nodes : Prop := forall s h, Db.pkgcache (s_db s) = Some h -> malloc s ∉ (PkgHash.hlist h).*1.
Definition count (h : PkgHash.pkghash) : nat := length (PkgHash.pkgs_of h).

Lemma after_count s0 h0 R A s h : after s0 h0 R A s h -> (count h <= count h0 + length A)%nat.
Proof.
  intros [_ (l & Hl & Hf) _ _ _ _]. unfold count. rewrite Hl, length_app, <- (Forall2_length _ _ _ Hf).
  assert (length (filter (fun q => name q ∉ names R ++ names A) (PkgHash.pkgs_of h0)) <= length (PkgHash.pkgs_of h0))%nat by apply length_filter. lia.
Qed.
Lemma after_names s0 h0 R A s h n : after s0 h0 R A s h -> n ∉ names R -> n ∉ names A -> n ∈ PkgHash.names_of h <-> n ∈ PkgHash.names_of h0.
Proof.
  intros [_ (l & Hl & Hf) _ _ _ _] HR HA. unfold PkgHash.names_of. rewrite Hl, fmap_app, elem_of_app, (like_names _ _ Hf). split.
  - intros [(q & -> & [_ Hq]%list_elem_of_filter)%list_elem_of_fmap|?]; [|done]. by apply list_elem_of_fmap_2.
  - intros (q & -> & Hq)%list_elem_of_fmap. left. apply list_elem_of_fmap_2, list_elem_of_filter. split; [|done]. by apply not_elem_of_app.
Qed.
Lemma after_ready s0 h0 R A s h p : fresh_nodes -> after s0 h0 R A s h -> target_ok h0 p -> name p ∉ names R -> name p ∉ names A ->
  (count h0 + length A <= Z.to_nat 300000)%nat -> step_ready C s p (old p) h (malloc s).
Proof.
  intros Hm Ha [Hh Ho] HR HA Hc. pose proof (af_db _ _ _ _ _ _ Ha) as Hr. pose proof (after_count _ _ _ _ _ _ Ha) as Hcount.
  pose proof (after_names _ _ _ _ _ _ (name p) Ha HR HA) as Hn. split; [done|done|by apply Hm, Hr| |].
  - rewrite (PkgHash.wf_entries _ (Db.ok_wf _ _ (dr_ok _ _ Hr) h (dr_cache _ _ Hr))). unfold count, PkgHash.pkgs_of in Hcount, Hc. rewrite !length_fmap in Hcount. rewrite !length_fmap in Hc. lia.
  - destruct (old p) as [o|]; [|by rewrite Hn]. by rewrite Hn.
Qed.
Lemma upgrade_stopped s A ret : upgrade_packages P C e malloc addr old 0 s A ret = Some (ret, s, []).
Proof. by destruct A. Qed.
Lemma upgrade_packages_run s0 h0 R : Extract (p_extract P) -> fresh_nodes -> forall A2 limit A1 s h, after s0 h0 R A1 s h -> Forall (target_ok h0) (A1 ++ A2) ->
  NoDup (names (A1 ++ A2)) -> (forall p, p ∈ A2 -> name p ∉ names R) -> (count h0 + length (A1 ++ A2) <= Z.to_nat 300000)%nat ->
  exists ret s' n, upgrade_packages P C e malloc addr old limit s A2 0 = Some (ret, s', Trans.Installed <$> take n A2) /\ (ret = 0 \/ ret = -1) /\
    (ret = 0 -> n = limit /\ exists h', after s0 h0 R (A1 ++ take n A2) s' h').
Proof.
  intros Hx Hm. induction A2 as [|p A2 IH]; intros limit A1 s h Ha Hok Hnd HR Hc.
  - exists 0, s, limit. rewrite take_nil. split; [cbn; by destruct limit|]. split; [by left|]. intros _. split; [done|]. exists h. by rewrite app_nil_r.
  - destruct limit as [|limit]; [exists 0, s, 0%nat; split; [done|]; split; [by left|]; intros _; split; [done|]; exists h; cbn; by rewrite app_nil_r|].
    assert (forall x, x ∈ A1 ++ p :: A2 -> target_ok h0 x) as Hall by by apply Forall_forall.
    assert (target_ok h0 p) as Hp by (apply Hall; set_solver). rewrite fmap_app in Hnd. apply NoDup_app in Hnd as (Hn1 & Hn2 & Hn3).
    assert (name p ∉ names A1) as HpA by (intros Hin; apply (Hn2 _ Hin); left).
    rewrite length_app in Hc. cbn [length] in Hc. cbn [upgrade_packages].
    destruct (commit_run P C s p (old p) h (malloc s) (addr s) e Hx) as (r & err & s1 & p' & -> & Hr & Hrep);
      [apply (after_ready s0 h0 R A1); [done|done|done|apply HR; left|done|lia]|]. cbn [mbind option_bind].
    destruct Hr as [-> | ->].
    + destruct (Hrep eq_refl) as (h1 & q & Hre). change (0 =? 0) with true. cbn iota.
      destruct (IH limit (A1 ++ [p]) s1 h1) as (ret & s' & n & -> & Hret & Hfin).
      * eapply after_install; [done|done|apply HR; left|done|]. intros y x Hy Ex. destruct (Hall y) as [_ Ho]; [set_solver|]. rewrite Ex in Ho. by destruct Ho as (_ & ? & _).
      * by rewrite <- app_assoc.
      * rewrite <- app_assoc, fmap_app. by apply NoDup_app.
      * intros x Hx'. apply HR. by right.
      * rewrite <- app_assoc, length_app. cbn [length app]. lia.
      * cbn [mbind option_bind]. exists ret, s', (S n). split; [done|]. split; [done|]. intros H0. destruct (Hfin H0) as [-> (h' & Ha')].
        split; [done|]. exists h'. by rewrite <- app_assoc in Ha'.
    + change (-1 =? 0) with false. cbn iota. rewrite upgrade_stopped. cbn [mbind option_bind]. exists (-1), s1, 1%nat. split; [done|]. split; [by right|done].
Qed.

(** The packages that stay, by name. *)
Lemma untouched_filter R A l : Forall pkg_hashed R -> Forall pkg_hashed A -> filter (fun q => name q ∉ names R ++ names A) l = Deps.untouched R A l.
Proof.
  intros HR HA. unfold Deps.untouched. induction l as [|q l IH]; [done|]. rewrite filter_cons. cbn [List.filter]. rewrite IH.
  assert (Deps.is_modified R A q = false <-> name q ∉ names R ++ names A) as Hm.
  { rewrite not_elem_of_app, <- !Package.pkg_find_None by done. unfold Deps.is_modified.
    destruct (Package.pkg_find R (name q)), (Package.pkg_find A (name q)); naive_solver. }
  case_decide as E; destruct (Deps.is_modified R A q) eqn:Em; cbn [negb]; try done; exfalso; [by apply Hm in E|by apply (proj1 Hm)].
Qed.
(** The outcome of the plan and the packages in the cache are alike. *)
Lemma after_alike s0 h0 R A s h : Forall pkg_hashed R -> Forall pkg_hashed A -> after s0 h0 R A s h ->
  alike (Deps.untouched R A (PkgHash.pkgs_of h0) ++ A) (PkgHash.pkgs_of h).
Proof.
  intros HR HA [_ (l & Hl & Hf) _ _ _ _]. rewrite untouched_filter in Hl by done. destruct (Forall2_alike _ _ Hf) as [H1 H2]. split.
  - intros q. rewrite Hl, elem_of_app. intros [Hq|Hq]; [exists q; rewrite elem_of_app; by split; [left|]|].
    destruct (H1 q Hq) as (p & Hp & Hlk). exists p. rewrite elem_of_app. by split; [right|].
  - intros p [Hp|Hp]%elem_of_app; [exists p; rewrite Hl, elem_of_app; by split; [left|]|].
    destruct (H2 p Hp) as (q & Hq & Hlk). exists q. rewrite Hl, elem_of_app. by split; [right|].
Qed.

(** The situation in which a prepared transaction is carried out. *)
Record ready (s : sys) (h : PkgHash.pkghash) (R A : list pkg) : Prop := {
  rd_db : db_ready (s_db s) h;
  rd_remove : Forall (old_ok C) R;
  rd_add : Forall (target_ok h) A;
  rd_names : NoDup (names A);
  rd_apart : forall p, p ∈ A -> name p ∉ names R;
  rd_count : (count h + length A <= Z.to_nat 300000)%nat }.

(** C2: A transaction that was prepared for a consistent outcome makes the system
    consistent.  The cache is loaded and holds at most 300000 packages with the new
    ones, memory suffices, the installed versions that are removed or replaced have
    their recorded data in order ([old_ok]: every backup entry has a hash, no file is
    listed twice or lies in the place of another or of its saves), and the targets'
    names are distinct and not those of packages to remove.  Carrying it out ends; the steps made are a beginning of the plan, first the removals and then
    the installations.  When it returns 0, exactly these steps have taken effect in
    the package cache; in the directory of the database the new packages have
    entries, which read back if the disk has taken what was written, the entries of
    what was removed or replaced are gone if they could be removed (the code returns
    0 also when these two fail), and nothing else has changed there.  Without an
    interruption the steps are the whole plan, and then every dependency of the
    packages in the cache is met. *)
Theorem transaction_consistent nodep assumed limit s h R A
    (Hx : Extract (p_extract P)) (Hm : fresh_nodes) (Hready : ready s h R A)
    (Hplan : Deps.consistent nodep assumed (Deps.untouched R A (PkgHash.pkgs_of h) ++ A)) :
  exists ret s' R' A', sync_commit P C e malloc addr old limit s R A = Some (ret, s', (Trans.Removed <$> R') ++ (Trans.Installed <$> A')) /\
    (ret = 0 \/ ret = -1) /\ R' `prefix_of` R /\ A' `prefix_of` A /\
    (ret = 0 -> exists h', after s h R' A' s' h' /\
      ((length R + length A <= limit)%nat -> R' = R /\ A' = A /\ Deps.consistent nodep assumed (PkgHash.pkgs_of h'))).
Proof.
  destruct Hready as [Hr HR HA Hnd Hap Hc].
  destruct (remove_packages_run s h R limit [] s h (after_start s h Hr) HR) as (s1 & h1 & E1 & Ha1). cbn [app] in Ha1.
  assert (forall p, p ∈ A -> name p ∉ names (take limit R)) as Hap'.
  { intros p Hp Hin. apply (Hap p Hp). rewrite <- (take_drop limit R), fmap_app, elem_of_app. by left. }
  destruct (upgrade_packages_run s h (take limit R) Hx Hm A (limit - length R) [] s1 h1 Ha1 HA Hnd Hap' Hc) as (ret & s2 & n & E2 & Hret & Hfin).
  exists (if ret =? -1 then -1 else 0), s2, (take limit R), (take n A). unfold sync_commit. rewrite E1. cbn [mbind option_bind]. change (0 =? -1) with false. cbn iota.
  rewrite E2. cbn [mbind option_bind]. split; [done|]. split; [destruct (ret =? -1); auto|]. split; [by exists (drop limit R); rewrite take_drop|]. split; [by exists (drop n A); rewrite take_drop|].
  intros H0. assert (ret = 0) as -> by by destruct Hret as [-> | ->]. destruct (Hfin eq_refl) as [-> (h' & Ha')]. exists h'. split; [done|].
  intros Hlim. rewrite !take_ge in * by lia. split; [done|]. split; [done|]. eapply consistent_alike; [|exact Hplan]. eapply after_alike; [| |exact Ha'].
  - eapply Forall_impl; [exact HR|]. by intros o [? _].
  - eapply Forall_impl; [exact HA|]. by intros o [? _].
Qed.

End Run.

(** ** Witness *)

(** Removing glibc and upgrading foo. *)
Definition ex_malloc (s : sys) : positive := match Db.pkgcache (s_db s) with Some h => fresh (list_to_set (PkgHash.hlist h).*1 : gset positive) | None => 1 end.
Lemma ex_fresh : fresh_nodes ex_malloc.
Proof. intros s h E. unfold ex_malloc. rewrite E. rewrite <- (elem_of_list_to_set (C := gset positive)). apply is_fresh. Qed.
Definition ex_old_of (p : pkg) : option pkg := if decide (name p = lit "foo") then Some ex_old else None.
Lemma ex_applied_ready : ready ex_config ex_old_of ex_sys PkgHash.ex_hash [PkgHash.ex_glibc] [ex_new].
Proof.
  split; [apply ex_db_ready| | |by_decide|intros p ->%list_elem_of_singleton; by_decide|by_decide].
  - repeat constructor; intros ? ? ?%elem_of_nil; done.
  - constructor; [|constructor]. split; [reflexivity|]. cbn. split; [apply (sr_old _ _ _ _ _ _ ex_step_ready)|]. split; [reflexivity|by_decide].
Qed.
Lemma transaction_consistent_witness :
  exists s' h', sync_commit ex_platform ex_config Db.OK ex_malloc (fun _ => 50%positive) ex_old_of 10 ex_sys [PkgHash.ex_glibc] [ex_new] =
      Some (0, s', [Trans.Removed PkgHash.ex_glibc; Trans.Installed ex_new]) /\
    Db.pkgcache (s_db s') = Some h' /\ Deps.consistent false [] (PkgHash.pkgs_of h') /\ s_entries s' !! entry_key ex_old = None.
Proof.
  destruct (transaction_consistent ex_platform ex_config Db.OK ex_malloc (fun _ => 50%positive) ex_old_of false [] 10 ex_sys PkgHash.ex_hash
    [PkgHash.ex_glibc] [ex_new] ex_extract_ok ex_fresh ex_applied_ready) as (ret & s' & R' & A' & E & _ & _ & _ & H).
  { intros p d Hp Hd. exfalso. assert (Forall (fun p => depends p = []) (Deps.untouched [PkgHash.ex_glibc] [ex_new] (PkgHash.pkgs_of PkgHash.ex_hash) ++ [ex_new])) as Hn.
    { vm_compute. repeat constructor. }
    rewrite Forall_forall in Hn. rewrite (Hn p Hp) in Hd. by apply elem_of_nil in Hd. }
  assert ((fun x => (x.1.1, x.2, s_entries x.1.2 !! entry_key ex_old)) <$> sync_commit ex_platform ex_config Db.OK ex_malloc (fun _ => 50%positive) ex_old_of 10 ex_sys [PkgHash.ex_glibc] [ex_new] =
    Some (0, [Trans.Removed PkgHash.ex_glibc; Trans.Installed ex_new], None)) as Ev by (vm_compute; reflexivity).
  rewrite E in Ev. cbn [fmap option_fmap option_map fst snd] in Ev. injection Ev as -> Eops Eold.
  destruct (H eq_refl) as (h' & Ha & Hall). destruct Hall as (-> & -> & Hcons); [cbn; lia|]. exists s', h'. rewrite E. split; [reflexivity|].
  split; [apply (af_db _ _ _ _ _ _ _ _ Ha)|]. split; [exact Hcons|exact Eold].
Defined.

End Apply.
