(* ===== verification/DbUpdate.v ===== *)
(** * Updating the repositories ([klpm_db_update] of [src/lib/libkuzpkg/be_sync.c])

    The lock is taken, a payload is made for every database that is to be synced,
    they are downloaded ([Dload]), and the databases are validated again with empty
    caches ([SyncDb]).  The state is the handle's lock and the list of databases; what
    the download returns and what is then on disk are parameters. *)

From S2P Require Import Prelude CStr Package PkgHash Db Populate Archive SyncDb Handle Dload.
Local Open Scope Z_scope.

Module DbUpdate.

Definition DB_USAGE_SYNC : Z := 1.
Definition SIG_DATABASE_OPTIONAL : Z := 2 ^ 11.
(** The values of [pm_errno]; [E_DOWNLOAD] stands for those the download sets. *)
Inductive uerror := E_OK | E_SYSTEM | E_LOCK | E_WRONG_ARGS | E_SERVER_NONE | E_DOWNLOAD | E_INVALID_SIG.
#[global] Instance uerror_eq_dec : EqDecision uerror.
Proof. solve_decision. Defined.

(** What [stat] finds at the place of the directory for the repositories. *)
Inductive place := Absent | NotDirectory | Directory.
(** [get_sync_dir]: whether there is a directory afterwards. *)
Definition get_sync_dir (found : place) (unlink_ok makepath_ok : bool) : bool :=
  match found with Absent => makepath_ok | NotDirectory => unlink_ok && makepath_ok | Directory => true end.

Section Update.
(** [handle->dbext], the temporary directory and the default signature level. *)
Variables (dbext tmp : cstr) (default_level : Z).
(** [_klpm_download]; and by the name of a database: whether its file is absent
    afterwards, and the attempts at its signature. *)
Variables (download : list Dload.payload -> Z) (absent : cstr -> bool) (attempts : cstr -> list (Z * Z)).

Definition is_local (d : Db.db) : bool := Db.has (Db.status d) Db.DB_STATUS_LOCAL.
Definition synced (d : Db.db) : bool := Db.has (Db.usage d) DB_USAGE_SYNC.
Definition level (d : Db.db) : Z := Db.db_get_siglevel default_level d.

(** The payload of a database. *)
Definition db_payload (id : positive) (force : bool) (d : Db.db) : Dload.payload :=
  let file := Db.treename d ++ dbext in
  let dbforce := force || Db.has (Db.status d) Db.DB_STATUS_INVALID in
  Dload.Payload id file (Dload.get_fullpath tmp file (lit ".part")) (Some (Dload.get_fullpath tmp file [])) None (Some file) [] (Db.servers d)
    0 0 0 (128 * 1024 * 1024) dbforce false false true
    (Db.has (level d) SyncDb.SIG_DATABASE) (Db.has (level d) SIG_DATABASE_OPTIONAL) false false false.
(** The first loop. *)
Fixpoint make_payloads (id : positive) (force : bool) (dbs : list Db.db) : uerror + list Dload.payload :=
  match dbs with
  | [] => inr []
  | d :: dbs =>
      if negb (synced d) then make_payloads id force dbs
      else if is_local d then inl E_WRONG_ARGS
      else if bool_decide (Db.servers d = []) then inl E_SERVER_NONE
      else match make_payloads (Pos.succ id) force dbs with inl e => inl e | inr ps => inr (db_payload id force d :: ps) end
  end.

(** One round of the second loop: the result of [sync_db_validate], and the
    database. *)
Definition revalidate (d : Db.db) : option (Z * Db.db) :=
  let d := Db.db_free_pkgcache d in
  let s := Db.clear_flag (Db.clear_flag (Db.clear_flag (Db.clear_flag (Db.status d) Db.DB_STATUS_VALID) Db.DB_STATUS_INVALID) Db.DB_STATUS_EXISTS) Db.DB_STATUS_MISSING in
  v ← SyncDb.sync_db_validate true (absent (Db.treename d)) (level d) (attempts (Db.treename d)) s;
  let '(SyncDb.Validity ret s _) := v in Some (ret, Db.set_status d s).
Fixpoint refresh (dbs : list Db.db) (ret : Z) (e : uerror) : option (Z * uerror * list Db.db) :=
  match dbs with
  | [] => Some (ret, e, [])
  | d :: dbs =>
      if negb (synced d) then '(ret, e, dbs) ← refresh dbs ret e; Some (ret, e, d :: dbs)
      else
        '(r, d) ← revalidate d;
        '(ret, e, dbs) ← (if r =? 0 then refresh dbs ret e else refresh dbs (-1) E_INVALID_SIG);
        Some (ret, e, d :: dbs)
  end.

(** [klpm_db_update] of a list that is not empty: the result, [pm_errno], the
    handle and the databases. *)
Definition db_update (dirs makepath_ok open_ok : bool) (unlink : Handle.unlink_result) (h : Handle.handle) (dbs : list Db.db) (force : bool) : option (Z * uerror * Handle.handle * list Db.db) :=
  if negb dirs then Some (-1, E_SYSTEM, h, dbs)
  else
    let '(locked, h) := Handle.handle_lock makepath_ok open_ok h in
    '(ret, e, dbs) ←
      (if negb (locked =? 0) then Some (-1, E_LOCK, dbs)
       else match make_payloads 1 force dbs with
            | inl e => Some (-1, e, dbs)
            | inr [] => Some (0, E_OK, dbs)
            | inr ps =>
                let ret := download ps in
                if ret <? 0 then Some (ret, E_DOWNLOAD, dbs) else refresh dbs ret E_OK
            end);
    let h := (Handle.handle_unlock unlink h).2 in
    Some (ret, if ret =? -1 then e else E_OK, h, dbs).
End Update.

(** ** The status bits *)

(** All status bits of interest at once. *)
Record bits := Bits { valid : bool; invalid : bool; exist : bool; missing : bool; loaded : bool; grouped : bool }.
Definition bits_of (s : Z) : bits :=
  Bits (Db.has s Db.DB_STATUS_VALID) (Db.has s Db.DB_STATUS_INVALID) (Db.has s Db.DB_STATUS_EXISTS) (Db.has s Db.DB_STATUS_MISSING)
    (Db.has s Db.DB_STATUS_PKGCACHE) (Db.has s Db.DB_STATUS_GRPCACHE).
Ltac powers :=
  change Db.DB_STATUS_VALID with (2 ^ 0) in *; change Db.DB_STATUS_INVALID with (2 ^ 1) in *; change Db.DB_STATUS_EXISTS with (2 ^ 2) in *;
  change Db.DB_STATUS_MISSING with (2 ^ 3) in *; change Db.DB_STATUS_PKGCACHE with (2 ^ 11) in *; change Db.DB_STATUS_GRPCACHE with (2 ^ 12) in *.
Ltac solve_bits := unfold bits_of, Populate.valid_now, Populate.invalid_now, Populate.exists_now, Populate.missing_now; powers;
  repeat first [rewrite Db.has_set by lia|rewrite Db.has_clear by lia]; reflexivity.
Lemma bits_clear4 s : bits_of (Db.clear_flag (Db.clear_flag (Db.clear_flag (Db.clear_flag s Db.DB_STATUS_VALID) Db.DB_STATUS_INVALID) Db.DB_STATUS_EXISTS) Db.DB_STATUS_MISSING) =
  Bits false false false false (loaded (bits_of s)) (grouped (bits_of s)).
Proof. solve_bits. Qed.
Lemma bits_now s : let b := bits_of s in
  bits_of (Populate.valid_now s) = Bits true false (exist b) (missing b) (loaded b) (grouped b) /\
  bits_of (Populate.invalid_now s) = Bits false true (exist b) (missing b) (loaded b) (grouped b) /\
  bits_of (Populate.exists_now s) = Bits (valid b) (invalid b) true false (loaded b) (grouped b) /\
  bits_of (Populate.missing_now s) = Bits (valid b) (invalid b) false true (loaded b) (grouped b).
Proof. split_and!; solve_bits. Qed.

(** The caches agree with their bits. *)
Definition caches_ok (d : Db.db) : Prop :=
  (loaded (bits_of (Db.status d)) = true -> is_Some (Db.pkgcache d)) /\ (grouped (bits_of (Db.status d)) = true -> is_Some (Db.pkgcache d)).
Lemma free_pkgcache_bits d : caches_ok d ->
  Db.pkgcache (Db.db_free_pkgcache d) = None /\ loaded (bits_of (Db.status (Db.db_free_pkgcache d))) = false /\ grouped (bits_of (Db.status (Db.db_free_pkgcache d))) = false /\
  Db.treename (Db.db_free_pkgcache d) = Db.treename d /\ Db.servers (Db.db_free_pkgcache d) = Db.servers d /\
  Db.usage (Db.db_free_pkgcache d) = Db.usage d /\ Db.siglevel (Db.db_free_pkgcache d) = Db.siglevel d.
Proof.
  intros [H1 H2]. unfold Db.db_free_pkgcache. destruct (Db.pkgcache d) as [h|] eqn:E.
  - unfold Db.free_groupcache. set (s := Db.clear_flag _ _). cbn [Db.status Db.set_status]. destruct (Db.has s Db.DB_STATUS_GRPCACHE) eqn:Eg; cbn [negb].
    + split_and!; try done; cbn [Db.status Db.set_status]; subst s; unfold bits_of; cbn [loaded grouped]; powers; rewrite !Db.has_clear by lia; done.
    + split_and!; try done. cbn [Db.status Db.set_status]. subst s. unfold bits_of. cbn [loaded]. powers. rewrite !Db.has_clear by lia. done.
  - split_and!; try done; apply not_true_iff_false; intros [? ?]%H1 || intros [? ?]%H2; done.
Qed.

(** ** The update *)

Section Spec.
Context (dbext tmp : cstr) (default_level : Z) (download : list Dload.payload -> Z) (absent : cstr -> bool) (attempts : cstr -> list (Z * Z)).
Notation level := (level default_level).
Notation update := (db_update dbext tmp default_level download absent attempts).

(** The signature of a database, if it has to have one, was accepted. *)
Definition accepted (d : Db.db) : bool :=
  negb (Db.has (level d) SyncDb.SIG_DATABASE) || bool_decide (SyncDb.check_loop (attempts (Db.treename d)) = Some 0).
(** A database after the update, by what is on disk. *)
Record updated (d d' : Db.db) : Prop := {
  up_same : Db.treename d' = Db.treename d /\ Db.servers d' = Db.servers d /\ Db.usage d' = Db.usage d /\ Db.siglevel d' = Db.siglevel d;
  up_cache : Db.pkgcache d' = None;
  up_bits : bits_of (Db.status d') =
    if absent (Db.treename d) then Bits true false false true false false
    else Bits (accepted d) (negb (accepted d)) true false false false }.
Definition fails (d : Db.db) : bool := negb (absent (Db.treename d)) && negb (accepted d).
Hypothesis Hend : forall n, is_Some (SyncDb.check_loop (attempts n)).

Lemma revalidate_spec d : caches_ok d -> exists r d', revalidate default_level absent attempts d = Some (r, d') /\ updated d d' /\ (r =? 0) = negb (fails d).
Proof.
  intros Hc. destruct (free_pkgcache_bits d Hc) as (F1 & F2 & F3 & F4 & F5 & F6 & F7). unfold revalidate. set (d1 := Db.db_free_pkgcache d) in *.
  set (s := Db.clear_flag _ Db.DB_STATUS_MISSING). pose proof (bits_clear4 (Db.status d1)) as Hb. fold s in Hb. rewrite F2, F3 in Hb.
  assert (level d1 = level d) as Hl by (unfold DbUpdate.level, Db.db_get_siglevel; by rewrite F7).
  unfold SyncDb.sync_db_validate. injection Hb as B1 B2 B3 B4 B5 B6. rewrite B1, B4, B2. cbn [orb negb]. rewrite F4, Hl.
  assert (bits_of s = Bits false false false false false false) as Hs by (unfold bits_of; by rewrite B1, B2, B3, B4, B5, B6).
  assert (forall s', bits_of (Db.status (Db.set_status d1 s')) = bits_of s') as Hst by done.
  unfold fails. destruct (absent (Db.treename d)) eqn:Ea.
  - exists 0, (Db.set_status d1 (Populate.valid_now (Populate.missing_now s))). split; [done|]. split; [|done]. split; [done|done|].
    rewrite Ea, Hst. destruct (bits_now (Populate.missing_now s)) as (-> & _). destruct (bits_now s) as (_ & _ & _ & ->). by rewrite Hs.
  - destruct (bits_now s) as (_ & _ & He & _). rewrite Hs in He. cbn in He. unfold accepted. destruct (Db.has (level d) SyncDb.SIG_DATABASE) eqn:El; cbn [negb orb andb].
    + destruct (Hend (Db.treename d)) as [r Er]. rewrite Er. cbn [mbind option_bind]. destruct (Z.eqb_spec r 0) as [->|Hr].
      * eexists _, _. split; [done|]. split; [|by rewrite bool_decide_eq_true_2]. split; [done|done|]. rewrite Ea, Hst. destruct (bits_now (Populate.exists_now s)) as (-> & _). rewrite He.
        unfold accepted. rewrite El, Er, bool_decide_eq_true_2 by done. done.
      * eexists _, _. split; [done|]. split; [|rewrite bool_decide_eq_false_2 by congruence; done]. split; [done|done|]. rewrite Ea, Hst. destruct (bits_now (Populate.exists_now s)) as (_ & -> & _). rewrite He.
        unfold accepted. rewrite El, Er, bool_decide_eq_false_2 by congruence. done.
    + eexists _, _. split; [done|]. split; [|done]. split; [done|done|]. rewrite Ea, Hst. destruct (bits_now (Populate.exists_now s)) as (-> & _). rewrite He.
      unfold accepted. rewrite El. done.
Qed.
(** Databases that are not synced stay as they are. *)
Definition refreshed (d d' : Db.db) : Prop := if synced d then updated d d' else d' = d.
Definition bad (d : Db.db) : bool := synced d && fails d.
Lemma refresh_spec dbs : forall ret e, Forall caches_ok dbs ->
  exists dbs', refresh default_level absent attempts dbs ret e = Some (if existsb bad dbs then -1 else ret, if existsb bad dbs then E_INVALID_SIG else e, dbs') /\ Forall2 refreshed dbs dbs'.
Proof.
  induction dbs as [|d dbs IH]; intros ret e Hok; [exists []; by repeat constructor|]. inversion Hok as [|? ? Hd Hdbs]; subst. cbn [refresh existsb]. unfold bad at 1 3. destruct (synced d) eqn:Es; cbn [negb andb].
  - destruct (revalidate_spec d Hd) as (r & d' & -> & Hu & Hr). cbn [mbind option_bind]. rewrite Hr. destruct (fails d); cbn [negb orb].
    + destruct (IH (-1) E_INVALID_SIG Hdbs) as (dbs' & -> & Hf). exists (d' :: dbs'). split; [cbn; by destruct (existsb bad dbs)|]. constructor; [|done]. unfold refreshed. by rewrite Es.
    + destruct (IH ret e Hdbs) as (dbs' & -> & Hf). exists (d' :: dbs'). split; [done|]. constructor; [|done]. unfold refreshed. by rewrite Es.
  - destruct (IH ret e Hdbs) as (dbs' & -> & Hf). exists (d :: dbs'). split; [done|]. constructor; [|done]. unfold refreshed. by rewrite Es.
Qed.
(** What is requested for a database: from its servers, with the signature when
    signatures are checked, and in any case when it was found invalid. *)
Definition requested (force : bool) (d : Db.db) (p : Dload.payload) : Prop :=
  Dload.y_servers p = Db.servers d /\ Dload.y_filepath p = Some (Db.treename d ++ dbext) /\
  Dload.y_destfile_name p = Some (tmp ++ (Db.treename d ++ dbext) ++ []) /\
  Dload.y_download_signature p = Db.has (level d) SyncDb.SIG_DATABASE /\ Dload.y_errors_ok p = false /\
  Dload.y_force p = force || invalid (bits_of (Db.status d)).
Lemma make_payloads_spec force dbs : forall id ps, make_payloads dbext tmp default_level id force dbs = inr ps ->
  Forall2 (requested force) (List.filter synced dbs) ps /\ Forall (fun d => synced d = true -> is_local d = false /\ Db.servers d <> []) dbs.
Proof.
  induction dbs as [|d dbs IH]; intros id ps H; cbn [make_payloads List.filter] in *; [injection H as <-; by repeat constructor|].
  destruct (synced d) eqn:Es; cbn [negb] in H; [|destruct (IH _ _ H); split; [done|constructor; [by rewrite Es|done]]].
  destruct (is_local d) eqn:El; [done|]. case_bool_decide as Hs; [done|]. destruct (make_payloads _ _ _ _ _ dbs) as [|qs] eqn:E; [done|]. injection H as <-.
  destruct (IH _ _ E) as [H1 H2]. split; constructor; try done.
Qed.
Lemma unlocked unlink h : Handle.lockfile h <> None -> Handle.lockfd (Handle.handle_unlock unlink h).2 = false /\ Handle.lockfile (Handle.handle_unlock unlink h).2 = Handle.lockfile h.
Proof.
  unfold Handle.handle_unlock, Handle.unlock. destruct (Handle.lockfile h) eqn:E; [|done]. intros _. destruct (Handle.lockfd h) eqn:El; [|cbn; by rewrite El].
  destruct unlink; done.
Qed.
Lemma locked_file mk op h : Handle.lockfile (Handle.handle_lock mk op h).2 = Handle.lockfile h.
Proof. unfold Handle.handle_lock. repeat case_match; done. Qed.

(** C20: Updating the repositories ends, and afterwards the lock is not held.
    Either no database has changed: the update failed before the download or in
    it, or there was nothing to do.  Or every database to be synced was requested
    from its servers, with its signature when signatures are checked; all of them
    have lost their caches and are judged anew by what is on disk: missing, valid,
    or, when a signature is required and not accepted, invalid, and in that case
    the result is -1.  Other databases are not touched. *)
Theorem db_update_spec makepath_ok open_ok unlink h dbs force (Hlock : Handle.lockfile h <> None) (Hdbs : Forall caches_ok dbs) :
  exists ret e h' dbs', update true makepath_ok open_ok unlink h dbs force = Some (ret, e, h', dbs') /\ Handle.lockfd h' = false /\
    ((dbs' = dbs /\ (ret < 0 \/ ret = 0 /\ List.filter synced dbs = [])) \/
     exists ps, Forall2 (requested force) (List.filter synced dbs) ps /\ 0 <= download ps /\ Forall2 refreshed dbs dbs' /\
       ret = (if existsb bad dbs then -1 else download ps) /\ e = (if existsb bad dbs then E_INVALID_SIG else E_OK)).
Proof.
  unfold db_update. cbn [negb]. pose proof (locked_file makepath_ok open_ok h) as Hf. destruct (Handle.handle_lock makepath_ok open_ok h) as [locked h1]. cbn [snd] in Hf.
  destruct (unlocked unlink h1) as [Hu _]; [by rewrite Hf|].
  assert (forall r e ds, (r < 0 \/ r = 0 /\ List.filter synced dbs = []) -> ds = dbs ->
    exists ret e' h' dbs', Some (r, if r =? -1 then e else E_OK, (Handle.handle_unlock unlink h1).2, ds) = Some (ret, e', h', dbs') /\ Handle.lockfd h' = false /\
    ((dbs' = dbs /\ (ret < 0 \/ ret = 0 /\ List.filter synced dbs = [])) \/
     exists ps, Forall2 (requested force) (List.filter synced dbs) ps /\ 0 <= download ps /\ Forall2 refreshed dbs dbs' /\
       ret = (if existsb bad dbs then -1 else download ps) /\ e' = (if existsb bad dbs then E_INVALID_SIG else E_OK))) as Hsame.
  { intros r e ds Hr ->. eexists _, _, _, _. split; [done|]. split; [done|]. left. by split. }
  destruct (negb (locked =? 0)); [cbn [mbind option_bind]; apply Hsame; [left; lia|done]|].
  destruct (make_payloads dbext tmp default_level 1 force dbs) as [e|ps] eqn:Ep; [cbn [mbind option_bind]; apply Hsame; [|done]|].
  { left. lia. }
  destruct (make_payloads_spec force dbs _ _ Ep) as [Hreq _]. destruct ps as [|p ps].
  { cbn [mbind option_bind]. apply Hsame; [|done]. right. split; [done|]. by apply Forall2_nil_inv_r in Hreq. }
  destruct (Z.ltb_spec (download (p :: ps)) 0) as [Hd|Hd]; [cbn [mbind option_bind]; by apply Hsame; [left|]|].
  destruct (refresh_spec dbs (download (p :: ps)) E_OK Hdbs) as (dbs' & -> & Hf2). cbn [mbind option_bind]. eexists _, _, _, _. split; [done|]. split; [done|].
  right. exists (p :: ps). split_and!; [done|done|done|done|]. destruct (existsb bad dbs); [done|]. by destruct (download (p :: ps) =? -1).
Qed.

End Spec.

(** ** Witness *)

Definition ex_db (name : string) (status : Z) : Db.db :=
  Db.MkDb (lit name) None [] [] [lit "http://one"] status (2 ^ 10) Db.DB_USAGE_ALL.
Definition ex_dbs : list Db.db := [ex_db "core" 0; ex_db "extra" Db.DB_STATUS_INVALID].
Definition ex_attempts (n : cstr) : list (Z * Z) := if bool_decide (n = lit "core") then [(1, 1); (0, 0)] else [(1, 0)].
Definition ex_handle (lock : bool) (t : option Handle.trans) : Handle.handle := Handle.MkHandle t (Some (lit "/db.lck")) lock Handle.ERR_OK ∅ [] [] [] [].
Lemma db_update_witness :
  exists h' dbs', db_update (lit ".db") (lit "/tmp/") 0 (fun _ => 0) (fun _ => false) ex_attempts true true true Handle.UNLINKED (ex_handle false None) ex_dbs false =
      Some (-1, E_INVALID_SIG, h', dbs') /\ Handle.lockfd h' = false /\ (valid ∘ bits_of ∘ Db.status <$> dbs') = [true; false].
Proof.
  destruct (db_update_spec (lit ".db") (lit "/tmp/") 0 (fun _ => 0) (fun _ => false) ex_attempts) with (makepath_ok := true) (open_ok := true) (unlink := Handle.UNLINKED)
    (h := ex_handle false None) (dbs := ex_dbs) (force := false) as (ret & e & h' & dbs' & E & Hl & _).
  - intros n. unfold ex_attempts. case_bool_decide; by eexists.
  - discriminate.
  - repeat constructor; intros H; vm_compute in H; discriminate.
  - exists h', dbs'. assert (E' := E). vm_compute in E'. injection E' as <- <- <- <-. split; [exact E|]. split; [exact Hl|]. vm_compute. reflexivity.
Defined.

(** ** A defect *)

(** [_klpm_handle_lock] succeeds when the handle holds the lock already, but the
    update always gives it back: a transaction that is prepared under the lock can
    then be committed without it. *)
Theorem update_drops_lock dbext tmp lv download absent attempts t dbs force r :
  db_update dbext tmp lv download absent attempts true true true Handle.UNLINKED (ex_handle true (Some t)) dbs force = Some r ->
  Handle.lockfd r.1.2 = false /\ Handle.h_trans r.1.2 = Some t.
Proof.
  unfold db_update. cbn [negb Handle.handle_lock ex_handle Handle.lockfile Handle.lockfd Z.eqb]. destruct (match make_payloads _ _ _ _ _ _ with inl _ => _ | inr _ => _ end) as [[[ret e] ds]|]; [|done].
  intros [= <-]. done.
Qed.

End DbUpdate.
