(* ===== verification/Life.v ===== *)
(** * The life of a transaction

    The calls of a front end, in any order, as a step relation on the handle: those
    of [src/lib/libkuzpkg/trans.c], [add.c], [remove.c] and [sync.c] that work on the
    transaction, and the two that give the lock back while one is open,
    [klpm_unlock] of [handle.c] and [klpm_db_update] of [be_sync.c]. *)

From S2P Require Import Prelude CStr KList Package Deps SortDeps ResolveDeps Conflict Db Handle Remove Sync Trans Dload DbUpdate.
Local Open Scope Z_scope.

Module Life.
Import Handle Trans.

(** What every operation on an open transaction leaves alone: the lock, the
    flags, and that it is not idle. *)
Definition preserved (h h' : handle) : Prop :=
  lockfd h' = lockfd h /\
  match h_trans h, h_trans h' with
  | Some t, Some t' => t_flags t' = t_flags t /\ (t_state t <> STATE_IDLE -> t_state t' <> STATE_IDLE)
  | None, None => True
  | _, _ => False
  end.

#[global] Instance preserved_preorder : PreOrder preserved.
Proof.
  split.
  - intros h. split; [done|]. by destruct (h_trans h).
  - intros h1 h2 h3 [L1 H1] [L2 H2]. split; [congruence|].
    destruct (h_trans h1), (h_trans h2), (h_trans h3); try done. destruct H1, H2. split; [congruence|auto].
Qed.

(** Whoever holds a transaction that needs the lock holds the lock. *)
Definition lock_ok (h : handle) : Prop :=
  match h_trans h with
  | None => True
  | Some t => t_state t <> STATE_IDLE /\ (has (t_flags t) FLAG_NOLOCK = false -> lockfd h = true)
  end.

Lemma preserved_ok h h' : preserved h h' -> lock_ok h -> lock_ok h'.
Proof.
  intros [L H] Hok. unfold lock_ok in *. destruct (h_trans h) as [t|], (h_trans h') as [t'|]; try done.
  destruct H as [-> Hs], Hok as [Hi Hl]. rewrite L. auto.
Qed.

Lemma preserved_errno h e : preserved h (set_errno h e).
Proof. split; [done|]. simpl. by destruct (h_trans h). Qed.
Lemma preserved_update h h' t t' :
  lockfd h' = lockfd h -> h_trans h = Some t -> h_trans h' = Some t' -> t_flags t' = t_flags t ->
  (t_state t <> STATE_IDLE -> t_state t' <> STATE_IDLE) -> preserved h h'.
Proof. unfold preserved. intros L -> -> Hf Hs. by split. Qed.
Lemma preserved_state h s : s <> STATE_IDLE -> preserved h (put_state h s).
Proof. intros Hs. split; [done|]. unfold put_state. simpl. by destruct (h_trans h). Qed.

Lemma preserved_ret h e : preserved h (set_errno (check_handle h) e).
Proof. exact (preserved_errno h e). Qed.

#[export] Hint Resolve preserved_errno preserved_state preserved_ret : klpm.
Ltac only_errno := first [apply preserved_ret | apply preserved_errno].

Section Calls.
Context {D : Type} `{!PkgCache D} (usage status : D -> Z) (treename : D -> cstr) (fnmatch : cstr -> cstr -> Z).
Context (force_load : pkg -> bool) (new_addr : pkg -> positive).
Context (filecache_find : cstr -> option cstr) (stat_size : cstr -> option Z) (db_local : D) (dbs_sync : list D).
Context (sync_load sync_check hook_pre hook_post : handle -> Z * handle).
Context (remove_single_package commit_single_pkg : handle -> pkg -> Z * handle).

Notation prepare := (trans_prepare usage status fnmatch force_load new_addr filecache_find stat_size db_local dbs_sync).
Notation commit := (trans_commit sync_load sync_check hook_pre hook_post remove_single_package commit_single_pkg).

(** The outcome of [klpm_db_update], whatever is downloaded. *)
Definition updates (h h' : handle) : Prop :=
  exists dbext tmp level download absent attempts dirs makepath_ok open_ok unlink dbs force r e dbs',
    DbUpdate.db_update dbext tmp level download absent attempts dirs makepath_ok open_ok unlink h dbs force = Some (r, e, h', dbs').

(** The calls a front end makes, in any order; the label is true for the calls
    that give back the lock of an open transaction. *)
Inductive step (h : handle) : bool -> handle -> Prop :=
  | step_init mk op ca flags : step h false (trans_init mk op ca h flags).2
  | step_add p : step h false (add_pkg db_local h p).2
  | step_remove p : step h false (remove_pkg force_load new_addr h p).2
  | step_upgrade b ans :
      step h false (Sync.sync_sysupgrade usage treename fnmatch (ignorepkg h) (ignoregroup h) db_local dbs_sync h b ans).1.2
  | step_prepare ans r h' data ans' : prepare h ans = Some (r, h', data, ans') -> step h false h'
  | step_commit : step h false (commit h).1.2
  | step_interrupt : step h false (trans_interrupt h).2
  | step_release u : step h false (trans_release u h).2
  | step_unlock u : step h true (unlock u h).2
  | step_update h' : updates h h' -> step h true h'.

(** The handles a front end reaches, and whether one of the calls that give back
    the lock was made since the transaction was opened. *)
Inductive run (h0 : handle) : bool -> handle -> Prop :=
  | run_start : run h0 false h0
  | run_step g h gives h' :
      run h0 g h -> step h gives h' -> run h0 (match h_trans h' with Some _ => g || gives | None => false end) h'.

(** The parts that work on the disk leave the transaction object, its flags
    and the lock in place. *)
Definition tame (f : handle -> Z * handle) : Prop := forall h, preserved h (f h).2.
Context (Hload : tame sync_load) (Hcheck : tame sync_check) (Hpre : tame hook_pre) (Hpost : tame hook_post).
Context (Hremove : forall p, tame (fun h => remove_single_package h p)) (Hcommit : forall p, tame (fun h => commit_single_pkg h p)).

Lemma remove_packages_preserved targs h ret : preserved h (remove_packages remove_single_package targs h ret).1.2.
Proof.
  revert h ret. induction targs as [|p targs IH]; intros h ret; cbn [remove_packages]; [done|]. case_decide; [done|].
  pose proof (Hremove p h) as Hp. destruct (remove_single_package h p) as [r h1]. simpl in Hp.
  assert (forall h2 ret2, preserved h1 h2 ->
    preserved h (let '(ret, h, ops) := remove_packages remove_single_package targs h2 ret2 in (ret, h, Removed p :: ops)).1.2) as Hgo.
  { intros h2 ret2 H2. specialize (IH h2 ret2). destruct (remove_packages _ _ _ _) as [[? ?] ?]. simpl in *. by do 2 (etrans; [eassumption|]). }
  destruct (r =? -1); apply Hgo; auto with klpm. done.
Qed.

Lemma upgrade_packages_preserved targs h ret : preserved h (upgrade_packages commit_single_pkg targs h ret).1.2.
Proof.
  revert h ret. induction targs as [|p targs IH]; intros h ret; cbn [upgrade_packages]; [done|]. case_decide; [done|].
  pose proof (Hcommit p h) as Hp. destruct (commit_single_pkg h p) as [r h1]. simpl in Hp.
  assert (forall h2 ret2, preserved h1 h2 ->
    preserved h (let '(ret, h, ops) := upgrade_packages commit_single_pkg targs h2 ret2 in (ret, h, Installed p :: ops)).1.2) as Hgo.
  { intros h2 ret2 H2. specialize (IH h2 ret2). destruct (upgrade_packages _ _ _ _) as [[? ?] ?]. simpl in *. by do 2 (etrans; [eassumption|]). }
  destruct (r =? 0); apply Hgo; [done|]. etrans; [by apply (preserved_state h1 STATE_INTERRUPTED)|apply preserved_errno].
Qed.

Lemma sync_commit_preserved h : preserved h (sync_commit remove_single_package commit_single_pkg h).1.2.
Proof.
  unfold sync_commit. pose proof (remove_packages_preserved (targets_remove h) h 0) as H1.
  destruct (remove_packages _ _ _ _) as [[r h1] ops]. simpl in H1. destruct (r =? -1); [done|].
  pose proof (upgrade_packages_preserved (targets_add h1) h1 0) as H2.
  destruct (upgrade_packages _ _ _ _) as [[r2 h2] ops2]. simpl in *. by etrans.
Qed.

Lemma do_commit_preserved h : preserved h (do_commit hook_post remove_single_package commit_single_pkg h).1.2.
Proof.
  unfold do_commit. assert (preserved h (put_state h STATE_COMMITTING)) as H0 by by apply preserved_state.
  set (h0 := put_state h STATE_COMMITTING) in *.
  assert (preserved h0 (match targets_add h0 with [] => remove_packages remove_single_package (targets_remove h0) h0 0
           | _ => sync_commit remove_single_package commit_single_pkg h0 end).1.2) as H1
    by (destruct (targets_add h0); [apply remove_packages_preserved|apply sync_commit_preserved]).
  destruct (match targets_add h0 with [] => _ | _ => _ end) as [[r h1] ops]. simpl in H1.
  assert (preserved h h1) as H2 by by etrans. destruct (r =? -1); [done|]. simpl.
  etrans; [exact H2|]. etrans; [|by apply preserved_state].
  case_decide; [done|]. destruct (match h_trans h1 with Some _ => _ | None => _ end); [done|apply Hpost].
Qed.

Lemma preflight_preserved flags add h : preserved h (preflight sync_load sync_check hook_pre flags add h).2.
Proof.
  unfold preflight.
  assert (preserved h (match add with [] => (0, h) | _ => sync_load h end).2) as H1 by (destruct add; [done|apply Hload]).
  destruct (match add with [] => (0, h) | _ => sync_load h end) as [r1 h1]. simpl in H1.
  destruct (negb (r1 =? 0)); [done|]. destruct (match add with [] => false | _ => _ end); [done|].
  assert (preserved h (match add with [] => (0, h1) | _ => sync_check h1 end).2) as H2
    by (destruct add; [done|etrans; [exact H1|apply Hcheck]]).
  destruct (match add with [] => (0, h1) | _ => sync_check h1 end) as [r2 h2]. simpl in H2.
  destruct (negb (r2 =? 0)); [done|].
  assert (preserved h (if has flags FLAG_NOHOOKS then (0, h2) else hook_pre h2).2) as H3
    by (destruct (has flags FLAG_NOHOOKS); [done|etrans; [exact H2|apply Hpre]]).
  destruct (if has flags FLAG_NOHOOKS then _ else _) as [r3 h3]. simpl in H3.
  destruct (negb (r3 =? 0)); [|done]. etrans; [exact H3|apply preserved_errno].
Qed.

Lemma commit_preserved h : preserved h (commit h).1.2.
Proof.
  unfold trans_commit. etrans; [apply (preserved_errno h ERR_OK)|]. fold (check_handle h). set (h0 := check_handle h).
  destruct (h_trans h0) as [t|]; [|apply preserved_errno]. destruct (negb _); [apply preserved_errno|].
  destruct (has (t_flags t) FLAG_NOLOCK); [apply preserved_errno|].
  pose proof (preflight_preserved (t_flags t) (t_add t) h0) as Hp.
  assert (preserved h0 (let '(r, go, h1) := preflight sync_load sync_check hook_pre (t_flags t) (t_add t) h0 in
    if go : bool then do_commit hook_post remove_single_package commit_single_pkg h1 else (r, h1, [])).1.2) as Hgo.
  { destruct (preflight _ _ _ _ _ _) as [[r go] h1]. simpl in Hp. destruct go; [|done]. etrans; [exact Hp|apply do_commit_preserved]. }
  destruct (t_add t); [destruct (t_remove t); [done|]|]; exact Hgo.
Qed.

Lemma sort_targets_flags t t' : sort_targets db_local t = Some t' -> t_flags t' = t_flags t /\ t_state t' = t_state t.
Proof.
  unfold sort_targets. destruct (has (t_flags t) FLAG_NODEPS); [by intros [= <-]|].
  destruct (SortDeps.sortbydeps _ (t_add t) _ _); simpl; [|done].
  destruct (SortDeps.sortbydeps _ (t_remove t) _ _); simpl; [|done]. by intros [= <-].
Qed.

Lemma attempt_preserved h t ans go t' h' data ans' :
  match t_add t with
  | [] => r ← run_remove_prepare force_load new_addr db_local h t; Some (r, ans)
  | _ => run_sync_prepare usage status fnmatch force_load new_addr filecache_find stat_size db_local dbs_sync h t ans
  end = Some (go, t', h', data, ans') ->
  t_flags t' = t_flags t /\ t_state t' = t_state t /\ lockfd h' = lockfd h.
Proof.
  destruct (t_add t).
  - unfold run_remove_prepare. destruct (Remove.remove_prepare _ _ _ _ _ _) as [r|]; simpl; [|done].
    intros [= <- <- <- <- <-]. split_and!; [done|done|]. by destruct (Remove.p_errno r).
  - unfold run_sync_prepare. destruct (Sync.sync_prepare _ _ _ _ _ _ _ _ _ _ _ _ _ _) as [[go1 s]|]; simpl; [|done].
    by intros [= <- <- <- <- <-].
Qed.

Lemma prepare_preserved h ans r h' data ans' : prepare h ans = Some (r, h', data, ans') -> preserved h h'.
Proof.
  unfold trans_prepare. simpl. destruct (h_trans h) as [t|] eqn:Et; [|intros [= <- <- <- <-]; only_errno].
  case_decide; [|intros [= <- <- <- <-]; only_errno].
  assert (t_add t = [] /\ t_remove t = [] \/ ~ (t_add t = [] /\ t_remove t = [])) as [[Ea Er]|Hne].
  { destruct (t_add t), (t_remove t); naive_solver. }
  { rewrite Ea, Er. intros [= <- <- <- <-]. only_errno. }
  assert (forall A (x y : A), match t_add t, t_remove t with [], [] => x | _, _ => y end = y) as Hmatch.
  { intros A x y. destruct (t_add t), (t_remove t); try done. exfalso. by apply Hne. }
  rewrite Hmatch. destruct (check_arch _ _); [|intros [= <- <- <- <-]; only_errno].
  match goal with |- (?m ≫= _) = _ -> _ => destruct m as [[[[[go t1] h1] d1] a1]|] eqn:Er end; simpl; [|done].
  apply attempt_preserved in Er as (Ef & Es & El). destruct go; simpl.
  - destruct (sort_targets db_local t1) as [t2|] eqn:E2; simpl; [|done]. intros [= <- <- <- <-].
    apply sort_targets_flags in E2 as [E2 _]. eapply preserved_update; [exact El|exact Et|done|simpl; congruence|done].
  - intros [= <- <- <- <-]. eapply preserved_update; [exact El|exact Et|done|done|]. by rewrite Es.
Qed.

Lemma targets_preserved h p :
  preserved h (add_pkg db_local h p).2 /\ preserved h (remove_pkg force_load new_addr h p).2.
Proof.
  split; [unfold add_pkg|unfold remove_pkg]; simpl; repeat case_match; simpl; try only_errno;
    (eapply preserved_update; [done|eassumption|done|done|done]).
Qed.

Lemma step_lock_ok h h' : lock_ok h -> step h false h' -> lock_ok h'.
Proof.
  intros Hok Hs. inversion Hs; subst.
  - unfold trans_init. simpl. destruct (h_trans h) as [t|] eqn:Et; [by eapply preserved_ok, Hok; only_errno|].
    destruct (has flags FLAG_NOLOCK) eqn:El.
    { destruct ca; unfold lock_ok; simpl; [split; [done|by rewrite El]|by rewrite Et]. }
    unfold handle_lock. simpl. repeat case_match; simplify_eq; simpl; unfold lock_ok; simpl; try (by rewrite Et); by split.
  - eapply preserved_ok, Hok. apply targets_preserved.
  - eapply preserved_ok, Hok. apply targets_preserved.
  - eapply preserved_ok, Hok. unfold Sync.sync_sysupgrade. simpl. destruct (h_trans h) as [t|] eqn:Et; [|only_errno].
    case_decide; [|only_errno]. by eapply preserved_update.
  - eapply preserved_ok, Hok. by eapply prepare_preserved.
  - eapply preserved_ok, Hok. apply commit_preserved.
  - eapply preserved_ok, Hok. unfold trans_interrupt. simpl. destruct (h_trans h) as [t|] eqn:Et; [|only_errno].
    case_decide; [|only_errno]. by eapply preserved_update.
  - unfold trans_release. simpl. destruct (h_trans h) as [t|] eqn:Et; [|by eapply preserved_ok, Hok; only_errno].
    case_decide; [by eapply preserved_ok, Hok; only_errno|]. unfold lock_ok. simpl.
    destruct (has (t_flags t) FLAG_NOLOCK); [done|]. unfold handle_unlock, unlock. simpl. repeat case_match; simplify_eq; done.
Qed.

Lemma run_lock_ok h0 g h : h_trans h0 = None -> run h0 g h -> g = true \/ lock_ok h.
Proof.
  intros H0. induction 1 as [|g h gives h' _ IH Hs]; [right; unfold lock_ok; by rewrite H0|].
  destruct (h_trans h') as [t|] eqn:Et; [|right; unfold lock_ok; by rewrite Et].
  destruct g; [by left|]. destruct gives; [by left|right]. destruct IH as [?|IH]; [done|]. by eapply step_lock_ok.
Qed.
End Calls.

(** C21: whatever calls a front end makes in whatever order, starting without a
    transaction, a commit changes something on the system only when the transaction
    has been prepared, and the lock is then held unless [klpm_unlock] or
    [klpm_db_update] was called since this transaction was opened.  The functions the
    commit calls (loading, checking, hooks, one package) are assumed to leave the lock
    and the transaction's flags alone. *)
Theorem commit_needs_lock {D} `{!PkgCache D} usage status treename fnmatch force_load new_addr filecache_find stat_size
    (db_local : D) dbs_sync sync_load sync_check hook_pre hook_post remove_single_package commit_single_pkg h0 given h
    (Hload : tame sync_load) (Hcheck : tame sync_check) (Hpre : tame hook_pre) (Hpost : tame hook_post)
    (Hremove : forall p, tame (fun h => remove_single_package h p)) (Hcommit : forall p, tame (fun h => commit_single_pkg h p))
    (H0 : h_trans h0 = None)
    (Hreach : run usage status treename fnmatch force_load new_addr filecache_find stat_size db_local dbs_sync
       sync_load sync_check hook_pre hook_post remove_single_package commit_single_pkg h0 given h)
    (Hops : (trans_commit sync_load sync_check hook_pre hook_post remove_single_package commit_single_pkg h).2 <> []) :
  state_of h = STATE_PREPARED /\ (lockfd h = true \/ given = true).
Proof.
  destruct (trans_commit_cases sync_load sync_check hook_pre hook_post remove_single_package commit_single_pkg h)
    as [?|(t & Ht & Hst & Hnl & _)]; [done|]. split; [unfold state_of; by rewrite Ht|].
  destruct (run_lock_ok usage status treename fnmatch force_load new_addr filecache_find stat_size db_local dbs_sync
    sync_load sync_check hook_pre hook_post remove_single_package commit_single_pkg Hload Hcheck Hpre Hpost Hremove Hcommit
    h0 given h H0 Hreach) as [?|Hok]; [by right|left].
  unfold lock_ok in Hok. rewrite Ht in Hok. by apply Hok.
Qed.

(** ** Removing [a], with nothing that goes wrong *)

Lemma ex_tame : tame ex_ok.
Proof. intros h. change (preserved h h). reflexivity. Qed.

Definition ex_step := step (fun _ => 15) (fun _ => 1) (fun _ => lit "core") (fun _ _ => 1) (fun _ => false) pkg_id (fun _ => None)
  (fun _ => None) ex_local [] ex_ok ex_ok ex_ok ex_ok (fun h _ => ex_ok h) (fun h _ => ex_ok h).
Definition ex_run := run (fun _ => 15) (fun _ => 1) (fun _ => lit "core") (fun _ _ => 1) (fun _ => false) pkg_id (fun _ => None)
  (fun _ => None) ex_local [] ex_ok ex_ok ex_ok ex_ok (fun h _ => ex_ok h) (fun h _ => ex_ok h).
Definition ex_commit := trans_commit ex_ok ex_ok ex_ok ex_ok (fun h _ => ex_ok h) (fun h _ => ex_ok h).
(** The handle after opening the transaction and choosing the target, and after
    preparing it. *)
Definition ex_chosen : handle :=
  (remove_pkg (fun _ => false) pkg_id (trans_init true true true (ex_handle false None) 0).2
    (Db.with_origin (Db.db_new (lit "local") true) Deps.ex_a)).2.
Definition ex_prepared : handle :=
  match trans_prepare (fun _ => 15) (fun _ => 1) (fun _ _ => 1) (fun _ => false) pkg_id (fun _ => None) (fun _ => None)
    ex_local [] ex_chosen [] with Some (_, h, _, _) => h | None => ex_chosen end.

Lemma ex_extend g h gives h' t :
  ex_run (ex_handle false None) g h -> ex_step h gives h' -> h_trans h' = Some t -> ex_run (ex_handle false None) (g || gives) h'.
Proof. intros Hr Hs Et. pose proof (run_step _ _ _ _ _ _ _ _ _ _ _ _ _ _ _ _ _ _ _ _ _ Hr Hs) as H. by rewrite Et in H. Qed.

Lemma ex_run_prepared : ex_run (ex_handle false None) false ex_prepared.
Proof.
  eapply (ex_extend false ex_chosen false); [|eapply (step_prepare _ _ _ _ _ _ _ _ _ _ _ _ _ _ _ _ _ []); vm_compute; reflexivity|vm_compute; reflexivity].
  eapply (ex_extend false _ false); [|apply step_remove|vm_compute; reflexivity].
  eapply (ex_extend false _ false); [apply run_start|apply (step_init _ _ _ _ _ _ _ _ _ _ _ _ _ _ _ _ _ true true true 0)|vm_compute; reflexivity].
Qed.

Lemma commit_needs_lock_witness :
  ex_run (ex_handle false None) false ex_prepared /\ label <$> (ex_commit ex_prepared).2 = [(false, lit "a")] /\
  lockfd ex_prepared = true.
Proof.
  split; [exact ex_run_prepared|]. split; [vm_compute; reflexivity|].
  destruct (commit_needs_lock (fun _ => 15) (fun _ => 1) (fun _ => lit "core") (fun _ _ => 1) (fun _ => false) pkg_id (fun _ => None)
    (fun _ => None) ex_local [] ex_ok ex_ok ex_ok ex_ok (fun h _ => ex_ok h) (fun h _ => ex_ok h) (ex_handle false None) false ex_prepared)
    as [_ [H|H]]; [exact ex_tame..|intros p; exact ex_tame|intros p; exact ex_tame|reflexivity|exact ex_run_prepared| |exact H|discriminate H].
  vm_compute. discriminate.
Defined.

(** An update of the repositories between preparing and committing: the commit
    does its work without the lock. *)
Theorem commit_without_lock :
  exists h, ex_run (ex_handle false None) true h /\ lockfd h = false /\ label <$> (ex_commit h).2 = [(false, lit "a")].
Proof.
  exists (handle_unlock UNLINKED ex_prepared).2. split; [|split; vm_compute; reflexivity].
  eapply (ex_extend false _ true _ _ ex_run_prepared); [|vm_compute; reflexivity]. apply step_update.
  exists (lit ".db"), (lit "/tmp/"), 0, (fun _ => 0), (fun _ => false), DbUpdate.ex_attempts, true, true, true, UNLINKED, DbUpdate.ex_dbs, false.
  do 3 eexists. vm_compute. reflexivity.
Qed.

End Life.
