(* ===== verification/Options.v ===== *)
(** * The handle and its options ([src/lib/libkuzpkg/handle.c], [klpm.c], [db.c])

    [klpm_initialize] makes the handle, the setters and list operations of handle.c
    fill it, and db.c registers databases in it.  The record has the fields of
    [_klpm_handle_t] these functions write; the life of a transaction and the lock are
    in [Handle].  A string pointer is an [option cstr], lists may hold NULL.  [None] as
    a result is undefined behaviour: a byte in front of a string, a NULL pointer or
    freed memory that is read.  The handle itself is not NULL, allocation succeeds, and
    the library has signatures; the callbacks for messages are left out. *)

From coqutil Require Import Datatypes.RecordSetters.
From S2P Require Import Prelude CStr KList Package PkgHash Deps Db Populate SyncDb Hook Handle DbUpdate.
Import TriangleBracketNotations.
Local Open Scope Z_scope.

Module Options.

(** ** Data *)

(** The values of [pm_errno]; [E_LOCAL] those the local database sets. *)
Inductive oerror :=
  E_OK | E_WRONG_ARGS | E_NOT_A_DIR | E_TRANS_NOT_NULL | E_DB_NOT_NULL | E_DB_NOT_FOUND | E_LOCAL (e : Populate.perror).

(** [_klpm_handle_t]; of the stream of the log only whether it is open, of the
    transaction only whether there is one. *)
Record opts := Opts {
  pm_errno : oerror; in_trans : bool; db_local : option Db.db; dbs_sync : list Db.db; logstream : bool;
  root : option cstr; dbpath : option cstr; lockfile : option cstr; logfile : option cstr; gpgdir : option cstr;
  sandboxuser : option cstr; dbext : option cstr;
  hookdirs : list (option cstr); cachedirs : list (option cstr); overwrite_files : list (option cstr);
  noupgrade : list (option cstr); noextract : list (option cstr); ignorepkg : list (option cstr);
  ignoregroup : list (option cstr); architectures : list (option cstr); assumeinstalled : list depend;
  usesyslog : Z; checkspace : Z; siglevel : Z; localfilesiglevel : Z; remotefilesiglevel : Z;
  parallel_downloads : Z; disable_dl_timeout : Z; disable_sandbox_filesystem : Z; disable_sandbox_syscalls : Z;
  fetchcb : bool }.

(** [_klpm_handle_new] *)
Definition handle_new : opts :=
  Opts E_OK false None [] false None None None None None None None [] [] [] [] [] [] [] [] [] 0 0 0 0 0 0 0 0 0 false.

(** The lists of strings of the handle. *)
Inductive slist := HOOKDIRS | CACHEDIRS | NOUPGRADE | NOEXTRACT | IGNOREPKG | IGNOREGROUP | OVERWRITE | ARCHITECTURES.
#[global] Instance slist_eq_dec : EqDecision slist.
Proof. solve_decision. Defined.
Definition get_list (w : slist) (h : opts) : list (option cstr) :=
  match w with
  | HOOKDIRS => hookdirs h | CACHEDIRS => cachedirs h | NOUPGRADE => noupgrade h | NOEXTRACT => noextract h
  | IGNOREPKG => ignorepkg h | IGNOREGROUP => ignoregroup h | OVERWRITE => overwrite_files h | ARCHITECTURES => architectures h
  end.
Definition put_list (w : slist) (l : list (option cstr)) (h : opts) : opts :=
  match w with
  | HOOKDIRS => h<|hookdirs := l|> | CACHEDIRS => h<|cachedirs := l|> | NOUPGRADE => h<|noupgrade := l|>
  | NOEXTRACT => h<|noextract := l|> | IGNOREPKG => h<|ignorepkg := l|> | IGNOREGROUP => h<|ignoregroup := l|>
  | OVERWRITE => h<|overwrite_files := l|> | ARCHITECTURES => h<|architectures := l|>
  end.

(** An argument of a setter: a value of the caller's, or the pointer the getter
    of the same option gave, which is to the handle's own copy. *)
Inductive arg (A : Type) := Val (a : A) | Own.
Arguments Val {A} a.
Arguments Own {A}.

(** A function of the library: its result and the handle. *)
Notation api := (opts -> option (Z * opts)).
(** [CHECK_HANDLE] of a handle that is not NULL, and [RET_ERR]. *)
Definition CHECK_HANDLE (h : opts) : opts := h<|pm_errno := E_OK|>.
Definition RET_ERR (h : opts) (e : oerror) (ret : Z) : option (Z * opts) := Some (ret, h<|pm_errno := e|>).

(** [klpm_list_remove]: entries that are NULL are skipped, and for a needle that
    is NULL nothing is done; the list, and the data removed. *)
Fixpoint remove_loop {A B} (fn : A -> B -> Z) (l : list (option A)) (needle : B) : list (option A) * option A :=
  match l with
  | [] => ([], None)
  | None :: l => let '(l, d) := remove_loop fn l needle in (None :: l, d)
  | Some x :: l =>
      if fn x needle =? 0 then (l, Some x) else let '(l, d) := remove_loop fn l needle in (Some x :: l, d)
  end.
Definition list_remove {A B} (fn : A -> B -> Z) (haystack : list (option A)) (needle : option B) : list (option A) * option A :=
  match needle with None => (haystack, None) | Some needle => remove_loop fn haystack needle end.
(** [klpm_list_strdup]: [strdup] of NULL is undefined. *)
Fixpoint list_strdup (l : list (option cstr)) : option (list (option cstr)) :=
  match l with
  | [] => Some []
  | None :: _ => None
  | Some s :: l => l ← list_strdup l; Some (Some s :: l)
  end.

(** ** Directories *)

Definition canonicalize_path (path : cstr) : option cstr :=
  match last path with
  | None => None
  | Some c => Some (if decide (c = "/"%char) then path else path ++ lit "/")
  end.

Section Api.
(** [stat] finding a directory, [realpath], and [getpwnam] finding a user. *)
Variables (isdir : cstr -> bool) (realpath : cstr -> option cstr) (user_exists : cstr -> bool).

(** [_klpm_set_directory_option]: the error and the new value of the storage. *)
Definition set_directory_option (value : arg (option cstr)) (storage : option cstr) (must_exist : bool) : option (oerror * option cstr) :=
  match (match value with Val v => v | Own => storage end) with
  | None => Some (E_WRONG_ARGS, storage)
  | Some path =>
      let resolved := if must_exist then (if isdir path then realpath path else None) else Some path in
      match resolved with
      | None => Some (E_NOT_A_DIR, storage)
      | Some path =>
          match value, must_exist with
          | Own, false => None
          | _, _ => p ← canonicalize_path path; Some (E_OK, Some p)
          end
      end
  end.

(** [klpm_option_add_hookdir] and [klpm_option_add_cachedir] *)
Definition add_dir (w : slist) (dir : option cstr) : api := fun h =>
  let h := CHECK_HANDLE h in
  match dir with
  | None => RET_ERR h E_WRONG_ARGS (-1)
  | Some dir => newdir ← canonicalize_path dir; Some (0, put_list w (get_list w h ++ [Some newdir]) h)
  end.
Fixpoint add_dirs (w : slist) (dirs : list (option cstr)) : api := fun h =>
  match dirs with
  | [] => Some (0, h)
  | d :: dirs => '(ret, h) ← add_dir w d h; if ret =? 0 then add_dirs w dirs h else Some (ret, h)
  end.
(** The argument of a setter after the handle's own list has been freed. *)
Definition after_free {A} (own : list A) (l : arg (list A)) : option (list A) :=
  match l with Val l => Some l | Own => match own with [] => Some [] | _ => None end end.
Definition set_dirs (w : slist) (dirs : arg (list (option cstr))) : api := fun h =>
  let h := CHECK_HANDLE h in
  dirs ← after_free (get_list w h) dirs; add_dirs w dirs (put_list w [] h).
Definition remove_dir (w : slist) (dir : option cstr) : api := fun h =>
  let h := CHECK_HANDLE h in
  match dir with
  | None => RET_ERR h E_WRONG_ARGS (-1)
  | Some dir =>
      newdir ← canonicalize_path dir;
      let '(l, vdata) := list_remove strcmp (get_list w h) (Some newdir) in
      Some (match vdata with Some _ => 1 | None => 0 end, put_list w l h)
  end.
Definition option_add_hookdir : option cstr -> api := add_dir HOOKDIRS.
Definition option_set_hookdirs : arg (list (option cstr)) -> api := set_dirs HOOKDIRS.
Definition option_remove_hookdir : option cstr -> api := remove_dir HOOKDIRS.
Definition option_add_cachedir : option cstr -> api := add_dir CACHEDIRS.
Definition option_set_cachedirs : arg (list (option cstr)) -> api := set_dirs CACHEDIRS.
Definition option_remove_cachedir : option cstr -> api := remove_dir CACHEDIRS.

(** ** Single values *)

(** [klpm_option_set_logfile]: the copy is made before the old name is freed. *)
Definition option_set_logfile (file : arg (option cstr)) : api := fun h =>
  let h := CHECK_HANDLE h in
  match (match file with Val f => f | Own => logfile h end) with
  | None => RET_ERR h E_WRONG_ARGS (-1)
  | Some f => Some (0, h<|logfile := Some f|><|logstream := false|>)
  end.
Definition option_set_gpgdir (dir : arg (option cstr)) : api := fun h =>
  let h := CHECK_HANDLE h in
  '(err, dir) ← set_directory_option dir (gpgdir h) false;
  let h := h<|gpgdir := dir|> in
  match err with E_OK => Some (0, h) | err => RET_ERR h err (-1) end.
(** [klpm_option_set_sandboxuser]: the old name is freed first. *)
Definition option_set_sandboxuser (user : arg (option cstr)) : api := fun h =>
  let h := CHECK_HANDLE h in
  let old := sandboxuser h in
  let h := h<|sandboxuser := None|> in
  match user, old with
  | Own, Some _ => None
  | Own, None | Val None, _ => Some (0, h)
  | Val (Some u), _ => if negb (user_exists u) then Some (1, h) else Some (0, h<|sandboxuser := Some u|>)
  end.
Definition option_set_usesyslog (v : Z) : api := fun h => Some (0, (CHECK_HANDLE h)<|usesyslog := v|>).
Definition option_set_checkspace (v : Z) : api := fun h => Some (0, (CHECK_HANDLE h)<|checkspace := v|>).
Definition option_set_fetchcb (v : bool) : api := fun h => Some (0, (CHECK_HANDLE h)<|fetchcb := v|>).
Definition option_set_dbext (ext : arg (option cstr)) : api := fun h =>
  let h := CHECK_HANDLE h in
  match ext, dbext h with
  | Val (Some e), _ => Some (0, h<|dbext := Some e|>)
  | Own, Some _ => None
  | _, _ => RET_ERR h E_WRONG_ARGS (-1)
  end.
Definition option_set_disable_dl_timeout (v : Z) : api := fun h => Some (0, (CHECK_HANDLE h)<|disable_dl_timeout := v mod 2 ^ 16|>).
Definition option_set_parallel_downloads (num_streams : Z) : api := fun h =>
  let h := CHECK_HANDLE h in
  let num_streams := u32 num_streams in
  if 1 <=? num_streams then Some (0, h<|parallel_downloads := num_streams|>) else RET_ERR h E_WRONG_ARGS (-1).
Definition option_get_disable_sandbox (h : opts) : Z :=
  if negb (disable_sandbox_filesystem h =? 0) && negb (disable_sandbox_syscalls h =? 0) then 2
  else if negb (disable_sandbox_filesystem h =? 0) || negb (disable_sandbox_syscalls h =? 0) then 1 else 0.
Definition option_set_disable_sandbox (v : Z) : api := fun h =>
  Some (0, (CHECK_HANDLE h)<|disable_sandbox_filesystem := v mod 2 ^ 16|><|disable_sandbox_syscalls := v mod 2 ^ 16|>).
Definition option_set_disable_sandbox_filesystem (v : Z) : api := fun h =>
  Some (0, (CHECK_HANDLE h)<|disable_sandbox_filesystem := v mod 2 ^ 16|>).
Definition option_set_disable_sandbox_syscalls (v : Z) : api := fun h =>
  Some (0, (CHECK_HANDLE h)<|disable_sandbox_syscalls := v mod 2 ^ 16|>).

(** ** Lists of strings *)

Definition strlist_add (w : slist) (str : option cstr) : api := fun h =>
  let h := CHECK_HANDLE h in Some (0, put_list w (get_list w h ++ [str]) h).
Definition strlist_set (w : slist) (newlist : arg (list (option cstr))) : api := fun h =>
  let h := CHECK_HANDLE h in
  l ← after_free (get_list w h) newlist; l ← list_strdup l; Some (0, put_list w l h).
Definition strlist_rem (w : slist) (str : option cstr) : api := fun h =>
  let h := CHECK_HANDLE h in
  let '(l, vdata) := list_remove strcmp (get_list w h) str in
  Some (match vdata with Some _ => 1 | None => 0 end, put_list w l h).

Definition option_add_noupgrade : option cstr -> api := strlist_add NOUPGRADE.
Definition option_set_noupgrades : arg (list (option cstr)) -> api := strlist_set NOUPGRADE.
Definition option_remove_noupgrade : option cstr -> api := strlist_rem NOUPGRADE.
Definition option_match_noupgrade (fnmatch : cstr -> cstr -> Z) (path : cstr) (h : opts) : option Z :=
  Hook.match_targets fnmatch (reverse (noupgrade h)) path.
Definition option_add_noextract : option cstr -> api := strlist_add NOEXTRACT.
Definition option_set_noextracts : arg (list (option cstr)) -> api := strlist_set NOEXTRACT.
Definition option_remove_noextract : option cstr -> api := strlist_rem NOEXTRACT.
Definition option_match_noextract (fnmatch : cstr -> cstr -> Z) (path : cstr) (h : opts) : option Z :=
  Hook.match_targets fnmatch (reverse (noextract h)) path.
Definition option_add_ignorepkg : option cstr -> api := strlist_add IGNOREPKG.
Definition option_set_ignorepkgs : arg (list (option cstr)) -> api := strlist_set IGNOREPKG.
Definition option_remove_ignorepkg : option cstr -> api := strlist_rem IGNOREPKG.
Definition option_add_ignoregroup : option cstr -> api := strlist_add IGNOREGROUP.
Definition option_set_ignoregroups : arg (list (option cstr)) -> api := strlist_set IGNOREGROUP.
Definition option_remove_ignoregroup : option cstr -> api := strlist_rem IGNOREGROUP.
Definition option_add_overwrite_file : option cstr -> api := strlist_add OVERWRITE.
Definition option_set_overwrite_files : arg (list (option cstr)) -> api := strlist_set OVERWRITE.
Definition option_remove_overwrite_file : option cstr -> api := strlist_rem OVERWRITE.

(** [klpm_option_add_architecture] does not clear the error; [strdup] of NULL is
    undefined. *)
Definition option_add_architecture (arch : option cstr) : api := fun h =>
  a ← arch; Some (0, h<|architectures := architectures h ++ [Some a]|>).
Definition option_set_architectures (arches : arg (list (option cstr))) : api := strlist_set ARCHITECTURES arches.
Definition option_remove_architecture (arch : option cstr) : api := strlist_rem ARCHITECTURES arch.

(** ** Assumed packages *)

Definition option_add_assumeinstalled (dep : depend) : api := fun h =>
  let h := CHECK_HANDLE h in
  if negb (bool_decide (dep_mod dep = MOD_EQ) || bool_decide (dep_mod dep = MOD_ANY)) then RET_ERR h E_WRONG_ARGS (-1)
  else
    let d := Package.dep_dup dep in
    let depcpy := Depend (dep_name d) (dep_version d) (dep_desc d) (hash_sdbm (dep_name dep)) (dep_mod d) in
    Some (0, h<|assumeinstalled := assumeinstalled h ++ [depcpy]|>).
Fixpoint add_assumeinstalled (deps : list depend) : api := fun h =>
  match deps with
  | [] => Some (0, h)
  | d :: deps => '(ret, h) ← option_add_assumeinstalled d h; if ret =? 0 then add_assumeinstalled deps h else Some (-1, h)
  end.
Definition option_set_assumeinstalled (deps : arg (list depend)) : api := fun h =>
  let h := CHECK_HANDLE h in
  deps ← after_free (assumeinstalled h) deps; add_assumeinstalled deps (h<|assumeinstalled := []|>).
Definition assumeinstalled_cmp (dep1 dep2 : depend) : Z :=
  if negb (dep_name_hash dep1 =? dep_name_hash dep2) || negb (strcmp (dep_name dep1) (dep_name dep2) =? 0) then -1
  else match dep_version dep1, dep_version dep2 with
       | Some v1, Some v2 => if strcmp v1 v2 =? 0 then 0 else -1
       | None, None => 0
       | _, _ => -1
       end.
Definition option_remove_assumeinstalled (dep : option depend) : api := fun h =>
  let h := CHECK_HANDLE h in
  let '(l, vdata) := list_remove assumeinstalled_cmp (Some <$> assumeinstalled h) dep in
  Some (match vdata with Some _ => 1 | None => 0 end, h<|assumeinstalled := omap id l|>).

(** ** Signature levels *)

Definition option_set_default_siglevel (level : Z) : api := fun h =>
  let h := CHECK_HANDLE h in
  if level =? Db.SIG_USE_DEFAULT then RET_ERR h E_WRONG_ARGS (-1) else Some (0, h<|siglevel := level|>).
Definition option_set_local_file_siglevel (level : Z) : api := fun h => Some (0, (CHECK_HANDLE h)<|localfilesiglevel := level|>).
Definition option_get_local_file_siglevel (h : opts) : Z :=
  if Db.has (localfilesiglevel h) Db.SIG_USE_DEFAULT then siglevel h else localfilesiglevel h.
Definition option_set_remote_file_siglevel (level : Z) : api := fun h => Some (0, (CHECK_HANDLE h)<|remotefilesiglevel := level|>).
Definition option_get_remote_file_siglevel (h : opts) : Z :=
  if Db.has (remotefilesiglevel h) Db.SIG_USE_DEFAULT then siglevel h else remotefilesiglevel h.

(** ** Databases *)

(** What is on disk: [opendir] and making the local database, whether the file of a
    repository is absent, and the attempts at its signature. *)
Variables (opendir : cstr -> Populate.opened) (disk : Populate.diskstate) (absent : cstr -> bool) (attempts : cstr -> list (Z * Z)).

(** [_klpm_db_path] of a database that has no path yet; [None] when the
    extension is read through NULL, [Some None] without a path for databases. *)
Definition db_path (h : opts) (d : Db.db) : option (option cstr) :=
  match dbpath h with
  | None => Some None
  | Some p =>
      if Db.has (Db.status d) Db.DB_STATUS_LOCAL then Some (Some (p ++ Db.treename d ++ lit "/"))
      else ext ← dbext h; Some (Some (p ++ lit "sync/" ++ Db.treename d ++ ext))
  end.

Definition set_siglevel (d : Db.db) (level : Z) : Db.db :=
  Db.MkDb (Db.treename d) (Db.pkgcache d) (Db.grpcache d) (Db.cache_servers d) (Db.servers d) (Db.status d) level (Db.usage d).
Definition set_usage (d : Db.db) (usage : Z) : Db.db :=
  Db.MkDb (Db.treename d) (Db.pkgcache d) (Db.grpcache d) (Db.cache_servers d) (Db.servers d) (Db.status d) (Db.siglevel d) usage.

(** [_klpm_db_register_sync]; the error of the validation stays in [pm_errno]
    and is left out. *)
Definition db_register_sync (name : cstr) (level : Z) (h : opts) : option (Db.db * opts) :=
  let d := set_siglevel (Db.db_new name false) level in
  path ← db_path h d;
  v ← SyncDb.sync_db_validate (bool_decide (path <> None)) (match path with Some p => absent p | None => false end) (Db.db_get_siglevel (siglevel h) d)
        (attempts name) (Db.status d);
  let '(SyncDb.Validity _ s _) := v in
  let d := Db.set_status d s in
  Some (d, h<|dbs_sync := dbs_sync h ++ [d]|>).
(** [klpm_register_syncdb]: the database, or NULL. *)
Definition register_syncdb (name : option cstr) (level : Z) (h : opts) : option (option Db.db * opts) :=
  let h := CHECK_HANDLE h in
  let fails e := Some (None, h<|pm_errno := e|>) in
  match name with
  | None | Some [] => fails E_WRONG_ARGS
  | Some name =>
      if bool_decide ("/"%char ∈ name) then fails E_WRONG_ARGS
      else if in_trans h then fails E_TRANS_NOT_NULL
      else if strcmp name (lit "local") =? 0 then fails E_DB_NOT_NULL
      else if existsb (fun d => strcmp name (Db.treename d) =? 0) (dbs_sync h) then fails E_DB_NOT_NULL
      else '(d, h) ← db_register_sync name level h; Some (Some d, h)
  end.
Definition unregister_all_syncdbs : api := fun h =>
  let h := CHECK_HANDLE h in
  if in_trans h then RET_ERR h E_TRANS_NOT_NULL (-1) else Some (0, h<|dbs_sync := []|>).
(** [klpm_db_unregister] of the local database or of one with this name. *)
Definition db_unregister (local : bool) (d : Db.db) : api := fun h =>
  let h := CHECK_HANDLE h in
  if in_trans h then RET_ERR h E_TRANS_NOT_NULL (-1)
  else if local then Some (0, h<|db_local := None|>)
  else
    let cmp (a b : Db.db) := strcmp (Db.treename a) (Db.treename b) in
    let '(l, data) := list_remove cmp (Some <$> dbs_sync h) (Some d) in
    let h := h<|dbs_sync := omap id l|> in
    match data with None => RET_ERR h E_DB_NOT_FOUND (-1) | Some _ => Some (0, h) end.

(** [_klpm_db_register_local]: whether there is a database. *)
Definition db_register_local (h : opts) : option (bool * opts) :=
  let d := Db.db_new (lit "local") true in
  path ← db_path h d;
  let '(r, s, e) := Populate.local_db_validate (bool_decide (path <> None)) (match path with Some p => opendir p | None => Populate.Enoent end)
                      disk (Db.status d) None in
  let h := match e with Some e => h<|pm_errno := E_LOCAL e|> | None => h end in
  if r =? 0 then Some (true, h<|db_local := Some (Db.set_status d s)|>) else Some (false, h).

(** ** klpm_initialize *)

(** The directory of the system's hooks the build chooses. *)
Variable SYSHOOKDIR : cstr.
(** [snprintf] of a string into a buffer of this size. *)
Definition snprintf (size : nat) (s : cstr) : cstr := take (size - 1) s.

(** The error that is stored, or the handle. *)
Definition initialize (rootdir dbdir : option cstr) : option (oerror + opts) :=
  let h := handle_new in
  '(e, r) ← set_directory_option (Val rootdir) (root h) true;
  match e with
  | E_OK =>
      '(e, d) ← set_directory_option (Val dbdir) (dbpath h) true;
      match e with
      | E_OK =>
          r' ← r; d' ← d;
          let hookdir := snprintf (length r' + length SYSHOOKDIR) (r' ++ tail SYSHOOKDIR) in
          let lockfile' := snprintf (length d' + length (lit "db.lck") + 1) (d' ++ lit "db.lck") in
          let h : opts := h<|root := r|><|dbpath := d|><|hookdirs := [Some hookdir]|><|dbext := Some (lit ".db")|><|lockfile := Some lockfile'|> in
          '(ok, h) ← db_register_local h;
          if negb ok then Some (inl (pm_errno h)) else Some (inr (h<|parallel_downloads := 1|>))
      | e => Some (inl e)
      end
  | e => Some (inl e)
  end.

(** ** The invariant of the options *)

Definition dir_name (s : option cstr) : Prop := exists p, s = Some (p ++ lit "/").
(** A name [klpm_register_syncdb] accepts. *)
Definition db_name (n : cstr) : Prop := n <> [] /\ "/"%char ∉ n /\ n <> lit "local".
(** Directories end in a slash, no list holds NULL, assumed packages can be matched
    like provisions, the default level does not refer to itself, downloads have a
    stream, and the databases have distinct names and consistent caches. *)
Record opts_ok (h : opts) : Prop := {
  ok_dirs : Forall dir_name (hookdirs h) /\ Forall dir_name (cachedirs h);
  ok_lists w : Forall is_Some (get_list w h);
  ok_paths : dir_name (root h) /\ dir_name (dbpath h) /\ (gpgdir h = None \/ dir_name (gpgdir h));
  ok_lock : lockfile h = (fun d => d ++ lit "db.lck") <$> dbpath h;
  ok_ext : is_Some (dbext h);
  ok_assumed : Forall (fun d => dep_hashed d /\ (dep_mod d = MOD_EQ \/ dep_mod d = MOD_ANY)) (assumeinstalled h);
  ok_level : siglevel h <> Db.SIG_USE_DEFAULT;
  ok_streams : 1 <= parallel_downloads h < 2 ^ 32;
  ok_names : NoDup (Db.treename <$> dbs_sync h) /\ Forall (fun d => db_name (Db.treename d)) (dbs_sync h);
  ok_caches : Forall DbUpdate.caches_ok (dbs_sync h)
}.

(** A record in which the fields of the invariant are those of another. *)
Ltac frame := match goal with H : opts_ok _ |- _ => destruct H; split; cbn; try done end.
Lemma ok_errno h e : opts_ok h -> opts_ok (h<|pm_errno := e|>).
Proof. intros H. frame. Qed.
Lemma get_put w w' l h : get_list w' (put_list w l h) = if decide (w = w') then l else get_list w' h.
Proof. by destruct w, w'. Qed.
(** A list of the handle may become any list of strings, of directories where
    there are only those. *)
Lemma ok_put w l h : opts_ok h -> Forall is_Some l -> (w = HOOKDIRS \/ w = CACHEDIRS -> Forall dir_name l) -> opts_ok (put_list w l h).
Proof.
  intros [Hd Hl] Hs Hw.
  assert (forall w', Forall is_Some (get_list w' (put_list w l h))) as Hl' by (intros w'; rewrite get_put; by destruct (decide (w = w'))).
  destruct w; split; try done; cbn; (split; [|apply Hd] || (split; [apply Hd|])); auto.
Qed.
Lemma dir_some l : Forall dir_name l -> Forall is_Some l.
Proof. intros H. eapply Forall_impl; [exact H|]. intros x [p ->]. by exists (p ++ lit "/"). Qed.
Lemma get_dirs w h : opts_ok h -> w = HOOKDIRS \/ w = CACHEDIRS -> Forall dir_name (get_list w h).
Proof. intros [[Hh Hc]] [-> | ->]; done. Qed.

(** ** The functions *)

Lemma canonicalize_path_spec path : path <> [] -> exists p, canonicalize_path path = Some (p ++ lit "/") /\ (path = p \/ path = p ++ lit "/").
Proof.
  intros Hp. unfold canonicalize_path. destruct path as [|c p _] using rev_ind; [done|]. rewrite last_snoc. destruct (decide (c = "/"%char)) as [-> |]; [exists p; auto|].
  exists (p ++ [c]). auto.
Qed.
Lemma remove_loop_sub {A B} (fn : A -> B -> Z) l needle : forall x, x ∈ (remove_loop fn l needle).1 -> x ∈ l.
Proof.
  induction l as [|[y|] l IH]; intros x; cbn; [done| |]; destruct (remove_loop fn l needle) as [l' d]; [destruct (fn y needle =? 0)|]; cbn; set_solver.
Qed.
Lemma list_remove_Forall {A B} (P : option A -> Prop) (fn : A -> B -> Z) l needle l' d :
  list_remove fn l needle = (l', d) -> Forall P l -> Forall P l'.
Proof.
  intros E H. apply Forall_forall. intros x Hx. eapply Forall_forall; [exact H|]. destruct needle as [n|]; cbn in E; [|by injection E as <- _].
  apply (remove_loop_sub fn l n). by rewrite E.
Qed.
Lemma omap_some {A} (l : list A) : omap id (Some <$> l) = l.
Proof. induction l as [|x l IH]; cbn; [done|]. by rewrite IH. Qed.
Lemma list_remove_sublist {A B} (fn : A -> B -> Z) (l : list A) needle l' d :
  list_remove fn (Some <$> l) needle = (l', d) -> omap id l' `sublist_of` l.
Proof.
  destruct needle as [n|]; cbn; [|intros [= <- _]; by rewrite omap_some]. revert l' d.
  induction l as [|x l IH]; intros l' d; cbn; [by intros [= <- _]|]. destruct (fn x n =? 0).
  - intros [= <- _]. rewrite omap_some. by apply sublist_cons.
  - destruct (remove_loop fn (Some <$> l) n) as [l1 d1] eqn:E. intros [= <- _]. cbn. apply sublist_skip. by eapply IH.
Qed.
Lemma list_strdup_spec l : Forall is_Some l -> list_strdup l = Some l.
Proof. induction 1 as [|x l [y ->] _ IH]; [done|]. cbn. by rewrite IH. Qed.

(** The call returns, and keeps the invariant. *)
Definition safe (f : api) (h : opts) : Prop := exists ret h', f h = Some (ret, h') /\ opts_ok h'.
Lemma add_dir_spec w dir h : opts_ok h -> w = HOOKDIRS \/ w = CACHEDIRS -> dir <> [] ->
  exists p, add_dir w (Some dir) h = Some (0, put_list w (get_list w h ++ [Some (p ++ lit "/")]) (CHECK_HANDLE h)) /\
    (dir = p \/ dir = p ++ lit "/") /\ opts_ok (put_list w (get_list w h ++ [Some (p ++ lit "/")]) (CHECK_HANDLE h)).
Proof.
  intros H Hw Hd. destruct (canonicalize_path_spec dir Hd) as (p & E & Hp). exists p. unfold add_dir. rewrite E. split; [by destruct Hw as [-> | ->]|]. split; [done|].
  assert (Forall dir_name (get_list w h ++ [Some (p ++ lit "/")])) as Hf. { apply Forall_app. split; [by apply get_dirs|]. repeat constructor. by exists p. }
  apply ok_put; [by repeat apply ok_errno|by apply dir_some|done].
Qed.
Lemma add_dirs_safe w dirs : w = HOOKDIRS \/ w = CACHEDIRS -> Forall (fun d => d <> Some []) dirs -> forall h, opts_ok h -> safe (add_dirs w dirs) h.
Proof.
  intros Hw. induction 1 as [|[dir|] dirs Hd _ IH]; intros h H; [by eexists _, _| |].
  - destruct (add_dir_spec w dir h H Hw) as (p & E & _ & H'); [congruence|]. unfold safe. cbn [add_dirs]. rewrite E. cbn [mbind option_bind Z.eqb]. by apply IH.
  - unfold safe. cbn. eexists _, _. split; [done|]. by repeat apply ok_errno.
Qed.
Lemma remove_dir_safe w dir h : opts_ok h -> w = HOOKDIRS \/ w = CACHEDIRS -> dir <> Some [] -> safe (remove_dir w dir) h.
Proof.
  intros H Hw Hd. unfold safe, remove_dir. destruct dir as [dir|]; [|eexists _, _; split; [done|by repeat apply ok_errno]].
  destruct (canonicalize_path_spec dir) as (p & -> & _); [congruence|]. cbn [mbind option_bind]. destruct (list_remove strcmp _ _) as [l d] eqn:E. eexists _, _. split; [done|].
  assert (Forall dir_name l) by (eapply list_remove_Forall; [exact E|]; apply get_dirs; [by repeat apply ok_errno|done]). apply ok_put; [by repeat apply ok_errno|by apply dir_some|done].
Qed.
Lemma strlist_ok w l h : opts_ok h -> w <> HOOKDIRS -> w <> CACHEDIRS -> Forall is_Some l -> opts_ok (put_list w l (CHECK_HANDLE h)).
Proof. intros H Hw1 Hw2 Hl. apply ok_put; [by repeat apply ok_errno|done|]. by intros [? | ?]. Qed.
Lemma strlist_rem_safe w str h : opts_ok h -> w <> HOOKDIRS -> w <> CACHEDIRS -> safe (strlist_rem w str) h.
Proof.
  intros H Hw1 Hw2. unfold safe, strlist_rem. destruct (list_remove strcmp _ _) as [l d] eqn:E. eexists _, _. split; [done|].
  apply strlist_ok; [done..|]. eapply list_remove_Forall; [exact E|]. apply ok_lists. by repeat apply ok_errno.
Qed.
Lemma add_assumeinstalled_spec dep h : opts_ok h -> exists ret h', option_add_assumeinstalled dep h = Some (ret, h') /\ opts_ok h'.
Proof.
  intros H. unfold option_add_assumeinstalled. destruct (negb _) eqn:E; [eexists _, _; split; [done|by repeat apply ok_errno]|]. eexists _, _. split; [done|].
  apply negb_false_iff, orb_prop in E. rewrite !bool_decide_eq_true in E. frame. apply Forall_app. split; [done|]. by apply Forall_singleton.
Qed.
Lemma add_assumed_safe deps : forall h, opts_ok h -> safe (add_assumeinstalled deps) h.
Proof.
  induction deps as [|d deps IH]; intros h H; [by eexists _, _|]. destruct (add_assumeinstalled_spec d h H) as (ret & h' & E & H'). unfold safe. cbn [add_assumeinstalled]. rewrite E.
  cbn [mbind option_bind]. destruct (ret =? 0); [by apply IH|by eexists _, _].
Qed.

(** ** Registering databases *)

(** The user does not ask for a failing signature to be tried again forever. *)
Hypothesis attempts_end : forall n, SyncDb.check_loop (attempts n) <> None.

(** The database [_klpm_db_register_sync] makes. *)
Definition fresh_db (name : cstr) (level : Z) (d : Db.db) : Prop :=
  Db.treename d = name /\ Db.siglevel d = level /\ Db.pkgcache d = None /\ Db.servers d = [] /\ Db.cache_servers d = [] /\ Db.status d ∈ [5; 6; 9].
Lemma fresh_caches name level d : fresh_db name level d -> DbUpdate.caches_ok d.
Proof. intros (_ & _ & _ & _ & _ & Hs). unfold DbUpdate.caches_ok. repeat (apply elem_of_cons in Hs as [-> | Hs]; [done|]). by apply elem_of_nil in Hs. Qed.
Lemma db_register_sync_spec name level h : opts_ok h ->
  exists d, db_register_sync name level h = Some (d, h<|dbs_sync := dbs_sync h ++ [d]|>) /\ fresh_db name level d /\
    (Db.status d = 6 -> Db.has (Db.db_get_siglevel (siglevel h) d) SyncDb.SIG_DATABASE = true /\ SyncDb.check_loop (attempts name) <> Some 0) /\
    (Db.has (Db.db_get_siglevel (siglevel h) d) SyncDb.SIG_DATABASE = true -> Db.status d = 5 -> SyncDb.check_loop (attempts name) = Some 0).
Proof.
  intros [_ _ (_ & [p Ep] & _) _ [ext Ee]]. unfold db_register_sync, db_path. rewrite Ep, Ee. cbn [Db.has Db.status set_siglevel Db.db_new mbind option_bind].
  change (Db.has _ Db.DB_STATUS_LOCAL) with false. cbn [mbind option_bind]. rewrite bool_decide_eq_true_2 by done. unfold SyncDb.sync_db_validate.
  change (Db.clear_flag 0 Db.DB_STATUS_LOCAL) with 0. cbn [Db.has]. change (Db.has 0 _) with false. cbn [orb negb].
  destruct (absent _); [eexists; split; [done|]; split; [by split_and!; [..|vm_compute; right; right; left]|done]|].
  set (level' := Db.db_get_siglevel _ _). destruct (Db.has level' SyncDb.SIG_DATABASE) eqn:Eh; cbn [mbind option_bind].
  - destruct (SyncDb.check_loop (attempts name)) as [r|] eqn:Ec; [|by destruct (attempts_end name)]. cbn [mbind option_bind]. destruct (Z.eqb_spec r 0) as [-> |Hr].
    + eexists; split; [done|]. split; [by split_and!; [..|vm_compute; left]|]. done.
    + eexists; split; [done|]. split; [by split_and!; [..|vm_compute; right; left]|]. split; [|done]. intros _. split; [done|congruence].
  - eexists; split; [done|]. split; [by split_and!; [..|vm_compute; left]|]. split; [done|]. intros Hc. change (Db.has level' SyncDb.SIG_DATABASE = true) in Hc. congruence.
Qed.
Lemma register_syncdb_spec name level h : opts_ok h ->
  exists r h', register_syncdb (Some name) level h = Some (r, h') /\ opts_ok h' /\
    match r with
    | None => h' = h<|pm_errno := pm_errno h'|> /\ (~ db_name name \/ in_trans h = true \/ name ∈ Db.treename <$> dbs_sync h)
    | Some d => h' = h<|pm_errno := E_OK|><|dbs_sync := dbs_sync h ++ [d]|> /\ fresh_db name level d /\ db_name name /\ name ∉ Db.treename <$> dbs_sync h
    end.
Proof.
  intros H. unfold register_syncdb. destruct name as [|c n] eqn:En; [eexists None, _; split; [done|]; split; [by repeat apply ok_errno|]; split; [done|]; left; by intros [? _]|].
  rewrite <- En. case_bool_decide as Hs; [eexists None, _; split; [done|]; split; [by repeat apply ok_errno|]; split; [done|]; left; by intros (_ & ? & _)|].
  change (in_trans (CHECK_HANDLE h)) with (in_trans h). change (dbs_sync (CHECK_HANDLE h)) with (dbs_sync h). destruct (in_trans h); [eexists None, _; split; [done|]; split; [by repeat apply ok_errno|]; split; [done|]; auto|].
  destruct (Z.eqb_spec (strcmp name (lit "local")) 0) as [El%strcmp_eq|El]; [eexists None, _; split; [done|]; split; [by repeat apply ok_errno|]; split; [done|]; left; by intros (_ & _ & ?)|].
  assert (db_name name) as Hn by (split_and!; [by rewrite En|done|]; intros Eq; apply El; by apply strcmp_eq).
  destruct (existsb _ _) eqn:Ed.
  { eexists None, _; split; [done|]; split; [by repeat apply ok_errno|]; split; [done|]. right. right. apply existsb_exists in Ed as (d & Hd & Ed). apply Z.eqb_eq, strcmp_eq in Ed as ->.
    apply list_elem_of_fmap. exists d. split; [done|]. by apply list_elem_of_In. }
  assert (name ∉ Db.treename <$> dbs_sync h) as Hu.
  { intros (d & -> & Hd%list_elem_of_In)%list_elem_of_fmap. apply not_true_iff_false in Ed. apply Ed. apply existsb_exists. exists d. split; [done|]. by rewrite strcmp_refl. }
  destruct (db_register_sync_spec name level (CHECK_HANDLE h)) as (d & -> & Hf & _); [by repeat apply ok_errno|]. cbn [mbind option_bind]. exists (Some d). eexists. split; [done|].
  split; [|done]. pose proof Hf as [Ht _]. frame; [rewrite fmap_app; destruct ok_names0; split|apply Forall_app; split; [done|]].
  - apply NoDup_app. split; [done|]. split; [|apply NoDup_singleton]. intros x Hx Hx'. cbn in Hx'. apply list_elem_of_singleton in Hx'. subst x. rewrite Ht in Hx. done.
  - apply Forall_app. split; [done|]. apply Forall_singleton. by rewrite Ht.
  - apply Forall_singleton. by eapply fresh_caches.
Qed.
Lemma sublist_Forall {A} (P : A -> Prop) l l' : l `sublist_of` l' -> Forall P l' -> Forall P l.
Proof. intros Hl H. apply Forall_forall. intros x Hx. eapply Forall_forall; [exact H|]. by eapply elem_of_sublist. Qed.
Lemma sublist_ok h l : opts_ok h -> l `sublist_of` dbs_sync h -> opts_ok (h<|dbs_sync := l|>).
Proof.
  intros H Hl. frame; [|by eapply sublist_Forall]. destruct ok_names0. split; [|by eapply sublist_Forall]. eapply sublist_NoDup; [done|]. by apply fmap_sublist.
Qed.

(** ** Sequences of calls *)

Inductive call :=
  | Add (w : slist) (s : option cstr) | SetList (w : slist) (l : arg (list (option cstr))) | Remove (w : slist) (s : option cstr)
  | AddAssumed (d : depend) | SetAssumed (l : arg (list depend)) | RemoveAssumed (d : option depend)
  | SetLogfile (s : arg (option cstr)) | SetGpgdir (s : arg (option cstr)) | SetSandboxuser (s : arg (option cstr)) | SetDbext (s : arg (option cstr))
  | SetUsesyslog (v : Z) | SetCheckspace (v : Z) | SetFetchcb (v : bool) | SetDlTimeout (v : Z) | SetStreams (v : Z)
  | SetSandbox (v : Z) | SetSandboxFs (v : Z) | SetSandboxSys (v : Z)
  | SetSiglevel (v : Z) | SetLocalSiglevel (v : Z) | SetRemoteSiglevel (v : Z)
  | RegisterSync (name : option cstr) (level : Z) | UnregisterAll | Unregister (local : bool) (d : Db.db).
Definition run (c : call) : api :=
  match c with
  | Add w s =>
      match w with
      | HOOKDIRS => option_add_hookdir s | CACHEDIRS => option_add_cachedir s | NOUPGRADE => option_add_noupgrade s
      | NOEXTRACT => option_add_noextract s | IGNOREPKG => option_add_ignorepkg s | IGNOREGROUP => option_add_ignoregroup s
      | OVERWRITE => option_add_overwrite_file s | ARCHITECTURES => option_add_architecture s
      end
  | SetList w l =>
      match w with
      | HOOKDIRS => option_set_hookdirs l | CACHEDIRS => option_set_cachedirs l | NOUPGRADE => option_set_noupgrades l
      | NOEXTRACT => option_set_noextracts l | IGNOREPKG => option_set_ignorepkgs l | IGNOREGROUP => option_set_ignoregroups l
      | OVERWRITE => option_set_overwrite_files l | ARCHITECTURES => option_set_architectures l
      end
  | Remove w s =>
      match w with
      | HOOKDIRS => option_remove_hookdir s | CACHEDIRS => option_remove_cachedir s | NOUPGRADE => option_remove_noupgrade s
      | NOEXTRACT => option_remove_noextract s | IGNOREPKG => option_remove_ignorepkg s | IGNOREGROUP => option_remove_ignoregroup s
      | OVERWRITE => option_remove_overwrite_file s | ARCHITECTURES => option_remove_architecture s
      end
  | AddAssumed d => option_add_assumeinstalled d | SetAssumed l => option_set_assumeinstalled l | RemoveAssumed d => option_remove_assumeinstalled d
  | SetLogfile s => option_set_logfile s | SetGpgdir s => option_set_gpgdir s | SetSandboxuser s => option_set_sandboxuser s | SetDbext s => option_set_dbext s
  | SetUsesyslog v => option_set_usesyslog v | SetCheckspace v => option_set_checkspace v | SetFetchcb v => option_set_fetchcb v
  | SetDlTimeout v => option_set_disable_dl_timeout v | SetStreams v => option_set_parallel_downloads v
  | SetSandbox v => option_set_disable_sandbox v | SetSandboxFs v => option_set_disable_sandbox_filesystem v
  | SetSandboxSys v => option_set_disable_sandbox_syscalls v
  | SetSiglevel v => option_set_default_siglevel v | SetLocalSiglevel v => option_set_local_file_siglevel v | SetRemoteSiglevel v => option_set_remote_file_siglevel v
  | RegisterSync name level => fun h => '(d, h) ← register_syncdb name level h; Some (match d with Some _ => 0 | None => -1 end, h)
  | UnregisterAll => unregister_all_syncdbs | Unregister local d => db_unregister local d
  end.
(** The arguments the functions can take: the names of directories are not empty,
    lists hold no NULL, and where the old value is freed first the new one is the
    caller's. *)
Definition is_dirs (w : slist) : bool := match w with HOOKDIRS | CACHEDIRS => true | _ => false end.
Definition usable (c : call) : Prop :=
  match c with
  | Add w s => if is_dirs w then s <> Some [] else is_Some s
  | SetList w l => exists l', l = Val l' /\ Forall (fun s => if is_dirs w then s <> Some [] else is_Some s) l'
  | Remove w s => is_dirs w = true -> s <> Some []
  | SetAssumed l => exists l', l = Val l'
  | SetGpgdir s => exists s', s = Val s' /\ s' <> Some []
  | SetSandboxuser s | SetDbext s => exists s', s = Val s'
  | _ => True
  end.
Fixpoint run_all (cs : list call) (h : opts) : option (list Z * opts) :=
  match cs with
  | [] => Some ([], h)
  | c :: cs => '(r, h) ← run c h; '(rs, h) ← run_all cs h; Some (r :: rs, h)
  end.

Lemma set_dirs_safe w l h : opts_ok h -> w = HOOKDIRS \/ w = CACHEDIRS -> Forall (fun s => s <> Some []) l -> safe (set_dirs w (Val l)) h.
Proof. intros H Hw Hl. apply (add_dirs_safe w l Hw Hl). apply ok_put; [by repeat apply ok_errno|constructor|constructor]. Qed.
Lemma strlist_add_safe w s h : opts_ok h -> w <> HOOKDIRS -> w <> CACHEDIRS -> is_Some s -> safe (strlist_add w s) h.
Proof.
  intros H Hw1 Hw2 Hs. eexists _, _. split; [done|]. apply strlist_ok; [done..|]. apply Forall_app. split; [apply ok_lists; by repeat apply ok_errno|]. by apply Forall_singleton.
Qed.
Lemma strlist_set_safe w l h : opts_ok h -> w <> HOOKDIRS -> w <> CACHEDIRS -> Forall is_Some l -> safe (strlist_set w (Val l)) h.
Proof. intros H Hw1 Hw2 Hs. unfold safe, strlist_set. cbn [after_free mbind option_bind]. rewrite list_strdup_spec by done. eexists _, _. split; [done|]. by apply strlist_ok. Qed.
Lemma set_gpgdir_safe s h : opts_ok h -> s <> Some [] -> safe (option_set_gpgdir (Val s)) h.
Proof.
  intros H Hs. unfold safe, option_set_gpgdir, set_directory_option. destruct s as [d|].
  - destruct (canonicalize_path_spec d) as (p & -> & _); [congruence|]. eexists _, _. split; [done|]. frame. destruct ok_paths0 as (? & ? & _). split_and!; [done..|]. right. by exists p.
  - eexists _, _. split; [done|]. frame.
Qed.
Lemma add_safe w s h : opts_ok h -> usable (Add w s) -> safe (run (Add w s)) h.
Proof.
  intros H Hu. assert (forall w', w' = HOOKDIRS \/ w' = CACHEDIRS -> s <> Some [] -> safe (add_dir w' s) h) as Hd.
  { intros w' Hw Hs. destruct s as [dir|]; [|eexists _, _; split; [done|by repeat apply ok_errno]].
    destruct (add_dir_spec w' dir h H Hw) as (p & E & _ & H'); [congruence|]. by eexists _, _. }
  destruct w; cbn in Hu |- *; try (apply Hd; auto); try (by apply strlist_add_safe). destruct Hu as [a ->]. eexists _, _. split; [done|].
  apply (ok_put ARCHITECTURES (architectures h ++ [Some a])); [done| |by intros []]. apply Forall_app. split; [apply (ok_lists _ H ARCHITECTURES)|by apply Forall_singleton].
Qed.
Lemma assumed_sub h l : opts_ok h -> l `sublist_of` assumeinstalled h -> opts_ok (h<|assumeinstalled := l|>).
Proof. intros H Hl. frame. by eapply sublist_Forall. Qed.
Lemma remove_assumed_safe d h : opts_ok h -> safe (option_remove_assumeinstalled d) h.
Proof.
  intros H. unfold safe, option_remove_assumeinstalled. destruct (list_remove assumeinstalled_cmp _ d) as [l x] eqn:E. eexists _, _. split; [done|].
  apply assumed_sub; [by repeat apply ok_errno|]. by eapply list_remove_sublist.
Qed.
Lemma unregister_safe local d h : opts_ok h -> safe (db_unregister local d) h.
Proof.
  intros H. unfold safe, db_unregister. change (in_trans (CHECK_HANDLE h)) with (in_trans h). destruct (in_trans h); [eexists _, _; split; [done|by repeat apply ok_errno]|].
  destruct local; [eexists _, _; split; [done|frame]|]. destruct (list_remove _ _ _) as [l x] eqn:E. apply list_remove_sublist in E.
  destruct x; eexists _, _; (split; [done|]); [apply sublist_ok; [by repeat apply ok_errno|done]|apply ok_errno, sublist_ok; [by repeat apply ok_errno|done]].
Qed.
Lemma register_safe name level h : opts_ok h -> safe (run (RegisterSync name level)) h.
Proof.
  intros H. unfold safe. cbn [run]. destruct name as [name|]; [|eexists _, _; split; [done|by repeat apply ok_errno]].
  destruct (register_syncdb_spec name level h H) as (r & h' & -> & H' & _). by eexists _, _.
Qed.
Ltac one_field := eexists _, _; split; [done|frame].
Lemma run_safe c h : opts_ok h -> usable c -> safe (run c) h.
Proof.
  intros H Hu. destruct c; try one_field; [by apply add_safe|..].
  - destruct Hu as (l' & -> & Hl). destruct w; cbn in Hl |- *; first [by apply set_dirs_safe; auto|by apply strlist_set_safe].
  - destruct w; cbn in Hu |- *; first [by apply remove_dir_safe; auto|by apply strlist_rem_safe].
  - by apply add_assumeinstalled_spec.
  - destruct Hu as [l' ->]. apply (add_assumed_safe l'). apply assumed_sub; [by repeat apply ok_errno|apply sublist_nil_l].
  - by apply remove_assumed_safe.
  - unfold safe. cbn. unfold option_set_logfile. destruct (match s with Val f => f | Own => _ end); [one_field|]. eexists _, _; split; [done|by repeat apply ok_errno].
  - destruct Hu as (s' & -> & Hs). by apply set_gpgdir_safe.
  - destruct Hu as [[u|] ->]; [|one_field]. unfold safe. cbn. unfold option_set_sandboxuser. destruct (user_exists u); one_field.
  - destruct Hu as [[e|] ->]; one_field.
  - unfold safe. cbn. unfold option_set_parallel_downloads. destruct (Z.leb_spec 1 (u32 v)); [|eexists _, _; split; [done|by repeat apply ok_errno]].
    assert (u32 v < 2 ^ 32) by (by apply Z.mod_pos_bound). one_field.
  - unfold safe. cbn. unfold option_set_default_siglevel. destruct (Z.eqb_spec v Db.SIG_USE_DEFAULT); [eexists _, _; split; [done|by repeat apply ok_errno]|]. one_field.
  - by apply register_safe.
  - unfold safe. cbn. unfold unregister_all_syncdbs. destruct (in_trans _); [eexists _, _; split; [done|by repeat apply ok_errno]|]. eexists _, _. split; [done|].
    apply sublist_ok; [by repeat apply ok_errno|apply sublist_nil_l].
  - by apply unregister_safe.
Qed.
Lemma run_all_safe cs : Forall usable cs -> forall h, opts_ok h -> exists rets h', run_all cs h = Some (rets, h') /\ opts_ok h'.
Proof.
  induction 1 as [|c cs Hc _ IH]; intros h H; [by eexists _, _|]. destruct (run_safe c h H Hc) as (r & h1 & E1 & H1). destruct (IH h1 H1) as (rs & h2 & E2 & H2).
  cbn [run_all]. rewrite E1. cbn [mbind option_bind]. rewrite E2. by eexists _, _.
Qed.

(** ** Initialisation *)

(** [realpath] gives an absolute name, and the directory of the hooks starts and
    ends with a slash. *)
Hypothesis realpath_absolute : forall p r, realpath p = Some r -> r <> [].
Hypothesis syshookdir_dir : exists s, SYSHOOKDIR = lit "/" ++ s ++ lit "/".

(** What a path becomes that must be a directory. *)
Definition resolved (path : option cstr) (dir : cstr) : Prop :=
  exists p r, path = Some p /\ isdir p = true /\ realpath p = Some r /\ canonicalize_path r = Some dir.
Lemma set_directory_spec value : exists e s, set_directory_option (Val value) None true = Some (e, s) /\
  match e with E_OK => exists d, s = Some (d ++ lit "/") /\ resolved value (d ++ lit "/") | _ => s = None end.
Proof.
  unfold set_directory_option. destruct value as [p|]; [|by eexists _, _]. destruct (isdir p) eqn:Ei; [|by eexists _, _]. destruct (realpath p) as [r|] eqn:Er; [|by eexists _, _].
  destruct (canonicalize_path_spec r) as (d & E & _); [by eapply realpath_absolute|]. rewrite E. eexists _, _. split; [done|]. exists d. split; [done|]. by exists p, r.
Qed.
Lemma snprintf_exact n s : (length s < n)%nat -> snprintf n s = s.
Proof. intros H. apply take_ge. lia. Qed.
Lemma initialize_spec rootdir dbdir : exists r, initialize rootdir dbdir = Some r /\
  match r with
  | inl _ => True
  | inr h => opts_ok h /\ is_Some (db_local h) /\ in_trans h = false /\ dbs_sync h = [] /\ assumeinstalled h = [] /\
      exists rd dd, resolved rootdir rd /\ resolved dbdir dd /\ root h = Some rd /\ dbpath h = Some dd /\ hookdirs h = [Some (rd ++ tail SYSHOOKDIR)]
  end.
Proof.
  unfold initialize. change (root handle_new) with (@None cstr). change (dbpath handle_new) with (@None cstr).
  destruct (set_directory_spec rootdir) as (e & rd & -> & Hr). cbn [mbind option_bind]. destruct e; try (by eexists). destruct Hr as (r & -> & Hr).
  destruct (set_directory_spec dbdir) as (e & dd & -> & Hd). cbn [mbind option_bind]. destruct e; try (by eexists). destruct Hd as (d & -> & Hd). cbn [mbind option_bind].
  destruct syshookdir_dir as [sys Es]. rewrite !snprintf_exact by (rewrite ?Es, !length_app; cbn; rewrite ?length_app; cbn; lia).
  unfold db_register_local, db_path. cbn [dbpath]. set (h0 := _ <|lockfile := _|>). change (dbpath h0) with (Some (d ++ lit "/")). change (Db.has _ Db.DB_STATUS_LOCAL) with true. cbn [mbind option_bind].
  destruct (Populate.local_db_validate _ _ _ _ _) as [[z st] e]. destruct (z =? 0); [|by eexists]. cbn [mbind option_bind negb]. eexists. split; [done|].
  assert (forall e' l, opts_ok (h0<|pm_errno := e'|><|db_local := l|><|parallel_downloads := 1|>)) as H0.
  { intros e' l. assert (dir_name (Some ((r ++ lit "/") ++ tail SYSHOOKDIR))) as Hh. { exists ((r ++ lit "/") ++ sys). rewrite Es. cbn. by rewrite <- !app_assoc. }
    split; cbn; try done; try (by repeat constructor); [by intros []; repeat constructor|]. split_and!; [by exists r|by exists d|by left]. }
  split; [destruct e; apply H0|]. split; [by destruct e|]. split_and!; [by destruct e..|]. exists (r ++ lit "/"), (d ++ lit "/"). split_and!; [done..| | |]; by destruct e.
Qed.

(** The handle of [klpm_initialize] keeps its options in order under every sequence of
    calls with arguments the functions can take; every call returns. *)
Theorem handle_options_safe rootdir dbdir h cs : initialize rootdir dbdir = Some (inr h) -> Forall usable cs ->
  exists rets h', run_all cs h = Some (rets, h') /\ length rets = length cs /\ opts_ok h'.
Proof.
  intros Hi Hcs. destruct (initialize_spec rootdir dbdir) as (r & E & Hr). rewrite Hi in E. injection E as <-. destruct Hr as [Hok _].
  destruct (run_all_safe cs Hcs h Hok) as (rets & h' & E & Hok'). exists rets, h'. split_and!; [done| |done].
  clear -E. revert h rets h' E. induction cs as [|c cs IH]; intros h rets h' E; cbn [run_all] in E; [by injection E as <- _|].
  destruct (run _ _) as [[r h1]|]; [|done]. cbn in E. destruct (run_all cs h1) as [[rs h2]|] eqn:E2; [|done]. injection E as <- _. cbn. by rewrite (IH _ _ _ E2).
Qed.
End Api.

(** ** Defects *)

(** [canonicalize_path] looks at the byte in front of an empty path. *)
Theorem empty_path_overread : canonicalize_path [] = None.
Proof. done. Qed.
End Options.
